(* ===== verification/_CoqProject ===== *)
-Q . S2P
Prelude.v
Metadata.v
Needle.v
Segment.v
Pathing.v
Wal.v
WalRecovery.v
Materialize.v
Placement.v
Erasure.v
Backend.v
ErasureDecode.v
ErasurePut.v
Policy.v
Lifecycle.v
Caches.v
Heal.v
RaftLog.v
RaftFsm.v
RaftAdapter.v
FileSys.v
LocalVolume.v
LocalObjects.v
VolumeRestart.v
VolumePool.v
PoolSpec.v
PoolRefine.v
PoolStream.v
PoolSettings.v
Config.v
VolumeFormat.v
Topology.v
ClusterManager.v
Multipart.v
MultipartSpec.v
Internode.v
StorageServer.v
RemoteVolume.v
RemoteSpec.v
PeerReplica.v
Startup.v
NodeLife.v
LocalBackend.v
LocalWriters.v
RaftVote.v
RaftNet.v
RaftRuntime.v
S3Service.v
LifecyclePass.v
S3Spec.v
S3Settings.v
S3Demo.v
Admin.v
AdminSpec.v
Metrics.v
Timing.v
