(* ===== verification/Prelude.v ===== *)
(** * A verification of AbixIO, an erasure-coded object store

    AbixIO serves the S3 protocol from a pool of volumes.  An object is cut into
    blocks, every block into data and parity shards, and every shard stored on a
    volume of its own.  A small write is acknowledged once it is in the volume's
    write-ahead log; workers later turn log entries into files.  Reads rebuild the
    object from any [data] shards; failed writes and lost shards are repaired in the
    background; policies decide who may do what; lifecycle rules expire objects.

    This library translates the core of the server, source file by source file, into
    executable definitions and proves what makes each part correct.

    ** Files

    - [Prelude] (this file): bytes, results, machine integers, slices, UTF-8,
      splitting; the tactics [lens] and [by_decide] and the database [lens].
    - [Metadata]: [storage/metadata.rs], [storage/bitrot.rs], the errors of
      [storage/mod.rs].  Digests are the class [Hashes].
    - [Needle]: [storage/needle.rs], the record format of the log.
    - [Segment]: [storage/segment.rs], append-only files of needles.
    - [Pathing]: [storage/pathing.rs], name validation and path construction.
    - [Wal]: [storage/wal.rs] up to [loc_to_entry], the log as a pending map over
      segments.  [WalRecovery]: what its files hold during a run, and what a restart
      makes of them; runs with crashes ([log_ops]).
    - [Materialize]: the rest of [storage/wal.rs] and the small-object branch of
      [LocalVolume::write_shard]; puts, workers, channels, log and files as one
      state machine ([mat_step]).
    - [Placement]: [cluster/placement.rs], which volumes get the shards.
    - [Erasure]: the pure part of [storage/erasure_encode.rs], with Reed-Solomon as
      the class [ReedSolomon] and its contract [ReedSolomonOk]; XOR parity is an
      instance.
    - [Backend]: the interface of a volume (traits of [storage/mod.rs]) with its
      laws, and a volume in memory that satisfies them.  Opening a writer and writing
      through it change the volume.
    - [ErasureDecode]: [storage/erasure_decode.rs], the readers.
    - [ErasurePut]: the rest of [storage/erasure_encode.rs], the writer, proved
      against the laws of [Backend].
    - [Policy]: [policy/] and [s3_access.rs].
    - [Lifecycle]: [lifecycle/], the filter, the evaluator and the pass over a bucket.
      [LifecyclePass]: the pass over the pool, stale uploads.
    - [Caches]: [storage/write_cache.rs] and [storage/read_cache.rs].
    - [Heal]: [heal/], the repair queue, the scanner and the repair of an object.
    - [RaftLog]: [raft/storage/log.rs], the replicated log in one file.
    - [RaftFsm]: [raft/fsm/] and [raft/storage/snapshot.rs], the replicated state
      machine and its snapshot files.
    - [RaftAdapter]: [raft/adapter/log.rs] and [fsm.rs], what openraft calls.
      [RaftVote]: [raft/storage/meta.rs] and the adapter's votes, on a disk whose
      unsynced data and directory entries a power failure may take back.  [RaftNet]:
      [raft/adapter/network.rs], how raft messages reach a peer.  [RaftRuntime]:
      [raft/runtime.rs], the instance opened on its directory.
    - [FileSys]: files and directories, the calls of [std::fs] the volume uses.
    - [LocalVolume]: [storage/local_volume.rs], one definition per operation;
      [LocalObjects]: what its files mean, versions as a map, settings.
      [VolumeRestart]: a volume that starts again on its log.
    - [VolumePool]: [storage/volume_pool.rs], every operation of the store in a monad
      of state, errors and panics ([PoolM]), over the classes [PoolBackend] and
      [PeerCache].  [PoolSpec]: the laws of the volumes and the invariant [coherent]
      between the caches and the volumes.  [PoolRefine]: the pool as a map from keys
      to objects; a volume in memory.  [PoolStream]: large objects.  [PoolSettings]:
      buckets, their settings and coding parameters.
    - [Config]: [config.rs], durations, [{1...4}] ranges and validation.
    - [VolumeFormat]: [storage/volume.rs], the identity file of a volume.
    - [Topology]: [cluster/topology.rs] and [cluster/identity.rs], the nodes and
      volumes of a cluster, and how a node learns which of them it is.
    - [ClusterManager]: [cluster/mod.rs], when a node serves data and when it is fenced.
    - [Multipart]: [multipart/mod.rs], one definition per operation.  [MultipartSpec]:
      the files of an upload as a table, and what an upload means.
    - [Internode]: [storage/internode_auth.rs] and the messages between nodes.
      [StorageServer]: [storage/storage_server.rs], the handlers a node offers to its
      peers.  [RemoteVolume]: [storage/remote_volume.rs] and [storage/peer_cache.rs],
      their callers.  [RemoteSpec]: a call over the wire and the operation it stands
      for; [PeerReplica]: replicas of cached writes.
    - [Startup]: [main.rs], the volumes, the pool and the clients of a node.  [NodeLife]:
      its accept loop, its tasks, its shutdown, and runs with restarts between.
    - [LocalBackend]: the local volume as one of the volumes of a pool: the instances of
      the backend traits, the shape of its tree, and the laws of the pool.
      [LocalWriters]: its streaming writers and the laws of the erasure layer and of
      healing.
    - [S3Service]: [s3_service.rs] and [s3_auth.rs], one definition per handler over the
      pool and [Multipart].  [S3Spec]: conditional requests, ranges, and the object
      requests as operations on a map.  [S3Settings]: the requests on the settings of a
      bucket.  [S3Demo]: the service on volumes in memory.
    - [Admin]: [admin/] and [s3_route.rs], the administration API and the choice between
      it, the storage RPC and S3.  [AdminSpec]: what they promise.
    - [Metrics]: [metrics/] and the code that writes metrics, as lists of atomic changes
      of a shared registry.  [Timing]: [timing.rs] and the end of a dispatch.

    ** How the code is translated

    A struct is a record with the source's fields, an enum an inductive type, a
    function a function of the same name.  State is passed explicitly; [Result] is
    [result] with the bind [x ← e; k] for [?]; a panic is [None].  [u64], [u32] and
    the like are [N] with [wrap] where the source casts or an overflow can occur;
    [usize] counts are [nat].  A [HashMap] is a [gmap], a file its bytes, a directory
    a map from paths.  The clock is an argument.  Crates (hashes, codecs, UUIDs,
    Reed-Solomon, the JSON parser) are type classes or arguments, with their
    documented behaviour as named laws and an instance that satisfies them.
    Concurrency is a step relation or a list of labels over the shared state
    ([mat_step], [mrf_step]); [await] points between which the state may change are
    separate steps.

    Loops that are not structural take fuel.  [Segment.open_loop] and [scan_loop] use
    at most one round per header in the file, [ErasureDecode.stream_loop] at least a
    byte per round, [Erasure.full_blocks] a block per round, [Policy.glob_fuel] bounds
    the backtracking of the matcher by the product of the lengths,
    [RaftLog.rebuild_index] takes the length of the file (a record has a header) and
    [LocalVolume.walk_keys] and [Multipart.walk_uploads] the depth of the tree,
    [Config.expand_fuel] the number of opening braces, and [Topology.discover] the
    rounds the source allows itself; the theorems about them state the
    result with that fuel, so the loops end.

    ** What is proved

    - Format and log: a needle survives serialization, the parsers accept only what
      they can read in bounds, appending keeps a segment intact, and after a restart a
      scan finds exactly the needles that were appended.
    - Log and workers: the log implements a map from keys to the last value under any
      sequence of appends and materializations; under any schedule of the workers a
      read returns the last acknowledged put; a worker leaves the right files.  Under
      any number of crashes the log holds exactly the acknowledged objects that have
      no file yet, and a restarted volume answers as it did before.
    - Placement: it succeeds exactly when there are enough disks, never uses a disk
      twice and spreads the shards over the nodes as evenly as possible.
    - Erasure coding: an acknowledged PUT can be read back with any quorum of disks,
      for every number of blocks and chunking of the body.
    - Volume pool: under any sequence of puts, deletes, flushes, reads and listings
      of small objects the caches and the volumes together implement a map; a large
      PUT that is acknowledged reads back as a stream; the coding parameters a write
      uses always fit the volumes; settings written are the settings read.
      Over any number of orderly restarts a node still implements one map.  These are
      proved for volumes that keep laws stated for the names in use ([ObjectNames]), and
      [LocalBackend] proves the laws of the local volume without a log, for names none
      of which lies below another; with nested names deleting one object destroys
      another, and with the log a deletion can bring back an older object.
    - Local volume: shards, streamed shards and versions read back as written, a
      listing holds exactly the objects, versions implement a map.
    - Raft: the log file implements the contract openraft asks of a log store, a
      replica that installs a snapshot equals one that applied the log, operations
      change exactly their table, snapshots read back; a power failure at any point of
      a save leaves a whole vote, though perhaps an older one; a message that bincode can
      carry is handled once by the peer and answered; an
      instance opened again replays its log to the same state.
    - Healing: a repair restores every missing shard and
      touches nothing else, and a PUT followed by a repair survives the loss of any
      [parity] disks; the queue is bounded and free of duplicates, the worker repairs
      its entries in order, the scanner queues what it finds degraded.
    - Paths: no name escapes the volume's root or reaches its system directory, and
      distinct objects have distinct directories.
    - Policies: the decision is deny over allow over owner, the access hook enforces
      it, the glob matcher agrees with its declarative meaning on bytes.
    - Lifecycle: the evaluator picks the earliest due event and never acts on an
      object no enabled rule covers, and the pass keeps the retained versions; on
      unversioned buckets a pass over the pool removes exactly the expired objects.
    - Multipart: whatever parts are put, replaced and chosen, completing an upload gives
      an object that reads back as the chosen parts in order, from any quorum of disks.
    - Start-up: ranges expand to their combinations up to the first pair of braces that
      is none, an accepted configuration is well formed; a node keeps its identity after
      a restart; nodes that exchanged their identities would agree on the cluster, but no
      node answers the exchange and a first boot with others never ends; a node builds one backend for each volume of its identity and
      a pool with the caches it was asked for.
    - Cluster: a node serves data only with a quorum, follows the majority of the
      answers it counts, and a fenced node is fenced after a restart.
    - Caches: both implement bounded maps with exact accounting; draining and
      invalidation touch exactly the entries they should.
    - Between nodes: every operation on a remote volume gives the result and the
      effect of the operation on the volume itself, errors included; a request is
      accepted exactly within the window of its token and its clock; a write that was
      replicated to a peer comes back from it, once.
    - S3: under any sequence of requests on small objects the service answers as a map
      from keys to objects would, ranges and conditions included; the requests on the
      settings of buckets implement a table; conditions are evaluated as RFC 7232 asks
      where at most one condition of each kind is present, and a range is the bytes it
      names.
    - Administration: an inspection says exactly which shards are where; a fenced node
      answers without changing anything but by destaging its write cache; no bucket is
      hidden behind the other services.
    - Metrics: however the changes of requests, scrapes and passes mix, the request
      metrics are exact; a scrape shows the state of the node; the timing header of an
      answer reads back as the layers of the request.

    Some theorems state that the code does not do what it means to: a buffered read of
    more than one block, the rollback of a failed overwrite, the repair of an overwrite
    that reached few disks, recovery of an overwrite, and others in their files.

    ** What is not modelled

    Failing system calls beyond those that the interfaces return, poisoned locks, the
    allocation of buffers, logging, timing spans inside the handlers, the text of the
    metrics; of [main.rs], the wiring of the S3 service and the loading of certificates.
    The openraft, s3s, hyper and reqwest crates are parameters where a definition needs
    them. *)

From Stdlib Require Import Ascii String NArith Lia.
From stdpp Require Import base list gmap strings numbers pretty.

Open Scope nat_scope.

(** * Automation

    [lens] decides an equation or inequality between lengths; the database holds
    the length of every list operation the models use.  [by_decide] proves a closed
    decidable proposition by evaluating its decision procedure. *)

Create HintDb lens.
#[export] Hint Rewrite @length_app @length_map @length_replicate @length_seq @length_take
  @length_drop @length_insert @length_zip_with @length_imap @length_resize : lens.

Ltac lens :=
  first [ autorewrite with lens; lia
        | autorewrite with lens in *; lia
        | simpl in *; autorewrite with lens in *; simpl in *; lia ].

Ltac by_decide := apply (bool_decide_unpack _); vm_compute; exact I.

(** * Bytes and byte strings

    A [u8] is an [ascii] (eight bits, so every value of the type is a byte), a
    [Vec<u8>] or [&[u8]] a [list ascii], and a Rust [String]/[&str] a Rocq
    [string], read as its UTF-8 bytes: [str::len] is [String.length]. *)

Abbreviation byte := ascii.
Abbreviation bytes := (list ascii).
Abbreviation bytes_of := list_ascii_of_string.
Abbreviation string_of := string_of_list_ascii.

Definition byte_val (b : byte) : N := N_of_ascii b.

Definition zero_byte : byte := ascii_of_N 0.

(** * Errors as values

    [Result<A, E>]; the bind is stdpp's [x ← e; k], the [?] of the source. *)

Inductive result (E A : Type) : Type :=
| Ok (a : A)
| Err (e : E).
Arguments Ok {E A} a.
Arguments Err {E A} e.

Global Instance result_ret (E : Type) : MRet (result E) := fun A a => Ok a.
Global Instance result_bind (E : Type) : MBind (result E) :=
  fun A B f r => match r with Ok a => f a | Err e => Err e end.
Global Instance result_fmap (E : Type) : FMap (result E) :=
  fun A B f r => match r with Ok a => Ok (f a) | Err e => Err e end.

Definition ok_or {E A : Type} (o : option A) (e : E) : result E A :=
  match o with Some a => Ok a | None => Err e end.

Definition result_ok {E A : Type} (r : result E A) : option A :=
  match r with Ok a => Some a | Err _ => None end.

Definition is_ok {E A : Type} (r : result E A) : bool :=
  match r with Ok _ => true | Err _ => false end.

Definition map_err {E F A : Type} (f : E -> F) (r : result E A) : result F A :=
  match r with Ok a => Ok a | Err e => Err (f e) end.

Lemma result_bind_Ok {E A B : Type} (r : result E A) (f : A -> result E B) b :
  r ≫= f = Ok b <-> exists a, r = Ok a /\ f a = Ok b.
Proof. destruct r; simpl; naive_solver. Qed.

(** * Machine integers: the [as uN] casts and the little-endian layout *)

Definition wrap (bits : N) (v : N) : N := (v mod 2 ^ bits)%N.

Abbreviation as_u8 := (wrap 8).
Abbreviation as_u16 := (wrap 16).
Abbreviation as_u32 := (wrap 32).
Abbreviation as_u64 := (wrap 64).

Definition u64_max : N := (2 ^ 64 - 1)%N.

(** [u64::saturating_add], [saturating_mul] and [saturating_sub]. *)
Definition u64_sat_add (a b : N) : N := N.min (a + b) u64_max.
Definition u64_sat_mul (a b : N) : N := N.min (a * b) u64_max.
Definition u64_sat_sub (a b : N) : N := (a - b)%N.

Lemma wrap_small bits v : (v < 2 ^ bits)%N -> wrap bits v = v.
Proof. apply N.mod_small. Qed.

Lemma wrap_lt bits v : (wrap bits v < 2 ^ bits)%N.
Proof. apply N.mod_lt, N.pow_nonzero; lia. Qed.

Fixpoint le_bytes (n : nat) (v : N) : bytes :=
  match n with
  | O => []
  | S n' => ascii_of_N (v mod 256) :: le_bytes n' (v / 256)
  end.

Fixpoint le_val (bs : bytes) : N :=
  match bs with
  | [] => 0%N
  | b :: r => (byte_val b + 256 * le_val r)%N
  end.

Lemma byte_val_lt b : (byte_val b < 256)%N.
Proof. unfold byte_val. apply N_ascii_bounded. Qed.

Lemma byte_val_inj b1 b2 : byte_val b1 = byte_val b2 -> b1 = b2.
Proof.
  unfold byte_val. intros H.
  rewrite <- (ascii_N_embedding b1), <- (ascii_N_embedding b2). by f_equal.
Qed.

Lemma byte_val_of_N v : (v < 256)%N -> byte_val (ascii_of_N v) = v.
Proof. apply N_ascii_embedding. Qed.

Lemma length_le_bytes n v : length (le_bytes n v) = n.
Proof. revert v; induction n as [|n IH]; intros v; simpl; [done|]. by rewrite IH. Qed.
#[export] Hint Rewrite @length_le_bytes : lens.

Lemma le_val_le_bytes n v : le_val (le_bytes n v) = (v mod 2 ^ (8 * N.of_nat n))%N.
Proof.
  revert v; induction n as [|n IH]; intros v.
  { simpl. by rewrite N.mod_1_r. }
  cbn [le_bytes le_val]. rewrite IH, byte_val_of_N by (apply N.mod_lt; lia).
  replace (8 * N.of_nat (S n))%N with (8 + 8 * N.of_nat n)%N by lia.
  rewrite N.pow_add_r. change (2 ^ 8)%N with 256%N.
  rewrite N.Div0.mod_mul_r. lia.
Qed.

Lemma le_val_le_bytes_small n v :
  (v < 2 ^ (8 * N.of_nat n))%N -> le_val (le_bytes n v) = v.
Proof. intros H. rewrite le_val_le_bytes. by apply N.mod_small. Qed.

Lemma le_bytes_le_val bs : le_bytes (length bs) (le_val bs) = bs.
Proof.
  induction bs as [|b bs IH]; [done|]. cbn [length le_val le_bytes].
  pose proof (byte_val_lt b) as Hb.
  replace (byte_val b + 256 * le_val bs)%N with (byte_val b + le_val bs * 256)%N by lia.
  rewrite N.Div0.mod_add, N.mod_small, N.div_add, N.div_small by lia.
  rewrite N.add_0_l, IH. f_equal. unfold byte_val. apply ascii_N_embedding.
Qed.

Lemma le_val_lt bs : (le_val bs < 2 ^ (8 * N.of_nat (length bs)))%N.
Proof.
  induction bs as [|b bs IH]; [simpl; lia|].
  cbn [le_val length].
  replace (8 * N.of_nat (S (length bs)))%N with (8 + 8 * N.of_nat (length bs))%N by lia.
  rewrite N.pow_add_r. change (2 ^ 8)%N with 256%N. pose proof (byte_val_lt b). nia.
Qed.

(** * Slices

    [slice off len l] is [&l[off..off+len]] and [splice off src dst] is
    [dst[off..off+src.len()].copy_from_slice(src)]; [None] is the panic of an
    index out of range. *)

Definition slice {A : Type} (off len : nat) (l : list A) : option (list A) :=
  if decide (off + len <= length l) then Some (take len (drop off l)) else None.

Definition splice {A : Type} (off : nat) (src dst : list A) : option (list A) :=
  if decide (off + length src <= length dst)
  then Some (take off dst ++ src ++ drop (off + length src) dst)
  else None.

Lemma slice_Some {A} off len (l s : list A) :
  slice off len l = Some s <-> off + len <= length l /\ s = take len (drop off l).
Proof. unfold slice. case_decide; naive_solver. Qed.

Lemma slice_length {A} off len (l s : list A) :
  slice off len l = Some s -> length s = len.
Proof. intros [? ->]%slice_Some. rewrite length_take, length_drop. lia. Qed.

Lemma slice_app_l {A} off len (l k : list A) :
  off + len <= length l -> slice off len (l ++ k) = slice off len l.
Proof.
  intros H. unfold slice. rewrite !decide_True by (rewrite ?length_app; lia).
  f_equal. rewrite drop_app_le by lia. rewrite take_app_le; [done|].
  rewrite length_drop. lia.
Qed.

Lemma slice_app_mid {A} (a b c : list A) :
  slice (length a) (length b) (a ++ b ++ c) = Some b.
Proof.
  apply slice_Some. rewrite !length_app. split; [lia|].
  by rewrite drop_app_length, take_app_length.
Qed.

Lemma slice_app_mid' {A} (a b c : list A) off len :
  off = length a -> len = length b -> slice off len (a ++ b ++ c) = Some b.
Proof. intros -> ->. apply slice_app_mid. Qed.

Lemma slice_all {A} (l : list A) : slice 0 (length l) l = Some l.
Proof. apply slice_Some. split; [lia|]. by rewrite drop_0, firstn_all. Qed.

Lemma slice_slice {A} off len o2 l2 (l s : list A) :
  slice off len l = Some s -> o2 + l2 <= len -> slice o2 l2 s = slice (off + o2) l2 l.
Proof.
  intros Hs Hle. pose proof (slice_length _ _ _ _ Hs) as Hlen.
  apply slice_Some in Hs as [Hb ->]. unfold slice.
  rewrite !decide_True by lia. f_equal.
  rewrite take_drop_commute, take_take, Nat.min_l by lia.
  by rewrite <- take_drop_commute, drop_drop.
Qed.

Lemma splice_Some {A} off (src dst r : list A) :
  splice off src dst = Some r <->
  off + length src <= length dst /\
  r = take off dst ++ src ++ drop (off + length src) dst.
Proof. unfold splice. case_decide; naive_solver. Qed.

Lemma splice_length {A} off (src dst r : list A) :
  splice off src dst = Some r -> length r = length dst.
Proof.
  intros [? ->]%splice_Some. rewrite !length_app, length_take, length_drop. lia.
Qed.

Lemma splice_is_Some {A} off (src dst : list A) :
  off + length src <= length dst -> is_Some (splice off src dst).
Proof. intros H. unfold splice. rewrite decide_True by done. by eexists. Qed.

Lemma splice_app_mid {A} (a b c src : list A) :
  length src = length b -> splice (length a) src (a ++ b ++ c) = Some (a ++ src ++ c).
Proof.
  intros H. apply splice_Some. rewrite !length_app. split; [lia|].
  rewrite take_app_length. f_equal. f_equal.
  rewrite drop_app_ge, drop_app_ge by lia.
  replace (_ - _ - _) with 0 by lia. by rewrite drop_0.
Qed.

Lemma splice_app {A} off (pre post src : list A) :
  off = length pre -> length src <= length post ->
  splice off src (pre ++ post) = Some ((pre ++ src) ++ drop (length src) post).
Proof.
  intros -> H. apply splice_Some. rewrite length_app. split; [lia|].
  rewrite take_app_length, <- app_assoc. do 2 f_equal.
  rewrite drop_app_ge by lia. f_equal. lia.
Qed.

(** * Strings as the source uses them *)

Definition str_bytes_eqb (a b : bytes) : bool := bool_decide (a = b).

(** [str::starts_with] for a string pattern. *)
Fixpoint prefixb (p l : bytes) : bool :=
  match p, l with
  | [], _ => true
  | _ :: _, [] => false
  | x :: p', y :: l' => Ascii.eqb x y && prefixb p' l'
  end.

Definition starts_with (p s : string) : bool := prefixb (bytes_of p) (bytes_of s).

(** [str::contains] for a string pattern. *)
Fixpoint containsb (p l : bytes) : bool :=
  prefixb p l || match l with [] => false | _ :: l' => containsb p l' end.

Definition contains (p s : string) : bool := containsb (bytes_of p) (bytes_of s).

(** [str::split] for a one-byte separator: n separators give n+1 pieces. *)
Fixpoint split_on (c : byte) (l : bytes) : list bytes :=
  match l with
  | [] => [[]]
  | x :: r =>
      if Ascii.eqb x c then [] :: split_on c r
      else match split_on c r with
           | h :: t => (x :: h) :: t
           | [] => [[x]]
           end
  end.

Definition split (c : byte) (s : string) : list string :=
  map string_of (split_on c (bytes_of s)).

Fixpoint join_with (c : byte) (ls : list bytes) : bytes :=
  match ls with
  | [] => []
  | [l] => l
  | l :: r => l ++ c :: join_with c r
  end.

Lemma split_on_nonempty c l : split_on c l <> [].
Proof. destruct l as [|x l]; simpl; [done|]. destruct (Ascii.eqb x c); [done|]. by destruct (split_on c l). Qed.

(** The pieces of a split hold no separator, and joining them gives the string back. *)
Lemma split_on_no_sep c l : Forall (fun p => c ∉ p) (split_on c l).
Proof.
  induction l as [|x l IH]; simpl.
  { constructor; [set_solver|constructor]. }
  destruct (Ascii.eqb_spec x c) as [->|Hne].
  - constructor; [set_solver|done].
  - destruct (split_on c l) as [|h t]; inversion_clear IH; constructor; set_solver.
Qed.

Lemma join_split_on c l : join_with c (split_on c l) = l.
Proof.
  induction l as [|x l IH]; [done|]. simpl.
  destruct (Ascii.eqb_spec x c) as [->|Hne].
  - pose proof (split_on_nonempty c l). destruct (split_on c l); [done|]. simpl in *. by f_equal.
  - pose proof (split_on_nonempty c l) as Hn.
    destruct (split_on c l) as [|h [|h2 t]]; [done| |]; simpl in *; by f_equal.
Qed.

Lemma split_on_inj c l1 l2 : split_on c l1 = split_on c l2 -> l1 = l2.
Proof. intros H. by rewrite <- (join_split_on c l1), H, join_split_on. Qed.

Lemma bytes_of_inj s1 s2 : bytes_of s1 = bytes_of s2 -> s1 = s2.
Proof.
  intros H. by rewrite <- (string_of_list_ascii_of_string s1), H,
    string_of_list_ascii_of_string.
Qed.

Lemma bytes_of_string_of l : bytes_of (string_of l) = l.
Proof. apply list_ascii_of_string_of_list_ascii. Qed.

Lemma string_of_bytes_of s : string_of (bytes_of s) = s.
Proof. apply string_of_list_ascii_of_string. Qed.

Lemma string_of_inj l1 l2 : string_of l1 = string_of l2 -> l1 = l2.
Proof. intros H. by rewrite <- (bytes_of_string_of l1), H, bytes_of_string_of. Qed.

Lemma bytes_of_app a b : bytes_of (a +:+ b) = bytes_of a ++ bytes_of b.
Proof. induction a as [|c a IH]; [done|]. cbn. by rewrite <- IH. Qed.

Lemma length_bytes_of s : length (bytes_of s) = String.length s.
Proof. induction s as [|c s IH]; simpl; [done|]. by rewrite IH. Qed.
#[export] Hint Rewrite @length_bytes_of : lens.

Lemma string_length_string_of l : String.length (string_of l) = length l.
Proof. by rewrite <- length_bytes_of, bytes_of_string_of. Qed.

Lemma split_inj c s1 s2 : split c s1 = split c s2 -> s1 = s2.
Proof.
  unfold split. intros H. apply bytes_of_inj, (split_on_inj c).
  apply (f_equal (map bytes_of)) in H. rewrite !map_map in H.
  rewrite !(map_ext _ id bytes_of_string_of), !map_id in H. done.
Qed.

Lemma prefixb_spec p l : prefixb p l = true <-> p `prefix_of` l.
Proof.
  revert l; induction p as [|x p IH]; intros l; simpl.
  { split; [intros _; apply prefix_nil|done]. }
  destruct l as [|y l].
  { split; [done|]. by intros [k Hk]. }
  rewrite andb_true_iff, Ascii.eqb_eq, IH. split.
  - intros [-> ?]. by apply prefix_cons.
  - intros [k Hk]. simpl in Hk. simplify_eq. split; [done|]. by exists k.
Qed.

Lemma containsb_spec p l : containsb p l = true <-> exists a b, l = a ++ p ++ b.
Proof.
  induction l as [|y l IH]; simpl; rewrite orb_true_iff, prefixb_spec.
  - split.
    + intros [[k Hk]|[=]]. by exists [], k.
    + intros (a & b & Hab). left. destruct a; [|done]. simpl in Hab. by exists b.
  - rewrite IH. split.
    + intros [[k Hk]|(a & b & ->)]; [by exists [], k|by exists (y :: a), b].
    + intros ([|z a] & b & Hab); simpl in Hab.
      * left. by exists b.
      * right. simplify_eq. by exists a, b.
Qed.

(** * UTF-8

    [utf8_valid] is the test of [std::str::from_utf8] (RFC 3629: no overlong
    form, no surrogate, nothing above U+10FFFF). *)

Definition in_range (lo hi : N) (b : byte) : bool :=
  (lo <=? byte_val b)%N && (byte_val b <=? hi)%N.

Definition is_cont (b : byte) : bool := in_range 0x80 0xBF b.

Fixpoint utf8_valid (l : bytes) : bool :=
  match l with
  | [] => true
  | a :: l1 =>
      if in_range 0x00 0x7F a then utf8_valid l1
      else match l1 with
      | [] => false
      | b :: l2 =>
          if in_range 0xC2 0xDF a then is_cont b && utf8_valid l2
          else match l2 with
          | [] => false
          | c :: l3 =>
              if in_range 0xE0 0xEF a then
                (if in_range 0xE0 0xE0 a then in_range 0xA0 0xBF b
                 else if in_range 0xED 0xED a then in_range 0x80 0x9F b
                 else is_cont b) && is_cont c && utf8_valid l3
              else match l3 with
              | [] => false
              | d :: l4 =>
                  in_range 0xF0 0xF4 a &&
                  (if in_range 0xF0 0xF0 a then in_range 0x90 0xBF b
                   else if in_range 0xF4 0xF4 a then in_range 0x80 0x8F b
                   else is_cont b) && is_cont c && is_cont d && utf8_valid l4
              end
          end
      end
  end.

Definition from_utf8 (l : bytes) : option string :=
  if utf8_valid l then Some (string_of l) else None.

Lemma from_utf8_bytes_of s : utf8_valid (bytes_of s) = true -> from_utf8 (bytes_of s) = Some s.
Proof. intros H. unfold from_utf8. by rewrite H, string_of_bytes_of. Qed.

(** A slice whose bounds the caller has already checked. *)
Definition sub_list {A : Type} (off len : nat) (l : list A) : list A := take len (drop off l).

Lemma slice_sub_list {A} off len (l : list A) :
  off + len <= length l -> slice off len l = Some (sub_list off len l).
Proof. intros H. by apply slice_Some. Qed.

Lemma sub_list_app_mid {A} (a b c : list A) off len :
  off = length a -> len = length b -> sub_list off len (a ++ b ++ c) = b.
Proof. intros -> ->. unfold sub_list. by rewrite drop_app_length, take_app_length. Qed.

Lemma length_sub_list {A} off len (l : list A) :
  off + len <= length l -> length (sub_list off len l) = len.
Proof. intros H. unfold sub_list. rewrite length_take, length_drop. lia. Qed.

Lemma sub_list_join {A} off a b (l : list A) :
  sub_list off a l ++ sub_list (off + a) b l = sub_list off (a + b) l.
Proof. unfold sub_list. rewrite <- drop_drop. by rewrite take_take_drop. Qed.

Lemma le_bytes_sub_list n off (l : bytes) :
  off + n <= length l -> le_bytes n (le_val (sub_list off n l)) = sub_list off n l.
Proof.
  intros H. pose proof (length_sub_list off n l H) as Hl.
  rewrite <- Hl at 1. apply le_bytes_le_val.
Qed.

Lemma le_val_sub_list_lt n off (l : bytes) :
  off + n <= length l -> (le_val (sub_list off n l) < 2 ^ (8 * N.of_nat n))%N.
Proof. intros H. pose proof (le_val_lt (sub_list off n l)) as Hl. by rewrite length_sub_list in Hl. Qed.

Lemma sub_list_shift {A} off len (pre x : list A) :
  sub_list (length pre + off) len (pre ++ x) = sub_list off len x.
Proof. unfold sub_list. by rewrite <- drop_drop, drop_app_length. Qed.

Lemma sub_list_app_l {A} off len (l k : list A) :
  off + len <= length l -> sub_list off len (l ++ k) = sub_list off len l.
Proof.
  intros H. unfold sub_list. rewrite drop_app_le by lia. apply take_app_le.
  rewrite length_drop. lia.
Qed.

Lemma Forall2_Forall_and_l {A B} (P : A -> Prop) (R : A -> B -> Prop) l k :
  Forall P l -> Forall2 R l k -> Forall2 (fun x y => P x /\ R x y) l k.
Proof. intros HP HR. induction HR; inversion_clear HP; constructor; auto. Qed.

(** * The byte-wise order of Rust's [str] *)

Definition str_le (a b : string) : Prop := String.leb a b = true.

Global Instance str_le_dec a b : Decision (str_le a b).
Proof. unfold str_le. apply _. Defined.

Global Instance str_le_total : Total str_le.
Proof. intros a b. unfold str_le. apply String.leb_total. Qed.

Global Instance str_le_anti : AntiSymm eq str_le.
Proof. intros a b. apply String.leb_antisym. Qed.

Lemma str_compare_trans a b c :
  String.compare a b <> Gt -> String.compare b c <> Gt -> String.compare a c <> Gt.
Proof.
  revert b c. induction a as [|x a IH]; intros [|y b] [|z c]; cbn; try done.
  unfold Ascii.compare.
  destruct (N.compare_spec (N_of_ascii x) (N_of_ascii y)) as [E1|E1|E1]; [| |done];
    destruct (N.compare_spec (N_of_ascii y) (N_of_ascii z)) as [E2|E2|E2]; try done;
    destruct (N.compare_spec (N_of_ascii x) (N_of_ascii z)) as [E3|E3|E3]; try done; try lia.
  apply IH.
Qed.

Global Instance str_le_trans : Transitive str_le.
Proof.
  intros a b c. unfold str_le, String.leb. pose proof (str_compare_trans a b c) as Ht.
  destruct (String.compare a b), (String.compare b c), (String.compare a c); try done;
    exfalso; apply Ht; done.
Qed.

(** * Elements not seen before *)

Definition fresh {A} `{Countable A} (seen : gset A) (l : list A) : Prop :=
  NoDup l /\ Forall (fun x => x ∉ seen) l.

Lemma fresh_cons {A} `{Countable A} (seen : gset A) x l :
  fresh seen (x :: l) <-> x ∉ seen /\ fresh ({[x]} ∪ seen) l.
Proof.
  unfold fresh. rewrite NoDup_cons, !Forall_forall. set_solver.
Qed.

Lemma fresh_app {A} `{Countable A} (seen : gset A) l k :
  fresh seen (l ++ k) <-> fresh seen l /\ fresh (list_to_set l ∪ seen) k.
Proof.
  revert seen. induction l as [|x l IH]; intros seen.
  - cbn [app list_to_set]. rewrite (left_id_L ∅ (∪)). unfold fresh at 2. split; [|by intros [_ ?]].
    intros Hk. repeat constructor. exact (proj1 Hk). exact (proj2 Hk).
  - cbn [app]. rewrite !fresh_cons, IH. cbn [list_to_set].
    replace (list_to_set l ∪ ({[x]} ∪ seen)) with ({[x]} ∪ list_to_set l ∪ seen) by set_solver. tauto.
Qed.

Lemma fresh_empty {A} `{Countable A} (l : list A) : fresh ∅ l <-> NoDup l.
Proof. unfold fresh. rewrite Forall_forall. set_solver. Qed.

(** * Codecs

    [serde_json::to_vec] and [from_slice] of a type; encoding a value of the types
    used here succeeds and decoding gives it back. *)

Class Json (A : Type) : Type := {
  to_json : A -> option bytes;
  from_json : bytes -> option A;
}.

Class JsonOk (A : Type) `{Json A} : Prop :=
  json_reads_back : forall a : A, exists b, to_json a = Some b /\ from_json b = Some a.

(** Any countable value as the binary digits of its number. *)
Fixpoint digits (p : positive) : bytes :=
  match p with xH => [] | xO p => "0"%char :: digits p | xI p => "1"%char :: digits p end.
Fixpoint undigits (b : bytes) : positive :=
  match b with [] => xH | c :: b => if Ascii.eqb c "0"%char then xO (undigits b) else xI (undigits b) end.

Lemma undigits_digits p : undigits (digits p) = p.
Proof. induction p as [p IH|p IH|]; cbn; by rewrite ?IH. Qed.

Definition countable_json (A : Type) `{Countable A} : Json A := {|
  to_json := fun a => Some (digits (encode a));
  from_json := fun b => decode (undigits b) |}.

Lemma countable_json_ok (A : Type) `{Countable A} : @JsonOk A (countable_json A).
Proof. intros a. exists (digits (encode a)). split; [done|]. cbn. by rewrite undigits_digits, decode_encode. Qed.
