(* ===== verification/Metadata.v ===== *)
(** Object and bucket metadata ([src/storage/metadata.rs]), the storage error
    enum ([src/storage/mod.rs]) and the bitrot check ([src/storage/bitrot.rs]).

    A [HashMap<String, String>] is a [gmap string string]; [usize] counters are
    [nat], [u64] values [N].  Hash functions come from crates outside the
    repository and are parameters. *)

From stdpp Require Import base list gmap strings numbers.
From S2P Require Import Prelude.

(** [StorageError].  [Io] carries the message of the wrapped [io::Error]. *)
Inductive StorageError : Type :=
| BucketNotFound
| ObjectNotFound
| BucketExists
| BucketNotEmpty
| WriteQuorum
| ReadQuorum
| Bitrot
| InvalidConfig (msg : string)
| Io (msg : string)
| InvalidBucketName (name : string)
| InvalidObjectKey (key : string)
| InvalidVersionId (vid : string)
| InvalidUploadId (uid : string)
| Internal (msg : string).

Global Instance StorageError_eq_dec : EqDecision StorageError.
Proof. solve_decision. Defined.

Abbreviation Result := (result StorageError).

(** [usize] subtraction as the release build computes it (two's complement). *)
Definition usize_sub (a b : nat) : nat :=
  N.to_nat (as_u64 (2 ^ 64 + N.of_nat a - N.of_nat b)).

Lemma usize_sub_le a b :
  b <= a -> (N.of_nat a < 2 ^ 64)%N -> usize_sub a b = a - b.
Proof.
  intros Hle Ha. unfold usize_sub, wrap.
  replace (2 ^ 64 + N.of_nat a - N.of_nat b)%N
    with (N.of_nat (a - b) + 1 * 2 ^ 64)%N by lia.
  rewrite N.Div0.mod_add, N.mod_small by lia. lia.
Qed.

Record ErasureMeta : Type := mkErasureMeta {
  ftt : nat;
  index : nat;
  epoch_id : N;
  volume_ids : list string;
}.

Global Instance ErasureMeta_eq_dec : EqDecision ErasureMeta.
Proof. solve_decision. Defined.

(** [ErasureMeta::data] and [ErasureMeta::parity]. *)
Definition erasure_data (e : ErasureMeta) : nat := usize_sub (length (volume_ids e)) (ftt e).
Definition erasure_parity (e : ErasureMeta) : nat := ftt e.

Record PartEntry : Type := mkPartEntry {
  part_number : Z;
  part_size : N;
  part_etag : string;
  part_erasure : ErasureMeta;
  part_checksum : string;
}.

Global Instance PartEntry_eq_dec : EqDecision PartEntry.
Proof. solve_decision. Defined.

Record ObjectMeta : Type := mkObjectMeta {
  size : N;
  etag : string;
  content_type : string;
  created_at : N;
  erasure : ErasureMeta;
  checksum : string;
  user_metadata : gmap string string;
  tags : gmap string string;
  version_id : string;
  is_latest : bool;
  is_delete_marker : bool;
  parts : list PartEntry;
  inline_data : option string;
}.

Global Instance ObjectMeta_eq_dec : EqDecision ObjectMeta.
Proof. solve_decision. Defined.

Record ObjectMetaFile : Type := mkObjectMetaFile {
  mf_bucket : string;
  mf_key : string;
  versions : list ObjectMeta;
}.

Record ObjectInfo : Type := mkObjectInfo {
  info_bucket : string;
  info_key : string;
  info_size : N;
  info_etag : string;
  info_content_type : string;
  info_created_at : N;
  info_user_metadata : gmap string string;
  info_tags : gmap string string;
  info_version_id : string;
  info_is_delete_marker : bool;
}.

Record PutOptions : Type := mkPutOptions {
  opt_content_type : string;
  opt_user_metadata : gmap string string;
  opt_tags : gmap string string;
  ec_ftt : option nat;
  precomputed_etag : option string;
  skip_md5 : bool;
}.

(** Field updates ([meta.is_latest = b] and the like). *)
Definition set_is_latest (b : bool) (m : ObjectMeta) : ObjectMeta :=
  {| size := size m; etag := etag m; content_type := content_type m;
     created_at := created_at m; erasure := erasure m; checksum := checksum m;
     user_metadata := user_metadata m; tags := tags m; version_id := version_id m;
     is_latest := b; is_delete_marker := is_delete_marker m; parts := parts m;
     inline_data := inline_data m |}.

Definition set_version_id (v : string) (m : ObjectMeta) : ObjectMeta :=
  {| size := size m; etag := etag m; content_type := content_type m;
     created_at := created_at m; erasure := erasure m; checksum := checksum m;
     user_metadata := user_metadata m; tags := tags m; version_id := v;
     is_latest := is_latest m; is_delete_marker := is_delete_marker m;
     parts := parts m; inline_data := inline_data m |}.

(** [ObjectMeta { erasure: ErasureMeta { index, ..m.erasure }, checksum, ..m }]. *)
Definition with_shard (idx : nat) (sum : string) (m : ObjectMeta) : ObjectMeta :=
  {| size := size m; etag := etag m; content_type := content_type m;
     created_at := created_at m;
     erasure := {| ftt := ftt (erasure m); index := idx;
                   epoch_id := epoch_id (erasure m);
                   volume_ids := volume_ids (erasure m) |};
     checksum := sum; user_metadata := user_metadata m; tags := tags m;
     version_id := version_id m; is_latest := is_latest m;
     is_delete_marker := is_delete_marker m; parts := parts m;
     inline_data := inline_data m |}.

Definition is_multipart (m : ObjectMeta) : bool :=
  match parts m with [] => false | _ => true end.

Definition quorum_eq (a b : ObjectMeta) : bool :=
  bool_decide (size a = size b)
  && bool_decide (etag a = etag b)
  && bool_decide (content_type a = content_type b)
  && bool_decide (created_at a = created_at b)
  && bool_decide (ftt (erasure a) = ftt (erasure b))
  && bool_decide (epoch_id (erasure a) = epoch_id (erasure b))
  && bool_decide (volume_ids (erasure a) = volume_ids (erasure b))
  && bool_decide (user_metadata a = user_metadata b)
  && bool_decide (tags a = tags b).

(** The hash crates (blake3, sha2, md-5 and xxhash-rust), not part of the
    repository: the digests as the source uses them, in hex, as the 32 bytes of a
    SHA-256 or as a [u64]. *)
Class Hashes : Type := {
  blake3_hex : bytes -> string;
  sha256_hex : bytes -> string;
  sha256 : bytes -> bytes;
  md5_hex : bytes -> string;
  xxh64 : bytes -> N;
}.

(** A concrete choice of the five digests, used by the examples and witnesses. *)
Definition example_hashes : Hashes := {|
  blake3_hex := string_of;
  sha256_hex := fun b => String.append "sha256:" (string_of b);
  sha256 := fun b => take 32 (b ++ replicate 32 zero_byte);
  md5_hex := fun b => String.append "md5:" (string_of b);
  xxh64 := fun b => as_u64 (le_val b) |}.

(** [verify_shard_checksum]: blake3 first, the legacy SHA-256 next. *)
Definition verify_shard_checksum `{Hashes} (data : bytes) (stored_checksum : string) : bool :=
  bool_decide (blake3_hex data = stored_checksum)
  || bool_decide (sha256_hex data = stored_checksum).

Lemma verify_blake3 `{Hashes} data : verify_shard_checksum data (blake3_hex data) = true.
Proof. unfold verify_shard_checksum. by rewrite bool_decide_eq_true_2. Qed.

(** [quorum_eq] compares a projection of the metadata, so it is an
    equivalence; this is what the grouping of [find_consensus_meta] relies on. *)
Definition quorum_key (m : ObjectMeta) :=
  (size m, etag m, content_type m, created_at m, ftt (erasure m),
   epoch_id (erasure m), volume_ids (erasure m), user_metadata m, tags m).

Lemma quorum_eq_key a b : quorum_eq a b = true <-> quorum_key a = quorum_key b.
Proof.
  unfold quorum_eq, quorum_key. rewrite !andb_true_iff, !bool_decide_eq_true.
  split; [intros; destruct_and!; congruence|intros [=]; tauto].
Qed.

Lemma quorum_eq_refl a : quorum_eq a a = true.
Proof. by apply quorum_eq_key. Qed.

Lemma quorum_eq_sym a b : quorum_eq a b = quorum_eq b a.
Proof. apply eq_true_iff_eq. rewrite !quorum_eq_key. naive_solver. Qed.

Lemma quorum_eq_trans a b c :
  quorum_eq a b = true -> quorum_eq b c = true -> quorum_eq a c = true.
Proof. rewrite !quorum_eq_key. congruence. Qed.

Lemma quorum_eq_with_shard i s a b : quorum_eq (with_shard i s a) b = quorum_eq a b.
Proof. apply eq_true_iff_eq. by rewrite !quorum_eq_key. Qed.
