(* ===== verification/Needle.v ===== *)
(** The needle format of the log-structured tier ([src/storage/needle.rs]): the
    packed header, serialization into a buffer, the two parsers.

    The header struct is [repr(C, packed)], so its bytes are its fields in order,
    little-endian on the supported targets.  [rmp_serde] (the msgpack codec of
    [ObjectMeta]) and [xxhash_rust] are parameters. *)

From Stdlib Require Import HexString.
From stdpp Require Import base list strings numbers.
From S2P Require Import Prelude Metadata.

Definition NEEDLE_MAGIC : N := 0xAB1C4E00.
Definition HEADER_SIZE : nat := 24.
Definition FLAG_NORMAL : N := 0.
Definition FLAG_DELETE : N := 1.

Record RawHeader : Type := mkRawHeader {
  h_magic : N;
  h_flags : N;
  h_bucket_len : N;
  h_key_len : N;
  h_meta_len : N;
  h_data_len : N;
  h_checksum : N;
  h_version_id_len : N;
  h_pad : N;
}.

(** The memory of a [RawHeader] as bytes ([slice::from_raw_parts]) and back
    ([ptr::read_unaligned]). *)
Definition raw_to_bytes (h : RawHeader) : bytes :=
  le_bytes 4 (h_magic h) ++ le_bytes 1 (h_flags h) ++ le_bytes 1 (h_bucket_len h)
  ++ le_bytes 2 (h_key_len h) ++ le_bytes 2 (h_meta_len h) ++ le_bytes 4 (h_data_len h)
  ++ le_bytes 8 (h_checksum h) ++ le_bytes 1 (h_version_id_len h) ++ le_bytes 1 (h_pad h).

Arguments raw_to_bytes : simpl never.

Definition raw_of_bytes (buf : bytes) : RawHeader := {|
  h_magic := le_val (sub_list 0 4 buf);
  h_flags := le_val (sub_list 4 1 buf);
  h_bucket_len := le_val (sub_list 5 1 buf);
  h_key_len := le_val (sub_list 6 2 buf);
  h_meta_len := le_val (sub_list 8 2 buf);
  h_data_len := le_val (sub_list 10 4 buf);
  h_checksum := le_val (sub_list 14 8 buf);
  h_version_id_len := le_val (sub_list 22 1 buf);
  h_pad := le_val (sub_list 23 1 buf) |}.

Record Needle : Type := mkNeedle {
  n_flags : N;
  n_bucket : string;
  n_key : string;
  n_version_id : string;
  n_meta_bytes : bytes;
  n_data : bytes;
}.

Record NeedleLocation : Type := mkNeedleLocation {
  loc_segment_id : N;
  loc_offset : N;
  loc_meta_offset : N;
  loc_meta_len : N;
  loc_data_offset : N;
  loc_data_len : N;
  loc_created_at : N;
}.

(** The msgpack codec of [ObjectMeta]. *)
Class MetaCodec : Type := {
  rmp_to_vec : ObjectMeta -> option bytes;
  rmp_from_slice : bytes -> option ObjectMeta;
}.

(** The documented round trip of the codec. *)
Class MetaCodecOk `{MetaCodec} : Prop :=
  rmp_roundtrip : forall m b, rmp_to_vec m = Some b -> rmp_from_slice b = Some m.

Definition needle_new `{MetaCodec} (b k : string) (vid : option string) (meta : ObjectMeta)
    (shard_data : bytes) : Result Needle :=
  mb ← ok_or (rmp_to_vec meta) (Internal "msgpack serialize");
  Ok {| n_flags := FLAG_NORMAL; n_bucket := b; n_key := k;
        n_version_id := default EmptyString vid; n_meta_bytes := mb; n_data := shard_data |}.

Definition tombstone_versioned (b k : string) (vid : option string) : Needle :=
  {| n_flags := FLAG_DELETE; n_bucket := b; n_key := k;
     n_version_id := default EmptyString vid; n_meta_bytes := []; n_data := [] |}.

Definition tombstone (b k : string) : Needle := tombstone_versioned b k None.

Definition decode_meta `{MetaCodec} (mb : bytes) : Result ObjectMeta :=
  ok_or (rmp_from_slice mb) (Internal "msgpack deserialize").

Definition serialized_size (n : Needle) : nat :=
  HEADER_SIZE + String.length (n_bucket n) + String.length (n_key n)
  + String.length (n_version_id n) + length (n_meta_bytes n) + length (n_data n).

Section WithHashes.
  Context `{Hashes}.

(** The header [serialize_into] writes: every length is cast to its field's width. *)
Definition needle_header (n : Needle) (sum : N) : RawHeader := {|
  h_magic := NEEDLE_MAGIC;
  h_flags := n_flags n;
  h_bucket_len := as_u8 (N.of_nat (String.length (n_bucket n)));
  h_key_len := as_u16 (N.of_nat (String.length (n_key n)));
  h_meta_len := as_u16 (N.of_nat (length (n_meta_bytes n)));
  h_data_len := as_u32 (N.of_nat (length (n_data n)));
  h_checksum := sum;
  h_version_id_len := as_u8 (N.of_nat (String.length (n_version_id n)));
  h_pad := 0 |}.

(** [None] is the panic of a destination shorter than [serialized_size]. *)
Definition serialize_into (n : Needle) (dest : bytes) : option (bytes * nat) :=
  let total := serialized_size n in
  let off := HEADER_SIZE in
  dest ← splice off (bytes_of (n_bucket n)) dest;
  let off := off + String.length (n_bucket n) in
  dest ← splice off (bytes_of (n_key n)) dest;
  let off := off + String.length (n_key n) in
  dest ← splice off (bytes_of (n_version_id n)) dest;
  let off := off + String.length (n_version_id n) in
  dest ← splice off (n_meta_bytes n) dest;
  let off := off + length (n_meta_bytes n) in
  dest ← splice off (n_data n) dest;
  payload ← slice HEADER_SIZE (total - HEADER_SIZE) dest;
  let sum := xxh64 payload in
  dest ← splice 0 (raw_to_bytes (needle_header n sum)) dest;
  Some (dest, total).

Definition serialize (n : Needle) : option bytes :=
  fst <$> serialize_into n (replicate (serialized_size n) zero_byte).

Definition raw_total (h : RawHeader) : nat :=
  HEADER_SIZE + N.to_nat (h_bucket_len h) + N.to_nat (h_key_len h)
  + N.to_nat (h_version_id_len h) + N.to_nat (h_meta_len h) + N.to_nat (h_data_len h).

Definition utf8_or (what : string) (b : bytes) : Result string :=
  ok_or (from_utf8 b) (Internal ("bad " ++ what ++ " utf8")).

Definition deserialize (buf : bytes)
    : Result (N * string * string * string * bytes * bytes * nat) :=
  if decide (length buf < HEADER_SIZE) then Err (Internal "needle too short for header")
  else
  let h := raw_of_bytes buf in
  if decide (h_magic h <> NEEDLE_MAGIC)
  then Err (Internal ("bad needle magic: " ++ HexString.of_N (h_magic h)))
  else
  let bucket_len := N.to_nat (h_bucket_len h) in
  let key_len := N.to_nat (h_key_len h) in
  let version_id_len := N.to_nat (h_version_id_len h) in
  let meta_len := N.to_nat (h_meta_len h) in
  let data_len := N.to_nat (h_data_len h) in
  let total := raw_total h in
  if decide (length buf < total) then Err (Internal "needle truncated")
  else
  let payload := sub_list HEADER_SIZE (total - HEADER_SIZE) buf in
  let computed := xxh64 payload in
  if decide (computed <> h_checksum h)
  then Err (Internal ("needle checksum mismatch: expected " ++ HexString.of_N (h_checksum h)
                      ++ ", got " ++ HexString.of_N computed))
  else
  let offset := HEADER_SIZE in
  b ← utf8_or "bucket" (sub_list offset bucket_len buf);
  let offset := offset + bucket_len in
  k ← utf8_or "key" (sub_list offset key_len buf);
  let offset := offset + key_len in
  v ← utf8_or "version_id" (sub_list offset version_id_len buf);
  let offset := offset + version_id_len in
  let mb := sub_list offset meta_len buf in
  let offset := offset + meta_len in
  let d := sub_list offset data_len buf in
  Ok (h_flags h, b, k, v, mb, d, total).

(** (flags, bucket, key, version_id, meta_offset, meta_len, data_offset,
    data_len, total_size), with no copy of the payload. *)
Definition read_header (buf : bytes)
    : Result (N * string * string * string * nat * nat * nat * nat * nat) :=
  if decide (length buf < HEADER_SIZE) then Err (Internal "needle too short for header")
  else
  let h := raw_of_bytes buf in
  if decide (h_magic h <> NEEDLE_MAGIC)
  then Err (Internal ("bad needle magic: " ++ HexString.of_N (h_magic h)))
  else
  let bucket_len := N.to_nat (h_bucket_len h) in
  let key_len := N.to_nat (h_key_len h) in
  let version_id_len := N.to_nat (h_version_id_len h) in
  let meta_len := N.to_nat (h_meta_len h) in
  let data_len := N.to_nat (h_data_len h) in
  let total := raw_total h in
  if decide (length buf < total) then Err (Internal "needle truncated")
  else
  let payload := sub_list HEADER_SIZE (total - HEADER_SIZE) buf in
  if decide (xxh64 payload <> h_checksum h)
  then Err (Internal "needle checksum mismatch")
  else
  let bucket_offset := HEADER_SIZE in
  b ← utf8_or "bucket" (sub_list bucket_offset bucket_len buf);
  let key_offset := bucket_offset + bucket_len in
  k ← utf8_or "key" (sub_list key_offset key_len buf);
  let version_id_offset := key_offset + key_len in
  v ← utf8_or "version_id" (sub_list version_id_offset version_id_len buf);
  let meta_offset := version_id_offset + version_id_len in
  let data_offset := meta_offset + meta_len in
  Ok (h_flags h, b, k, v, meta_offset, meta_len, data_offset, data_len, total).

(** The needle's five payload fields, in the order they are stored. *)
Definition needle_payload (n : Needle) : bytes :=
  bytes_of (n_bucket n) ++ bytes_of (n_key n) ++ bytes_of (n_version_id n)
  ++ n_meta_bytes n ++ n_data n.

(** The bytes a needle occupies on disk. *)
Definition needle_image (n : Needle) : bytes :=
  raw_to_bytes (needle_header n (xxh64 (needle_payload n))) ++ needle_payload n.

End WithHashes.

Arguments needle_image : simpl never.
Arguments needle_payload : simpl never.

(** A needle whose fields fit the header's widths and whose strings are UTF-8 (a
    Rust [String] always is). *)
Definition wf_needle (n : Needle) : Prop :=
  (n_flags n < 2 ^ 8)%N /\
  (N.of_nat (String.length (n_bucket n)) < 2 ^ 8)%N /\
  (N.of_nat (String.length (n_key n)) < 2 ^ 16)%N /\
  (N.of_nat (String.length (n_version_id n)) < 2 ^ 8)%N /\
  (N.of_nat (length (n_meta_bytes n)) < 2 ^ 16)%N /\
  (N.of_nat (length (n_data n)) < 2 ^ 32)%N /\
  utf8_valid (bytes_of (n_bucket n)) = true /\
  utf8_valid (bytes_of (n_key n)) = true /\
  utf8_valid (bytes_of (n_version_id n)) = true.

(** The digest is a [u64]. *)
Class HashesOk `{Hashes} : Prop := xxh64_lt : forall b, (xxh64 b < 2 ^ 64)%N.

(** ** Lemmas *)

Section Lemmas.
  Context `{Hashes}.

Lemma length_raw_to_bytes h : length (raw_to_bytes h) = HEADER_SIZE.
Proof. unfold raw_to_bytes. by rewrite !length_app, !length_le_bytes. Qed.
#[local] Hint Rewrite @length_raw_to_bytes : lens.

Definition raw_wf (h : RawHeader) : Prop :=
  (h_magic h < 2 ^ 32 /\ h_flags h < 2 ^ 8 /\ h_bucket_len h < 2 ^ 8 /\
   h_key_len h < 2 ^ 16 /\ h_meta_len h < 2 ^ 16 /\ h_data_len h < 2 ^ 32 /\
   h_checksum h < 2 ^ 64 /\ h_version_id_len h < 2 ^ 8 /\ h_pad h < 2 ^ 8)%N.

(** Reading the header struct back from its own bytes. *)
Lemma raw_of_to_bytes h rest : raw_wf h -> raw_of_bytes (raw_to_bytes h ++ rest) = h.
Proof.
  destruct h as [m f bl kl ml dl cs vl pad]. unfold raw_wf; simpl.
  intros (? & ? & ? & ? & ? & ? & ? & ? & ?).
  unfold raw_of_bytes, raw_to_bytes, sub_list; simpl.
  f_equal;
    [ exact (le_val_le_bytes_small 4 m ltac:(done))
    | exact (le_val_le_bytes_small 1 f ltac:(done))
    | exact (le_val_le_bytes_small 1 bl ltac:(done))
    | exact (le_val_le_bytes_small 2 kl ltac:(done))
    | exact (le_val_le_bytes_small 2 ml ltac:(done))
    | exact (le_val_le_bytes_small 4 dl ltac:(done))
    | exact (le_val_le_bytes_small 8 cs ltac:(done))
    | exact (le_val_le_bytes_small 1 vl ltac:(done))
    | exact (le_val_le_bytes_small 1 pad ltac:(done)) ].
Qed.

Lemma raw_of_bytes_app buf rest :
  HEADER_SIZE <= length buf -> raw_of_bytes (buf ++ rest) = raw_of_bytes buf.
Proof.
  unfold HEADER_SIZE. intros Hl. unfold raw_of_bytes.
  assert (Hs : forall o l, o + l <= 24 -> sub_list o l (buf ++ rest) = sub_list o l buf).
  { intros o l Hol. unfold sub_list. rewrite drop_app_le by lia.
    rewrite take_app_le; [done|]. rewrite length_drop. lia. }
  by rewrite !Hs by lia.
Qed.

Lemma length_needle_payload n :
  length (needle_payload n) = serialized_size n - HEADER_SIZE.
Proof.
  unfold needle_payload, serialized_size.
  rewrite !length_app, !length_bytes_of. lia.
Qed.

Lemma length_needle_image n : length (needle_image n) = serialized_size n.
Proof.
  unfold needle_image. rewrite length_app, length_raw_to_bytes, length_needle_payload.
  unfold serialized_size. lia.
Qed.
#[local] Hint Rewrite @length_needle_image : lens.

(** The in-place serializer writes exactly the needle's image and leaves the
    rest of the buffer alone; with a short buffer it panics. *)
Lemma serialize_into_image n dest :
  serialized_size n <= length dest ->
  serialize_into n dest =
    Some (needle_image n ++ drop (serialized_size n) dest, serialized_size n).
Proof.
  intros Hlen. unfold serialize_into, serialized_size, HEADER_SIZE in *.
  rewrite <- (take_drop 24 dest) at 1.
  pose proof (length_bytes_of (n_bucket n)) as Hb.
  pose proof (length_bytes_of (n_key n)) as Hk.
  pose proof (length_bytes_of (n_version_id n)) as Hv.
  assert (Hp : length (take 24 dest) = 24) by lens.
  rewrite (splice_app 24); [|lia|rewrite length_drop; lia]. cbn [mbind option_bind].
  rewrite splice_app; [|rewrite length_app; lia|rewrite !length_drop; lia]. cbn [mbind option_bind].
  rewrite splice_app; [|rewrite !length_app; lia|rewrite !length_drop; lia]. cbn [mbind option_bind].
  rewrite splice_app; [|rewrite !length_app; lia|rewrite !length_drop; lia]. cbn [mbind option_bind].
  rewrite splice_app; [|rewrite !length_app; lia|rewrite !length_drop; lia]. cbn [mbind option_bind].
  rewrite !drop_drop, <- !app_assoc.
  match goal with |- context [drop ?k dest] =>
    replace (drop k dest) with (drop (serialized_size n) dest)
      by (f_equal; unfold serialized_size, HEADER_SIZE; lia) end.
  rewrite (app_assoc (n_meta_bytes n)), (app_assoc (bytes_of (n_version_id n))),
    (app_assoc (bytes_of (n_key n))), (app_assoc (bytes_of (n_bucket n))).
  fold (needle_payload n).
  rewrite slice_app_mid'; [|lia|].
  2: { rewrite length_needle_payload. unfold serialized_size, HEADER_SIZE. lia. }
  cbn [mbind option_bind].
  pose proof (splice_app_mid [] (take 24 dest)
    (needle_payload n ++ drop (serialized_size n) dest)
    (raw_to_bytes (needle_header n (xxh64 (needle_payload n))))) as Hh.
  rewrite !app_nil_l in Hh. change (length []) with 0 in Hh.
  rewrite Hh by (rewrite length_raw_to_bytes, Hp; done).
  cbn [mbind option_bind]. unfold needle_image.
  by rewrite <- (app_assoc (raw_to_bytes _)).
Qed.

Lemma serialize_into_short n dest :
  length dest < serialized_size n -> serialize_into n dest = None.
Proof.
  intros Hlen. destruct (serialize_into n dest) as [[d t]|] eqn:E; [|done]. exfalso.
  unfold serialize_into in E.
  repeat (apply bind_Some in E as (? & ?H & E)).
  repeat match goal with
         | H : splice _ _ _ = Some _ |- _ =>
             pose proof (splice_length _ _ _ _ H); apply splice_Some in H as [? _]
         | H : slice _ _ _ = Some _ |- _ => apply slice_Some in H as [? _]
         end.
  unfold serialized_size, HEADER_SIZE in *. lia.
Qed.

Lemma serialize_image n : serialize n = Some (needle_image n).
Proof.
  unfold serialize. rewrite serialize_into_image by lens.
  simpl. f_equal. rewrite drop_ge, app_nil_r; [done|]. rewrite length_replicate. lia.
Qed.

Lemma needle_header_wf `{!HashesOk} n :
  wf_needle n -> raw_wf (needle_header n (xxh64 (needle_payload n))).
Proof.
  intros (Hf & Hb & Hk & Hv & Hm & Hd & _). unfold raw_wf, needle_header; simpl.
  repeat split; try apply wrap_lt; try done.
Qed.

Lemma raw_total_header n s : wf_needle n -> raw_total (needle_header n s) = serialized_size n.
Proof.
  intros (Hf & Hb & Hk & Hv & Hm & Hd & _). unfold raw_total.
  cbn [needle_header h_bucket_len h_key_len h_version_id_len h_meta_len h_data_len].
  rewrite !wrap_small, !Nat2N.id by done. done.
Qed.

(** What both parsers see at the front of a buffer that starts with a needle's
    image: the header, the length check, the checksum and the five fields. *)
Lemma image_split n rest :
  needle_image n ++ rest =
  raw_to_bytes (needle_header n (xxh64 (needle_payload n))) ++ bytes_of (n_bucket n)
  ++ bytes_of (n_key n) ++ bytes_of (n_version_id n) ++ n_meta_bytes n ++ n_data n ++ rest.
Proof. unfold needle_image, needle_payload. by rewrite <- !app_assoc. Qed.

Ltac field_of_image :=
  rewrite image_split;
  match goal with
  | |- sub_list _ _ (?h ++ ?b ++ ?k ++ ?v ++ ?m ++ ?d ++ ?r) = ?x =>
      first [ constr_eq x b; apply (sub_list_app_mid h b)
            | constr_eq x k; rewrite (app_assoc h b); apply (sub_list_app_mid (h ++ b) k)
            | constr_eq x v; rewrite (app_assoc h b), (app_assoc (h ++ b) k);
              apply (sub_list_app_mid ((h ++ b) ++ k) v)
            | constr_eq x m; rewrite (app_assoc h b), (app_assoc (h ++ b) k),
                (app_assoc ((h ++ b) ++ k) v);
              apply (sub_list_app_mid (((h ++ b) ++ k) ++ v) m)
            | constr_eq x d; rewrite (app_assoc h b), (app_assoc (h ++ b) k),
                (app_assoc ((h ++ b) ++ k) v), (app_assoc (((h ++ b) ++ k) ++ v) m);
              apply (sub_list_app_mid ((((h ++ b) ++ k) ++ v) ++ m) d) ]
  end; rewrite ?length_app, ?length_raw_to_bytes, ?length_bytes_of; lia.

Lemma image_fields n rest :
  let buf := needle_image n ++ rest in
  let lb := String.length (n_bucket n) in
  let lk := String.length (n_key n) in
  let lv := String.length (n_version_id n) in
  let lm := length (n_meta_bytes n) in
  sub_list HEADER_SIZE lb buf = bytes_of (n_bucket n) /\
  sub_list (HEADER_SIZE + lb) lk buf = bytes_of (n_key n) /\
  sub_list (HEADER_SIZE + lb + lk) lv buf = bytes_of (n_version_id n) /\
  sub_list (HEADER_SIZE + lb + lk + lv) lm buf = n_meta_bytes n /\
  sub_list (HEADER_SIZE + lb + lk + lv + lm) (length (n_data n)) buf = n_data n.
Proof. cbv zeta. repeat split; field_of_image. Qed.

Lemma image_payload n rest :
  sub_list HEADER_SIZE (serialized_size n - HEADER_SIZE) (needle_image n ++ rest)
  = needle_payload n.
Proof.
  unfold needle_image. rewrite <- app_assoc. apply sub_list_app_mid.
  - by rewrite length_raw_to_bytes.
  - by rewrite length_needle_payload.
Qed.

Lemma image_header `{!HashesOk} n rest :
  wf_needle n ->
  raw_of_bytes (needle_image n ++ rest) = needle_header n (xxh64 (needle_payload n)).
Proof.
  intros Hwf. unfold needle_image. rewrite <- app_assoc. by apply raw_of_to_bytes, needle_header_wf.
Qed.

Lemma read_header_image `{!HashesOk} n rest :
  wf_needle n ->
  let mo := HEADER_SIZE + String.length (n_bucket n) + String.length (n_key n)
            + String.length (n_version_id n) in
  read_header (needle_image n ++ rest) =
    Ok (n_flags n, n_bucket n, n_key n, n_version_id n, mo, length (n_meta_bytes n),
        mo + length (n_meta_bytes n), length (n_data n), serialized_size n).
Proof.
  intros Hwf mo. unfold read_header.
  assert (HEADER_SIZE <= serialized_size n) by (unfold serialized_size; lia).
  rewrite decide_False by (rewrite length_app, length_needle_image; lia).
  rewrite image_header, raw_total_header by done.
  rewrite decide_False by (simpl; tauto).
  rewrite decide_False by lens.
  rewrite image_payload. rewrite decide_False by (simpl; tauto).
  destruct (image_fields n rest) as (Eb & Ek & Ev & _ & _).
  destruct Hwf as (Hf & Hb & Hk & Hv & Hm & Hd & Ub & Uk & Uv).
  cbn [needle_header h_bucket_len h_key_len h_version_id_len h_meta_len h_data_len h_flags].
  rewrite !wrap_small, !Nat2N.id by done.
  unfold utf8_or. rewrite Eb, Ek, Ev, !from_utf8_bytes_of by done. done.
Qed.

(** A needle [read_header] accepts lies inside the buffer: scans make progress
    and never read past the end. *)
Lemma read_header_total buf r t :
  read_header buf = Ok (r, t) -> HEADER_SIZE <= t <= length buf.
Proof.
  unfold read_header. repeat case_decide; try done.
  intros E. repeat (apply result_bind_Ok in E as (? & _ & E)).
  simplify_eq. unfold raw_total in *. lia.
Qed.

Lemma read_header_zero_tail k rest :
  4 <= k -> is_ok (read_header (replicate k zero_byte ++ rest)) = false.
Proof.
  intros Hk. unfold read_header. case_decide as H1; [done|].
  rewrite decide_True; [done|].
  destruct k as [|[|[|[|k]]]]; try lia. simpl. done.
Qed.

Lemma raw_to_of_bytes buf :
  HEADER_SIZE <= length buf -> raw_to_bytes (raw_of_bytes buf) = take HEADER_SIZE buf.
Proof.
  unfold HEADER_SIZE. intros Hl. unfold raw_to_bytes, raw_of_bytes; cbn [h_magic h_flags
    h_bucket_len h_key_len h_meta_len h_data_len h_checksum h_version_id_len h_pad].
  rewrite !le_bytes_sub_list by lia.
  rewrite (sub_list_join 22 1 1), (sub_list_join 14 8), (sub_list_join 10 4),
    (sub_list_join 8 2), (sub_list_join 6 2), (sub_list_join 5 1), (sub_list_join 4 1),
    (sub_list_join 0 4). done.
Qed.

Lemma raw_of_bytes_wf buf : HEADER_SIZE <= length buf -> raw_wf (raw_of_bytes buf).
Proof.
  unfold HEADER_SIZE. intros Hl. unfold raw_wf, raw_of_bytes; cbn [h_magic h_flags
    h_bucket_len h_key_len h_meta_len h_data_len h_checksum h_version_id_len h_pad].
  repeat split; eapply le_val_sub_list_lt; lia.
Qed.

Lemma utf8_or_Ok what b s : utf8_or what b = Ok s <-> utf8_valid b = true /\ s = string_of b.
Proof. unfold utf8_or, from_utf8. destruct (utf8_valid b); naive_solver. Qed.

(** The checks of [deserialize], as one proposition. *)
Definition needle_at (buf : bytes) : Prop :=
  HEADER_SIZE <= length buf /\ h_magic (raw_of_bytes buf) = NEEDLE_MAGIC /\
  raw_total (raw_of_bytes buf) <= length buf /\
  xxh64 (sub_list HEADER_SIZE (raw_total (raw_of_bytes buf) - HEADER_SIZE) buf)
    = h_checksum (raw_of_bytes buf).

(** The payload offsets a header describes. *)
Definition off_key (h : RawHeader) : nat := HEADER_SIZE + N.to_nat (h_bucket_len h).
Definition off_version (h : RawHeader) : nat := off_key h + N.to_nat (h_key_len h).
Definition off_meta (h : RawHeader) : nat := off_version h + N.to_nat (h_version_id_len h).
Definition off_data (h : RawHeader) : nat := off_meta h + N.to_nat (h_meta_len h).

Definition ids_at (buf : bytes) (b k v : string) : Prop :=
  let h := raw_of_bytes buf in
  utf8_or "bucket" (sub_list HEADER_SIZE (N.to_nat (h_bucket_len h)) buf) = Ok b /\
  utf8_or "key" (sub_list (off_key h) (N.to_nat (h_key_len h)) buf) = Ok k /\
  utf8_or "version_id" (sub_list (off_version h) (N.to_nat (h_version_id_len h)) buf) = Ok v.

Ltac header_cases :=
  match goal with
  | |- context [decide (length ?buf < HEADER_SIZE)] =>
      destruct (decide (length buf < HEADER_SIZE));
        [split; [done|intros; destruct_and!; lia]|];
      destruct (decide (h_magic (raw_of_bytes buf) = NEEDLE_MAGIC));
        [|rewrite decide_True by done; split; [done|intros; destruct_and!; congruence]];
      rewrite (decide_False (P := h_magic (raw_of_bytes buf) <> NEEDLE_MAGIC)) by tauto;
      destruct (decide (length buf < raw_total (raw_of_bytes buf)));
        [split; [done|intros; destruct_and!; lia]|];
      destruct (decide (xxh64 (sub_list HEADER_SIZE (raw_total (raw_of_bytes buf)
                          - HEADER_SIZE) buf) = h_checksum (raw_of_bytes buf)));
        [|rewrite decide_True by done; split; [done|intros; destruct_and!; congruence]];
      rewrite decide_False by tauto
  end.

Lemma deserialize_Ok buf f b k v mb d t :
  deserialize buf = Ok (f, b, k, v, mb, d, t) <->
  let h := raw_of_bytes buf in
  needle_at buf /\ f = h_flags h /\ t = raw_total h /\ ids_at buf b k v /\
  mb = sub_list (off_meta h) (N.to_nat (h_meta_len h)) buf /\
  d = sub_list (off_data h) (N.to_nat (h_data_len h)) buf.
Proof.
  cbv zeta. unfold deserialize, needle_at, ids_at. header_cases.
  repeat setoid_rewrite result_bind_Ok. split.
  - intros (? & ? & ? & ? & ? & ? & ?). simplify_eq. repeat split; done || lia.
  - intros (_ & -> & -> & (? & ? & ?) & -> & ->). unfold off_data, off_meta, off_version, off_key in *.
    eauto 10.
Qed.

Lemma read_header_Ok buf f b k v mo ml dof dl t :
  read_header buf = Ok (f, b, k, v, mo, ml, dof, dl, t) <->
  let h := raw_of_bytes buf in
  needle_at buf /\ f = h_flags h /\ t = raw_total h /\ ids_at buf b k v /\
  mo = off_meta h /\ ml = N.to_nat (h_meta_len h) /\
  dof = off_data h /\ dl = N.to_nat (h_data_len h).
Proof.
  cbv zeta. unfold read_header, needle_at, ids_at. header_cases.
  repeat setoid_rewrite result_bind_Ok. split.
  - intros (? & ? & ? & ? & ? & ? & ?). simplify_eq. repeat split; done || lia.
  - intros (_ & -> & -> & (? & ? & ?) & -> & -> & -> & ->).
    unfold off_data, off_meta, off_version, off_key in *. eauto 10.
Qed.

(** The payload a parsed header delimits is the five fields in order. *)
Lemma fields_join buf :
  let h := raw_of_bytes buf in
  sub_list HEADER_SIZE (N.to_nat (h_bucket_len h)) buf
  ++ sub_list (off_key h) (N.to_nat (h_key_len h)) buf
  ++ sub_list (off_version h) (N.to_nat (h_version_id_len h)) buf
  ++ sub_list (off_meta h) (N.to_nat (h_meta_len h)) buf
  ++ sub_list (off_data h) (N.to_nat (h_data_len h)) buf
  = sub_list HEADER_SIZE (raw_total h - HEADER_SIZE) buf.
Proof.
  cbv zeta. unfold off_data. rewrite sub_list_join. unfold off_meta. rewrite sub_list_join.
  unfold off_version. rewrite sub_list_join. unfold off_key. rewrite sub_list_join.
  f_equal. unfold raw_total. lia.
Qed.

Lemma raw_total_off h : raw_total h = off_data h + N.to_nat (h_data_len h).
Proof. unfold raw_total, off_data, off_meta, off_version, off_key. lia. Qed.

(** The header written for the parsed fields is the header that was parsed. *)
Lemma header_of_parsed buf :
  HEADER_SIZE <= length buf -> h_magic (raw_of_bytes buf) = NEEDLE_MAGIC ->
  raw_total (raw_of_bytes buf) <= length buf -> buf !! 23 = Some zero_byte ->
  let h := raw_of_bytes buf in
  needle_header
    {| n_flags := h_flags h;
       n_bucket := string_of (sub_list HEADER_SIZE (N.to_nat (h_bucket_len h)) buf);
       n_key := string_of (sub_list (off_key h) (N.to_nat (h_key_len h)) buf);
       n_version_id := string_of (sub_list (off_version h) (N.to_nat (h_version_id_len h)) buf);
       n_meta_bytes := sub_list (off_meta h) (N.to_nat (h_meta_len h)) buf;
       n_data := sub_list (off_data h) (N.to_nat (h_data_len h)) buf |} (h_checksum h) = h.
Proof.
  cbv zeta. intros Hl Hmag Ht Hpad. pose proof (raw_of_bytes_wf buf Hl) as Hwf.
  rewrite raw_total_off in Ht. unfold needle_header.
  cbn [n_flags n_bucket n_key n_version_id n_meta_bytes n_data].
  rewrite !string_length_string_of, !length_sub_list
    by (unfold off_data, off_meta, off_version, off_key in *; lia).
  rewrite !N2Nat.id. destruct Hwf as (_ & _ & ? & ? & ? & ? & _ & ? & _).
  rewrite !wrap_small by done.
  assert (Hp : h_pad (raw_of_bytes buf) = 0%N).
  { unfold raw_of_bytes; cbn [h_pad]. unfold sub_list.
    rewrite (drop_S _ _ _ Hpad). done. }
  rewrite <- Hmag, <- Hp. by destruct (raw_of_bytes buf).
Qed.

End Lemmas.

#[export] Hint Rewrite @length_raw_to_bytes @length_needle_image : lens.

(** ** Properties *)

(** C24: A needle whose fields fit the header survives the log: [serialize] never
    panics, gives exactly [serialized_size] bytes, and [deserialize] of a buffer
    that starts with them returns the needle's six fields and that size,
    whatever follows in the segment. *)
Theorem needle_roundtrip `{Hashes} `{!HashesOk} n rest :
  wf_needle n ->
  exists b, serialize n = Some b /\ length b = serialized_size n /\
    deserialize (b ++ rest) =
      Ok (n_flags n, n_bucket n, n_key n, n_version_id n, n_meta_bytes n, n_data n,
          serialized_size n).
Proof.
  intros Hwf. exists (needle_image n). rewrite serialize_image, length_needle_image.
  split_and!; [done..|]. apply deserialize_Ok. cbv zeta.
  unfold needle_at, ids_at, off_data, off_meta, off_version, off_key.
  rewrite image_header, raw_total_header by done.
  destruct (image_fields n rest) as (Eb & Ek & Ev & Em & Ed).
  destruct Hwf as (Hf & Hb & Hk & Hv & Hm & Hd & Ub & Uk & Uv).
  cbn [needle_header h_magic h_bucket_len h_key_len h_version_id_len h_meta_len h_data_len
       h_flags h_checksum].
  rewrite !wrap_small, !Nat2N.id by done.
  rewrite image_payload, length_app, length_needle_image, Eb, Ek, Ev, Em, Ed, !utf8_or_Ok.
  rewrite !string_of_bytes_of. unfold serialized_size. repeat split; done || lia.
Qed.

(** The zero-copy [read_header] and the copying [deserialize] accept the same
    buffers and describe the same needle: [deserialize] succeeds exactly when
    [read_header] does, with the same identity and size, and the metadata and
    data it copies out are the byte ranges [read_header] points at, which lie
    inside the buffer. *)
Theorem read_header_deserialize `{Hashes} buf f b k v mb d t :
  deserialize buf = Ok (f, b, k, v, mb, d, t) <->
  exists mo ml dof dl, read_header buf = Ok (f, b, k, v, mo, ml, dof, dl, t) /\
    slice mo ml buf = Some mb /\ slice dof dl buf = Some d.
Proof.
  rewrite deserialize_Ok. cbv zeta. split.
  - intros (Hat & -> & -> & Hid & -> & ->). eexists _, _, _, _.
    rewrite read_header_Ok. cbv zeta. pose proof Hat as (? & ? & Ht & ?).
    rewrite raw_total_off in Ht. unfold off_data in *.
    split_and!; [done..|apply slice_sub_list; unfold off_data; lia|apply slice_sub_list; lia].
  - intros (mo & ml & dof & dl & Hr & [_ ->]%slice_Some & [_ ->]%slice_Some).
    apply read_header_Ok in Hr. cbv zeta in Hr. naive_solver.
Qed.

(** [deserialize] accepts nothing but needles: a buffer it parses with a zero
    padding byte starts with the very bytes [serialize] writes for the parsed
    fields, so a torn or altered record that still passes is one some writer
    could have appended. *)
Theorem deserialize_sound `{Hashes} buf f b k v mb d t :
  deserialize buf = Ok (f, b, k, v, mb, d, t) ->
  buf !! 23 = Some zero_byte ->
  serialize (mkNeedle f b k v mb d) = Some (take t buf).
Proof.
  intros Hd Hpad. apply deserialize_Ok in Hd. cbv zeta in Hd.
  destruct Hd as ((Hl & Hmag & Ht & Hsum) & -> & -> & (Hb & Hk & Hv) & -> & ->).
  apply utf8_or_Ok in Hb as [_ ->], Hk as [_ ->], Hv as [_ ->].
  rewrite serialize_image. f_equal. unfold needle_image, needle_payload.
  cbn [n_bucket n_key n_version_id n_meta_bytes n_data]. rewrite !bytes_of_string_of.
  rewrite fields_join, Hsum.
  transitivity (raw_to_bytes (raw_of_bytes buf)
    ++ sub_list HEADER_SIZE (raw_total (raw_of_bytes buf) - HEADER_SIZE) buf).
  - do 2 f_equal. apply header_of_parsed; done.
  - rewrite raw_to_of_bytes by done.
    pose proof (sub_list_join 0 HEADER_SIZE
      (raw_total (raw_of_bytes buf) - HEADER_SIZE) buf) as Hj.
    unfold sub_list in Hj at 1 3. rewrite drop_0 in Hj.
    change (0 + HEADER_SIZE) with HEADER_SIZE in Hj. rewrite Hj.
    f_equal. unfold raw_total. lia.
Qed.

(** ** Witnesses: a concrete needle under concrete digests *)

Definition ex_needle : Needle :=
  mkNeedle FLAG_NORMAL "photos" "2024/cat.jpg" "" (bytes_of "meta") (bytes_of "shard bytes").

Global Instance example_hashes_ok : @HashesOk example_hashes.
Proof. intros b. apply wrap_lt. Qed.

Lemma ex_needle_wf : wf_needle ex_needle.
Proof. unfold wf_needle. split_and!; vm_compute; reflexivity. Qed.

Lemma needle_roundtrip_witness :
  exists b, @serialize example_hashes ex_needle = Some b /\ length b = 57 /\
    @deserialize example_hashes (b ++ [zero_byte]) =
      Ok (0%N, "photos", "2024/cat.jpg", "", bytes_of "meta", bytes_of "shard bytes", 57).
Proof. exact (needle_roundtrip ex_needle [zero_byte] ex_needle_wf). Defined.

Lemma deserialize_sound_witness :
  @serialize example_hashes ex_needle
  = Some (take 57 (@needle_image example_hashes ex_needle ++ [zero_byte])).
Proof. apply (deserialize_sound (H := example_hashes) _ 0 _ _ _ _ _ 57); vm_compute; reflexivity. Defined.
