(* ===== verification/Segment.v ===== *)
(** Log segment files ([src/storage/segment.rs]): the superblock, the active
    segment open for appends, the sealed segment and its scan.

    A segment's [mmap] is the file's bytes: the writable and the read-only map
    share the page cache, so sealing or re-opening sees the same bytes.  [None]
    stands for a panic (an index out of range).  The loops of [open] and [scan]
    take fuel; each iteration consumes at least a header, so the file's length
    is enough ([open_loop_images], [scan_loop_images]). *)

From Stdlib Require Import Ascii.
From stdpp Require Import base list strings numbers pretty.
From S2P Require Import Prelude Metadata Needle.

Definition SEGMENT_MAGIC : bytes := bytes_of "ABXL".
Definition SUPERBLOCK_SIZE : nat := 32.
Definition DEFAULT_SEGMENT_SIZE : N := 64 * 1024 * 1024.

Record Superblock : Type := mkSuperblock {
  sb_magic : bytes;
  sb_version : N;
  sb_segment_id : N;
  sb_created_at : N;
  sb_reserved : bytes;
}.

Definition superblock_to_bytes (sb : Superblock) : bytes :=
  sb_magic sb ++ le_bytes 4 (sb_version sb) ++ le_bytes 4 (sb_segment_id sb)
  ++ le_bytes 8 (sb_created_at sb) ++ sb_reserved sb.

Definition superblock_of_bytes (buf : bytes) : Superblock := {|
  sb_magic := sub_list 0 4 buf;
  sb_version := le_val (sub_list 4 4 buf);
  sb_segment_id := le_val (sub_list 8 4 buf);
  sb_created_at := le_val (sub_list 12 8 buf);
  sb_reserved := sub_list 20 12 buf |}.

Record ActiveSegment : Type := mkActiveSegment {
  segment_id : N;
  path : string;
  mmap : bytes;
  write_offset : nat;
  capacity : nat;
}.

Record SealedSegment : Type := mkSealedSegment {
  sealed_id : N;
  sealed_path : string;
  sealed_mmap : bytes;
  sealed_size : nat;
}.

(** [format!("segment-{:06}.dat", id)]. *)
Definition segment_filename (id : N) : string :=
  let d := pretty id in
  String.append "segment-"
    (String.append (string_of (replicate (6 - String.length d) "0"%char))
      (String.append d ".dat")).

(** [file.set_len]: truncate, or extend with zeros. *)
Definition set_len (cap : nat) (file : bytes) : bytes := resize cap zero_byte file.

(** [create] on a file that already holds [file] ([] when it is new). *)
Definition create (file : bytes) (id : N) (cap : nat) (now : N) : option ActiveSegment :=
  let m := set_len cap file in
  let sb := {| sb_magic := SEGMENT_MAGIC; sb_version := 1; sb_segment_id := id;
               sb_created_at := now; sb_reserved := replicate 12 zero_byte |} in
  m ← splice 0 (superblock_to_bytes sb) m;
  Some {| segment_id := id; path := segment_filename id; mmap := m;
          write_offset := SUPERBLOCK_SIZE; capacity := cap |}.

Definition read_at (s : ActiveSegment) (offset len : nat) : Result bytes :=
  if decide (write_offset s < offset + len)
  then Err (Internal "read beyond write offset")
  else Ok (sub_list offset len (mmap s)).

Definition active_slice (s : ActiveSegment) (offset len : nat) : option bytes :=
  if decide (offset + len <= write_offset s) then Some (sub_list offset len (mmap s)) else None.

Definition remaining (s : ActiveSegment) : nat := capacity s - write_offset s.

Definition is_full (s : ActiveSegment) : bool :=
  bool_decide (remaining s < HEADER_SIZE + 64).

Definition seal (s : ActiveSegment) : SealedSegment :=
  {| sealed_id := segment_id s; sealed_path := path s; sealed_mmap := mmap s;
     sealed_size := write_offset s |}.

Definition sealed_slice (s : SealedSegment) (offset len : nat) : option bytes :=
  if decide (offset + len <= length (sealed_mmap s))
  then Some (sub_list offset len (sealed_mmap s)) else None.

Section WithHashes.
  Context `{Hashes}.

Definition append (s : ActiveSegment) (n : Needle)
    : option (ActiveSegment * option NeedleLocation) :=
  let total := serialized_size n in
  if decide (capacity s < write_offset s + total) then Some (s, None)
  else
  region ← slice (write_offset s) total (mmap s);
  written ← serialize_into n region;
  m ← splice (write_offset s) written.1 (mmap s);
  let needle_offset := as_u32 (N.of_nat (write_offset s)) in
  let meta_offset :=
    as_u32 (needle_offset + as_u32 (N.of_nat HEADER_SIZE)
            + as_u32 (N.of_nat (String.length (n_bucket n)))
            + as_u32 (N.of_nat (String.length (n_key n)))
            + as_u32 (N.of_nat (String.length (n_version_id n)))) in
  let data_offset := as_u32 (meta_offset + as_u32 (N.of_nat (length (n_meta_bytes n)))) in
  let location := {|
    loc_segment_id := segment_id s;
    loc_offset := needle_offset;
    loc_meta_offset := meta_offset;
    loc_meta_len := as_u16 (N.of_nat (length (n_meta_bytes n)));
    loc_data_offset := data_offset;
    loc_data_len := as_u32 (N.of_nat (length (n_data n)));
    loc_created_at := 0 |} in
  Some ({| segment_id := segment_id s; path := path s; mmap := m;
           write_offset := write_offset s + total; capacity := capacity s |},
        Some location).

(** The loop of [open] that finds the end of the valid data. *)
Fixpoint open_loop (fuel : nat) (m : bytes) (offset : nat) : nat :=
  match fuel with
  | O => offset
  | S fuel =>
      if decide (offset + HEADER_SIZE <= length m) then
        match read_header (drop offset m) with
        | Ok (_, total) => open_loop fuel m (offset + total)
        | Err _ => offset
        end
      else offset
  end.

Definition open (p : string) (file : bytes) : Result SealedSegment :=
  if decide (length file < SUPERBLOCK_SIZE)
  then Err (Internal "segment too small for superblock")
  else
  let sb := superblock_of_bytes file in
  if decide (sb_magic sb <> SEGMENT_MAGIC) then Err (Internal "bad segment magic")
  else Ok {| sealed_id := sb_segment_id sb; sealed_path := p; sealed_mmap := file;
             sealed_size := open_loop (length file) file SUPERBLOCK_SIZE |}.

(** One call of the scan's visitor. *)
Record ScanItem : Type := mkScanItem {
  scan_flags : N;
  scan_bucket : string;
  scan_key : string;
  scan_version_id : string;
  scan_meta_offset : nat;
  scan_meta_len : nat;
  scan_data_offset : nat;
  scan_data_len : nat;
  scan_needle_offset : nat;
}.

Fixpoint scan_loop (fuel : nat) (s : SealedSegment) (offset : nat) : list ScanItem :=
  match fuel with
  | O => []
  | S fuel =>
      if decide (offset + HEADER_SIZE <= sealed_size s) then
        match read_header (drop offset (sealed_mmap s)) with
        | Ok (f, b, k, v, mo, ml, dof, dl, total) =>
            mkScanItem f b k v (offset + mo) ml (offset + dof) dl offset
            :: scan_loop fuel s (offset + total)
        | Err _ => []
        end
      else []
  end.

(** The visitor's calls, in order. *)
Definition scan (s : SealedSegment) : list ScanItem :=
  scan_loop (sealed_size s) s SUPERBLOCK_SIZE.

(** *** Specification: a segment is a list of needles *)

(** The visitor call a needle stored at [offset] gives. *)
Definition item_at (offset : nat) (n : Needle) : ScanItem :=
  let mo := HEADER_SIZE + String.length (n_bucket n) + String.length (n_key n)
            + String.length (n_version_id n) in
  mkScanItem (n_flags n) (n_bucket n) (n_key n) (n_version_id n)
    (offset + mo) (length (n_meta_bytes n))
    (offset + (mo + length (n_meta_bytes n))) (length (n_data n)) offset.

Fixpoint items_from (offset : nat) (ns : list Needle) : list ScanItem :=
  match ns with
  | [] => []
  | n :: ns => item_at offset n :: items_from (offset + serialized_size n) ns
  end.

Definition images (ns : list Needle) : bytes := concat (map needle_image ns).

(** The segment's bytes below [write_offset] are a superblock and the needles
    [ns]; the pre-allocated rest does not start with a valid needle. *)
Definition holds (s : ActiveSegment) (ns : list Needle) : Prop :=
  exists sb tail,
    mmap s = superblock_to_bytes sb ++ images ns ++ tail /\
    sb_magic sb = SEGMENT_MAGIC /\ (sb_segment_id sb < 2 ^ 32)%N /\
    sb_segment_id sb = segment_id s /\ length (superblock_to_bytes sb) = SUPERBLOCK_SIZE /\
    write_offset s = SUPERBLOCK_SIZE + length (images ns) /\
    length (mmap s) = capacity s /\
    (exists k, tail = replicate k zero_byte).

(** Appending a list of needles, all of which must fit. *)
Fixpoint append_all (s : ActiveSegment) (ns : list Needle) : option ActiveSegment :=
  match ns with
  | [] => Some s
  | n :: ns =>
      match append s n with
      | Some (s', Some _) => append_all s' ns
      | _ => None
      end
  end.

End WithHashes.

(** The well-formedness every operation keeps. *)
Definition wf_active (s : ActiveSegment) : Prop :=
  length (mmap s) = capacity s /\ SUPERBLOCK_SIZE <= write_offset s <= capacity s.

(** ** Lemmas *)

Section Lemmas.
  Context `{Hashes}.

Lemma length_images_app ns n : images (ns ++ [n]) = images ns ++ needle_image n.
Proof. unfold images. rewrite map_app, concat_app. simpl. by rewrite app_nil_r. Qed.

Lemma superblock_of_to_bytes sb rest :
  length (sb_magic sb) = 4 -> (sb_segment_id sb < 2 ^ 32)%N ->
  sb_magic (superblock_of_bytes (superblock_to_bytes sb ++ rest)) = sb_magic sb /\
  sb_segment_id (superblock_of_bytes (superblock_to_bytes sb ++ rest)) = sb_segment_id sb.
Proof.
  destruct sb as [m v i c r]; simpl. intros Hm Hi.
  destruct m as [|m0 [|m1 [|m2 [|m3 [|]]]]]; try done.
  split; [done|]. exact (le_val_le_bytes_small 4 i Hi).
Qed.

(** The append that fits, in terms of the needle's image. *)
Lemma append_fits s n :
  wf_active s -> write_offset s + serialized_size n <= capacity s ->
  exists loc, append s n =
    Some ({| segment_id := segment_id s; path := path s;
             mmap := take (write_offset s) (mmap s) ++ needle_image n
                     ++ drop (write_offset s + serialized_size n) (mmap s);
             write_offset := write_offset s + serialized_size n;
             capacity := capacity s |}, Some loc) /\
    loc_segment_id loc = segment_id s /\
    ((N.of_nat (capacity s) < 2 ^ 32)%N -> wf_needle n ->
      let mo := write_offset s + HEADER_SIZE + String.length (n_bucket n)
                + String.length (n_key n) + String.length (n_version_id n) in
      loc_meta_offset loc = N.of_nat mo /\
      loc_meta_len loc = N.of_nat (length (n_meta_bytes n)) /\
      loc_data_offset loc = N.of_nat (mo + length (n_meta_bytes n)) /\
      loc_data_len loc = N.of_nat (length (n_data n))).
Proof.
  intros [Hm Hwo] Hfit. unfold append. rewrite decide_False by lia.
  rewrite slice_sub_list by lia. cbn [mbind option_bind].
  rewrite serialize_into_image by (rewrite length_sub_list; lia). cbn [mbind option_bind fst].
  rewrite (drop_ge (sub_list _ _ _)), app_nil_r by (rewrite length_sub_list; lia).
  assert (Hsp : splice (write_offset s) (needle_image n) (mmap s) =
    Some (take (write_offset s) (mmap s) ++ needle_image n
          ++ drop (write_offset s + serialized_size n) (mmap s))).
  { apply splice_Some. rewrite length_needle_image. split; [lia|done]. }
  rewrite Hsp. cbn [mbind option_bind]. eexists. split; [done|]. split; [done|].
  intros Hcap (_ & _ & _ & _ & Hml & Hdl & _). cbv zeta.
  cbn [loc_meta_offset loc_meta_len loc_data_offset loc_data_len].
  unfold serialized_size, HEADER_SIZE in *.
  rewrite (wrap_small 32 (N.of_nat (write_offset s))), (wrap_small 32 (N.of_nat 24)),
    (wrap_small 32 (N.of_nat (String.length (n_bucket n)))),
    (wrap_small 32 (N.of_nat (String.length (n_key n)))),
    (wrap_small 32 (N.of_nat (String.length (n_version_id n)))),
    (wrap_small 32 (N.of_nat (length (n_meta_bytes n)))) by lia.
  split_and!; rewrite ?(wrap_small 32 (_ + _ + _ + _ + _)), ?wrap_small by lia; lia.
Qed.

Lemma append_full s n :
  capacity s < write_offset s + serialized_size n -> append s n = Some (s, None).
Proof. intros. unfold append. by rewrite decide_True. Qed.

(** Reading a range below the write offset through the active map. *)
Lemma read_at_below s off len :
  off + len <= write_offset s -> read_at s off len = Ok (sub_list off len (mmap s)).
Proof. intros. unfold read_at. by rewrite decide_False by lia. Qed.

Lemma sub_list_below {A} off len wo (m x : list A) :
  off + len <= wo -> wo <= length m -> sub_list off len (take wo m ++ x) = sub_list off len m.
Proof.
  intros Hle Hwo. unfold sub_list. rewrite drop_app_le by lens.
  rewrite take_app_le by lens.
  rewrite !take_drop_commute, take_take. do 2 f_equal. lia.
Qed.

Lemma serialized_size_ge n : HEADER_SIZE <= serialized_size n.
Proof. unfold serialized_size. lia. Qed.

Lemma length_images_ge ns : HEADER_SIZE * length ns <= length (images ns).
Proof.
  induction ns as [|n ns IH]; [simpl; lia|]. unfold images in *.
  cbn [map concat length]. rewrite length_app, length_needle_image. pose proof (serialized_size_ge n).
  unfold HEADER_SIZE in *. lia.
Qed.

(** The scan of a region that holds needles and then something that is none. *)
Lemma open_loop_images `{!HashesOk} ns pre tail fuel :
  Forall wf_needle ns -> is_ok (read_header tail) = false -> length ns < fuel ->
  open_loop fuel (pre ++ images ns ++ tail) (length pre) = length pre + length (images ns).
Proof.
  intros Hwf Htail. revert pre fuel. induction Hwf as [|n ns Hn _ IH]; intros pre fuel Hf.
  - destruct fuel; simpl; [lia|]. unfold images; simpl. case_decide; [|lia].
    rewrite drop_app_length. destruct (read_header tail); [done|lia].
  - destruct fuel as [|fuel]; [simpl in Hf; lia|]. cbn [open_loop].
    assert (Himg : images (n :: ns) = needle_image n ++ images ns) by done.
    rewrite Himg, !length_app, !length_needle_image. pose proof (serialized_size_ge n).
    rewrite decide_True by lia.
    rewrite drop_app_length, <- app_assoc, read_header_image by done.
    specialize (IH (pre ++ needle_image n) fuel ltac:(simpl in Hf; lia)).
    rewrite <- !app_assoc, length_app, length_needle_image in IH. rewrite IH. lia.
Qed.

Lemma scan_loop_images `{!HashesOk} ns pre tail fuel sg :
  Forall wf_needle ns -> sealed_mmap sg = pre ++ images ns ++ tail ->
  sealed_size sg = length pre + length (images ns) -> length ns < fuel ->
  scan_loop fuel sg (length pre) = items_from (length pre) ns.
Proof.
  intros Hwf. revert pre fuel. induction Hwf as [|n ns Hn _ IH]; intros pre fuel Hm Hs Hf.
  - destruct fuel; simpl; [done|]. unfold images in Hs; simpl in Hs.
    rewrite decide_False by (unfold HEADER_SIZE; lia). done.
  - destruct fuel as [|fuel]; [simpl in Hf; lia|]. cbn [scan_loop items_from].
    assert (Himg : images (n :: ns) = needle_image n ++ images ns) by done.
    rewrite Himg, !length_app, !length_needle_image in Hs.
    pose proof (serialized_size_ge n).
    rewrite decide_True by lia. rewrite Hm at 1. rewrite Himg.
    rewrite drop_app_length, <- app_assoc, read_header_image by done.
    f_equal. specialize (IH (pre ++ needle_image n) fuel).
    rewrite length_app, length_needle_image in IH. apply IH.
    + by rewrite Hm, Himg, <- !app_assoc.
    + lia.
    + simpl in Hf. lia.
Qed.

Lemma holds_wf s ns : holds s ns -> wf_active s.
Proof.
  intros (sb & tail & Hm & _ & _ & _ & Hsb & Hwo & Hc & _). split; [done|].
  rewrite Hm, !length_app, Hsb in Hc. lia.
Qed.

Lemma holds_create id cap now s :
  (id < 2 ^ 32)%N -> create [] id cap now = Some s -> holds s [].
Proof.
  unfold create. intros Hid Hc. apply bind_Some in Hc as (m & Hsp & Hc). simplify_eq.
  pose proof (splice_length _ _ _ _ Hsp) as Hlen. apply splice_Some in Hsp as [Hle Hm].
  set (sb := {| sb_magic := SEGMENT_MAGIC; sb_version := 1; sb_segment_id := id;
                sb_created_at := now; sb_reserved := replicate 12 zero_byte |}) in *.
  assert (Hsb : length (superblock_to_bytes sb) = 32) by done.
  unfold set_len in *. rewrite length_resize in Hlen.
  exists sb, (drop 32 (resize cap zero_byte [])).
  split_and!; [by rewrite Hm, Hsb|done..|].
  exists (cap - 32). rewrite resize_nil, drop_replicate. done.
Qed.

Lemma holds_append s n ns s' loc :
  holds s ns -> append s n = Some (s', Some loc) -> holds s' (ns ++ [n]).
Proof.
  intros Hh Ha. pose proof (holds_wf _ _ Hh) as Hwf.
  destruct (decide (capacity s < write_offset s + serialized_size n)) as [Hlt|Hge].
  { rewrite append_full in Ha by done. done. }
  destruct (append_fits s n Hwf ltac:(lia)) as (loc' & Ha' & _). rewrite Ha' in Ha.
  simplify_eq. destruct Hh as (sb & tail & Hm & Hmag & Hid & Hids & Hsb & Hwo & Hc & k & ->).
  assert (Hk : SUPERBLOCK_SIZE + length (images ns) + k = capacity s).
  { rewrite Hm, !length_app, Hsb, length_replicate in Hc. lia. }
  exists sb, (replicate (k - serialized_size n) zero_byte).
  cbn [mmap write_offset segment_id capacity]. rewrite length_images_app, length_app,
    length_needle_image. split_and!; try done; try lia.
  - rewrite Hm, Hwo, (app_assoc (superblock_to_bytes sb)).
    rewrite take_app_length' by lens.
    rewrite drop_app_ge by lens. rewrite length_app, Hsb.
    rewrite drop_replicate, <- !app_assoc. do 4 f_equal. lia.
  - rewrite !length_app, length_take, length_drop, length_needle_image. lia.
  - eauto.
Qed.

Lemma holds_append_all s ns ms s' :
  holds s ns -> append_all s ms = Some s' -> holds s' (ns ++ ms).
Proof.
  revert s ns. induction ms as [|n ms IH]; intros s ns Hh Ha; simpl in Ha.
  - simplify_eq. by rewrite app_nil_r.
  - destruct (append s n) as [[s1 [loc|]]|] eqn:E; try done.
    replace (ns ++ n :: ms) with ((ns ++ [n]) ++ ms) by (by rewrite <- app_assoc).
    eauto using holds_append.
Qed.

Lemma read_header_zeros k : is_ok (read_header (replicate k zero_byte)) = false.
Proof.
  destruct (decide (4 <= k)).
  - pose proof (read_header_zero_tail k [] ltac:(done)) as Hz. by rewrite app_nil_r in Hz.
  - unfold read_header. rewrite decide_True; [done|].
    rewrite length_replicate. unfold HEADER_SIZE. lia.
Qed.

(** Reading a held needle's metadata and data back through the active map. *)
Lemma holds_scan `{!HashesOk} s ns :
  holds s ns -> Forall wf_needle ns ->
  exists sg, open (path s) (mmap s) = Ok sg /\ sealed_id sg = segment_id s /\
    sealed_size sg = write_offset s /\ scan sg = items_from SUPERBLOCK_SIZE ns /\
    scan (seal s) = items_from SUPERBLOCK_SIZE ns.
Proof.
  intros (sb & tail & Hm & Hmag & Hid & Hids & Hsb & Hwo & Hc & k & Htail) Hwf.
  pose proof (length_images_ge ns) as Hge. unfold HEADER_SIZE in Hge.
  assert (Hlen : length (mmap s) = SUPERBLOCK_SIZE + length (images ns) + length tail).
  { rewrite Hm, !length_app, Hsb. lia. }
  unfold SUPERBLOCK_SIZE in *.
  assert (Hopen : open_loop (length (mmap s)) (mmap s) 32 = write_offset s).
  { rewrite Hwo, <- Hsb. rewrite Hm at 2. apply open_loop_images; [done| |lia].
    rewrite Htail. apply read_header_zeros. }
  unfold open. rewrite decide_False by (unfold SUPERBLOCK_SIZE; lia).
  assert (Hsbm : sb_magic (superblock_of_bytes (mmap s)) = sb_magic sb
    /\ sb_segment_id (superblock_of_bytes (mmap s)) = sb_segment_id sb).
  { rewrite Hm. apply superblock_of_to_bytes; [by rewrite Hmag|done]. }
  destruct Hsbm as [-> Hsid]. rewrite Hmag, decide_False by tauto. unfold SUPERBLOCK_SIZE.
  rewrite Hopen, Hsid, Hids. eexists. split; [done|]. cbn [sealed_id sealed_size].
  split_and!; [done..| |]; unfold scan, SUPERBLOCK_SIZE; rewrite <- Hsb;
    (apply scan_loop_images with tail; [done|done| |]); cbn [seal sealed_size]; lia.
Qed.

Lemma items_slices ns pre tail :
  Forall2 (fun it n =>
      sub_list (scan_meta_offset it) (scan_meta_len it) (pre ++ images ns ++ tail) = n_meta_bytes n /\
      sub_list (scan_data_offset it) (scan_data_len it) (pre ++ images ns ++ tail) = n_data n)
    (items_from (length pre) ns) ns.
Proof.
  revert pre. induction ns as [|n ns IH]; intros pre; [constructor|].
  assert (Himg : images (n :: ns) = needle_image n ++ images ns) by done.
  rewrite Himg, <- app_assoc. cbn [items_from]. constructor.
  - destruct (image_fields n (images ns ++ tail)) as (_ & _ & _ & Em & Ed).
    cbn [item_at scan_meta_offset scan_meta_len scan_data_offset scan_data_len].
    rewrite !sub_list_shift. done.
  - specialize (IH (pre ++ needle_image n)).
    rewrite length_app, length_needle_image, <- !app_assoc in IH. done.
Qed.

Lemma items_in_bounds ns pre tail :
  Forall (fun it =>
      scan_meta_offset it + scan_meta_len it <= length (pre ++ images ns ++ tail) /\
      scan_data_offset it + scan_data_len it <= length (pre ++ images ns ++ tail))
    (items_from (length pre) ns).
Proof.
  revert pre. induction ns as [|n ns IH]; intros pre; [constructor|].
  assert (Himg : images (n :: ns) = needle_image n ++ images ns) by done.
  rewrite Himg, <- app_assoc. cbn [items_from]. constructor.
  - rewrite !length_app, length_needle_image.
    cbn [item_at scan_meta_offset scan_meta_len scan_data_offset scan_data_len].
    unfold serialized_size. lia.
  - specialize (IH (pre ++ needle_image n)).
    rewrite (length_app pre), length_needle_image in IH.
    eapply Forall_impl; [exact IH|]. intros it. rewrite <- !app_assoc. done.
Qed.

(** The location an append returns addresses the needle's metadata and data. *)
Lemma append_location s n s' loc :
  wf_active s -> (N.of_nat (capacity s) < 2 ^ 32)%N -> wf_needle n ->
  append s n = Some (s', Some loc) ->
  N.to_nat (loc_meta_offset loc) + N.to_nat (loc_meta_len loc) <= write_offset s' /\
  N.to_nat (loc_data_offset loc) + N.to_nat (loc_data_len loc) <= write_offset s' /\
  sub_list (N.to_nat (loc_meta_offset loc)) (N.to_nat (loc_meta_len loc)) (mmap s') = n_meta_bytes n /\
  sub_list (N.to_nat (loc_data_offset loc)) (N.to_nat (loc_data_len loc)) (mmap s') = n_data n.
Proof.
  intros Hwf Hcap Hn Ha.
  destruct (decide (capacity s < write_offset s + serialized_size n)) as [Hlt|Hge].
  { rewrite append_full in Ha by done. done. }
  destruct (append_fits s n Hwf ltac:(lia)) as (loc' & Ha' & _ & Hloc). rewrite Ha' in Ha.
  simplify_eq. destruct (Hloc Hcap Hn) as (-> & -> & -> & ->). rewrite !Nat2N.id.
  cbn [write_offset mmap].
  destruct (image_fields n (drop (write_offset s + serialized_size n) (mmap s)))
    as (_ & _ & _ & Em & Ed).
  destruct Hwf as [Hm Hwo].
  assert (Hp : length (take (write_offset s) (mmap s)) = write_offset s).
  { rewrite length_take. lia. }
  set (lm := HEADER_SIZE + String.length (n_bucket n) + String.length (n_key n)
             + String.length (n_version_id n)) in *.
  split_and!; [unfold lm, serialized_size; lia..| |].
  - etransitivity; [|exact Em].
    rewrite <- (sub_list_shift lm _ (take (write_offset s) (mmap s))), Hp.
    by replace (write_offset s + lm) with (write_offset s + HEADER_SIZE
      + String.length (n_bucket n) + String.length (n_key n)
      + String.length (n_version_id n)) by (unfold lm; lia).
  - etransitivity; [|exact Ed].
    rewrite <- (sub_list_shift (lm + _) _ (take (write_offset s) (mmap s))), Hp.
    by replace (write_offset s + (lm + length (n_meta_bytes n)))
      with (write_offset s + HEADER_SIZE
      + String.length (n_bucket n) + String.length (n_key n)
      + String.length (n_version_id n) + length (n_meta_bytes n)) by (unfold lm; lia).
Qed.

Lemma append_frame s n s' r off len :
  wf_active s -> append s n = Some (s', r) -> off + len <= write_offset s ->
  sub_list off len (mmap s') = sub_list off len (mmap s).
Proof.
  intros Hwf Ha Hle.
  destruct (decide (capacity s < write_offset s + serialized_size n)) as [Hlt|Hge].
  { rewrite append_full in Ha by done. by simplify_eq. }
  destruct (append_fits s n Hwf ltac:(lia)) as (loc' & Ha' & _). rewrite Ha' in Ha.
  simplify_eq. cbn [mmap]. destruct Hwf. apply sub_list_below; lia.
Qed.

Lemma append_wf s n s' r :
  wf_active s -> append s n = Some (s', r) ->
  wf_active s' /\ segment_id s' = segment_id s /\ capacity s' = capacity s /\
  write_offset s <= write_offset s'.
Proof.
  intros Hwf Ha.
  destruct (decide (capacity s < write_offset s + serialized_size n)) as [Hlt|Hge].
  { rewrite append_full in Ha by done. by simplify_eq. }
  destruct (append_fits s n Hwf ltac:(lia)) as (loc' & Ha' & _). rewrite Ha' in Ha.
  simplify_eq. destruct Hwf. unfold wf_active. cbn [mmap write_offset capacity segment_id].
  rewrite !length_app, length_take, length_drop, length_needle_image. repeat split; lia.
Qed.

Lemma create_wf file id cap now s :
  create file id cap now = Some s ->
  wf_active s /\ segment_id s = id /\ capacity s = cap /\ write_offset s = SUPERBLOCK_SIZE.
Proof.
  unfold create. intros Hc. apply bind_Some in Hc as (m & Hsp & Hc). simplify_eq.
  pose proof (splice_length _ _ _ _ Hsp) as Hl. apply splice_Some in Hsp as [Hle _].
  unfold set_len in *. rewrite length_resize in *. unfold wf_active.
  cbn [mmap write_offset capacity segment_id].
  assert (Hsb : length (superblock_to_bytes {| sb_magic := SEGMENT_MAGIC; sb_version := 1;
    sb_segment_id := id; sb_created_at := now; sb_reserved := replicate 12 zero_byte |}) = 32)
    by done.
  rewrite Hsb in Hle. unfold SUPERBLOCK_SIZE. split_and!; done || lia.
Qed.

Lemma create_total file id cap now :
  SUPERBLOCK_SIZE <= cap -> is_Some (create file id cap now).
Proof.
  intros Hc. unfold create. destruct (splice_is_Some 0
    (superblock_to_bytes {| sb_magic := SEGMENT_MAGIC; sb_version := 1; sb_segment_id := id;
       sb_created_at := now; sb_reserved := replicate 12 zero_byte |}) (set_len cap file))
    as [m Hm].
  { unfold set_len. rewrite length_resize. done. }
  rewrite Hm. by eexists.
Qed.

End Lemmas.

(** ** Properties *)

(** Appending to a well-formed segment never panics and keeps it well formed:
    the append is refused exactly when the needle does not fit, a refusal leaves
    the segment untouched, and no byte below the old write offset changes, so
    every earlier entry still reads the same. *)
Theorem segment_append_safe `{Hashes} s n :
  wf_active s ->
  exists s' r, append s n = Some (s', r) /\ wf_active s' /\
    (r = None <-> capacity s < write_offset s + serialized_size n) /\
    (r = None -> s' = s) /\
    (forall off len, off + len <= write_offset s -> read_at s' off len = read_at s off len).
Proof.
  intros Hwf.
  destruct (decide (capacity s < write_offset s + serialized_size n)) as [Hlt|Hge].
  { exists s, None. rewrite append_full by done. done. }
  destruct (append_fits s n Hwf ltac:(lia)) as (loc & Ha & _). eexists _, _.
  split; [exact Ha|]. destruct (append_wf _ _ _ _ Hwf Ha) as (Hwf' & _ & _ & Hmono).
  split_and!; [done|split; [done|lia]|done|]. intros off len Hle.
  rewrite !read_at_below by lia. f_equal. eapply append_frame; eauto.
Qed.

(** The location returned by [append] is exact, with no truncation in its
    [u32] and [u16] fields, for segments below 4 GiB: reading it through the
    active map, or through the sealed map after [seal], gives back the needle's
    metadata and data bytes. *)
Theorem append_read_back `{Hashes} s n s' loc :
  wf_active s -> (N.of_nat (capacity s) < 2 ^ 32)%N -> wf_needle n ->
  append s n = Some (s', Some loc) ->
  let mo := N.to_nat (loc_meta_offset loc) in
  let ml := N.to_nat (loc_meta_len loc) in
  let dof := N.to_nat (loc_data_offset loc) in
  let dl := N.to_nat (loc_data_len loc) in
  read_at s' mo ml = Ok (n_meta_bytes n) /\ read_at s' dof dl = Ok (n_data n) /\
  sealed_slice (seal s') mo ml = Some (n_meta_bytes n) /\
  sealed_slice (seal s') dof dl = Some (n_data n).
Proof.
  intros Hwf Hcap Hn Ha. cbv zeta.
  destruct (append_location _ _ _ _ Hwf Hcap Hn Ha) as (Hm & Hd & Em & Ed).
  destruct (append_wf _ _ _ _ Hwf Ha) as ([Hl Hwo] & _).
  rewrite !read_at_below by done. unfold sealed_slice. cbn [seal sealed_mmap].
  rewrite !decide_True by lia. by rewrite Em, Ed.
Qed.

(** Crash recovery loses nothing that was appended: for any sequence of
    needles appended to a fresh segment, opening the segment file as it stands
    (sealed or not) finds the end of the data at the write offset, the scan
    visits exactly those needles in append order, and the offsets it reports
    hold each needle's metadata and data. *)
Theorem segment_recovery `{Hashes} `{!HashesOk} id cap now s0 ns s :
  (id < 2 ^ 32)%N -> Forall wf_needle ns ->
  create [] id cap now = Some s0 -> append_all s0 ns = Some s ->
  exists sg, open (path s) (mmap s) = Ok sg /\ sealed_id sg = segment_id s /\
    sealed_size sg = write_offset s /\ scan sg = items_from SUPERBLOCK_SIZE ns /\
    Forall2 (fun it n =>
      sealed_slice sg (scan_meta_offset it) (scan_meta_len it) = Some (n_meta_bytes n) /\
      sealed_slice sg (scan_data_offset it) (scan_data_len it) = Some (n_data n))
      (scan sg) ns.
Proof.
  intros Hid Hwf Hc Ha.
  pose proof (holds_append_all _ _ _ _ (holds_create _ _ _ _ Hid Hc) Ha) as Hh. simpl in Hh.
  destruct (holds_scan _ _ Hh Hwf) as (sg & Ho & Hi & Hs & Hscan & _).
  exists sg. split_and!; [done..|]. rewrite Hscan.
  assert (Hmm : sealed_mmap sg = mmap s).
  { unfold open in Ho. repeat case_decide; try done. by simplify_eq. }
  destruct Hh as (sb & tail & Hm & _ & _ & _ & Hsb & Hwo & Hcap & _).
  pose proof (items_slices ns (superblock_to_bytes sb) tail) as Hit.
  pose proof (items_in_bounds ns (superblock_to_bytes sb) tail) as Hib.
  rewrite Hsb, <- Hm in Hit, Hib. unfold sealed_slice. rewrite Hmm.
  eapply Forall2_impl; [exact (Forall2_Forall_and_l _ _ _ _ Hib Hit)|].
  intros it n ([? ?] & <- & <-). by rewrite !decide_True by lia.
Qed.

(** ** Witnesses: a 200-byte segment with two needles *)

Definition ex_seg0 : ActiveSegment :=
  default (mkActiveSegment 0 EmptyString [] 0 0) (create [] 1 200 1700000000).

Definition ex_tombstone : Needle := tombstone "photos" "2024/cat.jpg".

Definition ex_seg2 : ActiveSegment :=
  default ex_seg0 (@append_all example_hashes ex_seg0 [ex_needle; ex_tombstone]).

Lemma ex_seg0_wf : wf_active ex_seg0.
Proof. unfold wf_active, SUPERBLOCK_SIZE. split_and!; vm_compute; lia. Qed.

Lemma ex_tombstone_wf : wf_needle ex_tombstone.
Proof. unfold wf_needle. split_and!; vm_compute; reflexivity. Qed.

Lemma segment_append_safe_witness :
  exists s' r, @append example_hashes ex_seg0 ex_needle = Some (s', r) /\ wf_active s' /\
    (r = None <-> capacity ex_seg0 < write_offset ex_seg0 + serialized_size ex_needle) /\
    (r = None -> s' = ex_seg0) /\
    (forall off len, off + len <= write_offset ex_seg0 ->
       read_at s' off len = read_at ex_seg0 off len).
Proof. exact (segment_append_safe (H := example_hashes) ex_seg0 ex_needle ex_seg0_wf). Defined.

Lemma append_read_back_witness :
  exists s' loc, @append example_hashes ex_seg0 ex_needle = Some (s', Some loc) /\
    read_at s' (N.to_nat (loc_data_offset loc)) (N.to_nat (loc_data_len loc))
      = Ok (bytes_of "shard bytes").
Proof.
  assert (Hc : (N.of_nat (capacity ex_seg0) < 2 ^ 32)%N) by (vm_compute; reflexivity).
  destruct (@append example_hashes ex_seg0 ex_needle) as [[s' [loc|]]|] eqn:E.
  - exists s', loc. split; [reflexivity|].
    exact (proj1 (proj2 (append_read_back ex_seg0 ex_needle s' loc ex_seg0_wf Hc ex_needle_wf E))).
  - vm_compute in E. discriminate.
  - vm_compute in E. discriminate.
Defined.

Lemma segment_recovery_witness :
  exists sg, @open example_hashes (path ex_seg2) (mmap ex_seg2) = Ok sg /\
    sealed_size sg = write_offset ex_seg2 /\
    @scan example_hashes sg = items_from SUPERBLOCK_SIZE [ex_needle; ex_tombstone].
Proof.
  assert (Hid : (1 < 2 ^ 32)%N) by (vm_compute; reflexivity).
  assert (Hwf : Forall wf_needle [ex_needle; ex_tombstone])
    by (repeat constructor; apply ex_needle_wf || apply ex_tombstone_wf).
  assert (Hc : create [] 1 200 1700000000 = Some ex_seg0) by (vm_compute; reflexivity).
  assert (Ha : @append_all example_hashes ex_seg0 [ex_needle; ex_tombstone] = Some ex_seg2)
    by (vm_compute; reflexivity).
  destruct (segment_recovery 1 200 1700000000 ex_seg0 [ex_needle; ex_tombstone] ex_seg2
              Hid Hwf Hc Ha) as (sg & Ho & _ & Hs & Hscan & _).
  exists sg. exact (conj Ho (conj Hs Hscan)).
Defined.
