(* ===== verification/Pathing.v ===== *)
(** Path construction and name validation ([src/storage/pathing.rs]).

    A [Path] is the list of its components, the view under which [Path] values
    are compared in Rust; the Windows-only [Prefix] component does not occur on
    the modelled target.  [str::trim] strips the Unicode [White_Space]
    characters, given here by their UTF-8 encodings.  [uuid::Uuid::parse_str]
    is a crate outside the repository and is a parameter. *)

From Stdlib Require Import Ascii.
From stdpp Require Import base list strings numbers pretty.
From S2P Require Import Prelude Metadata.

Inductive component : Type :=
| RootDir
| CurDir
| ParentDir
| Normal (part : string).

Global Instance component_eq_dec : EqDecision component.
Proof. solve_decision. Defined.

Abbreviation Path := (list component).

Definition slash : byte := "/"%char.
Definition dot : byte := "."%char.
Definition dash : byte := "-"%char.

(** [Path::components] of a path given as a string. *)
Definition piece_component (first : bool) (p : bytes) : option component :=
  if bool_decide (p = []) then None
  else if bool_decide (p = [dot]) then (if first then Some CurDir else None)
  else if bool_decide (p = [dot; dot]) then Some ParentDir
  else Some (Normal (string_of p)).

Definition components (s : string) : Path :=
  let pieces := split_on slash (bytes_of s) in
  if prefixb [slash] (bytes_of s)
  then RootDir :: omap (piece_component false) pieces
  else match pieces with
       | [] => []
       | p :: ps => option_list (piece_component true p) ++ omap (piece_component false) ps
       end.

(** [PathBuf::push]: an absolute part replaces the path. *)
Definition push (p : Path) (part : string) : Path :=
  if prefixb [slash] (bytes_of part) then components part
  else match p with
       | [] => components part
       | _ => p ++ List.filter (fun c => negb (bool_decide (c = CurDir))) (components part)
       end.

(** [PathBuf::pop]: no effect on the root and on the empty path. *)
Definition pop (p : Path) : Path :=
  match rev p with
  | [] => p
  | RootDir :: _ => p
  | _ :: r => rev r
  end.

Definition normalize_step (normalized : Path) (c : component) : Path :=
  match c with
  | CurDir => normalized
  | ParentDir => pop normalized
  | Normal part => normalized ++ [Normal part]
  | RootDir => [RootDir]
  end.

Definition normalize_path (p : Path) : Path := fold_left normalize_step p [].

Fixpoint path_starts_with (p base : Path) {struct base} : bool :=
  match base, p with
  | [], _ => true
  | c :: base', d :: p' => bool_decide (c = d) && path_starts_with p' base'
  | _ :: _, [] => false
  end.

Definition component_str (c : component) : string :=
  match c with
  | RootDir => ""
  | CurDir => "."
  | ParentDir => ".."
  | Normal s => s
  end.

(** [to_string_lossy]. *)
Definition path_to_string (p : Path) : string :=
  string_of (join_with slash (map (fun c => bytes_of (component_str c)) p)).

Definition safe_join (root : Path) (parts : list string) : Result Path :=
  let candidate := fold_left push parts root in
  let normalized := normalize_path candidate in
  let normalized_root := normalize_path root in
  if path_starts_with normalized normalized_root
  then Ok normalized
  else Err (InvalidObjectKey (path_to_string candidate)).

(** ** [str::trim] *)

Definition is_ascii_ws (b : byte) : bool :=
  let v := byte_val b in ((9 <=? v)%N && (v <=? 13)%N) || (v =? 32)%N.

Definition byte_is (v : N) (b : byte) : bool := (byte_val b =? v)%N.

(** Drop one leading white-space character. *)
Definition ws_char_front (l : bytes) : option bytes :=
  match l with
  | [] => None
  | a :: r1 =>
      if is_ascii_ws a then Some r1
      else match r1 with
      | [] => None
      | b :: r2 =>
          if byte_is 0xC2 a && (byte_is 0x85 b || byte_is 0xA0 b) then Some r2
          else match r2 with
          | [] => None
          | c :: r3 =>
              if (byte_is 0xE1 a && byte_is 0x9A b && byte_is 0x80 c)
                 || (byte_is 0xE2 a && byte_is 0x80 b
                     && (in_range 0x80 0x8A c || byte_is 0xA8 c || byte_is 0xA9 c
                         || byte_is 0xAF c))
                 || (byte_is 0xE2 a && byte_is 0x81 b && byte_is 0x9F c)
                 || (byte_is 0xE3 a && byte_is 0x80 b && byte_is 0x80 c)
              then Some r3 else None
          end
      end
  end.

(** The same character at the end of a string, on the reversed bytes. *)
Definition ws_char_back (l : bytes) : option bytes :=
  match l with
  | [] => None
  | c :: r1 =>
      if is_ascii_ws c then Some r1
      else match r1 with
      | [] => None
      | b :: r2 =>
          if byte_is 0xC2 b && (byte_is 0x85 c || byte_is 0xA0 c) then Some r2
          else match r2 with
          | [] => None
          | a :: r3 =>
              if (byte_is 0xE1 a && byte_is 0x9A b && byte_is 0x80 c)
                 || (byte_is 0xE2 a && byte_is 0x80 b
                     && (in_range 0x80 0x8A c || byte_is 0xA8 c || byte_is 0xA9 c
                         || byte_is 0xAF c))
                 || (byte_is 0xE2 a && byte_is 0x81 b && byte_is 0x9F c)
                 || (byte_is 0xE3 a && byte_is 0x80 b && byte_is 0x80 c)
              then Some r3 else None
          end
      end
  end.

Fixpoint strip_while (f : bytes -> option bytes) (fuel : nat) (l : bytes) : bytes :=
  match fuel with
  | O => l
  | S fuel => match f l with Some l' => strip_while f fuel l' | None => l end
  end.

Definition trim_bytes (l : bytes) : bytes :=
  let l := strip_while ws_char_front (length l) l in
  rev (strip_while ws_char_back (length l) (rev l)).

Definition trim (s : string) : string := string_of (trim_bytes (bytes_of s)).

(** ** [Ipv4Addr::from_str] *)

Definition is_digit (b : byte) : bool := in_range 48 57 b.
Definition is_lower (b : byte) : bool := in_range 97 122 b.

Definition dec_value (l : bytes) : N :=
  fold_left (fun acc b => acc * 10 + (byte_val b - 48))%N l 0%N.

(** One to three digits, no leading zero, at most 255. *)
Definition ipv4_octet (l : bytes) : bool :=
  forallb is_digit l && (1 <=? length l) && (length l <=? 3)
  && ((length l =? 1) || negb (prefixb [ascii_of_N 48] l))
  && (dec_value l <=? 255)%N.

Definition parse_ipv4_ok (s : string) : bool :=
  let ps := split_on dot (bytes_of s) in
  (length ps =? 4) && forallb ipv4_octet ps.

(** ** Validation *)

Definition MAX_KEY_LEN : nat := 1024.

Definition WINDOWS_FORBIDDEN : bytes :=
  [ ":"; "*"; "?"; "034"; "|"; "<"; ">"; "\" ]%char.

Definition bucket_char (b : byte) : bool :=
  is_lower b || is_digit b || Ascii.eqb b dot || Ascii.eqb b dash.

Definition alnum (b : byte) : bool := is_lower b || is_digit b.

Definition validate_bucket_name (bucket : string) : Result unit :=
  let bucket := trim bucket in
  if bool_decide (bucket = "") || (63 <? String.length bucket)
  then Err (InvalidBucketName bucket)
  else if bool_decide (bucket = "abixio") then Err (InvalidBucketName bucket)
  else if parse_ipv4_ok bucket then Err (InvalidBucketName bucket)
  else if contains ".." bucket || contains ".-" bucket || contains "-." bucket
  then Err (InvalidBucketName bucket)
  else if negb (forallb bucket_char (bytes_of bucket)) then Err (InvalidBucketName bucket)
  else if negb (match head (bytes_of bucket) with Some c => alnum c | None => false end)
       || negb (match head (rev (bytes_of bucket)) with Some c => alnum c | None => false end)
  then Err (InvalidBucketName bucket)
  else Ok tt.

(** The loop body of [validate_key_segments]. *)
Definition segment_ok (segment : bytes) : bool :=
  negb (bool_decide (segment = [])
        || negb (bool_decide (trim_bytes segment = segment))
        || bool_decide (segment = [dot]) || bool_decide (segment = [dot; dot]))
  && negb (existsb (fun c => bool_decide (c ∈ WINDOWS_FORBIDDEN)) segment).

Definition validate_key_segments (key : string) : Result unit :=
  if forallb segment_ok (split_on slash (bytes_of key))
  then Ok tt else Err (InvalidObjectKey key).

Definition validate_object_key (key : string) : Result unit :=
  if bool_decide (key = "") || (MAX_KEY_LEN <? String.length key)
  then Err (InvalidObjectKey key)
  else if starts_with "/" key || containsb [zero_byte] (bytes_of key) || contains "//" key
  then Err (InvalidObjectKey key)
  else validate_key_segments key.

(** [trim_end_matches('/')]. *)
Fixpoint trim_end_slashes_rev (l : bytes) : bytes :=
  match l with
  | c :: r => if Ascii.eqb c slash then trim_end_slashes_rev r else l
  | [] => []
  end.

Definition trim_end_slashes (s : string) : string :=
  string_of (rev (trim_end_slashes_rev (rev (bytes_of s)))).

Definition validate_object_prefix (prefix : string) : Result unit :=
  if bool_decide (prefix = "") then Ok tt
  else if (MAX_KEY_LEN <? String.length prefix) || starts_with "/" prefix
          || containsb [zero_byte] (bytes_of prefix) || contains "//" prefix
  then Err (InvalidObjectKey prefix)
  else
    let trimmed := trim_end_slashes prefix in
    if bool_decide (trimmed = "") then Ok tt else validate_key_segments trimmed.

(** [Uuid::parse_str(s).is_ok()]. *)
Class UuidParser : Type := uuid_ok : string -> bool.

Section Dirs.
  Context `{UuidParser}.

Definition validate_version_id (v : string) : Result unit :=
  if uuid_ok v then Ok tt else Err (InvalidVersionId v).

Definition validate_upload_id (u : string) : Result unit :=
  if uuid_ok u then Ok tt else Err (InvalidUploadId u).

Definition bucket_dir (root : Path) (bucket : string) : Result Path :=
  _ ← validate_bucket_name bucket;
  safe_join root [bucket].

Definition object_dir (root : Path) (bucket key : string) : Result Path :=
  _ ← validate_bucket_name bucket;
  _ ← validate_object_key key;
  safe_join root (bucket :: split slash key).

Definition object_meta_path (root : Path) (bucket key : string) : Result Path :=
  d ← object_dir root bucket key; Ok (push d "meta.json").

Definition object_shard_path (root : Path) (bucket key : string) : Result Path :=
  d ← object_dir root bucket key; Ok (push d "shard.dat").

Definition version_dir (root : Path) (bucket key vid : string) : Result Path :=
  _ ← validate_version_id vid;
  d ← object_dir root bucket key; Ok (push d vid).

Definition version_shard_path (root : Path) (bucket key vid : string) : Result Path :=
  d ← version_dir root bucket key vid; Ok (push d "shard.dat").

Definition bucket_settings_dir (root : Path) (bucket : string) : Result Path :=
  _ ← validate_bucket_name bucket;
  safe_join root [".abixio.sys"; "buckets"; bucket].

Definition bucket_settings_path (root : Path) (bucket : string) : Result Path :=
  d ← bucket_settings_dir root bucket; Ok (push d "settings.json").

Definition multipart_bucket_dir (root : Path) (bucket : string) : Result Path :=
  _ ← validate_bucket_name bucket;
  safe_join root [".abixio.sys"; "multipart"; bucket].

Definition multipart_upload_dir (root : Path) (bucket key uid : string) : Result Path :=
  _ ← validate_bucket_name bucket;
  _ ← validate_object_key key;
  _ ← validate_upload_id uid;
  safe_join root ([".abixio.sys"; "multipart"; bucket] ++ split slash key ++ [uid]).

End Dirs.

(** The unit tests of the source, on the model. *)
Example bucket_tests :
  map (fun b => is_ok (validate_bucket_name b))
    [".."; "a..b"; "abixio"; "127.0.0.1"; ""; "UPPER"; "has space"; "has/slash"; "-leading";
     "trailing-"; "a.-b"; "a"; "my.bucket.name"; "my-bucket-123"; "0bucket"]
  = [false; false; false; false; false; false; false; false; false;
     false; false; true; true; true; true].
Proof. vm_compute. reflexivity. Qed.

Example key_tests :
  map (fun k => is_ok (validate_object_key k))
    [""; ".."; "../x"; "a/../../b"; "a/./b"; "a//b"; "/a/b"; "a:b"; "a\b"; " a"; "a "; "a/ b";
     "a"; "a/b/c/d"; "file.txt"; "a-b_c"]
  = [false; false; false; false; false; false; false; false; false; false; false; false;
     true; true; true; true].
Proof. vm_compute. reflexivity. Qed.

Example join_tests :
  safe_join (components "/data/v1") [".."; "etc"] =
    Err (InvalidObjectKey "/data/v1/../etc") /\
  safe_join (components "/data/v1") ["bucket"; "key"] = Ok (components "/data/v1/bucket/key").
Proof. vm_compute. done. Qed.

(** ** Lemmas *)

(** A path component that is neither empty nor special and holds no separator. *)
Definition good_part (s : string) : Prop :=
  slash ∉ bytes_of s /\ s <> "" /\ s <> "." /\ s <> "..".

Global Instance good_part_dec s : Decision (good_part s).
Proof. unfold good_part. apply _. Defined.


Lemma split_on_no_occ c l : c ∉ l -> split_on c l = [l].
Proof.
  induction l as [|x l IH]; [done|]. intros [Hx Hl]%not_elem_of_cons. simpl.
  destruct (Ascii.eqb_spec x c) as [->|_]; [done|]. by rewrite IH.
Qed.

Lemma prefixb_slash_false l : slash ∉ l -> prefixb [slash] l = false.
Proof.
  intros H. destruct l as [|x l]; [done|]. cbn [prefixb].
  apply not_elem_of_cons in H as [H _].
  by destruct (Ascii.eqb_spec slash x).
Qed.

Lemma good_part_piece first s :
  good_part s -> piece_component first (bytes_of s) = Some (Normal s).
Proof.
  intros (_ & H0 & H1 & H2). unfold piece_component.
  rewrite !bool_decide_eq_false_2, string_of_bytes_of; [done|..].
  - intros E. apply H2, bytes_of_inj. by rewrite E.
  - intros E. apply H1, bytes_of_inj. by rewrite E.
  - intros E. apply H0, bytes_of_inj. by rewrite E.
Qed.

Lemma push_good p s : good_part s -> push p s = p ++ [Normal s].
Proof.
  intros Hg. pose proof Hg as (Hs & _). unfold push.
  assert (Hc : components s = [Normal s]).
  { unfold components. rewrite prefixb_slash_false, split_on_no_occ by done.
    by rewrite good_part_piece. }
  rewrite prefixb_slash_false by done. rewrite Hc. by destruct p.
Qed.

Lemma push_all_good parts root :
  Forall good_part parts -> fold_left push parts root = root ++ map Normal parts.
Proof.
  intros Hg. revert root. induction Hg as [|s parts Hs _ IH]; intros root; simpl.
  - by rewrite app_nil_r.
  - by rewrite push_good, IH, <- app_assoc.
Qed.

Lemma normalize_app_normal p parts :
  normalize_path (p ++ map Normal parts) = normalize_path p ++ map Normal parts.
Proof.
  unfold normalize_path. rewrite fold_left_app.
  generalize (fold_left normalize_step p []) as q. induction parts as [|s parts IH]; intros q; simpl.
  - by rewrite app_nil_r.
  - by rewrite IH, <- app_assoc.
Qed.

Lemma path_starts_with_app a b : path_starts_with (a ++ b) a = true.
Proof. induction a as [|c a IH]; simpl; [done|]. by rewrite bool_decide_eq_true_2, IH. Qed.

Lemma path_starts_with_prefix p base : path_starts_with p base = true -> exists r, p = base ++ r.
Proof.
  revert p; induction base as [|c base IH]; intros p; [by exists p|].
  destruct p as [|d p]; simpl; [done|]. rewrite andb_true_iff, bool_decide_eq_true.
  intros [-> [r ->]%IH]. by exists r.
Qed.

(** Joining good parts to any root: the normalized root followed by the parts. *)
Lemma safe_join_good root parts :
  Forall good_part parts -> safe_join root parts = Ok (normalize_path root ++ map Normal parts).
Proof.
  intros Hg. unfold safe_join. rewrite push_all_good, normalize_app_normal by done.
  by rewrite path_starts_with_app.
Qed.

(** What [trim] removes is white space, and a slash or a letter is none. *)
Definition ws_byte (b : byte) : Prop := b <> slash.

Lemma is_ascii_ws_not_slash b : is_ascii_ws b = true -> b <> slash.
Proof. by intros H ->. Qed.

Lemma byte_is_not_slash v b : byte_is v b = true -> v <> 47%N -> b <> slash.
Proof. unfold byte_is. intros H%N.eqb_eq Hv ->. apply Hv. by rewrite <- H. Qed.

Lemma in_range_not_slash lo hi b : in_range lo hi b = true -> (47 < lo)%N -> b <> slash.
Proof.
  unfold in_range. rewrite andb_true_iff, !N.leb_le. intros [? ?] ? ->.
  change (byte_val slash) with 47%N in *. lia.
Qed.

Ltac ws_case :=
  repeat match goal with
  | H : _ && _ = true |- _ => apply andb_true_iff in H as [? ?]
  | H : _ || _ = true |- _ => apply orb_true_iff in H as [?|?]
  end;
  repeat match goal with
  | |- ?x ∉ [] => apply not_elem_of_nil
  | |- ?x ∉ _ :: _ => apply not_elem_of_cons; split; [apply not_eq_sym|]
  | H : is_ascii_ws ?b = true |- ?b <> slash => exact (is_ascii_ws_not_slash b H)
  | H : byte_is ?v ?b = true |- ?b <> slash => exact (byte_is_not_slash v b H ltac:(done))
  | H : in_range ?lo ?hi ?b = true |- ?b <> slash =>
      exact (in_range_not_slash lo hi b H ltac:(done))
  end.

Lemma ws_char_front_split l r :
  ws_char_front l = Some r -> exists w, l = w ++ r /\ slash ∉ w.
Proof.
  unfold ws_char_front. intros E.
  destruct l as [|a l]; [done|]. destruct (is_ascii_ws a) eqn:Ea.
  { simplify_eq. exists [a]. split; [done|]. ws_case. }
  destruct l as [|b l]; [done|].
  destruct (byte_is 0xC2 a && (byte_is 0x85 b || byte_is 0xA0 b)) eqn:Eb.
  { simplify_eq. exists [a; b]. split; [done|]. ws_case. }
  destruct l as [|c l]; [done|].
  match type of E with (if ?x then _ else _) = _ => destruct x eqn:Ec end; [|done].
  simplify_eq. exists [a; b; c]. split; [done|]. ws_case.
Qed.

Lemma ws_char_back_split l r :
  ws_char_back l = Some r -> exists w, l = w ++ r /\ slash ∉ w.
Proof.
  unfold ws_char_back. intros E.
  destruct l as [|c l]; [done|]. destruct (is_ascii_ws c) eqn:Ea.
  { simplify_eq. exists [c]. split; [done|]. ws_case. }
  destruct l as [|b l]; [done|].
  destruct (byte_is 0xC2 b && (byte_is 0x85 c || byte_is 0xA0 c)) eqn:Eb.
  { simplify_eq. exists [c; b]. split; [done|]. ws_case. }
  destruct l as [|a l]; [done|].
  match type of E with (if ?x then _ else _) = _ => destruct x eqn:Ec end; [|done].
  simplify_eq. exists [c; b; a]. split; [done|]. ws_case.
Qed.

Lemma strip_while_split f fuel l :
  (forall l r, f l = Some r -> exists w, l = w ++ r /\ slash ∉ w) ->
  exists w, l = w ++ strip_while f fuel l /\ slash ∉ w.
Proof.
  intros Hf. revert l. induction fuel as [|fuel IH]; intros l; simpl.
  { exists []. split; [done|]. apply not_elem_of_nil. }
  destruct (f l) as [r|] eqn:E.
  - destruct (Hf _ _ E) as (w & -> & Hw). destruct (IH r) as (w' & Hr & Hw').
    exists (w ++ w'). rewrite <- app_assoc, <- Hr. split; [done|]. by apply not_elem_of_app.
  - exists []. split; [done|]. apply not_elem_of_nil.
Qed.

Lemma trim_bytes_split l : exists w1 w2, l = w1 ++ trim_bytes l ++ w2 /\ slash ∉ w1 /\ slash ∉ w2.
Proof.
  unfold trim_bytes.
  destruct (strip_while_split ws_char_front (length l) l ws_char_front_split) as (w1 & H1 & Hw1).
  set (m := strip_while ws_char_front (length l) l) in *.
  destruct (strip_while_split ws_char_back (length m) (rev m) ws_char_back_split) as (w2 & H2 & Hw2).
  exists w1, (rev w2). split_and!; [|done|by rewrite list_elem_of_In, <- in_rev, <- list_elem_of_In].
  rewrite <- rev_app_distr, <- H2, rev_involutive. done.
Qed.

(** Every accepted bucket name is a good path component, white-space padding
    included: the name is used as given, not as trimmed. *)
Lemma valid_bucket_trimmed b :
  validate_bucket_name b = Ok tt ->
  forallb bucket_char (trim_bytes (bytes_of b)) = true /\
  (exists c, head (trim_bytes (bytes_of b)) = Some c /\ alnum c = true).
Proof.
  unfold validate_bucket_name. unfold trim. rewrite !bytes_of_string_of.
  repeat (match goal with |- context [if ?x then _ else _] => destruct x eqn:? end; try done).
  intros _. split.
  - by destruct (forallb bucket_char (trim_bytes (bytes_of b))).
  - destruct (head (trim_bytes (bytes_of b))) as [c|]; [|done].
    exists c. split; [done|]. by destruct (alnum c).
Qed.

Lemma bucket_char_not_slash c : bucket_char c = true -> c <> slash.
Proof. by intros H ->. Qed.

Lemma alnum_not_dot c : alnum c = true -> c <> dot.
Proof. by intros H ->. Qed.

Lemma valid_bucket_good b : validate_bucket_name b = Ok tt -> good_part b.
Proof.
  intros Hv. destruct (valid_bucket_trimmed b Hv) as (Hall & c & Hc & Hal).
  destruct (trim_bytes_split (bytes_of b)) as (w1 & w2 & Hb & Hw1 & Hw2).
  assert (Hin : c ∈ bytes_of b).
  { rewrite Hb. destruct (trim_bytes (bytes_of b)) as [|x t]; [done|]. simpl in Hc.
    simplify_eq. apply elem_of_app. right. apply elem_of_app. left. constructor. }
  split_and!.
  - rewrite Hb. rewrite !not_elem_of_app. split_and!; [done| |done].
    intros Hs. rewrite forallb_forall in Hall. apply list_elem_of_In in Hs.
    specialize (Hall _ Hs). by apply (bucket_char_not_slash slash).
  - intros ->. by apply not_elem_of_nil in Hin.
  - intros ->. apply list_elem_of_singleton in Hin as ->. done.
  - intros ->. apply elem_of_cons in Hin as [->|Hin]; [done|].
    apply list_elem_of_singleton in Hin as ->. done.
Qed.

Lemma segment_ok_good seg : slash ∉ seg -> segment_ok seg = true -> good_part (string_of seg).
Proof.
  unfold segment_ok. intros Hs H. apply andb_true_iff in H as [H _].
  apply negb_true_iff in H. rewrite !orb_false_iff in H. destruct H as [[[H0 _] H1] H2].
  apply bool_decide_eq_false in H0, H1, H2. unfold good_part. rewrite bytes_of_string_of.
  split_and!; [done|..]; intros E; apply (f_equal bytes_of) in E;
    rewrite bytes_of_string_of in E; [exact (H0 E)|exact (H1 E)|exact (H2 E)].
Qed.

Lemma valid_key_segments k : validate_object_key k = Ok tt -> Forall good_part (split slash k).
Proof.
  unfold validate_object_key, validate_key_segments.
  repeat (match goal with |- context [if ?x then _ else _] => destruct x eqn:? end; try done).
  intros _. unfold split. apply Forall_map.
  pose proof (split_on_no_sep slash (bytes_of k)) as Hns.
  match goal with H : forallb segment_ok _ = true |- _ => rewrite forallb_forall in H end.
  rewrite Forall_forall in *. intros seg Hin. apply segment_ok_good; [by apply Hns|].
  match goal with H : forall x, _ -> segment_ok x = true |- _ => apply H end.
  by apply list_elem_of_In.
Qed.

(** [object_dir] in closed form: it succeeds exactly on validated names. *)
Lemma object_dir_Ok root b k p :
  object_dir root b k = Ok p <->
  validate_bucket_name b = Ok tt /\ validate_object_key k = Ok tt /\
  p = normalize_path root ++ map Normal (b :: split slash k).
Proof.
  unfold object_dir. split.
  - intros ([] & Hb & H)%result_bind_Ok. apply result_bind_Ok in H as ([] & Hk & H).
    split_and!; [done..|]. rewrite safe_join_good in H; [by simplify_eq|].
    constructor; [by apply valid_bucket_good|by apply valid_key_segments].
  - intros (Hb & Hk & ->). rewrite Hb, Hk. cbn [mbind result_bind]. apply safe_join_good.
    constructor; [by apply valid_bucket_good|by apply valid_key_segments].
Qed.

Lemma map_Normal_inj l1 l2 : map Normal l1 = map Normal l2 -> l1 = l2.
Proof.
  revert l2; induction l1 as [|x l1 IH]; intros [|y l2]; try done.
  simpl. intros [= -> ?]. f_equal. auto.
Qed.

Lemma valid_bucket_not_sys b : validate_bucket_name b = Ok tt -> b <> ".abixio.sys".
Proof. intros H ->. vm_compute in H. done. Qed.

Lemma path_starts_with_app_l p a b :
  path_starts_with (p ++ a) (p ++ b) = path_starts_with a b.
Proof. induction p as [|c p IH]; simpl; [done|]. by rewrite bool_decide_eq_true_2, IH. Qed.

(** ** Properties *)

(** C35: Object paths are confined to the volume: [object_dir] succeeds exactly on
    a valid bucket name and a valid key, and the directory it returns is the
    normalized root followed by the bucket and the key's segments as plain
    components, so no key reaches outside its bucket's directory and no
    component of it is [..]. *)
Theorem object_dir_confined root b k p :
  object_dir root b k = Ok p <->
  validate_bucket_name b = Ok tt /\ validate_object_key k = Ok tt /\
  p = normalize_path root ++ Normal b :: map Normal (split slash k) /\
  Forall (fun c => c <> ParentDir) (drop (length (normalize_path root)) p).
Proof.
  rewrite object_dir_Ok. split; [|naive_solver].
  intros (Hb & Hk & ->). split_and!; [done..|].
  rewrite drop_app_length. apply Forall_map, Forall_forall. done.
Qed.

(** Distinct objects never share a directory: on one volume, [object_dir]
    determines both the bucket and the key. *)
Theorem object_dir_injective root b1 k1 b2 k2 p :
  object_dir root b1 k1 = Ok p -> object_dir root b2 k2 = Ok p -> b1 = b2 /\ k1 = k2.
Proof.
  intros (_ & _ & ->)%object_dir_Ok (_ & _ & E)%object_dir_Ok.
  apply app_inv_head, map_Normal_inj in E. simplify_eq.
  split; [done|]. by eapply split_inj.
Qed.

(** Object data and the volume's own state are disjoint: bucket settings and
    multipart directories lie under [.abixio.sys], and no object directory of
    any bucket does, so no key can overwrite settings or another upload's parts. *)
Theorem system_dir_isolated root b k p bs q :
  object_dir root b k = Ok p ->
  bucket_settings_dir root bs = Ok q \/ multipart_bucket_dir root bs = Ok q ->
  let sys := normalize_path root ++ [Normal ".abixio.sys"] in
  path_starts_with q sys = true /\ path_starts_with p sys = false.
Proof.
  intros (Hb & _ & ->)%object_dir_Ok Hq. cbv zeta. split.
  - assert (Hg : forall x, validate_bucket_name bs = Ok tt -> good_part x ->
      safe_join root [".abixio.sys"; x; bs] = Ok q ->
      path_starts_with q (normalize_path root ++ [Normal ".abixio.sys"]) = true).
    { intros x Hv Hx Hj. rewrite safe_join_good in Hj.
      - simplify_eq. rewrite path_starts_with_app_l. done.
      - constructor; [by_decide|]. constructor; [done|].
        constructor; [by apply valid_bucket_good|constructor]. }
    assert (Hb1 : good_part "buckets") by by_decide.
    assert (Hb2 : good_part "multipart") by by_decide.
    destruct Hq as [Hq|Hq]; apply result_bind_Ok in Hq as ([] & Hv & Hj); naive_solver.
  - rewrite path_starts_with_app_l. cbn [map path_starts_with].
    rewrite bool_decide_eq_false_2; [done|]. intros [= E]. by apply (valid_bucket_not_sys b).
Qed.

(** The metadata file of an object is also the directory of another valid
    object: [meta.json] of key [a] is the object directory of key
    [a/meta.json], and its [shard.dat] that of [a/shard.dat]; whichever of the
    two is written second finds a file where it needs a directory (or the
    reverse). *)
Theorem meta_path_collides root :
  exists p q,
    object_meta_path root "photos" "a" = Ok p /\ object_dir root "photos" "a/meta.json" = Ok p /\
    object_shard_path root "photos" "a" = Ok q /\ object_dir root "photos" "a/shard.dat" = Ok q.
Proof.
  assert (Hd : forall k, validate_object_key k = Ok tt ->
    object_dir root "photos" k = Ok (normalize_path root ++ map Normal ("photos" :: split slash k))).
  { intros k Hk. apply object_dir_Ok. by split_and!. }
  unfold object_meta_path, object_shard_path. rewrite !Hd by (vm_compute; reflexivity).
  cbn [mbind result_bind].
  rewrite !push_good by by_decide.
  rewrite <- !app_assoc. eauto 10.
Qed.

(** A padded name is accepted and then used unpadded nowhere: it names another
    directory than the name the check looked at. *)
Example padded_bucket :
  validate_bucket_name " photos" = Ok tt /\
  bucket_dir [RootDir] " photos" = Ok [RootDir; Normal " photos"].
Proof. vm_compute. done. Qed.

(** ** Witnesses *)

Lemma object_dir_injective_witness :
  object_dir (components "/data/v1") "photos" "2024/cat.jpg"
    = Ok (components "/data/v1/photos/2024/cat.jpg") /\
  "photos" = "photos" /\ "2024/cat.jpg" = "2024/cat.jpg".
Proof.
  assert (E : object_dir (components "/data/v1") "photos" "2024/cat.jpg"
    = Ok (components "/data/v1/photos/2024/cat.jpg")) by (vm_compute; reflexivity).
  split; [exact E|]. exact (object_dir_injective _ _ _ _ _ _ E E).
Defined.

Lemma system_dir_isolated_witness :
  path_starts_with (components "/v/.abixio.sys/buckets/photos") (components "/v/.abixio.sys") = true
  /\ path_starts_with (components "/v/photos/a") (components "/v/.abixio.sys") = false.
Proof.
  apply (system_dir_isolated (components "/v") "photos" "a" (components "/v/photos/a")
           "photos" (components "/v/.abixio.sys/buckets/photos")).
  - vm_compute. reflexivity.
  - left. vm_compute. reflexivity.
Defined.

(** ** Decimal numbers *)

Definition decimal (s : string) : Prop := Forall (fun c => is_digit c = true) (bytes_of s).

Lemma pretty_digit n : is_digit (pretty_N_char n) = true.
Proof. destruct n as [|[[[|[]|]|[|[]|]|]|[[|[]|]|[|[]|]|]|]]; vm_compute; reflexivity. Qed.

Lemma pretty_go_decimal n s : decimal s -> decimal (pretty_N_go n s).
Proof.
  revert s. induction (N.lt_wf_0 n) as [n _ IH]; intros s Hs.
  destruct (decide (n = 0)%N) as [->|Hn]; [done|]. rewrite pretty_N_go_step by lia.
  apply IH; [apply N.div_lt; lia|]. constructor; [apply pretty_digit|done].
Qed.

Lemma pretty_N_decimal (n : N) : decimal (pretty n).
Proof.
  unfold pretty, pretty_N. case_decide; [by repeat constructor|]. apply pretty_go_decimal. constructor.
Qed.

Lemma decimal_not s c : decimal s -> is_digit c = false -> c ∉ bytes_of s.
Proof. intros Hs Hc Hin. unfold decimal in Hs. rewrite Forall_forall in Hs. by rewrite Hs in Hc. Qed.

(** A printed number holds digits and perhaps a sign. *)
Lemma pretty_Z_not (z : Z) c : is_digit c = false -> c <> "-"%char -> c ∉ bytes_of (pretty z).
Proof.
  intros Hc Hd. assert (Hn : forall p, c ∉ bytes_of (pretty (Npos p))).
  { intros p. by apply decimal_not; [apply pretty_N_decimal|]. }
  destruct z as [|p|p]; [by apply (decimal_not "0"); [repeat constructor|]|apply Hn|].
  change (bytes_of (pretty (Zneg p))) with ("-"%char :: bytes_of (pretty (Npos p))).
  apply not_elem_of_cons. by split.
Qed.
