(* ===== verification/Wal.v ===== *)
(** The write-ahead log of one volume ([src/storage/wal.rs], first half): the
    pending map, rotation, reads, deletion of segments and recovery on startup.
    The workers that empty the log are in [Materialize].

    The log directory is a map from file names to contents, kept in step with
    the active segment's shared map.  The volume's files are a map from paths to
    bytes; [create_dir_all] needs no counterpart.  Failing system calls are not
    modelled; [None] is a panic.  The clock is an argument ([now]).  The JSON
    codecs of [ObjectMetaFile] (simd-json, serde_json) are parameters. *)

From Stdlib Require Import Ascii.
From stdpp Require Import base list gmap strings numbers sorting.
From S2P Require Import Prelude Metadata Needle Segment Pathing.

Global Instance component_countable : Countable component.
Proof.
  refine (inj_countable'
    (fun c => match c with RootDir => inl (inl ()) | CurDir => inl (inr ())
              | ParentDir => inr (inl ()) | Normal s => inr (inr s) end)
    (fun x => match x with inl (inl _) => RootDir | inl (inr _) => CurDir
              | inr (inl _) => ParentDir | inr (inr s) => Normal s end) _).
  by intros [].
Defined.

Definition DEFAULT_WAL_THRESHOLD : nat := N.to_nat (64 * 1024).

Record WalEntry : Type := mkWalEntry {
  we_segment_id : N;
  we_data_offset : N;
  we_data_len : N;
  we_meta_offset : N;
  we_meta_len : N;
  we_created_at : N;
}.

Global Instance WalEntry_eq_dec : EqDecision WalEntry.
Proof. solve_decision. Defined.

Record MaterializeRequest : Type := mkMaterializeRequest {
  req_bucket : string;
  req_key : string;
  req_version_id : string;
  req_entry : WalEntry;
}.

(** (bucket, key, version_id); the empty version id is the unversioned object. *)
Abbreviation PendingKey := (string * string * string)%type.

Record Wal : Type := mkWal {
  log_dir : gmap string bytes;
  active : ActiveSegment;
  sealed : list SealedSegment;
  pending : gmap PendingKey WalEntry;
  segment_pending_counts : gmap N N;
  next_segment_id : N;
  segment_capacity : nat;
}.

Definition loc_to_entry (sid : N) (loc : NeedleLocation) : WalEntry :=
  {| we_segment_id := sid;
     we_data_offset := loc_data_offset loc;
     we_data_len := loc_data_len loc;
     we_meta_offset := loc_meta_offset loc;
     we_meta_len := loc_meta_len loc;
     we_created_at := loc_created_at loc |}.

(** [ActiveSegment::create] in the log directory. *)
Definition create_in (dir : gmap string bytes) (id : N) (cap : nat) (now : N)
    : option (ActiveSegment * gmap string bytes) :=
  a ← create (default [] (dir !! segment_filename id)) id cap now;
  Some (a, <[path a := mmap a]> dir).

(** [*counts.entry(id).or_insert(0) += 1] on [u32] counters. *)
Definition incr_count (id : N) (counts : gmap N N) : gmap N N :=
  <[id := as_u32 (default 0%N (counts !! id) + 1)]> counts.

Section WithHashes.
  Context `{Hashes} `{MetaCodec} `{UuidParser}.

(** *** Append and rotation *)

Definition rotate_active (w : Wal) (now : N) : option Wal :=
  r ← create_in (log_dir w) 0 (segment_capacity w) now;
  let s := seal (active w) in
  let seg_id := next_segment_id w in
  r2 ← create_in r.2 seg_id (segment_capacity w) now;
  Some {| log_dir := r2.2; active := r2.1; sealed := sealed w ++ [s];
          pending := pending w; segment_pending_counts := segment_pending_counts w;
          next_segment_id := as_u32 (seg_id + 1); segment_capacity := segment_capacity w |}.

(** One attempt on the active segment: the three updates of a success. *)
Definition try_append (w : Wal) (n : Needle) : option (Wal * option WalEntry) :=
  r ← append (active w) n;
  match r.2 with
  | None => Some (w, None)
  | Some loc =>
      let a := r.1 in
      let entry := loc_to_entry (segment_id a) loc in
      Some ({| log_dir := <[path a := mmap a]> (log_dir w); active := a; sealed := sealed w;
               pending := <[(n_bucket n, n_key n, n_version_id n) := entry]> (pending w);
               segment_pending_counts := incr_count (segment_id a) (segment_pending_counts w);
               next_segment_id := next_segment_id w;
               segment_capacity := segment_capacity w |}, Some entry)
  end.

Definition wal_append (w : Wal) (n : Needle) (now : N) : option (Wal * Result WalEntry) :=
  r ← try_append w n;
  match r.2 with
  | Some entry => Some (r.1, Ok entry)
  | None =>
      w ← rotate_active w now;
      r ← try_append w n;
      match r.2 with
      | Some entry => Some (r.1, Ok entry)
      | None => Some (r.1, Err (Internal "needle too large for WAL segment"))
      end
  end.

(** *** Lookup *)

Definition get_versioned (w : Wal) (b k v : string) : option WalEntry := pending w !! (b, k, v).
Definition get (w : Wal) (b k : string) : option WalEntry := get_versioned w b k "".
Definition contains_versioned (w : Wal) (b k v : string) : bool :=
  bool_decide (is_Some (pending w !! (b, k, v))).
Definition wal_contains (w : Wal) (b k : string) : bool := contains_versioned w b k "".
Definition pending_count (w : Wal) : nat := map_size (pending w).

(** The iteration order of the source's [HashMap] is unspecified; here it is
    [map_to_list]'s. *)
Definition versions_for (w : Wal) (b k : string) : list string :=
  omap (fun e : PendingKey * WalEntry =>
          let '((b', k', v), _) := e in
          if bool_decide (b' = b /\ k' = k) then Some v else None)
       (map_to_list (pending w)).

Definition wal_list_keys (w : Wal) (b prefix : string) : list string :=
  fold_left (fun out (e : PendingKey * WalEntry) =>
      let '((b', k, _), _) := e in
      if bool_decide (b' = b) && starts_with prefix k && negb (bool_decide (k ∈ out))
      then out ++ [k] else out)
    (map_to_list (pending w)) [].

Definition find_sealed (w : Wal) (id : N) : option SealedSegment :=
  List.find (fun s => bool_decide (sealed_id s = id)) (sealed w).

Definition read_range (w : Wal) (id : N) (off len : nat) : option bytes :=
  if bool_decide (id = segment_id (active w)) then result_ok (read_at (active w) off len)
  else s ← find_sealed w id; sealed_slice s off len.

Definition read_data (w : Wal) (e : WalEntry) : option bytes :=
  read_range w (we_segment_id e) (N.to_nat (we_data_offset e)) (N.to_nat (we_data_len e)).

Definition read_meta_bytes (w : Wal) (e : WalEntry) : option bytes :=
  read_range w (we_segment_id e) (N.to_nat (we_meta_offset e)) (N.to_nat (we_meta_len e)).

Definition read_meta (w : Wal) (e : WalEntry) : Result ObjectMeta :=
  mb ← ok_or (read_meta_bytes w e) ObjectNotFound;
  decode_meta mb.

(** *** Materialized entries leave the log *)

Fixpoint position {A : Type} (f : A -> bool) (l : list A) : option nat :=
  match l with
  | [] => None
  | x :: l => if f x then Some 0 else S <$> position f l
  end.

Definition try_delete_segment (w : Wal) (id : N) : Wal :=
  if bool_decide (id = segment_id (active w)) then w
  else match position (fun s => bool_decide (sealed_id s = id)) (sealed w) with
  | Some idx =>
      match sealed w !! idx with
      | Some s =>
          {| log_dir := delete (sealed_path s) (log_dir w); active := active w;
             sealed := delete idx (sealed w); pending := pending w;
             segment_pending_counts := segment_pending_counts w;
             next_segment_id := next_segment_id w; segment_capacity := segment_capacity w |}
      | None => w
      end
  | None => w
  end.

Definition set_counts (c : gmap N N) (w : Wal) : Wal :=
  {| log_dir := log_dir w; active := active w; sealed := sealed w; pending := pending w;
     segment_pending_counts := c; next_segment_id := next_segment_id w;
     segment_capacity := segment_capacity w |}.

Definition set_pending (p : gmap PendingKey WalEntry) (w : Wal) : Wal :=
  {| log_dir := log_dir w; active := active w; sealed := sealed w; pending := p;
     segment_pending_counts := segment_pending_counts w;
     next_segment_id := next_segment_id w; segment_capacity := segment_capacity w |}.

Definition mark_materialized_versioned (w : Wal) (b k v : string) : Wal :=
  match pending w !! (b, k, v) with
  | None => w
  | Some entry =>
      let w := set_pending (delete (b, k, v) (pending w)) w in
      match segment_pending_counts w !! we_segment_id entry with
      | None => w
      | Some count =>
          let count := (count - 1)%N in
          if bool_decide (count = 0%N) then
            try_delete_segment
              (set_counts (delete (we_segment_id entry) (segment_pending_counts w)) w)
              (we_segment_id entry)
          else set_counts (<[we_segment_id entry := count]> (segment_pending_counts w)) w
      end
  end.

Definition mark_materialized (w : Wal) (b k : string) : Wal :=
  mark_materialized_versioned w b k "".

Definition drain_recovery_requests (w : Wal) : list MaterializeRequest :=
  map (fun e : PendingKey * WalEntry =>
         let '((b, k, v), entry) := e in mkMaterializeRequest b k v entry)
      (map_to_list (pending w)).

(** *** Startup recovery *)

(** Whether the final [shard.dat] of an entry exists. *)
Definition dest_exists (is_file : Path -> bool) (root : Path) (b k v : string) : bool :=
  if bool_decide (v = "")
  then match object_shard_path root b k with Ok p => is_file p | Err _ => false end
  else match version_shard_path root b k v with Ok p => is_file p | Err _ => false end.

(** The visitor of [recover_segment] on one scanned needle. *)
Definition recover_item (is_file : Path -> bool) (root : Path) (seg : SealedSegment)
    (st : gmap PendingKey WalEntry * gmap N N) (it : ScanItem)
    : gmap PendingKey WalEntry * gmap N N :=
  let '(pend, counts) := st in
  let k := (scan_bucket it, scan_key it, scan_version_id it) in
  if bool_decide (scan_flags it = FLAG_DELETE) then (delete k pend, counts)
  else if dest_exists is_file root (scan_bucket it) (scan_key it) (scan_version_id it)
  then (pend, counts)
  else
    let created :=
      match sealed_slice seg (scan_meta_offset it) (scan_meta_len it)
              ≫= fun mb => result_ok (decode_meta mb) with
      | Some m => as_u32 (created_at m)
      | None => 0%N
      end in
    let e := {| we_segment_id := sealed_id seg;
                we_data_offset := as_u32 (N.of_nat (scan_data_offset it));
                we_data_len := as_u32 (N.of_nat (scan_data_len it));
                we_meta_offset := as_u32 (N.of_nat (scan_meta_offset it));
                we_meta_len := as_u16 (N.of_nat (scan_meta_len it));
                we_created_at := created |} in
    (<[k := e]> pend, incr_count (sealed_id seg) counts).

Definition recover_segment (is_file : Path -> bool) (root : Path) (w : Wal)
    (seg : SealedSegment) : Wal :=
  let r := fold_left (recover_item is_file root seg) (scan seg)
             (pending w, segment_pending_counts w) in
  set_counts r.2 (set_pending r.1 w).

(** [path.extension() == Some("dat")]. *)
Definition has_dat_extension (name : string) : bool :=
  match rev (split_on dot (bytes_of name)) with
  | ext :: stem :: more =>
      bool_decide (ext = bytes_of "dat") && negb (bool_decide (stem = [] /\ more = []))
  | _ => false
  end.

Definition set_next (id : N) (w : Wal) : Wal :=
  {| log_dir := log_dir w; active := active w; sealed := sealed w; pending := pending w;
     segment_pending_counts := segment_pending_counts w; next_segment_id := id;
     segment_capacity := segment_capacity w |}.

(** One file of the startup loop. *)
Definition open_file (is_file : Path -> bool) (root : Path) (w : Wal) (name : string) : Wal :=
  match log_dir w !! name with
  | None => w
  | Some content =>
      match open name content with
      | Err _ => w
      | Ok seg =>
          let seg_id := sealed_id seg in
          let w := if bool_decide (next_segment_id w <= seg_id)%N
                   then set_next (as_u32 (seg_id + 1)) w else w in
          let w := recover_segment is_file root w seg in
          if bool_decide (0 < default 0%N (segment_pending_counts w !! seg_id))%N
          then {| log_dir := log_dir w; active := active w; sealed := sealed w ++ [seg];
                  pending := pending w; segment_pending_counts := segment_pending_counts w;
                  next_segment_id := next_segment_id w;
                  segment_capacity := segment_capacity w |}
          else {| log_dir := delete (sealed_path seg) (log_dir w); active := active w;
                  sealed := sealed w; pending := pending w;
                  segment_pending_counts := segment_pending_counts w;
                  next_segment_id := next_segment_id w;
                  segment_capacity := segment_capacity w |}
      end
  end.

Definition wal_open (dir : gmap string bytes) (cap : nat) (is_file : Path -> bool)
    (root : Path) (now : N) : option Wal :=
  r ← create_in dir 1 cap now;
  let w := {| log_dir := r.2; active := r.1; sealed := []; pending := ∅;
              segment_pending_counts := ∅; next_segment_id := 2; segment_capacity := cap |} in
  let names := merge_sort str_le
                 (List.filter has_dat_extension (map fst (map_to_list (log_dir w)))) in
  let w := fold_left (open_file is_file root) names w in
  let active_id := next_segment_id w in
  r ← create_in (log_dir w) active_id cap now;
  Some {| log_dir := r.2; active := r.1; sealed := sealed w; pending := pending w;
          segment_pending_counts := segment_pending_counts w;
          next_segment_id := as_u32 (active_id + 1);
          segment_capacity := segment_capacity w |}.

End WithHashes.

(** ** The invariant *)

(** The number of pending entries that live in segment [s]. *)
Definition seg_load (p : gmap PendingKey WalEntry) (s : N) : nat :=
  base.size (filter (fun x : PendingKey * WalEntry => we_segment_id x.2 = s) p).

(** An entry's two byte ranges can be read. *)
Definition readable (w : Wal) (e : WalEntry) : Prop :=
  is_Some (read_data w e) /\ is_Some (read_meta_bytes w e).

Record wal_inv (w : Wal) : Prop := {
  inv_active : wf_active (active w);
  inv_capacity : capacity (active w) = segment_capacity w;
  inv_width : (N.of_nat (segment_capacity w) < 2 ^ 32)%N;
  inv_active_id : (segment_id (active w) < next_segment_id w)%N;
  inv_sealed_ids : Forall (fun s => (sealed_id s < next_segment_id w)%N /\
                                    sealed_id s <> segment_id (active w)) (sealed w);
  inv_sealed_nodup : NoDup (map sealed_id (sealed w));
  inv_readable : map_Forall (fun _ e => readable w e) (pending w);
  inv_counts : forall s, (N.of_nat (seg_load (pending w) s)
                          <= default 0 (segment_pending_counts w !! s))%N;
  inv_count_ids : map_Forall (fun s _ => (s < next_segment_id w)%N) (segment_pending_counts w);
  inv_count_bound :
    (default 0 (segment_pending_counts w !! segment_id (active w)) * 24
       + 32 <= N.of_nat (write_offset (active w)))%N;
}.

(** What the log promises: a map from keys to the bytes last written under them. *)
Definition represents (w : Wal) (m : gmap PendingKey (bytes * bytes)) : Prop :=
  forall k, match m !! k with
  | Some (d, mb) => exists e, pending w !! k = Some e /\ read_data w e = Some d /\
                              read_meta_bytes w e = Some mb
  | None => pending w !! k = None
  end.

(** *** Counting *)

Lemma seg_load_insert_le p k e s :
  seg_load (<[k := e]> p) s <= seg_load p s + (if decide (we_segment_id e = s) then 1 else 0).
Proof.
  unfold seg_load. rewrite map_filter_insert. cbn [snd]. case_decide.
  - rewrite map_size_insert. destruct (_ !! k); simpl; lia.
  - rewrite map_filter_delete. rewrite map_size_delete. destruct (_ !! k); simpl; lia.
Qed.

Lemma seg_load_delete p k e s :
  p !! k = Some e ->
  seg_load (delete k p) s + (if decide (we_segment_id e = s) then 1 else 0) = seg_load p s.
Proof.
  intros Hk. unfold seg_load. rewrite map_filter_delete, map_size_delete.
  destruct (filter _ p !! k) as [e'|] eqn:E.
  - apply map_lookup_filter_Some in E as [Hk' Hs]. cbn in Hs. simplify_eq.
    rewrite decide_True by done.
    match goal with |- Nat.pred ?n + 1 = _ => assert (n <> 0) end.
    { rewrite map_size_ne_0_lookup. exists k. by rewrite map_lookup_filter_Some_2 with (x := e). }
    lia.
  - rewrite decide_False; [simpl; lia|]. intros Hs.
    by rewrite (map_lookup_filter_Some_2 _ p k e Hk Hs) in E.
Qed.

Lemma seg_load_0 p s k e : seg_load p s = 0 -> p !! k = Some e -> we_segment_id e <> s.
Proof.
  unfold seg_load. rewrite map_size_empty_iff. intros Hz Hk Hs.
  pose proof (map_filter_empty_not_lookup _ _ k e Hz Hs). done.
Qed.

(** *** Framing of reads *)

Lemma find_sealed_app l l' id :
  List.find (fun s => bool_decide (sealed_id s = id)) (l ++ l') =
  match List.find (fun s => bool_decide (sealed_id s = id)) l with
  | Some s => Some s
  | None => List.find (fun s => bool_decide (sealed_id s = id)) l'
  end.
Proof. induction l as [|s l IH]; simpl; [done|]. by case_bool_decide. Qed.

Lemma find_sealed_delete l idx s id :
  l !! idx = Some s -> sealed_id s <> id ->
  List.find (fun s => bool_decide (sealed_id s = id)) (delete idx l)
  = List.find (fun s => bool_decide (sealed_id s = id)) l.
Proof.
  revert idx. induction l as [|x l IH]; intros [|idx] Hl Hne; simplify_eq/=.
  - by rewrite bool_decide_eq_false_2.
  - case_bool_decide; [done|]. by apply IH.
Qed.

Lemma find_sealed_fresh l id :
  Forall (fun s => sealed_id s <> id) l ->
  List.find (fun s => bool_decide (sealed_id s = id)) l = None.
Proof. induction 1; simpl; [done|]. by rewrite bool_decide_eq_false_2. Qed.

Lemma sealed_slice_seal a off len b :
  wf_active a -> read_at a off len = Ok b -> sealed_slice (seal a) off len = Some b.
Proof.
  intros [Hm Hwo]. unfold read_at, sealed_slice. cbn [seal sealed_mmap].
  case_decide; [done|]. intros [= <-]. by rewrite decide_True by lia.
Qed.

Lemma position_Some {A} (f : A -> bool) l i :
  position f l = Some i -> exists x, l !! i = Some x /\ f x = true.
Proof.
  revert i. induction l as [|x l IH]; intros i; [done|]. cbn [position].
  destruct (f x) eqn:E; [intros [= <-]; eauto|].
  destruct (position f l); intros Hi; simplify_eq/=. eauto.
Qed.

Lemma position_None {A} (f : A -> bool) l :
  position f l = None -> Forall (fun x => f x = false) l.
Proof.
  induction l as [|x l IH]; [constructor|]. cbn [position]. destruct (f x) eqn:E; [done|].
  destruct (position f l); [done|]. intros _. constructor; auto.
Qed.

(** Only the active segment and the sealed list determine what a read returns. *)
Lemma read_range_ext w w' id off len :
  active w' = active w -> sealed w' = sealed w ->
  read_range w' id off len = read_range w id off len.
Proof. intros Ha Hs. unfold read_range, find_sealed. by rewrite Ha, Hs. Qed.

Lemma represents_readable w m : represents w m -> map_Forall (fun _ e => readable w e) (pending w).
Proof.
  intros Hr k e Hk. specialize (Hr k). destruct (m !! k) as [[d mb]|].
  - destruct Hr as (e' & Hk' & Hd & Hm). simplify_eq. split; eauto.
  - congruence.
Qed.

(** A change of the log's files that leaves the pending map alone and every
    successful read of a pending entry unchanged. *)
Lemma represents_frame w w' m :
  pending w' = pending w ->
  (forall k e, pending w !! k = Some e -> forall off len b,
     read_range w (we_segment_id e) off len = Some b ->
     read_range w' (we_segment_id e) off len = Some b) ->
  represents w m -> represents w' m.
Proof.
  intros Hp Hf Hr k. specialize (Hr k). rewrite Hp. destruct (m !! k) as [[d mb]|]; [|done].
  destruct Hr as (e & Hk & Hd & Hm). exists e. split; [done|]. split; eapply Hf; eauto.
Qed.

Lemma represents_exists w :
  map_Forall (fun _ e => readable w e) (pending w) -> exists m, represents w m.
Proof.
  intros Hr. exists (omap (fun e => d ← read_data w e; mb ← read_meta_bytes w e; Some (d, mb))
                       (pending w)).
  intros k. rewrite lookup_omap. destruct (pending w !! k) as [e|] eqn:E; [|done].
  destruct (Hr _ _ E) as [[d Hd] [mb Hm]]. cbn [mbind option_bind]. rewrite Hd.
  cbn [mbind option_bind]. rewrite Hm. cbn [mbind option_bind]. eauto.
Qed.

(** *** Rotation *)

Lemma create_in_spec dir id cap now :
  SUPERBLOCK_SIZE <= cap ->
  exists a dir', create_in dir id cap now = Some (a, dir') /\ wf_active a /\
    segment_id a = id /\ capacity a = cap /\ write_offset a = SUPERBLOCK_SIZE.
Proof.
  intros Hcap. unfold create_in.
  destruct (create_total (default [] (dir !! segment_filename id)) id cap now Hcap) as [a Ha].
  rewrite Ha. cbn [mbind option_bind]. eexists _, _. split; [done|]. by eapply create_wf.
Qed.

Lemma wal_inv_capacity w : wal_inv w -> SUPERBLOCK_SIZE <= segment_capacity w.
Proof. intros Hi. destruct (inv_active w Hi). rewrite <- (inv_capacity w Hi). lia. Qed.

(** Sealing the active segment keeps everything readable where it was. *)
Lemma rotate_reads w a :
  wal_inv w -> segment_id a = next_segment_id w ->
  forall id off len b w', active w' = a -> sealed w' = sealed w ++ [seal (active w)] ->
  read_range w id off len = Some b -> read_range w' id off len = Some b.
Proof.
  intros Hi Hid id off len b w' Ha Hs. unfold read_range, find_sealed. rewrite Ha, Hs, Hid.
  pose proof (inv_active_id w Hi) as Hlt.
  case_bool_decide as E1.
  - intros Hr. rewrite bool_decide_eq_false_2 by lia. rewrite find_sealed_app, find_sealed_fresh.
    + cbn [List.find seal sealed_id]. rewrite bool_decide_eq_true_2 by done.
      cbn [mbind option_bind]. apply sealed_slice_seal; [by apply inv_active|].
      destruct (read_at _ _ _); simplify_eq/=. done.
    + eapply Forall_impl; [exact (inv_sealed_ids w Hi)|]. intros s [_ ?]. congruence.
  - intros Hr. destruct (List.find _ (sealed w)) as [s|] eqn:F; [|done].
    pose proof (List.find_some _ _ F) as [Hin Hsid]. apply bool_decide_eq_true in Hsid.
    pose proof (inv_sealed_ids w Hi) as Hall. rewrite List.Forall_forall in Hall.
    destruct (Hall _ Hin) as [? _]. rewrite bool_decide_eq_false_2 by lia.
    by rewrite find_sealed_app, F.
Qed.

Lemma rotate_active_ok w m now :
  wal_inv w -> represents w m -> (next_segment_id w + 1 < 2 ^ 32)%N ->
  exists w', rotate_active w now = Some w' /\ wal_inv w' /\ represents w' m /\
    segment_capacity w' = segment_capacity w /\ write_offset (active w') = SUPERBLOCK_SIZE /\
    next_segment_id w' = (next_segment_id w + 1)%N /\ pending w' = pending w.
Proof.
  intros Hi Hm Hn. pose proof (wal_inv_capacity _ Hi) as Hcap. unfold rotate_active.
  destruct (create_in_spec (log_dir w) 0 (segment_capacity w) now Hcap) as (a0 & d0 & -> & _).
  cbn [mbind option_bind fst snd].
  destruct (create_in_spec d0 (next_segment_id w) (segment_capacity w) now Hcap)
    as (a & d & -> & Hwf & Hid & Hc & Hwo).
  cbn [mbind option_bind fst snd].
  replace (as_u32 (next_segment_id w + 1)) with (next_segment_id w + 1)%N
    by (symmetry; apply wrap_small; lia).
  eexists. split; [done|]. match goal with |- wal_inv ?x /\ _ => set (w' := x) end.
  assert (Hm' : represents w' m).
  { apply (represents_frame w); [done| |exact Hm]. intros k e _ off len b.
    by apply (rotate_reads w a Hi Hid). }
  split_and!; [|done..]. destruct Hi. constructor; cbn; try done; try lia.
  - rewrite Forall_app. split.
    + eapply Forall_impl; [done|]. intros s []. rewrite Hid. lia.
    + repeat constructor; cbn [seal sealed_id]; lia.
  - rewrite map_app. apply NoDup_app. split_and!; [done| |apply NoDup_singleton].
    intros x Hx ->%list_elem_of_singleton. apply list_elem_of_In, in_map_iff in Hx as (s & Hs & Hin).
    rewrite List.Forall_forall in inv_sealed_ids0. by destruct (inv_sealed_ids0 _ Hin).
  - exact (represents_readable _ _ Hm').
  - eapply map_Forall_impl; [done|]. cbn. intros. lia.
  - rewrite Hid, Hwo. destruct (segment_pending_counts w !! next_segment_id w) eqn:E.
    + apply inv_count_ids0 in E. lia.
    + done.
Qed.

(** *** Append *)

Section AppendLemmas.
  Context `{Hashes}.

Lemma append_Some_size s n s' loc :
  wf_active s -> append s n = Some (s', Some loc) ->
  write_offset s' = write_offset s + serialized_size n.
Proof.
  intros Hwf Ha.
  destruct (decide (capacity s < write_offset s + serialized_size n)) as [Hlt|Hge].
  { rewrite append_full in Ha by done. done. }
  destruct (append_fits s n Hwf ltac:(lia)) as (loc' & Ha' & _). rewrite Ha' in Ha.
  by simplify_eq.
Qed.

(** Appending to the active segment leaves earlier reads alone. *)
Lemma append_reads w n a r :
  wal_inv w -> append (active w) n = Some (a, r) ->
  forall w' id off len b, active w' = a -> sealed w' = sealed w ->
  read_range w id off len = Some b -> read_range w' id off len = Some b.
Proof.
  intros Hi Ha w' id off len b Hact Hs.
  destruct (append_wf _ _ _ _ (inv_active w Hi) Ha) as (_ & Hid & _ & Hmono).
  unfold read_range, find_sealed. rewrite Hact, Hs, Hid. case_bool_decide; [|done].
  unfold read_at. case_decide as Hd; [done|]. rewrite decide_False by lia.
  cbn [result_ok]. intros [= <-]. f_equal.
  apply (append_frame (active w) n a r); [by apply inv_active|done|lia].
Qed.

Lemma incr_count_bound w :
  wal_inv w ->
  as_u32 (default 0%N (segment_pending_counts w !! segment_id (active w)) + 1)%N
  = (default 0 (segment_pending_counts w !! segment_id (active w)) + 1)%N.
Proof.
  intros Hi. apply wrap_small. pose proof (inv_count_bound w Hi).
  destruct (inv_active w Hi) as [_ Hwo]. pose proof (inv_width w Hi).
  pose proof (inv_capacity w Hi). lia.
Qed.

Definition needle_key (n : Needle) : PendingKey := (n_bucket n, n_key n, n_version_id n).

(** What a successful attempt changes. *)
Lemma try_append_Some w n w' e :
  try_append w n = Some (w', Some e) ->
  exists a loc, append (active w) n = Some (a, Some loc) /\
    e = loc_to_entry (segment_id a) loc /\ active w' = a /\ sealed w' = sealed w /\
    pending w' = <[needle_key n := e]> (pending w) /\
    segment_pending_counts w' = incr_count (segment_id a) (segment_pending_counts w) /\
    next_segment_id w' = next_segment_id w /\ segment_capacity w' = segment_capacity w.
Proof.
  unfold try_append. intros Ht. apply bind_Some in Ht as ([a [loc|]] & Ha & Ht); [|done].
  cbn [fst snd] in Ht. simplify_eq. exists a, loc. done.
Qed.

Lemma inv_cap32 w : wal_inv w -> (N.of_nat (capacity (active w)) < 2 ^ 32)%N.
Proof. intros Hi. rewrite (inv_capacity w Hi). apply (inv_width w Hi). Qed.

Lemma try_append_represents w m n w' e :
  wal_inv w -> represents w m -> wf_needle n -> try_append w n = Some (w', Some e) ->
  represents w' (<[needle_key n := (n_data n, n_meta_bytes n)]> m).
Proof.
  intros Hi Hm Hn Ht. pose proof (inv_active w Hi) as Hwf.
  destruct (try_append_Some _ _ _ _ Ht) as (a & loc & Ha & He & Hact & Hsl & Hp & _).
  destruct (append_location _ _ _ _ Hwf (inv_cap32 _ Hi) Hn Ha) as (Hmb & Hdb & Em & Ed).
  assert (Hread : forall off len, off + len <= write_offset a ->
    read_range w' (segment_id a) off len = Some (sub_list off len (mmap a))).
  { intros off len Hle. unfold read_range. rewrite Hact, bool_decide_eq_true_2 by done.
    by rewrite read_at_below. }
  intros k. rewrite Hp. destruct (decide (k = needle_key n)) as [->|Hne].
  - rewrite !lookup_insert_eq. exists e. split; [done|]. rewrite He.
    unfold read_data, read_meta_bytes. cbn [loc_to_entry we_segment_id we_data_offset
      we_data_len we_meta_offset we_meta_len]. rewrite !Hread by done. by rewrite Em, Ed.
  - rewrite !lookup_insert_ne by done. specialize (Hm k).
    destruct (m !! k) as [[d mb]|]; [|done]. destruct Hm as (e' & ? & ? & ?).
    exists e'. split; [done|]. split; eapply (append_reads w n a _ Hi Ha w'); eauto.
Qed.

Lemma try_append_inv w m n w' e :
  wal_inv w -> represents w m -> wf_needle n -> try_append w n = Some (w', Some e) -> wal_inv w'.
Proof.
  intros Hi Hm Hn Ht.
  pose proof (represents_readable _ _ (try_append_represents _ _ _ _ _ Hi Hm Hn Ht)) as Hrd.
  destruct (try_append_Some _ _ _ _ Ht) as (a & loc & Ha & He & Hact & Hsl & Hp & Hcn & Hnx & Hcp).
  destruct (append_wf _ _ _ _ (inv_active w Hi) Ha) as (Hwf' & Hid & Hc & _).
  pose proof (append_Some_size _ _ _ _ (inv_active w Hi) Ha) as Hwo.
  pose proof (serialized_size_ge n) as H24. pose proof (incr_count_bound _ Hi) as Hincr.
  destruct Hi. constructor; rewrite ?Hact, ?Hsl, ?Hnx, ?Hcp, ?Hid, ?Hc; try done;
    rewrite ?Hp, ?Hcn, ?Hid; unfold incr_count.
  - intros s. pose proof (seg_load_insert_le (pending w) (needle_key n) e s) as Hle.
    specialize (inv_counts0 s). set (p' := <[_ := e]> _) in Hle |- *. clearbody p'.
    subst e. cbn [loc_to_entry we_segment_id] in Hle.
    rewrite Hid in Hle. case_decide as Hs.
    + subst s. rewrite lookup_insert_eq. cbn [default from_option id]. rewrite Hincr. lia.
    + rewrite lookup_insert_ne by done. lia.
  - by apply map_Forall_insert_2.
  - rewrite lookup_insert_eq. cbn [default from_option id]. rewrite Hincr.
    unfold HEADER_SIZE in H24. lia.
Qed.

(** An attempt on a log in a good state fails only for want of room. *)
Lemma try_append_total w n :
  wal_inv w ->
  if decide (capacity (active w) < write_offset (active w) + serialized_size n)
  then try_append w n = Some (w, None)
  else exists w' e, try_append w n = Some (w', Some e).
Proof.
  intros Hi. unfold try_append. case_decide as Hd.
  - rewrite append_full by done. done.
  - destruct (append_fits (active w) n (inv_active w Hi) ltac:(lia)) as (loc & Ha & _).
    rewrite Ha. cbn [mbind option_bind fst snd]. eauto.
Qed.

(** The whole append: at most one rotation, then success unless the needle is
    larger than an empty segment. *)
Lemma wal_append_ok w m n now :
  wal_inv w -> represents w m -> wf_needle n -> (next_segment_id w + 1 < 2 ^ 32)%N ->
  exists w' r, wal_append w n now = Some (w', r) /\ wal_inv w' /\
    segment_capacity w' = segment_capacity w /\
    (next_segment_id w' <= next_segment_id w + 1)%N /\
    if decide (SUPERBLOCK_SIZE + serialized_size n <= segment_capacity w)
    then (exists e, r = Ok e /\ pending w' = <[needle_key n := e]> (pending w)) /\
         represents w' (<[needle_key n := (n_data n, n_meta_bytes n)]> m)
    else r = Err (Internal "needle too large for WAL segment") /\ pending w' = pending w /\
         represents w' m.
Proof.
  intros Hi Hm Hn Hnx. unfold wal_append.
  assert (Hok : forall w0 w1 e, wal_inv w0 -> represents w0 m -> try_append w0 n = Some (w1, Some e) ->
    segment_capacity w0 = segment_capacity w -> pending w0 = pending w -> (next_segment_id w0 <= next_segment_id w + 1)%N ->
    SUPERBLOCK_SIZE + serialized_size n <= segment_capacity w ->
    wal_inv w1 /\ segment_capacity w1 = segment_capacity w /\
    (next_segment_id w1 <= next_segment_id w + 1)%N /\
    if decide (SUPERBLOCK_SIZE + serialized_size n <= segment_capacity w)
    then (exists e', @Ok StorageError _ e = Ok e' /\
            pending w1 = <[needle_key n := e']> (pending w)) /\
         represents w1 (<[needle_key n := (n_data n, n_meta_bytes n)]> m)
    else @Ok StorageError _ e = Err (Internal "needle too large for WAL segment") /\
         pending w1 = pending w /\ represents w1 m).
  { intros w0 w1 e Hi0 Hm0 Ht Hc0 Hp0 Hn0 Hfit. rewrite decide_True by done.
    destruct (try_append_Some _ _ _ _ Ht) as (a & loc & _ & _ & _ & _ & Hp & _ & Hnx1 & Hcp).
    split_and!; [eapply try_append_inv; eauto|congruence|lia| |eapply try_append_represents; eauto].
    exists e. split; [done|]. by rewrite Hp, Hp0. }
  pose proof (inv_capacity w Hi) as Hcap. pose proof (inv_active w Hi) as [_ Hwo].
  pose proof (try_append_total w n Hi) as Ht. case_decide as Hd.
  - rewrite Ht. cbn [mbind option_bind fst snd].
    destruct (rotate_active_ok w m now Hi Hm Hnx) as (w1 & -> & Hi1 & Hm1 & Hc1 & Hwo1 & Hnx1 & Hp1).
    cbn [mbind option_bind fst snd]. pose proof (try_append_total w1 n Hi1) as Ht1.
    rewrite (inv_capacity w1 Hi1), Hc1, Hwo1 in Ht1. case_decide as Hd1.
    + rewrite Ht1. cbn [mbind option_bind fst snd]. eexists _, _. split; [done|].
      rewrite decide_False by lia. split_and!; done || lia.
    + destruct Ht1 as (w2 & e & Ht1). rewrite Ht1. cbn [mbind option_bind fst snd].
      eexists _, _. split; [done|]. apply (Hok w1 w2 e Hi1 Hm1 Ht1 Hc1 Hp1); lia.
  - destruct Ht as (w2 & e & Ht). rewrite Ht. cbn [mbind option_bind fst snd].
    eexists _, _. split; [done|]. apply (Hok w w2 e Hi Hm Ht); done || lia.
Qed.

End AppendLemmas.

(** *** Materialized entries *)

Lemma set_pending_delete_ok w m k :
  wal_inv w -> represents w m ->
  wal_inv (set_pending (delete k (pending w)) w) /\
  represents (set_pending (delete k (pending w)) w) (delete k m).
Proof.
  intros Hi Hm.
  assert (Hm' : represents (set_pending (delete k (pending w)) w) (delete k m)).
  { intros k'. cbn [set_pending pending]. destruct (decide (k' = k)) as [->|Hne].
    - by rewrite !lookup_delete_eq.
    - rewrite !lookup_delete_ne by done. specialize (Hm k'). by destruct (m !! k') as [[]|]. }
  split; [|done]. pose proof (represents_readable _ _ Hm') as Hrd.
  destruct Hi. constructor; try done. intros s. cbn [set_pending pending segment_pending_counts].
  specialize (inv_counts0 s). destruct (pending w !! k) as [e|] eqn:E.
  - pose proof (seg_load_delete _ _ _ s E). lia.
  - by rewrite delete_id.
Qed.

Lemma set_counts_ok w m c :
  wal_inv w -> represents w m ->
  (forall s, (N.of_nat (seg_load (pending w) s) <= default 0 (c !! s))%N) ->
  (forall s n, c !! s = Some n ->
     exists n0, segment_pending_counts w !! s = Some n0 /\ (n <= n0)%N) ->
  wal_inv (set_counts c w) /\ represents (set_counts c w) m.
Proof.
  intros Hi Hm Hc Hle. split; [|exact Hm]. destruct Hi.
  constructor; try done; cbn [set_counts active segment_pending_counts next_segment_id].
  - intros s n Hs. destruct (Hle _ _ Hs) as (n0 & Hs0 & _). by apply inv_count_ids0 in Hs0.
  - destruct (c !! segment_id (active w)) as [n|] eqn:E; cbn [default from_option id].
    + destruct (Hle _ _ E) as (n0 & Hs0 & ?). rewrite Hs0 in inv_count_bound0.
      cbn [default from_option id] in inv_count_bound0. lia.
    + lia.
Qed.

Lemma NoDup_delete {A} (l : list A) i : NoDup l -> NoDup (delete i l).
Proof. intros Hnd. eapply sublist_NoDup; [exact Hnd|]. apply sublist_delete. Qed.

(** Deleting a segment that no pending entry lives in loses nothing. *)
Lemma try_delete_segment_ok w m s :
  wal_inv w -> represents w m -> seg_load (pending w) s = 0 ->
  wal_inv (try_delete_segment w s) /\ represents (try_delete_segment w s) m.
Proof.
  intros Hi Hm Hz. unfold try_delete_segment. case_bool_decide as Hact; [done|].
  destruct (position _ _) as [idx|] eqn:Hpos; [|done].
  destruct (position_Some _ _ _ Hpos) as (sg & Hidx & Hsg%bool_decide_eq_true). rewrite Hidx.
  match goal with |- wal_inv ?x /\ _ => set (w' := x) end.
  assert (Hm' : represents w' m).
  { apply (represents_frame w); [done| |done]. intros k e Hk off len b.
    pose proof (seg_load_0 _ _ _ _ Hz Hk) as Hne. unfold read_range. cbn [w' active].
    case_bool_decide; [done|]. unfold find_sealed. cbn [w' sealed].
    by rewrite (find_sealed_delete _ _ _ _ Hidx) by congruence. }
  split; [|done]. pose proof (represents_readable _ _ Hm') as Hrd.
  destruct Hi. constructor; try done; cbn [w' sealed next_segment_id active].
  - by apply Forall_delete.
  - change (map sealed_id) with (fmap (M:=list) sealed_id). rewrite list_fmap_delete.
    by apply NoDup_delete.
Qed.

(** Taking one from the counter of segment [s]. *)
Definition decr_count (s : N) (c : N) (counts : gmap N N) : gmap N N :=
  if bool_decide ((c - 1)%N = 0%N) then delete s counts else <[s := (c - 1)%N]> counts.

Lemma decr_count_ok w m s c :
  wal_inv w -> represents w m -> segment_pending_counts w !! s = Some c ->
  (N.of_nat (seg_load (pending w) s + 1) <= c)%N ->
  wal_inv (set_counts (decr_count s c (segment_pending_counts w)) w) /\
  represents (set_counts (decr_count s c (segment_pending_counts w)) w) m.
Proof.
  intros Hi Hm Hs Hc. pose proof (inv_counts w Hi) as Hall. unfold decr_count.
  apply set_counts_ok; [done..| |]; intros s'; specialize (Hall s'); case_bool_decide;
    destruct (decide (s' = s)) as [->|];
    rewrite ?lookup_delete_eq, ?lookup_delete_ne, ?lookup_insert_eq, ?lookup_insert_ne by done;
    cbn [default from_option id]; try lia;
    intros; simplify_eq; eauto with lia.
Qed.

Lemma mark_materialized_ok w m b k v :
  wal_inv w -> represents w m ->
  wal_inv (mark_materialized_versioned w b k v) /\
  represents (mark_materialized_versioned w b k v) (delete (b, k, v) m).
Proof.
  intros Hi Hm. unfold mark_materialized_versioned.
  destruct (pending w !! (b, k, v)) as [e|] eqn:E.
  - destruct (set_pending_delete_ok w m (b, k, v) Hi Hm) as [Hi1 Hm1].
    pose proof (inv_counts w Hi (we_segment_id e)) as Hc.
    pose proof (seg_load_delete _ _ _ (we_segment_id e) E) as Hld.
    rewrite decide_True in Hld by done. cbn [set_pending segment_pending_counts].
    destruct (segment_pending_counts w !! we_segment_id e) as [c|] eqn:Ec; [|done].
    cbn [default from_option id] in Hc.
    destruct (decr_count_ok _ _ (we_segment_id e) c Hi1 Hm1 Ec) as [Hi2 Hm2];
      [cbn [set_pending pending]; lia|].
    unfold decr_count in Hi2, Hm2. cbn [set_pending segment_pending_counts] in Hi2, Hm2.
    case_bool_decide; [|done]. apply try_delete_segment_ok; [done..|].
    cbn [set_counts set_pending pending]. lia.
  - rewrite delete_id; [done|]. specialize (Hm (b, k, v)).
    destruct (m !! (b, k, v)) as [[d mb]|]; [|done]. destruct Hm as (? & ? & _). congruence.
Qed.

Lemma mark_materialized_next w b k v :
  pending (mark_materialized_versioned w b k v) = delete (b, k, v) (pending w) /\
  next_segment_id (mark_materialized_versioned w b k v) = next_segment_id w /\
  segment_capacity (mark_materialized_versioned w b k v) = segment_capacity w.
Proof.
  unfold mark_materialized_versioned, try_delete_segment.
  repeat (case_match || case_bool_decide); try done.
  split; [|done]. by rewrite delete_id.
Qed.

(** *** Sequences of operations, concretely and abstractly *)

Inductive WalOp : Type :=
  | OpAppend (n : Needle) (now : N)
  | OpMark (bucket key version_id : string).

Definition run_op `{Hashes} (w : Wal) (op : WalOp) : option Wal :=
  match op with
  | OpAppend n now => r ← wal_append w n now; Some r.1
  | OpMark b k v => Some (mark_materialized_versioned w b k v)
  end.

Fixpoint run_ops `{Hashes} (w : Wal) (ops : list WalOp) : option Wal :=
  match ops with
  | [] => Some w
  | op :: ops => w ← run_op w op; run_ops w ops
  end.

Definition op_wf (op : WalOp) : Prop :=
  match op with OpAppend n _ => wf_needle n | OpMark _ _ _ => True end.

(** The specification: a finite map, and a bound on the size of an object. *)
Definition spec_op (cap : nat) (m : gmap PendingKey (bytes * bytes)) (op : WalOp)
    : gmap PendingKey (bytes * bytes) :=
  match op with
  | OpAppend n _ =>
      if decide (SUPERBLOCK_SIZE + serialized_size n <= cap)
      then <[needle_key n := (n_data n, n_meta_bytes n)]> m else m
  | OpMark b k v => delete (b, k, v) m
  end.

Lemma run_op_ok `{Hashes} w m op :
  wal_inv w -> represents w m -> op_wf op -> (next_segment_id w + 1 < 2 ^ 32)%N ->
  exists w', run_op w op = Some w' /\ wal_inv w' /\
    represents w' (spec_op (segment_capacity w) m op) /\
    segment_capacity w' = segment_capacity w /\
    (next_segment_id w' <= next_segment_id w + 1)%N.
Proof.
  intros Hi Hm Hop Hn. destruct op as [n now|b k v]; cbn [run_op spec_op op_wf] in *.
  - destruct (wal_append_ok w m n now Hi Hm Hop Hn) as (w' & r & -> & Hi' & Hc & Hn' & Hr).
    cbn [mbind option_bind fst]. exists w'. split_and!; try done. case_decide; tauto.
  - eexists. split; [done|]. destruct (mark_materialized_ok w m b k v Hi Hm).
    destruct (mark_materialized_next w b k v) as (_ & -> & ->). split_and!; done || lia.
Qed.

(** The log that [Wal::open] builds in an empty directory. *)
Lemma wal_open_fresh `{Hashes} `{!HashesOk} `{MetaCodec} `{UuidParser} cap is_file root now :
  SUPERBLOCK_SIZE <= cap -> (N.of_nat cap < 2 ^ 32)%N ->
  exists w, wal_open ∅ cap is_file root now = Some w /\ wal_inv w /\ represents w ∅ /\
    segment_capacity w = cap /\ next_segment_id w = 3%N.
Proof.
  intros Hcap Hw. unfold wal_open.
  destruct (create_total [] 1 cap now Hcap) as [a Ha].
  assert (Hc : create_in ∅ 1 cap now = Some (a, {[segment_filename 1 := mmap a]})).
  { unfold create_in. rewrite lookup_empty. cbn [default from_option]. rewrite Ha.
    cbn [mbind option_bind]. do 2 f_equal.
    unfold create in Ha. apply bind_Some in Ha as (? & _ & Ha). by simplify_eq. }
  rewrite Hc. cbn [mbind option_bind fst snd log_dir]. rewrite map_to_list_singleton.
  change (merge_sort str_le (List.filter has_dat_extension (map fst [(segment_filename 1, mmap a)])))
    with [segment_filename 1]. cbn [fold_left].
  destruct (holds_scan a [] (holds_create 1 cap now a ltac:(lia) Ha) ltac:(constructor))
    as (sg & Ho & Hid & _ & Hscan & _).
  assert (Hpath : path a = segment_filename 1 /\ segment_id a = 1%N).
  { unfold create in Ha. apply bind_Some in Ha as (? & _ & Ha). by simplify_eq. }
  destruct Hpath as [Hp Hs]. rewrite Hp in Ho. rewrite Hs in Hid.
  unfold open_file. cbn [log_dir]. rewrite lookup_singleton_eq, Ho, Hid.
  cbn [next_segment_id]. rewrite !(bool_decide_eq_false_2 (2 <= 1)%N) by lia.
  unfold recover_segment. rewrite Hscan. cbn [items_from fold_left fst snd
    set_counts set_pending segment_pending_counts pending next_segment_id active sealed log_dir].
  rewrite lookup_empty. cbn [default from_option].
  rewrite bool_decide_eq_false_2 by lia. cbn [next_segment_id log_dir sealed pending
    segment_pending_counts segment_capacity].
  destruct (create_in_spec (delete (sealed_path sg) {[segment_filename 1 := mmap a]}) 2 cap now Hcap)
    as (a2 & d2 & -> & Hwf & Hid2 & Hc2 & Hwo2).
  cbn [mbind option_bind fst snd]. eexists. split; [done|].
  split_and!; [|by intros k; rewrite !lookup_empty|done|done].
  constructor; cbn; rewrite ?Hid2, ?Hwo2; try done.
  constructor.
Qed.

(** ** Properties *)

(** C6: The log refines a finite map.  Started from a state that satisfies the
    invariant and holds the objects of [m], any sequence of appends and
    materialize marks runs without a panic, keeps the invariant, and leaves
    exactly the objects the map operations leave, each with the data and
    metadata bytes last appended under its key.  So rotation, sealing and the
    deletion of drained segments never lose an object that is not materialized. *)
Theorem wal_refines_map `{Hashes} w m ops :
  wal_inv w -> represents w m -> Forall op_wf ops ->
  (next_segment_id w + N.of_nat (length ops) < 2 ^ 32)%N ->
  exists w', run_ops w ops = Some w' /\ wal_inv w' /\
    represents w' (fold_left (spec_op (segment_capacity w)) ops m).
Proof.
  intros Hi Hm Hops. revert w m Hi Hm. induction Hops as [|op ops Hop _ IH]; intros w m Hi Hm Hn.
  - exists w. done.
  - cbn [length] in Hn. destruct (run_op_ok w m op Hi Hm Hop ltac:(lia))
      as (w1 & Hrun & Hi1 & Hm1 & Hc1 & Hn1).
    cbn [run_ops fold_left]. rewrite Hrun. cbn [mbind option_bind]. rewrite <- Hc1 in *.
    apply IH; [done..|lia].
Qed.

(** [Wal::append] succeeds exactly when the needle fits an empty segment,
    rotating at most once.  On success the entry it returns is the pending entry
    of the key and reads back the needle's data and metadata; every other pending
    object is untouched.  On failure no object changes. *)
Theorem wal_append_correct `{Hashes} w m n now :
  wal_inv w -> represents w m -> wf_needle n -> (next_segment_id w + 1 < 2 ^ 32)%N ->
  exists w' r, wal_append w n now = Some (w', r) /\ wal_inv w' /\
    if decide (SUPERBLOCK_SIZE + serialized_size n <= segment_capacity w)
    then exists e, r = Ok e /\
           get_versioned w' (n_bucket n) (n_key n) (n_version_id n) = Some e /\
           read_data w' e = Some (n_data n) /\ read_meta_bytes w' e = Some (n_meta_bytes n) /\
           represents w' (<[needle_key n := (n_data n, n_meta_bytes n)]> m)
    else r = Err (Internal "needle too large for WAL segment") /\ represents w' m.
Proof.
  intros Hi Hm Hn Hnx.
  destruct (wal_append_ok w m n now Hi Hm Hn Hnx) as (w' & r & Hr & Hi' & _ & _ & Hcase).
  exists w', r. split_and!; [done..|]. case_decide; [|tauto].
  destruct Hcase as [(e & -> & Hp) Hm']. exists e.
  pose proof (Hm' (needle_key n)) as Hk. rewrite lookup_insert_eq in Hk.
  destruct Hk as (e' & He' & Hd & Hmb). unfold get_versioned.
  fold (needle_key n). rewrite Hp, lookup_insert_eq in He'. simplify_eq.
  rewrite Hp, lookup_insert_eq. split_and!; done.
Qed.

(** *** Concrete logs *)

Definition ex_root : Path := components "/data".

Definition ex_codec : MetaCodec := {| rmp_to_vec := fun _ => None; rmp_from_slice := fun _ => None |}.
Definition ex_uuid : UuidParser := fun _ => true.

(** A log of 150-byte segments: two of the example needles do not fit in one. *)
Definition ex_wal : Wal :=
  default (mkWal ∅ ex_seg0 [] ∅ ∅ 0 0)
    (@wal_open example_hashes ex_codec ex_uuid ∅ 150 (fun _ => false) ex_root 1700000000).

Lemma ex_wal_ok :
  wal_inv ex_wal /\ represents ex_wal ∅ /\ segment_capacity ex_wal = 150 /\
  next_segment_id ex_wal = 3%N.
Proof.
  destruct (@wal_open_fresh example_hashes example_hashes_ok ex_codec ex_uuid 150 (fun _ => false)
    ex_root 1700000000 ltac:(unfold SUPERBLOCK_SIZE; lia) ltac:(lia)) as (w & Hw & Hrest).
  unfold ex_wal. rewrite Hw. exact Hrest.
Qed.

Definition ex_needle2 : Needle :=
  {| n_flags := FLAG_NORMAL; n_bucket := "photos"; n_key := "dog"; n_version_id := EmptyString;
     n_meta_bytes := bytes_of "m"; n_data := bytes_of "0123456789" |}.

Lemma ex_needle2_wf : wf_needle ex_needle2.
Proof. unfold wf_needle. split_and!; vm_compute; reflexivity. Qed.

Definition ex_ops : list WalOp :=
  [OpAppend ex_needle 5; OpAppend ex_needle2 6; OpMark "photos" "2024/cat.jpg" "";
   OpAppend ex_needle 7].

Lemma wal_refines_map_witness :
  exists w', @run_ops example_hashes ex_wal ex_ops = Some w' /\ wal_inv w' /\
    represents w' (fold_left (spec_op (segment_capacity ex_wal)) ex_ops ∅).
Proof.
  assert (Hops : Forall op_wf ex_ops)
    by (repeat constructor; cbn [op_wf]; apply ex_needle_wf || apply ex_needle2_wf).
  destruct ex_wal_ok as (Hi & Hm & _ & Hn).
  apply (@wal_refines_map example_hashes ex_wal ∅ ex_ops Hi Hm Hops).
  rewrite Hn. vm_compute. reflexivity.
Defined.

Lemma wal_append_correct_witness :
  exists w' e, @wal_append example_hashes ex_wal ex_needle 5 = Some (w', Ok e) /\
    read_data w' e = Some (n_data ex_needle).
Proof.
  destruct ex_wal_ok as (Hi & Hm & Hc & Hn).
  destruct (@wal_append_correct example_hashes ex_wal ∅ ex_needle 5 Hi Hm ex_needle_wf
              ltac:(rewrite Hn; vm_compute; reflexivity)) as (w' & r & Hr & _ & Hcase).
  rewrite Hc, decide_True in Hcase by (apply Nat.leb_le; vm_compute; reflexivity).
  destruct Hcase as (e & -> & _ & Hd & _). exists w', e. split; assumption.
Defined.

(** Overwriting a key leaks its segment: the counter of a segment goes up
    with every append but down only once per pending key, so after the same key
    is written twice into a segment, rotated out and materialized, nothing
    pending is left in that segment, yet its counter stays at one and its file
    is kept. *)
Theorem wal_overwrite_leaks_segment :
  exists w, @run_ops example_hashes ex_wal
      [OpAppend ex_needle2 5; OpAppend ex_needle2 6; OpAppend ex_needle 7;
       OpMark "photos" "dog" ""; OpMark "photos" "2024/cat.jpg" ""] = Some w /\
    pending_count w = 0 /\ segment_pending_counts w !! 2%N = Some 1%N /\
    map sealed_id (sealed w) = [2%N] /\ is_Some (log_dir w !! segment_filename 2).
Proof.
  eexists. split; [vm_compute; reflexivity|].
  split_and!; vm_compute; [reflexivity..|eauto].
Qed.
