(* ===== verification/WalRecovery.v ===== *)
(** Recovery of the write-ahead log ([Wal::open] of [src/storage/wal.rs]): what the segment
    files hold at any point of a run, what a restart after a crash makes of them, and the
    durability of acknowledged writes that follows.  A crash loses the memory and keeps the
    files. *)

From Stdlib Require Import Ascii.
From stdpp Require Import base list gmap strings numbers pretty sorting.
From S2P Require Import Prelude Metadata Needle Segment Pathing Wal.

Open Scope string_scope.
Open Scope list_scope.

(** ** The names of segment files sort like their ids *)

(** The last [w] decimal digits. *)
Fixpoint dec (w : nat) (x : N) : string :=
  match w with 0 => "" | S w => dec w (x / 10) +:+ String (pretty_N_char (x mod 10)) "" end.

Definition zeros (n : nat) : string := string_of (replicate n "0"%char).

Lemma str_app_assoc a b c : (a +:+ b) +:+ c = a +:+ b +:+ c.
Proof. apply bytes_of_inj. by rewrite !bytes_of_app, app_assoc. Qed.

Lemma str_app_nil a : a +:+ "" = a.
Proof. apply bytes_of_inj. by rewrite bytes_of_app, app_nil_r. Qed.

Lemma pretty_N_go_app x s : pretty_N_go x s = pretty_N_go x "" +:+ s.
Proof.
  revert s. induction (N.lt_wf_0 x) as [x _ IH]; intros s. destruct (decide (x = 0)%N) as [->|Hx].
  - by rewrite !pretty_N_go_0.
  - rewrite !(pretty_N_go_step x) by lia. assert (Hlt : (x / 10 < x)%N) by (apply N.div_lt; lia).
    rewrite (IH _ Hlt (String _ s)), (IH _ Hlt (String _ "")). by rewrite str_app_assoc.
Qed.

Lemma string_length_app a b : String.length (a +:+ b) = String.length a + String.length b.
Proof. by rewrite <- !length_bytes_of, bytes_of_app, length_app. Qed.

Lemma zeros_S n : zeros (S n) = zeros n +:+ "0".
Proof.
  apply bytes_of_inj. rewrite bytes_of_app. unfold zeros. rewrite !bytes_of_string_of.
  replace (S n) with (n + 1) by lia. by rewrite replicate_add.
Qed.

Lemma pad_go w x : (x < 10 ^ N.of_nat w)%N ->
  zeros (w - String.length (pretty_N_go x "")) +:+ pretty_N_go x "" = dec w x /\ String.length (pretty_N_go x "") <= w.
Proof.
  revert x. induction w as [|w IH]; intros x Hx.
  { assert (x = 0%N) as -> by (change (10 ^ N.of_nat 0)%N with 1%N in Hx; lia). by rewrite pretty_N_go_0. }
  assert (Hd : (x / 10 < 10 ^ N.of_nat w)%N).
  { apply N.Div0.div_lt_upper_bound. rewrite Nnat.Nat2N.inj_succ, N.pow_succ_r' in Hx. done. }
  destruct (IH _ Hd) as [E Hl]. destruct (decide (x = 0)%N) as [->|Hne].
  - rewrite pretty_N_go_0. cbn [dec]. rewrite N.Div0.mod_0_l. cbn [String.length]. split; [|lia].
    rewrite Nat.sub_0_r, zeros_S, str_app_nil. change (0 / 10)%N with 0%N in *.
    rewrite pretty_N_go_0, str_app_nil in E. cbn [String.length] in E. rewrite Nat.sub_0_r in E. by rewrite <- E.
  - rewrite (pretty_N_go_step x), pretty_N_go_app by lia. rewrite string_length_app. cbn [String.length dec].
    split; [|lia]. rewrite <- E, str_app_assoc. do 2 f_equal. lia.
Qed.

Lemma pad_pretty w x : 0 < w -> (x < 10 ^ N.of_nat w)%N -> zeros (w - String.length (pretty x)) +:+ pretty x = dec w x.
Proof.
  intros Hw Hx. destruct (pad_go w x Hx) as [E Hl]. unfold pretty, pretty_N. case_decide as H0; [|exact E]. subst x.
  rewrite <- E, pretty_N_go_0. cbn [String.length]. destruct w as [|w]; [lia|].
  replace (S w - 1) with w by lia. rewrite Nat.sub_0_r, zeros_S. by rewrite str_app_nil.
Qed.

Lemma segment_filename_dec id : (id < 10 ^ 6)%N -> segment_filename id = "segment-" +:+ dec 6 id +:+ ".dat".
Proof.
  intros Hid. unfold segment_filename. rewrite <- (pad_pretty 6 id) by (done || lia). unfold zeros.
  by rewrite str_app_assoc.
Qed.

Lemma compare_app_same s a b : String.compare (s +:+ a) (s +:+ b) = String.compare a b.
Proof.
  induction s as [|c s IH]; [done|]. rewrite <- IH.
  change (match Ascii.compare c c with Eq => String.compare (s +:+ a) (s +:+ b) | Lt => Lt | Gt => Gt end
    = String.compare (s +:+ a) (s +:+ b)).
  replace (Ascii.compare c c) with Eq; [done|]. unfold Ascii.compare. by rewrite N.compare_refl.
Qed.

Lemma compare_app_lt s t a b : String.length s = String.length t -> String.compare s t = Lt ->
  String.compare (s +:+ a) (t +:+ b) = Lt.
Proof.
  revert t. induction s as [|c s IH]; intros [|d t] Hl; try done. cbn [String.compare].
  change (String.compare (String c s +:+ a) (String d t +:+ b)) with
    (match Ascii.compare c d with Eq => String.compare (s +:+ a) (t +:+ b) | Lt => Lt | Gt => Gt end).
  destruct (Ascii.compare c d); try done. apply IH. by injection Hl.
Qed.

Lemma length_dec w x : String.length (dec w x) = w.
Proof. revert x. induction w as [|w IH]; intros x; [done|]. cbn [dec]. rewrite string_length_app, IH. cbn. lia. Qed.

Lemma digit_lt a b : (a < b)%N -> (b < 10)%N ->
  String.compare (String (pretty_N_char a) "") (String (pretty_N_char b) "") = Lt.
Proof.
  intros Hab Hb. assert (Hx : forallb (fun i => forallb (fun j => implb (N.ltb i j)
    (match String.compare (String (pretty_N_char i) "") (String (pretty_N_char j) "") with Lt => true | _ => false end))
    (map N.of_nat (seq 0 10))) (map N.of_nat (seq 0 10)) = true) by (vm_compute; reflexivity).
  assert (Hin : forall c, (c < 10)%N -> In c (map N.of_nat (seq 0 10))).
  { intros c Hc. apply in_map_iff. exists (N.to_nat c). rewrite in_seq. lia. }
  rewrite forallb_forall in Hx. specialize (Hx a (Hin a ltac:(lia))). rewrite forallb_forall in Hx.
  specialize (Hx b (Hin b Hb)). rewrite (proj2 (N.ltb_lt a b) Hab) in Hx. cbn [implb] in Hx.
  by destruct (String.compare _ _).
Qed.

Lemma dec_lt w a b : (a < b)%N -> (b < 10 ^ N.of_nat w)%N -> String.compare (dec w a) (dec w b) = Lt.
Proof.
  revert a b. induction w as [|w IH]; intros a b Hab Hb.
  { change (10 ^ N.of_nat 0)%N with 1%N in Hb. lia. }
  cbn [dec]. destruct (decide (a / 10 = b / 10)%N) as [E|E].
  - rewrite E, compare_app_same. apply digit_lt; [|by apply N.mod_lt].
    pose proof (N.div_mod a 10). pose proof (N.div_mod b 10). lia.
  - apply compare_app_lt; [by rewrite !length_dec|]. apply IH.
    + pose proof (N.Div0.div_le_mono a b 10). lia.
    + apply N.Div0.div_lt_upper_bound. rewrite Nnat.Nat2N.inj_succ, N.pow_succ_r' in Hb. done.
Qed.

Lemma filename_lt a b : (a < b)%N -> (b < 10 ^ 6)%N -> String.compare (segment_filename a) (segment_filename b) = Lt.
Proof.
  intros Hab Hb. rewrite !segment_filename_dec by lia. rewrite compare_app_same.
  apply compare_app_lt; [by rewrite !length_dec|]. by apply (dec_lt 6).
Qed.

Lemma filename_inj a b : (a < 10 ^ 6)%N -> (b < 10 ^ 6)%N -> segment_filename a = segment_filename b -> a = b.
Proof.
  intros Ha Hb E. assert (Hr : forall s, String.compare s s = Eq).
  { intros s. pose proof (compare_app_same s "" "") as Hx. by rewrite str_app_nil in Hx. }
  destruct (N.lt_trichotomy a b) as [H|[H|H]]; [|done|];
    [pose proof (filename_lt a b H Hb) as Hc|pose proof (filename_lt b a H Ha) as Hc]; rewrite E, Hr in Hc; done.
Qed.

Lemma filename_le a b : (a <= b)%N -> (b < 10 ^ 6)%N -> str_le (segment_filename a) (segment_filename b).
Proof.
  intros Hab Hb. unfold str_le, String.leb. destruct (decide (a = b)) as [->|Hne].
  - pose proof (compare_app_same (segment_filename b) "" "") as Hx. rewrite str_app_nil in Hx. by rewrite Hx.
  - by rewrite filename_lt by lia.
Qed.

Lemma split_on_none c p : c ∉ p -> split_on c p = [p].
Proof.
  induction p as [|x p IH]; intros Hc; [done|]. apply not_elem_of_cons in Hc as [Hx Hp]. cbn.
  destruct (Ascii.eqb_spec x c); [congruence|]. by rewrite IH.
Qed.

Lemma split_on_one c p q : c ∉ p -> c ∉ q -> split_on c (p ++ c :: q) = [p; q].
Proof.
  intros Hp Hq. induction p as [|x p IH]; cbn.
  - rewrite Ascii.eqb_refl. by rewrite split_on_none.
  - apply not_elem_of_cons in Hp as [Hx Hp]. destruct (Ascii.eqb_spec x c); [congruence|]. by rewrite IH.
Qed.

Lemma digit_not_dot x : pretty_N_char (x mod 10) <> dot.
Proof.
  assert (Hd : forall d, (d < 10)%N -> pretty_N_char d <> dot); [|by apply Hd, N.mod_lt].
  intros d Hd. assert (Hx : forallb (fun i => negb (bool_decide (pretty_N_char i = dot))) (map N.of_nat (seq 0 10)) = true)
    by (vm_compute; reflexivity).
  rewrite forallb_forall in Hx. specialize (Hx d). intros E. rewrite bool_decide_eq_true_2 in Hx by done.
  discriminate Hx. apply in_map_iff. exists (N.to_nat d). rewrite in_seq. lia.
Qed.

Lemma dec_no_dot w x : dot ∉ bytes_of (dec w x).
Proof.
  revert x. induction w as [|w IH]; intros x; [apply not_elem_of_nil|]. cbn [dec]. rewrite bytes_of_app, not_elem_of_app.
  split; [apply IH|]. cbn. intros E%list_elem_of_singleton. by apply (digit_not_dot x).
Qed.

Lemma filename_dat id : (id < 10 ^ 6)%N -> has_dat_extension (segment_filename id) = true.
Proof.
  intros Hid. unfold has_dat_extension. rewrite segment_filename_dec by done.
  rewrite !bytes_of_app. change (bytes_of ".dat") with (dot :: bytes_of "dat"). rewrite app_assoc.
  rewrite split_on_one; [|rewrite not_elem_of_app; split; [by_decide|apply dec_no_dot]|by_decide].
  cbn [rev app]. rewrite bool_decide_eq_true_2 by done. rewrite bool_decide_eq_false_2; [done|]. by intros [? _].
Qed.

(** ** What the segment files hold *)

Section Files.
  Context `{Hashes} `{!HashesOk}.

(** The file of segment [id] holds the needles [ns]. *)
Definition file_holds (cap : nat) (x : N * list Needle) (f : bytes) : Prop :=
  exists s, holds s x.2 /\ segment_id s = x.1 /\ capacity s = cap /\ mmap s = f /\ path s = segment_filename x.1.

(** The log directory holds the segments [segs] and nothing else. *)
Definition dir_holds (cap : nat) (dir : gmap string bytes) (segs : list (N * list Needle)) : Prop :=
  (forall x, x ∈ segs -> exists f, dir !! segment_filename x.1 = Some f /\ file_holds cap x f) /\
  (forall name, is_Some (dir !! name) -> exists x, x ∈ segs /\ name = segment_filename x.1).

Lemma create_fields file id cap now s : create file id cap now = Some s ->
  segment_id s = id /\ path s = segment_filename id /\ capacity s = cap.
Proof. unfold create. intros E. apply bind_Some in E as (m & _ & E). by simplify_eq. Qed.

(** A segment is created where there is no file, or over an empty one. *)
Lemma create_over id cap now file s : (id < 2 ^ 32)%N ->
  (file = [] \/ exists id', file_holds cap (id', []) file) -> create file id cap now = Some s ->
  holds s [] /\ file_holds cap (id, []) (mmap s).
Proof.
  intros Hid Hf E. destruct (create_fields _ _ _ _ _ E) as (Hi & Hp & Hc). assert (Hh : holds s []); [|split; [done|by exists s]].
  destruct Hf as [->|(id' & s0 & Hh & _ & Hcap & <- & _)]; [by eapply holds_create|].
  destruct Hh as (sb & tail & Hm & Hmag & _ & _ & Hsb & Hwo & Hl & k & ->). cbn in Hm, Hwo, Hcap. unfold create in E.
  set (sb' := {| sb_magic := SEGMENT_MAGIC; sb_version := 1; sb_segment_id := id; sb_created_at := now;
                 sb_reserved := replicate 12 zero_byte |}) in E.
  assert (Hr : set_len cap (mmap s0) = mmap s0) by (unfold set_len; apply resize_all_alt; congruence).
  rewrite Hr in E. apply bind_Some in E as (m & Hsp & E). injection E as <-.
  pose proof (splice_length _ _ _ _ Hsp) as Hlen. apply splice_Some in Hsp as [Hle ->].
  exists sb', (replicate k zero_byte). cbn [mmap segment_id write_offset capacity]. split_and!; try done; [|congruence|eauto].
  rewrite Hm, take_0. change (0 + length (superblock_to_bytes sb')) with SUPERBLOCK_SIZE.
  rewrite <- Hsb, drop_app_length. done.
Qed.

Definition small (segs : list (N * list Needle)) : Prop := forall x, x ∈ segs -> (x.1 < 10 ^ 6)%N.

Lemma dir_delete cap dir segs segs' id : small segs -> (id < 10 ^ 6)%N ->
  (forall x, x ∈ segs' <-> x ∈ segs /\ x.1 <> id) ->
  dir_holds cap dir segs -> dir_holds cap (delete (segment_filename id) dir) segs'.
Proof.
  intros Hs Hid Hm [Hf Hn]. split.
  - intros x [Hx Hne]%Hm. rewrite lookup_delete_ne; [by apply Hf|]. intros E. apply Hne. symmetry.
    apply filename_inj; [done|by apply Hs|done].
  - intros name Hname. destruct (decide (segment_filename id = name)) as [<-|Hne].
    { rewrite lookup_delete_eq in Hname. by destruct Hname. }
    rewrite lookup_delete_ne in Hname by done. destruct (Hn _ Hname) as (x & Hx & ->). exists x. split; [|done].
    apply Hm. split; [done|congruence].
Qed.

Lemma dir_insert cap dir segs segs' a ns : small segs -> (segment_id a < 10 ^ 6)%N ->
  holds a ns -> capacity a = cap -> path a = segment_filename (segment_id a) ->
  (forall x, x ∈ segs' <-> x = (segment_id a, ns) \/ x ∈ segs /\ x.1 <> segment_id a) ->
  dir_holds cap dir segs -> dir_holds cap (<[path a := mmap a]> dir) segs'.
Proof.
  intros Hs Hid Hh Hc Hp Hm [Hf Hn]. rewrite Hp. split.
  - intros x [->|[Hx Hne]]%Hm; [rewrite lookup_insert_eq; eexists; split; [done|by exists a]|].
    rewrite lookup_insert_ne; [by apply Hf|]. intros E. apply Hne. symmetry.
    apply filename_inj; [done|by apply Hs|done].
  - intros name Hname. destruct (decide (segment_filename (segment_id a) = name)) as [<-|Hne].
    { exists (segment_id a, ns). split; [|done]. apply Hm. by left. }
    rewrite lookup_insert_ne in Hname by done. destruct (Hn _ Hname) as (x & Hx & ->). exists x. split; [|done].
    apply Hm. right. split; [done|congruence].
Qed.

Lemma dir_create cap dir segs segs' id now : small segs -> (id < 10 ^ 6)%N -> SUPERBLOCK_SIZE <= cap ->
  (forall ns, (id, ns) ∈ segs -> ns = []) ->
  (forall x, x ∈ segs' <-> x = (id, []) \/ x ∈ segs /\ x.1 <> id) -> dir_holds cap dir segs ->
  exists a dir', create_in dir id cap now = Some (a, dir') /\ holds a [] /\ segment_id a = id /\ capacity a = cap /\
    write_offset a = SUPERBLOCK_SIZE /\ path a = segment_filename id /\ dir' !! segment_filename id = Some (mmap a) /\
    dir_holds cap dir' segs'.
Proof.
  intros Hs Hid Hcap He Hm Hd. unfold create_in.
  destruct (create_total (default [] (dir !! segment_filename id)) id cap now Hcap) as [a Ha]. rewrite Ha.
  destruct (create_fields _ _ _ _ _ Ha) as (Hi & Hp & Hc). destruct (create_wf _ _ _ _ _ Ha) as (_ & _ & _ & Hwo).
  assert (Hh : holds a []).
  { eapply create_over; [|..|exact Ha]; [lia|]. destruct (dir !! segment_filename id) as [f|] eqn:E; [|by left].
    right. destruct Hd as [Hf Hn]. destruct (Hn _ ltac:(by eexists)) as ([id' ns] & Hx & Hname).
    assert (id' = id) as -> by (symmetry; apply filename_inj; [done|by apply (Hs _ Hx)|done]).
    destruct (Hf _ Hx) as (f' & Hf' & Hfh). cbn in Hf'. rewrite E in Hf'. injection Hf' as <-.
    exists id. by rewrite <- (He _ Hx). }
  cbn [mbind option_bind]. exists a, (<[path a := mmap a]> dir). split_and!; try done; [rewrite Hp; apply lookup_insert_eq|].
  apply (dir_insert cap dir segs segs' a []); try done; by rewrite ?Hi.
Qed.

(** ** What the files say of each key *)

(** The needles of the segments in the order of the segments, each with its segment. *)
Definition tagged (segs : list (N * list Needle)) : list (N * Needle) :=
  segs ≫= (fun x => pair x.1 <$> x.2).

(** The last needle under each key: its segment, data and metadata. *)
Definition replay (l : list (N * Needle)) : gmap PendingKey (N * (bytes * bytes)) :=
  fold_left (fun m x => <[needle_key x.2 := (x.1, (n_data x.2, n_meta_bytes x.2))]> m) l ∅.

Definition needles (segs : list (N * list Needle)) : list Needle := segs ≫= snd.

Lemma needles_app l1 l2 : needles (l1 ++ l2) = needles l1 ++ needles l2.
Proof. apply bind_app. Qed.

Lemma needles_mono segs segs' : (forall x, x ∈ segs -> x ∈ segs') -> needles segs ⊆ needles segs'.
Proof. intros Hs n. unfold needles. rewrite !list_elem_of_bind. intros (x & Hn & Hx). eauto. Qed.

Lemma tagged_app l1 l2 : tagged (l1 ++ l2) = tagged l1 ++ tagged l2.
Proof. apply bind_app. Qed.

Lemma replay_snoc l i n : replay (l ++ [(i, n)]) = <[needle_key n := (i, (n_data n, n_meta_bytes n))]> (replay l).
Proof. unfold replay. by rewrite fold_left_app. Qed.

(** Dropping segments leaves the keys whose last needle is in another. *)
Lemma replay_filter (P : N -> Prop) `{!forall i, Decision (P i)} l k i v : P i ->
  replay l !! k = Some (i, v) -> replay (filter (fun x => P x.1) l) !! k = Some (i, v).
Proof.
  intros Hp. induction l as [|[j n] l IH] using rev_ind; [done|]. rewrite filter_app, replay_snoc.
  intros Hk. destruct (decide (k = needle_key n)) as [->|Hne].
  - rewrite lookup_insert_eq in Hk. injection Hk as -> <-. rewrite filter_cons_True by done.
    rewrite filter_nil, replay_snoc. apply lookup_insert_eq.
  - rewrite lookup_insert_ne in Hk by done. specialize (IH Hk). destruct (decide (P j)).
    + rewrite filter_cons_True, filter_nil, replay_snoc by done. by rewrite lookup_insert_ne.
    + by rewrite filter_cons_False, filter_nil, app_nil_r by done.
Qed.

Lemma tagged_filter (P : N -> Prop) `{!forall i, Decision (P i)} segs :
  tagged (filter (fun x => P x.1) segs) = filter (fun x => P x.1) (tagged segs).
Proof.
  induction segs as [|[i ns] segs IH]; [done|]. change (tagged ((i, ns) :: segs)) with ((pair i <$> ns) ++ tagged segs).
  rewrite filter_app. destruct (decide (P i)).
  - rewrite filter_cons_True by done. cbn [tagged mbind list_bind]. rewrite <- IH. f_equal.
    induction ns as [|n ns IHn]; [done|]. by rewrite fmap_cons, filter_cons_True, <- IHn.
  - rewrite filter_cons_False by done. rewrite IH. replace (filter _ (pair i <$> ns)) with (@nil (N * Needle)); [done|].
    induction ns as [|n1 ns IHn]; [done|]. by rewrite fmap_cons, filter_cons_False, <- IHn.
Qed.

(** ** The log and its files *)

(** What the volume appends: no tombstone. *)
Definition storable (n : Needle) : Prop := wf_needle n /\ n_flags n <> FLAG_DELETE.

Definition placeholder (pre : list (N * list Needle)) : Prop := pre = [] \/ pre = [(0%N, [])].

Lemma placeholder_elem pre x : placeholder pre -> x ∈ pre -> x = (0%N, []).
Proof. intros [->| ->]; [by intros ?%not_elem_of_nil|by intros ?%list_elem_of_singleton]. Qed.

(** The files agree with the memory: the last needle of every pending key is the one its entry
    points to.  A rotation leaves the empty file of segment 0 behind. *)
Record log_inv (w : Wal) (segs : list (N * list Needle)) (m : gmap PendingKey (bytes * bytes)) : Prop := {
  li_wal : wal_inv w;
  li_rep : represents w m;
  li_dir : exists pre, placeholder pre /\ dir_holds (segment_capacity w) (log_dir w) (pre ++ segs);
  li_sorted : StronglySorted N.lt segs.*1;
  li_ids : Forall (fun x => (2 <= x.1)%N) segs;
  li_active : exists segs0 ns, segs = segs0 ++ [(segment_id (active w), ns)] /\ holds (active w) ns;
  li_path : path (active w) = segment_filename (segment_id (active w));
  li_next : (next_segment_id w <= 10 ^ 6)%N;
  li_sealed : Forall (fun s => sealed_path s = segment_filename (sealed_id s)) (sealed w);
  li_needles : Forall (fun x => storable x.2) (tagged segs);
  li_newest : forall k e v, pending w !! k = Some e -> m !! k = Some v ->
    replay (tagged segs) !! k = Some (we_segment_id e, v);
}.

Lemma sorted_last (l : list N) a x : StronglySorted N.lt (l ++ [a]) -> x ∈ l -> (x < a)%N.
Proof.
  intros Hs Hx. pose proof (StronglySorted_app_1_elem_of N.lt l [a] x a Hs Hx) as Ha. apply Ha. set_solver.
Qed.

Lemma li_below w segs m x : log_inv w segs m -> x ∈ segs -> (x.1 <= segment_id (active w))%N.
Proof.
  intros Hl Hx. destruct (li_active _ _ _ Hl) as (segs0 & ns & E & _). pose proof (li_sorted _ _ _ Hl) as Hs.
  rewrite E, fmap_app in Hs. rewrite E, elem_of_app, list_elem_of_singleton in Hx. destruct Hx as [Hx| ->]; [|done].
  assert (x.1 < segment_id (active w))%N; [|lia]. eapply sorted_last; [exact Hs|]. by apply list_elem_of_fmap_2.
Qed.

Lemma li_active_ge w segs m : log_inv w segs m -> (2 <= segment_id (active w))%N.
Proof.
  intros Hl. destruct (li_active _ _ _ Hl) as (segs0 & ns & E & _). pose proof (li_ids _ _ _ Hl) as Hids.
  rewrite E, Forall_app, Forall_singleton in Hids. apply Hids.
Qed.

Lemma li_small w segs m pre : log_inv w segs m -> placeholder pre -> small (pre ++ segs).
Proof.
  intros Hl Hp x [Hx|Hx]%elem_of_app.
  - by rewrite (placeholder_elem _ _ Hp Hx).
  - pose proof (li_below _ _ _ _ Hl Hx). pose proof (li_next _ _ _ Hl). pose proof (inv_active_id w (li_wal _ _ _ Hl)). lia.
Qed.

Lemma try_append_dir w n w' e : try_append w n = Some (w', Some e) ->
  log_dir w' = <[path (active w') := mmap (active w')]> (log_dir w) /\ path (active w') = path (active w) /\
  segment_id (active w') = segment_id (active w) /\ we_segment_id e = segment_id (active w) /\
  capacity (active w') = capacity (active w).
Proof.
  unfold try_append. intros E. apply bind_Some in E as ([a [loc|]] & Ha & E); [|done]. cbn [fst snd] in E. simplify_eq.
  cbn. unfold append in Ha. case_decide; [done|]. repeat (apply bind_Some in Ha as (? & _ & Ha)). by simplify_eq.
Qed.

Lemma tagged_snoc segs0 id ns n : tagged (segs0 ++ [(id, ns ++ [n])]) = tagged (segs0 ++ [(id, ns)]) ++ [(id, n)].
Proof. rewrite !tagged_app. cbn. by rewrite !app_nil_r, fmap_app, app_assoc. Qed.

Lemma active_elem pre segs0 id ns ns' x : placeholder pre ->
  StronglySorted N.lt (segs0 ++ [(id, ns)]).*1 -> Forall (fun x => (2 <= x.1)%N) (segs0 ++ [(id, ns)]) ->
  x ∈ pre ++ segs0 ++ [(id, ns')] <-> x = (id, ns') \/ x ∈ pre ++ segs0 ++ [(id, ns)] /\ x.1 <> id.
Proof.
  intros Hpre Hso Hids. rewrite fmap_app in Hso. rewrite Forall_app, Forall_singleton in Hids. cbn in Hids.
  assert (Hs0 : x ∈ segs0 -> x.1 <> id).
  { intros Hx. pose proof (sorted_last _ _ x.1 Hso ltac:(by apply list_elem_of_fmap_2)). cbn in *. lia. }
  assert (Hp0 : x ∈ pre -> x.1 <> id).
  { intros Hx. rewrite (placeholder_elem _ _ Hpre Hx). cbn. lia. }
  rewrite !elem_of_app, !list_elem_of_singleton. split; [tauto|]. intros [->|[[Hx|[Hx| ->]] Hne]]; auto. by destruct Hne.
Qed.

Lemma try_append_log w segs m n w' e : log_inv w segs m -> wf_needle n -> n_flags n <> FLAG_DELETE ->
  try_append w n = Some (w', Some e) ->
  exists segs', log_inv w' segs' (<[needle_key n := (n_data n, n_meta_bytes n)]> m) /\ needles segs' ⊆ n :: needles segs.
Proof.
  intros Hl Hn Hfl Ht. destruct (li_active _ _ _ Hl) as (segs0 & ns & Hsegs & Hh).
  destruct (try_append_Some _ _ _ _ Ht) as (a & loc & Ha & He & Hact & Hsl & Hp & Hcn & Hnx & Hcp).
  destruct (try_append_dir _ _ _ _ Ht) as (Hd & Hpa & Hid & Hes & Hca). rewrite <- Hact in Ha.
  pose proof (holds_append _ _ _ _ _ Hh Ha) as Hh'. pose proof (li_wal _ _ _ Hl) as Hi.
  pose proof (try_append_inv _ _ _ _ _ Hi (li_rep _ _ _ Hl) Hn Ht) as Hi'.
  pose proof (try_append_represents _ _ _ _ _ Hi (li_rep _ _ _ Hl) Hn Ht) as Hm'.
  pose proof (li_sorted _ _ _ Hl) as Hso. pose proof (li_ids _ _ _ Hl) as Hids. pose proof (li_path _ _ _ Hl) as Hpath.
  pose proof (li_needles _ _ _ Hl) as Hnd. pose proof (li_next _ _ _ Hl).
  exists (segs0 ++ [(segment_id (active w), ns ++ [n])]).
  split; [|rewrite Hsegs, !needles_app; cbn; rewrite !app_nil_r; set_solver]. constructor; try done.
  - destruct (li_dir _ _ _ Hl) as (pre & Hpre & Hdir). exists pre. split; [done|]. rewrite Hcp, Hd.
    pose proof (li_small _ _ _ _ Hl Hpre) as Hsm. eapply dir_insert; [exact Hsm| |exact Hh'| | | |exact Hdir].
    + rewrite Hid. pose proof (inv_active_id w Hi). lia.
    + by rewrite Hca, (inv_capacity w Hi).
    + by rewrite Hpa, Hid.
    + intros x. rewrite Hid, Hsegs. apply (active_elem pre segs0 _ ns); by rewrite <- ?Hsegs.
  - rewrite Hsegs, !fmap_app in *. exact Hso.
  - rewrite Hsegs, Forall_app, Forall_singleton in *. done.
  - exists segs0, (ns ++ [n]). by rewrite Hid.
  - by rewrite Hpa, Hid.
  - by rewrite Hnx.
  - rewrite Hsl. apply (li_sealed _ _ _ Hl).
  - rewrite tagged_snoc, Forall_app, Forall_singleton, <- Hsegs. done.
  - intros k e' v. rewrite Hp, tagged_snoc, replay_snoc, <- Hsegs. destruct (decide (k = needle_key n)) as [->|Hne].
    + rewrite !lookup_insert_eq. intros [= <-] [= <-]. by rewrite Hes.
    + rewrite !lookup_insert_ne by done. apply (li_newest _ _ _ Hl).
Qed.

Lemma zero_elem pre segs x : placeholder pre -> Forall (fun x => (2 <= x.1)%N) segs ->
  x ∈ [(0%N, [])] ++ segs <-> x = (0%N, []) \/ x ∈ pre ++ segs /\ x.1 <> 0%N.
Proof.
  intros Hpre Hids. rewrite Forall_forall in Hids. rewrite !elem_of_app, list_elem_of_singleton. split.
  - intros [->|Hx]; [by left|]. right. split; [by right|]. specialize (Hids _ Hx). cbn in Hids. lia.
  - intros [->|[[Hx|Hx] Hne]]; auto. by rewrite (placeholder_elem _ _ Hpre Hx) in Hne.
Qed.

(** The two files a rotation creates. *)
Lemma rotate_dir cap dir pre segs id now : placeholder pre -> small (pre ++ segs) -> Forall (fun x => (2 <= x.1 < id)%N) segs ->
  (0 < id < 10 ^ 6)%N -> SUPERBLOCK_SIZE <= cap -> dir_holds cap dir (pre ++ segs) ->
  exists r a d, create_in dir 0 cap now = Some r /\ create_in r.2 id cap now = Some (a, d) /\ holds a [] /\ segment_id a = id /\
    path a = segment_filename id /\ dir_holds cap d ([(0%N, [])] ++ segs ++ [(id, [])]).
Proof.
  intros Hpre Hsm Hids Hid Hcap Hd. pose proof (Forall_forall (fun x : N * list Needle => (2 <= x.1 < id)%N) segs) as Hall.
  assert (Hge : Forall (fun x : N * list Needle => (2 <= x.1)%N) segs) by (eapply Forall_impl; [exact Hids|]; cbn; lia).
  pose proof (fun x => zero_elem pre segs x Hpre Hge) as Hz0.
  assert (Hb0 : forall x, x ∈ [(0%N, [])] ++ segs -> x.1 <> id /\ (x.1 < 10 ^ 6)%N).
  { intros x [->%list_elem_of_singleton|Hx]%elem_of_app; [cbn; lia|]. apply Hall in Hx; [cbn in Hx; lia|done]. }
  destruct (dir_create cap dir (pre ++ segs) ([(0%N, [])] ++ segs) 0 now) as (a0 & d0 & E0 & _ & _ & _ & _ & _ & _ & Hd0); try done.
  { intros ns Hx. assert ((0%N, ns) = (0%N, [])) as E; [|by injection E]. apply elem_of_app in Hx as [Hx|Hx].
    - by apply (placeholder_elem pre).
    - apply Hall in Hx; [cbn in Hx; lia|done]. }
  destruct (dir_create cap d0 ([(0%N, [])] ++ segs) ([(0%N, [])] ++ segs ++ [(id, [])]) id now)
    as (a & d & E & Hh & Hi & _ & _ & Hpa & _ & Hda); try done; [by intros x Hx; apply Hb0|lia| | |].
  { intros ns Hx. apply Hb0 in Hx. by destruct Hx. }
  { intros x. rewrite app_assoc, elem_of_app, list_elem_of_singleton. split; [|tauto]. intros [Hx|Hx]; [|by left].
    right. split; [done|]. by apply Hb0. }
  by exists (a0, d0), a, d.
Qed.

Lemma rotate_log w segs m now w' : log_inv w segs m -> (next_segment_id w + 1 <= 10 ^ 6)%N ->
  rotate_active w now = Some w' -> log_inv w' (segs ++ [(next_segment_id w, [])]) m.
Proof.
  intros Hl Hn Hr. pose proof (li_wal _ _ _ Hl) as Hi. pose proof (inv_active_id w Hi) as Hai.
  destruct (rotate_active_ok w m now Hi (li_rep _ _ _ Hl) ltac:(lia)) as (w1 & Hr1 & Hi1 & Hm1 & Hc1 & _ & Hn1 & Hp1).
  rewrite Hr in Hr1. injection Hr1 as <-. pose proof (li_ids _ _ _ Hl) as Hids.
  destruct (li_dir _ _ _ Hl) as (pre & Hpre & Hdir). pose proof (li_small _ _ _ _ Hl Hpre) as Hsm.
  assert (Hb : Forall (fun x => (2 <= x.1 < next_segment_id w)%N) segs).
  { rewrite Forall_forall in *. intros x Hx. specialize (Hids _ Hx). pose proof (li_below _ _ _ _ Hl Hx). cbn in Hids. lia. }
  destruct (rotate_dir _ _ _ _ (next_segment_id w) now Hpre Hsm Hb ltac:(lia) (wal_inv_capacity _ Hi) Hdir)
    as (r & a & d & E0 & E & Hh & Hid & Hpa & Hd).
  unfold rotate_active in Hr. rewrite E0 in Hr. cbn [mbind option_bind snd] in Hr. rewrite E in Hr. cbn [mbind option_bind fst snd] in Hr.
  injection Hr as <-. cbn in Hn1, Hp1.
  assert (Htag : tagged (segs ++ [(next_segment_id w, [])]) = tagged segs) by (by rewrite tagged_app, app_nil_r).
  constructor; try done; cbn [log_dir active sealed pending segment_capacity next_segment_id]; rewrite ?Htag, ?Hid.
  - exists [(0%N, [])]. split; [by right|done].
  - rewrite fmap_app. apply StronglySorted_app. split_and!; [|apply (li_sorted _ _ _ Hl)|repeat constructor].
    intros x y Hx ->%list_elem_of_singleton. apply list_elem_of_fmap in Hx as (z & -> & Hz). cbn.
    pose proof (li_below _ _ _ _ Hl Hz). lia.
  - apply Forall_app. split; [done|]. constructor; [|constructor]. pose proof (li_active_ge _ _ _ Hl). cbn. lia.
  - by exists segs, [].
  - done.
  - rewrite Hn1. done.
  - apply Forall_app. split; [apply (li_sealed _ _ _ Hl)|]. constructor; [apply (li_path _ _ _ Hl)|constructor].
  - apply (li_needles _ _ _ Hl).
  - apply (li_newest _ _ _ Hl).
Qed.

Lemma wal_append_log w segs m n now : log_inv w segs m -> wf_needle n -> n_flags n <> FLAG_DELETE ->
  (next_segment_id w + 1 <= 10 ^ 6)%N ->
  exists w' r segs', wal_append w n now = Some (w', r) /\ segment_capacity w' = segment_capacity w /\
    (next_segment_id w' <= next_segment_id w + 1)%N /\
    log_inv w' segs' (spec_op (segment_capacity w) m (OpAppend n now)) /\
    needles segs' ⊆ if decide (SUPERBLOCK_SIZE + serialized_size n <= segment_capacity w) then n :: needles segs else needles segs.
Proof.
  intros Hl Hn Hfl Hnx. pose proof (li_wal _ _ _ Hl) as Hi.
  destruct (wal_append_ok w m n now Hi (li_rep _ _ _ Hl) Hn ltac:(lia)) as (w' & r & Ha & Hi' & Hc' & Hn' & _).
  exists w', r. cbn [spec_op]. pose proof (inv_capacity w Hi) as Hcap. pose proof (inv_active w Hi) as [_ Hwo].
  pose proof Ha as Ha0. unfold wal_append in Ha. pose proof (try_append_total w n Hi) as Ht. case_decide as Hd.
  - rewrite Ht in Ha. cbn [mbind option_bind snd] in Ha. apply bind_Some in Ha as (w1 & Hr & Ha).
    pose proof (rotate_log _ _ _ _ _ Hl Hnx Hr) as Hl1. pose proof (li_wal _ _ _ Hl1) as Hi1.
    destruct (rotate_active_ok w m now Hi (li_rep _ _ _ Hl) ltac:(lia)) as (w1' & Hr1 & _ & _ & Hc1 & Hwo1 & _).
    rewrite Hr in Hr1. injection Hr1 as <-. pose proof (try_append_total w1 n Hi1) as Ht1.
    rewrite (inv_capacity w1 Hi1), Hc1, Hwo1 in Ht1. case_decide as Hd1.
    + rewrite Ht1 in Ha. cbn [mbind option_bind fst snd] in Ha. injection Ha as <- <-. rewrite !decide_False by lia.
      eexists (segs ++ _). split_and!; try done. rewrite needles_app. cbn. by rewrite app_nil_r.
    + destruct Ht1 as (w2 & e & Ht1). rewrite Ht1 in Ha. cbn [mbind option_bind fst snd] in Ha. injection Ha as <- <-.
      rewrite !decide_True by lia. destruct (try_append_log _ _ _ _ _ _ Hl1 Hn Hfl Ht1) as (segs' & Hl2 & Hsub). exists segs'.
      split_and!; try done. rewrite needles_app in Hsub. cbn in Hsub. by rewrite app_nil_r in Hsub.
  - destruct Ht as (w2 & e & Ht). rewrite Ht in Ha. cbn [mbind option_bind fst snd] in Ha. injection Ha as <- <-.
    rewrite !decide_True by lia. destruct (try_append_log _ _ _ _ _ _ Hl Hn Hfl Ht) as (segs' & Hl2 & Hsub). by exists segs'.
Qed.

(** What a mark does to the files: at most one sealed segment goes, none that the other pending
    entries need. *)
Lemma try_delete_dir w id : (log_dir (try_delete_segment w id) = log_dir w /\ sealed (try_delete_segment w id) = sealed w) \/
  exists idx s, sealed w !! idx = Some s /\ sealed_id s = id /\ id <> segment_id (active w) /\
    log_dir (try_delete_segment w id) = delete (sealed_path s) (log_dir w) /\
    sealed (try_delete_segment w id) = delete idx (sealed w).
Proof.
  unfold try_delete_segment. case_bool_decide; [by left|]. destruct (position _ _) as [idx|] eqn:E; [|by left].
  destruct (position_Some _ _ _ E) as (s & Hs & Hid%bool_decide_eq_true). rewrite Hs. right. by exists idx, s.
Qed.

Lemma sublist_sorted (l l' : list N) : sublist l l' -> StronglySorted N.lt l' -> StronglySorted N.lt l.
Proof.
  induction 1 as [|x l l' Hsub IH|x l l' _ IH]; intros Hs; [constructor| |]; apply StronglySorted_inv in Hs as [Hs Hx].
  - constructor; [auto|]. rewrite Forall_forall in *. intros y Hy. apply Hx. by eapply elem_of_sublist.
  - auto.
Qed.

Lemma Forall_filter_keep {A} (P Q : A -> Prop) `{!forall x, Decision (Q x)} l : Forall P l -> Forall P (filter Q l).
Proof. rewrite !Forall_forall. intros Hl x [_ Hx]%list_elem_of_filter. auto. Qed.

Lemma tagged_drop id segs : tagged (filter (fun x => x.1 <> id) segs) = filter (fun x => x.1 <> id) (tagged segs).
Proof. exact (tagged_filter (fun i => i <> id) segs). Qed.

Lemma replay_drop id l k i v : i <> id -> replay l !! k = Some (i, v) ->
  replay (filter (fun x => x.1 <> id) l) !! k = Some (i, v).
Proof. exact (replay_filter (fun i => i <> id) l k i v). Qed.

Lemma filter_keeps_all {A} (P : A -> Prop) `{!forall x, Decision (P x)} l : Forall P l -> filter P l = l.
Proof. induction 1; [done|]. rewrite filter_cons_True by done. by f_equal. Qed.

Lemma try_delete_log w segs m id : log_inv w segs m -> seg_load (pending w) id = 0 ->
  exists segs', log_inv (try_delete_segment w id) segs' m /\ needles segs' ⊆ needles segs.
Proof.
  intros Hl Hz. pose proof (li_wal _ _ _ Hl) as Hi.
  destruct (try_delete_segment_ok w m id Hi (li_rep _ _ _ Hl) Hz) as [Hi' Hm'].
  assert (Hf : active (try_delete_segment w id) = active w /\ pending (try_delete_segment w id) = pending w /\
    segment_capacity (try_delete_segment w id) = segment_capacity w /\ next_segment_id (try_delete_segment w id) = next_segment_id w).
  { unfold try_delete_segment. by repeat case_match. }
  destruct Hf as (Hact & Hp & Hc & Hnx). destruct (try_delete_dir w id) as [[Hd Hs]|(idx & s & Hs & Hid & Hne & Hd & Hsl)].
  { exists segs. split; [|done]. destruct Hl. constructor; try done; by rewrite ?Hact, ?Hp, ?Hc, ?Hnx, ?Hd, ?Hs. }
  exists (filter (fun x => x.1 <> id) segs). destruct (li_active _ _ _ Hl) as (segs0 & ns & Hsegs & Hh).
  pose proof (li_sealed _ _ _ Hl) as Hsp. split; [|apply needles_mono; intros x [_ Hx]%list_elem_of_filter; done].
  constructor; try done; rewrite ?Hact, ?Hp, ?Hc, ?Hnx, ?Hsl.
  - destruct (li_dir _ _ _ Hl) as (pre & Hpre & Hdir). exists (filter (fun x => x.1 <> id) pre). split.
    + destruct Hpre as [->| ->]; [by left|]. rewrite filter_cons, filter_nil. case_decide; [by right|by left].
    + rewrite Hd, (Forall_lookup_1 _ _ _ _ Hsp Hs), Hid. rewrite <- filter_app.
      eapply dir_delete; [by eapply li_small| |intros x; rewrite list_elem_of_filter; tauto|done].
      pose proof (Forall_lookup_1 _ _ _ _ (inv_sealed_ids w Hi) Hs) as Hb. pose proof (li_next _ _ _ Hl). cbn in Hb. lia.
  - eapply sublist_sorted; [|apply (li_sorted _ _ _ Hl)]. apply fmap_sublist, sublist_filter.
  - apply Forall_filter_keep, (li_ids _ _ _ Hl).
  - exists (filter (fun x => x.1 <> id) segs0), ns. split; [|done]. rewrite Hsegs, filter_app. f_equal.
    by rewrite filter_cons_True by (cbn; congruence).
  - apply (li_path _ _ _ Hl).
  - apply (li_next _ _ _ Hl).
  - by apply Forall_delete.
  - rewrite tagged_drop. apply Forall_filter_keep, (li_needles _ _ _ Hl).
  - intros k e v Hk Hv. rewrite tagged_drop. apply replay_drop.
    + by eapply seg_load_0.
    + by apply (li_newest _ _ _ Hl).
Qed.

Lemma mark_log w segs m b k v : log_inv w segs m ->
  exists segs', log_inv (mark_materialized_versioned w b k v) segs' (delete (b, k, v) m) /\ needles segs' ⊆ needles segs.
Proof.
  intros Hl. pose proof (li_wal _ _ _ Hl) as Hi. pose proof (li_rep _ _ _ Hl) as Hm.
  unfold mark_materialized_versioned. destruct (pending w !! (b, k, v)) as [e|] eqn:E.
  2:{ exists segs. rewrite delete_id; [done|]. specialize (Hm (b, k, v)).
      destruct (m !! (b, k, v)) as [[d mb]|]; [|done]. destruct Hm as (? & ? & _). congruence. }
  set (w1 := set_pending (delete (b, k, v) (pending w)) w). destruct (set_pending_delete_ok w m (b, k, v) Hi Hm) as [Hi1 Hm1].
  assert (Hl1 : log_inv w1 segs (delete (b, k, v) m)).
  { destruct Hl. constructor; try done. intros k' e' v'. cbn [w1 set_pending pending].
    intros [_ Hk]%lookup_delete_Some [_ Hv]%lookup_delete_Some. eauto. }
  pose proof (inv_counts w Hi (we_segment_id e)) as Hc. pose proof (seg_load_delete _ _ _ (we_segment_id e) E) as Hld.
  rewrite decide_True in Hld by done. change (segment_pending_counts w1) with (segment_pending_counts w).
  destruct (segment_pending_counts w !! we_segment_id e) as [c|] eqn:Ec; [|by exists segs]. cbn [default from_option id] in Hc.
  destruct (decr_count_ok w1 _ (we_segment_id e) c Hi1 Hm1 Ec) as [Hi2 Hm2]; [cbn [w1 set_pending pending]; lia|].
  assert (Hl2 : log_inv (set_counts (decr_count (we_segment_id e) c (segment_pending_counts w1)) w1) segs (delete (b, k, v) m)).
  { destruct Hl1. by constructor. }
  unfold decr_count in Hl2. change (segment_pending_counts w1) with (segment_pending_counts w) in Hl2.
  case_bool_decide; [|by exists segs]. eapply try_delete_log; [exact Hl2|]. cbn [set_counts set_pending pending w1]. lia.
Qed.

End Files.

(** ** The startup scan *)

Section Recovery.
  Context `{Hashes} `{!HashesOk} `{MetaCodec} `{UuidParser}.
  Context (is_file : Path -> bool) (root : Path).

(** The destination of the key's shard exists. *)
Definition dest (k : PendingKey) : bool := dest_exists is_file root k.1.1 k.1.2 k.2.

(** The entry's ranges in the file of its segment. *)
Definition entry_reads (f : bytes) (e : WalEntry) (v : bytes * bytes) : Prop :=
  N.to_nat (we_data_offset e) + N.to_nat (we_data_len e) <= length f /\
  sub_list (N.to_nat (we_data_offset e)) (N.to_nat (we_data_len e)) f = v.1 /\
  N.to_nat (we_meta_offset e) + N.to_nat (we_meta_len e) <= length f /\
  sub_list (N.to_nat (we_meta_offset e)) (N.to_nat (we_meta_len e)) f = v.2.

(** A scanned item reports the needle [n] of the file [f]. *)
Definition reports (f : bytes) (it : ScanItem) (n : Needle) : Prop :=
  (scan_bucket it, scan_key it, scan_version_id it) = needle_key n /\ scan_flags it = n_flags n /\
  scan_meta_len it = length (n_meta_bytes n) /\
  scan_meta_offset it + scan_meta_len it <= length f /\ scan_data_offset it + scan_data_len it <= length f /\
  sub_list (scan_meta_offset it) (scan_meta_len it) f = n_meta_bytes n /\
  sub_list (scan_data_offset it) (scan_data_len it) f = n_data n.

Lemma items_keys off ns : Forall2 (fun it n => (scan_bucket it, scan_key it, scan_version_id it) = needle_key n /\
  scan_flags it = n_flags n /\ scan_meta_len it = length (n_meta_bytes n)) (items_from off ns) ns.
Proof. revert off. induction ns as [|n ns IH]; intros off; cbn; constructor; [done|apply IH]. Qed.

Lemma Forall2_both {A B} (P Q : A -> B -> Prop) l k : Forall2 P l k -> Forall2 Q l k -> Forall2 (fun x y => P x y /\ Q x y) l k.
Proof. induction 1 as [|x y l k Hp _ IH]; inversion 1; subst; constructor; auto. Qed.

Lemma items_report s ns : holds s ns -> Forall2 (reports (mmap s)) (items_from SUPERBLOCK_SIZE ns) ns.
Proof.
  intros (sb & tail & Hm & _ & _ & _ & Hsb & _). pose proof (items_keys SUPERBLOCK_SIZE ns) as Hk.
  pose proof (items_slices ns (superblock_to_bytes sb) tail) as Hit. pose proof (items_in_bounds ns (superblock_to_bytes sb) tail) as Hib.
  rewrite Hsb, <- Hm in Hit, Hib. pose proof (Forall2_Forall_and_l _ _ _ _ Hib Hit) as Hall.
  eapply Forall2_impl; [exact (Forall2_both _ _ _ _ Hk Hall)|]. intros it n ((? & ? & ?) & (? & ?) & ? & ?). repeat split; done.
Qed.

(** What has been recovered after the needles [l], of which the segments kept so far hold [l']. *)
Definition pend_ok (dir : gmap string bytes) (l l' : list (N * Needle)) (pend : gmap PendingKey WalEntry) : Prop :=
  forall k, match pend !! k with
  | Some e => dest k = false /\ exists v f, replay l !! k = Some (we_segment_id e, v) /\
      replay l' !! k = Some (we_segment_id e, v) /\ dir !! segment_filename (we_segment_id e) = Some f /\ entry_reads f e v
  | None => replay l !! k = None \/ dest k = true
  end.

Definition loads_ok (pend : gmap PendingKey WalEntry) (counts : gmap N N) : Prop :=
  forall s, (N.of_nat (seg_load pend s) <= default 0 (counts !! s))%N.

(** The entry the visitor makes of an item. *)
Lemma recover_item_live seg pend counts it n f : reports f it n -> sealed_mmap seg = f -> (N.of_nat (length f) < 2 ^ 32)%N ->
  wf_needle n -> n_flags n <> FLAG_DELETE ->
  if dest (needle_key n) then recover_item is_file root seg (pend, counts) it = (pend, counts)
  else exists e, recover_item is_file root seg (pend, counts) it = (<[needle_key n := e]> pend, incr_count (sealed_id seg) counts) /\
    we_segment_id e = sealed_id seg /\ entry_reads f e (n_data n, n_meta_bytes n).
Proof.
  intros (Hk & Hfl & Hml & Hmb & Hdb & Em & Ed) Hf Hlen Hn Hnd. unfold recover_item. rewrite Hfl, bool_decide_eq_false_2 by done.
  destruct it as [fl b k v mo ml dof dl no]. cbn in *. unfold dest. rewrite <- Hk. cbn [fst snd].
  destruct (dest_exists is_file root b k v); [done|]. eexists. split; [done|]. split; [done|].
  destruct Hn as (_ & _ & _ & _ & Hm16 & _). unfold entry_reads. cbn [we_data_offset we_data_len we_meta_offset we_meta_len fst snd].
  rewrite (wrap_small 32 (N.of_nat dof)), (wrap_small 32 (N.of_nat dl)), (wrap_small 32 (N.of_nat mo)), (wrap_small 16 (N.of_nat ml)) by lia.
  rewrite !Nat2N.id. done.
Qed.

Lemma pend_ok_dead dir l l' pend i n : pend_ok dir l l' pend -> dest (needle_key n) = true ->
  pend_ok dir (l ++ [(i, n)]) (l' ++ [(i, n)]) pend.
Proof.
  intros Hp Hd k. specialize (Hp k). rewrite !replay_snoc. destruct (decide (k = needle_key n)) as [->|Hne].
  - rewrite !lookup_insert_eq. destruct (pend !! needle_key n); [|by right]. destruct Hp. congruence.
  - by rewrite !lookup_insert_ne.
Qed.

Lemma pend_ok_live dir l l' pend i n e f : pend_ok dir l l' pend -> dest (needle_key n) = false -> we_segment_id e = i ->
  dir !! segment_filename i = Some f -> entry_reads f e (n_data n, n_meta_bytes n) ->
  pend_ok dir (l ++ [(i, n)]) (l' ++ [(i, n)]) (<[needle_key n := e]> pend).
Proof.
  intros Hp Hd <- Hf He k. specialize (Hp k). rewrite !replay_snoc. destruct (decide (k = needle_key n)) as [->|Hne].
  - rewrite !lookup_insert_eq. split; [done|]. by eexists _, f.
  - by rewrite !lookup_insert_ne.
Qed.

Lemma loads_ok_insert pend counts k e : loads_ok pend counts -> (default 0 (counts !! we_segment_id e) + 1 < 2 ^ 32)%N ->
  loads_ok (<[k := e]> pend) (incr_count (we_segment_id e) counts).
Proof.
  intros Hl Hb s. pose proof (seg_load_insert_le pend k e s) as Hle. specialize (Hl s). unfold incr_count.
  rewrite wrap_small by lia. case_decide as Hs.
  - rewrite Hs, lookup_insert_eq. cbn [default from_option id]. subst s. lia.
  - rewrite lookup_insert_ne by done. lia.
Qed.

(** The scan of one segment. *)
Lemma recover_items dir seg f its ns l l' pend counts : Forall2 (reports f) its ns -> sealed_mmap seg = f ->
  (N.of_nat (length f) < 2 ^ 32)%N -> dir !! segment_filename (sealed_id seg) = Some f ->
  Forall storable ns ->
  pend_ok dir l l' pend -> loads_ok pend counts ->
  (default 0 (counts !! sealed_id seg) + N.of_nat (length ns) < 2 ^ 32)%N ->
  let r := fold_left (recover_item is_file root seg) its (pend, counts) in
  pend_ok dir (l ++ (pair (sealed_id seg) <$> ns)) (l' ++ (pair (sealed_id seg) <$> ns)) r.1 /\ loads_ok r.1 r.2 /\
  (forall s, s <> sealed_id seg -> r.2 !! s = counts !! s) /\
  (default 0 (counts !! sealed_id seg) <= default 0 (r.2 !! sealed_id seg))%N /\
  (default 0 (r.2 !! sealed_id seg) = default 0 (counts !! sealed_id seg) -> r.1 = pend)%N.
Proof.
  intros Hr Hm Hlen Hf. revert l l' pend counts.
  induction Hr as [|it n its ns Hit _ IH]; intros l l' pend counts Hwf Hp Hl Hb; cbn [fold_left].
  { cbn. rewrite !app_nil_r. done. }
  apply Forall_cons in Hwf as [[Hn Hfl] Hwf]. cbn [length] in Hb. rewrite !fmap_cons.
  pose proof (recover_item_live seg pend counts it n f Hit Hm Hlen Hn Hfl) as Hi. destruct (dest (needle_key n)) eqn:Hd.
  - rewrite Hi. destruct (IH (l ++ [(sealed_id seg, n)]) (l' ++ [(sealed_id seg, n)]) pend counts) as (A1 & A2 & A3 & A4 & A5);
      [done|by apply pend_ok_dead|done|lia|]. rewrite <- !app_assoc in A1. done.
  - destruct Hi as (e & Hi & He & Hre). rewrite Hi.
    assert (Hc : incr_count (sealed_id seg) counts !! sealed_id seg = Some (default 0 (counts !! sealed_id seg) + 1)%N).
    { unfold incr_count. rewrite lookup_insert_eq, wrap_small by lia. done. }
    destruct (IH (l ++ [(sealed_id seg, n)]) (l' ++ [(sealed_id seg, n)]) (<[needle_key n := e]> pend) (incr_count (sealed_id seg) counts))
      as (A1 & A2 & A3 & A4 & A5); [done|by eapply pend_ok_live| |rewrite Hc; cbn; lia|].
    { rewrite <- He. apply loads_ok_insert; [done|]. rewrite He. lia. }
    rewrite <- !app_assoc in A1. rewrite Hc in A4. cbn [default from_option id] in A4. split_and!; [done|done| |lia|lia].
    intros s Hs. rewrite A3 by done. unfold incr_count. by rewrite lookup_insert_ne.
Qed.

(** *** The loop over the files *)

(** The startup loop between two files: [done] has been read, [kept] of it stays, [todo] is left. *)
Record scanning (cap : nat) (dir : gmap string bytes) (bound : N) (w : Wal) (done todo kept : list (N * list Needle)) : Prop := {
  sc_pend : pend_ok dir (tagged done) (tagged kept) (pending w);
  sc_loads : loads_ok (pending w) (segment_pending_counts w);
  sc_counts : forall s, is_Some (segment_pending_counts w !! s) -> s ∈ done.*1;
  sc_sub : sublist kept done;
  sc_dropped : forall x, x ∈ done -> x ∈ kept \/ default 0%N (segment_pending_counts w !! x.1) = 0%N;
  sc_nonempty : forall x, x ∈ kept -> x.2 <> [];
  sc_sealed : Forall2 (fun x s => sealed_id s = x.1 /\ sealed_path s = segment_filename x.1 /\
    dir !! segment_filename x.1 = Some (sealed_mmap s)) kept (sealed w);
  sc_dir : dir_holds cap (log_dir w) (kept ++ todo);
  sc_files : forall x, x ∈ kept ++ todo -> log_dir w !! segment_filename x.1 = dir !! segment_filename x.1;
  sc_next : (2 <= next_segment_id w <= bound)%N;
  sc_below : forall x, x ∈ done -> (x.1 < next_segment_id w)%N;
  sc_cap : segment_capacity w = cap;
}.

Lemma open_fields p f sg : open p f = Ok sg -> sealed_path sg = p /\ sealed_mmap sg = f.
Proof. unfold open. repeat case_decide; try done. intros E. by simplify_eq. Qed.

(** A file of the log opens and its scan reports its needles. *)
Lemma open_held cap x f : file_holds cap x f -> Forall storable x.2 ->
  exists sg, open (segment_filename x.1) f = Ok sg /\ sealed_id sg = x.1 /\ sealed_path sg = segment_filename x.1 /\
    sealed_mmap sg = f /\ Forall2 (reports f) (scan sg) x.2 /\ length f = cap /\ 24 * length x.2 <= cap.
Proof.
  intros (s & Hh & Hid & Hc & <- & Hp) Hwf.
  destruct (holds_scan s x.2 Hh) as (sg & Ho & Hsid & _ & Hscan & _).
  { eapply Forall_impl; [exact Hwf|]. by intros ? []. }
  rewrite Hp in Ho. exists sg. destruct (open_fields _ _ _ Ho) as [Hsp Hsm]. rewrite Hscan.
  split_and!; try done; [congruence|by apply items_report|..].
  - destruct Hh as (? & ? & ? & ? & ? & ? & ? & ? & Hl & _). congruence.
  - pose proof (length_images_ge x.2) as Hge. pose proof (holds_wf _ _ Hh) as [Hl Hwo].
    destruct Hh as (? & ? & ? & ? & ? & ? & ? & Hw & _). unfold HEADER_SIZE in Hge. lia.
Qed.

Definition next_after (w : Wal) (id : N) : N := if bool_decide (next_segment_id w <= id)%N then as_u32 (id + 1) else next_segment_id w.

Lemma open_file_ok w name f sg : log_dir w !! name = Some f -> open name f = Ok sg ->
  let r := fold_left (recover_item is_file root sg) (scan sg) (pending w, segment_pending_counts w) in
  open_file is_file root w name =
    if bool_decide (0 < default 0%N (r.2 !! sealed_id sg))%N
    then mkWal (log_dir w) (active w) (sealed w ++ [sg]) r.1 r.2 (next_after w (sealed_id sg)) (segment_capacity w)
    else mkWal (delete (sealed_path sg) (log_dir w)) (active w) (sealed w) r.1 r.2 (next_after w (sealed_id sg)) (segment_capacity w).
Proof.
  intros Hf Ho r. unfold open_file. rewrite Hf, Ho. unfold recover_segment, next_after.
  destruct (bool_decide (next_segment_id w <= sealed_id sg)%N);
    cbn [set_next set_counts set_pending log_dir active sealed pending segment_pending_counts next_segment_id segment_capacity];
    fold r; by case_bool_decide.
Qed.

(** What the step knows once the segment [x] has been scanned into [r]. *)
Record scanned (dir : gmap string bytes) (w : Wal) (done : list (N * list Needle)) (kept : list (N * list Needle))
    (x : N * list Needle) (r : gmap PendingKey WalEntry * gmap N N) : Prop := {
  sd_pend : pend_ok dir (tagged (done ++ [x])) (tagged (kept ++ [x])) r.1;
  sd_loads : loads_ok r.1 r.2;
  sd_other : forall s, s <> x.1 -> r.2 !! s = segment_pending_counts w !! s;
  sd_none : default 0%N (r.2 !! x.1) = 0%N -> r.1 = pending w;
  sd_empty : x.2 = [] -> default 0%N (r.2 !! x.1) = 0%N;
}.

Lemma tagged_one x : tagged [x] = pair x.1 <$> x.2.
Proof. cbn. apply app_nil_r. Qed.

Lemma scanned_ids cap dir bound w done todo kept x r s : scanning cap dir bound w done todo kept -> scanned dir w done kept x r ->
  is_Some (r.2 !! s) -> s ∈ (done ++ [x]).*1.
Proof.
  intros Hsc Hsd Hs. rewrite fmap_app, elem_of_app. destruct (decide (s = x.1)) as [->|Hne]; [right; set_solver|left].
  rewrite (sd_other _ _ _ _ _ _ Hsd) in Hs by done. by apply (sc_counts _ _ _ _ _ _ _ Hsc).
Qed.

Lemma scanned_dropped cap dir bound w done todo kept x r y : scanning cap dir bound w done todo kept -> scanned dir w done kept x r ->
  y.1 <> x.1 -> y ∈ done -> y ∈ kept \/ default 0%N (r.2 !! y.1) = 0%N.
Proof. intros Hsc Hsd Hne Hy. rewrite (sd_other _ _ _ _ _ _ Hsd) by done. by apply (sc_dropped _ _ _ _ _ _ _ Hsc). Qed.

Lemma next_after_spec cap dir bound w done todo kept x : scanning cap dir bound w done todo kept -> (x.1 < 10 ^ 6)%N -> (x.1 < bound)%N ->
  (2 <= next_after w x.1 <= bound)%N /\ forall y, y ∈ done ++ [x] -> (y.1 < next_after w x.1)%N.
Proof.
  intros Hsc Hx Hb. pose proof (sc_next _ _ _ _ _ _ _ Hsc). pose proof (sc_below _ _ _ _ _ _ _ Hsc) as Hbe. unfold next_after.
  assert (Hle : (next_segment_id w <= if bool_decide (next_segment_id w <= x.1) then as_u32 (x.1 + 1) else next_segment_id w)%N /\
    (x.1 < (if bool_decide (next_segment_id w <= x.1) then as_u32 (x.1 + 1) else next_segment_id w) <= bound)%N).
  { case_bool_decide; [rewrite wrap_small by lia|]; lia. }
  split; [lia|]. intros y [Hy| ->%list_elem_of_singleton]%elem_of_app; [|lia]. specialize (Hbe _ Hy). lia.
Qed.

Lemma scan_keep cap dir bound w done x todo kept r sg : scanning cap dir bound w done (x :: todo) kept -> scanned dir w done kept x r ->
  (x.1 < 10 ^ 6)%N -> (x.1 < bound)%N -> (forall y, y ∈ done -> y.1 <> x.1) ->
  sealed_id sg = x.1 -> sealed_path sg = segment_filename x.1 -> dir !! segment_filename x.1 = Some (sealed_mmap sg) ->
  default 0%N (r.2 !! x.1) <> 0%N ->
  scanning cap dir bound (mkWal (log_dir w) (active w) (sealed w ++ [sg]) r.1 r.2 (next_after w x.1) (segment_capacity w))
    (done ++ [x]) todo (kept ++ [x]).
Proof.
  intros Hsc Hsd H6 Hb Hne Hid Hsp Hf Hc. destruct (next_after_spec _ _ _ _ _ _ _ _ Hsc H6 Hb) as [Hn1 Hn2].
  constructor; cbn [log_dir active sealed pending segment_pending_counts next_segment_id segment_capacity]; try done.
  - apply (sd_pend _ _ _ _ _ _ Hsd).
  - apply (sd_loads _ _ _ _ _ _ Hsd).
  - intros s. by eapply scanned_ids.
  - apply sublist_app; [apply (sc_sub _ _ _ _ _ _ _ Hsc)|done].
  - intros y [Hy| ->%list_elem_of_singleton]%elem_of_app; [|left; set_solver].
    destruct (scanned_dropped _ _ _ _ _ _ _ _ _ _ Hsc Hsd (Hne _ Hy) Hy); [left; set_solver|by right].
  - intros y [Hy| ->%list_elem_of_singleton]%elem_of_app; [by apply (sc_nonempty _ _ _ _ _ _ _ Hsc)|].
    intros He. by apply Hc, (sd_empty _ _ _ _ _ _ Hsd).
  - apply Forall2_app; [apply (sc_sealed _ _ _ _ _ _ _ Hsc)|]. by repeat constructor.
  - rewrite <- app_assoc. apply (sc_dir _ _ _ _ _ _ _ Hsc).
  - rewrite <- app_assoc. apply (sc_files _ _ _ _ _ _ _ Hsc).
  - apply (sc_cap _ _ _ _ _ _ _ Hsc).
Qed.

Lemma replay_tag l k i v : replay l !! k = Some (i, v) -> exists n, (i, n) ∈ l.
Proof.
  induction l as [|[j n] l IH] using rev_ind; [done|]. rewrite replay_snoc. intros Hk. destruct (decide (k = needle_key n)) as [->|Hne].
  - rewrite lookup_insert_eq in Hk. injection Hk as -> _. exists n. set_solver.
  - rewrite lookup_insert_ne in Hk by done. destruct (IH Hk) as [n' Hn]. exists n'. set_solver.
Qed.

Lemma tagged_ids segs i n : (i, n) ∈ tagged segs -> exists x, x ∈ segs /\ x.1 = i.
Proof. unfold tagged. intros (x & Hx & Hs)%list_elem_of_bind. apply list_elem_of_fmap in Hx as (n' & E & _). exists x. split; [done|]. by injection E. Qed.

(** The segment just read cannot change a key whose entry points elsewhere. *)
Lemma replay_before done x k i v : (forall y, y ∈ done -> y.1 <> x.1) -> i <> x.1 ->
  replay (tagged (done ++ [x])) !! k = Some (i, v) -> replay (tagged done) !! k = Some (i, v).
Proof.
  intros Hne Hi Hk. apply (replay_drop x.1) in Hk; [|done]. rewrite <- tagged_drop, filter_app in Hk.
  rewrite (filter_cons_False _ x []), app_nil_r in Hk by tauto.
  rewrite filter_keeps_all in Hk; [done|]. by apply Forall_forall.
Qed.

Lemma scan_drop cap dir bound w done x todo kept r : scanning cap dir bound w done (x :: todo) kept -> scanned dir w done kept x r ->
  small (done ++ x :: todo) -> (x.1 < bound)%N -> (forall y, y ∈ done ++ todo -> y.1 <> x.1) -> default 0%N (r.2 !! x.1) = 0%N ->
  scanning cap dir bound (mkWal (delete (segment_filename x.1) (log_dir w)) (active w) (sealed w) r.1 r.2 (next_after w x.1) (segment_capacity w))
    (done ++ [x]) todo kept.
Proof.
  intros Hsc Hsd Hsm Hb Hne Hc. assert (H6 : (x.1 < 10 ^ 6)%N) by (apply Hsm; set_solver).
  destruct (next_after_spec _ _ _ _ _ _ _ _ Hsc H6 Hb) as [Hn1 Hn2].
  assert (Hsub : forall y, y ∈ kept -> y ∈ done) by (intros y Hy; eapply elem_of_sublist; [exact Hy|apply (sc_sub _ _ _ _ _ _ _ Hsc)]).
  assert (Hy : forall y, y ∈ kept ++ todo <-> y ∈ kept ++ x :: todo /\ y.1 <> x.1).
  { intros y. rewrite !elem_of_app, elem_of_cons. split.
    - intros [Hy|Hy]; (split; [tauto|]); apply Hne, elem_of_app; auto.
    - intros [[Hy|[->|Hy]] Hn]; auto. by destruct Hn. }
  constructor; cbn [log_dir active sealed pending segment_pending_counts next_segment_id segment_capacity]; try done.
  - pose proof (sd_pend _ _ _ _ _ _ Hsd) as Hp. pose proof (sc_pend _ _ _ _ _ _ _ Hsc) as Hp0.
    rewrite (sd_none _ _ _ _ _ _ Hsd Hc) in *. intros k. specialize (Hp k). specialize (Hp0 k).
    destruct (pending w !! k) as [e|]; [|done]. destruct Hp as (_ & v & f & Hr & _ & _ & _).
    destruct Hp0 as (Hd & v0 & f0 & Hr0 & Hk & Hf & Hre). split; [done|]. exists v, f0.
    destruct (replay_tag _ _ _ _ Hr0) as (n & Hn). destruct (tagged_ids _ _ _ Hn) as (y & Hyd & Hyi).
    apply replay_before in Hr as Hr'; [|intros z Hz; apply Hne; set_solver|rewrite <- Hyi; apply Hne; set_solver].
    assert (v = v0) as -> by congruence. done.
  - apply (sd_loads _ _ _ _ _ _ Hsd).
  - intros s. by eapply scanned_ids.
  - apply sublist_inserts_r. apply (sc_sub _ _ _ _ _ _ _ Hsc).
  - intros y [Hyd| ->%list_elem_of_singleton]%elem_of_app; [|by right].
    apply (scanned_dropped _ _ _ _ _ _ _ _ _ _ Hsc Hsd); [apply Hne; set_solver|done].
  - apply (sc_nonempty _ _ _ _ _ _ _ Hsc).
  - apply (sc_sealed _ _ _ _ _ _ _ Hsc).
  - eapply dir_delete; [|done|exact Hy|apply (sc_dir _ _ _ _ _ _ _ Hsc)].
    intros y [Hyk|Hyt]%elem_of_app; apply Hsm, elem_of_app; auto.
  - intros y [Hyk Hyn]%Hy. rewrite lookup_delete_ne; [by apply (sc_files _ _ _ _ _ _ _ Hsc)|].
    intros E. apply Hyn. symmetry. apply filename_inj; [done| |done]. apply Hsm. set_solver.
  - apply (sc_cap _ _ _ _ _ _ _ Hsc).
Qed.

Lemma sorted_middle (done todo : list (N * list Needle)) x y : StronglySorted N.lt (done ++ x :: todo).*1 -> y ∈ done ++ todo -> y.1 <> x.1.
Proof.
  rewrite fmap_app, fmap_cons, StronglySorted_app. intros (Hlt & _ & [_ Hx]%StronglySorted_inv) [Hy|Hy]%elem_of_app.
  - specialize (Hlt y.1 x.1 ltac:(by apply list_elem_of_fmap_2) ltac:(set_solver)). lia.
  - rewrite Forall_forall in Hx. specialize (Hx y.1 ltac:(by apply list_elem_of_fmap_2)). lia.
Qed.

Lemma scan_step cap dir bound w done x todo kept : scanning cap dir bound w done (x :: todo) kept ->
  StronglySorted N.lt (done ++ x :: todo).*1 -> small (done ++ x :: todo) -> (x.1 < bound)%N ->
  (N.of_nat cap < 2 ^ 32)%N -> Forall storable x.2 ->
  exists kept', scanning cap dir bound (open_file is_file root w (segment_filename x.1)) (done ++ [x]) todo kept'.
Proof.
  intros Hsc Hso Hsm Hb Hcap Hwf. destruct (proj1 (sc_dir _ _ _ _ _ _ _ Hsc) x ltac:(set_solver)) as (f & Hf & Hfh).
  destruct (open_held _ _ _ Hfh Hwf) as (sg & Ho & Hid & Hsp & Hsmm & Hrep & Hlf & Hln).
  pose proof (sc_files _ _ _ _ _ _ _ Hsc x ltac:(set_solver)) as Hdf. rewrite Hf in Hdf. symmetry in Hdf.
  pose proof (fun y => sorted_middle done todo x y Hso) as Hne.
  assert (Hfresh : segment_pending_counts w !! x.1 = None).
  { apply eq_None_not_Some. intros Hc. apply (sc_counts _ _ _ _ _ _ _ Hsc), list_elem_of_fmap in Hc as (y & Hy & Hyd).
    apply (Hne y); [set_solver|done]. }
  pose proof (recover_items dir sg f (scan sg) x.2 (tagged done) (tagged kept) (pending w) (segment_pending_counts w)
    Hrep Hsmm ltac:(lia) ltac:(by rewrite Hid) Hwf (sc_pend _ _ _ _ _ _ _ Hsc) (sc_loads _ _ _ _ _ _ _ Hsc)
    ltac:(rewrite Hid, Hfresh; cbn; lia)) as Hri.
  rewrite (open_file_ok w _ f sg Hf Ho). cbv zeta in Hri |- *. set (r := fold_left _ _ _) in *.
  rewrite Hid, Hsp, Hfresh, <- tagged_one, <- !tagged_app in *. destruct Hri as (A1 & A2 & A3 & _ & A5).
  assert (Hsd : scanned dir w done kept x r).
  { constructor; [done..|]. intros He. rewrite He in Hrep. apply Forall2_nil_inv_r in Hrep. unfold r. rewrite Hrep. cbn. by rewrite Hfresh. }
  assert (H6 : (x.1 < 10 ^ 6)%N) by (apply Hsm; set_solver). case_bool_decide as Hc.
  - exists (kept ++ [x]). eapply scan_keep; try done; [intros y Hy; apply Hne; set_solver|by rewrite Hsmm|lia].
  - exists kept. eapply scan_drop; try done. lia.
Qed.

Lemma scan_loop_ok cap dir bound w done todo kept : scanning cap dir bound w done todo kept ->
  StronglySorted N.lt (done ++ todo).*1 -> small (done ++ todo) -> (forall x, x ∈ todo -> (x.1 < bound)%N) ->
  (N.of_nat cap < 2 ^ 32)%N -> Forall (fun x => Forall storable x.2) todo ->
  exists kept', scanning cap dir bound (fold_left (open_file is_file root) ((fun x => segment_filename x.1) <$> todo) w) (done ++ todo) [] kept'.
Proof.
  intros Hsc Hso Hsm Hb Hcap Hwf. revert w done kept Hsc Hso Hsm. induction Hwf as [|x todo Hx _ IH]; intros w done kept Hsc Hso Hsm.
  { rewrite app_nil_r. by exists kept. }
  destruct (scan_step _ _ _ _ _ _ _ _ Hsc Hso Hsm (Hb x ltac:(set_solver)) Hcap Hx) as (kept' & Hsc'). cbn [fold_left fmap list_fmap].
  replace (done ++ x :: todo) with ((done ++ [x]) ++ todo) in * by (by rewrite <- app_assoc).
  apply (IH ltac:(set_solver) _ _ kept'); done.
Qed.

Lemma sorted_cons_inv (x : N * list Needle) segs : StronglySorted N.lt (x :: segs).*1 ->
  StronglySorted N.lt segs.*1 /\ forall y, y ∈ segs -> (x.1 < y.1)%N.
Proof.
  intros [Hs Hx]%StronglySorted_inv. split; [done|]. intros y Hy. rewrite Forall_forall in Hx. apply Hx. by apply (list_elem_of_fmap_2 fst).
Qed.

Lemma names_sorted segs : StronglySorted N.lt segs.*1 -> small segs -> StronglySorted str_le ((fun x => segment_filename x.1) <$> segs).
Proof.
  induction segs as [|x segs IH]; intros Hso Hsm; [constructor|]. apply sorted_cons_inv in Hso as [Hso Hx].
  rewrite fmap_cons. constructor; [apply IH; [done|intros y Hy; apply Hsm; set_solver]|]. rewrite Forall_forall.
  intros name (y & -> & Hy)%list_elem_of_fmap. specialize (Hx y Hy).
  apply filename_le; [lia|]. apply Hsm. set_solver.
Qed.

Lemma names_nodup segs : StronglySorted N.lt segs.*1 -> small segs -> NoDup ((fun x => segment_filename x.1) <$> segs).
Proof.
  induction segs as [|x segs IH]; intros Hso Hsm; [constructor|]. apply sorted_cons_inv in Hso as [Hso Hx].
  rewrite fmap_cons. constructor; [|apply IH; [done|intros y Hy; apply Hsm; set_solver]].
  intros (y & E & Hy)%list_elem_of_fmap. specialize (Hx y Hy).
  apply filename_inj in E; [lia| |]; apply Hsm; set_solver.
Qed.

(** The names in the directory, sorted, are the names of the segments in order. *)
Lemma sorted_names cap dir segs : dir_holds cap dir segs -> StronglySorted N.lt segs.*1 -> small segs ->
  merge_sort str_le (List.filter has_dat_extension (map fst (map_to_list dir))) = (fun x => segment_filename x.1) <$> segs.
Proof.
  intros [Hf Hn] Hso Hsm. apply (StronglySorted_unique str_le).
  - apply Sorted_StronglySorted; [apply _|]. apply Sorted_merge_sort. apply _.
  - by apply names_sorted.
  - rewrite merge_sort_Permutation. apply NoDup_Permutation.
    + apply NoDup_ListNoDup, List.NoDup_filter, NoDup_ListNoDup, NoDup_fst_map_to_list.
    + by apply names_nodup.
    + intros name. rewrite list_elem_of_In, filter_In, <- list_elem_of_In, list_elem_of_fmap. split.
      * intros [([n f] & -> & Hx)%list_elem_of_fmap _]. apply elem_of_map_to_list in Hx. destruct (Hn n ltac:(eauto)) as (x & Hxs & ->). by exists x.
      * intros (x & -> & Hx). split; [|apply filename_dat; by apply Hsm]. destruct (Hf _ Hx) as (f & Hfx & _).
        apply list_elem_of_fmap. exists (segment_filename x.1, f). split; [done|]. by apply elem_of_map_to_list.
Qed.

(** *** The whole restart *)

(** What a crash leaves, or a start finds. *)
Definition disk_ok (cap : nat) (dir : gmap string bytes) (segs : list (N * list Needle)) (bound : N) : Prop :=
  (exists pre, placeholder pre /\ dir_holds cap dir (pre ++ segs)) /\ StronglySorted N.lt segs.*1 /\
  (forall x, x ∈ segs -> (2 <= x.1 < bound)%N) /\ Forall (fun x => storable x.2) (tagged segs) /\ (2 <= bound)%N.

(** What the startup makes of it. *)
Definition recovered (segs : list (N * list Needle)) : gmap PendingKey (bytes * bytes) :=
  snd <$> filter (fun kv => dest kv.1 = false) (replay (tagged segs)).

Lemma crash_disk w segs m : log_inv w segs m -> disk_ok (segment_capacity w) (log_dir w) segs (next_segment_id w).
Proof.
  intros Hl. pose proof (li_ids _ _ _ Hl) as Hids. pose proof (inv_active_id w (li_wal _ _ _ Hl)) as Hai.
  pose proof (li_active_ge _ _ _ Hl). split_and!; [apply (li_dir _ _ _ Hl)|apply (li_sorted _ _ _ Hl)| |apply (li_needles _ _ _ Hl)|lia].
  intros x Hx. pose proof (li_below _ _ _ _ Hl Hx). rewrite Forall_forall in Hids. specialize (Hids _ Hx). cbn in Hids. lia.
Qed.

Lemma tagged_elem segs i n : (i, n) ∈ tagged segs <-> exists x, x ∈ segs /\ x.1 = i /\ n ∈ x.2.
Proof.
  unfold tagged. rewrite list_elem_of_bind. setoid_rewrite list_elem_of_fmap. split.
  - intros (x & (n' & [= -> ->] & Hn) & Hx). by exists x.
  - intros (x & Hx & <- & Hn). exists x. eauto.
Qed.

Lemma storable_segs segs : Forall (fun x => storable x.2) (tagged segs) <-> Forall (fun x => Forall storable x.2) segs.
Proof.
  rewrite !Forall_forall. setoid_rewrite Forall_forall. split.
  - intros Hs x Hx n Hn. apply (Hs (x.1, n)), tagged_elem. eauto.
  - intros Hs [i n] (x & Hx & _ & Hn)%tagged_elem. eauto.
Qed.

Lemma sorted_cons (x : N * list Needle) segs : StronglySorted N.lt segs.*1 -> (forall y, y ∈ segs -> (x.1 < y.1)%N) ->
  StronglySorted N.lt (x :: segs).*1.
Proof.
  intros Hs Hx. rewrite fmap_cons. apply SSorted_cons; [done|]. rewrite Forall_forall. intros i (y & -> & Hy)%list_elem_of_fmap. auto.
Qed.

Lemma sorted_with_low pre segs : placeholder pre -> StronglySorted N.lt segs.*1 -> (forall x, x ∈ segs -> (2 <= x.1)%N) ->
  StronglySorted N.lt (pre ++ (1%N, []) :: segs).*1.
Proof.
  intros Hpre Hso Hge. assert (Hs1 : StronglySorted N.lt ((1%N, []) :: segs).*1).
  { apply sorted_cons; [done|]. intros x Hx. specialize (Hge _ Hx). cbn. lia. }
  destruct Hpre as [->| ->]; [done|]. apply sorted_cons; [done|]. intros x [->|Hx]%elem_of_cons; [done|].
  specialize (Hge _ Hx). cbn. lia.
Qed.

(** The state in which the loop starts. *)
Lemma scan_start cap dir bound a todo : (2 <= bound)%N -> dir_holds cap dir todo ->
  scanning cap dir bound (mkWal dir a [] ∅ ∅ 2 cap) [] todo [].
Proof.
  intros Hb Hd. constructor; cbn [log_dir active sealed pending segment_pending_counts next_segment_id segment_capacity]; try done; try lia.
  - intros k. rewrite lookup_empty. by left.
  - intros s. rewrite lookup_empty. by intros [].
  - intros x Hx. by apply not_elem_of_nil in Hx.
  - intros x Hx. by apply not_elem_of_nil in Hx.
  - intros x Hx. by apply not_elem_of_nil in Hx.
Qed.

(** Reading a recovered entry through the sealed segments. *)
Lemma sealed_read (dir : gmap string bytes) (kept : list (N * list Needle)) w e v f off len : Forall2 (fun x s => sealed_id s = x.1 /\ sealed_path s = segment_filename x.1 /\
    dir !! segment_filename x.1 = Some (sealed_mmap s)) kept (sealed w) ->
  (exists x, x ∈ kept /\ x.1 = we_segment_id e) -> we_segment_id e <> segment_id (active w) ->
  dir !! segment_filename (we_segment_id e) = Some f -> off + len <= length f -> sub_list off len f = v ->
  read_range w (we_segment_id e) off len = Some v.
Proof.
  intros H2f (x & Hx & Hxi) Hne Hf Hle <-. unfold read_range. rewrite bool_decide_eq_false_2 by done. unfold find_sealed.
  destruct (List.find _ (sealed w)) as [s|] eqn:E.
  - apply List.find_some in E as [Hin Hs%bool_decide_eq_true]. apply list_elem_of_In, list_elem_of_lookup in Hin as [i Hi].
    destruct (Forall2_lookup_r _ _ _ _ _ H2f Hi) as (y & Hy & Hsy & _ & Hfy). rewrite <- Hsy, Hs, Hf in Hfy. injection Hfy as Hm.
    cbn. unfold sealed_slice. rewrite <- Hm. by rewrite decide_True.
  - apply list_elem_of_lookup in Hx as [i Hi]. destruct (Forall2_lookup_l _ _ _ _ _ H2f Hi) as (s & Hs & Hsx & _).
    pose proof (List.find_none _ _ E s (proj1 (list_elem_of_In _ _) (list_elem_of_lookup_2 _ _ _ Hs))) as Hb.
    apply bool_decide_eq_false in Hb. congruence.
Qed.

Lemma scanned_represents cap dir bound w done kept a : scanning cap dir bound w done [] kept -> pending a = pending w ->
  sealed a = sealed w -> segment_id (active a) = next_segment_id w -> represents a (recovered done).
Proof.
  intros Hsc Hp Hs Hid k. pose proof (sc_pend _ _ _ _ _ _ _ Hsc k) as Hk. rewrite Hp. unfold recovered. rewrite lookup_fmap.
  destruct (pending w !! k) as [e|].
  - destruct Hk as (Hd & v & f & Hr & Hrk & Hf & Hdb & Ed & Hmb & Em).
    rewrite (map_lookup_filter_Some_2 _ _ k _ Hr) by done. cbn [fmap option_fmap option_map snd]. destruct v as [d mb]. exists e.
    destruct (replay_tag _ _ _ _ Hrk) as (n & Hn). apply tagged_elem in Hn as (x & Hx & Hxi & _).
    assert (Hne : we_segment_id e <> segment_id (active a)).
    { rewrite Hid, <- Hxi. pose proof (sc_below _ _ _ _ _ _ _ Hsc x (elem_of_sublist _ _ _ Hx (sc_sub _ _ _ _ _ _ _ Hsc))). lia. }
    pose proof (sc_sealed _ _ _ _ _ _ _ Hsc) as Hse. rewrite <- Hs in Hse. split; [done|]. unfold read_data, read_meta_bytes.
    split; eapply sealed_read; eauto.
  - replace (filter _ (replay (tagged done)) !! k) with (@None (N * (bytes * bytes))); [done|]. symmetry.
    apply map_lookup_filter_None. destruct Hk as [Hk|Hk]; [by left|]. right. intros x _. cbn. congruence.
Qed.

Lemma sorted_nodup (l : list N) : StronglySorted N.lt l -> NoDup l.
Proof.
  induction l as [|x l IH]; intros Hs; [constructor|]. apply StronglySorted_inv in Hs as [Hs Hx]. constructor; [|auto].
  rewrite Forall_forall in Hx. intros Hin%Hx. lia.
Qed.

(** The log after the loop, with its new active segment. *)
Lemma scanned_inv cap dir bound w done kept a d : scanning cap dir bound w done [] kept ->
  StronglySorted N.lt done.*1 -> (N.of_nat cap < 2 ^ 32)%N -> (bound < 10 ^ 6)%N ->
  holds a [] -> segment_id a = next_segment_id w -> capacity a = cap -> write_offset a = SUPERBLOCK_SIZE ->
  wal_inv (mkWal d a (sealed w) (pending w) (segment_pending_counts w) (as_u32 (next_segment_id w + 1)) (segment_capacity w)).
Proof.
  intros Hsc Hso Hcap Hb Hh Hid Hc Hwo. pose proof (sc_next _ _ _ _ _ _ _ Hsc) as Hn.
  rewrite wrap_small by lia. set (w' := mkWal _ _ _ _ _ _ _).
  pose proof (represents_readable w' _ (scanned_represents _ _ _ _ _ _ w' Hsc eq_refl eq_refl Hid)) as Hrd.
  assert (Hbelow : forall x, x ∈ kept -> (x.1 < next_segment_id w)%N).
  { intros x Hx. apply (sc_below _ _ _ _ _ _ _ Hsc). eapply elem_of_sublist; [done|]. apply (sc_sub _ _ _ _ _ _ _ Hsc). }
  assert (Hcn : forall s, is_Some (segment_pending_counts w !! s) -> (s < next_segment_id w)%N).
  { intros s Hs. apply (sc_counts _ _ _ _ _ _ _ Hsc), list_elem_of_fmap in Hs as (x & -> & Hx). by apply (sc_below _ _ _ _ _ _ _ Hsc). }
  pose proof (sc_sealed _ _ _ _ _ _ _ Hsc) as Hse.
  assert (Hids : map sealed_id (sealed w) = kept.*1).
  { clear -Hse. induction Hse as [|x s ? ? (Hx & _) _ IH]; [done|]. cbn [map]. by rewrite fmap_cons, Hx, IH. }
  constructor; cbn [w' log_dir active sealed pending segment_pending_counts next_segment_id segment_capacity]; try done.
  - by eapply holds_wf.
  - by rewrite Hc, (sc_cap _ _ _ _ _ _ _ Hsc).
  - by rewrite (sc_cap _ _ _ _ _ _ _ Hsc).
  - rewrite Hid. lia.
  - rewrite Forall_forall. intros s Hs. assert (Hsk : sealed_id s ∈ kept.*1).
    { rewrite <- Hids. by apply list_elem_of_fmap_2. }
    apply list_elem_of_fmap in Hsk as (x & -> & Hx). specialize (Hbelow _ Hx). rewrite Hid. lia.
  - rewrite Hids. apply sorted_nodup. eapply sublist_sorted; [apply fmap_sublist, (sc_sub _ _ _ _ _ _ _ Hsc)|done].
  - apply (sc_loads _ _ _ _ _ _ _ Hsc).
  - intros s c Hs. specialize (Hcn s ltac:(eauto)). lia.
  - rewrite Hid, Hwo. destruct (segment_pending_counts w !! next_segment_id w) eqn:E; [|done].
    specialize (Hcn _ ltac:(eauto)). lia.
Qed.

Lemma tagged_low pre segs : placeholder pre -> tagged (pre ++ (1%N, []) :: segs) = tagged segs.
Proof. by intros [->| ->]. Qed.

(** The kept segments and the new active one make a good log again. *)
Lemma finish_log cap dir bound w pre segs kept now : let all := pre ++ (1%N, []) :: segs in
  placeholder pre -> scanning cap dir bound w all [] kept -> StronglySorted N.lt all.*1 ->
  (forall x, x ∈ segs -> (2 <= x.1)%N) -> Forall (fun x => storable x.2) (tagged segs) -> SUPERBLOCK_SIZE <= cap ->
  (N.of_nat cap < 2 ^ 32)%N -> (bound < 10 ^ 6)%N ->
  exists a d, create_in (log_dir w) (next_segment_id w) cap now = Some (a, d) /\
    log_inv (mkWal d a (sealed w) (pending w) (segment_pending_counts w) (as_u32 (next_segment_id w + 1)) (segment_capacity w))
      (kept ++ [(next_segment_id w, [])]) (recovered segs) /\ needles (kept ++ [(next_segment_id w, [])]) ⊆ needles segs.
Proof.
  intros all Hpre Hsc Hso Hge Hst Hcap Hcap32 Hb. pose proof (sc_next _ _ _ _ _ _ _ Hsc) as Hn. pose proof (sc_sub _ _ _ _ _ _ _ Hsc) as Hsub.
  pose proof (sc_dir _ _ _ _ _ _ _ Hsc) as Hdir. rewrite app_nil_r in Hdir.
  assert (Hbel : forall x, x ∈ kept -> (x.1 < next_segment_id w)%N).
  { intros x Hx. apply (sc_below _ _ _ _ _ _ _ Hsc). by eapply elem_of_sublist. }
  assert (Hk2 : forall x, x ∈ kept -> x ∈ segs).
  { intros x Hx. pose proof (sc_nonempty _ _ _ _ _ _ _ Hsc x Hx) as Hx2. eapply elem_of_sublist in Hx; [|exact Hsub].
    apply elem_of_app in Hx as [Hx|[->|Hx]%elem_of_cons]; [|done|done]. by rewrite (placeholder_elem _ _ Hpre Hx) in Hx2. }
  destruct (dir_create cap (log_dir w) kept (kept ++ [(next_segment_id w, [])]) (next_segment_id w) now)
    as (a & d & E & Hh & Hid & Hc & Hwo & Hpa & _ & Hd); [|lia|done| | |done|].
  { intros x Hx. specialize (Hbel _ Hx). lia. }
  { intros ns Hx. specialize (Hbel _ Hx). cbn in Hbel. lia. }
  { intros x. rewrite elem_of_app, list_elem_of_singleton. split; [|tauto]. intros [Hx|Hx]; [|by left]. right.
    specialize (Hbel _ Hx). split; [done|lia]. }
  exists a, d. split; [done|]. pose proof (scanned_inv _ _ _ _ _ _ a d Hsc Hso Hcap32 Hb Hh Hid Hc Hwo) as Hi.
  set (w' := mkWal _ _ _ _ _ _ _) in *. pose proof (scanned_represents _ _ _ _ _ _ w' Hsc eq_refl eq_refl Hid) as Hm.
  assert (Hrec : recovered all = recovered segs) by (unfold recovered, all; by rewrite tagged_low). rewrite Hrec in Hm.
  assert (Htag : tagged (kept ++ [(next_segment_id w, [])]) = tagged kept) by (by rewrite tagged_app, app_nil_r).
  split; [|rewrite needles_app, app_nil_r; by apply needles_mono].
  constructor; cbn [w' log_dir active sealed pending segment_pending_counts next_segment_id segment_capacity]; rewrite ?Htag, ?Hid; try done.
  - exists []. split; [by left|]. by rewrite (sc_cap _ _ _ _ _ _ _ Hsc).
  - rewrite fmap_app. apply StronglySorted_app. split_and!; [|by eapply sublist_sorted; [apply fmap_sublist|]|repeat constructor].
    intros i j (x & -> & Hx)%list_elem_of_fmap ->%list_elem_of_singleton. cbn. by apply Hbel.
  - apply Forall_app. split; [|constructor; [cbn; lia|constructor]]. apply Forall_forall. auto.
  - by exists kept, [].
  - rewrite wrap_small by lia. lia.
  - pose proof (sc_sealed _ _ _ _ _ _ _ Hsc) as Hse. clear -Hse. induction Hse as [|x s ? ? (Ei & Ep & _) _ IH]; constructor; [congruence|done].
  - rewrite storable_segs in Hst |- *. rewrite Forall_forall in *. auto.
  - intros k e v Hk Hv. specialize (Hm k). rewrite Hv in Hm. pose proof (sc_pend _ _ _ _ _ _ _ Hsc k) as Hp. rewrite Hk in Hp.
    destruct Hp as (Hde & v' & f & Hr & Hrk & _). rewrite Hrk. do 2 f_equal.
    unfold all in Hr. rewrite tagged_low in Hr by done. unfold recovered in Hv. rewrite lookup_fmap in Hv.
    rewrite (map_lookup_filter_Some_2 _ _ k _ Hr) in Hv by done. by injection Hv.
Qed.

Lemma reopen_log cap dir segs bound now : disk_ok cap dir segs bound -> SUPERBLOCK_SIZE <= cap -> (N.of_nat cap < 2 ^ 32)%N -> (bound < 10 ^ 6)%N ->
  exists w segs', wal_open dir cap is_file root now = Some w /\ log_inv w segs' (recovered segs) /\ needles segs' ⊆ needles segs /\
    segment_capacity w = cap /\ (next_segment_id w <= bound + 1)%N.
Proof.
  intros ((pre & Hpre & Hdir) & Hso & Hids & Hst & Hb2) Hcap Hcap32 Hb. unfold wal_open.
  set (all := pre ++ (1%N, []) :: segs).
  assert (Hlow : forall x, x ∈ all -> (x.1 < bound)%N).
  { intros x [Hx|[->|Hx]%elem_of_cons]%elem_of_app; [rewrite (placeholder_elem _ _ Hpre Hx); cbn; lia|cbn; lia|apply Hids in Hx; lia]. }
  assert (Hall : forall x, x ∈ pre ++ segs -> (x.1 < bound)%N /\ x.1 <> 1%N).
  { intros x [Hx|Hx]%elem_of_app; [rewrite (placeholder_elem _ _ Hpre Hx); cbn; lia|apply Hids in Hx; lia]. }
  destruct (dir_create cap dir (pre ++ segs) all 1 now) as (a1 & d1 & -> & _ & _ & _ & _ & _ & _ & Hd1); try done.
  { intros x Hx. apply Hall in Hx. lia. }
  { intros ns Hx. apply Hall in Hx. by destruct Hx. }
  { intros x. unfold all. rewrite !elem_of_app, elem_of_cons. split; [intros [Hx|[->|Hx]]|tauto].
    - right. split; [tauto|]. apply Hall. set_solver.
    - by left.
    - right. split; [tauto|]. apply Hall. set_solver. }
  assert (Hsall : StronglySorted N.lt all.*1) by (apply sorted_with_low; [done|done|]; intros x Hx; apply Hids in Hx; lia).
  assert (Hsm : small all) by (intros x Hx; apply Hlow in Hx; lia).
  assert (Hsa : Forall (fun x => Forall storable x.2) all) by (apply storable_segs; unfold all; by rewrite tagged_low).
  cbn [mbind option_bind fst snd log_dir]. rewrite (sorted_names cap d1 all Hd1 Hsall Hsm).
  destruct (scan_loop_ok cap d1 bound _ [] all [] (scan_start cap d1 bound a1 all Hb2 Hd1)) as (kept & Hsc); try done.
  cbn [app] in Hsc. set (w := fold_left _ _ _) in *. clearbody w.
  destruct (finish_log cap d1 bound w pre segs kept now Hpre Hsc Hsall) as (a & d & -> & Hl & Hsub); try done.
  { intros x Hx. apply Hids in Hx. lia. }
  cbn [mbind option_bind fst snd]. eexists _, _. split; [done|]. split; [exact Hl|]. split; [exact Hsub|]. cbn.
  pose proof (sc_next _ _ _ _ _ _ _ Hsc). rewrite wrap_small by lia. split; [apply (sc_cap _ _ _ _ _ _ _ Hsc)|lia].
Qed.

End Recovery.

(** ** Runs with crashes *)

Section Runs.
  Context `{Hashes} `{!HashesOk} `{MetaCodec} `{UuidParser} (root : Path).

(** A write, the worker's two actions (the file is written, then the entry is marked), and a
    crash followed by a restart that finds the files [is_file]. *)
Inductive LogOp : Type :=
  | RAppend (n : Needle) (now : N)
  | RWritten (k : PendingKey)
  | RMark (k : PendingKey)
  | RCrash (is_file : Path -> bool) (now : N).

Definition log_op (w : Wal) (op : LogOp) : option Wal :=
  match op with
  | RAppend n now => r ← wal_append w n now; Some r.1
  | RWritten _ => Some w
  | RMark (b, k, v) => Some (mark_materialized_versioned w b k v)
  | RCrash is_file now => wal_open (log_dir w) (segment_capacity w) is_file root now
  end.

Fixpoint log_ops (w : Wal) (ops : list LogOp) : option Wal :=
  match ops with
  | [] => Some w
  | op :: ops => w ← log_op w op; log_ops w ops
  end.

(** The specification: the pending objects, and the keys whose files are there. *)
Definition LogSpec : Type := gmap PendingKey (bytes * bytes) * gset PendingKey.

Definition spec_log_op (cap : nat) (st : LogSpec) (op : LogOp) : LogSpec :=
  match op with
  | RAppend n now => (spec_op cap st.1 (OpAppend n now), st.2)
  | RWritten k => (st.1, {[k]} ∪ st.2)
  | RMark k => (delete k st.1, st.2)
  | RCrash _ _ => (filter (fun kv => kv.1 ∉ st.2) st.1, st.2)
  end.

(** A key is appended while it has no file, an entry is marked after its file is written, and a
    restart sees the files that are there. *)
Definition op_allowed (st : LogSpec) (op : LogOp) : Prop :=
  match op with
  | RAppend n _ => storable n /\ needle_key n ∉ st.2
  | RWritten k => True
  | RMark k => k ∈ st.2
  | RCrash is_file _ => set_Forall (fun k => dest is_file root k = bool_decide (k ∈ st.2)) (dom st.1 ∪ st.2)
  end.

Fixpoint ops_allowed (cap : nat) (st : LogSpec) (ops : list LogOp) : Prop :=
  match ops with
  | [] => True
  | op :: ops => op_allowed st op /\ ops_allowed cap (spec_log_op cap st op) ops
  end.

(** Every needle in the files is pending or has its file. *)
Definition accounted (segs : list (N * list Needle)) (st : LogSpec) : Prop :=
  forall n, n ∈ needles segs -> is_Some (st.1 !! needle_key n) \/ needle_key n ∈ st.2.

Lemma replay_key l k i v : replay l !! k = Some (i, v) -> exists n, (i, n) ∈ l /\ needle_key n = k.
Proof.
  induction l as [|[j n] l IH] using rev_ind; [done|]. rewrite replay_snoc. intros Hk. destruct (decide (k = needle_key n)) as [->|Hne].
  - rewrite lookup_insert_eq in Hk. injection Hk as -> _. exists n. set_solver.
  - rewrite lookup_insert_ne in Hk by done. destruct (IH Hk) as (n' & Hn & Hkey). exists n'. set_solver.
Qed.

(** A restart recovers the pending objects without a file. *)
Lemma recovered_filter is_file w segs m (P : PendingKey -> Prop) `{!forall k, Decision (P k)} : log_inv w segs m ->
  (forall n, n ∈ needles segs -> is_Some (m !! needle_key n) \/ ~ P (needle_key n)) ->
  (forall k, is_Some (m !! k) \/ ~ P k -> dest is_file root k = false <-> P k) ->
  recovered is_file root segs = filter (fun kv => P kv.1) m.
Proof.
  intros Hl Hacc Hd. apply map_eq. intros k. unfold recovered. rewrite lookup_fmap. destruct (decide (P k)) as [Hk|Hk].
  - destruct (m !! k) as [v|] eqn:Em.
    + pose proof (li_rep _ _ _ Hl k) as Hr. rewrite Em in Hr. destruct v as [d mb]. destruct Hr as (e & He & _).
      pose proof (li_newest _ _ _ Hl _ _ _ He Em) as Hnew.
      rewrite (map_lookup_filter_Some_2 _ _ k _ Hnew) by (apply Hd; eauto). by rewrite (map_lookup_filter_Some_2 _ m k _ Em).
    + rewrite (proj2 (map_lookup_filter_None _ m k)) by (by left). destruct (replay (tagged segs) !! k) as [[i v]|] eqn:Er.
      * destruct (replay_key _ _ _ _ Er) as (n & Hn & Hkey). apply tagged_elem in Hn as (x & Hx & _ & Hnx).
        destruct (Hacc n) as [[? Hs]|Hs]; [apply list_elem_of_bind; eauto|rewrite Hkey in Hs; congruence|].
        rewrite Hkey in Hs. done.
      * by rewrite (proj2 (map_lookup_filter_None _ (replay (tagged segs)) k)) by (by left).
  - rewrite (proj2 (map_lookup_filter_None _ m k)) by (right; cbn; intros ? _ Hn; done).
    rewrite (proj2 (map_lookup_filter_None _ (replay (tagged segs)) k)); [done|]. right. intros x _. cbn. rewrite (Hd k) by auto. done.
Qed.

Lemma recovered_exact w segs m F is_file : log_inv w segs m -> accounted segs (m, F) ->
  set_Forall (fun k => dest is_file root k = bool_decide (k ∈ F)) (dom m ∪ F) ->
  recovered is_file root segs = filter (fun kv => kv.1 ∉ F) m.
Proof.
  intros Hl Hacc Hd. refine (recovered_filter is_file w segs m (fun k => k ∉ F) Hl _ _).
  - intros n Hn. destruct (Hacc n Hn) as [Hs|Hs]; [by left|right; cbn in Hs; tauto].
  - intros k Hk. rewrite (Hd k); [by rewrite bool_decide_eq_false|]. destruct Hk as [[x Hk]|Hk].
    + apply elem_of_union_l. by apply elem_of_dom_2 in Hk.
    + apply elem_of_union_r. destruct (decide (k ∈ F)); tauto.
Qed.

Lemma log_op_ok w segs st op : log_inv w segs st.1 -> accounted segs st -> op_allowed st op -> (next_segment_id w + 1 < 10 ^ 6)%N ->
  exists w' segs', log_op w op = Some w' /\ log_inv w' segs' (spec_log_op (segment_capacity w) st op).1 /\
    accounted segs' (spec_log_op (segment_capacity w) st op) /\ segment_capacity w' = segment_capacity w /\
    (next_segment_id w' <= next_segment_id w + 1)%N.
Proof.
  intros Hl Hacc Hop Hn. destruct st as [m F]. destruct op as [n now|k|[[b k] v]|is_file now]; cbn [log_op spec_log_op fst snd].
  - destruct Hop as [[Hwf Hfl] Hkey]. destruct (wal_append_log w segs m n now Hl Hwf Hfl ltac:(lia)) as (w' & r & segs' & -> & Hc & Hn' & Hl' & Hsub).
    cbn [mbind option_bind fst snd]. exists w', segs'. split_and!; try done. intros n' Hn'1. apply Hsub in Hn'1. unfold spec_op. cbn [fst snd]. case_decide; [|by apply Hacc].
    apply elem_of_cons in Hn'1 as [->|Hold]; [left; rewrite lookup_insert_eq; eauto|].
    destruct (Hacc _ Hold) as [Hs|Hs]; [left|by right]. cbn in Hs. by apply lookup_insert_is_Some'; right.
  - exists w, segs. split_and!; try done; [|lia]. intros n Hin. destruct (Hacc n Hin); [by left|right; set_solver].
  - destruct (mark_log w segs m b k v Hl) as (segs' & Hl' & Hsub). eexists _, segs'. split; [done|].
    destruct (mark_materialized_next w b k v) as (_ & -> & ->). split_and!; try done; [|lia]. intros n Hin. cbn [fst snd].
    destruct (decide (needle_key n = (b, k, v))) as [->|Hne]; [by right|]. rewrite lookup_delete_ne by done. by apply Hacc, Hsub.
  - pose proof (wal_inv_capacity _ (li_wal _ _ _ Hl)) as Hcap. pose proof (inv_width _ (li_wal _ _ _ Hl)) as Hw32.
    destruct (reopen_log is_file root _ _ _ _ now (crash_disk _ _ _ Hl) Hcap Hw32 ltac:(lia)) as (w' & segs' & -> & Hl' & Hsub & Hc & Hn').
    rewrite (recovered_exact _ _ _ F is_file Hl Hacc Hop) in Hl'. exists w', segs'. split_and!; try done.
    intros n Hin. cbn [fst snd]. apply Hsub in Hin. destruct (decide (needle_key n ∈ F)); [by right|]. left.
    destruct (Hacc n Hin) as [[x Hx]|]; [|done]. exists x. by apply map_lookup_filter_Some_2.
Qed.

Lemma log_ops_ok w segs st ops : log_inv w segs st.1 -> accounted segs st -> ops_allowed (segment_capacity w) st ops ->
  (next_segment_id w + N.of_nat (length ops) < 10 ^ 6)%N ->
  exists w', log_ops w ops = Some w' /\ represents w' (fold_left (spec_log_op (segment_capacity w)) ops st).1.
Proof.
  revert w segs st. induction ops as [|op ops IH]; intros w segs st Hl Hacc Hops Hn.
  { exists w. split; [done|]. apply (li_rep _ _ _ Hl). }
  cbn [length] in Hn. destruct Hops as [Hop Hops].
  destruct (log_op_ok w segs st op Hl Hacc Hop ltac:(lia)) as (w1 & segs1 & Hrun & Hl1 & Hacc1 & Hc1 & Hn1).
  cbn [log_ops fold_left]. rewrite Hrun. cbn [mbind option_bind]. rewrite <- Hc1 in *. apply (IH w1 segs1); [done..|lia].
Qed.

(** When no pending object has its file and every other needle has, nothing is lost or added. *)
Lemma recovered_all is_file w segs m : log_inv w segs m ->
  (forall n, n ∈ needles segs -> is_Some (m !! needle_key n) \/ dest is_file root (needle_key n) = true) ->
  (forall k, is_Some (m !! k) -> dest is_file root k = false) -> recovered is_file root segs = m.
Proof.
  intros Hl Hacc Hp. rewrite (recovered_filter is_file w segs m (fun k => dest is_file root k = false) Hl).
  - apply map_filter_id. intros k x Hx. cbn. apply Hp. eauto.
  - intros n Hn. destruct (Hacc n Hn) as [Hs|Hs]; [by left|right; congruence].
  - done.
Qed.

(** C8: Acknowledged writes survive crashes.  Take any run of a new log that mixes writes, the
    workers' two actions (the file is written, then the entry is marked) and restarts after a
    crash, in which no object is written over its own materialized file and fewer than a million
    segments are used.  No step panics, and the log holds exactly what the specification says:
    the appended objects, with the bytes last appended, less those marked, and after a restart
    less those whose file is there.  So every acknowledged object is at any time pending in the
    log or in its file, through any number of crashes, and no other object comes back. *)
Theorem log_survives_crashes cap is_file now ops : SUPERBLOCK_SIZE <= cap -> (N.of_nat cap < 2 ^ 32)%N ->
  ops_allowed cap (∅, ∅) ops -> (3 + N.of_nat (length ops) < 10 ^ 6)%N ->
  exists w w', wal_open ∅ cap is_file root now = Some w /\ log_ops w ops = Some w' /\
    represents w' (fold_left (spec_log_op cap) ops (∅, ∅)).1.
Proof.
  intros Hcap Hcap32 Hops Hn.
  assert (Hd : disk_ok cap ∅ [] 2).
  { split_and!; [|constructor|set_solver|constructor|done]. exists []. split; [by left|]. split; [set_solver|].
    intros name. rewrite lookup_empty. by intros []. }
  destruct (reopen_log is_file root cap ∅ [] 2 now Hd Hcap Hcap32 ltac:(lia)) as (w & segs & Hw & Hl & Hsub & <- & Hnx).
  destruct (log_ops_ok w segs (∅, ∅) ops) as (w' & Hw' & Hm); [|by intros n Hin%Hsub; set_solver|done|lia|by exists w, w'].
  exact Hl.
Qed.

End Runs.

(** *** A concrete run *)

Definition ex_files (ks : list PendingKey) (p : Path) : bool :=
  existsb (fun k : PendingKey => let '(b, k, v) := k in
    match (if bool_decide (v = "") then object_shard_path ex_root b k else @version_shard_path ex_uuid ex_root b k v) with
    | Ok q => bool_decide (p = q) | Err _ => false end) ks.

Definition ex_cat : PendingKey := needle_key ex_needle.

(** Two writes, a crash, one of them materialized, another crash. *)
Definition ex_crash_run : list LogOp :=
  [RAppend ex_needle 5; RAppend ex_needle2 6; RCrash (ex_files []) 7; RWritten ex_cat; RMark ex_cat;
   RCrash (ex_files [ex_cat]) 8; RAppend ex_needle2 9; RCrash (ex_files [ex_cat]) 10].

Lemma ex_storable : storable ex_needle /\ storable ex_needle2.
Proof. split; (split; [apply ex_needle_wf || apply ex_needle2_wf|done]). Qed.

Lemma ex_crash_allowed : @ops_allowed ex_uuid ex_root 150 (∅, ∅) ex_crash_run.
Proof.
  destruct ex_storable as [S1 S2]. unfold ex_crash_run. cbn [ops_allowed op_allowed].
  split_and!; try exact I; try exact S1; try exact S2; by_decide.
Qed.

Lemma ex_crash_spec : (fold_left (spec_log_op 150) ex_crash_run (∅, ∅)).1 =
  {[needle_key ex_needle2 := (n_data ex_needle2, n_meta_bytes ex_needle2)]}.
Proof. by_decide. Qed.

Lemma log_survives_crashes_witness :
  exists w w', @wal_open example_hashes ex_codec ex_uuid ∅ 150 (ex_files []) ex_root 1 = Some w /\
    @log_ops example_hashes ex_codec ex_uuid ex_root w ex_crash_run = Some w' /\
    represents w' {[needle_key ex_needle2 := (n_data ex_needle2, n_meta_bytes ex_needle2)]}.
Proof.
  destruct (@log_survives_crashes example_hashes example_hashes_ok ex_codec ex_uuid ex_root 150 (ex_files []) 1 ex_crash_run
    ltac:(unfold SUPERBLOCK_SIZE; lia) ltac:(vm_compute; reflexivity) ex_crash_allowed ltac:(vm_compute; reflexivity))
    as (w & w' & Hw & Hr & Hm).
  rewrite ex_crash_spec in Hm. exact (ex_intro _ w (ex_intro _ w' (conj Hw (conj Hr Hm)))).
Defined.

(** *** What comes back that should not *)

(** A log whose segments take both needles. *)
Definition ex_big_wal : Wal :=
  default (mkWal ∅ ex_seg0 [] ∅ ∅ 0 0)
    (@wal_open example_hashes ex_codec ex_uuid ∅ 300 (fun _ => false) ex_root 1700000000).

(** A materialized object that is deleted comes back: the deletion writes no tombstone, so as long
    as another pending object keeps the segment file, a restart finds the needle, sees no file at
    its destination and serves the object again. *)
Theorem deleted_object_recovered :
  exists w, @log_ops example_hashes ex_codec ex_uuid ex_root ex_big_wal
      [RAppend ex_needle 5; RAppend ex_needle2 6; RWritten ex_cat; RMark ex_cat; RCrash (ex_files []) 7] = Some w /\
    is_Some (pending w !! ex_cat).
Proof. eexists. split; [vm_compute; reflexivity|]. vm_compute. eauto. Qed.

(** The names sort by their digits, so the millionth segment is read before the older ones, and an
    overwrite in it is undone at the restart. *)
Theorem millionth_segment_sorts_first : String.compare (segment_filename 1000000) (segment_filename 999999) = Lt.
Proof. vm_compute. reflexivity. Qed.
