(* ===== verification/Materialize.v ===== *)
(** The background materialize workers of the write-ahead log
    ([src/storage/wal.rs], second half) and the small-object branch of
    [LocalVolume::write_shard] that feeds them.

    A volume's files are a map from paths to contents; a directory exists when a
    file lies below it.  The workers, their channels and the log form one state,
    and [mat_step] is one atomic action of it: a PUT, one worker turning a
    request into files, one worker marking its request done.  Any schedule of
    puts and of the workers is a list of labels.  The lock on the log makes each
    of its operations atomic; [process_materialize] is one action because its
    only access to shared memory is the read at its start. *)

From Stdlib Require Import Ascii.
From stdpp Require Import base list gmap strings numbers.
From S2P Require Import Prelude Metadata Needle Segment Pathing Wal.

Abbreviation Files := (gmap Path bytes).

(** serde_json and simd-json on [ObjectMetaFile]. *)
Class MetaFileCodec : Type := {
  json_to_vec : ObjectMetaFile -> option bytes;
  json_from_slice : bytes -> option ObjectMetaFile;
}.

Class MetaFileCodecOk `{MetaFileCodec} : Prop :=
  json_roundtrip : forall m b, json_to_vec m = Some b -> json_from_slice b = Some m.

(** ** Files *)

Definition is_dir (fs : Files) (p : Path) : bool :=
  existsb (fun e : Path * bytes =>
             path_starts_with e.1 p && negb (bool_decide (e.1 = p))) (map_to_list fs).

(** [create_dir_all]: fails when a component of the path is a file. *)
Definition create_dir_all (fs : Files) (d : Path) : Result unit :=
  if existsb (fun i => bool_decide (is_Some (fs !! take i d))) (seq 1 (length d))
  then Err (Io "not a directory") else Ok tt.

(** [tokio::fs::write]: fails when the path is a directory. *)
Definition fs_write (p : Path) (data : bytes) (fs : Files) : Files * Result unit :=
  if is_dir fs p then (fs, Err (Io "is a directory")) else (<[p := data]> fs, Ok tt).

Definition read_meta_file `{MetaFileCodec} (fs : Files) (p : Path) : Result ObjectMetaFile :=
  data ← ok_or (fs !! p) (Io "not found");
  ok_or (json_from_slice data) (Io "invalid data").

Section Defs.
  Context `{Hashes} `{MetaCodec} `{UuidParser} `{MetaFileCodec}.

(** ** [process_materialize] *)

(** Both writes of the [try_join!] are started before either is awaited. *)
Definition write_both (p1 : Path) (b1 : bytes) (p2 : Path) (b2 : bytes) (fs : Files)
    : Files * Result unit :=
  let r1 := fs_write p1 b1 fs in
  let r2 := fs_write p2 b2 r1.1 in
  (r2.1, _ ← r1.2; r2.2).

Definition materialize_unversioned (root : Path) (fs : Files) (b k : string)
    (data : bytes) (version : ObjectMeta) : Files * Result unit :=
  let mf := {| mf_bucket := b; mf_key := k; versions := [version] |} in
  match meta_json ← ok_or (json_to_vec mf) (Internal "simd_json");
        dest_dir ← object_dir root b k;
        _ ← create_dir_all fs dest_dir;
        Ok (meta_json, dest_dir) with
  | Err e => (fs, Err e)
  | Ok (meta_json, dest_dir) =>
      write_both (push dest_dir "shard.dat") data (push dest_dir "meta.json") meta_json fs
  end.

(** Put [version] first among the versions of a metadata file. *)
Definition merge_version (b k vid : string) (version : ObjectMeta) (mf : ObjectMetaFile)
    : ObjectMetaFile :=
  {| mf_bucket := if bool_decide (mf_bucket mf = "") then b else mf_bucket mf;
     mf_key := if bool_decide (mf_key mf = "") then k else mf_key mf;
     versions := version :: map (set_is_latest false)
       (List.filter (fun v => negb (bool_decide (version_id v = vid))) (versions mf)) |}.

Definition materialize_versioned (root : Path) (fs : Files) (b k vid : string)
    (data : bytes) (version : ObjectMeta) : Files * Result unit :=
  match ver_dir ← version_dir root b k vid;
        _ ← create_dir_all fs ver_dir;
        version_shard_path root b k vid with
  | Err e => (fs, Err e)
  | Ok shard_dest =>
      let r := fs_write shard_dest data fs in
      match _ ← r.2; object_meta_path root b k with
      | Err e => (r.1, Err e)
      | Ok meta_path =>
          let mf := match read_meta_file r.1 meta_path with
                    | Ok mf => mf
                    | Err _ => {| mf_bucket := b; mf_key := k; versions := [] |}
                    end in
          match json_to_vec (merge_version b k vid version mf) with
          | None => (r.1, Err (Internal "simd_json"))
          | Some meta_json => fs_write meta_path meta_json r.1
          end
      end
  end.

Definition process_materialize (root : Path) (w : Wal) (fs : Files) (req : MaterializeRequest)
    : Files * Result unit :=
  match data ← ok_or (read_data w (req_entry req)) (Internal "WAL segment data missing");
        meta ← read_meta w (req_entry req);
        Ok (data, meta) with
  | Err e => (fs, Err e)
  | Ok (data, meta) =>
      let version := set_is_latest true meta in
      if bool_decide (req_version_id req = "")
      then materialize_unversioned root fs (req_bucket req) (req_key req) data version
      else materialize_versioned root fs (req_bucket req) (req_key req) (req_version_id req) data
             (set_version_id (req_version_id req) version)
  end.

(** ** Workers and their channels *)

Record Worker : Type := mkWorker {
  w_queue : list MaterializeRequest;
  (** a request whose files are written and which is not marked yet *)
  w_busy : option MaterializeRequest;
}.

(** [MaterializeDispatch]: the senders are the workers' queues. *)
Record MatState : Type := mkMatState {
  mat_wal : Wal;
  mat_files : Files;
  mat_workers : list Worker;
  mat_next : N;
}.

(** [MaterializeDispatch::try_send] on channels of [chan_cap] slots; a request
    that does not fit is dropped. *)
Definition try_send (chan_cap : nat) (st : MatState) (req : MaterializeRequest) : option MatState :=
  let n := length (mat_workers st) in
  if bool_decide (n = 0) then None
  else
    let idx := N.to_nat (mat_next st mod N.of_nat n) in
    wk ← mat_workers st !! idx;
    Some {| mat_wal := mat_wal st; mat_files := mat_files st;
            mat_workers := if bool_decide (length (w_queue wk) < chan_cap)
              then <[idx := {| w_queue := w_queue wk ++ [req]; w_busy := w_busy wk |}]>
                     (mat_workers st)
              else mat_workers st;
            mat_next := as_u64 (mat_next st + 1) |}.

(** [LocalVolume::write_shard] for data within the log's threshold. *)
Definition write_shard_wal (chan_cap : nat) (st : MatState) (b k : string) (data : bytes)
    (meta : ObjectMeta) (now : N) : option (MatState * Result unit) :=
  let vid := if bool_decide (version_id meta = "") then None else Some (version_id meta) in
  match _ ← validate_bucket_name b; _ ← validate_object_key k;
        needle_new b k vid meta data with
  | Err e => Some (st, Err e)
  | Ok needle =>
      r ← wal_append (mat_wal st) needle now;
      let st := {| mat_wal := r.1; mat_files := mat_files st; mat_workers := mat_workers st;
                   mat_next := mat_next st |} in
      match r.2 with
      | Err e => Some (st, Err e)
      | Ok entry =>
          st ← try_send chan_cap st (mkMaterializeRequest b k (default "" vid) entry);
          Some (st, Ok tt)
      end
  end.

Inductive mat_label : Type :=
  | LPut (b k : string) (data : bytes) (meta : ObjectMeta) (now : N)
  | LProcess (i : nat)
  | LMark (i : nat).

(** The loop body of [run_materialize_worker], at the grain of its two accesses
    to shared state.  A failed request is logged and forgotten. *)
Definition worker_process (root : Path) (st : MatState) (i : nat) : option MatState :=
  wk ← mat_workers st !! i;
  match w_busy wk, w_queue wk with
  | None, req :: q =>
      let r := process_materialize root (mat_wal st) (mat_files st) req in
      Some {| mat_wal := mat_wal st; mat_files := r.1;
              mat_workers := <[i := {| w_queue := q;
                 w_busy := if is_ok r.2 then Some req else None |}]> (mat_workers st);
              mat_next := mat_next st |}
  | _, _ => None
  end.

Definition worker_mark (st : MatState) (i : nat) : option MatState :=
  wk ← mat_workers st !! i;
  req ← w_busy wk;
  Some {| mat_wal := mark_materialized_versioned (mat_wal st) (req_bucket req) (req_key req)
                       (req_version_id req);
          mat_files := mat_files st;
          mat_workers := <[i := {| w_queue := w_queue wk; w_busy := None |}]> (mat_workers st);
          mat_next := mat_next st |}.

Definition mat_step (chan_cap : nat) (root : Path) (st : MatState) (l : mat_label)
    : option MatState :=
  match l with
  | LPut b k data meta now => r ← write_shard_wal chan_cap st b k data meta now; Some r.1
  | LProcess i => worker_process root st i
  | LMark i => worker_mark st i
  end.

Fixpoint mat_run (chan_cap : nat) (root : Path) (st : MatState) (ls : list mat_label)
    : option MatState :=
  match ls with
  | [] => Some st
  | l :: ls => st ← mat_step chan_cap root st l; mat_run chan_cap root st ls
  end.

(** A read of an unversioned object: the log first, then the file tier. *)
Definition read_object (root : Path) (w : Wal) (fs : Files) (b k : string) : option bytes :=
  match get w b k with
  | Some e => read_data w e
  | None => match object_shard_path root b k with Ok p => fs !! p | Err _ => None end
  end.

(** [recover_wal]: every pending entry is sent, and [send] waits for room, so
    the channels are unbounded here. *)
Definition send (st : MatState) (req : MaterializeRequest) : option MatState :=
  let n := length (mat_workers st) in
  if bool_decide (n = 0) then None
  else
    let idx := N.to_nat (mat_next st mod N.of_nat n) in
    wk ← mat_workers st !! idx;
    Some {| mat_wal := mat_wal st; mat_files := mat_files st;
            mat_workers := <[idx := {| w_queue := w_queue wk ++ [req]; w_busy := w_busy wk |}]>
                             (mat_workers st);
            mat_next := as_u64 (mat_next st + 1) |}.

Fixpoint send_all (st : MatState) (reqs : list MaterializeRequest) : option MatState :=
  match reqs with
  | [] => Some st
  | r :: reqs => st ← send st r; send_all st reqs
  end.

Definition recover_wal (st : MatState) : option (MatState * N) :=
  let requests := drain_recovery_requests (mat_wal st) in
  let count := as_u32 (N.of_nat (length requests)) in
  st ← send_all st requests;
  Some (st, count).

End Defs.

(** ** Lemmas *)

Lemma fs_write_ne p q data fs : q <> p -> (fs_write p data fs).1 !! q = fs !! q.
Proof. intros Hne. unfold fs_write. case_match; cbn [fst]; [done|]. by rewrite lookup_insert_ne. Qed.

Lemma fs_write_Ok p data fs : (fs_write p data fs).2 = Ok tt -> (fs_write p data fs).1 = <[p := data]> fs.
Proof. unfold fs_write. by case_match. Qed.

Lemma good_file_names : good_part "shard.dat" /\ good_part "meta.json".
Proof. split; by_decide. Qed.

Lemma push_file_inj d d' f f' :
  good_part f -> good_part f' -> push d f = push d' f' -> d = d' /\ f = f'.
Proof.
  intros Hf Hf'. rewrite !push_good by done. intros E.
  apply app_inj_tail in E as [-> [= ->]]. done.
Qed.

Section Lemmas.
  Context `{Hashes} `{MetaCodec} `{UuidParser} `{MetaFileCodec}.

Lemma write_both_ne p1 b1 p2 b2 fs q :
  q <> p1 -> q <> p2 -> (write_both p1 b1 p2 b2 fs).1 !! q = fs !! q.
Proof. intros. unfold write_both. cbn [fst]. by rewrite !fs_write_ne. Qed.

Lemma write_both_Ok p1 b1 p2 b2 fs :
  (write_both p1 b1 p2 b2 fs).2 = Ok tt ->
  (write_both p1 b1 p2 b2 fs).1 = <[p2 := b2]> (<[p1 := b1]> fs).
Proof.
  unfold write_both. cbn [fst snd]. intros ([] & Hw1 & Hw2)%result_bind_Ok.
  by rewrite (fs_write_Ok _ _ _ Hw2), (fs_write_Ok _ _ _ Hw1).
Qed.

(** Success writes both files; in any case no other object's shard is touched. *)
Lemma materialize_unversioned_Ok root fs b k data version fs' :
  materialize_unversioned root fs b k data version = (fs', Ok tt) ->
  exists d meta_json, object_dir root b k = Ok d /\
    json_to_vec (mkObjectMetaFile b k [version]) = Some meta_json /\
    fs' = <[push d "meta.json" := meta_json]> (<[push d "shard.dat" := data]> fs).
Proof.
  unfold materialize_unversioned. intros E.
  destruct (json_to_vec _) as [j|] eqn:Hj; [|done]. cbn [ok_or mbind result_bind] in E.
  destruct (object_dir root b k) as [d|] eqn:Hd; [|done]. cbn [mbind result_bind] in E.
  destruct (create_dir_all fs d) as [[]|]; [|done]. cbn [mbind result_bind] in E.
  exists d, j. split_and!; [done..|].
  replace fs' with (write_both (push d "shard.dat") data (push d "meta.json") j fs).1 by (by rewrite E).
  apply write_both_Ok. by rewrite E.
Qed.

Lemma materialize_unversioned_frame root fs b k data version b' k' p :
  (b', k') <> (b, k) -> object_shard_path root b' k' = Ok p ->
  (materialize_unversioned root fs b k data version).1 !! p = fs !! p.
Proof.
  intros Hne Hp. unfold materialize_unversioned. destruct good_file_names as [Hgs Hgm].
  destruct (ok_or (json_to_vec _) _) as [j|]; [|done]. cbn [mbind result_bind].
  destruct (object_dir root b k) as [d|] eqn:Hd; [|done]. cbn [mbind result_bind].
  destruct (create_dir_all fs d); [|done]. cbn [mbind result_bind].
  apply result_bind_Ok in Hp as (d' & Hd' & [= <-]).
  apply write_both_ne; intros E; apply push_file_inj in E as [-> E]; try done.
  apply object_dir_Ok in Hd as (_ & _ & ->), Hd' as (_ & _ & E').
  apply app_inv_head, map_Normal_inj in E'. simplify_eq.
  match goal with E' : split slash _ = _ |- _ => apply split_inj in E' end. by subst.
Qed.

Lemma process_unversioned_frame root w fs req b' k' p :
  req_version_id req = "" -> (b', k') <> (req_bucket req, req_key req) ->
  object_shard_path root b' k' = Ok p ->
  (process_materialize root w fs req).1 !! p = fs !! p.
Proof.
  intros Hv Hne Hp. unfold process_materialize.
  destruct (ok_or (read_data _ _) _) as [d|]; [|done]. cbn [mbind result_bind].
  destruct (read_meta _ _) as [mt|]; [|done]. cbn [mbind result_bind].
  rewrite bool_decide_eq_true_2 by done. by eapply materialize_unversioned_frame.
Qed.

Lemma process_unversioned_Ok root w fs req fs' :
  req_version_id req = "" -> process_materialize root w fs req = (fs', Ok tt) ->
  exists d data meta meta_json,
    object_dir root (req_bucket req) (req_key req) = Ok d /\
    read_data w (req_entry req) = Some data /\ read_meta w (req_entry req) = Ok meta /\
    json_to_vec (mkObjectMetaFile (req_bucket req) (req_key req) [set_is_latest true meta])
      = Some meta_json /\
    fs' = <[push d "meta.json" := meta_json]> (<[push d "shard.dat" := data]> fs).
Proof.
  intros Hv. unfold process_materialize.
  destruct (read_data _ _) as [data|] eqn:Ed; [|done]. cbn [ok_or mbind result_bind].
  destruct (read_meta _ _) as [mt|] eqn:Em; [|done]. cbn [mbind result_bind].
  rewrite bool_decide_eq_true_2 by done. intros E.
  destruct (materialize_unversioned_Ok _ _ _ _ _ _ _ E) as (d & j & ? & ? & ->). eauto 10.
Qed.

(** The shard of a request whose files are written. *)
Definition written (root : Path) (w : Wal) (fs : Files) (req : MaterializeRequest) : Prop :=
  exists p data, object_shard_path root (req_bucket req) (req_key req) = Ok p /\
    read_data w (req_entry req) = Some data /\ fs !! p = Some data.

Lemma process_written root w fs req fs' :
  req_version_id req = "" -> process_materialize root w fs req = (fs', Ok tt) ->
  written root w fs' req.
Proof.
  intros Hv E. destruct good_file_names as [Hgs Hgm].
  destruct (process_unversioned_Ok _ _ _ _ _ Hv E) as (d & data & mt & j & Hd & Hr & _ & _ & ->).
  exists (push d "shard.dat"), data. unfold object_shard_path. rewrite Hd. cbn [mbind result_bind].
  split_and!; [done..|]. rewrite lookup_insert_ne, lookup_insert_eq; [done|].
  intros E'. apply push_file_inj in E' as [_ E']; done.
Qed.

(** ** The invariant of the whole pipeline *)

Definition worker_requests (wk : Worker) : list MaterializeRequest :=
  option_list (w_busy wk) ++ w_queue wk.

Definition outstanding (ws : list Worker) : list MaterializeRequest := flat_map worker_requests ws.

Definition busy (ws : list Worker) : list MaterializeRequest :=
  flat_map (fun wk => option_list (w_busy wk)) ws.

Definition req_id (r : MaterializeRequest) : string * string := (req_bucket r, req_key r).

Record mat_inv (root : Path) (st : MatState) (m : gmap (string * string) bytes) : Prop := {
  mi_wal : wal_inv (mat_wal st);
  mi_requests : Forall (fun r => req_version_id r = "" /\
      get (mat_wal st) (req_bucket r) (req_key r) = Some (req_entry r)) (outstanding (mat_workers st));
  mi_distinct : NoDup (map req_id (outstanding (mat_workers st)));
  mi_written : Forall (written root (mat_wal st) (mat_files st)) (busy (mat_workers st));
  mi_reads : forall b k d, m !! (b, k) = Some d ->
      read_object root (mat_wal st) (mat_files st) b k = Some d;
}.

Lemma flat_map_split {B} (f : Worker -> list B) ws i wk :
  ws !! i = Some wk -> flat_map f ws ≡ₚ f wk ++ flat_map f (delete i ws).
Proof. intros Hi. by rewrite (delete_Permutation ws i wk Hi) at 1. Qed.

Lemma flat_map_insert {B} (f : Worker -> list B) ws i wk wk' :
  ws !! i = Some wk -> flat_map f (<[i := wk']> ws) ≡ₚ f wk' ++ flat_map f (delete i ws).
Proof.
  intros Hi. rewrite (flat_map_split f _ i wk')
    by (apply list_lookup_insert_eq; by eapply lookup_lt_Some).
  rewrite !delete_take_drop, take_insert_ge by lia. by rewrite drop_insert_lt by lia.
Qed.

Lemma busy_outstanding ws r : r ∈ busy ws -> r ∈ outstanding ws.
Proof.
  unfold busy, outstanding. rewrite !list_elem_of_In, !in_flat_map.
  intros (wk & Hwk & Hr). exists wk. split; [done|]. unfold worker_requests.
  apply in_app_iff. by left.
Qed.

Lemma requests_distinct ws i wk req q :
  NoDup (map req_id (outstanding ws)) -> ws !! i = Some wk -> worker_requests wk = req :: q ->
  forall r, r ∈ q ++ outstanding (delete i ws) -> req_id r <> req_id req.
Proof.
  intros Hnd Hi Hwk r Hr E. unfold outstanding in Hnd.
  rewrite (Permutation_map req_id (flat_map_split _ _ _ _ Hi)), Hwk in Hnd.
  cbn in Hnd. apply (NoDup_cons_1_1 _ _ Hnd). rewrite <- E. apply list_elem_of_fmap. eauto.
Qed.

(** *** Every action keeps the invariant *)

Lemma read_object_frame root w w' fs fs' b k d :
  (forall e, get w b k = Some e -> get w' b k = Some e) ->
  (forall e, get w b k = Some e -> forall x, read_data w e = Some x -> read_data w' e = Some x) ->
  (get w b k = None -> get w' b k = None /\
     forall p, object_shard_path root b k = Ok p -> fs' !! p = fs !! p) ->
  read_object root w fs b k = Some d -> read_object root w' fs' b k = Some d.
Proof.
  intros Hs Hr Hn. unfold read_object. destruct (get w b k) as [e|] eqn:E.
  - rewrite (Hs e) by done. by apply Hr.
  - destruct Hn as [-> Hp]; [done|]. destruct (object_shard_path root b k); [|done].
    by rewrite Hp.
Qed.

Lemma read_object_agree root w w' fs b k d :
  get w' b k = get w b k ->
  (forall e x, get w b k = Some e -> read_data w e = Some x -> read_data w' e = Some x) ->
  read_object root w fs b k = Some d -> read_object root w' fs b k = Some d.
Proof.
  intros Hg Hr. apply read_object_frame.
  - intros e. by rewrite Hg.
  - intros e He x. by apply Hr.
  - intros Hn. by rewrite Hg.
Qed.

(** Changing worker [i] of a list of workers. *)
Lemma set_worker_ok root w fs m ws i wk wk' req :
  mat_inv root {| mat_wal := w; mat_files := fs; mat_workers := ws; mat_next := 0 |} m ->
  ws !! i = Some wk -> worker_requests wk = req :: w_queue wk' ->
  forall w' fs' next,
  wal_inv w' ->
  (forall r, w_busy wk' = Some r -> r = req /\ get w' (req_bucket req) (req_key req) = Some (req_entry req)
     /\ written root w' fs' req) ->
  (forall r, r ∈ outstanding ws -> req_id r <> req_id req ->
     get w' (req_bucket r) (req_key r) = get w (req_bucket r) (req_key r) /\
     (written root w fs r -> written root w' fs' r)) ->
  (forall b k d, m !! (b, k) = Some d -> read_object root w fs b k = Some d ->
     read_object root w' fs' b k = Some d) ->
  mat_inv root {| mat_wal := w'; mat_files := fs'; mat_workers := <[i := wk']> ws; mat_next := next |} m.
Proof.
  intros [_ Hreq Hnd Hwr Hrd] Hi Hwk w' fs' next Hw' Hbusy Hkeep Hreads.
  cbn [mat_wal mat_files mat_workers] in *.
  pose proof (requests_distinct _ _ _ _ _ Hnd Hi Hwk) as Hne.
  assert (Hsub : forall r, r ∈ w_queue wk' ++ outstanding (delete i ws) -> r ∈ outstanding ws).
  { intros r Hr. unfold outstanding. rewrite (flat_map_split _ _ _ _ Hi), Hwk. by right. }
  assert (Hv : req_version_id req = "").
  { rewrite list.Forall_forall in Hreq. apply (Hreq req).
    unfold outstanding. rewrite (flat_map_split _ _ _ _ Hi), Hwk. by left. }
  rewrite list.Forall_forall in Hreq, Hwr.
  constructor; cbn [mat_wal mat_files mat_workers]; [done| | | |by eauto].
  - unfold outstanding. rewrite (flat_map_insert _ _ _ _ wk' Hi). unfold worker_requests at 1.
    rewrite <- app_assoc. apply Forall_app. split.
    + destruct (w_busy wk') as [r|]; [|constructor]. destruct (Hbusy r eq_refl) as (-> & ? & _).
      by repeat constructor.
    + rewrite list.Forall_forall. intros r Hr. destruct (Hreq r (Hsub r Hr)) as [? Hg].
      split; [done|]. rewrite <- Hg. apply Hkeep; auto.
  - unfold outstanding in Hnd |- *. rewrite (Permutation_map req_id (flat_map_insert _ _ _ _ wk' Hi)).
    rewrite (Permutation_map req_id (flat_map_split _ _ _ _ Hi)), Hwk in Hnd.
    unfold worker_requests at 1. destruct (w_busy wk') as [r|].
    + by destruct (Hbusy r eq_refl) as [-> _].
    + by apply NoDup_cons_1_2 in Hnd.
  - unfold busy. rewrite (flat_map_insert _ _ _ _ wk' Hi). apply Forall_app. split.
    + destruct (w_busy wk') as [r|]; [|constructor]. destruct (Hbusy r eq_refl) as (-> & _ & ?).
      by repeat constructor.
    + rewrite list.Forall_forall. intros r Hr.
      assert (Hr' : r ∈ w_queue wk' ++ outstanding (delete i ws))
        by (apply elem_of_app; right; by apply busy_outstanding).
      apply (Hkeep r); [by auto..|]. apply Hwr. unfold busy.
      rewrite (flat_map_split _ _ _ _ Hi). apply elem_of_app. by right.
Qed.

Lemma mat_inv_next root st m n :
  mat_inv root st m ->
  mat_inv root {| mat_wal := mat_wal st; mat_files := mat_files st;
                  mat_workers := mat_workers st; mat_next := n |} m.
Proof. intros []. by constructor. Qed.

Lemma mat_inv_head root st m i wk req q :
  mat_inv root st m -> mat_workers st !! i = Some wk -> worker_requests wk = req :: q ->
  req_version_id req = "" /\
  get (mat_wal st) (req_bucket req) (req_key req) = Some (req_entry req).
Proof.
  intros [_ Hreq _ _ _] Hi Hwk. rewrite list.Forall_forall in Hreq. apply Hreq.
  unfold outstanding. rewrite (flat_map_split _ _ _ _ Hi), Hwk. by left.
Qed.

Lemma worker_process_ok root st m i st' :
  mat_inv root st m -> worker_process root st i = Some st' -> mat_inv root st' m.
Proof.
  intros Hinv E. unfold worker_process in E.
  apply bind_Some in E as ([q b] & Hi & E). cbn [w_busy w_queue] in E.
  destruct b; [done|]. destruct q as [|req q]; [done|].
  destruct (process_materialize root (mat_wal st) (mat_files st) req) as [fs' res] eqn:Ep.
  cbn [fst snd] in E. simplify_eq.
  destruct (mat_inv_head _ _ _ _ _ _ _ Hinv Hi eq_refl) as [Hv Hget].
  assert (Hfr : forall b k p, (b, k) <> req_id req -> object_shard_path root b k = Ok p ->
    fs' !! p = mat_files st !! p).
  { intros b k p Hne Hp. replace fs' with (process_materialize root (mat_wal st) (mat_files st) req).1
      by (by rewrite Ep). by eapply process_unversioned_frame. }
  eapply (set_worker_ok root (mat_wal st) (mat_files st) m _ i _
            {| w_queue := q; w_busy := if is_ok res then Some req else None |} req
            (mat_inv_next _ _ _ 0 Hinv) Hi eq_refl).
  - exact (mi_wal _ _ _ Hinv).
  - cbn [w_busy]. intros r Hr. destruct res as [[]|]; simplify_eq/=.
    split_and!; [done..|]. by eapply process_written.
  - intros r Hr Hne. split; [done|]. intros (p & d & Hp & Hd & Hf). exists p, d.
    split_and!; [done..|]. rewrite <- Hf. by apply (Hfr _ _ p Hne).
  - intros b k d _. apply read_object_frame; [done|done|].
    intros Hnone. split; [done|]. intros p. apply Hfr. intros [= -> ->]. congruence.
Qed.

(** Two logs that hold the same object under [k] read the same for its entry. *)
Lemma represents_read w w' m m' k e x :
  represents w m -> represents w' m' -> m' !! k = m !! k ->
  pending w !! k = Some e -> pending w' !! k = Some e ->
  read_data w e = Some x -> read_data w' e = Some x.
Proof.
  intros Hm Hm' Hk Hp Hp' Hx. specialize (Hm k). specialize (Hm' k). rewrite Hk in Hm'.
  destruct (m !! k) as [[d mb]|]; [|congruence].
  destruct Hm as (e1 & ? & ? & _), Hm' as (e2 & ? & ? & _). congruence.
Qed.

(** The requests other than the one worker [i] handles keep their entries and
    their written files, provided the log keeps their pending entries. *)
Lemma written_frame root w w' fs r :
  (forall x, read_data w (req_entry r) = Some x -> read_data w' (req_entry r) = Some x) ->
  written root w fs r -> written root w' fs r.
Proof. intros Hr (p & d & Hp & Hd & Hf). exists p, d. eauto. Qed.

(** Marking a request leaves the log's view of every other object alone. *)
Lemma mark_frame w b0 k0 :
  wal_inv w ->
  let w' := mark_materialized_versioned w b0 k0 "" in
  wal_inv w' /\ get w' b0 k0 = None /\
  forall b k, (b, k) <> (b0, k0) -> get w' b k = get w b k /\
    forall e x, get w b k = Some e -> read_data w e = Some x -> read_data w' e = Some x.
Proof.
  intros Hw w'. destruct (represents_exists _ (inv_readable _ Hw)) as [mp Hmp].
  destruct (mark_materialized_ok _ mp b0 k0 "" Hw Hmp) as [Hw' Hmp'].
  destruct (mark_materialized_next w b0 k0 "") as (Hp & _). fold w' in Hw', Hmp', Hp.
  unfold get, get_versioned. rewrite Hp, lookup_delete_eq. split_and!; [done..|].
  intros b k Hne. assert (Hk : (b0, k0, EmptyString) <> (b, k, EmptyString)) by congruence.
  rewrite lookup_delete_ne by done. split; [done|]. intros e x He.
  apply (represents_read _ _ _ _ (b, k, "") e x Hmp Hmp'); [by apply lookup_delete_ne|exact He|].
  by rewrite Hp, lookup_delete_ne.
Qed.

Lemma worker_mark_ok root st m i st' :
  mat_inv root st m -> worker_mark st i = Some st' -> mat_inv root st' m.
Proof.
  intros Hinv E. unfold worker_mark in E.
  apply bind_Some in E as ([q b] & Hi & E). cbn [w_busy w_queue] in E.
  destruct b as [req|]; [|done]. cbn [mbind option_bind] in E. simplify_eq.
  destruct (mat_inv_head _ _ _ _ _ _ _ Hinv Hi eq_refl) as [Hv Hget]. rewrite Hv.
  destruct (mark_frame _ (req_bucket req) (req_key req) (mi_wal _ _ _ Hinv)) as (Hw' & Hnone & Hfr).
  eapply (set_worker_ok root (mat_wal st) (mat_files st) m _ i _
            {| w_queue := q; w_busy := None |} req (mat_inv_next _ _ _ 0 Hinv) Hi eq_refl);
    [done|done| |].
  - intros r Hr Hne. destruct (Hfr _ _ Hne) as [Hg Hrd]. split; [done|].
    apply written_frame. intros x. apply Hrd.
    pose proof (mi_requests _ _ _ Hinv) as Hall. rewrite list.Forall_forall in Hall. by apply Hall.
  - intros b k d _ Hrd. destruct (decide ((b, k) = req_id req)) as [[= -> ->]|Hbk].
    + unfold read_object in *. rewrite Hnone. rewrite Hget in Hrd.
      pose proof (mi_written _ _ _ Hinv) as Hall. unfold busy in Hall.
      rewrite (flat_map_split _ _ _ _ Hi) in Hall. apply Forall_cons_1 in Hall as [Hw _].
      destruct Hw as (p & x & -> & Hx & Hf). congruence.
    + destruct (Hfr b k Hbk) as [Hg Hr]. exact (read_object_agree _ _ _ _ _ _ _ Hg Hr Hrd).
Qed.

(** The log after an append of an unversioned needle, seen through [get]. *)
Lemma append_get_frame w n now w' r :
  wal_inv w -> wf_needle n -> n_version_id n = "" -> (next_segment_id w + 1 < 2 ^ 32)%N ->
  wal_append w n now = Some (w', r) ->
  wal_inv w' /\
  (forall b k, (b, k) <> (n_bucket n, n_key n) \/ is_ok r = false -> get w' b k = get w b k /\
    forall e x, get w b k = Some e -> read_data w e = Some x -> read_data w' e = Some x) /\
  (forall e, r = Ok e -> get w' (n_bucket n) (n_key n) = Some e /\ read_data w' e = Some (n_data n)).
Proof.
  intros Hw Hn Hv Hnx Ha. destruct (represents_exists _ (inv_readable _ Hw)) as [mp Hmp].
  destruct (wal_append_ok w mp n now Hw Hmp Hn Hnx) as (w1 & r1 & Ha1 & Hw1 & _ & _ & Hcase).
  rewrite Ha in Ha1. simplify_eq. split; [done|]. unfold get, get_versioned. case_decide.
  - destruct Hcase as [(e & -> & Hp) Hmp']. unfold needle_key in *. rewrite Hv in *. rewrite Hp. split.
    + intros b k [Hne|?]; [|done].
      assert (Hk : (n_bucket n, n_key n, EmptyString) <> (b, k, EmptyString)) by congruence.
      rewrite lookup_insert_ne by done. split; [done|]. intros e0 x He.
      apply (represents_read _ _ _ _ (b, k, "") e0 x Hmp Hmp');
        [by apply lookup_insert_ne|exact He|by rewrite Hp, lookup_insert_ne].
    + intros e0 [= <-]. rewrite lookup_insert_eq. split; [done|].
      specialize (Hmp' (n_bucket n, n_key n, EmptyString)).
      rewrite Hp, !lookup_insert_eq in Hmp'. destruct Hmp' as (e1 & ? & ? & _). congruence.
  - destruct Hcase as (-> & Hp & Hmp'). rewrite Hp. split; [|done]. intros b k _.
    split; [done|]. intros e0 x He. apply (represents_read _ _ _ _ (b, k, "") e0 x Hmp Hmp');
      [done|exact He|by rewrite Hp].
Qed.

(** Replacing the log by one that agrees with it on every outstanding request. *)
Lemma set_wal_ok root st m w' m' :
  mat_inv root st m -> wal_inv w' ->
  (forall b k, get (mat_wal st) b k <> None ->
     get w' b k = get (mat_wal st) b k /\
     forall e x, get (mat_wal st) b k = Some e -> read_data (mat_wal st) e = Some x ->
       read_data w' e = Some x) ->
  (forall b k d, m' !! (b, k) = Some d -> read_object root w' (mat_files st) b k = Some d) ->
  mat_inv root {| mat_wal := w'; mat_files := mat_files st; mat_workers := mat_workers st;
                  mat_next := mat_next st |} m'.
Proof.
  intros [Hw Hreq Hnd Hwr Hrd] Hw' Hfr Hrd'. rewrite list.Forall_forall in Hreq, Hwr.
  constructor; cbn [mat_wal mat_files mat_workers]; [done| |done| |done].
  - rewrite list.Forall_forall. intros r Hr. destruct (Hreq r Hr) as [Hv Hg]. split; [done|].
    rewrite <- Hg. apply Hfr. congruence.
  - rewrite list.Forall_forall. intros r Hr. destruct (Hreq r (busy_outstanding _ _ Hr)) as [Hv Hg].
    eapply written_frame; [|by apply Hwr]. intros x. apply (Hfr (req_bucket r) (req_key r)); congruence.
Qed.

(** Queueing a request for a pending entry that no worker has yet. *)
Lemma try_send_ok chan_cap root st m req :
  mat_inv root st m -> mat_workers st <> [] ->
  req_version_id req = "" ->
  get (mat_wal st) (req_bucket req) (req_key req) = Some (req_entry req) ->
  req_id req ∉ map req_id (outstanding (mat_workers st)) ->
  exists st', try_send chan_cap st req = Some st' /\ mat_inv root st' m /\
    mat_wal st' = mat_wal st /\ mat_workers st' <> [].
Proof.
  intros Hinv Hne Hv Hget Hnew. unfold try_send.
  assert (Hlen : length (mat_workers st) <> 0) by (by destruct (mat_workers st)).
  rewrite bool_decide_eq_false_2 by done.
  set (idx := N.to_nat (mat_next st mod N.of_nat (length (mat_workers st)))).
  assert (Hidx : idx < length (mat_workers st)).
  { unfold idx. pose proof (N.mod_lt (mat_next st) (N.of_nat (length (mat_workers st)))). lia. }
  destruct (lookup_lt_is_Some_2 _ _ Hidx) as [wk Hwk]. rewrite Hwk. cbn [mbind option_bind].
  case_bool_decide; [|eexists; split_and!; [done|by apply mat_inv_next|done|done]].
  set (wk' := {| w_queue := w_queue wk ++ [req]; w_busy := w_busy wk |}).
  eexists. split; [done|]. split_and!; [|done|].
  2:{ cbn [mat_workers]. intros Hnil. apply (f_equal length) in Hnil.
      rewrite length_insert in Hnil. done. }
  assert (Hperm : outstanding (<[idx := wk']> (mat_workers st)) ≡ₚ req :: outstanding (mat_workers st)).
  { unfold outstanding. rewrite (flat_map_insert _ _ _ _ wk' Hwk), (flat_map_split _ _ _ _ Hwk).
    unfold worker_requests at 1 3. cbn [wk' w_queue w_busy]. rewrite !app_assoc.
    rewrite <- Permutation_cons_append. done. }
  destruct Hinv as [Hw Hreq Hnd Hwr Hrd].
  constructor; cbn [mat_wal mat_files mat_workers]; [done| | | |done].
  - rewrite Hperm. by constructor.
  - rewrite (Permutation_map req_id Hperm). by constructor.
  - unfold busy in *. rewrite (flat_map_insert _ _ _ _ wk' Hwk). rewrite (flat_map_split _ _ _ _ Hwk) in Hwr.
    done.
Qed.

Lemma write_shard_wal_ok chan_cap root st m b k data meta now :
  mat_inv root st m -> mat_workers st <> [] -> version_id meta = "" ->
  get (mat_wal st) b k = None ->
  (forall n, needle_new b k None meta data = Ok n -> wf_needle n) ->
  (next_segment_id (mat_wal st) + 1 < 2 ^ 32)%N ->
  exists st' r, write_shard_wal chan_cap st b k data meta now = Some (st', r) /\
    mat_workers st' <> [] /\
    mat_inv root st' (if is_ok r then <[(b, k) := data]> m else m).
Proof.
  intros Hinv Hne Hv Hnone Hwf Hnx. unfold write_shard_wal. rewrite bool_decide_eq_true_2 by done.
  destruct (validate_bucket_name b) as [[]|]; cbn [mbind result_bind]; [|by eexists _, _].
  destruct (validate_object_key k) as [[]|]; cbn [mbind result_bind]; [|by eexists _, _].
  destruct (needle_new b k None meta data) as [n|] eqn:En; [|by eexists _, _].
  specialize (Hwf n eq_refl). apply result_bind_Ok in En as (mb & _ & [= <-]).
  set (n := mkNeedle _ _ _ _ _ _) in *. pose proof (mi_wal _ _ _ Hinv) as Hw.
  destruct (represents_exists _ (inv_readable _ Hw)) as [mp Hmp].
  destruct (wal_append_ok _ mp n now Hw Hmp Hwf Hnx) as (w' & r & Ha & _). rewrite Ha.
  cbn [mbind option_bind fst snd].
  destruct (append_get_frame _ _ _ _ _ Hw Hwf eq_refl Hnx Ha) as (Hw' & Hfr & Hnew).
  cbn [n n_bucket n_key n_data] in Hfr, Hnew.
  assert (Hinv' : mat_inv root {| mat_wal := w'; mat_files := mat_files st;
    mat_workers := mat_workers st; mat_next := mat_next st |} (if is_ok r then <[(b, k) := data]> m else m)).
  { apply (set_wal_ok root st m); [done..| |].
    - intros b' k' Hs. apply Hfr. left. congruence.
    - intros b' k' d Hd. destruct r as [e|e]; cbn [is_ok] in Hd.
      + destruct (decide ((b', k') = (b, k))) as [[= -> ->]|Hbk].
        * rewrite lookup_insert_eq in Hd. simplify_eq. unfold read_object.
          destruct (Hnew e eq_refl) as [-> ->]. done.
        * rewrite lookup_insert_ne in Hd by done. destruct (Hfr b' k' ltac:(by left)) as [Hg Hr].
          apply (read_object_agree _ _ _ _ _ _ _ Hg Hr). by apply (mi_reads _ _ _ Hinv).
      + destruct (Hfr b' k' ltac:(by right)) as [Hg Hr].
        apply (read_object_agree _ _ _ _ _ _ _ Hg Hr). by apply (mi_reads _ _ _ Hinv). }
  destruct r as [e|e]; [|by eexists _, _]. cbn [default from_option].
  destruct (try_send_ok chan_cap root _ _ (mkMaterializeRequest b k "" e) Hinv') as (st' & -> & Hi' & _ & Hne').
  - done.
  - done.
  - by apply Hnew.
  - cbn [req_id req_bucket req_key mat_workers]. intros Hin.
    apply list_elem_of_fmap in Hin as (r & Er & Hr).
    pose proof (mi_requests _ _ _ Hinv) as Hall. rewrite list.Forall_forall in Hall.
    destruct (Hall r Hr) as [_ Hg]. injection Er as Eb Ek.
    rewrite <- Eb, <- Ek in Hg. congruence.
  - cbn [mbind option_bind]. by eexists _, _.
Qed.

End Lemmas.

(** ** Reachable states

    [mat_reach st m]: some schedule of puts and workers leads to [st], and [m]
    maps each object to the bytes of the last PUT the volume acknowledged.  A PUT
    is only issued for an object that is not waiting in the log. *)
Inductive mat_reach `{Hashes} `{MetaCodec} `{UuidParser} `{MetaFileCodec}
    (chan_cap : nat) (root : Path) : MatState -> gmap (string * string) bytes -> Prop :=
  | reach_start w fs n m :
      wal_inv w -> pending w = ∅ -> 0 < n ->
      (forall b k d, m !! (b, k) = Some d -> read_object root w fs b k = Some d) ->
      mat_reach chan_cap root
        {| mat_wal := w; mat_files := fs; mat_workers := replicate n (mkWorker [] None);
           mat_next := 0 |} m
  | reach_put st m b k data meta now st' r :
      mat_reach chan_cap root st m ->
      version_id meta = "" -> get (mat_wal st) b k = None ->
      (forall n, needle_new b k None meta data = Ok n -> wf_needle n) ->
      (next_segment_id (mat_wal st) + 1 < 2 ^ 32)%N ->
      write_shard_wal chan_cap st b k data meta now = Some (st', r) ->
      mat_reach chan_cap root st' (if is_ok r then <[(b, k) := data]> m else m)
  | reach_worker st m l st' :
      mat_reach chan_cap root st m ->
      (exists i, l = LProcess i \/ l = LMark i) -> mat_step chan_cap root st l = Some st' ->
      mat_reach chan_cap root st' m.

Lemma outstanding_idle n : outstanding (replicate n (mkWorker [] None)) = [].
Proof. induction n; [done|]. cbn. done. Qed.

Lemma busy_idle n : busy (replicate n (mkWorker [] None)) = [].
Proof. induction n; [done|]. cbn. done. Qed.

Lemma mat_step_workers `{Hashes} `{MetaCodec} `{UuidParser} `{MetaFileCodec} cap root st i l st' :
  l = LProcess i \/ l = LMark i -> mat_step cap root st l = Some st' ->
  length (mat_workers st') = length (mat_workers st).
Proof.
  intros [->| ->]; cbn [mat_step]; unfold worker_process, worker_mark;
    intros (wk & _ & E)%bind_Some; repeat (case_match || simplify_eq);
    try (apply bind_Some in E as (? & _ & E); simplify_eq); cbn [mat_workers];
    by rewrite length_insert.
Qed.

Lemma mat_reach_inv `{Hashes} `{MetaCodec} `{UuidParser} `{MetaFileCodec} cap root st m :
  mat_reach cap root st m -> mat_inv root st m /\ mat_workers st <> [].
Proof.
  induction 1 as [w fs n m Hw Hp Hn Hrd|st m b k data meta now st' r _ [IH Hne] Hv Hnone Hwf Hnx E
                 |st m l st' _ [IH Hne] [i Hl] E].
  - split; [|by destruct n; [lia|]]. constructor; cbn [mat_wal mat_files mat_workers]; try done.
    + rewrite outstanding_idle. constructor.
    + rewrite outstanding_idle. constructor.
    + rewrite busy_idle. constructor.
  - destruct (write_shard_wal_ok cap root st m b k data meta now IH Hne Hv Hnone Hwf Hnx)
      as (st1 & r1 & E1 & Hne1 & Hi1). rewrite E in E1. by simplify_eq.
  - split.
    + destruct Hl as [->| ->]; [by eapply worker_process_ok|by eapply worker_mark_ok].
    + pose proof (mat_step_workers _ _ _ _ _ _ Hl E) as Hlen. by destruct (mat_workers st), (mat_workers st').
Qed.

(** ** Properties *)

(** C7: No acknowledged object is lost while the workers run: in every state
    reachable by any interleaving of puts, any number of workers and any channel
    capacity (a full channel drops the request), reading an object, from the log
    if it is pending there and from its [shard.dat] otherwise, returns the bytes
    of its last acknowledged PUT, as long as no object is overwritten while it
    still waits in the log. *)
Theorem pipeline_reads_last_put `{Hashes} `{MetaCodec} `{UuidParser} `{MetaFileCodec}
    cap root st m b k d :
  mat_reach cap root st m -> m !! (b, k) = Some d ->
  read_object root (mat_wal st) (mat_files st) b k = Some d.
Proof.
  intros Hr Hm. destruct (mat_reach_inv _ _ _ _ Hr) as [Hi _]. by apply (mi_reads _ _ _ Hi).
Qed.

(** A worker that succeeds on a request leaves the object in its final form:
    after its two actions the object is out of the log, [shard.dat] holds the
    logged data, [meta.json] decodes to a file with the logged metadata as its
    single, latest version, and the objects of the volume read as before. *)
Theorem worker_materializes `{Hashes} `{MetaCodec} `{UuidParser} `{MetaFileCodec}
    `{!MetaFileCodecOk} cap root st m i req q :
  mat_inv root st m -> mat_workers st !! i = Some (mkWorker (req :: q) None) ->
  (process_materialize root (mat_wal st) (mat_files st) req).2 = Ok tt ->
  exists st' d data meta,
    mat_run cap root st [LProcess i; LMark i] = Some st' /\ mat_inv root st' m /\
    get (mat_wal st') (req_bucket req) (req_key req) = None /\
    object_dir root (req_bucket req) (req_key req) = Ok d /\
    read_data (mat_wal st) (req_entry req) = Some data /\
    read_meta (mat_wal st) (req_entry req) = Ok meta /\
    mat_files st' !! push d "shard.dat" = Some data /\
    read_meta_file (mat_files st') (push d "meta.json") =
      Ok (mkObjectMetaFile (req_bucket req) (req_key req) [set_is_latest true meta]).
Proof.
  intros Hinv Hi Hok. destruct (mat_inv_head _ _ _ _ _ _ _ Hinv Hi eq_refl) as [Hv Hget].
  destruct (process_materialize root (mat_wal st) (mat_files st) req) as [fs' res] eqn:Ep.
  cbn [snd] in Hok. subst res.
  destruct (process_unversioned_Ok _ _ _ _ _ Hv Ep) as (d & data & mt & j & Hd & Hdata & Hmt & Hj & Hfs).
  assert (E1 : worker_process root st i = Some {| mat_wal := mat_wal st; mat_files := fs';
    mat_workers := <[i := mkWorker q (Some req)]> (mat_workers st); mat_next := mat_next st |}).
  { unfold worker_process. rewrite Hi. cbn [mbind option_bind w_busy w_queue]. by rewrite Ep. }
  pose proof (worker_process_ok _ _ _ _ _ Hinv E1) as Hinv1.
  assert (E2 : exists ws, worker_mark {| mat_wal := mat_wal st; mat_files := fs';
    mat_workers := <[i := mkWorker q (Some req)]> (mat_workers st); mat_next := mat_next st |} i
    = Some {| mat_wal := mark_materialized_versioned (mat_wal st) (req_bucket req) (req_key req) "";
              mat_files := fs'; mat_workers := ws; mat_next := mat_next st |}).
  { unfold worker_mark. cbn [mat_workers]. rewrite list_lookup_insert_eq by (by eapply lookup_lt_Some).
    cbn [mbind option_bind w_busy]. rewrite Hv. eauto. }
  destruct E2 as [ws E2]. pose proof (worker_mark_ok _ _ _ _ _ Hinv1 E2) as Hinv2.
  eexists _, d, data, mt. cbn [mat_run mat_step]. rewrite E1. cbn [mbind option_bind]. rewrite E2.
  split; [done|]. split; [done|]. cbn [mat_wal mat_files].
  destruct (mark_frame _ (req_bucket req) (req_key req) (mi_wal _ _ _ Hinv)) as (_ & Hnone & _).
  destruct good_file_names as [Hgs Hgm]. rewrite Hfs. unfold read_meta_file.
  rewrite lookup_insert_eq. cbn [ok_or mbind result_bind]. rewrite (json_roundtrip _ _ Hj).
  split_and!; try done. rewrite lookup_insert_ne, lookup_insert_eq; [done|].
  intros E'. apply push_file_inj in E' as [_ E']; done.
Qed.

(** ** A concrete volume with two workers *)

Definition ex_object_meta (tag : string) : ObjectMeta :=
  {| size := 3; etag := tag; content_type := "text/plain"; created_at := 1700000000;
     erasure := mkErasureMeta 0 0 1 ["v1"]; checksum := ""; user_metadata := ∅; tags := ∅;
     version_id := ""; is_latest := true; is_delete_marker := false; parts := [];
     inline_data := None |}.

Definition ex_meta_codec : MetaCodec :=
  {| rmp_to_vec := fun m => Some (bytes_of (etag m));
     rmp_from_slice := fun b => Some (ex_object_meta (string_of b)) |}.

Definition comma : ascii := ","%char.

Global Instance ObjectMetaFile_eq_dec : EqDecision ObjectMetaFile.
Proof. solve_decision. Defined.

Definition ex_json_decode (b : bytes) : option ObjectMetaFile :=
  match split_on comma b with
  | [b; k; e] => Some (mkObjectMetaFile (string_of b) (string_of k) [ex_object_meta (string_of e)])
  | _ => None
  end.

Definition ex_json_encode (m : ObjectMetaFile) : bytes :=
  bytes_of (mf_bucket m) ++ comma :: bytes_of (mf_key m) ++ comma ::
  bytes_of (match versions m with v :: _ => etag v | [] => "" end).

Definition ex_meta_file_codec : MetaFileCodec :=
  {| json_to_vec := fun m => if decide (ex_json_decode (ex_json_encode m) = Some m)
                             then Some (ex_json_encode m) else None;
     json_from_slice := ex_json_decode |}.

Global Instance ex_meta_file_codec_ok : @MetaFileCodecOk ex_meta_file_codec.
Proof. intros m b. cbn. case_decide; [|done]. by intros [= <-]. Qed.

Section Concrete.
  Local Existing Instances example_hashes ex_meta_codec ex_uuid ex_meta_file_codec.

Definition ex_volume : MatState :=
  {| mat_wal := ex_wal; mat_files := ∅; mat_workers := replicate 2 (mkWorker [] None);
     mat_next := 0 |}.

Definition ex_put (data : string) : mat_label :=
  LPut "photos" "cat" (bytes_of data) (ex_object_meta "e") 5.

Definition ex_after_put : MatState := default ex_volume (mat_run 10 ex_root ex_volume [ex_put "old"]).

Lemma ex_after_put_reach :
  mat_reach 10 ex_root ex_after_put {[("photos", "cat") := bytes_of "old"]}.
Proof.
  destruct ex_wal_ok as (Hw & Hm & _ & Hn).
  assert (Hstart : mat_reach 10 ex_root ex_volume ∅).
  { apply (reach_start _ _ ex_wal ∅ 2 ∅ Hw); [|lia|done]. vm_compute. reflexivity. }
  assert (E : write_shard_wal 10 ex_volume "photos" "cat" (bytes_of "old") (ex_object_meta "e") 5
    = Some (ex_after_put, Ok tt)) by (vm_compute; reflexivity).
  refine (reach_put 10 ex_root ex_volume ∅ "photos" "cat" (bytes_of "old") (ex_object_meta "e") 5
            ex_after_put (Ok tt) Hstart eq_refl _ _ _ E).
  - vm_compute. reflexivity.
  - intros n [= <-]. unfold wf_needle. split_and!; vm_compute; reflexivity.
  - cbn [ex_volume mat_wal]. rewrite Hn. vm_compute. reflexivity.
Qed.

Lemma pipeline_reads_last_put_witness :
  read_object ex_root (mat_wal ex_after_put) (mat_files ex_after_put) "photos" "cat"
  = Some (bytes_of "old").
Proof.
  exact (pipeline_reads_last_put 10 ex_root ex_after_put {[("photos", "cat") := bytes_of "old"]}
    "photos" "cat" (bytes_of "old") ex_after_put_reach ltac:(vm_compute; reflexivity)).
Defined.

Lemma worker_materializes_witness :
  exists st', mat_run 10 ex_root ex_after_put [LProcess 0; LMark 0] = Some st' /\
    get (mat_wal st') "photos" "cat" = None /\
    exists d data, object_dir ex_root "photos" "cat" = Ok d /\
      mat_files st' !! push d "shard.dat" = Some data.
Proof.
  destruct (mat_reach_inv _ _ _ _ ex_after_put_reach) as [Hinv _].
  assert (Hw : exists req, mat_workers ex_after_put !! 0 = Some (mkWorker [req] None) /\
    req_bucket req = "photos" /\ req_key req = "cat" /\
    (process_materialize ex_root (mat_wal ex_after_put) (mat_files ex_after_put) req).2 = Ok tt).
  { eexists. split; [vm_compute; reflexivity|]. split_and!; vm_compute; reflexivity. }
  destruct Hw as (req & Hwk & Hb & Hk & Hok).
  destruct (worker_materializes 10 ex_root ex_after_put _ 0 req [] Hinv Hwk Hok)
    as (st' & d & data & mt & Hrun & _ & Hnone & Hd & _ & _ & Hsh & _).
  rewrite Hb, Hk in Hnone, Hd. exists st'. split; [exact Hrun|]. split; [exact Hnone|].
  exists d, data. split; assumption.
Defined.

(** With two workers, the default, overwriting an object that still waits in
    the log can lose the overwrite for good: the two requests go to different
    workers, the worker with the older one may finish last, and nothing checks
    that a request is still current.  Both puts were acknowledged and nothing is
    pending, but the object reads as the old bytes. *)
Theorem stale_worker_overwrites :
  exists st, mat_run 10 ex_root ex_volume
      [ex_put "old"; ex_put "new"; LProcess 1; LMark 1; LProcess 0; LMark 0] = Some st /\
    pending_count (mat_wal st) = 0 /\
    read_object ex_root (mat_wal st) (mat_files st) "photos" "cat" = Some (bytes_of "old").
Proof. eexists. split; [vm_compute; reflexivity|]. split; vm_compute; reflexivity. Qed.

(** The files of a volume, as the recovery scan asks for them. *)
Definition is_file (fs : Files) (p : Path) : bool := bool_decide (is_Some (fs !! p)).

(** A crash undoes an acknowledged overwrite: recovery takes the [shard.dat]
    of the previous version as proof that the logged entry was materialized,
    drops the entry and deletes its segment, so an object that was materialized
    once, overwritten, and read back as the new bytes reads as the old bytes
    after a restart. *)
Theorem recovery_drops_acked_overwrite :
  exists st w, mat_run 10 ex_root ex_volume
      [ex_put "old"; LProcess 0; LMark 0; ex_put "new"] = Some st /\
    read_object ex_root (mat_wal st) (mat_files st) "photos" "cat" = Some (bytes_of "new") /\
    wal_open (log_dir (mat_wal st)) 150 (is_file (mat_files st)) ex_root 9 = Some w /\
    read_object ex_root w (mat_files st) "photos" "cat" = Some (bytes_of "old").
Proof.
  eexists _, _. split; [vm_compute; reflexivity|]. split; [vm_compute; reflexivity|].
  split; vm_compute; reflexivity.
Qed.

End Concrete.
