(* ===== verification/Placement.v ===== *)
(** Shard placement ([src/cluster/placement.rs]): which volumes hold the shards
    of an object.  Nodes and the disks of each node are ordered by a hash salted
    with the object's identity, and the shards are dealt one per node and round.

    A [BTreeMap] keyed by node id is a [gmap] whose keys are iterated in sorted
    order; [usize] arithmetic is on counts of disks, far below its bound. *)

From Stdlib Require Import Ascii.
From stdpp Require Import base list gmap strings numbers sorting pretty.
From S2P Require Import Prelude Metadata.

Record PlacementVolume : Type := mkPlacementVolume {
  pv_backend_index : nat;
  pv_node_id : string;
  pv_volume_id : string;
}.

Global Instance PlacementVolume_eq_dec : EqDecision PlacementVolume.
Proof. solve_decision. Defined.

Record PlacementShard : Type := mkPlacementShard {
  ps_index : nat;
  ps_backend_index : nat;
  ps_node_id : string;
  ps_volume_id : string;
}.

Record PlacementRecord : Type := mkPlacementRecord {
  pr_epoch_id : N;
  pr_cluster_id : string;
  pr_data : nat;
  pr_parity : nat;
  pr_shards : list PlacementShard;
}.

Record PlacementPlanner : Type := mkPlacementPlanner {
  pp_epoch_id : N;
  pp_cluster_id : string;
  pp_disks : list PlacementVolume;
}.

(** The stable [sort_by_key]: insertion from the right, in front of equal keys. *)
Fixpoint insert_by_key {A : Type} (key : A -> string) (x : A) (l : list A) : list A :=
  match l with
  | [] => [x]
  | y :: l' => if String.leb (key x) (key y) then x :: l else y :: insert_by_key key x l'
  end.

Definition sort_by_key {A : Type} (key : A -> string) (l : list A) : list A :=
  foldr (insert_by_key key) [] l.

Section Defs.
  Context `{Hashes}.

Definition hash_hex (input : string) : string := sha256_hex (bytes_of input).

Definition stable_order {A : Type} (items : list A) (salt_for : A -> string) : list A :=
  sort_by_key (fun item => hash_hex (salt_for item)) items.

(** [per_node.entry(&disk.node_id).or_default().push(disk)] *)
Definition push_node (m : gmap string (list PlacementVolume)) (d : PlacementVolume)
    : gmap string (list PlacementVolume) :=
  <[pv_node_id d := default [] (m !! pv_node_id d) ++ [d]]> m.

Definition btree_keys {V : Type} (m : gmap string V) : list string :=
  merge_sort str_le (elements (dom m)).

(** One pass over the nodes: [(chosen, placed_this_round)]. *)
Fixpoint place_round (nodes : list string) (ordered_disks : gmap string (list PlacementVolume))
    (round total : nat) (chosen : list PlacementVolume) (placed : bool)
    : list PlacementVolume * bool :=
  match nodes with
  | [] => (chosen, placed)
  | node_id :: nodes =>
      match ordered_disks !! node_id ≫= fun disks => disks !! round with
      | None => place_round nodes ordered_disks round total chosen placed
      | Some d =>
          let chosen := chosen ++ [d] in
          if bool_decide (length chosen = total) then (chosen, true)
          else place_round nodes ordered_disks round total chosen true
      end
  end.

(** The [while] loop.  Every round but the last places a disk, so [S total]
    rounds are enough ([place_loop_take]). *)
Fixpoint place_loop (fuel : nat) (nodes : list string)
    (ordered_disks : gmap string (list PlacementVolume)) (round total : nat)
    (chosen : list PlacementVolume) : list PlacementVolume :=
  match fuel with
  | 0 => chosen
  | S fuel =>
      if bool_decide (length chosen < total) then
        let r := place_round nodes ordered_disks round total chosen false in
        if r.2 then place_loop fuel nodes ordered_disks (S round) total r.1 else r.1
      else chosen
  end.

Definition key_material (p : PlacementPlanner) (bucket key : string) : string :=
  pretty (pp_epoch_id p) +:+ ":" +:+ pp_cluster_id p +:+ ":" +:+ bucket +:+ "/" +:+ key.

Definition shard_of (index : nat) (d : PlacementVolume) : PlacementShard :=
  {| ps_index := index; ps_backend_index := pv_backend_index d;
     ps_node_id := pv_node_id d; ps_volume_id := pv_volume_id d |}.

Definition per_node (p : PlacementPlanner) : gmap string (list PlacementVolume) :=
  fold_left push_node (pp_disks p) ∅.

Definition ordered_nodes (p : PlacementPlanner) (bucket key : string) : list string :=
  stable_order (btree_keys (per_node p))
    (fun node_id => "node:" +:+ key_material p bucket key +:+ ":" +:+ node_id).

Definition ordered_disks (p : PlacementPlanner) (bucket key : string)
    : gmap string (list PlacementVolume) :=
  (fun disks => stable_order disks (fun disk =>
      "disk:" +:+ key_material p bucket key +:+ ":" +:+ pv_volume_id disk)) <$> per_node p.

Definition plan (p : PlacementPlanner) (bucket key : string) (data parity : nat)
    : result string PlacementRecord :=
  if bool_decide (data = 0) then Err "data shards must be >= 1"
  else
    let total := data + parity in
    if bool_decide (total = 0) then Err "at least one shard is required"
    else if bool_decide (length (pp_disks p) < total)
    then Err ("need " +:+ pretty (N.of_nat total) +:+ " disks for placement, only "
              +:+ pretty (N.of_nat (length (pp_disks p))) +:+ " available")
    else
      let chosen := place_loop (S total) (ordered_nodes p bucket key)
                      (ordered_disks p bucket key) 0 total [] in
      if bool_decide (length chosen <> total)
      then Err ("unable to place " +:+ pretty (N.of_nat total) +:+ " shards across "
                +:+ pretty (N.of_nat (length (pp_disks p))) +:+ " disks")
      else Ok {| pr_epoch_id := pp_epoch_id p; pr_cluster_id := pp_cluster_id p;
                 pr_data := data; pr_parity := parity;
                 pr_shards := imap shard_of chosen |}.

End Defs.

(** ** Sorting *)

Lemma insert_by_key_perm {A} (key : A -> string) x l : insert_by_key key x l ≡ₚ x :: l.
Proof.
  induction l as [|y l IH]; simpl; [done|]. destruct (String.leb _ _); [done|].
  rewrite IH. apply Permutation_swap.
Qed.

Lemma sort_by_key_perm {A} (key : A -> string) l : sort_by_key key l ≡ₚ l.
Proof. induction l as [|x l IH]; simpl; [done|]. by rewrite insert_by_key_perm, IH. Qed.

(** ** The deal as a transposition

    [column f nodes r] is what round [r] deals: the [r]-th disk of every node
    that has one. *)
Definition column (f : string -> list PlacementVolume) (nodes : list string) (r : nat)
    : list PlacementVolume :=
  flat_map (fun n => option_list (f n !! r)) nodes.

Definition deal (f : string -> list PlacementVolume) (nodes : list string) (rounds : nat)
    : list PlacementVolume :=
  flat_map (column f nodes) (seq 0 rounds).

Definition disks_of (m : gmap string (list PlacementVolume)) (n : string) : list PlacementVolume :=
  default [] (m !! n).

Lemma disks_of_lookup m n r : disks_of m n !! r = (m !! n ≫= fun disks => disks !! r).
Proof. unfold disks_of. by destruct (m !! n). Qed.

Lemma place_round_take nodes m round total chosen placed :
  length chosen < total ->
  let col := column (disks_of m) nodes round in
  place_round nodes m round total chosen placed
  = (take total (chosen ++ col), placed || negb (bool_decide (col = []))).
Proof.
  revert chosen placed. induction nodes as [|n nodes IH]; intros chosen placed Hlt; simpl.
  - rewrite app_nil_r, take_ge by lia. by rewrite orb_false_r.
  - rewrite <- disks_of_lookup. destruct (disks_of m n !! round) as [d|]; [|by apply IH].
    change (option_list (Some d)) with [d]. cbn [app].
    rewrite bool_decide_eq_false_2 with (P := _ :: _ = []) by done. rewrite orb_true_r.
    fold (column (disks_of m) nodes round).
    replace (chosen ++ d :: column (disks_of m) nodes round)
      with ((chosen ++ [d]) ++ column (disks_of m) nodes round) by (by rewrite <- app_assoc).
    case_bool_decide as Heq.
    + by rewrite <- Heq, take_app_length.
    + rewrite IH by (rewrite length_app in *; simpl in *; lia). done.
Qed.

Lemma column_nil_later f nodes r r' : column f nodes r = [] -> r <= r' -> column f nodes r' = [].
Proof.
  intros Hc Hle. induction nodes as [|n nodes IH]; [done|]. simpl in *.
  destruct (f n !! r) eqn:E; [done|]. apply lookup_ge_None in E.
  rewrite (lookup_ge_None_2 (f n) r') by lia. by apply IH.
Qed.

Lemma columns_nil f nodes r len : column f nodes r = [] -> flat_map (column f nodes) (seq r len) = [].
Proof.
  intros Hc. assert (Hg : forall k, r <= k -> flat_map (column f nodes) (seq k len) = []).
  { induction len as [|len IH]; intros k Hk; [done|]. simpl.
    rewrite (column_nil_later _ _ _ k Hc Hk). apply IH. lia. }
  by apply Hg.
Qed.

(** The loop deals the columns in order and stops at [total]. *)
Lemma place_loop_take fuel nodes m round total chosen :
  length chosen <= total ->
  place_loop fuel nodes m round total chosen
  = take total (chosen ++ flat_map (column (disks_of m) nodes) (seq round fuel)).
Proof.
  revert round chosen. induction fuel as [|fuel IH]; intros round chosen Hle; simpl.
  - by rewrite app_nil_r, take_ge.
  - case_bool_decide as Hlt.
    + rewrite place_round_take by done. cbn [fst snd orb]. case_bool_decide as Hc; cbn [negb].
      * rewrite Hc. rewrite columns_nil; [done|]. apply (column_nil_later _ _ round); [done|lia].
      * rewrite IH by lens.
        destruct (decide (length (chosen ++ column (disks_of m) nodes round) <= total)) as [Hl|Hl].
        -- rewrite (take_ge (chosen ++ _)) by lia. by rewrite app_assoc.
        -- rewrite app_assoc. rewrite (take_app_le _ (flat_map _ _)) by lens.
           rewrite take_take, (take_app_le _ (flat_map _ _)) by lia. f_equal. lia.
    + rewrite take_app_le by lia. rewrite take_ge by lia. done.
Qed.

(** Dealing as many rounds as the longest row deals every disk once. *)
Lemma deal_perm f nodes rounds :
  (forall n, n ∈ nodes -> length (f n) <= rounds) -> deal f nodes rounds ≡ₚ flat_map f nodes.
Proof.
  unfold deal. revert f. induction rounds as [|rounds IH]; intros f Hlen.
  - simpl. induction nodes as [|n nodes IHn]; simpl; [done|].
    rewrite (nil_length_inv (f n)); [|specialize (Hlen n ltac:(by left)); lia].
    apply IHn. intros n' Hn'. apply Hlen. by right.
  - cbn [seq flat_map]. rewrite <- seq_shift, flat_map_concat_map, map_map, <- flat_map_concat_map.
    assert (Hc : forall r, column f nodes (S r) = column (fun n => tail (f n)) nodes r).
    { intros r. apply flat_map_ext. intros n. by destruct (f n). }
    rewrite (flat_map_ext _ _ Hc). rewrite IH.
    + clear. unfold column. induction nodes as [|n nodes IHn]; simpl; [done|].
      destruct (f n) as [|d l]; simpl; [done|]. rewrite <- IHn. solve_Permutation.
    + intros n Hn. specialize (Hlen n Hn). destruct (f n); simpl in *; lia.
Qed.

(** ** The rows of the deal *)

Definition on_node (n : string) (ds : list PlacementVolume) : list PlacementVolume :=
  filter (fun d => pv_node_id d = n) ds.

Lemma push_node_disks ds m n :
  disks_of (fold_left push_node ds m) n = disks_of m n ++ on_node n ds.
Proof.
  revert m. induction ds as [|d ds IH]; intros m; simpl; [by rewrite app_nil_r|].
  rewrite IH. unfold push_node, disks_of, on_node. rewrite filter_cons.
  destruct (decide (pv_node_id d = n)) as [<-|Hne].
  - rewrite lookup_insert_eq. simpl. by rewrite <- app_assoc.
  - by rewrite lookup_insert_ne.
Qed.

Lemma push_node_dom ds m n :
  n ∈ dom (fold_left push_node ds m) <-> n ∈ dom m \/ exists d, d ∈ ds /\ pv_node_id d = n.
Proof.
  revert m. induction ds as [|d ds IH]; intros m; simpl.
  - split; [by left|]. intros [?|(? & []%not_elem_of_nil & _)]. done.
  - rewrite IH. unfold push_node. rewrite dom_insert_L, elem_of_union, elem_of_singleton.
    split; [intros [[->|?]|(d' & ? & ?)]|intros [?|(d' & [->|?]%elem_of_cons & ?)]]; auto.
    + right. exists d. split; [by left|done].
    + right. exists d'. split; [by right|done].
    + right. eauto.
Qed.

Lemma filter_split_disjoint {A} (P Q R : A -> Prop)
    `{!forall x, Decision (P x), !forall x, Decision (Q x), !forall x, Decision (R x)} (l : list A) :
  (forall x, R x <-> P x \/ Q x) -> (forall x, P x -> Q x -> False) ->
  filter R l ≡ₚ filter P l ++ filter Q l.
Proof.
  intros HR Hd. induction l as [|x l IH]; [done|]. rewrite !filter_cons.
  destruct (decide (R x)) as [Hr|Hr], (decide (P x)) as [Hp|Hp], (decide (Q x)) as [Hq|Hq];
    rewrite ?IH; solve [naive_solver|by rewrite <- Permutation_middle].
Qed.

Lemma filter_all {A} (P : A -> Prop) `{!forall x, Decision (P x)} (l : list A) :
  (forall x, x ∈ l -> P x) -> filter P l = l.
Proof.
  induction l as [|x l IH]; intros Hall; [done|].
  rewrite filter_cons_True by (apply Hall; by left). f_equal. apply IH. intros y Hy. apply Hall. by right.
Qed.

Lemma on_node_cover nodes ds :
  NoDup nodes -> (forall d, d ∈ ds -> pv_node_id d ∈ nodes) ->
  flat_map (fun n => on_node n ds) nodes ≡ₚ ds.
Proof.
  intros Hnd Hall. transitivity (filter (fun d => pv_node_id d ∈ nodes) ds).
  - clear Hall. induction Hnd as [|n nodes Hn _ IH]; simpl.
    + induction ds as [|d ds IHd]; [done|]. rewrite filter_cons_False by apply not_elem_of_nil. done.
    + rewrite IH. unfold on_node. symmetry. apply filter_split_disjoint.
      * intros d. apply elem_of_cons.
      * intros d Hd Hd'. by subst.
  - by rewrite filter_all.
Qed.

(** ** The deal of a planner *)

Section Lemmas.
  Context `{Hashes}.
  Variables (p : PlacementPlanner) (bucket key : string).

Let nodes := ordered_nodes p bucket key.
Let rows := disks_of (ordered_disks p bucket key).

Lemma ordered_nodes_NoDup : NoDup nodes.
Proof.
  unfold nodes, ordered_nodes, stable_order, btree_keys.
  rewrite sort_by_key_perm, merge_sort_Permutation. apply NoDup_elements.
Qed.

Lemma elem_of_ordered_nodes n : n ∈ nodes <-> exists d, d ∈ pp_disks p /\ pv_node_id d = n.
Proof.
  unfold nodes, ordered_nodes, stable_order, btree_keys.
  rewrite sort_by_key_perm, merge_sort_Permutation, elem_of_elements.
  unfold per_node. rewrite push_node_dom, dom_empty. set_solver.
Qed.

Lemma rows_perm n : rows n ≡ₚ on_node n (pp_disks p).
Proof.
  unfold rows, disks_of, ordered_disks. rewrite lookup_fmap.
  pose proof (push_node_disks (pp_disks p) ∅ n) as Hd. unfold disks_of in Hd.
  rewrite lookup_empty in Hd. cbn in Hd. rewrite <- Hd. unfold per_node.
  destruct (fold_left push_node (pp_disks p) ∅ !! n) as [l|]; cbn; [|done].
  apply sort_by_key_perm.
Qed.

Lemma rows_cover : flat_map rows nodes ≡ₚ pp_disks p.
Proof.
  transitivity (flat_map (fun n => on_node n (pp_disks p)) nodes).
  - clear. induction nodes as [|n ns IH]; simpl; [done|]. by rewrite IH, rows_perm.
  - apply on_node_cover; [apply ordered_nodes_NoDup|].
    intros d Hd. apply elem_of_ordered_nodes. eauto.
Qed.

Definition max_row : nat := length (pp_disks p).

Lemma row_length n : length (rows n) <= max_row.
Proof. rewrite rows_perm. unfold on_node, max_row. apply length_filter. Qed.

Lemma column_max_row : column rows nodes max_row = [].
Proof.
  unfold column. induction nodes as [|n ns IH]; simpl; [done|].
  rewrite (lookup_ge_None_2 (rows n)) by apply row_length. done.
Qed.

End Lemmas.

Lemma deal_app f nodes k j :
  deal f nodes (k + j) = deal f nodes k ++ flat_map (column f nodes) (seq k j).
Proof. unfold deal. by rewrite seq_app, flat_map_app. Qed.

(** Every round before the last non-empty one deals at least one disk. *)
Lemma deal_length_ge f nodes k : column f nodes k <> [] -> S k <= length (deal f nodes (S k)).
Proof.
  induction k as [|k IH]; intros Hc.
  - unfold deal. simpl. rewrite app_nil_r. destruct (column f nodes 0); [done|simpl; lia].
  - replace (S (S k)) with (S k + 1) by lia. rewrite deal_app, length_app. cbn [seq flat_map].
    rewrite app_nil_r. destruct (column f nodes (S k)) eqn:E; [done|]. cbn [length].
    assert (S k <= length (deal f nodes (S k))); [|lia]. apply IH. intros Hn.
    by rewrite (column_nil_later _ _ _ (S k) Hn ltac:(lia)) in E.
Qed.

(** As many rounds as shards are as good as all rounds. *)
Lemma deal_take f nodes total k rounds :
  total <= k -> column f nodes rounds = [] ->
  take total (deal f nodes k) = take total (deal f nodes rounds).
Proof.
  intros Hk Hnil. destruct (decide (rounds <= k)) as [Hge|Hlt].
  - replace k with (rounds + (k - rounds)) by lia.
    by rewrite deal_app, columns_nil, app_nil_r.
  - replace rounds with (k + (rounds - k)) by lia. rewrite deal_app.
    destruct k as [|k]; [replace total with 0 by lia; done|].
    destruct (decide (column f nodes k = [])) as [Hc|Hc].
    + rewrite columns_nil, app_nil_r; [done|]. apply (column_nil_later _ _ k); [done|lia].
    + pose proof (deal_length_ge _ _ _ Hc). by rewrite take_app_le by lia.
Qed.

Section Chosen.
  Context `{Hashes}.
  Variables (p : PlacementPlanner) (bucket key : string).

Let nodes := ordered_nodes p bucket key.
Let rows := disks_of (ordered_disks p bucket key).

Definition full_deal : list PlacementVolume := deal rows nodes (length (pp_disks p)).

Lemma full_deal_perm : full_deal ≡ₚ pp_disks p.
Proof.
  unfold full_deal. rewrite deal_perm.
  - apply rows_cover.
  - intros n _. apply row_length.
Qed.

(** What the loop of [plan] chooses: a prefix of the full deal. *)
Lemma chosen_prefix total :
  place_loop (S total) nodes (ordered_disks p bucket key) 0 total [] = take total full_deal.
Proof.
  rewrite place_loop_take by (simpl; lia). cbn [app]. unfold full_deal.
  apply (deal_take rows nodes); [lia|]. apply column_max_row.
Qed.

Lemma plan_Ok data parity r :
  plan p bucket key data parity = Ok r <->
  1 <= data /\ data + parity <= length (pp_disks p) /\
  r = mkPlacementRecord (pp_epoch_id p) (pp_cluster_id p) data parity
        (imap shard_of (take (data + parity) full_deal)).
Proof.
  unfold plan. fold nodes. rewrite chosen_prefix. rewrite length_take, (Permutation_length full_deal_perm).
  repeat case_bool_decide; try (split; [done|]; intros (? & ? & _); lia).
  split; [intros [= <-]|intros (_ & _ & ->)]; [|done]. split_and!; [lia|lia|done].
Qed.

End Chosen.

(** ** Balance across nodes *)

Lemma on_node_column f nodes n r :
  NoDup nodes -> (forall n d, d ∈ f n -> pv_node_id d = n) ->
  on_node n (column f nodes r) = if decide (n ∈ nodes) then option_list (f n !! r) else [].
Proof.
  intros Hnd row_node. unfold column. induction Hnd as [|n' ns Hn _ IH]; simpl; [done|].
  unfold on_node in *. rewrite filter_app, IH. clear IH.
  assert (Hh : filter (fun d => pv_node_id d = n) (option_list (f n' !! r))
    = if decide (n = n') then option_list (f n' !! r) else []).
  { destruct (f n' !! r) as [d|] eqn:E; [|by destruct (decide (n = n'))].
    apply list_elem_of_lookup_2 in E. change (option_list (Some d)) with [d].
    rewrite filter_cons. rewrite (row_node _ _ E).
    destruct (decide (n' = n)), (decide (n = n')); by subst. }
  rewrite Hh. destruct (decide (n = n')) as [->|Hne].
  - rewrite (decide_True (P := n' ∈ n' :: ns)) by (apply elem_of_cons; by left).
    rewrite decide_False by done. apply app_nil_r.
  - simpl. repeat case_decide; set_solver.
Qed.

Section Balance.
  Variables (f : string -> list PlacementVolume) (nodes : list string).
  Hypothesis nodes_nodup : NoDup nodes.
  Hypothesis row_node : forall n d, d ∈ f n -> pv_node_id d = n.

Lemma on_node_deal n q : n ∈ nodes -> on_node n (deal f nodes q) = take q (f n).
Proof.
  intros Hn. induction q as [|q IH]; [done|].
  replace (S q) with (q + 1) by lia. rewrite deal_app. cbn [seq flat_map]. rewrite app_nil_r.
  unfold on_node in *. rewrite filter_app, IH.
  pose proof (on_node_column f nodes n q nodes_nodup row_node) as Hc. unfold on_node in Hc. rewrite Hc, decide_True by done.
  destruct (f n !! q) as [d|] eqn:E; cbn.
  - by rewrite Nat.add_1_r, (take_S_r _ _ _ E).
  - apply lookup_ge_None in E. rewrite app_nil_r, !take_ge by lia. done.
Qed.

(** A prefix of a deal is some full rounds and a part of the next. *)
Lemma take_deal total rounds :
  exists q rem, take total (deal f nodes rounds) = deal f nodes q ++ take rem (column f nodes q).
Proof.
  induction rounds as [|R IH]; [exists 0, 0; by destruct total|].
  replace (S R) with (R + 1) by lia. rewrite deal_app. cbn [seq flat_map]. rewrite app_nil_r.
  destruct (decide (total <= length (deal f nodes R))).
  - by rewrite take_app_le.
  - exists R, (total - length (deal f nodes R)). rewrite take_app, (take_ge (deal _ _ _)) by lia. done.
Qed.

Lemma on_node_length_le n (l k : list PlacementVolume) :
  l `sublist_of` k -> length (on_node n l) <= length (on_node n k).
Proof.
  unfold on_node. induction 1 as [|x l k _ IH|x l k _ IH]; [done|..]; rewrite !filter_cons;
    repeat case_decide; simpl; lia.
Qed.

Lemma deal_balanced total rounds a b :
  b ∈ nodes ->
  let chosen := take total (deal f nodes rounds) in
  length (on_node a chosen) <= length (on_node b chosen) + 1 \/
  length (on_node b chosen) = length (f b).
Proof.
  intros Hb chosen. destruct (take_deal total rounds) as (q & rem & E). fold chosen in E.
  assert (Hpart : forall n, length (on_node n (take rem (column f nodes q)))
    <= length (on_node n (column f nodes q)))
    by (intros n; apply on_node_length_le, sublist_take).
  assert (Hcount : forall n, length (on_node n chosen)
    = length (on_node n (deal f nodes q)) + length (on_node n (take rem (column f nodes q)))).
  { intros n. rewrite E. unfold on_node. by rewrite filter_app, length_app. }
  assert (Hfull : forall n, length (on_node n (deal f nodes q)) <= q).
  { intros n. destruct (decide (n ∈ nodes)) as [Hn|Hn].
    - rewrite on_node_deal, length_take by done. lia.
    - clear -Hn nodes_nodup row_node. induction q as [|q IH]; [done|].
      replace (S q) with (q + 1) by lia. rewrite deal_app. cbn [seq flat_map].
      pose proof (on_node_column f nodes n q nodes_nodup row_node) as Hc. rewrite decide_False in Hc by done.
      unfold on_node in *. rewrite app_nil_r, filter_app, length_app, Hc. simpl. lia. }
  rewrite !Hcount. pose proof (Hpart a) as Ha. pose proof (Hpart b) as Hb'.
  rewrite on_node_column in Ha, Hb' by done. rewrite decide_True in Hb' by done.
  rewrite (on_node_deal b) in * by done. rewrite length_take. pose proof (Hfull a).
  assert (length (if decide (a ∈ nodes) then option_list (f a !! q) else []) <= 1).
  { case_decide; [|simpl; lia]. destruct (f a !! q); simpl; lia. }
  destruct (f b !! q) as [d|] eqn:Eq; cbn in Hb'.
  - apply lookup_lt_Some in Eq. left. lia.
  - apply lookup_ge_None in Eq. right. lia.
Qed.

End Balance.

(** ** Properties *)

(** The disks a placement refers to, in shard order. *)
Definition shard_nodes (r : PlacementRecord) : list string := map ps_node_id (pr_shards r).

Lemma map_shard_of {C} (g : PlacementShard -> C) (h : PlacementVolume -> C) l :
  (forall i d, g (shard_of i d) = h d) -> map g (imap shard_of l) = map h l.
Proof.
  intros Hg. induction l as [|d l IH] using rev_ind; [done|].
  rewrite imap_app, !map_app, IH. simpl. by rewrite Hg.
Qed.

Lemma count_node n l : length (filter (.= n) (map pv_node_id l)) = length (on_node n l).
Proof.
  unfold on_node. induction l as [|d l IH]; [done|]. cbn [map]. rewrite !filter_cons.
  case_decide; simpl; by rewrite IH.
Qed.

(** [plan] succeeds exactly when at least one data shard is asked for and
    the cluster has a disk for every shard: the final check of the source can
    never fail, and the dealing loop always ends. *)
Theorem plan_succeeds_iff `{Hashes} p bucket key data parity :
  is_ok (plan p bucket key data parity) = true <->
  1 <= data /\ data + parity <= length (pp_disks p).
Proof.
  destruct (plan p bucket key data parity) as [r|e] eqn:E; cbn [is_ok].
  - apply plan_Ok in E as (? & ? & _). tauto.
  - split; [done|]. intros [Hd Ht]. by rewrite (proj2 (plan_Ok p bucket key data parity _)
      (conj Hd (conj Ht eq_refl))) in E.
Qed.

(** A placement gives every shard a disk of its own: shard [i] carries index
    [i], the disks used are distinct entries of the cluster's disk list, and so
    distinct volumes whenever the volume ids are distinct. *)
Theorem plan_distinct_disks `{Hashes} p bucket key data parity r :
  plan p bucket key data parity = Ok r ->
  exists chosen, chosen ⊆+ pp_disks p /\ length chosen = data + parity /\
    pr_shards r = imap shard_of chosen /\
    (NoDup (map pv_volume_id (pp_disks p)) -> NoDup (map ps_volume_id (pr_shards r))).
Proof.
  intros (_ & Ht & ->)%plan_Ok. cbn [pr_shards].
  pose proof (full_deal_perm p bucket key) as Hp. exists (take (data + parity) (full_deal p bucket key)).
  assert (Hsub : take (data + parity) (full_deal p bucket key) ⊆+ pp_disks p).
  { rewrite <- Hp. apply sublist_submseteq, sublist_take. }
  split_and!; [done| |done|].
  - rewrite length_take, (Permutation_length Hp). lia.
  - rewrite (map_shard_of _ pv_volume_id) by done. intros Hnd.
    rewrite <- (Permutation_map pv_volume_id Hp) in Hnd. eapply sublist_NoDup; [exact Hnd|].
    rewrite <- firstn_map. apply sublist_take.
Qed.

(** C31: Shards are spread over nodes as evenly as their disks allow: no node
    holds two shards more than another unless every disk of the other is
    already in use. *)
Theorem plan_balanced `{Hashes} p bucket key data parity r a b :
  plan p bucket key data parity = Ok r -> b ∈ map pv_node_id (pp_disks p) ->
  let count n := length (filter (.= n) (shard_nodes r)) in
  count a <= count b + 1 \/ count b = length (on_node b (pp_disks p)).
Proof.
  intros (_ & Ht & ->)%plan_Ok Hb count.
  assert (Hcount : forall n, count n
    = length (on_node n (take (data + parity) (full_deal p bucket key)))).
  { intros n. unfold count, shard_nodes. cbn [pr_shards].
    rewrite (map_shard_of _ pv_node_id) by done. apply count_node. }
  rewrite !Hcount, <- (Permutation_length (rows_perm p bucket key b)).
  apply deal_balanced.
  - apply ordered_nodes_NoDup.
  - intros n d Hd. rewrite rows_perm in Hd. by apply list_elem_of_filter in Hd as [? _].
  - apply elem_of_ordered_nodes. apply list_elem_of_fmap in Hb as (d & -> & ?). eauto.
Qed.

(** ** Witnesses: three disks on one node and one on another *)

Definition ex_planner : PlacementPlanner :=
  mkPlacementPlanner 7 "c1" [mkPlacementVolume 0 "n1" "v1"; mkPlacementVolume 1 "n1" "v2";
    mkPlacementVolume 2 "n1" "v3"; mkPlacementVolume 3 "n2" "v4"].

Definition ex_record : PlacementRecord :=
  match @plan example_hashes ex_planner "photos" "cat" 2 1 with
  | Ok r => r | Err _ => mkPlacementRecord 0 "" 0 0 [] end.

Lemma plan_distinct_disks_witness :
  @plan example_hashes ex_planner "photos" "cat" 2 1 = Ok ex_record /\
  NoDup (map ps_volume_id (pr_shards ex_record)).
Proof.
  assert (E : @plan example_hashes ex_planner "photos" "cat" 2 1 = Ok ex_record)
    by (vm_compute; reflexivity).
  split; [exact E|]. destruct (@plan_distinct_disks example_hashes _ _ _ _ _ _ E) as (c & _ & _ & _ & Hnd).
  apply Hnd. by_decide.
Defined.

Lemma plan_balanced_witness :
  length (filter (.= "n1") (shard_nodes ex_record)) = 2 /\
  (2 <= length (filter (.= "n2") (shard_nodes ex_record)) + 1
   \/ length (filter (.= "n2") (shard_nodes ex_record)) = length (on_node "n2" (pp_disks ex_planner))).
Proof.
  assert (E : @plan example_hashes ex_planner "photos" "cat" 2 1 = Ok ex_record)
    by (vm_compute; reflexivity).
  split; [vm_compute; reflexivity|].
  exact (@plan_balanced example_hashes _ _ _ _ _ _ "n1" "n2" E
    ltac:(by_decide)).
Defined.
