(* ===== verification/Erasure.v ===== *)
(** Erasure coding of one object's bytes ([src/storage/erasure_encode.rs]): the
    hash-seeded disk permutation, the splitting of a block into data shards, and
    the block-by-block encoding of a body into shard streams.

    The block size is an argument [block] of the definitions that use it; the
    source's value is [STREAM_BLOCK_SIZE].  The Reed-Solomon crate is a
    parameter with the law its documentation states. *)

From Stdlib Require Import Ascii.
From stdpp Require Import base list strings numbers.
From S2P Require Import Prelude Metadata.

Definition STREAM_BLOCK_SIZE : nat := N.to_nat (1024 * 1024).
Definition PIPELINE_MIN_BYTES : nat := N.to_nat (1024 * 1024).

(** ** The disk permutation of multipart uploads *)

Section HashOrder.
  Context `{Hashes}.

Definition swap {A : Type} (l : list A) (i j : nat) : list A :=
  match l !! i, l !! j with
  | Some x, Some y => <[i := y]> (<[j := x]> l)
  | _, _ => l
  end.

(** The hash has 32 bytes. *)
Definition hash_byte (hash : bytes) (i : nat) : N := byte_val (nth i hash zero_byte).

Definition shuffle_step (hash : bytes) (indices : list nat) (i : nat) : list nat :=
  let h_idx := (i * 2) mod 32 in
  let rand_val := N.lor (N.shiftl (hash_byte hash h_idx) 8) (hash_byte hash ((h_idx + 1) mod 32)) in
  let j := N.to_nat (rand_val mod N.of_nat (i + 1)) in
  swap indices i j.

Definition hash_order (key : string) (n : nat) : list nat :=
  fold_left (shuffle_step (sha256 (bytes_of key))) (rev (seq 1 (n - 1))) (seq 0 n).

End HashOrder.

(** ** Splitting *)

Definition div_ceil (a b : nat) : nat := (a + b - 1) / b.

(** [data.len().div_ceil(count).max(1)]; [count] is at least one. *)
Definition shard_size (len count : nat) : nat := Nat.max (div_ceil len count) 1.

(** The body of both splitting loops for shard [i]. *)
Definition shard_at (data : bytes) (size i : nat) : bytes :=
  let start := i * size in
  if bool_decide (length data <= start) then replicate size zero_byte
  else
    let e := Nat.min (start + size) (length data) in
    resize size zero_byte (sub_list start (e - start) data).

Definition split_data (data : bytes) (count : nat) : list bytes :=
  map (shard_at data (shard_size (length data) count)) (seq 0 count).

Definition split_data_into (data : bytes) (count : nat) (buffers : list bytes) : list bytes :=
  let size := shard_size (length data) count in
  imap (fun i buf => if bool_decide (i < count) then shard_at data size i else buf) buffers.

(** ** Reed-Solomon *)

(** [ReedSolomon::new], [encode] on the data shards followed by zeroed parity
    buffers, and [reconstruct]; [None] is an error of the crate. *)
Class ReedSolomon : Type := {
  rs_new_ok : nat -> nat -> bool;
  rs_encode : nat -> nat -> list bytes -> option (list bytes);
  rs_reconstruct : nat -> nat -> list (option bytes) -> option (list (option bytes));
}.

(** Some shards of [shards] are missing. *)
Definition erased (shards : list bytes) (slots : list (option bytes)) : Prop :=
  Forall2 (fun s o => o = None \/ o = Some s) shards slots.

Definition good_count {A : Type} (slots : list (option A)) : nat :=
  length (List.filter (fun o => bool_decide (is_Some o)) slots).

(** The documented contract: encoding keeps the data shards and fills the
    parity shards, and any [data] of the shards determine them all. *)
Class ReedSolomonOk `{ReedSolomon} : Prop := {
  rs_encode_ok : forall dn pn len data zeros,
    rs_new_ok dn pn = true -> length data = dn -> length zeros = pn -> 0 < len ->
    Forall (fun s => length s = len) data -> Forall (fun s => length s = len) zeros ->
    exists parity, rs_encode dn pn (data ++ zeros) = Some (data ++ parity) /\
      length parity = pn /\ Forall (fun s => length s = len) parity;
  rs_reconstruct_ok : forall dn pn len data zeros shards slots,
    rs_new_ok dn pn = true -> length data = dn -> length zeros = pn -> 0 < len ->
    Forall (fun s => length s = len) data -> Forall (fun s => length s = len) zeros ->
    rs_encode dn pn (data ++ zeros) = Some shards ->
    erased shards slots -> dn <= good_count slots ->
    rs_reconstruct dn pn slots = Some (map Some shards);
}.

(** ** Encoding a body block by block *)

Section Encode.
  Context `{ReedSolomon}.
  Variables (block dn pn : nat).

(** The first half of [write_block]: the shard buffers of one block. *)
Definition block_shards (data : bytes) (bufs : list bytes) : option (list bytes) :=
  let bufs := split_data_into data dn bufs in
  if bool_decide (0 < pn) then
    let size := length (nth 0 bufs []) in
    let bufs := imap (fun i buf => if bool_decide (dn <= i) && bool_decide (i < dn + pn)
                                   then replicate size zero_byte else buf) bufs in
    rs_encode dn pn bufs
  else Some bufs.

(** The full blocks at the front of a buffer, and what is left: the inner
    [while block_buf.len() >= STREAM_BLOCK_SIZE]. *)
Fixpoint full_blocks (fuel : nat) (buf : bytes) : list bytes * bytes :=
  match fuel with
  | 0 => ([], buf)
  | S fuel =>
      if bool_decide (block <= length buf) then
        let r := full_blocks fuel (drop block buf) in (take block buf :: r.1, r.2)
      else ([], buf)
  end.

(** The sequence of blocks a stream of chunks is cut into. *)
Fixpoint stream_blocks (chunks : list bytes) (buf : bytes) : list bytes :=
  match chunks with
  | [] => if bool_decide (buf = []) then [] else [buf]
  | c :: chunks =>
      let r := full_blocks (length (buf ++ c)) (buf ++ c) in
      r.1 ++ stream_blocks chunks r.2
  end.

End Encode.

(** ** Lemmas: the permutation *)

Lemma insert_perm {A} (l : list A) i x y :
  l !! i = Some x -> x :: <[i := y]> l ≡ₚ y :: l.
Proof.
  intros Hi. rewrite (delete_Permutation l i x Hi) at 2.
  rewrite (delete_Permutation (<[i := y]> l) i y)
    by (apply list_lookup_insert_eq; by eapply lookup_lt_Some).
  rewrite !delete_take_drop, take_insert_ge, drop_insert_lt by lia. apply Permutation_swap.
Qed.

Lemma swap_perm {A} (l : list A) i j : swap l i j ≡ₚ l.
Proof.
  unfold swap. destruct (l !! i) as [x|] eqn:Ei, (l !! j) as [y|] eqn:Ej; try done.
  apply (Permutation_cons_inv (a := x)).
  rewrite insert_perm; [by apply insert_perm|].
  destruct (decide (i = j)) as [->|Hne].
  - rewrite list_lookup_insert_eq by (by eapply lookup_lt_Some). by simplify_eq.
  - by rewrite list_lookup_insert_ne.
Qed.

(** ** Lemmas: splitting *)

Lemma shard_at_resize data size i : shard_at data size i = resize size zero_byte (drop (i * size) data).
Proof.
  unfold shard_at. case_bool_decide as Hle.
  - rewrite drop_ge by lia. by rewrite resize_nil.
  - unfold sub_list. destruct (decide (i * size + size <= length data)).
    + rewrite Nat.min_l by lia. replace (i * size + size - i * size) with size by lia.
      rewrite !resize_le by lens. by rewrite take_take, Nat.min_id.
    + rewrite Nat.min_r by lia. by rewrite take_ge by lens.
Qed.

Lemma length_shard_at data size i : length (shard_at data size i) = size.
Proof. by rewrite shard_at_resize, length_resize. Qed.
#[export] Hint Rewrite @length_shard_at : lens.

Lemma concat_shards data size n :
  concat (map (shard_at data size) (seq 0 n)) = resize (n * size) zero_byte data.
Proof.
  induction n as [|n IH]; [by rewrite resize_0|].
  rewrite seq_S, map_app, concat_app, IH. cbn [map concat Nat.add]. rewrite app_nil_r, shard_at_resize.
  rewrite <- resize_add. f_equal. lia.
Qed.

Lemma div_ceil_mul a b : 0 < b -> a <= b * div_ceil a b.
Proof.
  intros Hb. unfold div_ceil.
  pose proof (Nat.div_mod (a + b - 1) b ltac:(lia)). pose proof (Nat.mod_upper_bound (a + b - 1) b).
  lia.
Qed.

Lemma shard_size_pos len n : 0 < shard_size len n.
Proof. unfold shard_size. lia. Qed.

Lemma shard_size_cover len n : 0 < n -> len <= n * shard_size len n.
Proof. intros Hn. pose proof (div_ceil_mul len n Hn). unfold shard_size. nia. Qed.

Lemma take_resize_id {A} n (x : A) l : length l <= n -> take (length l) (resize n x l) = l.
Proof. intros Hle. rewrite resize_ge by done. by rewrite take_app_length. Qed.

Lemma length_split_data data n : length (split_data data n) = n.
Proof. unfold split_data. by rewrite length_map, length_seq. Qed.
#[export] Hint Rewrite @length_split_data : lens.

Lemma split_data_sizes data n :
  Forall (fun s => length s = shard_size (length data) n) (split_data data n).
Proof. unfold split_data. apply Forall_map, Forall_forall. intros i _. apply length_shard_at. Qed.

Lemma split_join data n : 0 < n -> take (length data) (concat (split_data data n)) = data.
Proof.
  intros Hn. unfold split_data. rewrite concat_shards. apply take_resize_id.
  by apply shard_size_cover.
Qed.

Lemma split_into_split data n bufs :
  n <= length bufs -> split_data_into data n bufs = split_data data n ++ drop n bufs.
Proof.
  intros Hn. unfold split_data_into, split_data. apply list_eq. intros i.
  rewrite list_lookup_imap. destruct (decide (i < n)) as [Hi|Hi].
  - rewrite lookup_app_l by (by rewrite length_map, length_seq).
    rewrite list_lookup_fmap. destruct (lookup_lt_is_Some_2 bufs i ltac:(lia)) as [b ->].
    rewrite lookup_seq_lt by done. cbn. by rewrite bool_decide_eq_true_2.
  - rewrite lookup_app_r by lens.
    rewrite length_map, length_seq, lookup_drop. replace (n + (i - n)) with i by lia.
    destruct (bufs !! i); cbn; [|done]. by rewrite bool_decide_eq_false_2.
Qed.

(** ** Lemmas: blocks *)

(** [chopped block data bl]: [bl] is [data] cut into blocks, the last of which
    may be short but is not empty. *)
Inductive chopped (block : nat) : bytes -> list bytes -> Prop :=
  | chop_nil : chopped block [] []
  | chop_last d : d <> [] -> length d < block -> chopped block d [d]
  | chop_cons b rest bl :
      length b = block -> chopped block rest bl -> chopped block (b ++ rest) (b :: bl).

Lemma full_blocks_spec block fuel buf :
  0 < block -> length buf <= fuel ->
  let r := full_blocks block fuel buf in
  concat r.1 ++ r.2 = buf /\ Forall (fun b => length b = block) r.1 /\ length r.2 < block.
Proof.
  intros Hb. revert buf. induction fuel as [|fuel IH]; intros buf Hl; cbn.
  - destruct buf; simpl in *; [|lia]. split_and!; [done|constructor|lia].
  - case_bool_decide as Hle; cbn.
    + specialize (IH (drop block buf) ltac:(lens)). cbn in IH.
      destruct IH as (Hc & Hf & Hr). split_and!; [|constructor; [|done]|done].
      * rewrite <- app_assoc, Hc. apply take_drop.
      * rewrite length_take. lia.
    + split_and!; [done|constructor|lia].
Qed.

Lemma chopped_full block bs rest bl :
  Forall (fun b => length b = block) bs -> chopped block rest bl ->
  chopped block (concat bs ++ rest) (bs ++ bl).
Proof.
  intros Hf Hc. induction Hf as [|b bs Hb _ IH]; [done|]. cbn. rewrite <- app_assoc.
  by constructor.
Qed.

Lemma stream_blocks_chopped block chunks buf :
  0 < block -> length buf < block ->
  chopped block (buf ++ concat chunks) (stream_blocks block chunks buf).
Proof.
  intros Hb. revert buf. induction chunks as [|c chunks IH]; intros buf Hl; cbn.
  - rewrite app_nil_r. case_bool_decide; [subst; constructor|by constructor].
  - destruct (full_blocks_spec block (length (buf ++ c)) (buf ++ c) Hb ltac:(done)) as (Hc & Hf & Hr).
    set (r := full_blocks _ _ _) in *. rewrite app_assoc, <- Hc, <- app_assoc.
    apply chopped_full; [done|]. by apply IH.
Qed.

(** ** Lemmas: coded blocks *)

Section Coded.
  Context `{ReedSolomon} `{!ReedSolomonOk}.
  Variables (dn pn : nat).
  Hypothesis (dn_pos : 0 < dn) (rs_ok : 0 < pn -> rs_new_ok dn pn = true).

(** The shards of one block. *)
Record coded (data : bytes) (shards : list bytes) : Prop := {
  coded_length : length shards = dn + pn;
  coded_sizes : Forall (fun s => length s = shard_size (length data) dn) shards;
  coded_data : take dn shards = split_data data dn;
  coded_parity : 0 < pn ->
    rs_encode dn pn (split_data data dn ++ replicate pn (replicate (shard_size (length data) dn) zero_byte))
    = Some shards;
}.

Lemma parity_zeroed (l bufs : list bytes) z :
  length l = dn -> length bufs = pn ->
  imap (fun i buf => if bool_decide (dn <= i) && bool_decide (i < dn + pn) then z else buf) (l ++ bufs)
  = l ++ replicate pn z.
Proof.
  intros Hl Hb. rewrite imap_app. f_equal.
  - transitivity (imap (fun _ (x : bytes) => x) l).
    + apply imap_ext. intros i x Hi%lookup_lt_Some. by rewrite bool_decide_eq_false_2 by lia.
    + clear. induction l as [|x l IH]; [done|]. cbn. by f_equal.
  - apply list_eq. intros i. rewrite list_lookup_imap.
    destruct (decide (i < pn)) as [Hi|Hi].
    + rewrite lookup_replicate_2 by done. destruct (lookup_lt_is_Some_2 bufs i ltac:(lia)) as [x ->].
      cbn. by rewrite !bool_decide_eq_true_2 by lia.
    + rewrite (lookup_ge_None_2 bufs) by lia. symmetry. apply lookup_ge_None_2.
      rewrite length_replicate. lia.
Qed.

(** [write_block] codes its block, whatever the buffers held before. *)
Lemma block_shards_coded data bufs :
  length bufs = dn + pn ->
  exists shards, block_shards dn pn data bufs = Some shards /\ coded data shards.
Proof.
  intros Hlen. unfold block_shards. rewrite split_into_split by lia.
  set (sz := shard_size (length data) dn).
  assert (Hnth : length (nth 0 (split_data data dn ++ drop dn bufs) []) = sz).
  { pose proof (split_data_sizes data dn) as Hs. pose proof (length_split_data data dn) as Hl.
    destruct (split_data data dn) as [|s ss]; simpl in *; [lia|]. by inversion Hs. }
  rewrite Hnth. case_bool_decide as Hpn.
  - rewrite parity_zeroed by lens.
    destruct (rs_encode_ok dn pn sz (split_data data dn) (replicate pn (replicate sz zero_byte)))
      as (parity & Henc & Hlp & Hfp).
    + by apply rs_ok.
    + apply length_split_data.
    + apply length_replicate.
    + apply shard_size_pos.
    + apply split_data_sizes.
    + apply Forall_replicate, length_replicate.
    + rewrite Henc. eexists. split; [done|]. constructor.
      * rewrite length_app, length_split_data. lia.
      * apply Forall_app. split; [apply split_data_sizes|done].
      * by rewrite take_app_length' by (by rewrite length_split_data).
      * by intros _.
  - rewrite drop_ge by lia. rewrite app_nil_r. eexists. split; [done|]. constructor.
    + rewrite length_split_data. lia.
    + apply split_data_sizes.
    + rewrite take_ge; [done|]. by rewrite length_split_data.
    + lia.
Qed.

End Coded.

(** The shard streams of a sequence of coded blocks. *)
Definition join_blocks (total : nat) (bss : list (list bytes)) : list bytes :=
  foldr (zip_with app) (replicate total []) bss.

Lemma length_join_blocks total bss :
  Forall (fun bs => length bs = total) bss -> length (join_blocks total bss) = total.
Proof.
  induction 1 as [|bs bss Hl _ IH]; cbn; [apply length_replicate|].
  rewrite length_zip_with. unfold join_blocks in IH. lia.
Qed.

(** ** A concrete code: one XOR parity shard *)

Definition axor (a b : ascii) : ascii :=
  match a, b with
  | Ascii a0 a1 a2 a3 a4 a5 a6 a7, Ascii b0 b1 b2 b3 b4 b5 b6 b7 =>
      Ascii (xorb a0 b0) (xorb a1 b1) (xorb a2 b2) (xorb a3 b3)
            (xorb a4 b4) (xorb a5 b5) (xorb a6 b6) (xorb a7 b7)
  end.

Definition xor_bytes (a b : bytes) : bytes := zip_with axor a b.

Definition xor_all (len : nat) (ss : list bytes) : bytes :=
  foldr xor_bytes (replicate len zero_byte) ss.

Definition first_length (slots : list (option bytes)) : nat :=
  match omap id slots with s :: _ => length s | [] => 0 end.

Definition xor_code : ReedSolomon := {|
  rs_new_ok := fun dn pn => bool_decide (0 < dn) && bool_decide (pn = 1);
  rs_encode := fun dn pn l =>
    Some (take dn l ++ [xor_all (length (nth 0 l [])) (take dn l)]);
  rs_reconstruct := fun dn pn slots =>
    let x := xor_all (first_length slots) (omap id slots) in
    Some (map (fun o => Some (default x o)) slots) |}.

Lemma xor_bytes_comm3 a b c : xor_bytes a (xor_bytes b c) = xor_bytes b (xor_bytes a c).
Proof.
  revert b c. induction a as [|x a IH]; intros [|y b] [|z c]; try done. unfold xor_bytes in *. cbn.
  f_equal; [|apply IH]. destruct x, y, z; cbn. f_equal; rewrite <- !xorb_assoc; f_equal; apply xorb_comm.
Qed.

Lemma xor_bytes_cancel a b : length a = length b -> xor_bytes a (xor_bytes a b) = b.
Proof.
  revert b. induction a as [|x a IH]; intros [|y b] Hl; try done. unfold xor_bytes in *. cbn.
  f_equal; [|apply IH; by injection Hl]. destruct x, y; cbn.
  f_equal; by rewrite <- xorb_assoc, xorb_nilpotent, xorb_false_l.
Qed.

Lemma xor_bytes_zero a : xor_bytes a (replicate (length a) zero_byte) = a.
Proof.
  induction a as [|x a IH]; [done|]. unfold xor_bytes in *.
  cbn [length replicate zip_with]. rewrite IH. f_equal. destruct x.
  change zero_byte with (Ascii false false false false false false false false).
  cbn [axor]. by rewrite !xorb_false_r.
Qed.

Lemma length_xor_all len ss : Forall (fun s => length s = len) ss -> length (xor_all len ss) = len.
Proof.
  unfold xor_all. induction 1 as [|s ss Hs _ IH]; cbn [foldr]; [apply length_replicate|].
  unfold xor_bytes at 1. rewrite length_zip_with. lia.
Qed.

Lemma xor_all_middle len l1 s l2 : xor_all len (l1 ++ s :: l2) = xor_bytes s (xor_all len (l1 ++ l2)).
Proof.
  unfold xor_all. induction l1 as [|x l1 IH]; [done|]. cbn [app foldr].
  rewrite IH. apply xor_bytes_comm3.
Qed.

(** A missing shard is the XOR of all the others, the parity included. *)
Lemma xor_missing len data l1 s l2 :
  Forall (fun s => length s = len) data ->
  data ++ [xor_all len data] = l1 ++ s :: l2 -> xor_all len (l1 ++ l2) = s.
Proof.
  intros Hf E.
  assert (Hall : Forall (fun s => length s = len) (l1 ++ s :: l2)).
  { rewrite <- E. apply Forall_app. split; [done|]. constructor; [by apply length_xor_all|constructor]. }
  assert (Hz : xor_all len (l1 ++ s :: l2) = replicate len zero_byte).
  { rewrite <- E, xor_all_middle, app_nil_r.
    rewrite <- (xor_bytes_zero (xor_all len data)) at 2. rewrite length_xor_all by done.
    apply xor_bytes_cancel. by rewrite length_xor_all, length_replicate. }
  rewrite xor_all_middle in Hz.
  apply Forall_app in Hall as [H1 H2]. inversion H2 as [|? ? Hs H3]; subst.
  rewrite <- (xor_bytes_cancel s (xor_all (length s) (l1 ++ l2))).
  - rewrite Hz. apply xor_bytes_zero.
  - by rewrite length_xor_all by (by apply Forall_app).
Qed.

Lemma good_count_cons {A} (o : option A) l :
  good_count (o :: l) = (if o then 1 else 0) + good_count l.
Proof.
  unfold good_count. simpl. destruct o.
  - by rewrite bool_decide_eq_true_2 by eauto.
  - by rewrite bool_decide_eq_false_2 by apply is_Some_None.
Qed.

Lemma good_count_le {A} (l : list (option A)) : good_count l <= length l.
Proof. induction l as [|o l IH]; [done|]. rewrite good_count_cons. destruct o; simpl; lia. Qed.

Lemma good_count_all {A} (l : list (option A)) :
  length l <= good_count l -> l = map Some (omap id l).
Proof.
  induction l as [|o l IH]; [done|]. rewrite good_count_cons. cbn [length]. pose proof (good_count_le l).
  destruct o as [x|]; [|lia]. intros Hl. cbn. f_equal. apply IH. lia.
Qed.

Lemma erased_all shards slots :
  erased shards slots -> length shards <= good_count slots -> slots = map Some shards.
Proof.
  induction 1 as [|s o shards slots Ho Her IH]; [done|]. rewrite good_count_cons. cbn [length map].
  pose proof (good_count_le slots). pose proof (Forall2_length Her).
  destruct Ho as [->| ->]; [lia|]. intros. f_equal. apply IH. lia.
Qed.

Lemma erased_one shards slots :
  erased shards slots -> length shards <= S (good_count slots) ->
  slots = map Some shards \/
  exists l1 s l2, shards = l1 ++ s :: l2 /\ slots = map Some l1 ++ None :: map Some l2.
Proof.
  induction 1 as [|s o shards slots Ho Her IH]; [by left|]. rewrite good_count_cons. cbn [length].
  pose proof (good_count_le slots). pose proof (Forall2_length Her). intros Hl.
  destruct Ho as [->| ->].
  - right. exists [], s, shards. split; [done|]. cbn. f_equal. apply erased_all; [done|lia].
  - destruct IH as [->|(l1 & s' & l2 & -> & ->)]; [lia|by left|].
    right. by exists (s :: l1), s', l2.
Qed.

Lemma omap_map_Some {A} (l : list A) : omap id (map Some l) = l.
Proof. induction l as [|x l IH]; [done|]. cbn. f_equal. exact IH. Qed.

Global Instance xor_code_ok : @ReedSolomonOk xor_code.
Proof.
  split.
  - intros dn pn len data zeros Hok Hl Hz Hlen Hf Hfz. cbn in *.
    apply andb_true_iff in Hok as [Hdn%bool_decide_eq_true Hpn%bool_decide_eq_true]. subst pn.
    exists [xor_all len data]. rewrite take_app_length' by done.
    destruct data as [|d data]; [simpl in *; lia|]. cbn [app nth].
    inversion Hf; subst. split_and!; [done|done|]. constructor; [|constructor].
    by apply length_xor_all.
  - intros dn pn len data zeros shards slots Hok Hl Hz Hlen Hf Hfz Henc Her Hg. cbn in *.
    apply andb_true_iff in Hok as [Hdn%bool_decide_eq_true Hpn%bool_decide_eq_true]. subst pn.
    injection Henc as <-. rewrite take_app_length' in * by done.
    replace (length (nth 0 (data ++ zeros) [])) with len in *
      by (destruct data; [simpl in *; lia|]; by inversion Hf).
    destruct (erased_one _ _ Her) as [->|(l1 & s & l2 & E & ->)].
    + rewrite length_app. simpl. lia.
    + f_equal. rewrite map_map. by apply map_ext.
    + f_equal. rewrite E, !map_app. cbn [map default]. rewrite !map_map. repeat f_equal.
      rewrite omap_app. cbn [omap list_omap id]. rewrite !omap_map_Some.
      replace (first_length _) with len; [exact (xor_missing len data l1 s l2 Hf E)|].
      unfold first_length. rewrite omap_app. cbn [omap list_omap id]. rewrite !omap_map_Some.
      assert (Hall : Forall (fun s => length s = len) (l1 ++ s :: l2)).
      { rewrite <- E. apply Forall_app. split; [done|]. constructor; [by apply length_xor_all|constructor]. }
      apply (f_equal length) in E. rewrite !length_app in E. cbn [length] in E.
      apply Forall_app in Hall as [Ha1 Ha2]. inversion Ha2; subst.
      destruct l1; [destruct l2; [simpl in *; lia|]|]; cbn; symmetry;
        match goal with Hh : Forall _ (?x :: _) |- length ?x = _ => by inversion Hh end.
Qed.

(** ** Properties *)

(** [hash_order] is a permutation of the disk indices for every key and
    every number of disks, so no disk is used twice or left out. *)
Theorem hash_order_permutation `{Hashes} key n : hash_order key n ≡ₚ seq 0 n.
Proof.
  unfold hash_order. generalize (rev (seq 1 (n - 1))) as ks. generalize (seq 0 n) as l.
  intros l ks. revert l. induction ks as [|i ks IH]; intros l; [done|].
  cbn [fold_left]. rewrite IH. apply swap_perm.
Qed.

(** Splitting a block into [n] data shards loses nothing: the shards all have
    the advertised size, joining them and trimming to the length of the block
    gives it back, and the allocation-free [split_data_into] fills the first [n]
    buffers with exactly the shards of [split_data] and leaves the others alone. *)
Theorem split_data_roundtrip data n bufs :
  0 < n -> n <= length bufs ->
  Forall (fun s => length s = shard_size (length data) n) (split_data data n) /\
  take (length data) (concat (split_data data n)) = data /\
  split_data_into data n bufs = split_data data n ++ drop n bufs.
Proof.
  intros Hn Hb. split_and!; [apply split_data_sizes|by apply split_join|by apply split_into_split].
Qed.

Lemma split_data_roundtrip_witness :
  take 7 (concat (split_data (bytes_of "shardme") 3)) = bytes_of "shardme".
Proof.
  exact (proj1 (proj2 (split_data_roundtrip (bytes_of "shardme") 3 [[]; []; []; []]
    ltac:(lia) ltac:(simpl; lia)))).
Defined.
