(* ===== verification/Backend.v ===== *)
(** The interface between the erasure-coding layer and one volume: the part of
    the [Backend] and [ShardWriter] traits of [src/storage/mod.rs] that encoding
    and decoding use, what the layer relies on, and an in-memory volume that
    satisfies it.

    [B] is the state of a volume and [W] that of an open shard writer; an
    operation that changes a volume returns the new one, and opening a writer and
    writing through it are such operations. *)

From Stdlib Require Import Ascii.
From stdpp Require Import base list gmap strings numbers.
From S2P Require Import Prelude Metadata.

Class Backend (B W : Type) : Type := {
  open_shard_writer : B -> string -> string -> option string -> B * Result W;
  write_chunk : B -> W -> bytes -> B * Result W;
  finalize : B -> W -> ObjectMeta -> B * Result unit;
  read_shard : B -> string -> string -> Result (bytes * ObjectMeta);
  read_versioned_shard : B -> string -> string -> string -> Result (bytes * ObjectMeta);
  stat_object : B -> string -> string -> Result ObjectMeta;
  delete_object : B -> string -> string -> B * Result unit;
}.

(** [mmap_shard]'s default: the shard is read into memory. *)
Definition mmap_shard {B W : Type} `{Backend B W} (d : B) (b k : string)
    : Result (bytes * ObjectMeta) := read_shard d b k.

(** The metadata of an unversioned object. *)
Definition plain_meta (m : ObjectMeta) : Prop :=
  version_id m = "" /\ is_delete_marker m = false /\ is_latest m = true /\ inline_data m = None.

(** What an unversioned PUT relies on.  [writer_has d w o bs]: on the volume [d] the
    writer [w] of the object [o] has been given the bytes [bs].  A volume may keep
    them anywhere, its own files included: opening a writer truncates the shard of
    an object that is there.  But an object that [stat_object] does not find cannot
    be read, stays unfound until its writer is finalized, and is not there after a
    writer that failed to finalize; a finalized writer's bytes and metadata are what
    the volume reads next. *)
Class BackendOk (B W : Type) `{Backend B W} : Type := {
  writer_has : B -> W -> string * string * option string -> bytes -> Prop;
  open_writer_ok : forall d b k v d' w, open_shard_writer d b k v = (d', Ok w) ->
    writer_has d' w (b, k, v) [];
  write_chunk_ok : forall d w c d' w' o bs, writer_has d w o bs -> write_chunk d w c = (d', Ok w') ->
    writer_has d' w' o (bs ++ c);
  absent_unreadable : forall d b k, is_ok (stat_object d b k) = false -> is_ok (read_shard d b k) = false;
  open_absent : forall d b k v, is_ok (stat_object d b k) = false ->
    is_ok (stat_object (open_shard_writer d b k v).1 b k) = false;
  write_absent : forall d w c b k v bs, writer_has d w (b, k, v) bs -> is_ok (stat_object d b k) = false ->
    is_ok (stat_object (write_chunk d w c).1 b k) = false;
  finalize_read_ok : forall d w bs meta d' b k, writer_has d w (b, k, None) bs -> plain_meta meta ->
    finalize d w meta = (d', Ok tt) -> read_shard d' b k = Ok (bs, meta);
  finalize_err_ok : forall d w bs meta d' e b k, writer_has d w (b, k, None) bs ->
    is_ok (stat_object d b k) = false -> finalize d w meta = (d', Err e) -> is_ok (read_shard d' b k) = false;
}.

(** ** A volume in memory, which refuses to finalize when it is read-only *)

Record MemDisk : Type := mkMemDisk {
  md_volume_id : string;
  md_readonly : bool;
  md_objects : gmap (string * string) (bytes * ObjectMeta);
}.

Record MemWriter : Type := mkMemWriter {
  mw_object : string * string * option string;
  mw_bytes : bytes;
}.

Global Instance mem_backend : Backend MemDisk MemWriter := {|
  open_shard_writer := fun d b k v => (d, Ok (mkMemWriter (b, k, v) []));
  write_chunk := fun d w c => (d, Ok (mkMemWriter (mw_object w) (mw_bytes w ++ c)));
  finalize := fun d w meta =>
    if md_readonly d then (d, Err (Io "read-only file system"))
    else let '(b, k, v) := mw_object w in
         (mkMemDisk (md_volume_id d) false (<[(b, k) := (mw_bytes w, meta)]> (md_objects d)), Ok tt);
  read_shard := fun d b k => ok_or (md_objects d !! (b, k)) ObjectNotFound;
  read_versioned_shard := fun d b k v => ok_or (md_objects d !! (b, k)) ObjectNotFound;
  stat_object := fun d b k => ok_or (snd <$> md_objects d !! (b, k)) ObjectNotFound;
  delete_object := fun d b k => (mkMemDisk (md_volume_id d) (md_readonly d) (delete (b, k) (md_objects d)), Ok tt);
|}.

Global Instance mem_backend_ok : BackendOk MemDisk MemWriter.
Proof.
  refine {| writer_has := fun _ w o bs => mw_object w = o /\ mw_bytes w = bs |}.
  - by intros d b k v d' w [= <- <-].
  - by intros d w c d' w' o bs [<- <-] [= <- <-].
  - intros d b k. cbn. by destruct (md_objects d !! (b, k)).
  - done.
  - done.
  - intros d [o bs] bs' meta d' b k [Ho Hb] _. cbn in *. subst. destruct (md_readonly d); [done|].
    intros [= <-]. cbn. by rewrite lookup_insert_eq.
  - intros d [o bs] bs' meta d' e b k [Ho Hb] Hs. cbn in *. subst. destruct (md_readonly d); [|done].
    intros [= <- _]. by destruct (md_objects d !! (b, k)).
Defined.
