(* ===== verification/ErasureDecode.v ===== *)
(** Reading an object back from its shards ([src/storage/erasure_decode.rs]):
    the buffered read, its versioned variant, the streaming read and the
    multipart read.

    A stream is the list of the items the spawned task sends.  The volumes are a
    list of [Backend]s; the shards of a disk that cannot be read, fails its
    checksum or claims an index out of range are missing. *)

From Stdlib Require Import Ascii.
From stdpp Require Import base list gmap strings numbers pretty.
From S2P Require Import Prelude Metadata Pathing Erasure Backend.

(** ** Collecting shards *)

Section Collect.
  Context `{Hashes}.

(** The loop over [raw_reads]: slots by shard index, and the first good metadata. *)
Definition place_read (total : nat) (st : list (option bytes) * option ObjectMeta)
    (read : option (bytes * ObjectMeta)) : list (option bytes) * option ObjectMeta :=
  match read with
  | None => st
  | Some (data, meta) =>
      if negb (verify_shard_checksum data (checksum meta)) then st
      else
        let shard_idx := index (erasure meta) in
        if bool_decide (shard_idx < total)
        then (<[shard_idx := Some data]> st.1,
              match st.2 with None => Some meta | Some m => Some m end)
        else st
  end.

Definition place_reads (total : nat) (reads : list (option (bytes * ObjectMeta)))
    : list (option bytes) * option ObjectMeta :=
  fold_left (place_read total) reads (replicate total None, None).

(** What the three readers share: no disk has the object, no good shard, or
    fewer good shards than data shards. *)
Definition collect (dn total : nat) (reads : list (option (bytes * ObjectMeta)))
    : Result (list (option bytes) * ObjectMeta) :=
  if negb (existsb (fun r => bool_decide (is_Some r)) reads) then Err ObjectNotFound
  else
    let st := place_reads total reads in
    good_meta ← ok_or st.2 ReadQuorum;
    if bool_decide (good_count st.1 < dn) then Err ReadQuorum
    else Ok (st.1, good_meta).

End Collect.

(** [slots.iter().take(n).flatten()], concatenated. *)
Definition join_slots (n : nat) (slots : list (option bytes)) : bytes :=
  concat (omap id (take n slots)).

Section Buffered.
  Context `{ReedSolomon}.

(** [reconstruct if needed], then join and trim. *)
Definition rebuild (dn pn : nat) (slots : list (option bytes)) (size : nat) : Result bytes :=
  slots ← (if bool_decide (0 < pn) && bool_decide (good_count slots < dn + pn) then
             if rs_new_ok dn pn then ok_or (rs_reconstruct dn pn slots) ReadQuorum
             else Err (InvalidConfig "reed-solomon")
           else Ok slots);
  Ok (take size (join_slots dn slots)).

(** ** The streaming task *)

Definition slice_at (off chunk : nat) (o : option bytes) : option bytes :=
  s ← o;
  let e := Nat.min (off + chunk) (length s) in
  if bool_decide (off < length s) && bool_decide (off < e)
  then Some (sub_list off (e - off) s) else None.

(** The fast path: slices of the data shards, up to the block's size. *)
Fixpoint fast_chunks (shards : list bytes) (off chunk needed : nat) : list bytes :=
  match shards with
  | [] => []
  | s :: shards =>
      let slice_len := Nat.min (off + chunk) (length s) - off in
      let take := Nat.min slice_len needed in
      if bool_decide (take = 0) then []
      else sub_list off take s :: fast_chunks shards off chunk (needed - take)
  end.

Definition data_shards_ok (dn off : nat) (slots : list (option bytes)) : bool :=
  forallb (fun o => match o with Some s => bool_decide (off < length s) | None => false end)
    (take dn slots).

(** The slow path: one block from any [dn] of its shards. *)
Definition slow_block (dn pn : nat) (slots : list (option bytes)) (off chunk block_size : nat)
    : Result bytes :=
  let shard_slots := map (slice_at off chunk) slots in
  if bool_decide (good_count shard_slots < dn) then Err ReadQuorum
  else
    shard_slots ← (if bool_decide (0 < pn) && rs_new_ok dn pn
                   then ok_or (rs_reconstruct dn pn shard_slots) ReadQuorum
                   else Ok shard_slots);
    Ok (take block_size (join_slots dn shard_slots)).

(** The [while remaining > 0] loop; every round takes at least one byte, so the
    size of the object is fuel enough. *)
Fixpoint stream_loop (fuel block dn pn : nat) (slots : list (option bytes))
    (remaining off : nat) : list (Result bytes) :=
  match fuel with
  | 0 => []
  | S fuel =>
      if bool_decide (remaining = 0) then []
      else
        let block_size := Nat.min remaining block in
        let chunk := shard_size block_size dn in
        if data_shards_ok dn off slots then
          map Ok (fast_chunks (omap id (take dn slots)) off chunk block_size) ++
          stream_loop fuel block dn pn slots (remaining - block_size) (off + chunk)
        else
          match slow_block dn pn slots off chunk block_size with
          | Err e => [Err e]
          | Ok data => Ok data ::
              stream_loop fuel block dn pn slots (remaining - block_size) (off + chunk)
          end
  end.

End Buffered.

(** ** The readers *)

Section Readers.
  Context `{Hashes} `{ReedSolomon} {B W : Type} `{!Backend B W}.

Definition read_and_decode (disks : list B) (dn pn : nat) (b k : string)
    : Result (bytes * ObjectMeta) :=
  let raw_reads := map (fun d => result_ok (read_shard d b k)) disks in
  r ← collect dn (dn + pn) raw_reads;
  data ← rebuild dn pn r.1 (N.to_nat (size r.2));
  Ok (data, r.2).

Definition read_and_decode_versioned (disks : list B) (dn pn : nat) (b k vid : string)
    : Result (bytes * ObjectMeta) :=
  let raw_reads := map (fun d => result_ok (read_versioned_shard d b k vid)) disks in
  r ← collect dn (dn + pn) raw_reads;
  data ← rebuild dn pn r.1 (N.to_nat (size r.2));
  Ok (data, r.2).

(** The metadata and the items of the stream. *)
Definition read_and_decode_stream (block : nat) (disks : list B) (dn pn : nat) (b k : string)
    : Result (ObjectMeta * list (Result bytes)) :=
  let raw_results := map (fun d => result_ok (mmap_shard d b k)) disks in
  r ← collect dn (dn + pn) raw_results;
  let original_size := N.to_nat (size r.2) in
  Ok (r.2, stream_loop original_size block dn pn r.1 original_size 0).

(** ** Multipart objects: every part has its own shard files *)

Variables (label : B -> string) (fs_read : Path -> option bytes)
          (part_meta_index : bytes -> option nat).

(** [label.strip_prefix("local:")] *)
Definition strip_local (l : string) : option string :=
  if starts_with "local:" l then Some (string_of (drop 6 (bytes_of l))) else None.

(** One disk's shard of a part: its index and its bytes. *)
Definition read_part (bucket key : string) (part : PartEntry) (disk : B) : option (nat * bytes) :=
  root ← strip_local (label disk);
  obj_dir ← result_ok (object_dir (components root) bucket key);
  let num := pretty (part_number part) in
  meta_data ← fs_read (push obj_dir ("part." +:+ num +:+ ".meta"));
  shard_idx ← part_meta_index meta_data;
  data ← fs_read (push obj_dir ("part." +:+ num));
  Some (shard_idx, data).

Definition part_slots (disks : list B) (bucket key : string) (part : PartEntry) (total : nat)
    : list (option bytes) :=
  fold_left (fun slots d =>
      match read_part bucket key part d with
      | Some (i, data) => if bool_decide (i < total) then <[i := Some data]> slots else slots
      | None => slots
      end) disks (replicate total None).

Definition decode_part (disks : list B) (bucket key : string) (part : PartEntry) : Result bytes :=
  let dn := erasure_data (part_erasure part) in
  let pn := erasure_parity (part_erasure part) in
  let slots := part_slots disks bucket key part (dn + pn) in
  if bool_decide (good_count slots < dn) then Err ReadQuorum
  else rebuild dn pn slots (N.to_nat (part_size part)).

Fixpoint decode_parts (disks : list B) (bucket key : string) (parts : list PartEntry)
    : Result bytes :=
  match parts with
  | [] => Ok []
  | p :: parts =>
      d ← decode_part disks bucket key p;
      rest ← decode_parts disks bucket key parts;
      Ok (d ++ rest)
  end.

Definition read_and_decode_multipart (disks : list B) (bucket key : string) (meta : ObjectMeta)
    : Result bytes :=
  decode_parts disks bucket key (parts meta).

End Readers.

(** ** Lemmas *)

(** Shard [s] continues with [c] at offset [off]. *)
Definition at_offset (off : nat) (s c : bytes) : Prop := exists r, drop off s = c ++ r.

Lemma at_offset_slice off chunk s c :
  at_offset off s c -> length c = chunk -> 0 < chunk ->
  off < length s /\ Nat.min (off + chunk) (length s) = off + chunk /\ sub_list off chunk s = c.
Proof.
  intros [r E] Hc Hp. assert (Hl : length s - off = length c + length r).
  { by rewrite <- length_drop, E, length_app. }
  split_and!; [lia|lia|]. unfold sub_list. by rewrite E, <- Hc, take_app_length.
Qed.

Lemma slice_at_Some off chunk s c :
  at_offset off s c -> length c = chunk -> 0 < chunk -> slice_at off chunk (Some s) = Some c.
Proof.
  intros Ha Hc Hp. destruct (at_offset_slice _ _ _ _ Ha Hc Hp) as (Hlt & Hm & Hs).
  unfold slice_at. cbn [mbind option_bind]. rewrite Hm, !bool_decide_eq_true_2 by lia.
  cbn [andb]. replace (off + chunk - off) with chunk by lia. by rewrite Hs.
Qed.

Lemma slices_erased off chunk shards cur slots :
  Forall2 (at_offset off) shards cur -> Forall (fun c => length c = chunk) cur -> 0 < chunk ->
  erased shards slots ->
  erased cur (map (slice_at off chunk) slots) /\
  good_count (map (slice_at off chunk) slots) = good_count slots.
Proof.
  intros Ha Hl Hp Her. revert slots Her. induction Ha as [|s c shards cur Hsc _ IH]; intros slots Her.
  - inversion Her; subst. split; [constructor|done].
  - inversion Her as [|? o ? slots' Ho Her']; subst. inversion Hl as [|? ? Hc Hl']; subst.
    destruct (IH Hl' _ Her') as [He Hg]. cbn [map]. destruct Ho as [->| ->].
    + split; [constructor; [by left|done]|]. by rewrite !good_count_cons, Hg.
    + rewrite (slice_at_Some _ _ _ c) by done. split; [constructor; [by right|done]|].
      by rewrite !good_count_cons, Hg.
Qed.

Lemma fast_chunks_concat off chunk shards cur needed :
  Forall2 (at_offset off) shards cur -> Forall (fun c => length c = chunk) cur -> 0 < chunk ->
  concat (fast_chunks shards off chunk needed) = take needed (concat cur).
Proof.
  intros Ha Hl Hp. revert needed. induction Ha as [|s c shards cur Hsc _ IH]; intros needed.
  - cbn. by rewrite take_nil.
  - inversion Hl as [|? ? Hc Hl']; subst. cbn [fast_chunks concat].
    destruct (at_offset_slice _ _ _ _ Hsc eq_refl Hp) as (Hlt & Hm & Hs). rewrite Hm.
    replace (off + length c - off) with (length c) by lia.
    case_bool_decide as H0; [replace needed with 0 by lia; done|].
    cbn [concat]. rewrite (IH Hl'). rewrite take_app.
    assert (Ht : sub_list off (Nat.min (length c) needed) s = take needed c).
    { rewrite <- Hs at 2. unfold sub_list. rewrite take_take. f_equal. lia. }
    rewrite Ht. f_equal. f_equal. lia.
Qed.

Lemma zip_at_offset off shards cur rest :
  map (drop off) shards = zip_with app cur rest -> length cur = length rest ->
  Forall2 (at_offset off) shards cur /\
  forall chunk, Forall (fun c => length c = chunk) cur -> map (drop (off + chunk)) shards = rest.
Proof.
  revert shards rest. induction cur as [|c cur IH]; intros shards rest E Hl.
  - destruct shards; [|done]. destruct rest; [|done]. split; [constructor|done].
  - destruct rest as [|r rest]; [done|]. destruct shards as [|s shards]; [done|].
    cbn [map zip_with] in E. injection E as E1 E2. destruct (IH _ _ E2) as [Ha Hd]; [by injection Hl|].
    split; [constructor; [by exists r|done]|]. intros chunk Hc. inversion Hc; subst. cbn [map].
    f_equal; [|by apply Hd]. rewrite <- drop_drop, E1. apply drop_app_length.
Qed.

Lemma take_erased n shards slots : erased shards slots -> erased (take n shards) (take n slots).
Proof. apply Forall2_take. Qed.

Lemma data_shards_ok_all dn off chunk shards cur slots :
  Forall2 (at_offset off) shards cur -> Forall (fun c => length c = chunk) cur -> 0 < chunk ->
  erased shards slots ->
  data_shards_ok dn off slots = true <-> take dn slots = map Some (take dn shards).
Proof.
  intros Ha Hl Hp Her. revert dn slots Her.
  induction Ha as [|s c shards cur Hsc _ IH]; intros [|dn] slots Her;
    inversion Her as [|? o ? slots' Ho Her']; subst; try done.
  inversion Hl as [|? ? Hc Hl']; subst. unfold data_shards_ok in *. cbn [take forallb map].
  destruct (at_offset_slice _ _ _ _ Hsc eq_refl Hp) as (Hlt & _).
  rewrite andb_true_iff. rewrite (IH Hl' dn slots' Her'). destruct Ho as [->| ->].
  - split; [by intros [? _]|done].
  - rewrite bool_decide_eq_true_2 by done. split; [by intros [_ ->]|]. intros E. by injection E.
Qed.

Lemma good_count_app {A} (l k : list (option A)) : good_count (l ++ k) = good_count l + good_count k.
Proof. induction l as [|o l IH]; [done|]. cbn [app]. rewrite !good_count_cons, IH. lia. Qed.

Section Correct.
  Context `{ReedSolomon} `{!ReedSolomonOk}.
  Variables (dn pn : nat).
  Hypothesis (dn_pos : 0 < dn) (rs_ok : 0 < pn -> rs_new_ok dn pn = true).

(** All shards of a block give the block back. *)
Lemma coded_join data cur :
  coded dn pn data cur -> take (length data) (concat (take dn cur)) = data.
Proof. intros Hc. rewrite (coded_data _ _ _ _ Hc). by apply split_join. Qed.

(** Any [dn] shards of a block reconstruct all of them. *)
Lemma coded_reconstruct data cur slots :
  coded dn pn data cur -> erased cur slots -> dn <= good_count slots -> 0 < pn ->
  rs_reconstruct dn pn slots = Some (map Some cur).
Proof.
  intros Hc Her Hg Hpn.
  eapply (rs_reconstruct_ok dn pn (shard_size (length data) dn) (split_data data dn)
           (replicate pn (replicate (shard_size (length data) dn) zero_byte))); try done.
  - by apply rs_ok.
  - apply length_split_data.
  - apply length_replicate.
  - apply shard_size_pos.
  - apply split_data_sizes.
  - apply Forall_replicate, length_replicate.
  - by apply (coded_parity _ _ _ _ Hc).
Qed.

Lemma join_slots_map n (l : list bytes) : join_slots n (map Some l) = concat (take n l).
Proof. unfold join_slots. by rewrite firstn_map, omap_map_Some. Qed.

(** One block of the stream, on either path. *)
Lemma block_step off shards cur slots data :
  coded dn pn data cur -> Forall2 (at_offset off) shards cur -> erased shards slots ->
  dn <= good_count slots ->
  let chunk := shard_size (length data) dn in
  if data_shards_ok dn off slots
  then concat (fast_chunks (omap id (take dn slots)) off chunk (length data)) = data
  else slow_block dn pn slots off chunk (length data) = Ok data.
Proof.
  intros Hc Ha Her Hg chunk. pose proof (coded_sizes _ _ _ _ Hc) as Hsz.
  pose proof (shard_size_pos (length data) dn) as Hpos. fold chunk in Hsz, Hpos.
  destruct (slices_erased _ _ _ _ _ Ha Hsz Hpos Her) as [Her' Hg'].
  pose proof (data_shards_ok_all dn _ _ _ _ _ Ha Hsz Hpos Her) as Hok.
  destruct (data_shards_ok dn off slots).
  - rewrite (proj1 Hok eq_refl), omap_map_Some.
    rewrite (fast_chunks_concat _ _ _ (take dn cur)); [by apply coded_join| | |done].
    + by apply Forall2_take.
    + by apply Forall_take.
  - unfold slow_block. rewrite Hg'. rewrite bool_decide_eq_false_2 by lia.
    destruct (decide (0 < pn)) as [Hpn|Hpn].
    + rewrite (bool_decide_eq_true_2 (0 < pn)) by done. rewrite rs_ok by done. cbn [andb].
      rewrite (coded_reconstruct data cur) by (done || lia). cbn [ok_or mbind result_bind].
      rewrite join_slots_map. f_equal. by apply (coded_join data).
    + exfalso. assert (Hall : slots = map Some shards).
      { apply erased_all; [done|]. pose proof (coded_length _ _ _ _ Hc).
        rewrite (Forall2_length _ _ _ Ha). lia. }
      destruct Hok as [_ Hok]. rewrite Hall, firstn_map in Hok. by discriminate Hok.
Qed.

(** One round of the loop, on a block [d], in front of the rounds for [rest]. *)
Lemma stream_round block fuel d rest bss cur off shards slots chunks :
  d <> [] -> Nat.min (length (d ++ rest)) block = length d -> coded dn pn d cur ->
  map (drop off) shards = join_blocks (dn + pn) (cur :: bss) ->
  Forall (fun bs => length bs = dn + pn) bss -> erased shards slots -> dn <= good_count slots ->
  (map (drop (off + shard_size (length d) dn)) shards = join_blocks (dn + pn) bss ->
   stream_loop fuel block dn pn slots (length rest) (off + shard_size (length d) dn) = map Ok chunks /\
   concat chunks = rest) ->
  exists chunks, stream_loop (S fuel) block dn pn slots (length (d ++ rest)) off = map Ok chunks /\
    concat chunks = d ++ rest.
Proof.
  intros Hne Hmin Hc Hj Hlen Her Hg Hrest.
  destruct (zip_at_offset off shards cur (join_blocks (dn + pn) bss) Hj) as [Ha Hd].
  { rewrite length_join_blocks by done. apply (coded_length _ _ _ _ Hc). }
  specialize (Hd _ (coded_sizes _ _ _ _ Hc)). destruct (Hrest Hd) as [Hloop Hcat].
  cbn [stream_loop]. rewrite Hmin.
  rewrite bool_decide_eq_false_2 by (rewrite length_app; destruct d; simpl; [done|lia]).
  replace (length (d ++ rest) - length d) with (length rest) by lens.
  pose proof (block_step off shards cur slots d Hc Ha Her Hg) as Hb. cbn in Hb.
  destruct (data_shards_ok dn off slots).
  - eexists (_ ++ chunks). rewrite map_app, concat_app, Hb, Hloop, Hcat. done.
  - rewrite Hb, Hloop. exists (d :: chunks). cbn. by rewrite Hcat.
Qed.

Lemma coded_all_lengths bl bss :
  Forall2 (coded dn pn) bl bss -> Forall (fun bs : list bytes => length bs = dn + pn) bss.
Proof. induction 1 as [|? ? ? ? Hc]; constructor; [apply (coded_length _ _ _ _ Hc)|done]. Qed.

Lemma stream_loop_ok block fuel data bl bss off shards slots :
  0 < block -> chopped block data bl -> Forall2 (coded dn pn) bl bss ->
  map (drop off) shards = join_blocks (dn + pn) bss ->
  erased shards slots -> dn <= good_count slots -> length data <= fuel ->
  exists chunks, stream_loop fuel block dn pn slots (length data) off = map Ok chunks /\
    concat chunks = data.
Proof.
  intros Hblk Hch. revert fuel bss off.
  induction Hch as [|d Hne Hlt|d rest bl Hlen Hch IH]; intros fuel bss off Hco Hj Her Hg Hf.
  - exists []. by destruct fuel.
  - inversion Hco as [|? cur ? bss' Hc Hn]; subst. inversion Hn; subst.
    destruct fuel as [|fuel]; [destruct d; [done|simpl in Hf; lia]|].
    rewrite <- (app_nil_r d). eapply (stream_round block fuel d [] [] cur off _ _ []); try done.
    + rewrite app_nil_r. lia.
    + intros _. by destruct fuel.
  - inversion Hco as [|? cur ? bss' Hc Hn]; subst.
    assert (Hdne : d <> []) by (destruct d; simpl in *; [lia|done]).
    destruct fuel as [|fuel]; [lens|].
    assert (Hf' : length rest <= fuel) by lens.
    destruct (zip_at_offset off shards cur (join_blocks (dn + pn) bss') Hj) as [_ Hd].
    { rewrite length_join_blocks by (by eapply coded_all_lengths). apply (coded_length _ _ _ _ Hc). }
    specialize (Hd _ (coded_sizes _ _ _ _ Hc)).
    destruct (IH fuel bss' _ Hn Hd Her Hg Hf') as (chunks & Hl & Hcat).
    eapply (stream_round _ fuel d rest bss' cur off _ _ chunks); try done; [lens|].
    by eapply coded_all_lengths.
Qed.

(** The buffered reader joins whole shards, which is right for a single block. *)
Lemma rebuild_block data cur slots :
  coded dn pn data cur -> erased cur slots -> dn <= good_count slots ->
  rebuild dn pn slots (length data) = Ok data.
Proof.
  intros Hc Her Hg. pose proof (coded_length _ _ _ _ Hc) as Hl. unfold rebuild.
  case_bool_decide as Hpn; cbn [andb].
  - case_bool_decide as Hall.
    + rewrite rs_ok by done. rewrite (coded_reconstruct data cur) by done.
      cbn [ok_or mbind result_bind]. rewrite join_slots_map. f_equal. by apply coded_join.
    + cbn [mbind result_bind]. rewrite (erased_all cur slots) by (done || lia).
      rewrite join_slots_map. f_equal. by apply coded_join.
  - cbn [mbind result_bind]. rewrite (erased_all cur slots) by (done || lia).
    rewrite join_slots_map. f_equal. by apply coded_join.
Qed.

End Correct.

Lemma filter_ext_elem {A} (P Q : A -> Prop) `{!forall x, Decision (P x), !forall x, Decision (Q x)}
    (l : list A) : (forall x, x ∈ l -> P x <-> Q x) -> filter P l = filter Q l.
Proof.
  induction l as [|x l IH]; intros Hpq; [done|]. rewrite !filter_cons.
  rewrite IH by (intros y Hy; apply Hpq; by right).
  pose proof (Hpq x ltac:(by left)). repeat case_decide; done || tauto.
Qed.

Lemma good_count_seq {A} (slots : list (option A)) :
  good_count slots = length (filter (fun i => is_Some (slots !! i ≫= id)) (seq 0 (length slots))).
Proof.
  induction slots as [|o slots IH] using rev_ind; [done|].
  rewrite good_count_app, length_app, seq_app, filter_app, length_app. cbn [length seq].
  f_equal.
  - rewrite IH. f_equal. apply filter_ext_elem. intros i Hi%elem_of_seq.
    rewrite lookup_app_l by lia. done.
  - cbn [Nat.add]. rewrite filter_cons, list_lookup_middle by done. rewrite good_count_cons.
    destruct o; [rewrite decide_True by (cbn; eauto)|rewrite decide_False by (by intros [])]; done.
Qed.

(** Distinct filled positions are at most as many as the filled slots. *)
Lemma good_count_indices {A} (slots : list (option A)) idxs :
  NoDup idxs -> (forall i, i ∈ idxs -> is_Some (slots !! i ≫= id)) -> length idxs <= good_count slots.
Proof.
  intros Hnd Hall. rewrite good_count_seq.
  apply (submseteq_length _ _), NoDup_submseteq; [done|]. intros i Hi.
  apply list_elem_of_filter. split; [by apply Hall|]. apply elem_of_seq.
  specialize (Hall i Hi). destruct (slots !! i) eqn:E; [|by destruct Hall].
  apply lookup_lt_Some in E. lia.
Qed.

(** ** Lemmas: collecting the shards of one object *)

Section Reads.
  Context `{Hashes}.
  Variables (shards : list bytes).

(** A read is good when it returns the shard of its index, with its checksum. *)
Definition good_read (r : option (bytes * ObjectMeta)) : Prop :=
  match r with
  | None => True
  | Some (data, meta) =>
      verify_shard_checksum data (checksum meta) = true /\
      shards !! index (erasure meta) = Some data
  end.

Lemma erased_insert i s slots :
  erased shards slots -> shards !! i = Some s -> erased shards (<[i := Some s]> slots).
Proof.
  intros Her Hi. unfold erased in *. rewrite <- (list_insert_id shards i s) by done.
  apply Forall2_insert; [done|by right].
Qed.

(** Collecting good reads: the slots are shards of the object, no slot is lost,
    every read's slot is filled, and the metadata is that of some read. *)
Lemma fold_place_reads total reads st :
  length shards = total -> Forall good_read reads -> erased shards st.1 ->
  let st' := fold_left (place_read total) reads st in
  erased shards st'.1 /\
  (forall i, is_Some (st.1 !! i ≫= id) -> is_Some (st'.1 !! i ≫= id)) /\
  (forall data meta, Some (data, meta) ∈ reads ->
     is_Some (st'.1 !! index (erasure meta) ≫= id) /\ is_Some st'.2) /\
  (is_Some st.2 -> is_Some st'.2) /\
  (forall m, st'.2 = Some m -> st.2 = Some m \/ exists data, Some (data, m) ∈ reads).
Proof.
  intros Htot Hgood. revert st. induction Hgood as [|r reads Hr _ IH]; intros st Her.
  - cbn. split_and!; try done; [|by left]. by intros ? ? ?%not_elem_of_nil.
  - cbn [fold_left]. destruct r as [[data meta]|].
    2:{ destruct (IH st Her) as (H1 & H2 & H3 & H4 & H5). cbn. split_and!; try done.
        - intros d m Hin. apply elem_of_cons in Hin as [?|Hin]; [done|]. by eapply H3.
        - intros m Hm. destruct (H5 m Hm) as [?|[d Hd]]; [by left|]. right. exists d. by right. }
    destruct Hr as [Hv Hs]. pose proof (lookup_lt_Some _ _ _ Hs) as Hlt.
    assert (Hst : place_read total st (Some (data, meta)) =
      (<[index (erasure meta) := Some data]> st.1,
       match st.2 with None => Some meta | Some m => Some m end)).
    { unfold place_read. rewrite Hv. cbn [negb]. by rewrite bool_decide_eq_true_2 by lia. }
    rewrite Hst. set (st1 := (_, _)).
    destruct (IH st1 (erased_insert _ _ _ Her Hs)) as (H1 & H2 & H3 & H4 & H5).
    pose proof (Forall2_length _ _ _ Her) as Hl.
    assert (Hslot : is_Some (st1.1 !! index (erasure meta) ≫= id)).
    { cbn. rewrite list_lookup_insert_eq by lia. cbn. eauto. }
    assert (Hmeta : is_Some st1.2) by (cbn; destruct st.2; eauto).
    cbn. split_and!.
    + done.
    + intros i Hi. apply H2. cbn. destruct (decide (i = index (erasure meta))) as [->|Hne]; [done|].
      by rewrite list_lookup_insert_ne.
    + intros d m Hin. apply elem_of_cons in Hin as [[= -> ->]|Hin]; [|by eapply H3].
      split; [by apply H2|by apply H4].
    + intros _. by apply H4.
    + intros m Hm. destruct (H5 m Hm) as [Hm1|[d Hd]].
      * cbn in Hm1. destruct st.2; [by left|]. right. exists data. simplify_eq. by left.
      * right. exists d. by right.
Qed.

Lemma collect_good dn total reads :
  length shards = total -> Forall good_read reads -> 0 < dn ->
  (exists idxs, NoDup idxs /\ dn <= length idxs /\ forall i, i ∈ idxs ->
     exists data meta, Some (data, meta) ∈ reads /\ index (erasure meta) = i) ->
  exists slots meta, collect dn total reads = Ok (slots, meta) /\ erased shards slots /\
    dn <= good_count slots /\ exists data, Some (data, meta) ∈ reads.
Proof.
  intros Htot Hgood Hdn (idxs & Hnd & Hlen & Hidx). unfold collect, place_reads.
  assert (Her0 : erased shards (replicate total None)).
  { subst total. clear. unfold erased. induction shards; constructor; [by left|done]. }
  destruct (fold_place_reads total reads (replicate total None, None) Htot Hgood Her0)
    as (H1 & _ & H3 & _ & H5).
  set (st := fold_left _ _ _) in *.
  destruct idxs as [|i0 idxs']; [simpl in Hlen; lia|].
  destruct (Hidx i0 ltac:(by left)) as (d0 & m0 & Hin0 & _).
  rewrite (proj2 (existsb_exists _ reads)); [|exists (Some (d0, m0)); split;
    [by apply list_elem_of_In|apply bool_decide_eq_true_2; eauto]]. cbn [negb].
  destruct (H3 _ _ Hin0) as [_ [mt Hmt]]. rewrite Hmt. cbn [ok_or mbind result_bind].
  assert (Hcount : dn <= good_count st.1).
  { etransitivity; [exact Hlen|]. apply (good_count_indices _ _ Hnd). intros i Hi.
    destruct (Hidx i Hi) as (d & m & Hin & <-). by apply H3 in Hin as [? _]. }
  rewrite bool_decide_eq_false_2 by lia. eexists _, _. split; [done|]. split_and!; [done..|].
  destruct (H5 _ Hmt) as [?|?]; done.
Qed.

End Reads.
