(* ===== verification/ErasurePut.v ===== *)
(** Writing an object ([encode_and_write] of [src/storage/erasure_encode.rs]):
    placement, the single-disk path, the erasure-coded path with its write
    quorum, rollback and repair queueing.

    The body is the list of the items of the stream.  The volumes are a list of
    [Backend]s that is threaded through; parallel calls on distinct volumes are
    run in shard order.  Running hashes are kept as the bytes fed to them.
    [None] is a panic (an index out of range). *)

From Stdlib Require Import Ascii.
From stdpp Require Import base list gmap strings numbers.
From S2P Require Import Prelude Metadata Placement Erasure Backend ErasureDecode.

(** [format!("{:016x}", v)] on a [u64]. *)
Fixpoint hex_digits (n : nat) (v : N) (acc : string) : string :=
  match n with
  | 0 => acc
  | S n =>
      let d := (v mod 16)%N in
      let c := ascii_of_N (if (d <? 10)%N then 48 + d else 87 + d)%N in
      hex_digits n (v / 16)%N (String c acc)
  end.

Definition hex16 (v : N) : string := hex_digits 16 v "".

Section Put.
  Context `{Hashes} `{ReedSolomon} {B W : Type} `{!Backend B W}.

(** ** Metadata of a shard *)

Record PutContext : Type := mkPutContext {
  pc_bucket : string;
  pc_key : string;
  pc_opts : PutOptions;
  pc_version_id : option string;
  pc_content_type : string;
  pc_created_at : N;
  pc_epoch_id : N;
  pc_volume_ids : list string;
}.

Definition object_etag (opts : PutOptions) (body : bytes) : string :=
  match precomputed_etag opts with
  | Some e => e
  | None => if skip_md5 opts
            then hex16 (xxh64 body) +:+ hex16 (as_u64 (N.of_nat (length body)))
            else md5_hex body
  end.

Definition shard_meta (c : PutContext) (parity_n : nat) (body : bytes) (shard_idx : nat)
    (shard : bytes) : ObjectMeta :=
  {| size := as_u64 (N.of_nat (length body)); etag := object_etag (pc_opts c) body;
     content_type := pc_content_type c; created_at := pc_created_at c;
     erasure := {| ftt := parity_n; index := shard_idx; epoch_id := pc_epoch_id c;
                   volume_ids := pc_volume_ids c |};
     checksum := blake3_hex shard;
     user_metadata := opt_user_metadata (pc_opts c); tags := opt_tags (pc_opts c);
     version_id := default "" (pc_version_id c); is_latest := true;
     is_delete_marker := false; parts := []; inline_data := None |}.

Definition object_info (c : PutContext) (body : bytes) : ObjectInfo :=
  {| info_bucket := pc_bucket c; info_key := pc_key c;
     info_size := as_u64 (N.of_nat (length body)); info_etag := object_etag (pc_opts c) body;
     info_content_type := pc_content_type c; info_created_at := pc_created_at c;
     info_user_metadata := opt_user_metadata (pc_opts c); info_tags := opt_tags (pc_opts c);
     info_version_id := default "" (pc_version_id c); info_is_delete_marker := false |}.

(** ** One data shard, no parity: the body goes straight to one writer *)

Fixpoint write_items (d : B) (w : W) (items : list (Result bytes)) : B * Result (W * bytes) :=
  match items with
  | [] => (d, Ok (w, []))
  | Err e :: _ => (d, Err e)
  | Ok chunk :: items =>
      let r := write_chunk d w chunk in
      match r.2 with
      | Err e => (r.1, Err e)
      | Ok w => let q := write_items r.1 w items in (q.1, x ← q.2; Ok (x.1, chunk ++ x.2))
      end
  end.

Definition finish_single (c : PutContext) (d : B) (w : W) (body : bytes)
    : B * Result ObjectInfo :=
  let r := finalize d w (shard_meta c 0 body 0 body) in
  (r.1, _ ← r.2; Ok (object_info c body)).

Definition encode_and_write_1plus0_serial (c : PutContext) (d : B) (items : list (Result bytes))
    : B * Result ObjectInfo :=
  match open_shard_writer d (pc_bucket c) (pc_key c) (pc_version_id c) with
  | (d, Err e) => (d, Err e)
  | (d, Ok w) =>
      match write_items d w items with
      | (d, Err e) => (d, Err e)
      | (d, Ok (w, body)) => finish_single c d w body
      end
  end.

Fixpoint body_items (items : list (Result bytes)) : Result (list bytes) :=
  match items with
  | [] => Ok []
  | item :: items => chunk ← item; rest ← body_items items; Ok (chunk :: rest)
  end.

(** The chunks before the first error of the body. *)
Fixpoint sent_chunks (items : list (Result bytes)) : list bytes :=
  match items with
  | Ok chunk :: items => chunk :: sent_chunks items
  | _ => []
  end.

(** The pipelined variant: the writer runs in its own task behind a channel.  A
    failing body ends the request at once, while the task goes on to write the chunks
    it was sent; a failing writer is noticed when the channel closes and its error is
    the result. *)
Definition encode_1plus0_pipelined (c : PutContext) (d : B) (items : list (Result bytes))
    : B * Result ObjectInfo :=
  match open_shard_writer d (pc_bucket c) (pc_key c) (pc_version_id c) with
  | (d, Err e) => (d, Err e)
  | (d, Ok w) =>
      let r := write_items d w (map Ok (sent_chunks items)) in
      match body_items items with
      | Err e => (r.1, Err e)
      | Ok _ =>
          match r.2 with
          | Err e => (r.1, Err e)
          | Ok (w, body) => finish_single c r.1 w body
          end
      end
  end.

(** ** The erasure-coded path *)

(** A request on the volumes: what it leaves of them and its answer, or a panic. *)
Definition DisksM (A : Type) : Type := list B -> option (list B * Result A).

Global Instance disks_ret : MRet DisksM := fun A a disks => Some (disks, Ok a).
Global Instance disks_bind : MBind DisksM := fun A C f m disks =>
  match m disks with
  | None => None
  | Some (disks, Err e) => Some (disks, Err e)
  | Some (disks, Ok a) => f a disks
  end.

Definition disks_lift {A : Type} (r : Result A) : DisksM A := fun disks => Some (disks, r).

(** An operation of the writer on volume [j].  The volume is there: the writer was
    opened on it. *)
Definition on_disk {A : Type} (j : nat) (f : B -> B * Result A) : DisksM A := fun disks =>
  d ← disks !! j; let r := f d in Some (<[j := r.1]> disks, r.2).

Record EncState : Type := mkEncState {
  es_writers : list W;
  es_hashed : list bytes;
  es_bufs : list bytes;
}.

(** The last loop of [write_block]: hash and write shard [i]. *)
Fixpoint write_shards (dist : list nat) (ws : list W) (hs ss : list bytes) : DisksM (list W * list bytes) :=
  match dist, ws, hs, ss with
  | j :: dist, w :: ws, h :: hs, s :: ss =>
      w ← on_disk j (fun d => write_chunk d w s);
      r ← write_shards dist ws hs ss;
      mret (w :: r.1, (h ++ s) :: r.2)
  | _, _, _, _ => mret ([], [])
  end.

Definition write_block (dist : list nat) (dn pn : nat) (st : EncState) (data : bytes) : DisksM EncState :=
  bufs ← disks_lift (ok_or (block_shards dn pn data (es_bufs st)) (InvalidConfig "reed-solomon encode"));
  r ← write_shards dist (es_writers st) (es_hashed st) bufs;
  mret {| es_writers := r.1; es_hashed := r.2; es_bufs := bufs |}.

Fixpoint write_blocks (dist : list nat) (dn pn : nat) (st : EncState) (blocks : list bytes) : DisksM EncState :=
  match blocks with
  | [] => mret st
  | b :: blocks => st ← write_block dist dn pn st b; write_blocks dist dn pn st blocks
  end.

(** The body loop, with [block_buf] and the bytes seen so far. *)
Fixpoint encode_body (block : nat) (dist : list nat) (dn pn : nat) (st : EncState) (buf : bytes)
    (items : list (Result bytes)) : DisksM (EncState * bytes) :=
  match items with
  | [] =>
      st ← (if bool_decide (buf = []) then mret st else write_block dist dn pn st buf);
      mret (st, [])
  | item :: items =>
      chunk ← disks_lift item;
      let r := full_blocks block (length (buf ++ chunk)) (buf ++ chunk) in
      st ← write_blocks dist dn pn st r.1;
      q ← encode_body block dist dn pn st r.2 items;
      mret (q.1, chunk ++ q.2)
  end.

(** [disks[distribution[shard_idx]].open_shard_writer(...)]: all of them are opened,
    then the first error ends the request. *)
Fixpoint open_writers (dist : list nat) (b k : string) (vid : option string) : DisksM (list W) :=
  match dist with
  | [] => mret []
  | j :: dist => fun disks =>
      d ← disks !! j;
      let r := open_shard_writer d b k vid in
      q ← open_writers dist b k vid (<[j := r.1]> disks);
      Some (q.1, w ← r.2; ws ← q.2; Ok (w :: ws))
  end.

(** Finalize every writer on its disk; the results by shard. *)
Fixpoint finalize_all (disks : list B) (dist : list nat) (ws : list W) (metas : list ObjectMeta)
    : option (list B * list (Result unit)) :=
  match dist, ws, metas with
  | i :: dist, w :: ws, m :: metas =>
      d ← disks !! i;
      let r := finalize d w m in
      q ← finalize_all (<[i := r.1]> disks) dist ws metas;
      Some (q.1, r.2 :: q.2)
  | _, _, _ => Some (disks, [])
  end.

(** Delete the shards that were written. *)
Fixpoint rollback (disks : list B) (dist : list nat) (results : list (Result unit))
    (b k : string) : option (list B) :=
  match dist, results with
  | i :: dist, r :: results =>
      disks ← (if is_ok r then d ← disks !! i; Some (<[i := (delete_object d b k).1]> disks)
               else Some disks);
      rollback disks dist results b k
  | _, _ => Some disks
  end.

Definition write_quorum (dn pn : nat) : nat := if bool_decide (pn = 0) then dn else dn + 1.

(** What an encode leaves behind: the disks, whether the object was queued for
    repair, and the reply. *)
Record PutOutcome : Type := mkPutOutcome {
  po_disks : list B;
  po_mrf : bool;
  po_result : Result ObjectInfo;
}.

Definition encode_ec (block dn pn : nat) (c : PutContext) (disks : list B) (dist : list nat)
    (items : list (Result bytes)) : option PutOutcome :=
  let total := dn + pn in
  if bool_decide (0 < pn) && negb (rs_new_ok dn pn)
  then Some (mkPutOutcome disks false (Err (InvalidConfig "reed-solomon")))
  else
    w ← (ws ← open_writers dist (pc_bucket c) (pc_key c) (pc_version_id c);
         encode_body block dist dn pn (mkEncState ws (replicate total []) (replicate total [])) [] items) disks;
    match w with
    | (disks, Err e) => Some (mkPutOutcome disks false (Err e))
    | (disks, Ok (st, body)) =>
        let metas := imap (shard_meta c pn body) (es_hashed st) in
        r ← finalize_all disks dist (es_writers st) metas;
        let successes := length (List.filter is_ok r.2) in
        if bool_decide (successes < write_quorum dn pn) then
          disks ← rollback r.1 dist r.2 (pc_bucket c) (pc_key c);
          Some (mkPutOutcome disks false (Err WriteQuorum))
        else
          Some (mkPutOutcome r.1 (bool_decide (successes < total)) (Ok (object_info c body)))
    end.

(** [mrf] says whether a repair queue is attached; [now] is the clock. *)
Definition encode_and_write (block : nat) (disks : list B) (planner : PlacementPlanner)
    (dn pn : nat) (bucket key : string) (items : list (Result bytes)) (opts : PutOptions)
    (mrf : bool) (vid : option string) (content_length : option nat) (now : N)
    : option PutOutcome :=
  let ct := if bool_decide (opt_content_type opts = "") then "application/octet-stream"
            else opt_content_type opts in
  match plan planner bucket key dn pn with
  | Err e => Some (mkPutOutcome disks false (Err (InvalidConfig e)))
  | Ok placement =>
      let dist := map ps_backend_index (pr_shards placement) in
      let c := mkPutContext bucket key opts vid ct now (pr_epoch_id placement)
                 (map ps_volume_id (pr_shards placement)) in
      if bool_decide (dn = 1) && bool_decide (pn = 0) then
        disk_idx ← dist !! 0;
        d ← disks !! disk_idx;
        let use_pipeline := match content_length with
                            | None => true
                            | Some n => bool_decide (PIPELINE_MIN_BYTES <= n) end in
        let r := if use_pipeline then encode_1plus0_pipelined c d items
                 else encode_and_write_1plus0_serial c d items in
        Some (mkPutOutcome (<[disk_idx := r.1]> disks) false r.2)
      else
        o ← encode_ec block dn pn c disks dist items;
        Some (mkPutOutcome (po_disks o) (po_mrf o && mrf) (po_result o))
  end.

Definition encode_and_write_bytes (block : nat) (disks : list B) (planner : PlacementPlanner)
    (dn pn : nat) (bucket key : string) (data : bytes) (opts : PutOptions)
    (mrf : bool) (vid : option string) (now : N) : option PutOutcome :=
  encode_and_write block disks planner dn pn bucket key [Ok data] opts mrf vid
    (Some (length data)) now.

End Put.

(** ** Lemmas: shard streams *)

Lemma zip_app_assoc (a b c : list bytes) :
  zip_with app (zip_with app a b) c = zip_with app a (zip_with app b c).
Proof.
  revert b c. induction a as [|x a IH]; intros [|y b] [|z c]; try done. cbn. by rewrite IH, app_assoc.
Qed.

Lemma zip_app_nil n (a : list bytes) : length a = n -> zip_with app a (replicate n []) = a.
Proof. intros <-. induction a as [|x a IH]; [done|]. cbn. by rewrite IH, app_nil_r. Qed.

Lemma zip_nil_app n (a : list bytes) : length a = n -> zip_with app (replicate n []) a = a.
Proof. intros <-. induction a as [|x a IH]; [done|]. cbn. by rewrite IH. Qed.

Lemma join_blocks_cons total cur bss : join_blocks total (cur :: bss) = zip_with app cur (join_blocks total bss).
Proof. done. Qed.

Section Lemmas.
  Context `{Hashes} `{ReedSolomon} `{!ReedSolomonOk} {B W : Type} `{!Backend B W} `{!BackendOk B W}.

(** ** Lemmas: runs on the volumes *)

Lemma disks_bind_inv {A C : Type} (m : DisksM A) (f : A -> DisksM C) (disks disks' : list B) r :
  (m ≫= f) disks = Some (disks', r) ->
  (exists e, m disks = Some (disks', Err e) /\ r = Err e) \/
  (exists disks1 a, m disks = Some (disks1, Ok a) /\ f a disks1 = Some (disks', r)).
Proof.
  unfold mbind, disks_bind. destruct (m disks) as [[disks1 [a|e]]|]; [|intros [= <- <-]|done]; eauto.
Qed.

Lemma on_disk_inv {A : Type} j (f : B -> B * Result A) (disks disks' : list B) r :
  on_disk j f disks = Some (disks', r) ->
  exists d, disks !! j = Some d /\ disks' = <[j := (f d).1]> disks /\ r = (f d).2.
Proof. intros (d & Hd & [= <- <-])%bind_Some. eauto. Qed.

(** What a relation between a volume before and after needs in order to hold of a
    volume on which a writer of the object [o] is opened and written to. *)
Record writer_frame (b k : string) (v : option string) (R : B -> B -> Prop) : Prop := {
  wf_refl : Reflexive R;
  wf_trans : Transitive R;
  wf_open : forall d, R d (open_shard_writer d b k v).1;
  wf_write : forall d w c bs, writer_has d w (b, k, v) bs -> R d (write_chunk d w c).1;
}.

Lemma frame_refl (R : B -> B -> Prop) (disks : list B) : Reflexive R -> Forall2 R disks disks.
Proof. intros HR. by apply Forall_Forall2_diag, list.Forall_forall. Qed.

Lemma frame_insert (R : B -> B -> Prop) (disks disks' : list B) j d d' :
  Reflexive R -> Transitive R -> disks !! j = Some d -> R d d' ->
  Forall2 R (<[j := d']> disks) disks' -> Forall2 R disks disks'.
Proof.
  intros Hr Ht Hj Hd Hf. etransitivity; [|exact Hf].
  rewrite <- (list_insert_id disks j d Hj) at 1. apply Forall2_insert; [by apply frame_refl|done].
Qed.

Lemma absent_frame b k v :
  writer_frame b k v (fun d d' => is_ok (stat_object d b k) = false -> is_ok (stat_object d' b k) = false).
Proof.
  constructor; [by intros d|intros d1 d2 d3; auto|intros d; apply open_absent|].
  intros d w c bs Hw. by eapply write_absent.
Qed.

Section Writers.
  Variables (b k : string) (v : option string).

(** On the volume of each shard its writer has the shard's contents. *)
Definition writers_have (disks : list B) (dist : list nat) (ws : list W) (contents : list bytes) : Prop :=
  length ws = length dist /\ length contents = length dist /\
  forall i j w bs, dist !! i = Some j -> ws !! i = Some w -> contents !! i = Some bs ->
    exists d, disks !! j = Some d /\ writer_has d w (b, k, v) bs.

Lemma writers_have_cons disks j js w ws bs contents :
  writers_have disks (j :: js) (w :: ws) (bs :: contents) <->
  (exists d, disks !! j = Some d /\ writer_has d w (b, k, v) bs) /\ writers_have disks js ws contents.
Proof.
  unfold writers_have. cbn [length]. split.
  - intros (Hw & Hc & Hi). split; [by apply (Hi 0)|]. split_and!; [lia|lia|]. intros i. apply (Hi (S i)).
  - intros [Hd (Hw & Hc & Hi)]. split_and!; [lia|lia|]. intros [|i] j' w' bs' Hj Hw' Hb; [|by apply (Hi i)].
    cbn in *. by simplify_eq.
Qed.

Lemma writers_have_insert disks js ws contents j d :
  j ∉ js -> writers_have disks js ws contents -> writers_have (<[j := d]> disks) js ws contents.
Proof.
  intros Hj (Hw & Hc & Hi). split_and!; [done..|]. intros i j' w bs Hj' Hw' Hb.
  destruct (Hi i j' w bs Hj' Hw' Hb) as (d' & Hd & Hwh). exists d'. split; [|done].
  rewrite list_lookup_insert_ne; [done|]. intros ->. apply Hj. by eapply list_elem_of_lookup_2.
Qed.

Lemma writers_have_keep disks disks' js ws contents :
  (forall j, j ∈ js -> disks' !! j = disks !! j) -> writers_have disks js ws contents ->
  writers_have disks' js ws contents.
Proof.
  intros Hs (Hw & Hc & Hi). split_and!; [done..|]. intros i j w bs Hj Hw' Hb. rewrite Hs; [by apply (Hi i)|].
  by eapply list_elem_of_lookup_2.
Qed.

End Writers.

(** ** Lemmas: the body loop *)

Section Body.
  Variables (b k : string) (v : option string) (R : B -> B -> Prop) (frame : writer_frame b k v R).
  Variables (block dn pn : nat) (dist : list nat).
  Hypothesis (dn_pos : 0 < dn) (rs_ok : 0 < pn -> rs_new_ok dn pn = true) (block_pos : 0 < block).
  Hypothesis (dist_nodup : NoDup dist).

Local Instance frame_reflexive : Reflexive R := wf_refl _ _ _ _ frame.
Local Instance frame_transitive : Transitive R := wf_trans _ _ _ _ frame.

Lemma write_shards_ok js ws hs ss contents disks disks' r :
  NoDup js -> writers_have b k v disks js ws contents -> length hs = length js -> length ss = length js ->
  write_shards js ws hs ss disks = Some (disks', r) ->
  Forall2 R disks disks' /\ (forall j, j ∉ js -> disks' !! j = disks !! j) /\
  match r with
  | Ok (ws', hs') => writers_have b k v disks' js ws' (zip_with app contents ss) /\ hs' = zip_with app hs ss
  | Err _ => True
  end.
Proof.
  revert ws hs ss contents disks r. induction js as [|j js IH];
    intros [|w ws] [|h hs] [|s ss] contents disks r Hnd Hh Hlh Hls E; try done; try by destruct Hh.
  { cbn in E. injection E as <- <-. split_and!; [by apply frame_refl, _|done| |done].
    destruct Hh as (_ & Hc & _). by destruct contents. }
  destruct contents as [|bs contents]; [by destruct Hh as (_ & ? & _)|].
  apply writers_have_cons in Hh as [(d & Hd & Hw) Hh]. apply list.NoDup_cons in Hnd as [Hj Hnd].
  cbn [write_shards] in E. apply disks_bind_inv in E as [(e & E & ->)|(disks1 & w' & E & E')].
  { apply on_disk_inv in E as (d' & Hd' & -> & _). simplify_eq. split_and!; [|intros x Hx; apply list_lookup_insert_ne; set_solver|done].
    eapply frame_insert; [apply _..|done|by eapply (wf_write _ _ _ _ frame)|apply frame_refl, _]. }
  apply on_disk_inv in E as (d' & Hd' & -> & Ew). simplify_eq.
  pose proof (wf_write _ _ _ _ frame d w s bs Hw) as HR.
  apply (writers_have_insert _ _ _ _ _ _ _ j (write_chunk d w s).1 Hj) in Hh.
  assert (Hrun : exists r', write_shards js ws hs ss (<[j := (write_chunk d w s).1]> disks) = Some (disks', r') /\
    r = (x ← r'; Ok (w' :: x.1, (h ++ s) :: x.2))).
  { apply disks_bind_inv in E' as [(e & E' & ->)|(disks2 & x & E' & [= <- <-])]; eauto. }
  destruct Hrun as (r' & E'' & ->). destruct (IH ws hs ss contents _ _ Hnd Hh ltac:(simpl in *; lia) ltac:(simpl in *; lia) E'')
    as (Hf & Hout & Hr). split_and!.
  - by eapply frame_insert; [apply _..|done|done|].
  - intros x [Hx Hx']%not_elem_of_cons. rewrite Hout by done. by apply list_lookup_insert_ne.
  - destruct r' as [[ws' hs']|]; [|done]. destruct Hr as [Hr ->]. cbn. split; [|done].
    apply writers_have_cons. split; [|done]. exists (write_chunk d w s).1. split.
    + rewrite Hout by done. apply list_lookup_insert_eq. by eapply lookup_lt_Some.
    + eapply write_chunk_ok; [exact Hw|]. rewrite (surjective_pairing (write_chunk d w s)). by rewrite <- Ew.
Qed.

(** The writers hold [contents], and the hashers have seen the same bytes. *)
Definition holds_bytes (disks : list B) (st : EncState) (contents : list bytes) : Prop :=
  writers_have b k v disks dist (es_writers st) contents /\ es_hashed st = contents /\
  length dist = dn + pn /\ length (es_bufs st) = dn + pn.

(** What a part of the body loop leaves: the frame, and in case of success writers that
    hold the coded blocks on top of [contents]. *)
Definition encoded (disks disks' : list B) (r : Result (@EncState W)) (P : @EncState W -> Prop) : Prop :=
  Forall2 R disks disks' /\ match r with Ok st => P st | Err _ => True end.

Lemma write_block_ok disks st contents data disks' r :
  holds_bytes disks st contents -> write_block dist dn pn st data disks = Some (disks', r) ->
  encoded disks disks' r (fun st' =>
    exists cur, coded dn pn data cur /\ holds_bytes disks' st' (zip_with app contents cur)).
Proof.
  intros (Hw & Hh & Hl & Hb) E. unfold write_block in E.
  destruct (block_shards_coded dn pn dn_pos rs_ok data (es_bufs st) Hb) as (cur & Hcur & Hc).
  rewrite Hcur in E. pose proof (coded_length _ _ _ _ Hc) as Hlc.
  apply disks_bind_inv in E as [(e & [=] & _)|(? & ? & [= <- <-] & E)].
  assert (Hrun : exists r', write_shards dist (es_writers st) (es_hashed st) cur disks = Some (disks', r') /\
    r = (x ← r'; Ok {| es_writers := x.1; es_hashed := x.2; es_bufs := cur |})).
  { apply disks_bind_inv in E as [(e & E & ->)|(disks2 & x & E & [= <- <-])]; eauto. }
  destruct Hrun as (r' & E' & ->). pose proof (proj1 (proj2 Hw)) as Hlw.
  destruct (write_shards_ok dist (es_writers st) (es_hashed st) cur contents _ _ _ dist_nodup Hw ltac:(by rewrite Hh) ltac:(lia) E') as (Hf & _ & Hr).
  split; [done|]. destruct r' as [[ws' hs']|]; [|done]. destruct Hr as [Hr ->]. cbn.
  exists cur. split; [done|]. unfold holds_bytes. cbn [es_writers es_hashed es_bufs].
  rewrite Hh. split_and!; [done..|]. lia.
Qed.

Lemma write_blocks_ok bl disks st contents disks' r :
  holds_bytes disks st contents -> write_blocks dist dn pn st bl disks = Some (disks', r) ->
  encoded disks disks' r (fun st' => exists bss, Forall2 (coded dn pn) bl bss /\
    holds_bytes disks' st' (zip_with app contents (join_blocks (dn + pn) bss))).
Proof.
  revert disks st contents. induction bl as [|x bl IH]; intros disks st contents Hst E.
  - injection E as <- <-. split; [apply frame_refl, _|]. exists []. split; [constructor|].
    unfold join_blocks. cbn [foldr]. rewrite zip_app_nil; [done|]. destruct Hst as ((_ & -> & _) & _ & Hd & _). done.
  - cbn [write_blocks] in E. apply disks_bind_inv in E as [(e & E & ->)|(disks1 & st1 & E1 & E)].
    { by destruct (write_block_ok _ _ _ _ _ _ Hst E). }
    destruct (write_block_ok _ _ _ _ _ _ Hst E1) as (Hf1 & cur & Hc & Hst1).
    destruct (IH _ _ _ Hst1 E) as [Hf2 Hr]. split; [by etransitivity|].
    destruct r as [st'|]; [|done]. destruct Hr as (bss & Hbss & Hst'). exists (cur :: bss).
    split; [by constructor|]. by rewrite join_blocks_cons, <- zip_app_assoc.
Qed.

Lemma join_blocks_app total b1 b2 :
  Forall (fun bs => length bs = total) b2 ->
  join_blocks total (b1 ++ b2) = zip_with app (join_blocks total b1) (join_blocks total b2).
Proof.
  intros Hl. induction b1 as [|c b1 IH]; cbn [app].
  - unfold join_blocks at 2. cbn [foldr]. by rewrite zip_nil_app by (by apply length_join_blocks).
  - by rewrite !join_blocks_cons, IH, zip_app_assoc.
Qed.

Lemma coded_lengths bl bss :
  Forall2 (coded dn pn) bl bss -> Forall (fun bs : list bytes => length bs = dn + pn) bss.
Proof. induction 1 as [|? ? ? ? Hc]; constructor; [apply (coded_length _ _ _ _ Hc)|done]. Qed.

(** A successful encode has written the coded blocks of the whole body. *)
Lemma encode_body_ok items disks st contents buf disks' r :
  holds_bytes disks st contents -> length buf < block ->
  encode_body block dist dn pn st buf items disks = Some (disks', r) ->
  Forall2 R disks disks' /\ forall st' body, r = Ok (st', body) ->
  exists chunks bl bss, items = map Ok chunks /\ body = concat chunks /\
    chopped block (buf ++ body) bl /\ Forall2 (coded dn pn) bl bss /\
    holds_bytes disks' st' (zip_with app contents (join_blocks (dn + pn) bss)).
Proof.
  revert disks st contents buf r. induction items as [|item items IH];
    intros disks st contents buf r Hst Hbuf E; cbn [encode_body] in E.
  - assert (Hl : length contents = dn + pn) by (destruct Hst as ((_ & -> & _) & _ & ? & _); done).
    case_bool_decide as Hnil.
    + injection E as <- <-. split; [apply frame_refl, _|]. intros st' body [= <- <-].
      exists [], [], []. rewrite app_nil_r. split_and!; try done; [subst; constructor|].
      unfold join_blocks. cbn [foldr]. by rewrite zip_app_nil.
    + apply disks_bind_inv in E as [(e & E & ->)|(disks1 & st1 & E & [= <- <-])];
        destruct (write_block_ok _ _ _ _ _ _ Hst E) as [Hf Hr]; [by split|]. split; [done|].
      intros st' body [= <- <-]. destruct Hr as (cur & Hc & Hst1). exists [], [buf], [cur]. rewrite app_nil_r.
      split_and!; try done; [by apply chop_last|constructor; [done|constructor]|].
      rewrite join_blocks_cons. unfold join_blocks. cbn [foldr].
      by rewrite (zip_app_nil _ cur) by (apply (coded_length _ _ _ _ Hc)).
  - apply disks_bind_inv in E as [(e & [= <- ->] & ->)|(? & chunk & [= <- ->] & E)].
    { split; [apply frame_refl, _|done]. }
    destruct (full_blocks_spec block (length (buf ++ chunk)) (buf ++ chunk) block_pos ltac:(done))
      as (Hc & Hf & Hr).
    set (q := full_blocks _ _ _) in *.
    apply disks_bind_inv in E as [(e & E & ->)|(disks1 & st1 & E1 & E)].
    { by destruct (write_blocks_ok _ _ _ _ _ _ Hst E). }
    destruct (write_blocks_ok _ _ _ _ _ _ Hst E1) as (Hf1 & bss1 & Hb1 & Hst1).
    apply disks_bind_inv in E as [(e & E & ->)|(disks2 & [st2 body2] & E2 & [= <- <-])].
    { destruct (IH _ _ _ _ _ Hst1 Hr E) as [Hf2 _]. split; [by etransitivity|done]. }
    destruct (IH _ _ _ _ _ Hst1 Hr E2) as [Hf2 Hin]. split; [by etransitivity|]. intros st' body [= <- <-].
    destruct (Hin _ _ eq_refl) as (chunks & bl & bss2 & -> & -> & Hch & Hb2 & Hst2).
    exists (chunk :: chunks), (q.1 ++ bl), (bss1 ++ bss2). cbn [fst snd]. split_and!; try done.
    + rewrite app_assoc, <- Hc, <- app_assoc. by apply chopped_full.
    + by apply Forall2_app.
    + rewrite join_blocks_app by (by eapply coded_lengths). by rewrite <- zip_app_assoc.
Qed.

(** ** Lemmas: opening and finalizing *)

Lemma open_writers_ok js disks disks' r :
  NoDup js -> open_writers js b k v disks = Some (disks', r) ->
  Forall2 R disks disks' /\ (forall j, j ∉ js -> disks' !! j = disks !! j) /\
  match r with Ok ws => writers_have b k v disks' js ws (replicate (length js) []) | Err _ => True end.
Proof.
  revert disks r. induction js as [|j js IH]; intros disks r Hnd E; cbn [open_writers] in E.
  { injection E as <- <-. split_and!; [apply frame_refl, _|done..]. }
  apply list.NoDup_cons in Hnd as [Hj Hnd]. apply bind_Some in E as (d & Hd & E).
  apply bind_Some in E as ([disks1 q] & E & [= <- <-]). destruct (IH _ _ Hnd E) as (Hf & Hout & Hq). split_and!.
  - eapply frame_insert; [apply _..|done|apply (wf_open _ _ _ _ frame)|done].
  - intros x [Hx Hx']%not_elem_of_cons. rewrite Hout by done. by apply list_lookup_insert_ne.
  - destruct (open_shard_writer d b k v) as [d' [w|]] eqn:Eo; [|done]. destruct q as [ws|]; [|done]. cbn.
    apply writers_have_cons. split; [|done]. exists d'. split; [|by eapply open_writer_ok].
    rewrite Hout by done. apply list_lookup_insert_eq. by eapply lookup_lt_Some.
Qed.

(** The writers of a whole PUT, opened and fed. *)
Lemma feed_writers_ok items disks disks' r :
  length dist = dn + pn ->
  (ws ← open_writers dist b k v;
   encode_body block dist dn pn (mkEncState ws (replicate (dn + pn) []) (replicate (dn + pn) [])) [] items) disks
    = Some (disks', r) ->
  Forall2 R disks disks' /\ forall st body, r = Ok (st, body) ->
  exists chunks bl bss, items = map Ok chunks /\ body = concat chunks /\ chopped block body bl /\
    Forall2 (coded dn pn) bl bss /\ es_hashed st = join_blocks (dn + pn) bss /\
    writers_have b k v disks' dist (es_writers st) (join_blocks (dn + pn) bss).
Proof.
  intros Hdist E. apply disks_bind_inv in E as [(e & E & ->)|(disks1 & ws & E1 & E)].
  { by destruct (open_writers_ok _ _ _ _ dist_nodup E) as (? & _ & _). }
  destruct (open_writers_ok _ _ _ _ dist_nodup E1) as (Hf1 & _ & Hw). rewrite Hdist in Hw.
  set (st0 := mkEncState ws _ _) in E.
  assert (Hst0 : holds_bytes disks1 st0 (replicate (dn + pn) [])).
  { unfold holds_bytes. cbn. by rewrite length_replicate. }
  destruct (encode_body_ok items _ _ _ [] _ _ Hst0 block_pos E) as [Hf2 Hr].
  split; [by etransitivity|]. intros st body ->.
  destruct (Hr _ _ eq_refl) as (chunks & bl & bss & Hi & Hb & Hch & Hco & Hst). exists chunks, bl, bss.
  rewrite zip_nil_app in Hst by (by apply length_join_blocks; eapply coded_lengths).
  destruct Hst as (? & ? & _ & _). by split_and!.
Qed.

End Body.

(** Every finalized shard is readable on its disk, and an object that was not there
    does not become readable on a disk that failed to finalize. *)
Lemma finalize_all_ok b k dist ws contents metas disks disks' results :
  NoDup dist -> writers_have b k None disks dist ws contents -> length metas = length dist ->
  Forall plain_meta metas -> finalize_all disks dist ws metas = Some (disks', results) ->
  length results = length dist /\ length disks' = length disks /\
  (forall j, j ∉ dist -> disks' !! j = disks !! j) /\
  (forall i j, dist !! i = Some j -> exists d bs meta d',
     disks !! j = Some d /\ contents !! i = Some bs /\ metas !! i = Some meta /\ disks' !! j = Some d' /\
     match results !! i with
     | Some (Ok _) => read_shard d' b k = Ok (bs, meta)
     | _ => is_ok (stat_object d b k) = false -> is_ok (read_shard d' b k) = false
     end).
Proof.
  revert ws contents metas disks results. induction dist as [|j0 dist IH];
    intros [|w ws] [|bs contents] [|m metas] disks results Hnd Hw Hlm Hpm E; try done;
    try (by destruct Hw as (? & ? & ?)); cbn [finalize_all] in E.
  - injection E as <- <-. split_and!; done.
  - apply bind_Some in E as (d & Hd & E). apply bind_Some in E as ([disks1 res1] & E1 & [= <- <-]).
    apply list.NoDup_cons in Hnd as [Hj0 Hnd]. apply Forall_cons_1 in Hpm as [Hm Hpm].
    apply writers_have_cons in Hw as [(d0 & Hd0 & Hwd) Hw]. rewrite Hd in Hd0. injection Hd0 as <-.
    destruct (IH ws contents metas (<[j0 := (finalize d w m).1]> disks) res1 Hnd) as (Hx1 & Hx2 & Hx3 & Hx4); try done;
      [by apply writers_have_insert|by injection Hlm|].
    cbn [fst snd] in *. rewrite length_insert in Hx2. split_and!; [cbn; lia|done| |].
    + intros j Hj. apply not_elem_of_cons in Hj as [Hne Hj]. rewrite Hx3 by done.
      by rewrite list_lookup_insert_ne.
    + intros [|i] j Hi; cbn in Hi.
      * injection Hi as <-. exists d, bs, m, (finalize d w m).1. cbn. split_and!; try done.
        { rewrite Hx3 by done. apply list_lookup_insert_eq. by eapply lookup_lt_Some. }
        destruct (finalize d w m) as [d' [[]|e]] eqn:Ef; cbn; [by eapply finalize_read_ok|].
        intros Hs. by eapply finalize_err_ok.
      * destruct (Hx4 i j Hi) as (d1 & bs1 & m1 & d' & Hd1 & ? & ? & ? & ?).
        rewrite list_lookup_insert_ne in Hd1; [by exists d1, bs1, m1, d'|].
        intros ->. apply Hj0. by eapply list_elem_of_lookup_2.
Qed.

End Lemmas.

(** ** Lemmas: what a successful PUT leaves on the disks *)

Section ReadBack.
  Context `{Hashes} `{ReedSolomon} `{!ReedSolomonOk} {B W : Type} `{!Backend B W} `{!BackendOk B W}.

(** No disk holds the object yet. *)
Definition fresh_object (disks : list B) (b k : string) : Prop :=
  forall j d, disks !! j = Some d -> is_ok (stat_object d b k) = false.

Lemma fresh_frame (disks disks' : list B) b k :
  Forall2 (fun d d' => is_ok (stat_object d b k) = false -> is_ok (stat_object d' b k) = false) disks disks' ->
  fresh_object disks b k -> fresh_object disks' b k.
Proof. intros Hf Hfr j d' Hj. destruct (Forall2_lookup_r _ _ _ _ _ Hf Hj) as (d & Hd & Hs). by apply Hs, (Hfr j). Qed.

Definition shard_reads (disks : list B) (b k : string) : list (option (bytes * ObjectMeta)) :=
  map (fun d => result_ok (read_shard d b k)) disks.

Lemma elem_of_shard_reads disks b k data meta :
  Some (data, meta) ∈ shard_reads disks b k <->
  exists j d, disks !! j = Some d /\ read_shard d b k = Ok (data, meta).
Proof.
  unfold shard_reads. rewrite list_elem_of_fmap. split.
  - intros (d & E & [j Hj]%list_elem_of_lookup). exists j, d. split; [done|].
    destruct (read_shard d b k) as [[]|]; simplify_eq/=. done.
  - intros (j & d & Hj & E). exists d. rewrite E. split; [done|]. by eapply list_elem_of_lookup_2.
Qed.

Lemma filter_is_ok_count (rs : list (Result unit)) :
  length (List.filter is_ok rs) = good_count (map result_ok rs).
Proof.
  induction rs as [|r rs IH]; [done|]. cbn [map]. rewrite good_count_cons, <- IH.
  by destruct r.
Qed.

(** The disks hold shards of one PUT and nothing else of the object: shard [i] may
    be on disk [dist !! i] only, and the shards of at least [n] positions are there. *)
Record placed (c : PutContext) (pn n : nat) (body : bytes) (dist : list nat) (shards : list bytes)
    (disks : list B) : Prop := {
  placed_only : forall j d data meta,
    disks !! j = Some d -> read_shard d (pc_bucket c) (pc_key c) = Ok (data, meta) ->
    exists i, dist !! i = Some j /\ shards !! i = Some data /\ meta = shard_meta c pn body i data;
  placed_enough : exists idxs, NoDup idxs /\ n <= length idxs /\ forall i, i ∈ idxs ->
    exists j d s, dist !! i = Some j /\ disks !! j = Some d /\ shards !! i = Some s /\
      read_shard d (pc_bucket c) (pc_key c) = Ok (s, shard_meta c pn body i s);
}.

Lemma plain_metas c pn data (shards : list bytes) :
  pc_version_id c = None -> Forall plain_meta (imap (shard_meta c pn data) shards).
Proof.
  intros Hv. apply Forall_lookup. intros i m. rewrite list_lookup_imap. destruct (shards !! i); [|done]. cbn.
  intros [= <-]. unfold plain_meta. cbn. by rewrite Hv.
Qed.

(** The disks after the shards [shards] of a new object were finalized. *)
Lemma finalized_placed c pn body disks dist ws shards disks' results :
  pc_version_id c = None -> NoDup dist -> writers_have (pc_bucket c) (pc_key c) None disks dist ws shards ->
  fresh_object disks (pc_bucket c) (pc_key c) ->
  finalize_all disks dist ws (imap (shard_meta c pn body) shards) = Some (disks', results) ->
  placed c pn (length (List.filter is_ok results)) body dist shards disks'.
Proof.
  intros Hv Hnd Hw Hfresh E. pose proof (plain_metas c pn body shards Hv) as Hpm.
  assert (Hlm : length (imap (shard_meta c pn body) shards) = length dist)
    by (rewrite length_imap; apply Hw).
  destruct (finalize_all_ok _ _ _ _ _ _ _ _ _ Hnd Hw Hlm Hpm E) as (Hlr & _ & Hout & Hin).
  assert (Hok : forall i j, dist !! i = Some j -> exists d', disks' !! j = Some d' /\
    match results !! i with
    | Some (Ok _) => exists s, shards !! i = Some s /\
        read_shard d' (pc_bucket c) (pc_key c) = Ok (s, shard_meta c pn body i s)
    | _ => is_ok (read_shard d' (pc_bucket c) (pc_key c)) = false
    end).
  { intros i j Hi. destruct (Hin i j Hi) as (d & s & meta & d' & Hd & Hs & Hm & Hd' & Hres).
    exists d'. split; [done|]. rewrite list_lookup_imap, Hs in Hm. cbn in Hm. injection Hm as <-.
    destruct (results !! i) as [[[]|e]|]; [by eauto|by eapply Hres, Hfresh..]. }
  clear Hin. split.
  - intros j d data meta Hj Hrd. destruct (decide (j ∈ dist)) as [[i Hi]%list_elem_of_lookup|Hnj].
    + destruct (Hok i j Hi) as (d' & Hd' & Hres). rewrite Hj in Hd'. injection Hd' as <-.
      rewrite Hrd in Hres. exists i. destruct (results !! i) as [[[]|]|]; try done.
      destruct Hres as (s & Hs & [= -> ->]). done.
    + rewrite (Hout j Hnj) in Hj. specialize (Hfresh j d Hj). apply absent_unreadable in Hfresh.
      by rewrite Hrd in Hfresh.
  - exists (filter (fun i => is_Some (map result_ok results !! i ≫= id)) (seq 0 (length (map result_ok results)))).
    split_and!; [apply list.NoDup_filter, NoDup_seq|by rewrite <- good_count_seq, <- filter_is_ok_count|].
    intros i [Hi _]%list_elem_of_filter. rewrite list_lookup_fmap in Hi.
    destruct (results !! i) as [r|] eqn:Er; [|by destruct Hi].
    destruct (lookup_lt_is_Some_2 dist i) as [j Hj]; [apply lookup_lt_Some in Er; lia|].
    destruct (Hok i j Hj) as (d' & Hd' & Hres). rewrite Er in Hres.
    destruct r as [[]|e]; [|by destruct Hi as [? [=]]]. destruct Hres as (s & Hs & Hrd).
    by exists j, d', s.
Qed.

Lemma verify_own_checksum (s : bytes) : verify_shard_checksum s (blake3_hex s) = true.
Proof. unfold verify_shard_checksum. by rewrite bool_decide_eq_true_2. Qed.

(** A successful erasure-coded PUT of a new object places a coded body. *)
Lemma encode_ec_placed block dn pn c disks dist items o info :
  0 < dn -> 0 < block -> NoDup dist -> length dist = dn + pn -> pc_version_id c = None ->
  fresh_object disks (pc_bucket c) (pc_key c) ->
  encode_ec block dn pn c disks dist items = Some o -> po_result o = Ok info ->
  exists chunks bl bss,
    items = map Ok chunks /\ info = object_info c (concat chunks) /\
    (0 < pn -> rs_new_ok dn pn = true) /\
    chopped block (concat chunks) bl /\ Forall2 (coded dn pn) bl bss /\
    placed c pn dn (concat chunks) dist (join_blocks (dn + pn) bss) (po_disks o).
Proof.
  intros Hdn Hblk Hnd Hdist Hv Hfresh E Hres. unfold encode_ec in E.
  destruct (decide (0 < pn /\ rs_new_ok dn pn = false)) as [[Hpn Hrs]|Hrs].
  { rewrite bool_decide_eq_true_2, Hrs in E by done. cbn in E. injection E as <-. done. }
  assert (Hrs' : 0 < pn -> rs_new_ok dn pn = true)
    by (intros; destruct (rs_new_ok dn pn); [done|tauto]).
  replace (bool_decide (0 < pn) && negb (rs_new_ok dn pn)) with false in E.
  2:{ case_bool_decide; [by rewrite Hrs'|done]. }
  apply bind_Some in E as ([disks1 r] & Hfeed & E). rewrite Hv in Hfeed.
  destruct (feed_writers_ok _ _ _ _ (absent_frame _ _ _) block dn pn dist Hdn Hrs' Hblk Hnd items _ _ _ Hdist Hfeed)
    as [Hf Hr].
  destruct r as [[st body]|]; [|by injection E as <-].
  destruct (Hr _ _ eq_refl) as (chunks & bl & bss & Hitems & -> & Hch & Hco & Hh & Hw). clear Hr.
  apply bind_Some in E as ([disks' results] & Hfin & E). cbn [fst snd] in E.
  rewrite Hh in Hfin. case_bool_decide as Hq.
  { apply bind_Some in E as (? & _ & [= <-]). done. }
  injection E as <-. cbn in Hres. injection Hres as <-. cbn [po_disks].
  exists chunks, bl, bss. split_and!; try done.
  destruct (finalized_placed c pn (concat chunks) disks1 dist (es_writers st) _ _ _ Hv Hnd Hw
    (fresh_frame _ _ _ _ Hf Hfresh) Hfin) as [Hg (idxs & ? & ? & ?)].
  split; [done|]. exists idxs. split_and!; try done. unfold write_quorum in Hq. case_bool_decide; lia.
Qed.

(** The readers collect enough shards from placed disks. *)
Lemma placed_collect c dn pn body dist shards disks :
  0 < dn -> length shards = dn + pn -> placed c pn dn body dist shards disks ->
  exists slots meta,
    collect dn (dn + pn) (shard_reads disks (pc_bucket c) (pc_key c)) = Ok (slots, meta) /\
    erased shards slots /\ dn <= good_count slots /\ exists i s, meta = shard_meta c pn body i s.
Proof.
  intros Hdn Hl [Honly (idxs & Hnd & Hlen & Hidx)].
  destruct (collect_good shards dn (dn + pn) (shard_reads disks (pc_bucket c) (pc_key c)) Hl)
    as (slots & meta & Hcol & Her & Hgc & dm & Hdm).
  - apply list.Forall_forall. intros [[data meta]|] Hr; [|done].
    apply elem_of_shard_reads in Hr as (j & d & Hj & Hrd).
    destruct (Honly _ _ _ _ Hj Hrd) as (i & _ & Hs & ->). split; [apply verify_own_checksum|done].
  - done.
  - exists idxs. split_and!; [done|done|]. intros i Hi.
    destruct (Hidx i Hi) as (j & d & s & _ & Hj & Hs & Hrd). exists s, (shard_meta c pn body i s).
    split; [|done]. apply elem_of_shard_reads. eauto.
  - apply elem_of_shard_reads in Hdm as (j & d & Hj & Hrd).
    destruct (Honly _ _ _ _ Hj Hrd) as (i & _ & _ & ->). exists slots. eexists. split_and!; eauto.
Qed.

Lemma encode_ec_reads block dn pn c disks dist items o info :
  0 < dn -> 0 < block -> NoDup dist -> length dist = dn + pn -> pc_version_id c = None ->
  fresh_object disks (pc_bucket c) (pc_key c) ->
  encode_ec block dn pn c disks dist items = Some o -> po_result o = Ok info ->
  exists chunks bl bss slots meta,
    items = map Ok chunks /\ info = object_info c (concat chunks) /\
    (0 < pn -> rs_new_ok dn pn = true) /\
    chopped block (concat chunks) bl /\ Forall2 (coded dn pn) bl bss /\
    collect dn (dn + pn) (shard_reads (po_disks o) (pc_bucket c) (pc_key c)) = Ok (slots, meta) /\
    erased (join_blocks (dn + pn) bss) slots /\ dn <= good_count slots /\
    exists i s, meta = shard_meta c pn (concat chunks) i s.
Proof.
  intros Hdn Hblk Hnd Hdist Hv Hfresh E Hres.
  destruct (encode_ec_placed _ _ _ _ _ _ _ _ _ Hdn Hblk Hnd Hdist Hv Hfresh E Hres)
    as (chunks & bl & bss & Hitems & Hinfo & Hrs & Hch & Hco & Hp).
  destruct (placed_collect _ _ _ _ _ _ _ Hdn
    ltac:(by apply length_join_blocks; eapply coded_lengths) Hp) as (slots & meta & ? & ? & ? & ?).
  exists chunks, bl, bss, slots, meta. split_and!; done.
Qed.

End ReadBack.

(** ** Lemmas: reading back *)

Section RoundTrip.
  Context `{Hashes} `{ReedSolomon} `{!ReedSolomonOk} {B W : Type} `{!Backend B W} `{!BackendOk B W}.

(** The disks hold enough shards of the coded [body] for every reader. *)
Definition stored (block dn pn : nat) (c : PutContext) (disks : list B) (body : bytes) : Prop :=
  exists bl bss slots meta,
    (0 < pn -> rs_new_ok dn pn = true) /\
    chopped block body bl /\ Forall2 (coded dn pn) bl bss /\
    collect dn (dn + pn) (shard_reads disks (pc_bucket c) (pc_key c)) = Ok (slots, meta) /\
    erased (join_blocks (dn + pn) bss) slots /\ dn <= good_count slots /\
    exists i s, meta = shard_meta c pn body i s.

Lemma chopped_exists block body : 0 < block -> exists bl, chopped block body bl.
Proof.
  intros Hb. exists (stream_blocks block [body] []).
  pose proof (stream_blocks_chopped block [body] [] Hb Hb) as Hc. cbn in Hc.
  by rewrite app_nil_r in Hc.
Qed.

Lemma shard_size_1 n : shard_size n 1 = Nat.max n 1.
Proof. unfold shard_size, div_ceil. rewrite Nat.div_1_r. lia. Qed.

(** With one data shard and no parity the shard is the body itself. *)
Lemma coded_single d : d <> [] -> coded 1 0 d [d].
Proof.
  intros Hd. assert (Hl : Nat.max (length d) 1 = length d) by (destruct d; [done|simpl; lia]).
  constructor; [done| | |lia].
  - constructor; [|constructor]. by rewrite shard_size_1, Hl.
  - unfold split_data. rewrite shard_size_1, Hl. cbn [seq map take]. f_equal.
    rewrite shard_at_resize. cbn [Nat.mul drop]. by rewrite resize_all.
Qed.

Lemma chopped_single block body bl :
  0 < block -> chopped block body bl ->
  Forall2 (coded 1 0) bl (map (fun b => [b]) bl) /\ join_blocks 1 (map (fun b => [b]) bl) = [body].
Proof.
  intros Hb. induction 1 as [|d Hd _|d rest bl Hl _ [IH1 IH2]]; cbn [map].
  - split; [constructor|done].
  - split; [constructor; [by apply coded_single|constructor]|].
    rewrite join_blocks_cons. cbn. by rewrite app_nil_r.
  - split; [constructor; [apply coded_single; by destruct d; [simpl in *; lia|]|done]|].
    by rewrite join_blocks_cons, IH2.
Qed.

(** Feeding one writer. *)
Lemma write_items_ok b k v (R : B -> B -> Prop) (frame : writer_frame b k v R) items d w bs :
  writer_has d w (b, k, v) bs ->
  R d (write_items d w items).1 /\ forall w' body, (write_items d w items).2 = Ok (w', body) ->
  exists chunks, items = map Ok chunks /\ body = concat chunks /\
    writer_has (write_items d w items).1 w' (b, k, v) (bs ++ body).
Proof.
  revert d w bs. induction items as [|[chunk|e] items IH]; intros d w bs Hw; cbn [write_items].
  - split; [apply (wf_refl _ _ _ _ frame)|]. intros w' body [= <- <-]. exists []. by rewrite app_nil_r.
  - pose proof (wf_write _ _ _ _ frame d w chunk bs Hw) as HR.
    destruct (write_chunk d w chunk) as [d1 [w1|e]] eqn:E; cbn [fst snd] in *; [|by split].
    destruct (IH d1 w1 (bs ++ chunk)) as [HR' Hr]; [by eapply write_chunk_ok|].
    split; [by eapply (wf_trans _ _ _ _ frame)|]. intros w' body Ew.
    apply result_bind_Ok in Ew as ([w2 b2] & Ew & [= <- <-]). destruct (Hr _ _ Ew) as (chunks & -> & -> & Hw').
    exists (chunk :: chunks). split_and!; [done..|]. cbn. by rewrite app_assoc.
  - split; [apply (wf_refl _ _ _ _ frame)|done].
Qed.

Lemma body_items_Ok chunks : body_items (map Ok chunks) = Ok chunks.
Proof. induction chunks as [|c chunks IH]; cbn; [done|]. by rewrite IH. Qed.

Lemma sent_chunks_Ok chunks : sent_chunks (map Ok chunks) = chunks.
Proof. induction chunks as [|c chunks IH]; cbn; [done|]. by rewrite IH. Qed.

(** The two single-disk paths do the same to a body that arrives complete. *)
Lemma pipelined_serial c (d : B) chunks :
  encode_1plus0_pipelined c d (map Ok chunks) = encode_and_write_1plus0_serial c d (map Ok chunks).
Proof.
  unfold encode_1plus0_pipelined, encode_and_write_1plus0_serial. rewrite body_items_Ok, sent_chunks_Ok.
  destruct (open_shard_writer _ _ _ _) as [d' [w|]]; [|done]. by destruct (write_items _ _ _) as [? [[]|]].
Qed.

(** A successful single-disk PUT: the frame up to the last write, and the finalized
    shard. *)
Lemma serial_finalized c (R : B -> B -> Prop) (frame : writer_frame (pc_bucket c) (pc_key c) None R) d chunks d' info :
  pc_version_id c = None -> encode_and_write_1plus0_serial c d (map Ok chunks) = (d', Ok info) ->
  let body := concat chunks in
  info = object_info c body /\ plain_meta (shard_meta c 0 body 0 body) /\
  exists d1 w, R d d1 /\ writer_has d1 w (pc_bucket c, pc_key c, None) body /\
    finalize d1 w (shard_meta c 0 body 0 body) = (d', Ok tt).
Proof.
  intros Hv E body. unfold encode_and_write_1plus0_serial in E. rewrite Hv in E.
  pose proof (wf_open _ _ _ _ frame d) as HR0.
  destruct (open_shard_writer _ _ _ _) as [d0 [w|]] eqn:Eo; [|done]. apply open_writer_ok in Eo.
  destruct (write_items_ok _ _ _ _ frame (map Ok chunks) d0 w [] Eo) as [HR1 Hr].
  destruct (write_items d0 w _) as [d1 [[w' body']|]]; [|done]. cbn [fst snd app] in *.
  destruct (Hr _ _ eq_refl) as (chunks' & Hc & -> & Hw).
  assert (chunks' = chunks) as ->.
  { apply (f_equal sent_chunks) in Hc. by rewrite !sent_chunks_Ok in Hc. }
  fold body in E, Hw. unfold finish_single in E.
  destruct (finalize d1 w' (shard_meta c 0 body 0 body)) as [d2 [[]|]] eqn:Ef; [|done].
  cbn in E. injection E as <- <-. split_and!; [done| |].
  - unfold plain_meta. cbn. by rewrite Hv.
  - exists d1, w'. split_and!; [by eapply (wf_trans _ _ _ _ frame)|done|done].
Qed.

Lemma serial_stored block c disks j d chunks d' info :
  0 < block -> pc_version_id c = None -> disks !! j = Some d ->
  fresh_object disks (pc_bucket c) (pc_key c) ->
  encode_and_write_1plus0_serial c d (map Ok chunks) = (d', Ok info) ->
  info = object_info c (concat chunks) /\ stored block 1 0 c (<[j := d']> disks) (concat chunks).
Proof.
  intros Hb Hv Hj Hfresh E.
  destruct (serial_finalized c _ (absent_frame _ _ _) d chunks d' info Hv E) as (Hinfo & Hpm & d1 & w & _ & Hw & Ef).
  cbn zeta in *. set (body := concat chunks) in *. split; [done|].
  pose proof (finalize_read_ok _ _ _ _ _ _ _ Hw Hpm Ef) as Hrd.
  assert (Hno : forall i di, disks !! i = Some di -> is_ok (read_shard di (pc_bucket c) (pc_key c)) = false).
  { intros i di Hdi. by apply absent_unreadable, (Hfresh i). }
  destruct (chopped_exists block body Hb) as [bl Hch].
  destruct (chopped_single block body bl Hb Hch) as [Hco Hj1].
  pose proof (list_lookup_insert_eq disks j d' ltac:(by eapply lookup_lt_Some)) as Hjd.
  destruct (collect_good [body] 1 1 (shard_reads (<[j := d']> disks) (pc_bucket c) (pc_key c)) eq_refl)
    as (slots & meta & Hcol & Her & Hg & dm & Hdm).
  - apply list.Forall_forall. intros [[data meta]|] Hr; [|done].
    apply elem_of_shard_reads in Hr as (i & di & Hi & Hrdi). destruct (decide (i = j)) as [->|Hne].
    + rewrite Hjd in Hi. injection Hi as <-. rewrite Hrd in Hrdi. injection Hrdi as <- <-.
      split; [apply verify_own_checksum|done].
    + rewrite list_lookup_insert_ne in Hi by done. specialize (Hno _ _ Hi). by rewrite Hrdi in Hno.
  - lia.
  - exists [0]. split_and!; [apply NoDup_singleton|done|]. intros i ->%list_elem_of_singleton.
    exists body, (shard_meta c 0 body 0 body). split; [|done]. apply elem_of_shard_reads. eauto.
  - exists bl, (map (fun b => [b]) bl), slots, meta.
    change (1 + 0) with 1. rewrite Hj1. split_and!; try done; [lia|].
    apply elem_of_shard_reads in Hdm as (i & di & Hi & Hrdi). destruct (decide (i = j)) as [->|Hne].
    + rewrite Hjd in Hi. injection Hi as <-. rewrite Hrd in Hrdi. injection Hrdi as <- <-. eauto.
    + rewrite list_lookup_insert_ne in Hi by done. specialize (Hno _ _ Hi). by rewrite Hrdi in Hno.
Qed.

(** Placement gives every shard a disk index of its own. *)
Lemma plan_distribution planner bucket key dn pn r :
  plan planner bucket key dn pn = Ok r -> NoDup (map pv_backend_index (pp_disks planner)) ->
  0 < dn /\ NoDup (map ps_backend_index (pr_shards r)) /\ length (map ps_backend_index (pr_shards r)) = dn + pn.
Proof.
  intros Hp Hnd. apply plan_Ok in Hp as (Hdn & Ht & ->). cbn [pr_shards].
  pose proof (full_deal_perm planner bucket key) as Hperm.
  rewrite (map_shard_of _ pv_backend_index) by done. split_and!; [lia| |].
  - rewrite <- (Permutation_map pv_backend_index Hperm) in Hnd. eapply sublist_NoDup; [exact Hnd|].
    rewrite <- firstn_map. apply sublist_take.
  - rewrite length_map, length_take, (Permutation_length Hperm). lia.
Qed.

Lemma encode_and_write_stored block disks planner dn pn bucket key chunks opts mrf clen now o info :
  0 < block -> NoDup (map pv_backend_index (pp_disks planner)) -> fresh_object disks bucket key ->
  encode_and_write block disks planner dn pn bucket key (map Ok chunks) opts mrf None clen now = Some o ->
  po_result o = Ok info ->
  0 < dn /\ exists c, pc_bucket c = bucket /\ pc_key c = key /\ pc_opts c = opts /\
    info = object_info c (concat chunks) /\ stored block dn pn c (po_disks o) (concat chunks).
Proof.
  intros Hb Hnd Hfresh E Hres. unfold encode_and_write in E.
  destruct (plan planner bucket key dn pn) as [r|] eqn:Ep; [|by injection E as <-].
  destruct (plan_distribution _ _ _ _ _ _ Ep Hnd) as (Hdn & Hdist & Hlen). split; [done|].
  set (c := mkPutContext _ _ _ _ _ _ _ _) in E. exists c. do 3 (split; [done|]).
  destruct (bool_decide (dn = 1) && bool_decide (pn = 0)) eqn:E10.
  - apply andb_true_iff in E10 as [->%bool_decide_eq_true ->%bool_decide_eq_true].
    apply bind_Some in E as (j & _ & E). apply bind_Some in E as (d & Hd & E).
    rewrite pipelined_serial in E.
    assert (Hser : encode_and_write_1plus0_serial c d (map Ok chunks) =
      ((encode_and_write_1plus0_serial c d (map Ok chunks)).1, Ok info)).
    { injection E as <-. cbn in Hres. rewrite <- Hres. by destruct clen; [case_bool_decide|]; destruct (encode_and_write_1plus0_serial _ _ _). }
    injection E as <-. cbn [po_disks].
    destruct (serial_stored block c disks j d chunks _ info Hb eq_refl Hd Hfresh Hser) as [Hi Hs].
    split; [done|]. by destruct clen; [case_bool_decide|].
  - apply bind_Some in E as (o' & Eo & [= <-]). cbn in Hres |- *.
    destruct (encode_ec_reads block dn pn c disks _ _ o' info Hdn Hb Hdist Hlen eq_refl Hfresh Eo Hres)
      as (chunks' & bl & bss & slots & meta & Hitems & Hinfo & Hrest).
    assert (chunks' = chunks) as ->.
    { clear -Hitems. revert chunks' Hitems. induction chunks as [|x chunks IH]; intros [|y ys] E; try done.
      cbn in E. injection E as -> E. f_equal. by apply IH. }
    split; [done|]. by exists bl, bss, slots, meta.
Qed.

(** The streaming reader returns the stored body. *)
Lemma stored_stream block dn pn c disks body :
  0 < block -> 0 < dn -> (N.of_nat (length body) < 2 ^ 64)%N -> stored block dn pn c disks body ->
  exists meta out,
    read_and_decode_stream block disks dn pn (pc_bucket c) (pc_key c) = Ok (meta, map Ok out) /\
    concat out = body /\ etag meta = object_etag (pc_opts c) body.
Proof.
  intros Hb Hdn Hlen (bl & bss & slots & meta & Hrs & Hch & Hco & Hcol & Her & Hg & i & s & Hm).
  assert (Hsz : N.to_nat (size meta) = length body) by (rewrite Hm; cbn; rewrite wrap_small; lia).
  unfold read_and_decode_stream, mmap_shard. fold (shard_reads disks (pc_bucket c) (pc_key c)).
  rewrite Hcol. cbn [mbind result_bind fst snd]. rewrite Hsz.
  destruct (stream_loop_ok dn pn Hdn Hrs block (length body) body bl bss 0
    (join_blocks (dn + pn) bss) slots Hb Hch Hco) as (out & Hl & Hc); try done.
  { clear. induction (join_blocks _ _) as [|x l IH]; [done|]. cbn. by rewrite drop_0, IH. }
  exists meta, out. rewrite Hl. split_and!; [done..|]. by rewrite Hm.
Qed.

(** The buffered reader returns the stored body if it is a single block. *)
Lemma stored_buffered block dn pn c disks body :
  0 < block -> 0 < dn -> (N.of_nat (length body) < 2 ^ 64)%N -> body <> [] -> length body <= block ->
  stored block dn pn c disks body ->
  exists meta, read_and_decode disks dn pn (pc_bucket c) (pc_key c) = Ok (body, meta) /\
    etag meta = object_etag (pc_opts c) body.
Proof.
  intros Hb Hdn Hlen Hne Hle (bl & bss & slots & meta & Hrs & Hch & Hco & Hcol & Her & Hg & i & s & Hm).
  assert (Hsz : N.to_nat (size meta) = length body) by (rewrite Hm; cbn; rewrite wrap_small; lia).
  assert (Hone : exists cur, coded dn pn body cur /\ erased cur slots).
  { destruct Hch as [|d Hd Hlt|d rest bl Hl Hch]; [done| |].
    - inversion Hco as [|? cur ? bss' Hc Hn]; subst. inversion Hn; subst. exists cur. split; [done|].
      rewrite join_blocks_cons in Her. unfold join_blocks in Her. cbn [foldr] in Her.
      by rewrite zip_app_nil in Her by apply (coded_length _ _ _ _ Hc).
    - rewrite length_app in Hle. destruct rest; [|simpl in Hle; lia].
      rewrite app_nil_r. inversion Hch; subst; [|done|].
      2:{ match goal with Hx : ?a ++ ?b = [] |- _ => apply app_eq_nil in Hx as [-> ->] end. simpl in *. lia. }
      inversion Hco as [|? cur ? bss' Hc Hn]; subst. inversion Hn; subst. exists cur. split; [done|].
      rewrite join_blocks_cons in Her. unfold join_blocks in Her. cbn [foldr] in Her.
      by rewrite zip_app_nil in Her by apply (coded_length _ _ _ _ Hc). }
  destruct Hone as (cur & Hc & Her').
  unfold read_and_decode. fold (shard_reads disks (pc_bucket c) (pc_key c)). rewrite Hcol.
  cbn [mbind result_bind fst snd]. rewrite Hsz, (rebuild_block dn pn Hdn Hrs body cur) by done.
  cbn [mbind result_bind]. exists meta. split; [done|]. by rewrite Hm.
Qed.

End RoundTrip.

(** ** Properties *)

(** C2: A PUT followed by a streaming GET returns the object.  If
    [encode_and_write] reports success for a new object, for any number of data
    and parity shards, any chunking of the body and any set of disks that failed
    to finalize, then [read_and_decode_stream] on the resulting disks yields only
    good items, their concatenation is the body, and the metadata carries the
    etag the PUT returned. *)
Theorem put_then_stream `{Hashes} `{ReedSolomon} `{!ReedSolomonOk} {B W} `{!Backend B W}
    `{!BackendOk B W} block disks planner dn pn bucket key chunks opts mrf clen now o info :
  0 < block -> NoDup (map pv_backend_index (pp_disks planner)) -> fresh_object disks bucket key ->
  (N.of_nat (length (concat chunks)) < 2 ^ 64)%N ->
  encode_and_write block disks planner dn pn bucket key (map Ok chunks) opts mrf None clen now = Some o ->
  po_result o = Ok info ->
  info_size info = N.of_nat (length (concat chunks)) /\
  exists meta out,
    read_and_decode_stream block (po_disks o) dn pn bucket key = Ok (meta, map Ok out) /\
    concat out = concat chunks /\ etag meta = info_etag info.
Proof.
  intros Hb Hnd Hfresh Hlen E Hres.
  destruct (encode_and_write_stored _ _ _ _ _ _ _ _ _ _ _ _ _ _ Hb Hnd Hfresh E Hres)
    as (Hdn & c & <- & <- & <- & -> & Hst).
  split; [by apply wrap_small|]. by apply (stored_stream block).
Qed.

(** The buffered GET agrees with the streaming one on objects of at most one
    block: after a successful PUT of a new, non-empty object that fits in a
    block, [read_and_decode] returns its body, with up to [parity] shards
    missing. *)
Theorem put_then_buffered `{Hashes} `{ReedSolomon} `{!ReedSolomonOk} {B W} `{!Backend B W}
    `{!BackendOk B W} block disks planner dn pn bucket key chunks opts mrf clen now o info :
  0 < block -> NoDup (map pv_backend_index (pp_disks planner)) -> fresh_object disks bucket key ->
  (N.of_nat (length (concat chunks)) < 2 ^ 64)%N ->
  concat chunks <> [] -> length (concat chunks) <= block ->
  encode_and_write block disks planner dn pn bucket key (map Ok chunks) opts mrf None clen now = Some o ->
  po_result o = Ok info ->
  exists meta, read_and_decode (po_disks o) dn pn bucket key = Ok (concat chunks, meta) /\
    etag meta = info_etag info.
Proof.
  intros Hb Hnd Hfresh Hlen Hne Hle E Hres.
  destruct (encode_and_write_stored _ _ _ _ _ _ _ _ _ _ _ _ _ _ Hb Hnd Hfresh E Hres)
    as (Hdn & c & <- & <- & <- & -> & Hst).
  by apply (stored_buffered block).
Qed.

(** *** Objects of more than one block *)

Definition two_blocks (block : nat) : bytes :=
  replicate block "a"%char ++ replicate block "b"%char.

Lemma chopped_cons_inv block data bl :
  0 < block -> block <= length data -> chopped block data bl ->
  exists bl', bl = take block data :: bl' /\ chopped block (drop block data) bl'.
Proof.
  intros Hb Hle Hc. destruct Hc as [|d Hd Hlt|d rest bl Hl Hc]; [simpl in Hle; lia|lia|].
  exists bl. by rewrite take_app_length', drop_app_length' by done.
Qed.

Lemma two_blocks_chopped block bl :
  0 < block -> chopped block (two_blocks block) bl ->
  bl = [replicate block "a"%char; replicate block "b"%char].
Proof.
  intros Hb Hc. unfold two_blocks in Hc.
  apply chopped_cons_inv in Hc as (bl1 & -> & Hc); [|done|rewrite length_app, length_replicate; lia].
  rewrite take_app_length' by (by rewrite length_replicate).
  rewrite drop_app_length' in Hc by (by rewrite length_replicate).
  apply chopped_cons_inv in Hc as (bl2 & -> & Hc); [|done|by rewrite length_replicate].
  rewrite take_ge by (by rewrite length_replicate).
  rewrite drop_ge in Hc by (by rewrite length_replicate). do 2 f_equal.
  inversion Hc as [|? ?|d ? ? Hl ? E]; [done|done|].
  apply app_eq_nil in E as [-> ->]. simpl in Hl. lia.
Qed.

Lemma shard_at_replicate block (x : ascii) size :
  size <= block -> shard_at (replicate block x) size 0 = replicate size x.
Proof.
  intros Hle. rewrite shard_at_resize, Nat.mul_0_l, drop_0.
  rewrite resize_le by (by rewrite length_replicate). rewrite take_replicate. f_equal. lia.
Qed.

Lemma half_block block : 2 <= block -> shard_size block 2 < block /\ shard_size block 2 <= block.
Proof.
  intros Hb. unfold shard_size, div_ceil.
  pose proof (Nat.div_mod (block + 2 - 1) 2 ltac:(lia)).
  pose proof (Nat.mod_upper_bound (block + 2 - 1) 2). lia.
Qed.

(** C40: The buffered readers return wrong bytes for objects of more than one
    block: encoding interleaves the data shards block by block, but
    [read_and_decode] joins whole shards.  For every block size of at least two,
    so for the source's 1 MiB, and two data shards, a successful PUT of two
    blocks is read back without an error as something else. *)
Theorem buffered_read_scrambles `{Hashes} `{ReedSolomon} `{!ReedSolomonOk} {B W} `{!Backend B W}
    `{!BackendOk B W} block disks planner bucket key opts mrf clen now o info :
  2 <= block -> NoDup (map pv_backend_index (pp_disks planner)) -> fresh_object disks bucket key ->
  (N.of_nat (2 * block) < 2 ^ 64)%N ->
  encode_and_write block disks planner 2 0 bucket key [Ok (two_blocks block)] opts mrf None clen now
    = Some o ->
  po_result o = Ok info ->
  exists data meta, read_and_decode (po_disks o) 2 0 bucket key = Ok (data, meta) /\
    data <> two_blocks block.
Proof.
  intros Hb Hnd Hfresh Hlen E Hres.
  destruct (encode_and_write_stored block disks planner 2 0 bucket key [two_blocks block]
    opts mrf clen now o info ltac:(lia) Hnd Hfresh E Hres) as (_ & c & <- & <- & _ & _ & Hst).
  cbn [concat] in Hst. rewrite app_nil_r in Hst.
  destruct Hst as (bl & bss & slots & meta & _ & Hch & Hco & Hcol & Her & Hg & i & s & Hm).
  assert (Htb : length (two_blocks block) = 2 * block)
    by (unfold two_blocks; rewrite length_app, !length_replicate; lia).
  assert (Hsz : N.to_nat (size meta) = 2 * block)
    by (rewrite Hm; cbn [shard_meta size]; rewrite wrap_small; lia).
  apply two_blocks_chopped in Hch; [|lia]. subst bl.
  inversion Hco as [|? c1 ? bss1 Hc1 Hn]; subst. inversion Hn as [|? c2 ? bss2 Hc2 Hn2]; subst.
  inversion Hn2; subst. clear Hn Hn2 Hco.
  apply erased_all in Her; [|by rewrite length_join_blocks
    by (repeat constructor; eapply coded_length; eassumption)].
  assert (Hsplit : forall x c', coded 2 0 (replicate block x) c' ->
    exists y, c' = [replicate (shard_size block 2) x; y]).
  { intros x c' Hc'. pose proof (coded_data _ _ _ _ Hc') as Hd. pose proof (coded_length _ _ _ _ Hc') as Hl.
    rewrite take_ge in Hd by lia. unfold split_data in Hd. rewrite length_replicate in Hd.
    cbn [seq map] in Hd. rewrite shard_at_replicate in Hd by apply half_block, Hb. eauto. }
  destruct (Hsplit _ _ Hc1) as [y1 ->], (Hsplit _ _ Hc2) as [y2 ->].
  destruct (half_block block Hb) as [Hhalf _]. set (h := shard_size block 2) in *.
  unfold read_and_decode. fold (shard_reads (po_disks o) (pc_bucket c) (pc_key c)). rewrite Hcol.
  cbn [mbind result_bind fst snd]. unfold rebuild. rewrite bool_decide_eq_false_2 by lia.
  cbn [andb mbind result_bind]. eexists _, _. split; [done|]. rewrite Hsz, Her.
  rewrite join_slots_map. change (join_blocks (2 + 0) _) with
    [replicate h "a"%char ++ replicate h "b"%char ++ []; y1 ++ y2 ++ []].
  cbn [take concat]. rewrite <- !app_assoc. intros Heq.
  apply (f_equal (fun l => l !! h)) in Heq. unfold two_blocks in Heq.
  rewrite lookup_take_lt in Heq by lia.
  rewrite lookup_app_r in Heq by (by rewrite length_replicate).
  rewrite length_replicate, Nat.sub_diag in Heq.
  rewrite lookup_app_l in Heq by (rewrite length_replicate; pose proof (shard_size_pos block 2); lia).
  rewrite lookup_app_l in Heq by (by rewrite length_replicate).
  rewrite !lookup_replicate_2 in Heq by (done || apply shard_size_pos). done.
Qed.

(** ** Concrete volumes *)

Abbreviation MemOutcome := (@PutOutcome MemDisk).

Section Concrete.
  Local Existing Instances example_hashes xor_code mem_backend mem_backend_ok xor_code_ok.

Definition ex_disks3 : list MemDisk := map (fun v => mkMemDisk v false ∅) ["v1"; "v2"; "v3"].

Definition ex_planner3 : PlacementPlanner :=
  mkPlacementPlanner 1 "c1" [mkPlacementVolume 0 "n1" "v1"; mkPlacementVolume 1 "n2" "v2";
    mkPlacementVolume 2 "n3" "v3"].

Definition ex_opts : PutOptions := mkPutOptions "text/plain" ∅ ∅ None None false.

Definition ex_body : bytes := bytes_of "hello, erasure".

(** Two data shards and a parity shard, blocks of four bytes, two chunks. *)
Definition ex_put3 (block : nat) (disks : list MemDisk) (body : bytes) : option MemOutcome :=
  encode_and_write block disks ex_planner3 2 1 "photos" "cat" (map Ok [body]) ex_opts true None
    (Some (length body)) 1700000000.

Definition ex_outcome (r : option MemOutcome) : MemOutcome :=
  default (mkPutOutcome [] false (Err (Internal "panic"))) r.

Definition ex_info (r : option MemOutcome) : ObjectInfo :=
  match po_result (ex_outcome r) with
  | Ok i => i
  | Err _ => mkObjectInfo "" "" 0 "" "" 0 ∅ ∅ "" false
  end.

Lemma ex_planner3_nodup : NoDup (map pv_backend_index (pp_disks ex_planner3)).
Proof. by_decide. Qed.

Lemma ex_disks3_fresh : fresh_object ex_disks3 "photos" "cat".
Proof. intros [|[|[|j]]] d [= <-]; vm_compute; reflexivity. Qed.

Lemma put_then_stream_witness :
  exists meta out, read_and_decode_stream 4 (po_disks (ex_outcome (ex_put3 4 ex_disks3 ex_body))) 2 1
      "photos" "cat" = Ok (meta, map Ok out) /\ concat out = ex_body.
Proof.
  assert (E : ex_put3 4 ex_disks3 ex_body = Some (ex_outcome (ex_put3 4 ex_disks3 ex_body)))
    by (vm_compute; reflexivity).
  assert (Hr : po_result (ex_outcome (ex_put3 4 ex_disks3 ex_body)) = Ok (ex_info (ex_put3 4 ex_disks3 ex_body)))
    by (vm_compute; reflexivity).
  destruct (put_then_stream 4 ex_disks3 ex_planner3 2 1 "photos" "cat" [ex_body] ex_opts true
    (Some (length ex_body)) 1700000000 _ _ ltac:(lia) ex_planner3_nodup ex_disks3_fresh
    ltac:(vm_compute; reflexivity) E Hr) as (_ & meta & out & Hs & Hc & _).
  exists meta, out. split; [exact Hs|]. rewrite Hc. vm_compute. reflexivity.
Defined.

Lemma put_then_buffered_witness :
  exists meta, read_and_decode (po_disks (ex_outcome (ex_put3 16 ex_disks3 ex_body))) 2 1
      "photos" "cat" = Ok (concat [ex_body], meta).
Proof.
  assert (E : ex_put3 16 ex_disks3 ex_body = Some (ex_outcome (ex_put3 16 ex_disks3 ex_body)))
    by (vm_compute; reflexivity).
  assert (Hr : po_result (ex_outcome (ex_put3 16 ex_disks3 ex_body)) = Ok (ex_info (ex_put3 16 ex_disks3 ex_body)))
    by (vm_compute; reflexivity).
  destruct (put_then_buffered 16 ex_disks3 ex_planner3 2 1 "photos" "cat" [ex_body] ex_opts true
    (Some (length ex_body)) 1700000000 _ _ ltac:(lia) ex_planner3_nodup ex_disks3_fresh
    ltac:(vm_compute; reflexivity) ltac:(vm_compute; discriminate)
    ltac:(apply Nat.leb_le; vm_compute; reflexivity) E Hr) as (meta & Hs & _).
  exists meta. exact Hs.
Defined.

Definition ex_scrambled : option MemOutcome :=
  encode_and_write 4 ex_disks3 ex_planner3 2 0 "photos" "cat" [Ok (two_blocks 4)] ex_opts true None
    (Some 8) 1700000000.

Lemma buffered_read_scrambles_witness :
  exists data meta, read_and_decode (po_disks (ex_outcome ex_scrambled)) 2 0 "photos" "cat"
    = Ok (data, meta) /\ data <> two_blocks 4.
Proof.
  assert (E : ex_scrambled = Some (ex_outcome ex_scrambled)) by (vm_compute; reflexivity).
  assert (Hr : po_result (ex_outcome ex_scrambled) = Ok (ex_info ex_scrambled)) by (vm_compute; reflexivity).
  exact (buffered_read_scrambles 4 ex_disks3 ex_planner3 "photos" "cat" ex_opts true
    (Some 8) 1700000000 _ _ ltac:(lia) ex_planner3_nodup ex_disks3_fresh
    ltac:(vm_compute; reflexivity) E Hr).
Defined.

Definition set_readonly (i : nat) (disks : list MemDisk) : list MemDisk :=
  alter (fun d => mkMemDisk (md_volume_id d) true (md_objects d)) i disks.

(** A failed overwrite destroys the object it failed to replace.  The
    rollback deletes the object, not the new shard, on every disk where the new
    shard was finalized: after a good PUT, a second PUT of the same key that
    misses its write quorum because of one disk leaves a single old shard, and
    the object that was readable before can no longer be read. *)
Theorem failed_overwrite_loses_object :
  let d1 := po_disks (ex_outcome (ex_put3 16 ex_disks3 ex_body)) in
  let o2 := ex_outcome (ex_put3 16 (set_readonly 2 d1) (bytes_of "a new body")) in
  (exists meta, read_and_decode d1 2 1 "photos" "cat" = Ok (ex_body, meta)) /\
  po_result o2 = Err WriteQuorum /\
  read_and_decode (po_disks o2) 2 1 "photos" "cat" = Err ReadQuorum.
Proof. cbv zeta. split; [eexists; vm_compute; reflexivity|]. split; vm_compute; reflexivity. Qed.

(** A code for one data shard: every parity shard is a copy. *)
Definition copy_code : ReedSolomon := {|
  rs_new_ok := fun dn pn => bool_decide (dn = 1);
  rs_encode := fun dn pn l => Some (map (fun _ => nth 0 l []) l);
  rs_reconstruct := fun dn pn slots =>
    match omap id slots with s :: _ => Some (map (fun _ => Some s) slots) | [] => None end |}.

Definition ex_copies (disks : list MemDisk) (body : bytes) : option MemOutcome :=
  @encode_and_write example_hashes copy_code _ _ _ 16 disks ex_planner3 1 2 "photos" "cat" [Ok body]
    ex_opts true None (Some (length body)) 1700000000.

(** A read can return an older version after an acknowledged overwrite: the
    overwrite meets its quorum although one disk failed and kept its old shard,
    and the readers accept any shard with a valid checksum, without comparing
    the metadata of the disks.  Here the repair is queued, but until it runs the
    object reads as the old body. *)
Theorem stale_shard_is_read :
  exists i, let d1 := po_disks (ex_outcome (ex_copies ex_disks3 (bytes_of "old"))) in
  let o2 := ex_outcome (ex_copies (set_readonly i d1) (bytes_of "new")) in
  is_ok (po_result o2) = true /\ po_mrf o2 = true /\
  exists meta, @read_and_decode example_hashes copy_code _ _ _ (po_disks o2) 1 2 "photos" "cat"
    = Ok (bytes_of "old", meta).
Proof.
  exists 0. cbv zeta. split_and!; [vm_compute; reflexivity..|]. eexists. vm_compute. reflexivity.
Qed.

End Concrete.
