(* ===== verification/Policy.v ===== *)
(** Bucket policies ([src/policy/]) and the access check that applies them
    ([src/s3_access.rs]): the glob matcher, the statement matcher, the decision,
    the parser from JSON and the table of action names.

    The matcher's two index pointers are the suffixes they point at.  A JSON
    value is a tree; an object is the list of its members. *)

From Stdlib Require Import Ascii.
From stdpp Require Import base list gmap strings numbers.
From S2P Require Import Prelude.

(** ** [glob_match] *)

Module Glob.

Definition star : ascii := "*"%char.
Definition quest : ascii := "?"%char.

(** The loop of [match_inner]; [st] is the last star: the pattern behind it and
    the text it was seen at.  The fuel [glob_fuel] is enough
    ([match_loop_spec]). *)
Fixpoint match_loop (fuel : nat) (p t : bytes) (st : option (bytes * bytes)) : bool :=
  match fuel with
  | 0 => false
  | S fuel =>
      match t with
      | [] => forallb (fun x => bool_decide (x = star)) p
      | c :: t' =>
          let backtrack :=
            match st with
            | Some (sp, _ :: ts) => match_loop fuel sp ts (Some (sp, ts))
            | _ => false
            end in
          match p with
          | [] => backtrack
          | x :: p' =>
              if bool_decide (x = quest) || bool_decide (x = c) then match_loop fuel p' t' st
              else if bool_decide (x = star) then match_loop fuel p' t (Some (p', t))
              else backtrack
          end
      end
  end.

Definition glob_fuel (p t : bytes) : nat := (length t + 2) * (length p + 1) + 1.

Definition glob_match (pattern s : string) : bool :=
  match_loop (glob_fuel (bytes_of pattern) (bytes_of s)) (bytes_of pattern) (bytes_of s) None.

(** What a glob means to a matcher of bytes: [*] stands for any string, [?] for any one
    byte (not a character of several), every other byte for itself. *)
Inductive glob_spec : bytes -> bytes -> Prop :=
  | glob_nil : glob_spec [] []
  | glob_skip p t : glob_spec p t -> glob_spec (star :: p) t
  | glob_take p c t : glob_spec (star :: p) t -> glob_spec (star :: p) (c :: t)
  | glob_char x p c t :
      x <> star -> x = quest \/ x = c -> glob_spec p t -> glob_spec (x :: p) (c :: t).

End Glob.

Import Glob.

(** ** JSON values *)

Inductive Value : Type :=
  | Null
  | VBool (b : bool)
  | Number (n : Z)
  | VString (s : string)
  | Array (vs : list Value)
  | VObject (members : list (string * Value)).

Definition as_object (v : Value) : option (list (string * Value)) :=
  match v with VObject m => Some m | _ => None end.
Definition as_str (v : Value) : option string :=
  match v with VString s => Some s | _ => None end.
Definition obj_get (k : string) (m : list (string * Value)) : option Value :=
  snd <$> List.find (fun e => bool_decide (e.1 = k)) m.

(** ** Policies *)

Inductive Effect : Type := Allow | Deny.

Inductive Principal : Type :=
  | Anyone
  | Aws (entries : list string).

Record Statement : Type := mkStatement {
  sid : option string;
  effect : Effect;
  principal : Principal;
  action : list string;
  resource : list string;
  condition : option Value;
}.

Record Policy : Type := mkPolicy {
  version : string;
  statements : list Statement;
}.

Definition string_or_array (v : option Value) : list string :=
  match v with
  | Some (VString s) => [s]
  | Some (Array arr) => omap as_str arr
  | _ => []
  end.

Definition parse_principal (v : option Value) : option Principal :=
  match v with
  | None => Some Anyone
  | Some (VString s) => if bool_decide (s = "*") then Some Anyone else None
  | Some (VObject m) =>
      match obj_get "AWS" m with
      | Some aws => Some (Aws (string_or_array (Some aws)))
      | None => Some (Aws [])
      end
  | Some _ => None
  end.

Definition parse_effect (s : string) : option Effect :=
  if bool_decide (s = "Allow") then Some Allow
  else if bool_decide (s = "Deny") then Some Deny else None.

Definition parse_statement (v : Value) : option Statement :=
  obj ← as_object v;
  let sid := obj_get "Sid" obj ≫= as_str in
  e ← obj_get "Effect" obj ≫= as_str;
  effect ← parse_effect e;
  principal ← parse_principal (obj_get "Principal" obj);
  let action := string_or_array (obj_get "Action" obj) in
  let resource := string_or_array (obj_get "Resource" obj) in
  if bool_decide (action = []) || bool_decide (resource = []) then None
  else
    let condition := match obj_get "Condition" obj with
                     | Some Null => None | c => c end in
    Some (mkStatement sid effect principal action resource condition).

Definition from_json (value : Value) : option Policy :=
  obj ← as_object value;
  let version := default "" (obj_get "Version" obj ≫= as_str) in
  if bool_decide (version = "") then None
  else
    raw ← obj_get "Statement" obj;
    stmts ← (match raw with
             | Array arr => Some (map parse_statement arr)
             | VObject _ => Some [parse_statement raw]
             | _ => None
             end);
    let statements := omap id stmts in
    if bool_decide (statements = []) then None else Some (mkPolicy version statements).

(** ** Evaluation *)

Record Args : Type := mkArgs {
  args_bucket : string;
  args_key : option string;
  args_action : string;
  args_access_key : string;
  args_is_owner : bool;
}.

Definition args_resource (a : Args) : string :=
  match args_key a with
  | Some k => if bool_decide (k = "") then "arn:aws:s3:::" +:+ args_bucket a
              else "arn:aws:s3:::" +:+ args_bucket a +:+ "/" +:+ k
  | None => "arn:aws:s3:::" +:+ args_bucket a
  end.

(** [entry.rsplit('/').next()]: the part behind the last slash. *)
Definition rsplit_tail (entry : string) : string :=
  match rev (split "/"%char entry) with tail :: _ => tail | [] => "" end.

Definition principal_entry_matches (entry access_key : string) : bool :=
  bool_decide (entry = "*") || bool_decide (entry = access_key)
  || bool_decide (rsplit_tail entry = access_key).

Definition principal_matches (p : Principal) (access_key : string) : bool :=
  match p with
  | Anyone => true
  | Aws entries => existsb (fun e => principal_entry_matches e access_key) entries
  end.

Definition stmt_matches (s : Statement) (a : Args) (res : string) : bool :=
  match condition s with
  | Some _ => false
  | None =>
      principal_matches (principal s) (args_access_key a)
      && existsb (fun pat => glob_match pat (args_action a)) (action s)
      && existsb (fun pat => glob_match pat res) (resource s)
  end.

(** The loop of [is_allowed] with its early return. *)
Fixpoint eval_statements (stmts : list Statement) (a : Args) (res : string) (any_allow : bool)
    : bool :=
  match stmts with
  | [] => any_allow || args_is_owner a
  | s :: stmts =>
      if negb (stmt_matches s a res) then eval_statements stmts a res any_allow
      else match effect s with
           | Deny => false
           | Allow => eval_statements stmts a res true
           end
  end.

Definition is_allowed (p : Policy) (a : Args) : bool :=
  eval_statements (statements p) a (args_resource a) false.

(** ** Action names *)

Definition action_table : list (string * string) :=
  [("AbortMultipartUpload", "s3:AbortMultipartUpload");
   ("CompleteMultipartUpload", "s3:PutObject");
   ("CopyObject", "s3:PutObject");
   ("CreateBucket", "s3:CreateBucket");
   ("CreateMultipartUpload", "s3:PutObject");
   ("DeleteBucket", "s3:DeleteBucket");
   ("DeleteBucketCors", "s3:PutBucketCORS");
   ("DeleteBucketEncryption", "s3:PutEncryptionConfiguration");
   ("DeleteBucketLifecycle", "s3:PutLifecycleConfiguration");
   ("DeleteBucketPolicy", "s3:DeleteBucketPolicy");
   ("DeleteBucketReplication", "s3:PutReplicationConfiguration");
   ("DeleteBucketTagging", "s3:PutBucketTagging");
   ("DeleteBucketWebsite", "s3:DeleteBucketWebsite");
   ("DeleteObject", "s3:DeleteObject");
   ("DeleteObjects", "s3:DeleteObject");
   ("DeleteObjectTagging", "s3:DeleteObjectTagging");
   ("GetBucketAcl", "s3:GetBucketAcl");
   ("GetBucketCors", "s3:GetBucketCORS");
   ("GetBucketEncryption", "s3:GetEncryptionConfiguration");
   ("GetBucketLifecycle", "s3:GetLifecycleConfiguration");
   ("GetBucketLifecycleConfiguration", "s3:GetLifecycleConfiguration");
   ("GetBucketLocation", "s3:GetBucketLocation");
   ("GetBucketLogging", "s3:GetBucketLogging");
   ("GetBucketNotification", "s3:GetBucketNotification");
   ("GetBucketNotificationConfiguration", "s3:GetBucketNotification");
   ("GetBucketPolicy", "s3:GetBucketPolicy");
   ("GetBucketReplication", "s3:GetReplicationConfiguration");
   ("GetBucketRequestPayment", "s3:GetBucketRequestPayment");
   ("GetBucketTagging", "s3:GetBucketTagging");
   ("GetBucketVersioning", "s3:GetBucketVersioning");
   ("GetBucketWebsite", "s3:GetBucketWebsite");
   ("GetObject", "s3:GetObject");
   ("GetObjectAcl", "s3:GetObjectAcl");
   ("GetObjectTagging", "s3:GetObjectTagging");
   ("GetObjectVersion", "s3:GetObjectVersion");
   ("HeadBucket", "s3:ListBucket");
   ("HeadObject", "s3:GetObject");
   ("ListBucket", "s3:ListBucket");
   ("ListBuckets", "s3:ListAllMyBuckets");
   ("ListMultipartUploads", "s3:ListBucketMultipartUploads");
   ("ListObjects", "s3:ListBucket");
   ("ListObjectsV2", "s3:ListBucket");
   ("ListObjectVersions", "s3:ListBucketVersions");
   ("ListParts", "s3:ListMultipartUploadParts");
   ("PutBucketAcl", "s3:PutBucketAcl");
   ("PutBucketCors", "s3:PutBucketCORS");
   ("PutBucketEncryption", "s3:PutEncryptionConfiguration");
   ("PutBucketLifecycle", "s3:PutLifecycleConfiguration");
   ("PutBucketLifecycleConfiguration", "s3:PutLifecycleConfiguration");
   ("PutBucketLogging", "s3:PutBucketLogging");
   ("PutBucketNotification", "s3:PutBucketNotification");
   ("PutBucketNotificationConfiguration", "s3:PutBucketNotification");
   ("PutBucketPolicy", "s3:PutBucketPolicy");
   ("PutBucketReplication", "s3:PutReplicationConfiguration");
   ("PutBucketRequestPayment", "s3:PutBucketRequestPayment");
   ("PutBucketTagging", "s3:PutBucketTagging");
   ("PutBucketVersioning", "s3:PutBucketVersioning");
   ("PutBucketWebsite", "s3:PutBucketWebsite");
   ("PutObject", "s3:PutObject");
   ("PutObjectAcl", "s3:PutObjectAcl");
   ("PutObjectTagging", "s3:PutObjectTagging");
   ("RestoreObject", "s3:RestoreObject");
   ("UploadPart", "s3:PutObject");
   ("UploadPartCopy", "s3:PutObject")].

Definition op_to_action (op_name : string) : string :=
  match List.find (fun e => bool_decide (e.1 = op_name)) action_table with
  | Some (_, act) => act
  | None => "s3:*"
  end.

(** ** The access check

    [path] is the bucket and key of the request, [settings_policy] the stored
    policy of the bucket: [None] when the settings cannot be read. *)

Inductive S3Error : Type := ServiceUnavailable | AccessDenied.

Definition check (blocks_data_plane : bool) (owner_access_key : string)
    (path : option (string * option string)) (op_name : string) (credentials : option string)
    (settings_policy : string -> option (option Value)) : result S3Error unit :=
  if blocks_data_plane then Err ServiceUnavailable
  else
    match path with
    | None => Ok tt
    | Some (bucket, key_opt) =>
        let access_key := default "" credentials in
        let is_owner := if bool_decide (owner_access_key = "") then true
                        else negb (bool_decide (access_key = ""))
                             && bool_decide (access_key = owner_access_key) in
        match settings_policy bucket with
        | None => Ok tt
        | Some None | Some (Some Null) => Ok tt
        | Some (Some policy_json) =>
            match from_json policy_json with
            | None => Err AccessDenied
            | Some policy =>
                let args := mkArgs bucket key_opt (op_to_action op_name) access_key is_owner in
                if is_allowed policy args then Ok tt else Err AccessDenied
            end
        end
    end.

(** ** Lemmas: the glob matcher *)

Lemma glob_star_suffix p a t : glob_spec (star :: p) t -> glob_spec (star :: p) (a ++ t).
Proof. intros Hg. induction a as [|c a IH]; [done|]. cbn. by apply glob_take. Qed.

(** A star matches any prefix. *)
Lemma glob_star_inv p t : glob_spec (star :: p) t -> exists a k, t = a ++ k /\ glob_spec p k.
Proof.
  remember (star :: p) as q eqn:Eq. induction 1 as [|p' t' Hg _|p' c t' _ IH|x p' c t' Hx]; simplify_eq.
  - by exists [], t'.
  - destruct (IH eq_refl) as (a & k & -> & Hk). by exists (c :: a), k.
Qed.

Lemma glob_nil_text p : glob_spec p [] <-> forallb (fun x => bool_decide (x = star)) p = true.
Proof.
  split.
  - remember [] as t eqn:Et. induction 1; simplify_eq; [done|]. cbn.
    by rewrite bool_decide_eq_true_2, IHglob_spec.
  - induction p as [|x p IH]; [constructor|]. cbn. intros [->%bool_decide_eq_true Hp]%andb_true_iff.
    constructor. by apply IH.
Qed.

(** A star-free piece of a pattern consumes as many bytes as it has. *)
Lemma glob_literal u p k :
  star ∉ u -> glob_spec (u ++ p) k -> exists k1 k2, k = k1 ++ k2 /\ length k1 = length u /\ glob_spec p k2.
Proof.
  revert k. induction u as [|x u IH]; intros k Hu Hg; [by exists [], k|].
  apply not_elem_of_cons in Hu as [Hx Hu]. cbn in Hg. inversion Hg; subst; try done.
  match goal with Hg' : glob_spec (u ++ p) _ |- _ => destruct (IH _ Hu Hg') as (k1 & k2 & -> & Hl & Hk) end.
  exists (c :: k1), k2. cbn. split_and!; [done|by rewrite Hl|done].
Qed.

(** The matches a backtrack may still find: the text starts later than at the
    last star. *)
Definition alternatives (st : option (bytes * bytes)) : Prop :=
  match st with
  | None => False
  | Some (sp, ts) => exists a k, a <> [] /\ ts = a ++ k /\ glob_spec sp k
  end.

(** Since the last star, a star-free piece of the pattern was matched. *)
Definition aligned (p t : bytes) (st : option (bytes * bytes)) : Prop :=
  match st with
  | None => True
  | Some (sp, ts) => exists u v, sp = u ++ p /\ ts = v ++ t /\ length u = length v /\ star ∉ u
  end.

Lemma suffix_by_length {A} (a b k t : list A) : a ++ k = b ++ t -> length k <= length t ->
  exists c, t = c ++ k.
Proof.
  intros E Hl. exists (drop (length b) a). assert (length b <= length a).
  { apply (f_equal length) in E. rewrite !length_app in E. lia. }
  apply (f_equal (drop (length b))) in E. rewrite drop_app_length in E. rewrite <- E.
  by rewrite drop_app_le.
Qed.

(** Dropping an older star is safe once the pattern reached a newer one. *)
Lemma alternatives_newer_star p t st :
  aligned (star :: p) t st -> alternatives st -> glob_spec (star :: p) t.
Proof.
  destruct st as [[sp ts]|]; [|done]. cbn. intros (u & v & -> & -> & Hl & Hu) (a & k & Ha & E & Hg).
  destruct (glob_literal _ _ _ Hu Hg) as (k1 & k2 & -> & Hk1 & Hg2).
  destruct (suffix_by_length (a ++ k1) v k2 t) as [c ->].
  - by rewrite <- app_assoc, <- E.
  - apply (f_equal length) in E. rewrite !length_app in E. destruct a; [done|]. simpl in E. lia.
  - by apply glob_star_suffix.
Qed.

(** At the end of the text no later start can match. *)
Lemma alternatives_end p st : aligned p [] st -> ~ alternatives st.
Proof.
  destruct st as [[sp ts]|]; [|naive_solver]. cbn. intros (u & v & -> & -> & Hl & Hu) (a & k & Ha & E & Hg).
  destruct (glob_literal _ _ _ Hu Hg) as (k1 & k2 & -> & Hk1 & _).
  apply (f_equal length) in E. rewrite app_nil_r, !length_app in E. destruct a; [done|]. simpl in E. lia.
Qed.

Lemma aligned_step x p c t st : x <> star -> aligned (x :: p) (c :: t) st -> aligned p t st.
Proof.
  destruct st as [[sp ts]|]; [|done]. cbn. intros Hx (u & v & -> & -> & Hl & Hu).
  exists (u ++ [x]), (v ++ [c]). rewrite <- !app_assoc, !length_app. split_and!; [done|done|simpl; lia|].
  set_solver.
Qed.

Lemma backtrack_alternatives sp y ts :
  alternatives (Some (sp, y :: ts)) <-> glob_spec sp ts \/ alternatives (Some (sp, ts)).
Proof.
  cbn. split.
  - intros ([|z a] & k & Ha & E & Hg); [done|]. cbn in E. injection E as -> ->.
    destruct a as [|z' a]; [by left|right]. by exists (z' :: a), k.
  - intros [Hg|(a & k & Ha & -> & Hg)]; [by exists [y], ts|]. by exists (y :: a), k.
Qed.

(** What is left to do, bounded by the fuel. *)
Definition potential (n m : nat) (p : bytes) (st : option (bytes * bytes)) : nat :=
  match st with None => m + 1 | Some (_, ts) => length ts end * (n + 1) + length p.

Definition bounded (n m : nat) (p t : bytes) (st : option (bytes * bytes)) : Prop :=
  length p <= n /\ length t <= m /\
  match st with None => True | Some (sp, ts) => length sp <= n /\ length t <= length ts /\ length ts <= m end.

(** The arguments for which the loop is right with the given fuel. *)
Definition loop_ok (n m fuel : nat) (p t : bytes) (st : option (bytes * bytes)) : Prop :=
  star ∉ t -> match st with Some (_, ts) => star ∉ ts | None => True end ->
  bounded n m p t st -> aligned p t st -> potential n m p st < fuel ->
  match_loop fuel p t st = true <-> glob_spec p t \/ alternatives st.

(** A mismatch falls back to the last star, which takes one byte more. *)
Lemma match_backtrack n m fuel p c t st :
  (forall p t st, loop_ok n m fuel p t st) ->
  match st with Some (_, ts) => star ∉ ts | None => True end ->
  bounded n m p (c :: t) st -> potential n m p st < S fuel -> ~ glob_spec p (c :: t) ->
  match st with Some (sp, _ :: ts) => match_loop fuel sp ts (Some (sp, ts)) | _ => false end = true
  <-> glob_spec p (c :: t) \/ alternatives st.
Proof.
  unfold loop_ok. intros IH Hst Hb Hf Hno. destruct st as [[sp [|y ts]]|].
  - destruct Hb as (_ & _ & _ & Hb & _). simpl in Hb. lia.
  - apply not_elem_of_cons in Hst as [_ Hst]. rewrite IH; [|done|done|..].
    + rewrite backtrack_alternatives. tauto.
    + unfold bounded in *. simpl in *. lia.
    + exists [], []. set_solver.
    + unfold potential, bounded in *. simpl in *. nia.
  - split; [done|]. intros [?|[]]. done.
Qed.

(** Meeting a star forgets the older one. *)
Lemma match_newer_star p c t st :
  aligned (star :: p) (c :: t) st ->
  glob_spec p (c :: t) \/ alternatives (Some (p, c :: t)) <-> glob_spec (star :: p) (c :: t) \/ alternatives st.
Proof.
  intros Hal. split.
  - intros [Hg|(a & k & _ & -> & Hg)]; left; [by constructor|].
    apply glob_star_suffix. by constructor.
  - intros [Hg|Ha]; [|apply (alternatives_newer_star _ _ _ Hal) in Ha as Hg];
      destruct (glob_star_inv _ _ Hg) as ([|z a] & k & E & Hk);
      [left; by rewrite E|right; by exists (z :: a), k|left; by rewrite E|right; by exists (z :: a), k].
Qed.

Lemma match_loop_spec n m fuel p t st : loop_ok n m fuel p t st.
Proof.
  revert p t st. induction fuel as [|fuel IH]; intros p t st Ht Hst Hb Hal Hf; [lia|].
  unfold loop_ok in IH. destruct t as [|c t]; cbn [match_loop].
  { rewrite <- glob_nil_text. pose proof (alternatives_end _ _ Hal). tauto. }
  pose proof (match_backtrack n m fuel p c t st IH Hst Hb Hf) as Hback.
  destruct p as [|x p]; [apply Hback; by inversion 1|].
  destruct (bool_decide (x = quest) || bool_decide (x = c)) eqn:Ex.
  - assert (Hx : x = quest \/ x = c)
      by (apply orb_true_iff in Ex as [E%bool_decide_eq_true|E%bool_decide_eq_true]; tauto).
    assert (Hxs : x <> star) by (destruct Hx as [->| ->]; [done|intros ->; set_solver]).
    rewrite IH; [|set_solver|done| |by eapply aligned_step|].
    + split; (intros [Hg|?]; [left|by right]); [by constructor|]. by inversion Hg.
    + unfold bounded in *. destruct st as [[]|]; simpl in *; lia.
    + unfold potential in *. simpl in *. lia.
  - apply orb_false_iff in Ex as [Hq%bool_decide_eq_false Hc%bool_decide_eq_false].
    case_bool_decide as Hx; [|apply Hback; inversion 1; subst; tauto].
    subst x. rewrite IH; [by apply match_newer_star|done|done|..].
    + unfold bounded in *. simpl in *. lia.
    + exists [], []. set_solver.
    + unfold potential, bounded in *. destruct st as [[sp ts]|]; simpl in *; nia.
Qed.

(** ** Lemmas: evaluation *)

Definition denied (stmts : list Statement) (a : Args) (res : string) : bool :=
  existsb (fun s => stmt_matches s a res && match effect s with Deny => true | Allow => false end) stmts.

Definition granted (stmts : list Statement) (a : Args) (res : string) : bool :=
  existsb (fun s => stmt_matches s a res && match effect s with Allow => true | Deny => false end) stmts.

Lemma eval_statements_spec stmts a res any_allow :
  eval_statements stmts a res any_allow
  = negb (denied stmts a res) && (any_allow || granted stmts a res || args_is_owner a).
Proof.
  revert any_allow. induction stmts as [|s stmts IH]; intros any_allow; cbn.
  - by rewrite orb_false_r.
  - destruct (stmt_matches s a res); cbn [negb andb orb]; [|apply IH].
    destruct (effect s); cbn; [|done]. rewrite IH. cbn. by rewrite orb_true_r.
Qed.

Lemma split_on_snoc c l : split_on c (l ++ [c]) = split_on c l ++ [[]].
Proof.
  induction l as [|x l IH]; cbn.
  - by rewrite Ascii.eqb_refl.
  - rewrite IH. destruct (Ascii.eqb x c); [done|]. pose proof (split_on_nonempty c l).
    by destruct (split_on c l).
Qed.

(** ** Properties *)

(** C30: The glob matcher is correct, byte by byte, on texts without a [*].  With [*]
    standing for any bytes, [?] for exactly one byte and every other byte for itself,
    [glob_match] accepts, for every pattern, exactly the texts the pattern stands for,
    so backtracking to the last star alone is complete, and the loop always ends.  A
    [?] is one byte where the source's comment says one character
    (question_mark_is_a_byte). *)
Theorem glob_match_correct pattern s :
  star ∉ bytes_of s ->
  glob_match pattern s = true <-> glob_spec (bytes_of pattern) (bytes_of s).
Proof.
  intros Hs. unfold glob_match. etransitivity.
  - apply (match_loop_spec (length (bytes_of pattern)) (length (bytes_of s))); try done.
    unfold potential, glob_fuel. nia.
  - cbn [alternatives]. tauto.
Qed.

(** C28: The decision follows the S3 rule: a request is allowed exactly when no
    matching statement denies it and some matching statement allows it or the
    caller is the owner.  In particular an explicit deny wins over any allow and
    over ownership, wherever it stands in the policy. *)
Theorem policy_decision p a :
  is_allowed p a = true <->
  (forall s, s ∈ statements p -> stmt_matches s a (args_resource a) = true -> effect s = Allow) /\
  ((exists s, s ∈ statements p /\ stmt_matches s a (args_resource a) = true /\ effect s = Allow)
   \/ args_is_owner a = true).
Proof.
  unfold is_allowed. rewrite eval_statements_spec. cbn [orb].
  rewrite andb_true_iff, negb_true_iff, orb_true_iff. unfold denied, granted.
  rewrite existsb_exists. split.
  - intros [Hd Ha]. split.
    + intros s Hin Hm. destruct (effect s) eqn:He; [done|]. exfalso.
      assert (existsb (fun s => stmt_matches s a (args_resource a)
        && match effect s with Deny => true | Allow => false end) (statements p) = true) as Ht.
      { apply existsb_exists. exists s. rewrite Hm, He. split; [by apply list_elem_of_In|done]. }
      congruence.
    + destruct Ha as [(s & Hin & Hm)|?]; [left|by right]. exists s.
      apply andb_true_iff in Hm as [Hm He]. split_and!; [by apply list_elem_of_In|done|by destruct (effect s)].
  - intros [Hd Ha]. split.
    + apply not_true_iff_false. intros (s & Hin%list_elem_of_In & Hm)%existsb_exists.
      apply andb_true_iff in Hm as [Hm He]. by rewrite (Hd s Hin Hm) in He.
    + destruct Ha as [(s & Hin & Hm & He)|?]; [left|by right]. exists s.
      rewrite Hm, He. split; [by apply list_elem_of_In|done].
Qed.

(** A [?] does not stand for a character of two bytes, which takes two of them. *)
Theorem question_mark_is_a_byte :
  let e_acute := string_of (map ascii_of_N [195; 169]%N) in
  glob_match "caf?" ("caf" +:+ e_acute) = false /\ glob_match "caf??" ("caf" +:+ e_acute) = true.
Proof. vm_compute. done. Qed.

(** C29: The access check never lets a request past an attached policy: if it
    succeeds on a bucket whose settings carry a policy, the data plane is open,
    the policy parsed to at least one statement, and the policy allows the
    request; a policy that does not parse denies everyone, the owner included,
    where the comment in [policy/types.rs] has it fall through to the owner.  The data
    plane does evaluate policies, against what [docs/bucket-policy.md] says. *)
Theorem check_enforces_policy blocked owner bucket key op creds settings v :
  settings bucket = Some (Some v) -> v <> Null ->
  check blocked owner (Some (bucket, key)) op creds settings = Ok tt <->
  blocked = false /\ exists p, from_json v = Some p /\ statements p <> [] /\
    is_allowed p (mkArgs bucket key (op_to_action op) (default "" creds)
      (if bool_decide (owner = "") then true
       else negb (bool_decide (default "" creds = "")) && bool_decide (default "" creds = owner))) = true.
Proof.
  intros Hs Hv. unfold check. rewrite Hs. destruct blocked; [naive_solver|].
  assert (Hp : forall p, from_json v = Some p -> statements p <> []).
  { intros p Hp. unfold from_json in Hp. apply bind_Some in Hp as (obj & _ & Hp).
    case_bool_decide; [done|]. apply bind_Some in Hp as (raw & _ & Hp).
    apply bind_Some in Hp as (st & _ & Hp). case_bool_decide; [done|]. by injection Hp as <-. }
  destruct v; try done;
    (match goal with |- context [from_json ?x] => destruct (from_json x) as [p|] eqn:E end;
     [specialize (Hp p eq_refl)|split; [done|]; intros (_ & ? & ? & _); done]);
    (destruct (is_allowed p _) eqn:Ea; split; [eauto 6|done|done|]);
    intros (_ & p' & [= <-] & _ & Ha); congruence.
Qed.

Lemma glob_match_correct_witness :
  glob_spec (bytes_of "arn:aws:s3:::b/photos/*.j?g") (bytes_of "arn:aws:s3:::b/photos/x/cat.jpg").
Proof.
  apply (proj1 (glob_match_correct "arn:aws:s3:::b/photos/*.j?g" "arn:aws:s3:::b/photos/x/cat.jpg"
    ltac:(by_decide))).
  vm_compute. reflexivity.
Defined.

Definition ex_policy_json : Value :=
  VObject [("Version", VString "2012-10-17");
    ("Statement", Array
      [VObject [("Effect", VString "Allow"); ("Principal", VString "*");
                ("Action", VString "s3:GetObject"); ("Resource", VString "arn:aws:s3:::b/*")];
       VObject [("Effect", VString "Deny"); ("Principal", VString "*");
                ("Action", Array [VString "s3:*"]); ("Resource", VString "arn:aws:s3:::b/private*")]])].

Lemma check_enforces_policy_witness :
  check false "root" (Some ("b", Some "cat.jpg")) "GetObject" None (fun _ => Some (Some ex_policy_json))
  = Ok tt.
Proof.
  apply (check_enforces_policy false "root" "b" (Some "cat.jpg") "GetObject" None
    (fun _ => Some (Some ex_policy_json)) ex_policy_json eq_refl ltac:(discriminate)).
  split; [reflexivity|]. eexists. split; [vm_compute; reflexivity|].
  split; [discriminate|]. vm_compute. reflexivity.
Defined.

Definition ex_deny : Policy :=
  mkPolicy "2012-10-17"
    [mkStatement None Allow Anyone ["s3:*"] ["arn:aws:s3:::b"; "*"] None;
     mkStatement None Deny Anyone ["s3:GetObject"] ["arn:aws:s3:::b/private/*"] None].

(** A key that contains a [*] slips past a deny: the matcher compares a
    pattern byte with the text before it asks whether the byte is a star, so the
    star of the pattern is spent on a star of the key.  Under a policy that
    denies everything below [private/], the key [private/plan] is denied and
    [private/*plan] is allowed, although the pattern stands for both. *)
Theorem star_key_bypasses_deny :
  let get k := is_allowed ex_deny (mkArgs "b" (Some k) "s3:GetObject" "" false) in
  get "private/plan" = false /\ get "private/*plan" = true /\
  glob_spec (bytes_of "arn:aws:s3:::b/private/*") (bytes_of "arn:aws:s3:::b/private/*plan").
Proof.
  split_and!; [vm_compute; reflexivity..|]. cbn.
  do 23 (apply glob_char; [done|by right|]). apply (glob_star_suffix [] (bytes_of "*plan") []).
  repeat constructor.
Qed.

(** A principal that ends in a slash names the anonymous caller: only the
    part behind the last slash is compared, and the access key of an anonymous
    request is empty. *)
Theorem slash_principal_is_anonymous entry :
  principal_entry_matches (entry +:+ "/") "" = true.
Proof.
  unfold principal_entry_matches. rewrite orb_true_iff. right. apply bool_decide_eq_true_2.
  unfold rsplit_tail, split. rewrite bytes_of_app. cbn [bytes_of].
  by rewrite split_on_snoc, map_app, rev_app_distr.
Qed.
