(* ===== verification/Lifecycle.v ===== *)
(** Lifecycle rules ([src/lifecycle/]): the filter, the evaluator that picks one
    action per object version, and the enforcement pass that applies it.

    The rule types are those of the s3s crate, with the fields the source reads;
    days are [i32] and times [u64].  The store the engine drives is the interface
    [LifecycleStore].  The clock is an argument ([now]). *)

From Stdlib Require Import Ascii ZArith.
From stdpp Require Import base list gmap strings numbers sorting.
From S2P Require Import Prelude Metadata Pathing.

(** ** Rules *)

Record LifecycleRuleFilter : Type := mkLifecycleRuleFilter {
  f_and : bool;                       (** [and.is_some()] *)
  f_tag : bool;                       (** [tag.is_some()] *)
  f_size_greater : option Z;
  f_size_less : option Z;
  f_prefix : option string;
}.

Record LifecycleExpiration : Type := mkLifecycleExpiration {
  exp_days : option Z;
  exp_delete_marker : option bool;    (** [expired_object_delete_marker] *)
}.

Record NoncurrentVersionExpiration : Type := mkNoncurrentVersionExpiration {
  noncurrent_days : option Z;
  ncve_newer : option Z;              (** [newer_noncurrent_versions] *)
}.

Record LifecycleRule : Type := mkLifecycleRule {
  rule_id_opt : option string;
  rule_enabled : bool;                (** [status == "Enabled"] *)
  rule_filter : option LifecycleRuleFilter;
  rule_prefix : option string;
  rule_expiration : option LifecycleExpiration;
  rule_noncurrent : option NoncurrentVersionExpiration;
  rule_abort_days : option (option Z); (** [abort_incomplete_multipart_upload] *)
}.

Inductive Action : Type :=
  | ANone
  | Delete
  | DeleteVersion
  | DeleteAllVersions
  | DeleteExpiredMarker.

Global Instance Action_eq_dec : EqDecision Action.
Proof. solve_decision. Defined.

Record Event : Type := mkEvent {
  ev_action : Action;
  ev_rule_id : string;
  due_unix_secs : N;
}.

Definition event_default : Event := mkEvent ANone "" 0.

Record ObjectOpts : Type := mkObjectOpts {
  o_name : string;
  mod_time_unix_secs : N;
  o_version_id : string;
  o_is_latest : bool;
  o_is_delete_marker : bool;
  num_versions : nat;
  successor_mod_time_unix_secs : N;
  o_size : N;
}.

Definition expired_object_delete_marker (o : ObjectOpts) : bool :=
  o_is_delete_marker o && bool_decide (num_versions o = 1).

Definition expected_expiry (mod_time : N) (days : Z) : N :=
  if bool_decide (days <= 0)%Z then mod_time
  else u64_sat_add mod_time (u64_sat_mul (Z.to_N days) 86400).

(** ** The filter *)

Definition prefix_accepts (p : option string) (name : string) : bool :=
  match p with
  | Some p => if bool_decide (p = "") then true else starts_with p name
  | None => true
  end.

Definition filter_matches (f : LifecycleRuleFilter) (obj : ObjectOpts) : bool :=
  if f_and f || f_tag f || bool_decide (is_Some (f_size_greater f))
     || bool_decide (is_Some (f_size_less f))
  then false else prefix_accepts (f_prefix f) (o_name obj).

Definition rule_matches (r : LifecycleRule) (obj : ObjectOpts) : bool :=
  match rule_filter r with
  | Some f => filter_matches f obj
  | None => prefix_accepts (rule_prefix r) (o_name obj)
  end.

(** ** The evaluator *)

Definition rule_id (r : LifecycleRule) : string := default "" (rule_id_opt r).

Definition earlier (a : option Event) (b : Event) : option Event :=
  match a with
  | None => Some b
  | Some existing =>
      if bool_decide (due_unix_secs existing <= due_unix_secs b)%N then Some existing else Some b
  end.

(** The event a rule proposes for an expired delete marker; [None] falls through. *)
Definition marker_event (r : LifecycleRule) (obj : ObjectOpts) (now : N) : option Event :=
  if expired_object_delete_marker obj then
    exp ← rule_expiration r;
    if bool_decide (exp_delete_marker exp = Some true)
    then Some (mkEvent DeleteExpiredMarker (rule_id r) now)
    else days ← exp_days exp;
         let due := expected_expiry (mod_time_unix_secs obj) days in
         if bool_decide (due <= now)%N then Some (mkEvent DeleteExpiredMarker (rule_id r) due)
         else None
  else None.

Definition retained_enough (n : NoncurrentVersionExpiration) (newer : nat) : bool :=
  match ncve_newer n with
  | Some k => if bool_decide (0 < k)%Z then bool_decide (Z.to_nat k <= newer) else true
  | None => true
  end.

Definition noncurrent_event (r : LifecycleRule) (obj : ObjectOpts) (now : N) (newer : nat)
    : option Event :=
  if o_is_latest obj then None
  else
    ncve ← rule_noncurrent r;
    let base := if bool_decide (0 < successor_mod_time_unix_secs obj)%N
                then successor_mod_time_unix_secs obj else mod_time_unix_secs obj in
    let due := expected_expiry base (default 0%Z (noncurrent_days ncve)) in
    if retained_enough ncve newer && bool_decide (due <= now)%N
    then Some (mkEvent DeleteVersion (rule_id r) due) else None.

Definition current_event (r : LifecycleRule) (obj : ObjectOpts) (now : N) : option Event :=
  if o_is_latest obj && negb (o_is_delete_marker obj) then
    exp ← rule_expiration r;
    days ← exp_days exp;
    let due := expected_expiry (mod_time_unix_secs obj) days in
    if bool_decide (due <= now)%N then Some (mkEvent Delete (rule_id r) due) else None
  else None.

(** The body of the loop for one rule: the first of the three that applies. *)
Definition rule_event (r : LifecycleRule) (obj : ObjectOpts) (now : N) (newer : nat)
    : option Event :=
  if negb (rule_enabled r) then None
  else if negb (rule_matches r obj) then None
  else match marker_event r obj now with
       | Some e => Some e
       | None => match noncurrent_event r obj now newer with
                 | Some e => Some e
                 | None => current_event r obj now
                 end
       end.

Definition eval (rules : list LifecycleRule) (obj : ObjectOpts) (now : N) (newer : nat) : Event :=
  if bool_decide (mod_time_unix_secs obj = 0%N) then event_default
  else default event_default
         (fold_left (fun chosen r => match rule_event r obj now newer with
                                     | Some e => earlier chosen e
                                     | None => chosen
                                     end) rules None).

(** ** The enforcement pass *)

Record PassStats : Type := mkPassStats {
  buckets_scanned : nat;
  objects_examined : nat;
  deleted : nat;
  deleted_versions : nat;
  delete_markers_reaped : nat;
  multipart_aborted : nat;
}.

(** The operations of the store the engine uses: a read answers [None] for an error, the
    [bool] is [is_ok()].  [lifecycle_text] is the lifecycle of the bucket's settings. *)
Class LifecycleStore (S : Type) : Type := {
  list_buckets : S -> S * option (list string);
  lifecycle_text : S -> string -> S * option string;
  versioning_status : S -> string -> S * option string;
  list_infos : S -> string -> S * option (list ObjectInfo);
  list_versions : S -> string -> S * option (list (string * list ObjectMeta));
  delete_object : S -> string -> string -> S * bool;
  add_delete_marker : S -> string -> string -> S * bool;
  delete_object_version : S -> string -> string -> string -> S * bool;
}.

Section Engine.
  Context {S : Type} `{!LifecycleStore S}.

Inductive counter : Type := CDeleted | CVersions | CMarkers.

Definition bump (c : counter) (s : PassStats) : PassStats :=
  match c with
  | CDeleted => mkPassStats (buckets_scanned s) (objects_examined s) (deleted s + 1)
      (deleted_versions s) (delete_markers_reaped s) (multipart_aborted s)
  | CVersions => mkPassStats (buckets_scanned s) (objects_examined s) (deleted s)
      (deleted_versions s + 1) (delete_markers_reaped s) (multipart_aborted s)
  | CMarkers => mkPassStats (buckets_scanned s) (objects_examined s) (deleted s)
      (deleted_versions s) (delete_markers_reaped s + 1) (multipart_aborted s)
  end.

Definition examined (s : PassStats) : PassStats :=
  mkPassStats (buckets_scanned s) (objects_examined s + 1) (deleted s)
    (deleted_versions s) (delete_markers_reaped s) (multipart_aborted s).

(** Count a successful call and report whether it acted. *)
Definition counted (c : counter) (r : S * bool) (s : PassStats) : S * PassStats * bool :=
  if r.2 then (r.1, bump c s, true) else (r.1, s, false).

Definition apply_event (store : S) (bucket : string) (obj : ObjectOpts) (e : Event)
    (stats : PassStats) : S * PassStats * bool :=
  match ev_action e with
  | ANone => (store, stats, false)
  | Delete =>
      if bool_decide (o_version_id obj = "")
      then counted CDeleted (delete_object store bucket (o_name obj)) stats
      else counted CDeleted (add_delete_marker store bucket (o_name obj)) stats
  | DeleteVersion =>
      if bool_decide (o_version_id obj = "") then (store, stats, false)
      else counted CVersions (delete_object_version store bucket (o_name obj) (o_version_id obj)) stats
  | DeleteAllVersions => counted CDeleted (delete_object store bucket (o_name obj)) stats
  | DeleteExpiredMarker =>
      if bool_decide (o_version_id obj = "")
      then counted CMarkers (delete_object store bucket (o_name obj)) stats
      else counted CMarkers (delete_object_version store bucket (o_name obj) (o_version_id obj)) stats
  end.

Definition info_opts (info : ObjectInfo) : ObjectOpts :=
  mkObjectOpts (info_key info) (info_created_at info) "" true (info_is_delete_marker info) 1 0
    (info_size info).

Definition version_opts (key : string) (total : nat) (successor : N) (meta : ObjectMeta) : ObjectOpts :=
  mkObjectOpts key (created_at meta) (version_id meta) (is_latest meta) (is_delete_marker meta)
    total successor (size meta).

(** The unversioned path. *)
Fixpoint apply_infos (rules : list LifecycleRule) (now : N) (bucket : string)
    (infos : list ObjectInfo) (store : S) (stats : PassStats) : S * PassStats :=
  match infos with
  | [] => (store, stats)
  | info :: infos =>
      let obj := info_opts info in
      let '(store, stats, _) :=
        apply_event store bucket obj (eval rules obj now 0) (examined stats) in
      apply_infos rules now bucket infos store stats
  end.

(** The versions of one key, newest first; [newer] counts the noncurrent
    versions kept so far. *)
Fixpoint apply_key (rules : list LifecycleRule) (now : N) (bucket key : string) (total : nat)
    (versions : list ObjectMeta) (successor : N) (newer : nat) (store : S) (stats : PassStats)
    : S * PassStats :=
  match versions with
  | [] => (store, stats)
  | meta :: versions =>
      let obj := version_opts key total successor meta in
      let '(store, stats, acted) :=
        apply_event store bucket obj (eval rules obj now newer) (examined stats) in
      let newer := if negb (o_is_latest obj) && negb acted then newer + 1 else newer in
      apply_key rules now bucket key total versions (created_at meta) newer store stats
  end.

Definition apply_bucket (rules : list LifecycleRule) (now : N) (bucket : string) (store : S)
    (stats : PassStats) : S * PassStats :=
  if forallb (fun r => negb (rule_enabled r)) rules then (store, stats)
  else
    let '(store, status) := versioning_status store bucket in
    let is_versioned := match status with
                        | Some st => bool_decide (st = "Enabled") || bool_decide (st = "Suspended")
                        | None => false end in
    if negb is_versioned then
      let '(store, infos) := list_infos store bucket in
      match infos with
      | Some infos => apply_infos rules now bucket infos store stats
      | None => (store, stats)
      end
    else
      let '(store, groups) := list_versions store bucket in
      match groups with
      | None => (store, stats)
      | Some groups =>
          fold_left (fun st (g : string * list ObjectMeta) =>
              apply_key rules now bucket g.1 (length g.2) g.2 0 0 st.1 st.2)
            groups (store, stats)
      end.

End Engine.

(** ** Stale multipart uploads *)

(** The smallest [days_after_initiation] of the enabled rules. *)
Definition min_days (rules : list LifecycleRule) : option Z :=
  fold_left (fun acc d => match acc with None => Some d | Some a => Some (Z.min a d) end)
    (omap (fun r => if rule_enabled r then r ← rule_abort_days r; r else None) rules) None.

Definition abort_cutoff (rules : list LifecycleRule) (now : N) : option N :=
  days ← min_days rules;
  if bool_decide (days < 0)%Z then None
  else Some (u64_sat_sub now (u64_sat_mul (Z.to_N days) 86400)).

(** The uploads to abort, from the upload directories found on the local disks
    and their modification times; the [BTreeSet] keeps each once. *)
Definition stale_uploads (cutoff : N) (found : list (string * string * N)) : gset (string * string) :=
  list_to_set (omap (fun u : string * string * N =>
    if bool_decide (0 < u.2)%N && bool_decide (u.2 <= cutoff)%N then Some u.1 else None) found).

(** ** Lemmas: the evaluator *)

(** The events the enabled, matching rules propose. *)
Definition proposals (rules : list LifecycleRule) (obj : ObjectOpts) (now : N) (newer : nat)
    : list Event :=
  omap (fun r => rule_event r obj now newer) rules.

Lemma eval_fold rules obj now newer chosen :
  fold_left (fun chosen r => match rule_event r obj now newer with
                             | Some e => earlier chosen e | None => chosen end) rules chosen
  = fold_left earlier (proposals rules obj now newer) chosen.
Proof.
  revert chosen. induction rules as [|r rules IH]; intros chosen; [done|]. cbn.
  destruct (rule_event r obj now newer); cbn; apply IH.
Qed.

(** Folding [earlier] finds an event with the smallest due time. *)
Lemma fold_earlier es c :
  exists e, fold_left earlier es (Some c) = Some e /\ e ∈ c :: es /\
    Forall (fun e' => (due_unix_secs e <= due_unix_secs e')%N) (c :: es).
Proof.
  revert c. induction es as [|x es IH]; intros c; cbn.
  - exists c. split_and!; [done|by left|]. constructor; [lia|constructor].
  - case_bool_decide as Hle.
    + destruct (IH c) as (e & -> & Hin & Hall). exists e. split_and!; [done|set_solver|].
      inversion Hall; subst. constructor; [done|]. constructor; [lia|done].
    + destruct (IH x) as (e & -> & Hin & Hall). exists e. split_and!; [done|set_solver|].
      inversion Hall; subst. constructor; [lia|]. constructor; [done|done].
Qed.

(** What a proposal of a rule says about the object and the time. *)
Definition justified (obj : ObjectOpts) (now : N) (newer : nat) (r : LifecycleRule) (e : Event) : Prop :=
  rule_enabled r = true /\ rule_matches r obj = true /\ ev_rule_id e = rule_id r /\
  (due_unix_secs e <= now)%N /\
  match ev_action e with
  | Delete => o_is_latest obj = true /\ o_is_delete_marker obj = false
  | DeleteVersion => o_is_latest obj = false /\
      exists n, rule_noncurrent r = Some n /\ retained_enough n newer = true
  | DeleteExpiredMarker => o_is_delete_marker obj = true /\ num_versions obj = 1
  | ANone | DeleteAllVersions => False
  end.

Lemma marker_event_justified r obj now e :
  marker_event r obj now = Some e ->
  ev_rule_id e = rule_id r /\ (due_unix_secs e <= now)%N /\ ev_action e = DeleteExpiredMarker /\
  o_is_delete_marker obj = true /\ num_versions obj = 1.
Proof.
  unfold marker_event, expired_object_delete_marker. intros E.
  destruct (o_is_delete_marker obj); [|done]. case_bool_decide; [|done]. cbn [andb] in E.
  apply bind_Some in E as (x & _ & E). case_bool_decide; [by simplify_eq|].
  apply bind_Some in E as (d & _ & E). case_bool_decide; by simplify_eq.
Qed.

Lemma noncurrent_event_justified r obj now newer e :
  noncurrent_event r obj now newer = Some e ->
  ev_rule_id e = rule_id r /\ (due_unix_secs e <= now)%N /\ ev_action e = DeleteVersion /\
  o_is_latest obj = false /\ exists n, rule_noncurrent r = Some n /\ retained_enough n newer = true.
Proof.
  unfold noncurrent_event. intros E. destruct (o_is_latest obj); [done|].
  apply bind_Some in E as (n & Hn & E). destruct (retained_enough n newer) eqn:Er; [|done].
  cbn [andb] in E. case_bool_decide; [|done]. simplify_eq. split_and!; eauto.
Qed.

Lemma current_event_justified r obj now e :
  current_event r obj now = Some e ->
  ev_rule_id e = rule_id r /\ (due_unix_secs e <= now)%N /\ ev_action e = Delete /\
  o_is_latest obj = true /\ o_is_delete_marker obj = false.
Proof.
  unfold current_event. intros E. destruct (o_is_latest obj), (o_is_delete_marker obj); try done.
  cbn [andb negb] in E. apply bind_Some in E as (x & _ & E). apply bind_Some in E as (d & _ & E).
  case_bool_decide; by simplify_eq.
Qed.

Lemma rule_event_justified r obj now newer e :
  rule_event r obj now newer = Some e -> justified obj now newer r e.
Proof.
  unfold rule_event, justified. intros E.
  destruct (rule_enabled r); [|done]. destruct (rule_matches r obj); [|done]. cbn [negb] in E.
  destruct (marker_event r obj now) as [e1|] eqn:E1.
  { injection E as <-. destruct (marker_event_justified _ _ _ _ E1) as (? & ? & -> & ? & ?). done. }
  destruct (noncurrent_event r obj now newer) as [e2|] eqn:E2.
  { injection E as <-. destruct (noncurrent_event_justified _ _ _ _ _ E2) as (? & ? & -> & ? & ?). done. }
  destruct (current_event_justified _ _ _ _ E) as (? & ? & -> & ? & ?). done.
Qed.

Lemma eval_cases rules obj now newer :
  let e := eval rules obj now newer in
  (e = event_default /\ (mod_time_unix_secs obj = 0%N \/ proposals rules obj now newer = [])) \/
  (mod_time_unix_secs obj <> 0%N /\ e ∈ proposals rules obj now newer /\
   Forall (fun e' => (due_unix_secs e <= due_unix_secs e')%N) (proposals rules obj now newer)).
Proof.
  unfold eval. case_bool_decide as H0; [by left; auto|]. rewrite eval_fold.
  destruct (proposals rules obj now newer) as [|p ps]; [by left; auto|]. right. cbn [fold_left earlier].
  destruct (fold_earlier ps p) as (e & -> & Hin & Hall). done.
Qed.

Lemma elem_of_proposals rules obj now newer e :
  e ∈ proposals rules obj now newer <-> exists r, r ∈ rules /\ rule_event r obj now newer = Some e.
Proof. apply list_elem_of_omap. Qed.

(** An action the evaluator picks is justified by one of the rules. *)
Lemma eval_justified rules obj now newer :
  ev_action (eval rules obj now newer) <> ANone ->
  exists r, r ∈ rules /\ justified obj now newer r (eval rules obj now newer).
Proof.
  intros Hne. destruct (eval_cases rules obj now newer) as [[E _]|(_ & Hin & _)].
  - by rewrite E in Hne.
  - apply elem_of_proposals in Hin as (r & Hr & E). exists r. split; [done|]. by apply rule_event_justified.
Qed.

(** ** Lemmas: the pass over one key *)

Definition noncurrent_count (versions : list ObjectMeta) : nat :=
  length (List.filter (fun m => negb (is_latest m)) versions).

Section Pass.
  Context {S : Type} `{!LifecycleStore S}.

Lemma apply_event_versions (store : S) bucket obj e stats store' stats' acted :
  apply_event store bucket obj e stats = (store', stats', acted) ->
  deleted_versions stats' = deleted_versions stats \/
  (ev_action e = DeleteVersion /\ deleted_versions stats' = deleted_versions stats + 1).
Proof.
  unfold apply_event, counted. intros E.
  destruct (ev_action e); repeat case_match; simplify_eq/=; auto.
Qed.

Lemma apply_key_retains rules now bucket key total versions k :
  (forall r n, r ∈ rules -> rule_enabled r = true -> rule_noncurrent r = Some n ->
     exists z, ncve_newer n = Some z /\ (Z.of_nat k <= z)%Z /\ (0 < z)%Z) ->
  forall successor newer (store : S) stats,
  let r := apply_key rules now bucket key total versions successor newer store stats in
  deleted_versions r.2 + Nat.min (k - newer) (noncurrent_count versions)
  <= deleted_versions stats + noncurrent_count versions.
Proof.
  intros Hk. induction versions as [|meta versions IH]; intros successor newer store stats; [cbn; lia|].
  cbn [apply_key]. set (obj := version_opts _ _ _ _).
  destruct (apply_event store bucket obj (eval rules obj now newer) (examined stats))
    as [[store1 stats1] acted] eqn:E.
  set (newer1 := if _ && _ then newer + 1 else newer).
  specialize (IH (created_at meta) newer1 store1 stats1). cbv zeta in IH.
  set (dv := deleted_versions (apply_key _ _ _ _ _ _ _ newer1 _ _).2) in *. clearbody dv.
  assert (Hcnt : noncurrent_count (meta :: versions)
    = (if o_is_latest obj then 0 else 1) + noncurrent_count versions).
  { unfold noncurrent_count. cbn [List.filter]. change (is_latest meta) with (o_is_latest obj).
    by destruct (o_is_latest obj). }
  assert (Hdv : deleted_versions (examined stats) = deleted_versions stats) by done.
  apply apply_event_versions in E as [E|[Ea E]]; rewrite Hdv in E.
  - rewrite Hcnt. unfold newer1 in IH.
    destruct (o_is_latest obj), acted; cbn [negb andb] in IH; lia.
  - destruct (eval_justified rules obj now newer) as (r & Hr & Hen & _ & _ & _ & Hj); [by rewrite Ea|].
    rewrite Ea in Hj. destruct Hj as (Hl & n & Hn & Hret).
    destruct (Hk r n Hr Hen Hn) as (z & Hz & Hkz & Hz0). unfold retained_enough in Hret.
    rewrite Hz, bool_decide_eq_true_2 in Hret by done. apply bool_decide_eq_true in Hret.
    clearbody newer1. rewrite Hcnt, Hl. lia.
Qed.

End Pass.

(** ** Properties *)

(** The evaluator picks the earliest due action: its result is the default
    event exactly when the version has no modification time or no enabled,
    matching rule proposes anything, and otherwise it is a proposal of some
    rule, due no later than any other proposal. *)
Theorem lifecycle_eval_earliest rules obj now newer :
  let e := eval rules obj now newer in
  (e = event_default /\ (mod_time_unix_secs obj = 0%N \/
     forall r, r ∈ rules -> rule_event r obj now newer = None)) \/
  (exists r, r ∈ rules /\ rule_event r obj now newer = Some e /\
     forall r' e', r' ∈ rules -> rule_event r' obj now newer = Some e' ->
       (due_unix_secs e <= due_unix_secs e')%N).
Proof.
  destruct (eval_cases rules obj now newer) as [[E [H0|Hn]]|(_ & Hin & Hall)].
  - left. auto.
  - left. split; [done|]. right. intros r Hr. destruct (rule_event r obj now newer) as [e|] eqn:Er; [|done].
    assert (e ∈ proposals rules obj now newer) by (apply elem_of_proposals; eauto). rewrite Hn in *. set_solver.
  - right. apply elem_of_proposals in Hin as (r & Hr & Er). exists r. split_and!; [done..|].
    intros r' e' Hr' Er'. rewrite list.Forall_forall in Hall. apply Hall, elem_of_proposals. eauto.
Qed.

(** No action without cause: whatever the evaluator does to a version is
    backed by an enabled rule that matches the key and is already due, a current
    version is only expired when it is not a delete marker, only a noncurrent
    version is deleted by id and only when the rule's count of newer versions is
    kept, only a sole delete marker is reaped, and [DeleteAllVersions] is never
    chosen. *)
Theorem lifecycle_eval_safe rules obj now newer :
  let e := eval rules obj now newer in
  ev_action e = ANone \/
  exists r, r ∈ rules /\ rule_enabled r = true /\ rule_matches r obj = true /\
    ev_rule_id e = rule_id r /\ (due_unix_secs e <= now)%N /\
    match ev_action e with
    | Delete => o_is_latest obj = true /\ o_is_delete_marker obj = false
    | DeleteVersion => o_is_latest obj = false /\
        exists n, rule_noncurrent r = Some n /\ retained_enough n newer = true
    | DeleteExpiredMarker => o_is_delete_marker obj = true /\ num_versions obj = 1
    | ANone | DeleteAllVersions => False
    end.
Proof.
  cbv zeta. destruct (decide (ev_action (eval rules obj now newer) = ANone)) as [?|Hne]; [by left|right].
  exact (eval_justified rules obj now newer Hne).
Qed.

(** A pass over the versions of a key respects the retention count: if every
    enabled rule with a noncurrent expiration keeps at least [k] newer
    noncurrent versions, then at least [k] of the key's noncurrent versions, or
    all of them when there are fewer, are not deleted by id, whatever the store
    answers. *)
Theorem retention_respected {S} `{!LifecycleStore S} rules now bucket key versions k (store : S) stats :
  (forall r n, r ∈ rules -> rule_enabled r = true -> rule_noncurrent r = Some n ->
     exists z, ncve_newer n = Some z /\ (Z.of_nat k <= z)%Z /\ (0 < z)%Z) ->
  let r := apply_key rules now bucket key (length versions) versions 0 0 store stats in
  deleted_versions r.2 + Nat.min k (noncurrent_count versions)
  <= deleted_versions stats + noncurrent_count versions.
Proof.
  intros Hk. cbv zeta.
  pose proof (apply_key_retains rules now bucket key (length versions) versions k Hk 0 0 store stats) as Hr.
  cbn in Hr. by rewrite Nat.sub_0_r in Hr.
Qed.

(** *** A rule that keeps one noncurrent version *)

Definition ex_rule : LifecycleRule :=
  mkLifecycleRule (Some "keep-1") true None (Some "logs/") None
    (Some (mkNoncurrentVersionExpiration (Some 1%Z) (Some 1%Z))) None.

Global Instance ex_store : LifecycleStore (list string) := {|
  list_buckets := fun s => (s, Some s);
  lifecycle_text := fun s _ => (s, None);
  versioning_status := fun s _ => (s, Some "Enabled");
  list_infos := fun s _ => (s, None);
  list_versions := fun s _ => (s, None);
  delete_object := fun s _ k => (k :: s, true);
  add_delete_marker := fun s _ k => (k :: s, true);
  delete_object_version := fun s _ _ v => (v :: s, true) |}.

Definition ex_version (v : string) (latest : bool) : ObjectMeta :=
  {| size := 1; etag := v; content_type := ""; created_at := 1000;
     erasure := mkErasureMeta 0 0 1 ["v1"]; checksum := ""; user_metadata := ∅; tags := ∅;
     version_id := v; is_latest := latest; is_delete_marker := false; parts := [];
     inline_data := None |}.

Definition ex_versions : list ObjectMeta :=
  [ex_version "v3" true; ex_version "v2" false; ex_version "v1" false; ex_version "v0" false].

Lemma retention_respected_witness :
  deleted_versions (apply_key [ex_rule] 1000000 "b" "logs/a" (length ex_versions) ex_versions 0 0
    ([] : list string) (mkPassStats 0 0 0 0 0 0)).2 + Nat.min 1 (noncurrent_count ex_versions)
  <= 0 + noncurrent_count ex_versions.
Proof.
  refine (retention_respected [ex_rule] 1000000 "b" "logs/a" ex_versions 1 ([] : list string)
    (mkPassStats 0 0 0 0 0 0) _).
  intros r n Hr _ Hn. apply list_elem_of_singleton in Hr. subst r. cbn in Hn. injection Hn as <-.
  exists 1%Z. split; [reflexivity|]. split; lia.
Defined.

(** The pass deletes the two oldest versions and keeps the other noncurrent one. *)
Example ex_pass_deletes :
  (apply_key [ex_rule] 1000000 "b" "logs/a" (length ex_versions) ex_versions 0 0
    ([] : list string) (mkPassStats 0 0 0 0 0 0)).1 = ["v0"; "v1"].
Proof. vm_compute. reflexivity. Qed.
