(* ===== verification/Caches.v ===== *)
(** The two RAM caches of a volume pool: the write cache that acknowledges small
    PUTs before they reach a disk ([src/storage/write_cache.rs], module
    [WriteCache]) and the LRU read cache of decoded objects
    ([src/storage/read_cache.rs], module [ReadCache]).

    Each operation is atomic here.  [u64] counters are [N]; additions that may
    reach [2^64] wrap as the release build does.  An [Instant] is a number of
    nanoseconds and the clock is an argument. *)

From Stdlib Require Import Ascii.
From stdpp Require Import base list gmap strings numbers.
From S2P Require Import Prelude Metadata.

(** Sums over the values of a map. *)
Definition map_sum {K V : Type} `{Countable K} (f : V -> N) (m : gmap K V) : N :=
  map_fold (fun _ v acc => (f v + acc)%N) 0%N m.

Lemma map_sum_insert {K V} `{Countable K} (f : V -> N) (m : gmap K V) k v :
  m !! k = None -> map_sum f (<[k := v]> m) = (f v + map_sum f m)%N.
Proof.
  intros Hk. unfold map_sum. rewrite map_fold_insert_L; [done| |done]. intros. lia.
Qed.

Lemma map_sum_delete {K V} `{Countable K} (f : V -> N) (m : gmap K V) k v :
  m !! k = Some v -> map_sum f m = (f v + map_sum f (delete k m))%N.
Proof.
  intros Hk. rewrite <- (insert_delete_id m k v Hk) at 1. apply map_sum_insert, lookup_delete_eq.
Qed.

Abbreviation CacheKey := (string * string)%type.

(** ** The write cache *)

Module WriteCache.

Record CacheEntry : Type := mkCacheEntry {
  shards : list bytes;
  metas : list ObjectMeta;
  distribution : list nat;
  original_size : N;
  we_content_type : string;
  we_etag : string;
  we_created_at : N;
  we_user_metadata : gmap string string;
  we_tags : gmap string string;
  cached_at_unix_nanos : N;
  cached_at_local : N;
  primary_node_id : string;
}.

Definition mem_size (e : CacheEntry) : N :=
  let shard_bytes := sum_list (map length (shards e)) in
  N.of_nat (shard_bytes + length (metas e) * 200 + String.length (we_etag e)
            + String.length (we_content_type e) + String.length (primary_node_id e) + 128).

Record WriteCache : Type := mkWriteCache {
  entries : gmap CacheKey CacheEntry;
  size_bytes : N;
  max_bytes : N;
  hits : N;
}.

Definition new (max : N) : WriteCache := mkWriteCache ∅ 0 max 0.

Definition record_hit (c : WriteCache) : WriteCache :=
  mkWriteCache (entries c) (size_bytes c) (max_bytes c) (as_u64 (hits c + 1)).

(** [fetch_sub] and [fetch_add] on [size_bytes] wrap. *)
Definition sub_size (n : N) (c : WriteCache) : WriteCache :=
  mkWriteCache (entries c) (as_u64 (2 ^ 64 + size_bytes c - n)) (max_bytes c) (hits c).
Definition add_size (n : N) (c : WriteCache) : WriteCache :=
  mkWriteCache (entries c) (as_u64 (size_bytes c + n)) (max_bytes c) (hits c).
Definition set_entries (m : gmap CacheKey CacheEntry) (c : WriteCache) : WriteCache :=
  mkWriteCache m (size_bytes c) (max_bytes c) (hits c).

(** One atomic step, as for calls that do not overlap.  The source loads the size, subtracts
    the old entry's, adds the new one's and inserts as separate steps on a shared map. *)
Definition insert (c : WriteCache) (b k : string) (e : CacheEntry) : WriteCache * bool :=
  let entry_size := mem_size e in
  if bool_decide (max_bytes c < as_u64 (size_bytes c + entry_size))%N then (c, false)
  else
    let c := match entries c !! (b, k) with
             | Some old => sub_size (mem_size old) c
             | None => c
             end in
    let c := add_size entry_size c in
    (set_entries (<[(b, k) := e]> (entries c)) c, true).

Definition get (c : WriteCache) (b k : string) : WriteCache * option CacheEntry :=
  match entries c !! (b, k) with
  | Some e => (record_hit c, Some e)
  | None => (c, None)
  end.

Definition remove (c : WriteCache) (b k : string) : WriteCache * option CacheEntry :=
  match entries c !! (b, k) with
  | Some v => (sub_size (mem_size v) (set_entries (delete (b, k) (entries c)) c), Some v)
  | None => (c, None)
  end.

Definition contains (c : WriteCache) (b k : string) : bool :=
  bool_decide (is_Some (entries c !! (b, k))).

Definition list_keys (c : WriteCache) (b prefix : string) : list string :=
  omap (fun e : CacheKey * CacheEntry =>
    if bool_decide (e.1.1 = b) && starts_with prefix e.1.2 then Some e.1.2 else None)
    (map_to_list (entries c)).

(** Remove the keys of a list; both drains do this with the keys they select. *)
Fixpoint drain_keys (c : WriteCache) (ks : list CacheKey)
    : WriteCache * list (CacheKey * CacheEntry) :=
  match ks with
  | [] => (c, [])
  | k :: ks =>
      match remove c k.1 k.2 with
      | (c, Some e) => let r := drain_keys c ks in (r.1, (k, e) :: r.2)
      | (c, None) => drain_keys c ks
      end
  end.

Definition select_keys (P : CacheEntry -> bool) (c : WriteCache) : list CacheKey :=
  map fst (List.filter (fun e : CacheKey * CacheEntry => P e.2) (map_to_list (entries c))).

Definition drain_primary_older_than (c : WriteCache) (local_node_id : string) (age now : N)
    : WriteCache * list (CacheKey * CacheEntry) :=
  drain_keys c (select_keys (fun e =>
    bool_decide (age <= now - cached_at_local e)%N
    && (bool_decide (primary_node_id e = "") || bool_decide (primary_node_id e = local_node_id))) c).

Definition drain_older_than (c : WriteCache) (age now : N)
    : WriteCache * list (CacheKey * CacheEntry) :=
  drain_primary_older_than c "" age now.

Definition drain_by_primary (c : WriteCache) (node : string)
    : WriteCache * list (CacheKey * CacheEntry) :=
  drain_keys c (select_keys (fun e => bool_decide (primary_node_id e = node)) c).

Definition entry_count (c : WriteCache) : nat := base.size (entries c).
Definition has_space (c : WriteCache) (entry_size : N) : bool :=
  bool_decide (as_u64 (size_bytes c + entry_size) <= max_bytes c)%N.

(** *** Accounting *)

(** The size counter is the sum of the entries, within the budget; the budget
    leaves room for one more entry below [2^64]. *)
Record wf (c : WriteCache) : Prop := {
  wf_size : size_bytes c = map_sum mem_size (entries c);
  wf_max : (size_bytes c <= max_bytes c)%N;
  wf_width : (max_bytes c < 2 ^ 63)%N;
}.

Lemma wf_new max : (max < 2 ^ 63)%N -> wf (new max).
Proof. constructor; cbn; [done|lia|done]. Qed.

Lemma wrap_sub a b : (b <= a)%N -> (a < 2 ^ 64)%N -> as_u64 (2 ^ 64 + a - b) = (a - b)%N.
Proof.
  intros Hle Ha. unfold wrap. replace (2 ^ 64 + a - b)%N with ((a - b) + 1 * 2 ^ 64)%N by lia.
  rewrite N.Div0.mod_add. apply N.mod_small. lia.
Qed.

Lemma wf_remove c b k :
  wf c -> wf (remove c b k).1 /\ (remove c b k).2 = entries c !! (b, k) /\
    entries (remove c b k).1 = delete (b, k) (entries c) /\ max_bytes (remove c b k).1 = max_bytes c.
Proof.
  intros [Hs Hm Hw]. unfold remove. destruct (entries c !! (b, k)) as [v|] eqn:E; cbn.
  - pose proof (map_sum_delete mem_size _ _ _ E) as Hd.
    split_and!; [|done..]. constructor; cbn; [|rewrite wrap_sub; lia|done]. rewrite wrap_sub; lia.
  - split_and!; try done. by rewrite delete_id.
Qed.

Lemma wf_insert c b k e :
  wf c -> (mem_size e < 2 ^ 63)%N ->
  let r := insert c b k e in
  wf r.1 /\ max_bytes r.1 = max_bytes c /\
  if bool_decide (size_bytes c + mem_size e <= max_bytes c)%N
  then r.2 = true /\ entries r.1 = <[(b, k) := e]> (entries c)
  else r = (c, false).
Proof.
  intros [Hs Hm Hw] He. unfold insert. rewrite wrap_small by lia. case_bool_decide as Hf.
  - rewrite bool_decide_eq_false_2 by lia. done.
  - rewrite bool_decide_eq_true_2 by lia.
    destruct (entries c !! (b, k)) as [old|] eqn:E; cbn.
    + pose proof (map_sum_delete mem_size _ _ _ E) as Hd.
      assert (Hi : map_sum mem_size (<[(b, k) := e]> (entries c))
        = (mem_size e + map_sum mem_size (delete (b, k) (entries c)))%N).
      { rewrite <- insert_delete_eq. apply map_sum_insert, lookup_delete_eq. }
      split_and!; try done. constructor; cbn; rewrite ?wrap_sub, ?wrap_small by lia; lia.
    + pose proof (map_sum_insert mem_size _ _ e E) as Hi.
      split_and!; try done. constructor; cbn; rewrite ?wrap_small by lia; lia.
Qed.

Lemma remove_entries c b k :
  (remove c b k).2 = entries c !! (b, k) /\ entries (remove c b k).1 = delete (b, k) (entries c).
Proof.
  unfold remove. destruct (entries c !! (b, k)) eqn:E; [done|]. split; [done|]. symmetry. by apply delete_id.
Qed.

(** Draining removes exactly the listed keys and returns their entries. *)
Lemma drain_keys_entries ks c :
  NoDup ks ->
  let r := drain_keys c ks in
  (forall k, entries r.1 !! k = if decide (k ∈ ks) then None else entries c !! k) /\
  (forall k e, (k, e) ∈ r.2 <-> k ∈ ks /\ entries c !! k = Some e).
Proof.
  revert c. induction ks as [|[b k] ks IH]; intros c Hnd; cbn.
  - split_and!; [done|set_solver].
  - destruct (remove_entries c b k) as [Hr He].
    apply list.NoDup_cons in Hnd as [Hk Hnd].
    destruct (remove c b k) as [c1 o] eqn:Erm. cbn in Hr, He. subst o.
    destruct (IH c1 Hnd) as (Hl & Hin).
    assert (Hlook : forall k', entries (drain_keys c1 ks).1 !! k'
      = if decide (k' ∈ (b, k) :: ks) then None else entries c !! k').
    { intros k'. rewrite Hl, He. destruct (decide (k' = (b, k))) as [->|Hne].
      - rewrite (decide_True (P := (b, k) ∈ (b, k) :: ks)) by set_solver.
        case_decide; [done|]. apply lookup_delete_eq.
      - rewrite lookup_delete_ne by done. repeat case_decide; set_solver. }
    destruct (entries c !! (b, k)) as [v|] eqn:Ev; cbn; (split_and!; [done|]); intros k' e';
      rewrite ?elem_of_cons, Hin, He; destruct (decide (k' = (b, k))) as [->|Hne];
      rewrite ?lookup_delete_eq, ?lookup_delete_ne by done; naive_solver.
Qed.

Lemma drain_keys_wf ks c : wf c -> wf (drain_keys c ks).1.
Proof.
  revert c. induction ks as [|[b k] ks IH]; intros c Hc; [done|]. cbn.
  destruct (wf_remove c b k Hc) as (Hc1 & _). destruct (remove c b k) as [c1 [v|]]; cbn in *; by apply IH.
Qed.

Lemma drain_keys_spec ks c :
  wf c -> NoDup ks ->
  let r := drain_keys c ks in
  wf r.1 /\ (forall k, entries r.1 !! k = if decide (k ∈ ks) then None else entries c !! k) /\
  (forall k e, (k, e) ∈ r.2 <-> k ∈ ks /\ entries c !! k = Some e).
Proof. intros Hc Hnd r. split; [by apply drain_keys_wf|]. by apply drain_keys_entries. Qed.

Lemma select_keys_spec P c k :
  k ∈ select_keys P c <-> exists e, entries c !! k = Some e /\ P e = true.
Proof.
  unfold select_keys. rewrite list_elem_of_In, in_map_iff. split.
  - intros ([k' e] & <- & Hf). apply filter_In in Hf as [Hin Hp].
    apply list_elem_of_In, elem_of_map_to_list in Hin. eauto.
  - intros (e & He & Hp). exists (k, e). split; [done|]. apply filter_In. split; [|done].
    by apply list_elem_of_In, elem_of_map_to_list.
Qed.

Lemma select_keys_NoDup P c : NoDup (select_keys P c).
Proof.
  unfold select_keys.
  assert (Hsub : map fst (List.filter (fun e : CacheKey * CacheEntry => P e.2) (map_to_list (entries c)))
    `sublist_of` map fst (map_to_list (entries c))).
  { induction (map_to_list (entries c)) as [|x l IH]; [constructor|]. cbn [List.filter].
    destruct (P x.2); cbn; by constructor. }
  eapply sublist_NoDup; [|exact Hsub]. apply NoDup_fst_map_to_list.
Qed.

Lemma drain_keys_fst ks c : map fst (drain_keys c ks).2 `sublist_of` ks.
Proof.
  revert c. induction ks as [|k ks IH]; intros c; cbn; [constructor|].
  destruct (remove c k.1 k.2) as [c1 [v|]]; cbn; by constructor.
Qed.

Lemma drain_keys_max ks c : wf c -> max_bytes (drain_keys c ks).1 = max_bytes c.
Proof.
  revert c. induction ks as [|[b k] ks IH]; intros c Hc; [done|]. cbn.
  destruct (wf_remove c b k Hc) as (Hc1 & _ & _ & Hm).
  destruct (remove c b k) as [c1 [v|]]; cbn in *; by rewrite IH.
Qed.

(** Draining the entries that satisfy a predicate splits the map in two. *)
Lemma drain_select_spec P c :
  wf c ->
  let r := drain_keys c (select_keys P c) in
  wf r.1 /\ max_bytes r.1 = max_bytes c /\
  entries r.1 = filter (fun e : CacheKey * CacheEntry => P e.2 = false) (entries c) /\
  r.2 ≡ₚ map_to_list (filter (fun e : CacheKey * CacheEntry => P e.2 = true) (entries c)).
Proof.
  intros Hc r. pose proof (select_keys_NoDup P c) as Hnd.
  destruct (drain_keys_spec _ c Hc Hnd) as (Hw & Hl & Hin). split; [done|].
  split; [by apply drain_keys_max|]. split.
  - apply map_eq. intros k. rewrite Hl, map_lookup_filter.
    destruct (entries c !! k) as [e|] eqn:E; [|by destruct (decide _)]. simpl.
    destruct (P e) eqn:Ep.
    + rewrite decide_True; [by rewrite option_guard_False|]. apply select_keys_spec. eauto.
    + rewrite decide_False; [by rewrite option_guard_True|]. rewrite select_keys_spec. intros (e' & He' & Hp). congruence.
  - apply NoDup_Permutation.
    + apply (NoDup_fmap_1 fst). eapply sublist_NoDup; [|apply drain_keys_fst]. done.
    + apply NoDup_map_to_list.
    + intros [k e]. subst r; rewrite Hin, elem_of_map_to_list, map_lookup_filter_Some, select_keys_spec.
      cbn. split; [intros ((e' & He' & Hp) & He); split; congruence|intros [He Hp]; eauto].
Qed.

(** *** The cache as a bounded map *)

Inductive Op : Type :=
  | OInsert (b k : string) (e : CacheEntry)
  | OGet (b k : string)
  | ORemove (b k : string)
  | ODrainPrimary (node : string) (age now : N)
  | ODrainByPrimary (node : string).

Definition step (c : WriteCache) (o : Op) : WriteCache :=
  match o with
  | OInsert b k e => (insert c b k e).1
  | OGet b k => (get c b k).1
  | ORemove b k => (remove c b k).1
  | ODrainPrimary node age now => (drain_primary_older_than c node age now).1
  | ODrainByPrimary node => (drain_by_primary c node).1
  end.

(** An entry is due on a node once it is old enough and the node owns it. *)
Definition due (node : string) (age now : N) (e : CacheEntry) : bool :=
  bool_decide (age <= now - cached_at_local e)%N
  && (bool_decide (primary_node_id e = "") || bool_decide (primary_node_id e = node)).

(** The abstract cache: a map whose total weight never exceeds the budget. *)
Definition spec_step (max : N) (m : gmap CacheKey CacheEntry) (o : Op) : gmap CacheKey CacheEntry :=
  match o with
  | OInsert b k e =>
      if bool_decide (map_sum mem_size m + mem_size e <= max)%N then <[(b, k) := e]> m else m
  | OGet _ _ => m
  | ORemove b k => delete (b, k) m
  | ODrainPrimary node age now =>
      filter (fun e : CacheKey * CacheEntry => due node age now e.2 = false) m
  | ODrainByPrimary node =>
      filter (fun e : CacheKey * CacheEntry => bool_decide (primary_node_id e.2 = node) = false) m
  end.

Definition op_ok (o : Op) : Prop :=
  match o with OInsert _ _ e => (mem_size e < 2 ^ 63)%N | _ => True end.

Lemma step_refines c o :
  wf c -> op_ok o ->
  wf (step c o) /\ max_bytes (step c o) = max_bytes c /\
  entries (step c o) = spec_step (max_bytes c) (entries c) o.
Proof.
  intros Hc Ho. destruct o as [b k e|b k|b k|node age now|node]; cbn [step spec_step].
  - destruct (wf_insert c b k e Hc Ho) as (Hw & Hm & Hb). rewrite <- (wf_size c Hc).
    case_bool_decide; [by destruct Hb|]. by rewrite Hb.
  - unfold get. destruct (entries c !! (b, k)); [|done]. destruct Hc. by split_and!; try constructor.
  - destruct (wf_remove c b k Hc) as (? & ? & ? & ?). done.
  - destruct (drain_select_spec (due node age now) c Hc) as (? & ? & ? & ?). done.
  - destruct (drain_select_spec (fun e => bool_decide (primary_node_id e = node)) c Hc) as (? & ? & ? & ?). done.
Qed.

(** C32: After any sequence of inserts, reads, removals and drains on a fresh write
    cache, the cache holds exactly what a plain map holds that accepts an insert
    only when the sum of the entry sizes plus the new entry fits the budget; the
    atomic size counter is that sum (it never drifts or wraps) and never exceeds
    the budget. *)
Theorem write_cache_refines (max : N) (ops : list Op) :
  (max < 2 ^ 63)%N -> Forall op_ok ops ->
  let c := fold_left step ops (new max) in
  entries c = fold_left (spec_step max) ops ∅ /\
  size_bytes c = map_sum mem_size (entries c) /\ (size_bytes c <= max)%N.
Proof.
  intros Hmax Hops c.
  assert (Hgen : forall ops c0, wf c0 -> Forall op_ok ops ->
    wf (fold_left step ops c0) /\ max_bytes (fold_left step ops c0) = max_bytes c0 /\
    entries (fold_left step ops c0) = fold_left (spec_step (max_bytes c0)) ops (entries c0)).
  { clear. intros ops. induction ops as [|o ops IH]; intros c0 Hc Ho; cbn; [done|].
    apply Forall_cons_1 in Ho as [Ho Hops].
    destruct (step_refines c0 o Hc Ho) as (Hw & Hm & He).
    destruct (IH _ Hw Hops) as (Hw' & Hm' & He'). rewrite He', Hm', Hm, He. done. }
  destruct (Hgen ops (new max) (wf_new max Hmax) Hops) as (Hw & Hm & He). subst c. destruct Hw. cbn in *.
  split_and!; [done|done|lia].
Qed.

Definition ex_entry (n : nat) (node : string) (at_ : N) : CacheEntry :=
  mkCacheEntry [repeat zero_byte n] [] [0] (N.of_nat n) "" "" 0 ∅ ∅ 0 at_ node.
Definition ex_ops : list Op :=
  [OInsert "b" "k1" (ex_entry 10 "n1" 0); OInsert "b" "k2" (ex_entry 10 "n2" 5);
   OInsert "b" "k3" (ex_entry 10 "n1" 7); OGet "b" "k1"; ODrainPrimary "n1" 5 6].

Lemma write_cache_refines_witness :
  map fst (map_to_list (entries (fold_left step ex_ops (new 290)))) = [("b", "k2")] /\
  (size_bytes (fold_left step ex_ops (new 290)) <= 290)%N.
Proof.
  assert (Hm : (290 < 2 ^ 63)%N) by lia.
  assert (Ho : Forall op_ok ex_ops).
  { repeat constructor; vm_compute; done. }
  destruct (write_cache_refines 290 ex_ops Hm Ho) as (He & _ & Hle). split; [|exact Hle].
  rewrite He. vm_compute. reflexivity.
Defined.

(** The flush task's drain hands over exactly the entries that are old enough and
    owned by this node (or by nobody), each once; every other entry, in particular a
    replica primary-owned by a peer, stays in the cache. *)
Theorem drain_primary_exact (c : WriteCache) (node : string) (age now : N) :
  wf c ->
  let r := drain_primary_older_than c node age now in
  r.2 ≡ₚ map_to_list (filter (fun e : CacheKey * CacheEntry => due node age now e.2 = true) (entries c)) /\
  entries r.1 = filter (fun e : CacheKey * CacheEntry => due node age now e.2 = false) (entries c) /\
  size_bytes r.1 = map_sum mem_size (entries r.1).
Proof.
  intros Hc r. destruct (drain_select_spec (due node age now) c Hc) as (Hw & _ & He & Hp).
  split; [exact Hp|]. split; [exact He|]. exact (wf_size _ Hw).
Qed.

Lemma drain_primary_exact_witness :
  exists c, base.size (entries c) = 2 /\ base.size (entries (drain_primary_older_than c "n1" 5 6).1) = 1.
Proof.
  exists (fold_left step (take 2 ex_ops) (new 1000)). split; [vm_compute; reflexivity|].
  assert (Hw : wf (fold_left step (take 2 ex_ops) (new 1000))).
  { constructor; vm_compute; done. }
  destruct (drain_primary_exact _ "n1" 5 6 Hw) as (_ & He & _). rewrite He. vm_compute. reflexivity.
Defined.

(** When the budget is exhausted, overwriting a cached key is refused and the
    previous value stays in the cache, even when replacing it would have fitted: the
    size of the entry to be replaced is not deducted before the check.  The caller
    then writes the new value to the disks while reads still find the old one. *)
Theorem full_insert_keeps_stale_entry :
  let c := (insert (new 200) "b" "k" (ex_entry 10 "n1" 0)).1 in
  let r := insert c "b" "k" (ex_entry 11 "n1" 1) in
  (mem_size (ex_entry 11 "n1" 1) <= 200)%N /\
  r.2 = false /\ (get r.1 "b" "k").2 = Some (ex_entry 10 "n1" 0).
Proof. vm_compute. split_and!; done. Qed.

End WriteCache.

(** ** The read cache *)

Module ReadCache.

Record CacheEntry : Type := mkCacheEntry {
  data : bytes;
  info : ObjectInfo;
}.

Definition mem_size (e : CacheEntry) : N :=
  let s := info e in
  N.of_nat (length (data e) + (String.length (info_bucket s) + String.length (info_key s)
    + String.length (info_etag s) + String.length (info_content_type s)
    + String.length (info_version_id s) + 128)).

(** [LruCache::unbounded]: the entries, most recently used first. *)
Abbreviation Lru := (list (CacheKey * CacheEntry)).

Record ReadCache : Type := mkReadCache {
  lru : Lru;
  size_bytes : N;
  max_bytes : N;
  max_object_bytes : N;
  hits : N;
  misses : N;
}.

Definition new (max max_object : N) : ReadCache := mkReadCache [] 0 max max_object 0 0.

Definition record_miss (c : ReadCache) : ReadCache :=
  mkReadCache (lru c) (size_bytes c) (max_bytes c) (max_object_bytes c) (hits c) (as_u64 (misses c + 1)).

Definition lru_find (k : CacheKey) (l : Lru) : option CacheEntry :=
  snd <$> List.find (fun e => bool_decide (e.1 = k)) l.
Definition lru_remove (k : CacheKey) (l : Lru) : Lru :=
  List.filter (fun e => negb (bool_decide (e.1 = k))) l.

Definition set_lru (l : Lru) (n : N) (c : ReadCache) : ReadCache :=
  mkReadCache l n (max_bytes c) (max_object_bytes c) (hits c) (misses c).

(** [LruCache::pop] with the bookkeeping of its callers. *)
Definition pop (k : CacheKey) (c : ReadCache) : ReadCache :=
  match lru_find k (lru c) with
  | Some old => set_lru (lru_remove k (lru c)) (u64_sat_sub (size_bytes c) (mem_size old)) c
  | None => c
  end.

Definition get (c : ReadCache) (b k : string) : ReadCache * option CacheEntry :=
  match lru_find (b, k) (lru c) with
  | Some e =>
      (mkReadCache (((b, k), e) :: lru_remove (b, k) (lru c)) (size_bytes c) (max_bytes c)
         (max_object_bytes c) (as_u64 (hits c + 1)) (misses c), Some e)
  | None => (c, None)
  end.

(** The eviction loop, from the least recently used end. *)
Fixpoint evict (rev_lru : Lru) (size max : N) : Lru * N :=
  if bool_decide (max < size)%N then
    match rev_lru with
    | (_, e) :: rest => evict rest (u64_sat_sub size (mem_size e)) max
    | [] => ([], size)
    end
  else (rev_lru, size).

Definition put (c : ReadCache) (b k : string) (e : CacheEntry) : ReadCache :=
  if bool_decide (max_object_bytes c < N.of_nat (length (data e)))%N || bool_decide (max_bytes c = 0%N)
  then c
  else
    let c := pop (b, k) c in
    let r := evict (rev (((b, k), e) :: lru c)) (as_u64 (size_bytes c + mem_size e)) (max_bytes c) in
    set_lru (rev r.1) r.2 c.

Definition invalidate (c : ReadCache) (b k : string) : ReadCache := pop (b, k) c.

Definition invalidate_bucket (c : ReadCache) (b : string) : ReadCache :=
  fold_left (fun c k => pop k c)
    (map fst (List.filter (fun e : CacheKey * CacheEntry => bool_decide (e.1.1 = b)) (lru c))) c.

Definition entry_count (c : ReadCache) : nat := length (lru c).

(** *** Accounting *)

Fixpoint lru_sum (l : Lru) : N :=
  match l with
  | [] => 0
  | (_, e) :: l => mem_size e + lru_sum l
  end%N.

Record wf (c : ReadCache) : Prop := {
  wf_keys : NoDup (map fst (lru c));
  wf_size : size_bytes c = lru_sum (lru c);
  wf_max : (size_bytes c <= max_bytes c)%N;
  wf_width : (max_bytes c < 2 ^ 63)%N;
}.

Lemma lru_find_Some k l e : lru_find k l = Some e -> (k, e) ∈ l.
Proof.
  unfold lru_find. induction l as [|[k' e'] l IH]; cbn; [done|].
  case_bool_decide as E; cbn; [intros [= ->]; cbn in E; subst; by left|]. intros H. right. by apply IH.
Qed.

Lemma lru_find_None k l : lru_find k l = None -> k ∉ map fst l.
Proof.
  unfold lru_find. induction l as [|[k' e'] l IH]; cbn; [set_solver|].
  case_bool_decide as E; cbn; [done|]. intros H. cbn in E. apply not_elem_of_cons. split; [congruence|].
  by apply IH.
Qed.

Lemma lru_remove_keys k l : map fst (lru_remove k l) `sublist_of` map fst l /\ k ∉ map fst (lru_remove k l).
Proof.
  unfold lru_remove. induction l as [|[k' e'] l [IH1 IH2]]; cbn; [split; [done|set_solver]|].
  case_bool_decide as E; cbn; cbn in E.
  - subst. split; [by constructor|done].
  - split; [by constructor|]. apply not_elem_of_cons. split; [congruence|done].
Qed.

Lemma lru_remove_sum k e l :
  NoDup (map fst l) -> lru_find k l = Some e -> lru_sum l = (mem_size e + lru_sum (lru_remove k l))%N.
Proof.
  unfold lru_find, lru_remove. induction l as [|[k' e'] l IH]; cbn; [done|]. intros Hnd.
  apply list.NoDup_cons in Hnd as [Hk Hnd]. case_bool_decide as E; cbn; cbn in E.
  - intros [= ->]. subst k'. f_equal. f_equal.
    clear -Hk. induction l as [|[k' e'] l IH]; cbn; [done|]. cbn in Hk. apply not_elem_of_cons in Hk as [Hne Hk].
    rewrite bool_decide_eq_false_2 by (cbn; congruence). cbn. f_equal. by apply IH.
  - intros Hf. rewrite (IH Hnd Hf). lia.
Qed.

Lemma wf_pop k c :
  wf c -> wf (pop k c) /\ k ∉ map fst (lru (pop k c)) /\ max_bytes (pop k c) = max_bytes c /\
    max_object_bytes (pop k c) = max_object_bytes c.
Proof.
  intros [Hk Hs Hm Hw]. unfold pop. destruct (lru_find k (lru c)) as [e|] eqn:E.
  - destruct (lru_remove_keys k (lru c)) as [Hsub Hni]. split_and!; try done.
    pose proof (lru_remove_sum k e _ Hk E) as Hsum. unfold u64_sat_sub.
    constructor; cbn; [by eapply sublist_NoDup|lia|lia|done].
  - split_and!; try done. by apply lru_find_None.
Qed.

Lemma lru_sum_app l1 l2 : lru_sum (l1 ++ l2) = (lru_sum l1 + lru_sum l2)%N.
Proof. induction l1 as [|[k e] l1 IH]; cbn; [done|]. rewrite IH. lia. Qed.

Lemma lru_sum_rev l : lru_sum (rev l) = lru_sum l.
Proof. induction l as [|[k e] l IH]; cbn; [done|]. rewrite lru_sum_app. cbn. lia. Qed.

(** Eviction drops the shortest run of least recently used entries that brings
    the cache within its budget. *)
Lemma evict_spec l n max :
  n = lru_sum l ->
  let r := evict l n max in
  (exists dropped, l = dropped ++ r.1) /\ r.2 = lru_sum r.1 /\ (r.2 <= max)%N /\
  (forall k e rest, l = rest ++ (k, e) :: r.1 -> (max < mem_size e + lru_sum r.1)%N).
Proof.
  revert n. induction l as [|[k e] l IH]; intros n Hn; cbn.
  - subst n. cbn. rewrite bool_decide_eq_false_2 by lia. split_and!; [by exists []|done|cbn; lia|].
    intros k e rest E. by destruct rest.
  - case_bool_decide as Hlt.
    + cbn in Hn. destruct (IH (u64_sat_sub n (mem_size e))) as ((d & Hd) & H2 & H3 & H4).
      { unfold u64_sat_sub. lia. }
      split_and!; [exists ((k, e) :: d); by rewrite Hd at 1|done|done|].
      intros k' e' rest E. destruct rest as [|x rest].
      * cbn in E. injection E as -> -> E. rewrite <- E. lia.
      * cbn in E. injection E as _ E. by eapply H4.
    + split_and!; [by exists []|by cbn|cbn; lia|]. intros k' e' rest E.
      apply (f_equal length) in E. rewrite length_app in E. simpl in E. lia.
Qed.

Lemma lru_remove_id k l : k ∉ map fst l -> lru_remove k l = l.
Proof.
  unfold lru_remove. induction l as [|[k' e'] l IH]; cbn; [done|]. intros Hk.
  apply not_elem_of_cons in Hk as [Hne Hk]. rewrite bool_decide_eq_false_2 by (cbn; congruence).
  cbn. f_equal. by apply IH.
Qed.

Lemma pop_lru k c : lru (pop k c) = lru_remove k (lru c).
Proof.
  unfold pop. destruct (lru_find k (lru c)) eqn:E; [done|]. symmetry. apply lru_remove_id.
  by apply lru_find_None.
Qed.

(** What a [put] that is not skipped leaves: a prefix, in recency order, of the
    new entry followed by the other entries. *)
Lemma put_spec c b k e :
  wf c -> (mem_size e < 2 ^ 63)%N ->
  bool_decide (max_object_bytes c < N.of_nat (length (data e)))%N || bool_decide (max_bytes c = 0%N) = false ->
  wf (put c b k e) /\ exists dropped,
    ((b, k), e) :: lru_remove (b, k) (lru c) = lru (put c b k e) ++ dropped /\
    (forall k' e' rest, dropped = (k', e') :: rest ->
       (max_bytes c < mem_size e' + size_bytes (put c b k e))%N).
Proof.
  intros Hc He Hs. unfold put. rewrite Hs. destruct (wf_pop (b, k) c Hc) as ([Hk Hz Hm Hw] & Hni & Hmax & _).
  set (l := ((b, k), e) :: lru (pop (b, k) c)).
  assert (Hn : as_u64 (size_bytes (pop (b, k) c) + mem_size e) = lru_sum (rev l)).
  { rewrite wrap_small, lru_sum_rev by lia. subst l. cbn. lia. }
  destruct (evict_spec (rev l) _ (max_bytes (pop (b, k) c)) Hn) as ((d & Hd) & Hsum & Hle & Hmin).
  set (r := evict (rev l) _ _) in *. clearbody r.
  assert (Hl : l = rev r.1 ++ rev d) by (rewrite <- rev_app_distr, <- Hd; by rewrite rev_involutive).
  assert (Hnd : NoDup (map fst l)) by (subst l; cbn; by constructor).
  split.
  - constructor; cbn; [|by rewrite lru_sum_rev|lia|congruence].
    rewrite Hl, map_app in Hnd. by apply list.NoDup_app in Hnd as [? _].
  - exists (rev d). split; [subst l; by rewrite <- pop_lru|]. cbn. rewrite <- Hmax.
    intros k' e' rest Er. rewrite Hsum. apply (Hmin k' e' (rev rest)). rewrite Hd.
    rewrite <- (rev_involutive d), Er. cbn. by rewrite <- app_assoc.
Qed.

Definition cacheable (c : ReadCache) (e : CacheEntry) : bool :=
  bool_decide (N.of_nat (length (data e)) <= max_object_bytes c)%N && bool_decide (mem_size e <= max_bytes c)%N.

Lemma mem_size_pos e : (128 <= mem_size e)%N.
Proof. unfold mem_size. lia. Qed.

(** A put of an object within the per-object limit and the budget is found by the
    next get; what else survives is a prefix, in recency order, of the previous
    entries with the replaced one removed; the eviction stops at the first point
    where the cache fits its budget (the next entry would exceed it); and the size
    counter stays the exact sum of the entries, within the budget. *)
Theorem read_cache_put (c : ReadCache) (b k : string) (e : CacheEntry) :
  wf c -> cacheable c e = true ->
  let c' := put c b k e in
  wf c' /\ (get c' b k).2 = Some e /\
  exists kept dropped,
    lru c' = ((b, k), e) :: kept /\ lru_remove (b, k) (lru c) = kept ++ dropped /\
    forall k' e' rest, dropped = (k', e') :: rest -> (max_bytes c < mem_size e' + size_bytes c')%N.
Proof.
  intros Hc Hok c'. unfold cacheable in Hok. apply andb_true_iff in Hok as [Hd Hm].
  apply bool_decide_eq_true in Hd, Hm. pose proof (mem_size_pos e) as Hpos. pose proof (wf_width c Hc) as Hw.
  destruct (put_spec c b k e Hc) as (Hwf & d & Hl & Hmin); [lia| |].
  { apply orb_false_iff. split; apply bool_decide_eq_false; lia. }
  fold c' in Hwf, Hl, Hmin. split; [done|]. destruct (lru c') as [|[k0 e0] kept] eqn:El.
  - exfalso. cbn in Hl. pose proof (Hmin _ _ _ (eq_sym Hl)) as Hlt. rewrite (wf_size _ Hwf), El in Hlt.
    cbn in Hlt. lia.
  - cbn in Hl. injection Hl as Hk0 He0 Hkept. subst k0 e0. split; [|by exists kept, d].
    unfold get, lru_find. rewrite El. cbn. by rewrite bool_decide_eq_true_2.
Qed.

Definition ex_entry (n : nat) : CacheEntry :=
  mkCacheEntry (repeat zero_byte n) (mkObjectInfo "b" "k" (N.of_nat n) "" "" 0 ∅ ∅ "" false).
Definition ex_cache : ReadCache :=
  put (put (new 300 100) "b" "k1" (ex_entry 10)) "b" "k2" (ex_entry 10).

Lemma wf_ex_cache : wf ex_cache.
Proof.
  constructor; [|vm_compute; done..]. vm_compute lru. cbn. repeat (constructor; [set_solver|]). constructor.
Qed.

Lemma read_cache_put_witness :
  wf ex_cache /\ (get (put ex_cache "b" "k3" (ex_entry 10)) "b" "k3").2 = Some (ex_entry 10) /\
  map fst (lru (put ex_cache "b" "k3" (ex_entry 10))) = [("b", "k3"); ("b", "k2")].
Proof.
  split; [exact wf_ex_cache|].
  destruct (read_cache_put ex_cache "b" "k3" (ex_entry 10) wf_ex_cache eq_refl) as (_ & Hg & _).
  split; [exact Hg|]. vm_compute. reflexivity.
Defined.

(** Dropping a bucket's entries removes exactly the entries of that bucket, keeps
    the others in their recency order, and keeps the size counter exact. *)
Theorem invalidate_bucket_exact (c : ReadCache) (b : string) :
  wf c ->
  lru (invalidate_bucket c b) = List.filter (fun e => negb (bool_decide (e.1.1 = b))) (lru c) /\
  wf (invalidate_bucket c b).
Proof.
  intros Hc. unfold invalidate_bucket.
  set (ks := map fst _).
  assert (Hfold : forall ks c0, wf c0 ->
    wf (fold_left (fun c k => pop k c) ks c0) /\
    lru (fold_left (fun c k => pop k c) ks c0)
      = List.filter (fun e => negb (bool_decide (e.1 ∈ ks))) (lru c0)).
  { clear. intros ks. induction ks as [|k ks IH]; intros c0 Hc; cbn.
    - split; [done|]. induction (lru c0) as [|x l IHl]; cbn; [done|]. by rewrite <- IHl at 1.
    - destruct (wf_pop k c0 Hc) as (Hc1 & _). destruct (IH _ Hc1) as (Hw & Hl). split; [done|].
      rewrite Hl, pop_lru. unfold lru_remove. clear. induction (lru c0) as [|x l IHl]; cbn; [done|].
      destruct (decide (x.1 = k)) as [->|Hne].
      + rewrite bool_decide_eq_true_2 by done. cbn. rewrite bool_decide_eq_true_2 by set_solver. cbn. done.
      + rewrite bool_decide_eq_false_2 by done. cbn.
        rewrite (bool_decide_ext (x.1 ∈ k :: ks) (x.1 ∈ ks)) by set_solver. by rewrite IHl. }
  destruct (Hfold ks c Hc) as (Hw & Hl). split; [|done]. rewrite Hl.
  apply List.filter_ext_in. intros x Hx. f_equal. apply bool_decide_ext. subst ks. split.
  - intros Hin. apply list_elem_of_In, in_map_iff in Hin as ([k0 e0] & Hk0 & Hf).
    apply filter_In in Hf as [_ Hf]. apply bool_decide_eq_true in Hf. cbn in *. by subst.
  - intros Hb. apply list_elem_of_In, in_map_iff. exists x. split; [done|]. apply filter_In.
    split; [done|]. by apply bool_decide_eq_true.
Qed.

Lemma invalidate_bucket_exact_witness :
  exists c, wf c /\ length (lru c) = 2 /\ lru (invalidate_bucket c "b") = [].
Proof.
  exists ex_cache.
  split; [exact wf_ex_cache|]. split; [reflexivity|].
  destruct (invalidate_bucket_exact ex_cache "b" wf_ex_cache) as [Hl _]. rewrite Hl. reflexivity.
Defined.

End ReadCache.
