(* ===== verification/Heal.v ===== *)
(** Healing: the queue of objects to repair ([src/heal/mrf.rs]), the scan state
    ([src/heal/scanner.rs]), the repair of one object, the drain worker and the
    scan cycle ([src/heal/worker.rs]).

    Mutexes are never poisoned here, so the branches that log a poisoned lock are
    left out.  The channel of the queue is the list of entries in it.  An
    [Instant] is a number of nanoseconds; a scan cycle is given the clock reading
    at each object it looks at. *)

From Stdlib Require Import Ascii.
From stdpp Require Import base list gmap strings numbers.
From S2P Require Import Prelude Metadata Pathing Placement Erasure Backend ErasureDecode ErasurePut.

(** ** The queue *)

Record MrfEntry : Type := mkMrfEntry {
  mrf_bucket : string;
  mrf_key : string;
}.

Global Instance MrfEntry_eq_dec : EqDecision MrfEntry.
Proof. solve_decision. Defined.

Global Instance MrfEntry_countable : Countable MrfEntry.
Proof.
  apply (inj_countable' (fun e => (mrf_bucket e, mrf_key e)) (fun p => mkMrfEntry p.1 p.2)).
  by intros [].
Defined.

(** The receiver is held by the queue, by the worker, or dropped. *)
Inductive Receiver : Type := InQueue | Taken | Dropped.

Global Instance Receiver_eq_dec : EqDecision Receiver.
Proof. solve_decision. Defined.

Record MrfQueue : Type := mkMrfQueue {
  chan : list MrfEntry;
  rx : Receiver;
  seen : gset MrfEntry;
  capacity : nat;
}.

Definition mrf_new (capacity : nat) : MrfQueue := mkMrfQueue [] InQueue ∅ capacity.

Inductive EnqueueError : Type := QueueFull | QueueClosed.

Definition enqueue (q : MrfQueue) (e : MrfEntry) : MrfQueue * result EnqueueError unit :=
  if bool_decide (e ∈ seen q) then (q, Ok tt)
  else
    match rx q with
    | Dropped => (q, Err QueueClosed)
    | _ =>
        if bool_decide (length (chan q) < capacity q)
        then (mkMrfQueue (chan q ++ [e]) (rx q) ({[e]} ∪ seen q) (capacity q), Ok tt)
        else (q, Err QueueFull)
    end.

Definition take_receiver (q : MrfQueue) : MrfQueue * bool :=
  match rx q with
  | InQueue => (mkMrfQueue (chan q) Taken (seen q) (capacity q), true)
  | _ => (q, false)
  end.

(** [rx.recv()]: the oldest entry. *)
Definition recv (q : MrfQueue) : option (MrfEntry * MrfQueue) :=
  match chan q with
  | [] => None
  | e :: es => Some (e, mkMrfQueue es (rx q) (seen q) (capacity q))
  end.

Definition mark_done (q : MrfQueue) (e : MrfEntry) : MrfQueue :=
  mkMrfQueue (chan q) (rx q) (seen q ∖ {[e]}) (capacity q).

(** The worker ends and its receiver with it: the channel is closed and the entries
    nobody received are gone, while the dedup set keeps them. *)
Definition drop_receiver (q : MrfQueue) : MrfQueue := mkMrfQueue [] Dropped (seen q) (capacity q).

Definition pending_count (q : MrfQueue) : nat := base.size (seen q).

(** ** The scan state *)

Record ScanState : Type := mkScanState {
  last_checked : gmap string N;
  heal_interval : N;
}.

Definition scan_new (interval : N) : ScanState := mkScanState ∅ interval.

Definition scan_key (bucket key : string) : string := bucket +:+ "/" +:+ key.

Definition should_scan (s : ScanState) (bucket key : string) (now : N) : bool :=
  match last_checked s !! scan_key bucket key with
  | Some last => bool_decide (heal_interval s <= now - last)%N
  | None => true
  end.

Definition mark_checked (s : ScanState) (bucket key : string) (now : N) : ScanState :=
  mkScanState (<[scan_key bucket key := now]> (last_checked s)) (heal_interval s).

Definition checked_count (s : ScanState) : nat := base.size (last_checked s).

(** ** Repairing one object *)

(** The part of the [Backend] trait that healing uses beyond reading a shard. *)
Class HealBackend (B : Type) : Type := {
  write_shard : B -> string -> string -> bytes -> ObjectMeta -> B * Result unit;
  info_volume_id : B -> string;
  list_buckets : B -> Result (list string);
  list_objects : B -> string -> string -> Result (list string);
}.

Inductive HealResult : Type :=
  | Healthy
  | Repaired (shards_fixed : nat)
  | Unrecoverable.

Inductive ShardStatus : Type := Good | NeedsRepair.

Global Instance ShardStatus_eq_dec : EqDecision ShardStatus.
Proof. solve_decision. Defined.

Abbreviation Reads := (list (option (bytes * ObjectMeta))).

Definition metas_of (reads : Reads) : list ObjectMeta := map snd (omap id reads).

(** The groups of equal metadata, in order of appearance, with their sizes. *)
Fixpoint add_to_groups (groups : list (ObjectMeta * nat)) (m : ObjectMeta) : list (ObjectMeta * nat) :=
  match groups with
  | [] => [(m, 1)]
  | g :: groups => if quorum_eq g.1 m then (g.1, S g.2) :: groups else g :: add_to_groups groups m
  end.

(** The stable [groups.sort_by(|a, b| b.1.cmp(&a.1))]. *)
Fixpoint insert_group (g : ObjectMeta * nat) (l : list (ObjectMeta * nat)) : list (ObjectMeta * nat) :=
  match l with
  | [] => [g]
  | h :: l' => if bool_decide (h.2 <= g.2) then g :: l else h :: insert_group g l'
  end.

Definition sort_groups (l : list (ObjectMeta * nat)) : list (ObjectMeta * nat) :=
  foldr insert_group [] l.

Definition find_consensus_meta (reads : Reads) (data_n : nat) : Result ObjectMeta :=
  let metas := metas_of reads in
  if bool_decide (metas = []) then Err ObjectNotFound
  else
    match sort_groups (fold_left add_to_groups metas []) with
    | [] => Err ReadQuorum
    | (best_meta, count) :: _ =>
        if bool_decide (count < data_n) then Err ReadQuorum else Ok best_meta
    end.

Section HealObject.
  Context `{Hashes} `{ReedSolomon} {B W : Type} `{!Backend B W} `{!HealBackend B}.

(** A read that agrees with the consensus and passes its checksum. *)
Definition agrees (consensus : ObjectMeta) (total : nat) (data : bytes) (meta : ObjectMeta) : bool :=
  bool_decide (index (erasure meta) < total) && quorum_eq meta consensus
  && verify_shard_checksum data (checksum meta).

(** Step 3: a slot is good when it is filled. *)
Definition classify (consensus : ObjectMeta) (total : nat) (reads : Reads) : list (option bytes) :=
  fold_left (fun slots read =>
      match read with
      | Some (data, meta) =>
          if agrees consensus total data meta
          then <[index (erasure meta) := Some data]> slots else slots
      | None => slots
      end) reads (replicate total None).

Definition status_of (slot : option bytes) : ShardStatus :=
  match slot with Some _ => Good | None => NeedsRepair end.

(** The volume map: a later disk with the same id wins. *)
Definition vol_map (disks : list B) : gmap string nat :=
  list_to_map (rev (imap (fun i d => (info_volume_id d, i)) disks)).

Definition target_disk (disks : list B) (consensus : ObjectMeta) (shard_idx : nat) : nat :=
  default shard_idx (volume_ids (erasure consensus) !! shard_idx ≫= fun vid => vol_map disks !! vid).

(** Step 5: write the shards that need repair, in order. *)
Fixpoint write_repairs (disks : list B) (consensus : ObjectMeta) (bucket key : string)
    (statuses : list ShardStatus) (shard_data : list (option bytes)) (shard_idx fixed : nat)
    (target : nat -> nat) : list B * nat :=
  match statuses, shard_data with
  | NeedsRepair :: statuses, slot :: shard_data =>
      let disk_idx := target shard_idx in
      match slot, disks !! disk_idx with
      | Some data, Some d =>
          let meta := with_shard shard_idx (blake3_hex data) consensus in
          let r := write_shard d bucket key data meta in
          write_repairs (<[disk_idx := r.1]> disks) consensus bucket key statuses shard_data
            (S shard_idx) (if is_ok r.2 then S fixed else fixed) target
      | _, _ =>
          write_repairs disks consensus bucket key statuses shard_data (S shard_idx) fixed target
      end
  | Good :: statuses, _ :: shard_data =>
      write_repairs disks consensus bucket key statuses shard_data (S shard_idx) fixed target
  | _, _ => (disks, fixed)
  end.

Definition heal_reads (disks : list B) (bucket key : string) : Reads :=
  map (fun d => result_ok (read_shard d bucket key)) disks.

(** Steps 1 to 4: what there is to write, or the verdict. *)
Definition heal_plan (reads : Reads)
    : Result (ObjectMeta * list (option bytes) * list (option bytes) + HealResult) :=
  first_meta ← ok_or (head (metas_of reads)) ObjectNotFound;
  let data_n := erasure_data (erasure first_meta) in
  let parity_n := erasure_parity (erasure first_meta) in
  let total := data_n + parity_n in
  consensus ← find_consensus_meta reads data_n;
  let slots := classify consensus total reads in
  let good_count := good_count slots in
  let needs_repair := length (List.filter (fun s => bool_decide (s = NeedsRepair)) (map status_of slots)) in
  if bool_decide (needs_repair = 0) then Ok (inr Healthy)
  else if bool_decide (good_count < data_n) then Ok (inr Unrecoverable)
  else
    shard_data ← (if bool_decide (0 < parity_n) then
                    if rs_new_ok data_n parity_n
                    then ok_or (rs_reconstruct data_n parity_n slots) ReadQuorum
                    else Err (InvalidConfig "reed-solomon")
                  else Ok slots);
    Ok (inl (consensus, slots, shard_data)).

Definition heal_object (disks : list B) (bucket key : string) : list B * Result HealResult :=
  match _ ← validate_bucket_name bucket;
        _ ← validate_object_key key;
        heal_plan (heal_reads disks bucket key) with
  | Err e => (disks, Err e)
  | Ok (inr verdict) => (disks, Ok verdict)
  | Ok (inl (consensus, slots, shard_data)) =>
      let r := write_repairs disks consensus bucket key (map status_of slots) shard_data 0 0
                 (target_disk disks consensus) in
      (r.1, Ok (Repaired r.2))
  end.

(** ** The worker *)

(** One round of [mrf_drain_worker]: receive, heal, mark. *)
Definition drain_one (disks : list B) (q : MrfQueue)
    : option (list B * MrfQueue * MrfEntry * Result HealResult) :=
  match recv q with
  | None => None
  | Some (e, q) =>
      let r := heal_object disks (mrf_bucket e) (mrf_key e) in
      Some (r.1, mark_done q e, e, r.2)
  end.

(** ** The scanner *)

Definition object_needs_healing (disks : list B) (bucket key : string) : bool :=
  match omap (fun d => result_ok (stat_object d bucket key)) disks with
  | [] => false
  | meta :: _ =>
      let total := erasure_data (erasure meta) + erasure_parity (erasure meta) in
      let good := length (List.filter (fun d =>
        match read_shard d bucket key with
        | Ok (data, disk_meta) => agrees meta total data disk_meta
        | Err _ => false
        end) disks) in
      bool_decide (good < total)
  end.

Definition scan_object (disks : list B) (clock : string -> string -> N) (bucket : string)
    (st : MrfQueue * ScanState) (key : string) : MrfQueue * ScanState :=
  let now := clock bucket key in
  if negb (should_scan st.2 bucket key now) then st
  else
    let q := if object_needs_healing disks bucket key
             then (enqueue st.1 (mkMrfEntry bucket key)).1 else st.1 in
    (q, mark_checked st.2 bucket key now).

Definition scan_bucket (disks : list B) (clock : string -> string -> N)
    (st : MrfQueue * ScanState) (bucket : string) : MrfQueue * ScanState :=
  match disks with
  | [] => st
  | d :: _ =>
      match list_objects d bucket "" with
      | Err _ => st
      | Ok keys => fold_left (scan_object disks clock bucket) keys st
      end
  end.

Definition run_scan_cycle (disks : list B) (clock : string -> string -> N)
    (st : MrfQueue * ScanState) : MrfQueue * ScanState :=
  match disks with
  | [] => st
  | d :: _ =>
      match list_buckets d with
      | Err _ => st
      | Ok buckets => fold_left (scan_bucket disks clock) buckets st
      end
  end.

End HealObject.

(** ** Lemmas: the consensus *)

Definition votes (metas : list ObjectMeta) (m : ObjectMeta) : nat :=
  length (List.filter (quorum_eq m) metas).

Lemma votes_snoc ms x m : votes (ms ++ [x]) m = votes ms m + if quorum_eq m x then 1 else 0.
Proof. unfold votes. rewrite List.filter_app, length_app. cbn. by destruct (quorum_eq m x). Qed.

Lemma votes_ext ms m m' : quorum_key m = quorum_key m' -> votes ms m = votes ms m'.
Proof.
  intros E. unfold votes. f_equal. apply List.filter_ext. intros x. apply eq_true_iff_eq.
  rewrite !quorum_eq_key. by rewrite E.
Qed.

(** The metadata a group stands for. *)
Abbreviation gkey := (fun g : ObjectMeta * nat => quorum_key g.1).

Lemma elem_gkey g G : g ∈ G -> quorum_key g.1 ∈ map gkey G.
Proof. apply (list_elem_of_fmap_2 gkey). Qed.

(** The groups count the votes of their representatives and cover everyone. *)
Record groups_ok (ms : list ObjectMeta) (G : list (ObjectMeta * nat)) : Prop := {
  groups_count : forall g, g ∈ G -> g.2 = votes ms g.1 /\ g.1 ∈ ms;
  groups_cover : forall m, m ∈ ms -> exists g, g ∈ G /\ quorum_key g.1 = quorum_key m;
  groups_distinct : NoDup (map gkey G);
}.

Lemma add_to_groups_shape G m :
  (exists G1 g G2, G = G1 ++ g :: G2 /\ quorum_key g.1 = quorum_key m /\
     add_to_groups G m = G1 ++ (g.1, S g.2) :: G2) \/
  (quorum_key m ∉ map gkey G /\ add_to_groups G m = G ++ [(m, 1)]).
Proof.
  induction G as [|g G IH]; cbn; [right; set_solver|].
  destruct (quorum_eq g.1 m) eqn:E.
  - left. exists [], g, G. by apply quorum_eq_key in E.
  - assert (Hne : quorum_key m <> quorum_key g.1).
    { intros Hk. symmetry in Hk. apply quorum_eq_key in Hk. congruence. }
    destruct IH as [(G1 & h & G2 & -> & Hk & ->)|[Hn ->]].
    + left. by exists (g :: G1), h, G2.
    + right. split; [|done]. by apply not_elem_of_cons.
Qed.

Lemma quorum_eq_false a b : quorum_key a <> quorum_key b -> quorum_eq a b = false.
Proof. intros Hn. destruct (quorum_eq a b) eqn:E; [|done]. by apply quorum_eq_key in E. Qed.

Lemma votes_none ms m : (forall x, x ∈ ms -> quorum_key m <> quorum_key x) -> votes ms m = 0.
Proof.
  unfold votes. induction ms as [|x ms IH]; intros Hn; [done|]. cbn.
  rewrite quorum_eq_false by (apply Hn; by left). apply IH. intros y Hy. apply Hn. by right.
Qed.

(** A group of another metadata keeps its count. *)
Lemma group_count_other ms m h :
  h.2 = votes ms h.1 /\ h.1 ∈ ms -> quorum_key h.1 <> quorum_key m ->
  h.2 = votes (ms ++ [m]) h.1 /\ h.1 ∈ ms ++ [m].
Proof.
  intros [Hc Hin] Hne. rewrite votes_snoc, quorum_eq_false by done. split; [lia|apply elem_of_app; by left].
Qed.

Lemma bump_group_ok ms m G1 g G2 :
  groups_ok ms (G1 ++ g :: G2) -> quorum_key g.1 = quorum_key m ->
  groups_ok (ms ++ [m]) (G1 ++ (g.1, S g.2) :: G2).
Proof.
  intros [Hc Hv Hd] Hk. rewrite map_app in Hd. cbn in Hd.
  assert (Hdis := Hd). apply list.NoDup_app in Hdis as (_ & Hd1 & [Hd2 _]%list.NoDup_cons). split.
  - intros h Hh. apply elem_of_app in Hh as [Hh|Hh%elem_of_cons]; [|destruct Hh as [->|Hh]].
    + apply group_count_other; [apply Hc, elem_of_app; auto using list_elem_of_here, list_elem_of_further|]. rewrite <- Hk. intros E.
      apply (Hd1 _ (elem_gkey h G1 Hh)). rewrite E. by left.
    + cbn. destruct (Hc g ltac:(apply elem_of_app; right; by left)) as [Hx Hy]. rewrite votes_snoc.
      rewrite (proj2 (quorum_eq_key g.1 m) Hk). split; [lia|apply elem_of_app; by left].
    + apply group_count_other; [apply Hc, elem_of_app; auto using list_elem_of_here, list_elem_of_further|]. rewrite <- Hk. intros E.
      apply Hd2. rewrite <- E. by apply elem_gkey.
  - intros x Hx. apply elem_of_app in Hx as [Hx|Hx%list_elem_of_singleton].
    + destruct (Hv x Hx) as (h & Hh & E). destruct (decide (h = g)) as [->|Hne].
      * exists (g.1, S g.2). split; [apply elem_of_app; right; by left|done].
      * exists h. split; [|done]. rewrite elem_of_app, elem_of_cons in Hh |- *. tauto.
    + subst x. exists (g.1, S g.2). split; [apply elem_of_app; right; by left|done].
  - by rewrite map_app.
Qed.

Lemma new_group_ok ms m G :
  groups_ok ms G -> quorum_key m ∉ map gkey G -> groups_ok (ms ++ [m]) (G ++ [(m, 1)]).
Proof.
  intros [Hc Hv Hd] Hn. split.
  - intros h Hh. apply elem_of_app in Hh as [Hh| ->%list_elem_of_singleton].
    + apply group_count_other; [by apply Hc|]. intros E. apply Hn. rewrite <- E. by apply elem_gkey.
    + cbn. rewrite votes_snoc, quorum_eq_refl. split; [|apply elem_of_app; right; by left].
      rewrite votes_none; [done|]. intros x Hx E.
      destruct (Hv x Hx) as (h & Hh & Eh). apply Hn. rewrite E, <- Eh. by apply elem_gkey.
  - intros x Hx. apply elem_of_app in Hx as [Hx| ->%list_elem_of_singleton].
    + destruct (Hv x Hx) as (h & Hh & E). exists h. split; [by apply elem_of_app; left|done].
    + exists (m, 1). split; [apply elem_of_app; right; by left|done].
  - rewrite map_app. apply list.NoDup_app. split_and!; [done| |apply NoDup_singleton].
    by intros x Hx ->%list_elem_of_singleton.
Qed.

Lemma add_to_groups_ok ms G m : groups_ok ms G -> groups_ok (ms ++ [m]) (add_to_groups G m).
Proof.
  intros HG. destruct (add_to_groups_shape G m) as [(G1 & g & G2 & -> & Hk & ->)|[Hn ->]].
  - by apply bump_group_ok.
  - by apply new_group_ok.
Qed.

Lemma groups_of_ok ms : groups_ok ms (fold_left add_to_groups ms []).
Proof.
  induction ms as [|m ms IH] using rev_ind.
  - split; [set_solver|set_solver|constructor].
  - rewrite fold_left_app. by apply add_to_groups_ok.
Qed.

Lemma insert_group_perm g l : insert_group g l ≡ₚ g :: l.
Proof.
  induction l as [|h l IH]; cbn; [done|]. case_bool_decide; [done|].
  rewrite IH. apply Permutation_swap.
Qed.

Lemma sort_groups_perm l : sort_groups l ≡ₚ l.
Proof. induction l as [|g l IH]; cbn; [done|]. by rewrite insert_group_perm, IH. Qed.

Lemma sort_groups_max l g rest :
  sort_groups l = g :: rest -> forall h, h ∈ l -> h.2 <= g.2.
Proof.
  revert g rest. induction l as [|x l IH]; intros g rest E h Hh; [done|].
  cbn [sort_groups foldr] in E. fold (sort_groups l) in E.
  apply elem_of_cons in Hh. destruct (sort_groups l) as [|y ys] eqn:Es.
  - cbn in E. injection E as <- <-. destruct Hh as [->|Hh]; [done|].
    rewrite <- sort_groups_perm, Es in Hh. set_solver.
  - cbn in E. specialize (IH y ys eq_refl). case_bool_decide; injection E as <- _.
    + destruct Hh as [->|Hh]; [done|]. specialize (IH h Hh). lia.
    + destruct Hh as [->|Hh]; [lia|]. by apply IH.
Qed.

(** What [find_consensus_meta] answers, in terms of the votes. *)
Definition consensus_spec (ms : list ObjectMeta) (data_n : nat) (r : Result ObjectMeta) : Prop :=
  match r with
  | Ok m => m ∈ ms /\ data_n <= votes ms m /\ forall m', m' ∈ ms -> votes ms m' <= votes ms m
  | Err ObjectNotFound => ms = []
  | Err ReadQuorum => ms <> [] /\ forall m, m ∈ ms -> votes ms m < data_n
  | Err _ => False
  end.

Lemma find_consensus_spec reads data_n :
  consensus_spec (metas_of reads) data_n (find_consensus_meta reads data_n).
Proof.
  unfold find_consensus_meta. case_bool_decide as Hne; [done|].
  destruct (groups_of_ok (metas_of reads)) as [Hc Hv _].
  pose proof (sort_groups_max (fold_left add_to_groups (metas_of reads) [])) as Hmax.
  pose proof (sort_groups_perm (fold_left add_to_groups (metas_of reads) [])) as Hp.
  destruct (sort_groups _) as [|[best count] rest].
  - apply Permutation_nil_l in Hp. destruct (metas_of reads) as [|m ms]; [done|].
    destruct (Hv m) as (g & Hg & _); [by left|]. rewrite <- Hp in Hg. set_solver.
  - destruct (Hc (best, count)) as [Hcount Hin]; [rewrite <- Hp; by left|]. cbn in Hcount, Hin.
    assert (Hall : forall m, m ∈ metas_of reads -> votes (metas_of reads) m <= count).
    { intros m Hm. destruct (Hv m Hm) as (g & Hg & E). rewrite <- (votes_ext _ _ _ E).
      rewrite <- (proj1 (Hc g Hg)). exact (Hmax _ _ eq_refl g Hg). }
    case_bool_decide; cbn.
    + split; [done|]. intros m Hm. specialize (Hall m Hm). lia.
    + split_and!; [done|lia|]. rewrite <- Hcount. exact Hall.
Qed.

(** ** Lemmas: codewords *)

(** Reed-Solomon over GF(2^8) codes every byte position of the shards on its own,
    so the shards of two inputs can be concatenated. *)
Class ReedSolomonBytewise `{ReedSolomon} : Prop := rs_bytewise :
  forall dn pn len1 len2 l1 l2 s1 s2,
    rs_new_ok dn pn = true -> length l1 = dn + pn -> length l2 = dn + pn ->
    Forall (fun s => length s = len1) l1 -> Forall (fun s => length s = len2) l2 ->
    rs_encode dn pn l1 = Some s1 -> rs_encode dn pn l2 = Some s2 ->
    rs_encode dn pn (zip_with app l1 l2) = Some (zip_with app s1 s2).

Section Codeword.
  Context `{ReedSolomon} `{!ReedSolomonOk}.
  Variables (dn pn : nat).

(** A full set of shards, of any common length. *)
Record codeword (len : nat) (shards : list bytes) : Prop := {
  cw_length : length shards = dn + pn;
  cw_sizes : Forall (fun s => length s = len) shards;
  cw_pos : 0 < len;
  cw_parity : 0 < pn ->
    rs_encode dn pn (take dn shards ++ replicate pn (replicate len zero_byte)) = Some shards;
}.

Lemma coded_codeword data shards :
  coded dn pn data shards -> codeword (shard_size (length data) dn) shards.
Proof.
  intros [Hl Hs Hd Hp]. split; [done|done|apply shard_size_pos|]. by rewrite Hd.
Qed.

Lemma codeword_app `{!ReedSolomonBytewise} len1 len2 s1 s2 :
  (0 < pn -> rs_new_ok dn pn = true) ->
  codeword len1 s1 -> codeword len2 s2 -> codeword (len1 + len2) (zip_with app s1 s2).
Proof.
  intros Hrs [Hl1 Hf1 Hp1 He1] [Hl2 Hf2 Hp2 He2]. split.
  - rewrite length_zip_with. lia.
  - clear -Hf1 Hf2. revert s2 Hf2. induction Hf1 as [|x s1 Hx Hf1 IH]; intros [|y s2] Hf2; cbn; constructor.
    + inversion Hf2; subst. by rewrite length_app.
    + apply IH. by inversion Hf2.
  - lia.
  - intros Hpn. rewrite zip_with_take, (replicate_add len1 len2).
    rewrite <- (zip_with_replicate app pn (replicate len1 zero_byte) (replicate len2 zero_byte)).
    rewrite <- zip_with_app by lens.
    eapply rs_bytewise; [by apply Hrs|..|by apply He1|by apply He2];
      try lens.
    + apply Forall_app. split; [by apply Forall_take|]. apply Forall_replicate, length_replicate.
    + apply Forall_app. split; [by apply Forall_take|]. apply Forall_replicate, length_replicate.
Qed.

(** The shard files of a body of any number of blocks are a codeword. *)
Lemma blocks_codeword `{!ReedSolomonBytewise} bl bss :
  (0 < pn -> rs_new_ok dn pn = true) ->
  bl <> [] -> Forall2 (coded dn pn) bl bss ->
  exists len, codeword len (join_blocks (dn + pn) bss).
Proof.
  intros Hrs Hne Hco. induction Hco as [|b cur bl bss Hc Hco IH]; [done|].
  rewrite join_blocks_cons. pose proof (coded_codeword _ _ Hc) as Hcw. destruct bl as [|b' bl].
  - inversion Hco; subst. exists (shard_size (length b) dn). unfold join_blocks. cbn [foldr].
    rewrite zip_app_nil by apply (cw_length _ _ Hcw). done.
  - destruct (IH ltac:(done)) as (len & Hl). eexists. by apply codeword_app.
Qed.

Lemma codeword_reconstruct len shards slots :
  0 < pn -> rs_new_ok dn pn = true -> codeword len shards -> erased shards slots ->
  dn <= good_count slots -> rs_reconstruct dn pn slots = Some (map Some shards).
Proof.
  intros Hpn Hrs [Hl Hs Hp He] Her Hg.
  eapply (rs_reconstruct_ok dn pn len (take dn shards) (replicate pn (replicate len zero_byte)));
    try done; [rewrite length_take; lia|apply length_replicate|by apply Forall_take| |by apply He].
  apply Forall_replicate, length_replicate.
Qed.

End Codeword.

Global Instance xor_code_bytewise : @ReedSolomonBytewise xor_code.
Proof.
  intros dn pn len1 len2 l1 l2 s1 s2 Hok Hl1 Hl2 Hf1 Hf2 E1 E2. cbn in *.
  apply andb_true_iff in Hok as [Hdn%bool_decide_eq_true _].
  injection E1 as <-. injection E2 as <-. f_equal.
  destruct l1 as [|x l1]; [simpl in *; lia|]. destruct l2 as [|y l2]; [simpl in *; lia|].
  inversion Hf1 as [|? ? Hx _]; inversion Hf2 as [|? ? Hy _]; subst.
  cbn [zip_with nth]. rewrite length_app.
  change ((x ++ y) :: zip_with app l1 l2) with (zip_with app (x :: l1) (y :: l2)).
  set (a := x :: l1) in *. set (b := y :: l2) in *.
  rewrite zip_with_take, (zip_with_app app (take dn a) [_] (take dn b) [_]) by lens.
  f_equal. cbn [zip_with]. f_equal.
  assert (Hlen : length (take dn a) = length (take dn b)) by lens.
  apply (Forall_take _ dn) in Hf1, Hf2. revert Hlen Hf1 Hf2.
  generalize (take dn a) (take dn b) (length x) (length y). clear.
  intros u v m n. revert v. induction u as [|p u IH]; intros [|q v] Hl Hf1 Hf2; try done.
  - cbn. apply replicate_add.
  - inversion Hf1 as [|? ? Hp Hf1']; inversion Hf2 as [|? ? Hq Hf2']; subst. cbn [zip_with xor_all foldr].
    change (foldr xor_bytes (replicate (length p + length q) zero_byte) (zip_with app u v))
      with (xor_all (length p + length q) (zip_with app u v)).
    rewrite IH by (done || by injection Hl). unfold xor_bytes at 1.
    apply zip_with_app. symmetry. by apply length_xor_all.
Qed.

(** ** Lemmas: classification *)

Section Classify.
  Context `{Hashes} `{ReedSolomon} {B W : Type} `{!Backend B W} `{!HealBackend B}.

Definition agreeing (C : ObjectMeta) (total : nat) (reads : Reads) (i : nat) (data : bytes) : Prop :=
  exists meta, Some (data, meta) ∈ reads /\ agrees C total data meta = true /\ index (erasure meta) = i.

Lemma agrees_index C total data meta : agrees C total data meta = true -> index (erasure meta) < total.
Proof. unfold agrees. rewrite !andb_true_iff, bool_decide_eq_true. tauto. Qed.

(** What the slot of shard [i] says about the reads. *)
Definition slot_ok (C : ObjectMeta) (total : nat) (reads : Reads) (i : nat)
    (slot : option (option bytes)) : Prop :=
  match slot with
  | Some (Some data) => agreeing C total reads i data
  | Some None => forall data, ~ agreeing C total reads i data
  | None => False
  end.

(** A read that does not speak for shard [i] leaves its slot right. *)
Lemma slot_ok_snoc C total reads r i slot :
  (forall data meta, r = Some (data, meta) -> agrees C total data meta = true ->
     index (erasure meta) <> i) ->
  slot_ok C total reads i slot -> slot_ok C total (reads ++ [r]) i slot.
Proof.
  intros Hno. destruct slot as [[data|]|]; cbn; [| |done].
  - intros (m & Hm & Hr). exists m. split; [by apply elem_of_app; left|done].
  - intros Hn data (m & [Hm|Hm%list_elem_of_singleton]%elem_of_app & Ha & Hi).
    + apply (Hn data). by exists m.
    + by eapply Hno.
Qed.

(** A slot is filled exactly when some read agrees on it, with such a read. *)
Lemma classify_spec C total reads :
  length (classify C total reads) = total /\
  forall i, i < total -> slot_ok C total reads i (classify C total reads !! i).
Proof.
  unfold classify. induction reads as [|r reads IH] using rev_ind.
  { split; [apply length_replicate|]. intros i Hi. cbn. rewrite lookup_replicate_2 by done.
    intros data (m & Hm & _). set_solver. }
  rewrite fold_left_app. cbn [fold_left]. set (slots := fold_left _ reads _) in *.
  destruct IH as [Hl Hs]. destruct r as [[data meta]|]; [destruct (agrees C total data meta) eqn:Ea|].
  - rewrite length_insert. split; [done|]. intros i Hi.
    destruct (decide (index (erasure meta) = i)) as [<-|Hne].
    + rewrite list_lookup_insert_eq by lia. exists meta. split; [|done]. apply elem_of_app. right. by left.
    + rewrite list_lookup_insert_ne by done. apply slot_ok_snoc; [naive_solver|by apply Hs].
  - split; [done|]. intros i Hi. apply slot_ok_snoc; [|by apply Hs]. intros d m [= -> ->]. congruence.
  - split; [done|]. intros i Hi. by apply slot_ok_snoc; [|by apply Hs].
Qed.

(** Authentic agreeing reads leave a part of the true shards. *)
Lemma classify_erased C total reads shards :
  length shards = total ->
  (forall i data, agreeing C total reads i data -> shards !! i = Some data) ->
  erased shards (classify C total reads).
Proof.
  intros Hlen Hauth. destruct (classify_spec C total reads) as [Hl Hs].
  apply Forall2_lookup. intros i. destruct (decide (i < total)) as [Hi|Hi].
  - specialize (Hs i Hi). destruct (lookup_lt_is_Some_2 shards i ltac:(lia)) as [s Hsi]. rewrite Hsi.
    destruct (classify C total reads !! i) as [[data|]|]; [|by constructor; left|done].
    apply Hauth in Hs. rewrite Hs in Hsi. injection Hsi as ->. constructor. by right.
  - rewrite !lookup_ge_None_2 by lia. constructor.
Qed.

End Classify.

(** ** Lemmas: writing the repairs *)

(** What a repair relies on.  [writable d b k]: the volume takes shards of this object.
    A write of an unversioned shard is then read back, keeps the object writable and the
    volume's identity, which no use of a writer changes. *)
Class HealBackendOk (B W : Type) `{Backend B W} `{!HealBackend B} : Type := {
  writable : B -> string -> string -> Prop;
  write_shard_ok : forall d b k data meta, writable d b k -> plain_meta meta -> exists d',
    write_shard d b k data meta = (d', Ok tt) /\ writable d' b k /\
    read_shard d' b k = Ok (data, meta) /\ info_volume_id d' = info_volume_id d;
  open_volume_id : forall d b k v, info_volume_id (open_shard_writer d b k v).1 = info_volume_id d;
  write_volume_id : forall d w c, info_volume_id (write_chunk d w c).1 = info_volume_id d;
  finalize_volume_id : forall d w meta, info_volume_id (finalize d w meta).1 = info_volume_id d;
}.

Lemma with_shard_plain i h m : plain_meta m -> plain_meta (with_shard i h m).
Proof. done. Qed.

Lemma needs_repair_count slots :
  length (List.filter (fun s => bool_decide (s = NeedsRepair)) (map status_of slots))
  = length slots - good_count slots.
Proof.
  induction slots as [|o slots IH]; [done|]. rewrite good_count_cons. pose proof (good_count_le slots).
  cbn [map List.filter length]. destruct o; cbn [status_of].
  - rewrite bool_decide_eq_false_2 by done. lia.
  - rewrite bool_decide_eq_true_2 by done. cbn [length]. lia.
Qed.

Section Repairs.
  Context `{Hashes} `{ReedSolomon} {B W : Type} `{!Backend B W} `{!HealBackend B} `{!HealBackendOk B W}.
  Variables (b k : string) (C : ObjectMeta) (target : nat -> nat).

(** The missing shards are written to their disks and no other disk changes. *)
Lemma write_repairs_ok slots ss disks j fixed :
  length slots = length ss -> plain_meta C -> Forall (fun d => writable d b k) disks ->
  (forall i, i < length ss -> target (j + i) < length disks) ->
  (forall i i', i < length ss -> i' < length ss -> target (j + i) = target (j + i') -> i = i') ->
  let r := write_repairs disks C b k (map status_of slots) (map Some ss) j fixed target in
  r.2 = fixed + (length slots - good_count slots) /\ length r.1 = length disks /\
  (forall x, (forall i, slots !! i = Some None -> target (j + i) <> x) -> r.1 !! x = disks !! x) /\
  (forall i s, ss !! i = Some s -> slots !! i = Some None -> exists d,
     r.1 !! target (j + i) = Some d /\ read_shard d b k = Ok (s, with_shard (j + i) (blake3_hex s) C)).
Proof.
  revert ss disks j fixed. induction slots as [|o slots IH]; intros [|s ss] disks j fixed Hl HC Hw Hlt Hinj; try done.
  cbn [map]. rewrite good_count_cons. pose proof (good_count_le slots).
  assert (Hl' : length slots = length ss) by (by injection Hl).
  assert (Hshift : forall i, target (S j + i) = target (j + S i)) by (intros; f_equal; lia).
  assert (Hlt' : forall i, i < length ss -> target (S j + i) < length disks).
  { intros i Hi. rewrite Hshift. apply Hlt. simpl. lia. }
  assert (Hinj' : forall i i', i < length ss -> i' < length ss -> target (S j + i) = target (S j + i') -> i = i').
  { intros i i' Hi Hi'. rewrite !Hshift. intros E. apply Hinj in E; simpl; lia. }
  destruct o as [data|]; cbn [status_of write_repairs].
  - destruct (IH ss disks (S j) fixed Hl' HC Hw Hlt' Hinj') as (Hf & Hlen & Hout & Hin).
    split_and!; [cbn [length]; cbv beta iota; lia|done| |].
    + intros x Hx. apply Hout. intros i Hi. rewrite Hshift. by apply Hx.
    + intros [|i] s' Hs Hi; [done|]. rewrite <- Hshift. replace (j + S i) with (S j + i) by lia. by apply Hin.
  - destruct (lookup_lt_is_Some_2 disks (target j)) as [d Hd].
    { specialize (Hlt 0). rewrite Nat.add_0_r in Hlt. apply Hlt. simpl. lia. }
    rewrite Hd. destruct (write_shard_ok d b k s (with_shard j (blake3_hex s) C)) as (d' & Ew & Hwd & Hr & _).
    { by eapply (Forall_lookup_1 _ _ _ _ Hw). }
    { by apply with_shard_plain. }
    rewrite Ew. cbn [fst snd is_ok].
    destruct (IH ss (<[target j := d']> disks) (S j) (S fixed) Hl' HC) as (Hf & Hlen & Hout & Hin).
    { by apply Forall_insert. } { by rewrite length_insert. } { done. }
    rewrite length_insert in Hlen. split_and!; [cbn [length]; cbv beta iota; lia|done| |].
    + intros x Hx. rewrite Hout by (intros i Hi; rewrite Hshift; by apply Hx).
      apply list_lookup_insert_ne. specialize (Hx 0). rewrite Nat.add_0_r in Hx. by apply Hx.
    + intros [|i] s' Hs Hi.
      * injection Hs as <-. rewrite !Nat.add_0_r. exists d'. split; [|done].
        rewrite Hout; [apply list_lookup_insert_eq; by eapply lookup_lt_Some|].
        intros i Hi' E. rewrite Hshift in E.
        assert (S i = 0); [|done]. apply Hinj; [|simpl; lia|by rewrite Nat.add_0_r].
        apply lookup_lt_Some in Hi'. simpl. lia.
      * rewrite <- Hshift. replace (j + S i) with (S j + i) by lia. by apply Hin.
Qed.

End Repairs.

(** ** Lemmas: a whole repair *)

Section HealOk.
  Context `{Hashes} `{ReedSolomon} `{!ReedSolomonOk} {B W : Type} `{!Backend B W} `{!HealBackend B}
    `{!HealBackendOk B W}.

(** An object that can be healed: [shards] is the full set of its shards, [C] the
    metadata most disks agree on, every agreeing shard is authentic and on the
    disk its metadata names, and at least [dn] of them are left. *)
Record healable (disks : list B) (b k : string) (dn pn : nat) (C : ObjectMeta) (shards : list bytes)
    : Prop := {
  hl_names : validate_bucket_name b = Ok tt /\ validate_object_key k = Ok tt;
  hl_first : exists m0, head (metas_of (heal_reads disks b k)) = Some m0 /\
    erasure_data (erasure m0) = dn /\ erasure_parity (erasure m0) = pn;
  hl_consensus : find_consensus_meta (heal_reads disks b k) dn = Ok C;
  hl_authentic : forall j d data meta, disks !! j = Some d -> read_shard d b k = Ok (data, meta) ->
    agrees C (dn + pn) data meta = true ->
    shards !! index (erasure meta) = Some data /\ target_disk disks C (index (erasure meta)) = j;
  hl_targets : forall i, i < dn + pn -> target_disk disks C i < length disks;
  hl_distinct : forall i i', i < dn + pn -> i' < dn + pn ->
    target_disk disks C i = target_disk disks C i' -> i = i';
  hl_quorum : dn <= good_count (classify C (dn + pn) (heal_reads disks b k));
  hl_code : 0 < pn -> rs_new_ok dn pn = true;
  hl_shards : exists len, codeword dn pn len shards;
  hl_plain : plain_meta C;
  hl_writable : Forall (fun d => writable d b k) disks;
}.

(** Shard [i] is where it belongs, authentic, and agrees with the consensus. *)
Definition shard_restored (disks disks' : list B) (b k : string) (C : ObjectMeta) (i : nat) (s : bytes)
    : Prop :=
  exists d m, disks' !! target_disk disks C i = Some d /\ read_shard d b k = Ok (s, m) /\
    quorum_eq m C = true /\ index (erasure m) = i /\ verify_shard_checksum s (checksum m) = true /\
    (disks !! target_disk disks C i = Some d \/ m = with_shard i (blake3_hex s) C).

Lemma agreeing_disk disks b k C total i data :
  agreeing C total (heal_reads disks b k) i data -> exists j d meta,
    disks !! j = Some d /\ read_shard d b k = Ok (data, meta) /\ agrees C total data meta = true /\
    index (erasure meta) = i.
Proof.
  intros (meta & Hm & Ha & Hi). apply (elem_of_shard_reads disks b k) in Hm as (j & d & Hj & Hr).
  by exists j, d, meta.
Qed.

Lemma agrees_parts C total data meta :
  agrees C total data meta = true ->
  quorum_eq meta C = true /\ verify_shard_checksum data (checksum meta) = true.
Proof. unfold agrees. rewrite !andb_true_iff. tauto. Qed.

Lemma good_slot_restored disks b k dn pn C shards i data :
  healable disks b k dn pn C shards ->
  agreeing C (dn + pn) (heal_reads disks b k) i data ->
  shards !! i = Some data /\ shard_restored disks disks b k C i data.
Proof.
  intros Hh Ha. destruct (agreeing_disk _ _ _ _ _ _ _ Ha) as (j & d & meta & Hj & Hr & Hg & <-).
  destruct (hl_authentic _ _ _ _ _ _ _ Hh j d data meta Hj Hr Hg) as [Hs Ht]. split; [done|].
  destruct (agrees_parts _ _ _ _ Hg) as [Hq Hv]. exists d, meta. rewrite Ht. split_and!; auto.
Qed.

Lemma heal_object_restores disks b k dn pn C shards :
  healable disks b k dn pn C shards ->
  let missing := dn + pn - good_count (classify C (dn + pn) (heal_reads disks b k)) in
  let r := heal_object disks b k in
  r.2 = Ok (if bool_decide (missing = 0) then Healthy else Repaired missing) /\
  (forall i s, shards !! i = Some s -> shard_restored disks r.1 b k C i s) /\
  (forall j, (forall i, i < dn + pn -> target_disk disks C i <> j) -> r.1 !! j = disks !! j).
Proof.
  intros Hh missing r. pose proof Hh as [[Hb Hk] (m0 & Hm0 & Hdn & Hpn) Hc Hauth Ht Hd Hq Hcode (len & Hcw) Hplain Hw].
  subst r. unfold heal_object. rewrite Hb, Hk. cbn [mbind result_bind]. unfold heal_plan.
  rewrite Hm0. cbn [ok_or mbind result_bind]. rewrite Hdn, Hpn, Hc. cbn [mbind result_bind].
  rewrite needs_repair_count. destruct (classify_spec C (dn + pn) (heal_reads disks b k)) as [Hl Hs].
  rewrite Hl. fold missing. set (slots := classify C (dn + pn) (heal_reads disks b k)) in *.
  assert (Her : erased shards slots).
  { apply classify_erased; [apply (cw_length _ _ _ _ Hcw)|]. intros i data Ha.
    by apply (good_slot_restored _ _ _ _ _ _ _ _ _ Hh Ha). }
  assert (Hgood : forall i s, shards !! i = Some s -> slots !! i <> Some None ->
    shard_restored disks disks b k C i s).
  { intros i s Hi Hn. assert (Hit : i < dn + pn) by (rewrite <- (cw_length _ _ _ _ Hcw); by eapply lookup_lt_Some).
    specialize (Hs i Hit). destruct (slots !! i) as [[data|]|]; [|done..].
    destruct (good_slot_restored _ _ _ _ _ _ _ _ _ Hh Hs) as [Hsi Hr]. congruence. }
  case_bool_decide as Hm.
  { split; [done|]. split; [|done]. intros i s Hi. apply Hgood; [done|]. intros Hn.
    rewrite (erased_all shards slots Her) in Hn.
    - rewrite list_lookup_fmap in Hn. by destruct (shards !! i).
    - rewrite (cw_length _ _ _ _ Hcw). lia. }
  rewrite bool_decide_eq_false_2 by lia.
  assert (Hp : 0 < pn) by (pose proof (good_count_le slots); lia).
  rewrite bool_decide_eq_true_2, Hcode, (codeword_reconstruct dn pn len shards slots) by auto.
  cbn [ok_or mbind result_bind].
  destruct (write_repairs_ok b k C (target_disk disks C) slots shards disks 0 0) as (Hf & Hlen & Hout & Hin);
    rewrite ?(cw_length _ _ _ _ Hcw); try done.
  cbn [fst snd Nat.add] in *. rewrite Hl in Hf. fold missing in Hf. split; [by rewrite Hf|]. split.
  2:{ intros j Hj. apply Hout. intros i Hi. apply Hj. apply lookup_lt_Some in Hi. lia. }
  intros i s Hi. destruct (decide (slots !! i = Some None)) as [Hn|Hn].
  - destruct (Hin i s Hi Hn) as (d & Hdi & Hr). eexists d, _. split; [done|]. split; [done|].
    rewrite quorum_eq_with_shard, quorum_eq_refl. split_and!; [done|done|apply verify_blake3|by right].
  - destruct (Hgood i s Hi Hn) as (d & m & Hdi & Hrest). exists d, m. split; [|done].
    rewrite Hout; [done|]. intros i' Hi' E. apply Hn. rewrite <- Hi'. f_equal. symmetry. apply Hd; [..|done].
    + apply lookup_lt_Some in Hi'. lia.
    + rewrite <- (cw_length _ _ _ _ Hcw). by eapply lookup_lt_Some.
Qed.

End HealOk.

(** ** Lemmas: healing what a PUT left *)

Section PutHeal.
  Context `{Hashes} `{ReedSolomon} `{!ReedSolomonOk} `{!ReedSolomonBytewise} {B W : Type}
    `{!Backend B W} `{!BackendOk B W} `{!HealBackend B} `{!HealBackendOk B W}.

Lemma vol_map_lookup (disks : list B) j d :
  NoDup (map info_volume_id disks) -> disks !! j = Some d -> vol_map disks !! info_volume_id d = Some j.
Proof.
  intros Hnd Hj. unfold vol_map. apply elem_of_list_to_map_1.
  - change (NoDup (map fst (rev (imap (fun i d => (info_volume_id d, i)) disks)))). rewrite map_rev.
    replace (map fst (imap (fun i d => (info_volume_id d, i)) disks)) with (map info_volume_id disks).
    + by rewrite <- Permutation_rev.
    + apply list_eq. intros i. rewrite !list_lookup_fmap, list_lookup_imap. by destruct (disks !! i).
  - apply list_elem_of_In, in_rev. rewrite rev_involutive. apply list_elem_of_In, list_elem_of_lookup.
    exists j. by rewrite list_lookup_imap, Hj.
Qed.

Lemma finalize_all_volumes dist ws metas (disks disks' : list B) results :
  finalize_all disks dist ws metas = Some (disks', results) ->
  map info_volume_id disks' = map info_volume_id disks.
Proof.
  revert ws metas disks results. induction dist as [|i dist IH]; intros [|w ws] [|m metas] disks results E;
    cbn [finalize_all] in E; try (by injection E as <-).
  apply bind_Some in E as (d & Hd & E). apply bind_Some in E as ([disks1 res1] & E1 & [= <- <-]).
  rewrite (IH _ _ _ _ E1). apply list_eq. intros x. rewrite !list_lookup_fmap.
  destruct (decide (x = i)) as [->|Hne].
  - rewrite list_lookup_insert_eq by (by eapply lookup_lt_Some). rewrite Hd. cbn.
    by rewrite finalize_volume_id.
  - by rewrite list_lookup_insert_ne.
Qed.

Lemma volume_frame b k v : writer_frame b k v (fun d d' : B => info_volume_id d' = info_volume_id d).
Proof.
  constructor; [by intros d|intros d1 d2 d3; congruence|intros d; apply open_volume_id|].
  intros d w c bs _. apply write_volume_id.
Qed.

Lemma same_volumes (disks disks' : list B) :
  Forall2 (fun d d' => info_volume_id d' = info_volume_id d) disks disks' ->
  map info_volume_id disks' = map info_volume_id disks.
Proof. induction 1 as [|d d' l l' E _ IH]; [done|]. cbn. by rewrite E, IH. Qed.

Lemma encode_ec_volumes block dn pn c (disks : list B) dist items o info :
  0 < dn -> 0 < block -> NoDup dist -> length dist = dn + pn ->
  encode_ec block dn pn c disks dist items = Some o -> po_result o = Ok info ->
  map info_volume_id (po_disks o) = map info_volume_id disks.
Proof.
  intros Hdn Hb Hnd Hdist. unfold encode_ec.
  destruct (bool_decide (0 < pn) && negb (rs_new_ok dn pn)) eqn:Ers; [by intros [= <-]|].
  assert (Hrs : 0 < pn -> rs_new_ok dn pn = true).
  { intros Hp. rewrite bool_decide_eq_true_2 in Ers by done. by destruct (rs_new_ok dn pn). }
  intros E Hres. apply bind_Some in E as ([disks1 r] & Hfeed & E).
  destruct (feed_writers_ok _ _ _ _ (volume_frame _ _ _) block dn pn dist Hdn Hrs Hb Hnd _ _ _ _ Hdist Hfeed) as [Hf _].
  apply same_volumes in Hf. destruct r as [[st body]|]; [|by injection E as <-].
  apply bind_Some in E as ([disks' results] & Hfin & E). cbn [fst snd] in E. case_bool_decide.
  { apply bind_Some in E as (? & _ & [= <-]). done. }
  injection E as <-. cbn. rewrite <- Hf. by eapply finalize_all_volumes.
Qed.

(** The planner knows the disks by their index and volume id. *)
Definition planner_matches (disks : list B) (planner : PlacementPlanner) : Prop :=
  forall v, v ∈ pp_disks planner -> exists d,
    disks !! pv_backend_index v = Some d /\ info_volume_id d = pv_volume_id v.

(** The volume ids of a placement are those of its disks. *)
Definition dist_volumes (disks : list B) (dist : list nat) (vids : list string) : Prop :=
  length dist = length vids /\
  forall i j vid, dist !! i = Some j -> vids !! i = Some vid -> exists d,
    disks !! j = Some d /\ info_volume_id d = vid.

Lemma plan_volumes disks planner bucket key dn pn r :
  planner_matches disks planner -> plan planner bucket key dn pn = Ok r ->
  dist_volumes disks (map ps_backend_index (pr_shards r)) (map ps_volume_id (pr_shards r)).
Proof.
  intros Hm Hp. split; [by rewrite !length_map|]. apply plan_Ok in Hp as (_ & _ & ->). cbn [pr_shards].
  pose proof (full_deal_perm planner bucket key) as Hperm.
  rewrite (map_shard_of _ pv_backend_index), (map_shard_of _ pv_volume_id) by done.
  intros i j vid Hj Hv. rewrite list_lookup_fmap in Hj; rewrite list_lookup_fmap in Hv.
  destruct (_ !! i) as [v|] eqn:Ev in Hj; [|done]. rewrite Ev in Hv. cbn in Hj, Hv.
  injection Hj as <-. injection Hv as <-. apply Hm. rewrite <- Hperm.
  apply list_elem_of_lookup_2 in Ev. by apply elem_of_take in Ev as (? & ? & ?); eapply list_elem_of_lookup_2.
Qed.

(** *** From a placed object to a healable one *)

Lemma elem_of_metas reads m : m ∈ metas_of reads <-> exists data, Some (data, m) ∈ reads.
Proof.
  unfold metas_of. rewrite list_elem_of_fmap. split.
  - intros ([data m'] & -> & Hin). apply list_elem_of_omap in Hin as (r & Hr & E). cbn in E. subst r. eauto.
  - intros [data Hin]. exists (data, m). split; [done|]. apply list_elem_of_omap. by eexists.
Qed.

Lemma length_omap_id {A} (l : list (option A)) : length (omap id l) = good_count l.
Proof. induction l as [|o l IH]; [done|]. rewrite good_count_cons, <- IH. by destruct o. Qed.

Lemma length_metas reads : length (metas_of reads) = good_count reads.
Proof.
  unfold metas_of. rewrite length_map. apply length_omap_id.
Qed.

Lemma votes_all ms m : (forall x, x ∈ ms -> quorum_key m = quorum_key x) -> votes ms m = length ms.
Proof.
  unfold votes. induction ms as [|x ms IH]; intros Hall; [done|]. cbn.
  rewrite (proj2 (quorum_eq_key m x)) by (apply Hall; by left). cbn. f_equal. apply IH.
  intros y Hy. apply Hall. by right.
Qed.

Section Placed.
  Variables (c : PutContext) (dn pn : nat) (body : bytes) (dist : list nat) (shards : list bytes)
    (disks : list B).
  Hypothesis (dn_pos : 0 < dn) (pn_pos : 0 < pn) (total_fits : (N.of_nat (dn + pn) < 2 ^ 64)%N)
    (bucket_ok : validate_bucket_name (pc_bucket c) = Ok tt)
    (key_ok : validate_object_key (pc_key c) = Ok tt)
    (dist_nodup : NoDup dist) (dist_len : length dist = dn + pn)
    (vols_nodup : NoDup (map info_volume_id disks))
    (vols : dist_volumes disks dist (pc_volume_ids c))
    (shards_len : length shards = dn + pn)
    (on_disks : placed c pn dn body dist shards disks).

Lemma placed_target i j s i0 s0 :
  dist !! i = Some j -> s = shard_meta c pn body i0 s0 -> target_disk disks s i = j.
Proof.
  intros Hi ->. destruct vols as [Hl Hv]. unfold target_disk. cbn [shard_meta erasure volume_ids].
  destruct (lookup_lt_is_Some_2 (pc_volume_ids c) i) as [vid Hvid].
  { rewrite <- Hl. by eapply lookup_lt_Some. }
  rewrite Hvid. cbn. destruct (Hv i j vid Hi Hvid) as (d & Hd & <-).
  by rewrite (vol_map_lookup _ _ _ vols_nodup Hd).
Qed.

Lemma placed_meta m :
  m ∈ metas_of (heal_reads disks (pc_bucket c) (pc_key c)) -> exists i s, m = shard_meta c pn body i s.
Proof.
  intros [data Hm]%elem_of_metas. apply (elem_of_shard_reads disks) in Hm as (j & d & Hj & Hr).
  destruct (placed_only _ _ _ _ _ _ _ on_disks _ _ _ _ Hj Hr) as (i & _ & _ & ->). eauto.
Qed.

Lemma placed_readable : dn <= good_count (heal_reads disks (pc_bucket c) (pc_key c)).
Proof.
  destruct (placed_enough _ _ _ _ _ _ _ on_disks) as (idxs & Hnd & Hlen & Hidx).
  etransitivity; [exact Hlen|].
  rewrite <- (length_map (fun i => default 0 (dist !! i)) idxs). apply good_count_indices.
  - apply NoDup_fmap_2_strong; [|done]. intros i i' Hi Hi' E.
    destruct (Hidx i Hi) as (j & d & s & Hj & _). destruct (Hidx i' Hi') as (j' & d' & s' & Hj' & _).
    rewrite Hj, Hj' in E. cbn in E. subst j'. exact (NoDup_lookup dist _ _ _ dist_nodup Hj Hj').
  - intros x (i & -> & Hi)%list_elem_of_fmap. destruct (Hidx i Hi) as (j & d & s & Hj & Hd & _ & Hr).
    rewrite Hj. cbn. unfold heal_reads. rewrite list_lookup_fmap, Hd. cbn. rewrite Hr. cbn. eauto.
Qed.

(** All disks that answer agree, so the consensus is one of their copies. *)
Lemma placed_consensus :
  exists C i s, find_consensus_meta (heal_reads disks (pc_bucket c) (pc_key c)) dn = Ok C /\
    C = shard_meta c pn body i s.
Proof.
  pose proof (find_consensus_spec (heal_reads disks (pc_bucket c) (pc_key c)) dn) as Hs.
  set (ms := metas_of _) in *.
  assert (Hlen : dn <= length ms) by (unfold ms; rewrite length_metas; apply placed_readable).
  destruct (find_consensus_meta _ dn) as [C|e]; cbn in Hs.
  - destruct Hs as (Hin & _). destruct (placed_meta _ Hin) as (i & s & ->). by eexists _, i, s.
  - destruct e; try done; [rewrite Hs in Hlen; simpl in Hlen; lia|].
    destruct Hs as [Hne Hlt]. destruct ms as [|m ms'] eqn:Ems; [done|]. exfalso.
    specialize (Hlt m ltac:(by left)). rewrite votes_all in Hlt; [lia|].
    intros x Hx. rewrite <- Ems in Hx.
    assert (Hm : m ∈ ms) by (rewrite Ems; by left).
    destruct (placed_meta _ Hx) as (i & s & ->), (placed_meta _ Hm) as (i' & s' & ->). done.
Qed.

Lemma placed_agrees i s i0 s0 :
  shards !! i = Some s -> agrees (shard_meta c pn body i0 s0) (dn + pn) s (shard_meta c pn body i s) = true.
Proof.
  intros Hi. unfold agrees. cbn [shard_meta erasure index]. rewrite bool_decide_eq_true_2.
  - rewrite (proj2 (quorum_eq_key _ _)) by done. cbn [andb checksum]. apply verify_own_checksum.
  - rewrite <- shards_len. by eapply lookup_lt_Some.
Qed.

Lemma placed_healable :
  rs_new_ok dn pn = true -> (exists len, codeword dn pn len shards) ->
  pc_version_id c = None -> Forall (fun d => writable d (pc_bucket c) (pc_key c)) disks ->
  exists C i0 s0, C = shard_meta c pn body i0 s0 /\ healable disks (pc_bucket c) (pc_key c) dn pn C shards.
Proof.
  intros Hrs Hcw Hcv Hw. destruct placed_consensus as (C & i0 & s0 & Hc & ->).
  exists (shard_meta c pn body i0 s0), i0, s0. split; [done|].
  assert (Htgt : forall i, i < dn + pn -> exists j, dist !! i = Some j /\
    target_disk disks (shard_meta c pn body i0 s0) i = j).
  { intros i Hi. destruct (lookup_lt_is_Some_2 dist i ltac:(lia)) as [j Hj]. exists j.
    split; [done|]. by eapply placed_target. }
  split; try done.
  - pose proof placed_readable as Hr. rewrite <- length_metas in Hr.
    pose proof placed_meta as Hm. destruct (metas_of _) as [|m0 ms]; [simpl in Hr; lia|].
    exists m0. split; [done|]. destruct (Hm m0 ltac:(by left)) as (i & s & ->). cbn.
    split; [|done]. unfold erasure_data. cbn [erasure volume_ids ftt]. destruct vols as [<- _].
    rewrite dist_len, usize_sub_le; lia.
  - intros j d data meta Hj Hr _. destruct (placed_only _ _ _ _ _ _ _ on_disks _ _ _ _ Hj Hr) as (i & Hi & Hs & ->).
    cbn. split; [done|]. by eapply placed_target.
  - intros i Hi. destruct (Htgt i Hi) as (j & Hj & ->). destruct vols as [Hl Hv].
    destruct (lookup_lt_is_Some_2 (pc_volume_ids c) i ltac:(lia)) as [vid Hvid].
    destruct (Hv i j vid Hj Hvid) as (d & Hd & _). by eapply lookup_lt_Some.
  - intros i i' Hi Hi' E. destruct (Htgt i Hi) as (j & Hj & Ej), (Htgt i' Hi') as (j' & Hj' & Ej').
    rewrite Ej, Ej' in E. subst j'. exact (NoDup_lookup dist _ _ _ dist_nodup Hj Hj').
  - destruct (placed_enough _ _ _ _ _ _ _ on_disks) as (idxs & Hnd & Hlen & Hidx).
    etransitivity; [exact Hlen|]. apply good_count_indices; [done|]. intros i Hi.
    destruct (Hidx i Hi) as (j & d & s & Hj & Hd & Hs & Hr).
    destruct (classify_spec (shard_meta c pn body i0 s0) (dn + pn)
      (heal_reads disks (pc_bucket c) (pc_key c))) as [_ Hcl].
    specialize (Hcl i ltac:(rewrite <- shards_len; by eapply lookup_lt_Some)).
    destruct (classify _ _ _ !! i) as [[data|]|]; cbn in *; [by eauto| |done]. exfalso.
    apply (Hcl s). exists (shard_meta c pn body i s). split_and!; [|by apply placed_agrees|done].
    apply (elem_of_shard_reads disks). eauto.
  - unfold plain_meta. cbn. by rewrite Hcv.
Qed.

(** Healing puts every shard back on its disk. *)
Lemma placed_healed :
  rs_new_ok dn pn = true -> (exists len, codeword dn pn len shards) ->
  pc_version_id c = None -> Forall (fun d => writable d (pc_bucket c) (pc_key c)) disks ->
  let r := heal_object disks (pc_bucket c) (pc_key c) in
  (exists n, r.2 = Ok (if bool_decide (n = 0) then Healthy else Repaired n) /\ n <= pn) /\
  placed c pn (dn + pn) body dist shards r.1.
Proof.
  intros Hrs Hcw Hv Hw r. destruct (placed_healable Hrs Hcw Hv Hw) as (C & i0 & s0 & HC & Hh).
  destruct (heal_object_restores _ _ _ _ _ _ _ Hh) as (Hres & Hin & Hout). fold r in Hres, Hin, Hout.
  pose proof (hl_quorum _ _ _ _ _ _ _ Hh) as Hq.
  split; [eexists; split; [exact Hres|lia]|].
  assert (Hread : forall i j, dist !! i = Some j -> exists d s, r.1 !! j = Some d /\ shards !! i = Some s /\
    read_shard d (pc_bucket c) (pc_key c) = Ok (s, shard_meta c pn body i s)).
  { intros i j Hi. destruct (lookup_lt_is_Some_2 shards i) as [s Hs].
    { rewrite shards_len, <- dist_len. by eapply lookup_lt_Some. }
    destruct (Hin i s Hs) as (d & m & Hd & Hr & _ & Hidx & _ & Hm).
    rewrite (placed_target i j C i0 s0 Hi HC) in Hd, Hm. exists d, s. split_and!; [done|done|].
    rewrite Hr. do 2 f_equal. destruct Hm as [Hm|Hm]; [|by rewrite Hm, HC].
    destruct (placed_only _ _ _ _ _ _ _ on_disks _ _ _ _ Hm Hr) as (i' & _ & _ & Em).
    rewrite Em in Hidx. cbn in Hidx. by subst i'. }
  split.
  - intros j d data meta Hj Hr. destruct (decide (j ∈ dist)) as [[i Hi]%list_elem_of_lookup|Hnj].
    + destruct (Hread i j Hi) as (d' & s & Hd' & Hs & Hr'). exists i.
      rewrite Hj in Hd'. injection Hd' as <-. rewrite Hr in Hr'. by injection Hr' as -> ->.
    + rewrite Hout in Hj; [by eapply (placed_only _ _ _ _ _ _ _ on_disks)|].
      intros i Hi E. apply Hnj. destruct (lookup_lt_is_Some_2 dist i ltac:(lia)) as [j' Hj'].
      rewrite (placed_target i j' C i0 s0 Hj' HC) in E. subst j'. by eapply list_elem_of_lookup_2.
  - exists (seq 0 (dn + pn)). split_and!; [apply NoDup_seq|by rewrite length_seq|].
    intros i Hi%elem_of_seq. destruct (lookup_lt_is_Some_2 dist i ltac:(lia)) as [j Hj].
    destruct (Hread i j Hj) as (d & s & Hd & Hs & Hr). by exists j, d, s.
Qed.

End Placed.

(** *** Losing disks *)

(** [disks'] is [disks] after the disks [lost] stopped serving the object. *)
Definition after_loss (b k : string) (lost : list nat) (disks disks' : list B) : Prop :=
  (forall j, j ∉ lost -> disks' !! j = disks !! j) /\
  (forall j d, j ∈ lost -> disks' !! j = Some d -> is_ok (read_shard d b k) = false).

Lemma placed_after_loss c pn n body dist shards lost disks disks' :
  NoDup dist -> placed c pn (n + length lost) body dist shards disks ->
  after_loss (pc_bucket c) (pc_key c) lost disks disks' -> placed c pn n body dist shards disks'.
Proof.
  intros Hd [Honly (idxs & Hnd & Hlen & Hidx)] [Hkeep Hlost]. split.
  - intros j d data meta Hj Hr. destruct (decide (j ∈ lost)) as [Hin|Hin].
    + specialize (Hlost j d Hin Hj). by rewrite Hr in Hlost.
    + rewrite (Hkeep j Hin) in Hj. eauto.
  - set (P := fun i => default 0 (dist !! i) ∈ lost).
    assert (Hdec : forall i, Decision (P i)) by (intros; unfold P; apply _).
    exists (filter (fun i => ~ P i) idxs). split_and!.
    + by apply list.NoDup_filter.
    + assert (Hsum : length (filter P idxs) + length (filter (fun i => ~ P i) idxs) = length idxs).
      { rewrite <- length_app. apply Permutation_length. apply filter_app_complement. }
      assert (Hle : length (filter P idxs) <= length lost); [|lia].
      rewrite <- (length_map (fun i => default 0 (dist !! i))).
      apply submseteq_length, NoDup_submseteq.
      * apply NoDup_fmap_2_strong; [|by apply list.NoDup_filter].
        intros i i' [_ Hi]%list_elem_of_filter [_ Hi']%list_elem_of_filter E.
        destruct (Hidx i Hi) as (j & ? & ? & Hj & _), (Hidx i' Hi') as (j' & ? & ? & Hj' & _).
        rewrite Hj, Hj' in E. cbn in E. subst j'. exact (NoDup_lookup dist _ _ _ Hd Hj Hj').
      * intros x (i & -> & [Hi _]%list_elem_of_filter)%list_elem_of_fmap. exact Hi.
    + intros i [Hn Hi]%list_elem_of_filter. destruct (Hidx i Hi) as (j & d & s & Hj & Hdj & Hs & Hr).
      exists j, d, s. split_and!; try done. rewrite Hkeep; [done|]. intros Hin. apply Hn. unfold P.
      by rewrite Hj.
Qed.

(** [disks'] is [disks] with every disk writable: the same shards and volumes. *)
Definition recovered (b k : string) (disks disks' : list B) : Prop :=
  Forall2 (fun d d' => read_shard d' b k = read_shard d b k /\ info_volume_id d' = info_volume_id d /\
    writable d' b k) disks disks'.

Lemma recovered_lookup b k disks disks' j :
  recovered b k disks disks' ->
  match disks !! j, disks' !! j with
  | Some d, Some d' => read_shard d' b k = read_shard d b k /\ info_volume_id d' = info_volume_id d
  | None, None => True
  | _, _ => False
  end.
Proof.
  intros Hr. pose proof (proj1 (Forall2_lookup _ _ _) Hr j) as Hj.
  inversion Hj as [d d' Hd|]; [|done]. tauto.
Qed.

Lemma placed_recovered c pn n body dist shards disks disks' :
  placed c pn n body dist shards disks -> recovered (pc_bucket c) (pc_key c) disks disks' ->
  placed c pn n body dist shards disks'.
Proof.
  intros [Ho (idxs & Hnd & Hlen & Hidx)] Hr. split.
  - intros j d' data meta Hj Hrd. pose proof (recovered_lookup _ _ _ _ j Hr) as Hl. rewrite Hj in Hl.
    destruct (disks !! j) as [d|] eqn:Hd; [|done]. destruct Hl as [E _]. rewrite E in Hrd. eauto.
  - exists idxs. split_and!; [done|done|]. intros i Hi.
    destruct (Hidx i Hi) as (j & d & s & Hj & Hd & Hs & Hrd). pose proof (recovered_lookup _ _ _ _ j Hr) as Hl.
    rewrite Hd in Hl. destruct (disks' !! j) as [d'|] eqn:Hd'; [|done]. destruct Hl as [E _].
    exists j, d', s. by rewrite E.
Qed.

Lemma recovered_volumes b k disks disks' :
  recovered b k disks disks' ->
  map info_volume_id disks' = map info_volume_id disks /\ Forall (fun d => writable d b k) disks' /\
  forall dist vids, dist_volumes disks dist vids -> dist_volumes disks' dist vids.
Proof.
  intros Hr. split_and!.
  - induction Hr as [|d d' disks disks' (_ & E & _) _ IH]; [done|]. cbn. by rewrite E, IH.
  - induction Hr as [|d d' disks disks' (_ & _ & Hw) _ IH]; by constructor.
  - intros dist vids [Hl Hv]. split; [done|]. intros i j vid Hj Hi.
    destruct (Hv i j vid Hj Hi) as (d & Hd & <-). pose proof (recovered_lookup _ _ _ _ j Hr) as Hlk.
    rewrite Hd in Hlk. destruct (disks' !! j) as [d'|]; [|done]. destruct Hlk as [_ E]. eauto.
Qed.

(** *** The erasure-coded PUT through the planner *)

Lemma encode_and_write_placed block disks planner dn pn bucket key chunks opts mrf clen now o info :
  0 < block -> 0 < pn -> NoDup (map pv_backend_index (pp_disks planner)) ->
  planner_matches disks planner -> fresh_object disks bucket key ->
  encode_and_write block disks planner dn pn bucket key (map Ok chunks) opts mrf None clen now = Some o ->
  po_result o = Ok info ->
  exists c dist bl bss, pc_bucket c = bucket /\ pc_key c = key /\ 0 < dn /\ NoDup dist /\
    length dist = dn + pn /\ rs_new_ok dn pn = true /\ pc_version_id c = None /\
    dist_volumes (po_disks o) dist (pc_volume_ids c) /\
    map info_volume_id (po_disks o) = map info_volume_id disks /\
    chopped block (concat chunks) bl /\ Forall2 (coded dn pn) bl bss /\
    placed c pn dn (concat chunks) dist (join_blocks (dn + pn) bss) (po_disks o).
Proof.
  intros Hb Hpn Hnd Hpm Hfresh E Hres. unfold encode_and_write in E.
  destruct (plan planner bucket key dn pn) as [r|] eqn:Ep; [|by injection E as <-].
  destruct (plan_distribution _ _ _ _ _ _ Ep Hnd) as (Hdn & Hdist & Hlen).
  pose proof (plan_volumes _ _ _ _ _ _ _ Hpm Ep) as [Hvl Hv].
  set (c := mkPutContext _ _ _ _ _ _ _ _) in E. set (dist := map ps_backend_index _) in *.
  rewrite (bool_decide_eq_false_2 (pn = 0)), andb_false_r in E by lia.
  apply bind_Some in E as (o' & Eo & [= <-]). cbn [po_result po_disks] in *.
  pose proof (encode_ec_volumes _ _ _ _ _ _ _ _ _ Hdn Hb Hdist Hlen Eo Hres) as Hvols.
  destruct (encode_ec_placed block dn pn c disks _ _ o' info Hdn Hb Hdist Hlen eq_refl Hfresh Eo Hres)
    as (chunks' & bl & bss & Hitems & _ & Hrs & Hch & Hco & Hp).
  apply (f_equal body_items) in Hitems. rewrite !body_items_Ok in Hitems. injection Hitems as <-.
  exists c, dist, bl, bss. split_and!; try done; [by apply Hrs|].
  split; [done|]. intros i j vid Hj Hi. destruct (Hv i j vid Hj Hi) as (d & Hd & <-).
  apply (f_equal (fun l => l !! j)) in Hvols. rewrite !list_lookup_fmap, Hd in Hvols.
  destruct (po_disks o' !! j) as [d'|]; [|done]. injection Hvols as E. eauto.
Qed.

End PutHeal.

(** ** The queue as a state machine *)

(** The queue and the entry the worker is busy with. *)
Record MrfSystem : Type := mkMrfSystem {
  sys_queue : MrfQueue;
  in_flight : option MrfEntry;
}.

(** Writers and the scanner enqueue at any time; the worker takes the receiver,
    receives, heals, marks the entry done, and drops the receiver on shutdown. *)
Inductive mrf_step : MrfSystem -> MrfSystem -> Prop :=
  | step_enqueue q f e : mrf_step (mkMrfSystem q f) (mkMrfSystem (enqueue q e).1 f)
  | step_take q : mrf_step (mkMrfSystem q None) (mkMrfSystem (take_receiver q).1 None)
  | step_recv q e q' :
      rx q = Taken -> recv q = Some (e, q') ->
      mrf_step (mkMrfSystem q None) (mkMrfSystem q' (Some e))
  | step_done q e : mrf_step (mkMrfSystem q (Some e)) (mkMrfSystem (mark_done q e) None)
  | step_shutdown q :
      rx q = Taken -> mrf_step (mkMrfSystem q None) (mkMrfSystem (drop_receiver q) None).

Definition pending (s : MrfSystem) : list MrfEntry :=
  option_list (in_flight s) ++ chan (sys_queue s).

Record mrf_inv (s : MrfSystem) : Prop := {
  inv_capacity : length (chan (sys_queue s)) <= capacity (sys_queue s);
  inv_once : NoDup (pending s);
  inv_seen : rx (sys_queue s) <> Dropped -> seen (sys_queue s) = list_to_set (pending s);
  inv_dropped : rx (sys_queue s) = Dropped -> pending s = [];
  inv_idle : in_flight s <> None -> rx (sys_queue s) = Taken;
}.

Lemma mrf_inv_step s s' : mrf_inv s -> mrf_step s s' -> mrf_inv s'.
Proof.
  intros [Hc Ho Hs Hd Hi] Hstep. destruct Hstep as [q f e|q|q e q' Hrx Hr|q e|q Hrx]; cbn [sys_queue in_flight] in *.
  - unfold enqueue. case_bool_decide as Hin; [done|]. destruct (decide (rx q = Dropped)) as [Hdr|Hdr].
    { by rewrite Hdr. }
    rewrite (Hs Hdr), elem_of_list_to_set in Hin.
    assert (Hadd : length (chan q) < capacity q ->
      mrf_inv (mkMrfSystem (mkMrfQueue (chan q ++ [e]) (rx q) ({[e]} ∪ seen q) (capacity q)) f)).
    { intros Hlt. split; cbn.
      - rewrite length_app. cbn. lia.
      - unfold pending in *. cbn in *. rewrite app_assoc. apply list.NoDup_app.
        split_and!; [done| |apply NoDup_singleton]. by intros x Hx ->%list_elem_of_singleton.
      - intros _. rewrite (Hs Hdr). unfold pending. cbn. set_solver.
      - done.
      - done. }
    destruct (rx q) eqn:Erx; [| |done]; (case_bool_decide; [by apply Hadd|]);
      (split; cbn; rewrite ?Erx; done).
  - unfold take_receiver. destruct (rx q) eqn:Erx; split; cbn; rewrite ?Erx; try done. intros _. by apply Hs.
  - unfold recv in Hr. destruct (chan q) as [|e0 es] eqn:Ec; [done|]. injection Hr as <- <-.
    split; unfold pending in *; cbn in *; rewrite ?Ec in *; [lia|done|done| |done]. intros Hx. congruence.
  - specialize (Hi ltac:(done)). assert (Hne : rx q <> Dropped) by congruence.
    unfold pending in *. cbn in *. apply list.NoDup_cons in Ho as [Hn Ho]. split; cbn; [done|done| |done|done].
    intros _. rewrite (Hs Hne). unfold pending. cbn. apply set_eq. intros x.
    rewrite elem_of_difference, elem_of_union, elem_of_singleton, elem_of_list_to_set.
    split; [tauto|]. intros Hx. split; [by right|]. by intros ->.
  - split; cbn; [lia|constructor|done|done|done].
Qed.

Definition mrf_reachable (capacity : nat) (s : MrfSystem) : Prop :=
  rtc mrf_step (mkMrfSystem (mrf_new capacity) None) s.

Lemma mrf_reachable_inv n s : mrf_reachable n s -> mrf_inv s.
Proof.
  assert (Hi : mrf_inv (mkMrfSystem (mrf_new n) None)) by (split; cbn; [lia|constructor|done|done|done]).
  unfold mrf_reachable. revert Hi. generalize (mkMrfSystem (mrf_new n) None) as s0.
  intros s0 Hi Hr. induction Hr; [done|]. eauto using mrf_inv_step.
Qed.

(** [n] rounds of the worker. *)
Section Drain.
  Context `{Hashes} `{ReedSolomon} {B W : Type} `{!Backend B W} `{!HealBackend B}.

Fixpoint drain_rounds (n : nat) (disks : list B) (q : MrfQueue)
    : list B * MrfQueue * list (MrfEntry * Result HealResult) :=
  match n with
  | 0 => (disks, q, [])
  | S n =>
      match drain_one disks q with
      | None => (disks, q, [])
      | Some (disks, q, e, res) => let r := drain_rounds n disks q in (r.1, (e, res) :: r.2)
      end
  end.

(** The objects healed one after the other, and what each repair reports. *)
Definition heal_all (disks : list B) (es : list MrfEntry) : list B :=
  fold_left (fun ds e => (heal_object ds (mrf_bucket e) (mrf_key e)).1) es disks.

Lemma drain_rounds_spec q disks :
  let r := drain_rounds (length (chan q)) disks q in
  map fst r.2 = chan q /\ r.1.1 = heal_all disks (chan q) /\
  (forall i e res, r.2 !! i = Some (e, res) ->
     res = (heal_object (heal_all disks (take i (chan q))) (mrf_bucket e) (mrf_key e)).2) /\
  chan r.1.2 = [] /\ seen r.1.2 = seen q ∖ list_to_set (chan q).
Proof.
  remember (length (chan q)) as n eqn:En. revert disks q En. induction n as [|n IH]; intros disks q En; cbn.
  - destruct (chan q) eqn:Ec; [|done]. split_and!; [done|done|by intros i e res; rewrite lookup_nil|done|set_solver].
  - unfold drain_one, recv. destruct (chan q) as [|e es] eqn:Ec; [done|]. cbn [mrf_bucket mrf_key].
    set (q1 := mark_done _ e). set (r1 := heal_object disks _ _).
    destruct (IH r1.1 q1) as (Hx1 & Hx2 & Hx3 & Hx4 & Hx5); [cbn in *; lia|]. cbn [fst snd].
    split_and!; [cbn; by rewrite Hx1|done| |done|].
    + intros [|i] e' res Hi; cbn in Hi; [by injection Hi as <- <-|]. by apply Hx3.
    + rewrite Hx5. cbn. set_solver.
Qed.

Lemma heal_all_S disks es i e :
  es !! i = Some e ->
  heal_all disks (take (S i) es) = (heal_object (heal_all disks (take i es)) (mrf_bucket e) (mrf_key e)).1.
Proof. intros Hi. unfold heal_all. rewrite (take_S_r _ _ _ Hi), fold_left_app. done. Qed.

End Drain.

(** ** Lemmas: the scanner *)

Lemma scan_key_inj b1 k1 b2 k2 :
  slash ∉ bytes_of b1 -> slash ∉ bytes_of b2 -> scan_key b1 k1 = scan_key b2 k2 -> b1 = b2 /\ k1 = k2.
Proof.
  unfold scan_key. revert b2. induction b1 as [|a b1 IH]; intros [|a' b2] H1 H2 E; cbn in *.
  - by injection E.
  - injection E as <- _. exfalso. apply H2. by left.
  - injection E as -> _. exfalso. apply H1. by left.
  - apply not_elem_of_cons in H1 as [_ H1], H2 as [_ H2]. injection E as -> E.
    by destruct (IH b2 H1 H2 E) as [-> ->].
Qed.

Section Scan.
  Context `{Hashes} `{ReedSolomon} {B W : Type} `{!Backend B W} `{!HealBackend B}.
  Variables (disks : list B) (clock : string -> string -> N) (bucket key : string).
  Hypothesis (bucket_plain : slash ∉ bytes_of bucket)
    (degraded : object_needs_healing disks bucket key = true).

(** The object is queued, or the queue has no room. *)
Definition queued_or_full (q : MrfQueue) : Prop :=
  mkMrfEntry bucket key ∈ seen q \/ capacity q <= length (chan q).

Definition scan_due (st : MrfQueue * ScanState) : Prop :=
  should_scan st.2 bucket key (clock bucket key) = true.

Lemma enqueue_mono q e :
  rx q <> Dropped ->
  rx (enqueue q e).1 <> Dropped /\ (queued_or_full q -> queued_or_full (enqueue q e).1) /\
  (e = mkMrfEntry bucket key -> queued_or_full (enqueue q e).1).
Proof.
  intros Hrx. unfold enqueue, queued_or_full. case_bool_decide as Hin; cbn.
  { split_and!; [done|done|]. intros ->. by left. }
  destruct (rx q) eqn:Erx; [| |done]; case_bool_decide as Hfull; cbn; rewrite ?Erx.
  1, 3: split_and!; [done| |intros ->; left; apply elem_of_union_l, elem_of_singleton_2; done];
    (intros [?|?]; [left; by apply elem_of_union_r|rewrite ?length_app; cbn; right; lia]).
  all: split_and!; [done|done|intros _; right; lia].
Qed.

Lemma scan_object_mono b' k' st :
  slash ∉ bytes_of b' -> rx st.1 <> Dropped ->
  let st' := scan_object disks clock b' st k' in
  rx st'.1 <> Dropped /\ (queued_or_full st.1 -> queued_or_full st'.1) /\
  (scan_due st -> scan_due st' \/ queued_or_full st'.1) /\
  ((b', k') = (bucket, key) -> scan_due st -> queued_or_full st'.1).
Proof.
  intros Hb Hrx. unfold scan_object, scan_due.
  destruct (should_scan st.2 b' k' (clock b' k')) eqn:Es; cbn [negb].
  2:{ split_and!; [done|done|by left|]. intros [= -> ->]. congruence. }
  assert (Hq : (b', k') = (bucket, key) ->
    queued_or_full (if object_needs_healing disks b' k' then (enqueue st.1 (mkMrfEntry b' k')).1 else st.1)).
  { intros [= -> ->]. rewrite degraded. by apply enqueue_mono. }
  cbn [fst snd]. split_and!.
  - destruct (object_needs_healing disks b' k'); [|done]. by apply enqueue_mono.
  - destruct (object_needs_healing disks b' k'); [|done]. by apply enqueue_mono.
  - intros Hd. destruct (decide ((b', k') = (bucket, key))) as [E|Hne]; [by right; apply Hq|].
    left. unfold should_scan, mark_checked in *. cbn. rewrite lookup_insert_ne; [done|].
    intros E. apply scan_key_inj in E as [-> ->]; done.
  - intros E _. by apply Hq.
Qed.

(** The state of a scan as the object's turn comes and goes. *)
Definition scan_ok (st : MrfQueue * ScanState) : Prop :=
  rx st.1 <> Dropped /\ (scan_due st \/ queued_or_full st.1).

Lemma scan_objects_ok b' keys st :
  slash ∉ bytes_of b' -> scan_ok st ->
  let st' := fold_left (scan_object disks clock b') keys st in
  scan_ok st' /\ (queued_or_full st.1 -> queued_or_full st'.1) /\
  (b' = bucket -> key ∈ keys -> queued_or_full st'.1).
Proof.
  intros Hb. revert st. induction keys as [|k' keys IH]; intros st [Hrx Hst]; cbn.
  - split_and!; [done|done|set_solver].
  - destruct (scan_object_mono b' k' st Hb Hrx) as (Hrx1 & Hm & Hd & Hk).
    destruct (IH (scan_object disks clock b' st k')) as (Hok & Hm' & Hin); [split; tauto|].
    split_and!; [done|tauto|]. intros -> [E|E]%elem_of_cons; [|by apply Hin].
    apply Hm'. subst k'. destruct Hst as [Hst|Hst]; [by apply Hk|by apply Hm].
Qed.

Lemma scan_buckets_ok d rest buckets keys st :
  disks = d :: rest -> Forall (fun b => slash ∉ bytes_of b) buckets ->
  list_objects d bucket "" = Ok keys -> key ∈ keys -> scan_ok st ->
  let st' := fold_left (scan_bucket disks clock) buckets st in
  (queued_or_full st.1 -> queued_or_full st'.1) /\ (bucket ∈ buckets -> queued_or_full st'.1).
Proof.
  intros Hd Hb Hl Hk. revert st. induction Hb as [|b' buckets Hb' Hb IH]; intros st Hst; cbn.
  - split; [done|set_solver].
  - assert (Hone : scan_ok (scan_bucket disks clock st b') /\
      (queued_or_full st.1 -> queued_or_full (scan_bucket disks clock st b').1) /\
      (b' = bucket -> queued_or_full (scan_bucket disks clock st b').1)).
    { unfold scan_bucket. rewrite Hd. destruct (list_objects d b' "") as [ks|] eqn:El; rewrite <- ?Hd.
      - destruct (scan_objects_ok b' ks st Hb' Hst) as (? & ? & Hin). split_and!; [done|done|].
        intros ->. apply Hin; [done|]. congruence.
      - split_and!; [done|done|]. intros ->. congruence. }
    destruct Hone as (Hok & Hm & Hbk). destruct (IH _ Hok) as [Hm' Hin].
    split; [tauto|]. intros [<-|E]%elem_of_cons; [by apply Hm', Hbk|by apply Hin].
Qed.

End Scan.

(** The agreeing shards a scan counts, by their index. *)
Definition good_indices `{Hashes} {B W : Type} `{!Backend B W} (meta : ObjectMeta) (total : nat)
    (disks : list B) (b k : string) : list nat :=
  omap (fun d => match read_shard d b k with
                 | Ok (data, m) => if agrees meta total data m then Some (index (erasure m)) else None
                 | Err _ => None
                 end) disks.

Lemma length_good_indices `{Hashes} {B W : Type} `{!Backend B W} meta total (disks : list B) b k :
  length (good_indices meta total disks b k) =
  length (List.filter (fun d => match read_shard d b k with
                                | Ok (data, m) => agrees meta total data m
                                | Err _ => false end) disks).
Proof.
  unfold good_indices. induction disks as [|d disks IH]; [done|]. cbn.
  destruct (read_shard d b k) as [[data m]|]; [|done]. destruct (agrees meta total data m); cbn; by rewrite IH.
Qed.

Lemma good_indices_spec `{Hashes} {B W : Type} `{!Backend B W} meta total (disks : list B) b k i :
  i ∈ good_indices meta total disks b k <->
  exists data, agreeing meta total (heal_reads disks b k) i data.
Proof.
  unfold good_indices. rewrite list_elem_of_omap. split.
  - intros (d & Hd & E). destruct (read_shard d b k) as [[data m]|] eqn:Er; [|done].
    destruct (agrees meta total data m) eqn:Ea; [|done]. injection E as <-. exists data, m.
    split_and!; [|done|done]. apply list_elem_of_fmap. exists d. by rewrite Er.
  - intros (data & m & Hm & Ha & <-). apply list_elem_of_fmap in Hm as (d & E & Hd). exists d. split; [done|].
    destruct (read_shard d b k) as [[data' m']|]; [|done]. cbn in E. injection E as <- <-. by rewrite Ha.
Qed.

(** Distinct numbers below [n] are all of them once there are [n]. *)
Lemma pigeonhole l n :
  NoDup l -> (forall i, i ∈ l -> i < n) -> n <= length l <-> (forall i, i < n -> i ∈ l).
Proof.
  intros Hnd Hlt. assert (Hsub : l ⊆+ seq 0 n).
  { apply NoDup_submseteq; [done|]. intros i Hi. apply elem_of_seq. specialize (Hlt i Hi). lia. }
  split.
  - intros Hn i Hi. apply submseteq_length_Permutation in Hsub; [|by rewrite length_seq].
    rewrite Hsub. apply elem_of_seq. lia.
  - intros Hall. rewrite <- (length_seq n 0). apply submseteq_length, NoDup_submseteq; [apply NoDup_seq|].
    intros i Hi%elem_of_seq. apply Hall. lia.
Qed.

(** ** Properties *)

(** The scanner's health check is exact when no two disks hold the same shard: it
    asks for a repair if and only if, for the metadata of the first disk that has
    the object, some shard position has no authentic, agreeing shard on any disk. *)
Theorem scan_check_exact `{Hashes} `{ReedSolomon} {B W} `{!Backend B W} `{!HealBackend B}
    (disks : list B) b k meta metas :
  omap (fun d => result_ok (stat_object d b k)) disks = meta :: metas ->
  let total := erasure_data (erasure meta) + erasure_parity (erasure meta) in
  NoDup (good_indices meta total disks b k) ->
  object_needs_healing disks b k = false <->
  forall i, i < total -> exists data, agreeing meta total (heal_reads disks b k) i data.
Proof.
  intros Hs total Hnd. unfold object_needs_healing. rewrite Hs. fold total.
  rewrite <- length_good_indices, bool_decide_eq_false, Nat.nlt_ge, pigeonhole; [|done|].
  - split; intros Hall i Hi; by apply good_indices_spec, Hall.
  - intros i Hi. apply good_indices_spec in Hi as (data & m & _ & Ha & <-). by eapply agrees_index.
Qed.

(** [find_consensus_meta] elects the metadata with the most votes.  The answer is
    [ObjectNotFound] exactly when no disk has the object and [ReadQuorum] exactly
    when no version has a vote of [data_n] disks; otherwise it is metadata of some
    disk that at least [data_n] disks agree with and that no other version beats. *)
Theorem consensus_is_plurality (reads : Reads) (data_n : nat) :
  consensus_spec (metas_of reads) data_n (find_consensus_meta reads data_n).
Proof. apply find_consensus_spec. Qed.

(** A degraded but healable object is fully repaired.  If a version has the
    consensus and at least [dn] of its shards are left, authentic and in place, then
    [heal_object] reports exactly the number of missing shards (or that there are
    none), afterwards every disk of the placement holds its shard of that version
    with matching metadata and a valid checksum, and no other disk was touched. *)
Theorem heal_restores `{Hashes} `{ReedSolomon} `{!ReedSolomonOk} {B W} `{!Backend B W} `{!HealBackend B}
    `{!HealBackendOk B W} (disks : list B) b k dn pn C shards :
  healable disks b k dn pn C shards ->
  let missing := dn + pn - good_count (classify C (dn + pn) (heal_reads disks b k)) in
  let r := heal_object disks b k in
  r.2 = Ok (if bool_decide (missing = 0) then Healthy else Repaired missing) /\
  (forall i s, shards !! i = Some s -> shard_restored disks r.1 b k C i s) /\
  (forall j, (forall i, i < dn + pn -> target_disk disks C i <> j) -> r.1 !! j = disks !! j).
Proof. apply heal_object_restores. Qed.

(** C1: Put, heal, lose disks, get.  After an acknowledged erasure-coded PUT of a new
    object on which any number of disks failed within the quorum, one repair once the
    disks can be written restores the full redundancy: whichever [parity] disks are
    lost afterwards, the streaming read returns the body. *)
Theorem put_then_heal `{Hashes} `{ReedSolomon} `{!ReedSolomonOk} `{!ReedSolomonBytewise} {B W}
    `{!Backend B W} `{!BackendOk B W} `{!HealBackend B} `{!HealBackendOk B W}
    block disks planner dn pn bucket key chunks opts mrf clen now o info disks1 :
  0 < block -> 0 < pn -> (N.of_nat (dn + pn) < 2 ^ 64)%N ->
  validate_bucket_name bucket = Ok tt -> validate_object_key key = Ok tt ->
  NoDup (map pv_backend_index (pp_disks planner)) -> NoDup (map info_volume_id disks) ->
  planner_matches disks planner -> fresh_object disks bucket key ->
  concat chunks <> [] -> (N.of_nat (length (concat chunks)) < 2 ^ 64)%N ->
  encode_and_write block disks planner dn pn bucket key (map Ok chunks) opts mrf None clen now = Some o ->
  po_result o = Ok info -> recovered bucket key (po_disks o) disks1 ->
  let r := heal_object disks1 bucket key in
  (exists n, r.2 = Ok (if bool_decide (n = 0) then Healthy else Repaired n) /\ n <= pn) /\
  forall lost disks', length lost <= pn -> after_loss bucket key lost r.1 disks' ->
    exists meta out, read_and_decode_stream block disks' dn pn bucket key = Ok (meta, map Ok out) /\
      concat out = concat chunks.
Proof.
  intros Hb Hpn Htot Hbk Hkk Hnd Hvn Hpm Hfresh Hne Hlen E Hres Hw r.
  destruct (encode_and_write_placed _ _ _ _ _ _ _ _ _ _ _ _ _ _ Hb Hpn Hnd Hpm Hfresh E Hres)
    as (c & dist & bl & bss & <- & <- & Hdn & Hdist & Hdl & Hrs & Hcv & Hdv & Hvols & Hch & Hco & Hp).
  destruct (recovered_volumes _ _ _ _ Hw) as (Hv1 & Hw1 & Hdv1). apply Hdv1 in Hdv.
  apply (placed_recovered _ _ _ _ _ _ _ _ Hp) in Hw. rewrite <- Hvols, <- Hv1 in Hvn.
  assert (Hlj : length (join_blocks (dn + pn) bss) = dn + pn)
    by (by apply length_join_blocks; eapply coded_lengths).
  assert (Hcw : exists len, codeword dn pn len (join_blocks (dn + pn) bss)).
  { apply (blocks_codeword dn pn bl); [done| |done]. intros ->. by inversion Hch. }
  destruct (placed_healed c dn pn _ dist _ disks1 Hdn Hpn Htot Hbk Hkk Hdist Hdl Hvn Hdv Hlj Hw
    Hrs Hcw Hcv Hw1) as [Hv Hpl]. split; [exact Hv|].
  intros lost disks' Hlost Hloss.
  assert (Hp' : placed c pn dn (concat chunks) dist (join_blocks (dn + pn) bss) disks').
  { eapply (placed_after_loss c pn dn _ dist _ lost); [done| |exact Hloss].
    destruct Hpl as [Ho (idxs & ? & ? & ?)]. split; [done|]. exists idxs. split_and!; try done. lia. }
  destruct (placed_collect _ _ _ _ _ _ _ Hdn Hlj Hp') as (slots & meta & Hcol & Her & Hg & Hm).
  destruct (stored_stream block dn pn c disks' (concat chunks) Hb Hdn Hlen) as (m & out & Hs & Ho & _).
  { exists bl, bss, slots, meta. split_and!; done. }
  by exists m, out.
Qed.

(** C33: The repair queue never holds an object twice and never exceeds its capacity,
    whatever the interleaving of writers, scanner, worker and shutdown.  While a
    receiver exists the dedup set is exactly what is queued or being healed; once the
    worker has ended, nothing is queued. *)
Theorem mrf_queue_invariant (n : nat) (s : MrfSystem) :
  mrf_reachable n s ->
  length (chan (sys_queue s)) <= capacity (sys_queue s) /\ NoDup (pending s) /\
  (rx (sys_queue s) <> Dropped -> seen (sys_queue s) = list_to_set (pending s)) /\
  (rx (sys_queue s) = Dropped -> pending s = []).
Proof. intros Hr. destruct (mrf_reachable_inv _ _ Hr). done. Qed.

(** Two objects queued and the receiver with the worker. *)
Definition ex_mrf : MrfSystem :=
  mkMrfSystem (take_receiver (enqueue (enqueue (mrf_new 4) (mkMrfEntry "b" "k1")).1 (mkMrfEntry "photos" "cat")).1).1 None.

Lemma ex_mrf_reachable : mrf_reachable 4 ex_mrf.
Proof.
  eapply rtc_l; [apply step_enqueue|]. eapply rtc_l; [apply step_enqueue|]. eapply rtc_l; [apply step_take|]. apply rtc_refl.
Qed.

Lemma mrf_queue_invariant_witness :
  seen (sys_queue ex_mrf) = list_to_set (pending ex_mrf) /\ NoDup (pending ex_mrf) /\ length (pending ex_mrf) = 2.
Proof.
  destruct (mrf_queue_invariant 4 ex_mrf ex_mrf_reachable) as (_ & Hn & Hs & _).
  split_and!; [by apply Hs|exact Hn|vm_compute; reflexivity].
Defined.

(** The worker's shutdown loses what is queued, and the dedup set keeps saying that it is
    pending: an object that was in the queue is acknowledged by [enqueue] again, although
    no worker will heal it. *)
Theorem shutdown_drops_queue (q : MrfQueue) (e : MrfEntry) :
  e ∈ seen q -> chan (drop_receiver q) = [] /\ enqueue (drop_receiver q) e = (drop_receiver q, Ok tt).
Proof. intros He. split; [done|]. unfold enqueue. by rewrite bool_decide_eq_true_2. Qed.

(** C34: The worker heals the queue completely and in order: from any reachable state in
    which it is idle, as many rounds as there are entries run one repair per queued
    object, first in first out, each on the disks the repairs before it left; afterwards
    nothing is queued or pending.  An object that is healable when its turn comes is
    reported healed and has every shard back in its place, authentic. *)
Theorem mrf_worker_drains `{Hashes} `{ReedSolomon} `{!ReedSolomonOk} {B W} `{!Backend B W} `{!HealBackend B}
    `{!HealBackendOk B W} (n : nat) (q : MrfQueue) (disks : list B) :
  mrf_reachable n (mkMrfSystem q None) -> rx q = Taken ->
  let r := drain_rounds (length (chan q)) disks q in
  map fst r.2 = chan q /\ r.1.1 = heal_all disks (chan q) /\
  chan r.1.2 = [] /\ pending_count r.1.2 = 0 /\
  forall i e res, r.2 !! i = Some (e, res) ->
    let before := heal_all disks (take i (chan q)) in
    let after := heal_all disks (take (S i) (chan q)) in
    heal_object before (mrf_bucket e) (mrf_key e) = (after, res) /\
    forall dn pn C shards, healable before (mrf_bucket e) (mrf_key e) dn pn C shards ->
      (exists fixed, res = Ok (if bool_decide (fixed = 0) then Healthy else Repaired fixed)) /\
      forall j s, shards !! j = Some s -> shard_restored before after (mrf_bucket e) (mrf_key e) C j s.
Proof.
  intros Hr Hrx r. destruct (mrf_reachable_inv _ _ Hr) as [_ _ Hs _ _]. cbn in Hs.
  destruct (drain_rounds_spec q disks) as (Hx1 & Hx2 & Hx3 & Hx4 & Hx5). fold r in Hx1, Hx2, Hx3, Hx4, Hx5.
  split_and!; [done|done|done| |].
  - unfold pending_count. rewrite Hx5, Hs, difference_diag_L by congruence. done.
  - intros i e res Hi before after.
    assert (He : chan q !! i = Some e) by (by rewrite <- Hx1, list_lookup_fmap, Hi).
    assert (E : heal_object before (mrf_bucket e) (mrf_key e) = (after, res)).
    { rewrite (surjective_pairing (heal_object _ _ _)). f_equal; [|symmetry; by apply Hx3].
      symmetry. by apply heal_all_S. }
    split; [done|]. intros dn pn C shards Hh. destruct (heal_object_restores _ _ _ _ _ _ _ Hh) as (Hres & Hin & _).
    rewrite E in Hres, Hin. split; [by eexists|exact Hin].
Qed.

(** An entry accepted while the same object is being healed is lost.  The dedup set
    still holds the object, so [enqueue] answers [Ok] without queueing it, and when
    the worker marks the running repair done nothing is pending: a write that failed
    on a disk after the repair read it is not repaired by the queue. *)
Theorem enqueue_during_heal_is_lost (n : nat) (e : MrfEntry) :
  let q1 := (enqueue (mrf_new (S n)) e).1 in
  exists q2, recv q1 = Some (e, q2) /\ enqueue q2 e = (q2, Ok tt) /\
    chan (mark_done q2 e) = [] /\ seen (mark_done q2 e) = ∅.
Proof.
  cbn zeta. unfold enqueue at 1, mrf_new. cbn [seen rx chan capacity length fst].
  rewrite bool_decide_eq_false_2 by set_solver. rewrite bool_decide_eq_true_2 by lia.
  cbn [fst]. eexists. split; [reflexivity|]. unfold enqueue. cbn [seen chan mark_done].
  rewrite bool_decide_eq_true_2 by set_solver. split_and!; [done|done|set_solver].
Qed.

(** The scanner's cycle queues every degraded object that its first disk lists.
    If the first disk lists the bucket and the key, the object is due and a shard of
    it is missing or corrupt, then after [run_scan_cycle] the object is queued,
    unless the queue is full. *)
Theorem scan_queues_degraded `{Hashes} `{ReedSolomon} {B W} `{!Backend B W} `{!HealBackend B}
    (d : B) (rest : list B) clock bucket key buckets keys st :
  Forall (fun b => slash ∉ bytes_of b) buckets ->
  list_buckets d = Ok buckets -> bucket ∈ buckets ->
  list_objects d bucket "" = Ok keys -> key ∈ keys ->
  rx st.1 <> Dropped -> should_scan st.2 bucket key (clock bucket key) = true ->
  object_needs_healing (d :: rest) bucket key = true ->
  let q := (run_scan_cycle (d :: rest) clock st).1 in
  mkMrfEntry bucket key ∈ seen q \/ capacity q <= length (chan q).
Proof.
  intros Hplain Hlb Hb Hlo Hk Hrx Hdue Hdeg. unfold run_scan_cycle. rewrite Hlb.
  assert (Hp : slash ∉ bytes_of bucket) by (rewrite list.Forall_forall in Hplain; by apply Hplain).
  destruct (scan_buckets_ok (d :: rest) clock bucket key Hp Hdeg d rest buckets keys st eq_refl Hplain
    Hlo Hk) as [_ Hin]; [split; [done|by left]|]. by apply Hin.
Qed.

(** ** Concrete volumes *)

Global Instance mem_heal_backend : HealBackend MemDisk := {|
  write_shard := fun d b k data meta =>
    if md_readonly d then (d, Err (Io "read-only file system"))
    else (mkMemDisk (md_volume_id d) false (<[(b, k) := (data, meta)]> (md_objects d)), Ok tt);
  info_volume_id := md_volume_id;
  list_buckets := fun d => Ok (remove_dups (map (fun o => o.1.1) (map_to_list (md_objects d))));
  list_objects := fun d b prefix =>
    Ok (omap (fun o : string * string * (bytes * ObjectMeta) =>
          if bool_decide (o.1.1 = b) && starts_with prefix o.1.2 then Some o.1.2 else None)
          (map_to_list (md_objects d)));
|}.

Global Instance mem_heal_backend_ok : HealBackendOk MemDisk MemWriter.
Proof.
  refine {| writable := fun d _ _ => md_readonly d = false |}.
  - intros d b k data meta Hw _. cbn. rewrite Hw. eexists. split_and!; [done|done| |done].
    cbn. by rewrite lookup_insert_eq.
  - done.
  - done.
  - intros d [[[b k] v] bs] meta. cbn. by destruct (md_readonly d).
Defined.

Lemma copy_code_shards (l : list bytes) (x : bytes) : Forall (fun s => s = x) (map (fun _ => x) l).
Proof. induction l; by constructor. Qed.

Lemma erased_copies (shards : list bytes) slots (x s : bytes) rest :
  Forall (fun y => y = x) shards -> erased shards slots -> omap id slots = s :: rest -> s = x.
Proof.
  intros Hall Her. revert Hall. induction Her as [|y o shards slots Ho _ IH]; intros Hall E; [done|].
  inversion Hall; subst. destruct Ho as [->| ->]; [by apply IH|]. by injection E.
Qed.

Global Instance copy_code_ok : @ReedSolomonOk copy_code.
Proof.
  split.
  - intros dn pn len data zeros Hok Hl Hz _ Hf Hfz. cbn in *. apply bool_decide_eq_true in Hok. subst dn.
    destruct data as [|x [|? ?]]; try done. cbn [app nth map]. exists (map (fun _ => x) zeros).
    inversion Hf; subst. split_and!; [done|by rewrite length_map|]. apply Forall_map.
    by apply list.Forall_forall.
  - intros dn pn len data zeros shards slots Hok Hl _ _ _ _ E Her Hg. cbn in *.
    apply bool_decide_eq_true in Hok. subst dn. destruct data as [|x [|? ?]]; try done. cbn [app nth] in E.
    injection E as <-. change (x :: map (fun _ => x) zeros) with (map (fun _ => x) (x :: zeros)) in *.
    destruct (omap id slots) as [|s rest] eqn:Es.
    + exfalso. rewrite <- length_omap_id, Es in Hg. simpl in Hg. lia.
    + assert (s = x) as -> by (eapply erased_copies; [apply (copy_code_shards (x :: zeros))|exact Her|exact Es]).
      f_equal. apply Forall2_length in Her. rewrite length_map in Her. rewrite map_map. clear -Her.
      revert slots Her. generalize (x :: zeros) as l. intros l. induction l as [|y l IH]; intros [|o slots] Hl; try done. cbn.
      f_equal. apply IH. by injection Hl.
Qed.

Global Instance copy_code_bytewise : @ReedSolomonBytewise copy_code.
Proof.
  intros dn pn len1 len2 l1 l2 s1 s2 Hok Hl1 Hl2 _ _ E1 E2. cbn in *. apply bool_decide_eq_true in Hok. subst dn.
  injection E1 as <-. injection E2 as <-. f_equal.
  destruct l1 as [|x l1]; [done|]. destruct l2 as [|y l2]; [done|]. cbn [nth zip_with map]. f_equal.
  assert (Hl : length l1 = length l2) by (simpl in *; lia). clear -Hl. revert l2 Hl.
  induction l1 as [|u l1 IH]; intros [|v l2] Hl; try done. cbn. f_equal. apply IH. by injection Hl.
Qed.

Section ConcreteHeal.
  Local Existing Instances example_hashes copy_code mem_backend mem_backend_ok.

Definition set_writable (disks : list MemDisk) : list MemDisk :=
  map (fun d => mkMemDisk (md_volume_id d) false (md_objects d)) disks.

Definition wiped (j : nat) (disks : list MemDisk) : list MemDisk :=
  alter (fun d => mkMemDisk (md_volume_id d) false ∅) j disks.

(** Three copies of an object, one of which could not be written. *)
Definition ex_degraded : MemOutcome :=
  ex_outcome (ex_copies (set_readonly 0 ex_disks3) (bytes_of "cat picture")).
Definition ex_disks1 : list MemDisk := set_writable (po_disks ex_degraded).

Lemma ex_recovered : recovered "photos" "cat" (po_disks ex_degraded) ex_disks1.
Proof.
  unfold ex_disks1, set_writable, recovered. induction (po_disks ex_degraded) as [|d l IH]; cbn; by constructor.
Qed.

Lemma ex_planner3_matches d : planner_matches (set_readonly d ex_disks3) ex_planner3.
Proof.
  intros v Hv. unfold set_readonly.
  assert (Hx : exists d', ex_disks3 !! pv_backend_index v = Some d' /\ md_volume_id d' = pv_volume_id v).
  { cbn [ex_planner3 pp_disks] in Hv. repeat (apply elem_of_cons in Hv as [->|Hv]; [by eexists|]). set_solver. }
  destruct Hx as (d' & Hd & Hi). destruct (decide (d = pv_backend_index v)) as [->|Hne].
  - exists (mkMemDisk (md_volume_id d') true (md_objects d')). by rewrite list_lookup_alter_eq, Hd.
  - exists d'. by rewrite list_lookup_alter_ne.
Qed.

Lemma put_then_heal_witness :
  (heal_object ex_disks1 "photos" "cat").2 = Ok (Repaired 1) /\
  exists meta out,
    read_and_decode_stream 16 (wiped 2 (wiped 1 (heal_object ex_disks1 "photos" "cat").1)) 1 2 "photos" "cat"
      = Ok (meta, map Ok out) /\ concat out = bytes_of "cat picture".
Proof.
  split; [vm_compute; reflexivity|].
  assert (E : ex_copies (set_readonly 0 ex_disks3) (bytes_of "cat picture") = Some ex_degraded)
    by (vm_compute; reflexivity).
  assert (Hr : po_result ex_degraded
      = Ok (ex_info (ex_copies (set_readonly 0 ex_disks3) (bytes_of "cat picture"))))
    by (vm_compute; reflexivity).
  assert (Hf : fresh_object (set_readonly 0 ex_disks3) "photos" "cat")
    by (intros [|[|[|j]]] d [= <-]; vm_compute; reflexivity).
  assert (Hv : NoDup (map info_volume_id (set_readonly 0 ex_disks3)))
    by by_decide.
  destruct (put_then_heal 16 (set_readonly 0 ex_disks3) ex_planner3 1 2 "photos" "cat"
    [bytes_of "cat picture"] ex_opts true (Some 11) 1700000000 _ _ ex_disks1 ltac:(lia) ltac:(lia) ltac:(lia)
    ltac:(vm_compute; reflexivity) ltac:(vm_compute; reflexivity) ex_planner3_nodup Hv (ex_planner3_matches 0) Hf
    ltac:(vm_compute; discriminate) ltac:(vm_compute; reflexivity) E Hr ex_recovered) as [_ Hget].
  destruct (Hget [1; 2] (wiped 2 (wiped 1 (heal_object ex_disks1 "photos" "cat").1))) as (m & out & Hs & Hc).
  - simpl. lia.
  - split.
    + intros j Hj. apply not_elem_of_cons in Hj as [H1 Hj]. apply not_elem_of_cons in Hj as [H2 _].
      unfold wiped. by rewrite !list_lookup_alter_ne by congruence.
    + intros j d Hj Hd. unfold wiped in Hd. apply elem_of_cons in Hj as [->|Hj].
      * rewrite list_lookup_alter_ne, list_lookup_alter_eq in Hd by done.
        destruct (_ !! 1) in Hd; [|done]. injection Hd as <-. reflexivity.
      * apply list_elem_of_singleton in Hj as ->. rewrite list_lookup_alter_eq in Hd.
        destruct (alter _ 1 _ !! 2) in Hd; [|done]. injection Hd as <-. reflexivity.
  - exists m, out. split; [exact Hs|]. rewrite Hc. vm_compute. reflexivity.
Defined.

Definition ex_consensus : ObjectMeta :=
  match find_consensus_meta (heal_reads ex_disks1 "photos" "cat") 1 with
  | Ok m => m
  | Err _ => mkObjectMeta 0 "" "" 0 (mkErasureMeta 0 0 0 []) "" ∅ ∅ "" false false [] None
  end.

Lemma ex_healable :
  healable ex_disks1 "photos" "cat" 1 2 ex_consensus (replicate 3 (bytes_of "cat picture")).
Proof.
  split.
  - split; vm_compute; reflexivity.
  - eexists. split; [vm_compute; reflexivity|]. split; vm_compute; reflexivity.
  - vm_compute. reflexivity.
  - intros j d data meta Hj Hr Ha.
    assert (Hall : forallb (fun j => match ex_disks1 !! j with
        | Some d => match read_shard d "photos" "cat" with
                    | Ok (data, meta) => bool_decide (data = bytes_of "cat picture")
                        && bool_decide (target_disk ex_disks1 ex_consensus (index (erasure meta)) = j)
                        && bool_decide (index (erasure meta) < 3)
                    | Err _ => true end
        | None => true end) (seq 0 3) = true) by (vm_compute; reflexivity).
    rewrite forallb_forall in Hall. specialize (Hall j). rewrite Hj, Hr in Hall.
    rewrite !andb_true_iff, !bool_decide_eq_true in Hall.
    destruct Hall as [[-> Ht] Hi]; [apply in_seq; apply lookup_lt_Some in Hj; vm_compute in Hj; lia|].
    split; [by apply lookup_replicate_2|done].
  - intros [|[|[|i]]] Hi; [..|lia]; apply Nat.ltb_lt; vm_compute; reflexivity.
  - intros [|[|[|i]]] [|[|[|i']]] Hi Hi' E; try lia; vm_compute in E; discriminate.
  - apply Nat.leb_le. vm_compute. reflexivity.
  - reflexivity.
  - exists 11. split; [done|by repeat constructor|lia|]. intros _. vm_compute. reflexivity.
  - repeat split; vm_compute; reflexivity.
  - apply (bool_decide_unpack (Forall (fun d => md_readonly d = false) ex_disks1)). vm_compute. exact I.
Qed.

Lemma heal_restores_witness :
  (heal_object ex_disks1 "photos" "cat").2 = Ok (Repaired 1) /\
  shard_restored ex_disks1 (heal_object ex_disks1 "photos" "cat").1 "photos" "cat" ex_consensus 0
    (bytes_of "cat picture").
Proof.
  destruct (heal_restores ex_disks1 "photos" "cat" 1 2 ex_consensus (replicate 3 (bytes_of "cat picture"))
    ex_healable) as (Hr & Hs & _).
  split; [rewrite Hr; vm_compute; reflexivity|]. apply Hs. reflexivity.
Defined.

(** The first entry names no object; the second is repaired. *)
Lemma mrf_worker_drains_witness :
  let r := drain_rounds 2 ex_disks1 (sys_queue ex_mrf) in
  map fst r.2 = [mkMrfEntry "b" "k1"; mkMrfEntry "photos" "cat"] /\
  r.2 !! 1 = Some (mkMrfEntry "photos" "cat", Ok (Repaired 1)) /\
  shard_restored ex_disks1 r.1.1 "photos" "cat" ex_consensus 0 (bytes_of "cat picture").
Proof.
  cbv zeta. destruct (mrf_worker_drains 4 (sys_queue ex_mrf) ex_disks1 ex_mrf_reachable eq_refl)
    as (Hm & Hd & _ & _ & Hh).
  assert (H1 : (drain_rounds 2 ex_disks1 (sys_queue ex_mrf)).2 !! 1 =
    Some (mkMrfEntry "photos" "cat", Ok (Repaired 1))) by (vm_compute; reflexivity).
  split; [exact Hm|]. split; [exact H1|].
  destruct (Hh 1 _ _ H1) as [_ Hr].
  change (length (chan (sys_queue ex_mrf))) with 2 in Hd. rewrite Hd.
  assert (Hb : heal_all ex_disks1 (take 1 (chan (sys_queue ex_mrf))) = ex_disks1) by (vm_compute; reflexivity).
  cbn [mrf_bucket mrf_key] in Hr. rewrite Hb in Hr.
  apply (Hr 1 2 ex_consensus (replicate 3 (bytes_of "cat picture")) ex_healable). reflexivity.
Defined.

(** The first disk lists the object, another one has lost its copy. *)
Definition ex_scanned : list MemDisk := wiped 2 (heal_object ex_disks1 "photos" "cat").1.
Definition ex_scan_state : MrfQueue * ScanState := (mrf_new 3, scan_new 10).

Lemma scan_queues_degraded_witness :
  let q := (run_scan_cycle ex_scanned (fun _ _ => 5%N) ex_scan_state).1 in
  mkMrfEntry "photos" "cat" ∈ seen q \/ capacity q <= length (chan q).
Proof.
  assert (Hd : exists d rest, ex_scanned = d :: rest) by (vm_compute; eauto).
  destruct Hd as (d & rest & Hd).
  assert (Hdeg : object_needs_healing ex_scanned "photos" "cat" = true) by (vm_compute; reflexivity).
  assert (Hlb : match ex_scanned with d :: _ => list_buckets d | [] => Ok [] end = Ok ["photos"])
    by (vm_compute; reflexivity).
  assert (Hlo : match ex_scanned with d :: _ => list_objects d "photos" "" | [] => Ok [] end = Ok ["cat"])
    by (vm_compute; reflexivity).
  assert (Hplain : Forall (fun b => slash ∉ bytes_of b) ["photos"])
    by by_decide.
  assert (Hrx : rx ex_scan_state.1 <> Dropped) by discriminate.
  assert (Hdue : should_scan ex_scan_state.2 "photos" "cat" ((fun _ _ => 5%N) "photos" "cat") = true)
    by (vm_compute; reflexivity).
  rewrite Hd in *.
  apply (scan_queues_degraded d rest (fun _ _ => 5%N) "photos" "cat" ["photos"] ["cat"] ex_scan_state);
    try assumption; by left.
Defined.

Lemma scan_check_exact_witness :
  object_needs_healing (heal_object ex_disks1 "photos" "cat").1 "photos" "cat" = false.
Proof.
  set (disks := (heal_object ex_disks1 "photos" "cat").1).
  destruct (omap (fun d => result_ok (stat_object d "photos" "cat")) disks) as [|meta metas] eqn:Es;
    [vm_compute in Es; discriminate|].
  assert (Hgi : match omap (fun d => result_ok (stat_object d "photos" "cat")) disks with
      | m :: _ => (erasure_data (erasure m) + erasure_parity (erasure m),
                   good_indices m (erasure_data (erasure m) + erasure_parity (erasure m)) disks "photos" "cat")
      | [] => (0, []) end = (3, [0; 1; 2])) by (vm_compute; reflexivity).
  rewrite Es in Hgi. clearbody disks. apply pair_equal_spec in Hgi as [Ht Hgi].
  apply (scan_check_exact disks "photos" "cat" meta metas Es).
  - rewrite Hgi. by_decide.
  - intros i Hi. apply good_indices_spec. rewrite Hgi. rewrite Ht in Hi.
    destruct i as [|[|[|i]]]; [..|lia]; by_decide.
Defined.

(** The scanner has a blind spot: it enumerates the first disk only.  With the
    first disk replaced by an empty one, the object on the other disks is degraded,
    yet a scan cycle looks at nothing and queues nothing. *)
Theorem scanner_misses_first_disk :
  let disks := wiped 0 (heal_object ex_disks1 "photos" "cat").1 in
  object_needs_healing disks "photos" "cat" = true /\
  is_ok (read_and_decode disks 1 2 "photos" "cat") = true /\
  run_scan_cycle disks (fun _ _ => 5%N) ex_scan_state = ex_scan_state.
Proof. cbv zeta. split_and!; vm_compute; reflexivity. Qed.

(** One data shard and four copies on five disks; the write quorum is two. *)
Definition ex_planner5 : PlacementPlanner :=
  mkPlacementPlanner 1 "c1" (imap (fun i n => mkPlacementVolume i n n) ["n1"; "n2"; "n3"; "n4"; "n5"]).
Definition ex_disks5 : list MemDisk := map (fun v => mkMemDisk v false ∅) ["n1"; "n2"; "n3"; "n4"; "n5"].
Definition ex_put5 (disks : list MemDisk) (body : bytes) (now : N) : MemOutcome :=
  ex_outcome (encode_and_write 16 disks ex_planner5 1 4 "photos" "cat" [Ok body] ex_opts true None
    (Some (length body)) now).

(** Every disk holds [body] as its shard. *)
Lemma all_hold (disks : list MemDisk) b k body :
  forallb (fun d => match read_shard d b k with
                    | Ok (data, _) => bool_decide (data = body) | Err _ => false end) disks = true ->
  Forall (fun d => exists m, read_shard d b k = Ok (body, m)) disks.
Proof.
  rewrite forallb_forall. intros Hall. apply list.Forall_forall. intros d Hd%list_elem_of_In.
  specialize (Hall d Hd). destruct (read_shard d b k) as [[data m]|]; [|done].
  apply bool_decide_eq_true in Hall. subst data. by exists m.
Qed.

(** Healing can undo an acknowledged overwrite.  The write quorum is [data + 1]
    while the consensus is a plurality, so with one data and four parity shards an
    overwrite that reached two of five disks is acknowledged and queued for repair,
    and the repair replaces the two new shards by the old version: the new body is
    gone from every disk. *)
Theorem heal_reverts_acked_put :
  let d1 := po_disks (ex_put5 ex_disks5 (bytes_of "old") 100) in
  let o2 := ex_put5 (set_readonly 0 (set_readonly 1 (set_readonly 2 d1))) (bytes_of "new") 200 in
  let healed := heal_object (set_writable (po_disks o2)) "photos" "cat" in
  is_ok (po_result o2) = true /\ po_mrf o2 = true /\ healed.2 = Ok (Repaired 2) /\
  Forall (fun d => exists m, read_shard d "photos" "cat" = Ok (bytes_of "old", m)) healed.1.
Proof.
  cbv zeta. split_and!; [vm_compute; reflexivity..|]. apply all_hold. vm_compute. reflexivity.
Qed.

End ConcreteHeal.
