(* ===== verification/RaftLog.v ===== *)
(** The on-disk raft log ([src/raft/storage/log.rs]): fixed-size record headers,
    the index rebuilt by a scan on open, append, read, truncation of the tail and
    purge of the head.

    The file is its bytes; reads past its end fail, seeks do not.  The index, a
    [BTreeMap], is a [gmap] whose keys are iterated in order.  Offsets are [nat];
    the scan takes fuel, and every round consumes a header, so the length of the
    file is enough ([rebuild_records]).  Failing system calls other than reads past
    the end are not modelled. *)

From Stdlib Require Import Ascii NArith.
From stdpp Require Import base list gmap strings numbers sorting.
From S2P Require Import Prelude Segment.

Definition HEADER_LEN : nat := 8 + 8 + 4.

Record LogEntry : Type := mkLogEntry {
  log_index : N;
  log_term : N;
  op_bytes : bytes;
}.

Inductive LogError : Type :=
  | LogIo
  | LogCorruption
  | LogNotFound (index : N)
  | NonMonotonic (prev got : N).

Abbreviation LogIndex := (gmap N (nat * N)).

Record LogStore : Type := mkLogStore {
  log_file : bytes;
  log_map : LogIndex;
  log_file_len : nat;
}.

(** Keys of a [BTreeMap] in order. *)
Definition sorted_keys (m : LogIndex) : list N := merge_sort N.le (map fst (map_to_list m)).

Definition last_log_index (s : LogStore) : option N := list.last (sorted_keys (log_map s)).
Definition first_log_index (s : LogStore) : option N := head (sorted_keys (log_map s)).
Definition last_log_term (s : LogStore) : option N :=
  i ← last_log_index s; snd <$> log_map s !! i.
Definition entry_count (s : LogStore) : nat := base.size (log_map s).

Definition record_header (e : LogEntry) : bytes :=
  le_bytes 8 (log_index e) ++ le_bytes 8 (log_term e) ++ le_bytes 4 (N.of_nat (length (op_bytes e))).

Definition record (e : LogEntry) : bytes := record_header e ++ op_bytes e.

(** The three fields of a header. *)
Definition header_index (h : bytes) : N := le_val (take 8 h).
Definition header_term (h : bytes) : N := le_val (sub_list 8 8 h).
Definition header_op_len (h : bytes) : nat := N.to_nat (le_val (sub_list 16 4 h)).

(** [rebuild_index]: read a header, skip its body, until a header is cut off. *)
Fixpoint rebuild_index (fuel : nat) (file : bytes) (offset : nat) (idx : LogIndex) : LogIndex * nat :=
  match fuel with
  | 0 => (idx, offset)
  | S fuel =>
      match slice offset HEADER_LEN file with
      | None => (idx, offset)
      | Some h =>
          rebuild_index fuel file (offset + HEADER_LEN + header_op_len h)
            (<[header_index h := (offset, header_term h)]> idx)
      end
  end.

Definition open_log (file : bytes) : LogStore :=
  let r := rebuild_index (S (length file)) file 0 ∅ in mkLogStore file r.1 r.2.

(** The loop of [append]: the file and the index change entry by entry. *)
Fixpoint append_loop (entries : list LogEntry) (prev : N) (offset : nat) (file : bytes) (idx : LogIndex)
    : bytes * LogIndex * result LogError nat :=
  match entries with
  | [] => (file, idx, Ok offset)
  | e :: entries =>
      if negb (bool_decide (prev = 0%N)) && bool_decide (log_index e <= prev)%N
      then (file, idx, Err (NonMonotonic prev (log_index e)))
      else if bool_decide (2 ^ 32 - 1 < N.of_nat (length (op_bytes e)))%N
      then (file, idx, Err LogCorruption)
      else
        append_loop entries (log_index e) (offset + HEADER_LEN + length (op_bytes e))
          (file ++ record e) (<[log_index e := (offset, log_term e)]> idx)
  end.

Definition append_log (s : LogStore) (entries : list LogEntry) : LogStore * result LogError unit :=
  let r := append_loop entries (default 0%N (last_log_index s)) (log_file_len s) (log_file s) (log_map s) in
  match r.2 with
  | Ok offset => (mkLogStore r.1.1 r.1.2 offset, Ok tt)
  | Err e => (mkLogStore r.1.1 r.1.2 (log_file_len s), Err e)
  end.

Definition read_log (s : LogStore) (index : N) : result LogError LogEntry :=
  p ← ok_or (log_map s !! index) (LogNotFound index);
  h ← ok_or (slice p.1 HEADER_LEN (log_file s)) LogIo;
  if negb (bool_decide (header_index h = index)) then Err LogCorruption
  else
    body ← ok_or (slice (p.1 + HEADER_LEN) (header_op_len h) (log_file s)) LogIo;
    Ok (mkLogEntry index (header_term h) body).

(** Reads of a list of indexes, in order; the first error ends it. *)
Fixpoint read_all (s : LogStore) (idxs : list N) : result LogError (list LogEntry) :=
  match idxs with
  | [] => Ok []
  | i :: idxs => e ← read_log s i; es ← read_all s idxs; Ok (e :: es)
  end.

(** [read_range]: the existing entries of [start..=end]. *)
Definition read_range_log (s : LogStore) (start end_ : N) : result LogError (list LogEntry) :=
  if bool_decide (end_ < start)%N then Ok []
  else read_all s (List.filter (fun i => bool_decide (start <= i)%N && bool_decide (i <= end_)%N)
                     (sorted_keys (log_map s))).

Definition truncate_after (s : LogStore) (last_kept : N) : LogStore * result LogError unit :=
  let cut offset :=
    (mkLogStore (set_len offset (log_file s))
       (filter (fun p : N * (nat * N) => (p.1 <= last_kept)%N) (log_map s)) offset, Ok tt) in
  match log_map s !! last_kept with
  | Some (off, _) =>
      match read_log s last_kept with
      | Err e => (s, Err e)
      | Ok entry => cut (off + HEADER_LEN + length (op_bytes entry))
      end
  | None =>
      if bool_decide (default 0 (last_log_index s) <= last_kept)%N then (s, Ok tt) else cut 0
  end.

(** The copy of the kept records to the new file. *)
Fixpoint purge_copy (s : LogStore) (idxs : list N) (file : bytes) (idx : LogIndex)
    : result LogError (bytes * LogIndex) :=
  match idxs with
  | [] => Ok (file, idx)
  | i :: idxs =>
      e ← read_log s i;
      purge_copy s idxs (file ++ record e) (<[log_index e := (length file, log_term e)]> idx)
  end.

Definition purge_before (s : LogStore) (first_kept : N) : LogStore * result LogError unit :=
  let kept := List.filter (fun i => bool_decide (first_kept <= i)%N) (sorted_keys (log_map s)) in
  if bool_decide (kept = []) && bool_decide (log_map s = ∅) then (s, Ok tt)
  else if bool_decide (length kept = base.size (log_map s)) then (s, Ok tt)
  else
    match purge_copy s kept [] ∅ with
    | Err e => (s, Err e)
    | Ok (file, idx) => (mkLogStore file idx (length file), Ok tt)
    end.

(** ** Lemmas: records *)

Record entry_wf (e : LogEntry) : Prop := {
  wf_index : (log_index e < 2 ^ 64)%N;
  wf_term : (log_term e < 2 ^ 64)%N;
  wf_op : (N.of_nat (length (op_bytes e)) < 2 ^ 32)%N;
}.

Definition record_len (e : LogEntry) : nat := HEADER_LEN + length (op_bytes e).

Lemma length_record_header e : length (record_header e) = HEADER_LEN.
Proof. unfold record_header, HEADER_LEN. lens. Qed.

Lemma length_record e : length (record e) = record_len e.
Proof. unfold record, record_len. rewrite length_app, length_record_header. done. Qed.

Lemma header_fields e :
  entry_wf e ->
  header_index (record_header e) = log_index e /\ header_term (record_header e) = log_term e /\
  header_op_len (record_header e) = length (op_bytes e).
Proof.
  intros [Hi Ht Ho]. unfold header_index, header_term, header_op_len, record_header.
  rewrite take_app_length' by lens. unfold sub_list.
  rewrite drop_app_length' by lens. rewrite take_app_length' by lens.
  rewrite (drop_app_ge _ _ 16) by lens. rewrite length_le_bytes.
  rewrite (drop_app_length' _ _ (16 - 8)) by lens. rewrite take_ge by lens.
  split_and!; [by apply le_val_le_bytes_small..|]. rewrite le_val_le_bytes_small by done. lia.
Qed.

Definition records (es : list LogEntry) : bytes := concat (map record es).

Lemma records_app es1 es2 : records (es1 ++ es2) = records es1 ++ records es2.
Proof. unfold records. by rewrite map_app, concat_app. Qed.

Lemma records_cons e es : records (e :: es) = record e ++ records es.
Proof. done. Qed.

Lemma records_snoc es e : records (es ++ [e]) = records es ++ record e.
Proof. rewrite records_app. unfold records at 2. cbn [map concat]. by rewrite app_nil_r. Qed.

Lemma length_records_snoc es e :
  length (records (es ++ [e])) = length (records es) + HEADER_LEN + length (op_bytes e).
Proof. rewrite records_snoc, length_app, length_record. unfold record_len. lia. Qed.

(** Where the records of a log lie. *)
Fixpoint positions (off : nat) (es : list LogEntry) : list (N * (nat * N)) :=
  match es with
  | [] => []
  | e :: es => (log_index e, (off, log_term e)) :: positions (off + record_len e) es
  end.

Lemma positions_app off es1 es2 :
  positions off (es1 ++ es2) = positions off es1 ++ positions (off + length (records es1)) es2.
Proof.
  revert off. induction es1 as [|e es1 IH]; intros off; cbn [app positions].
  - cbn. by rewrite Nat.add_0_r.
  - by rewrite IH, records_cons, length_app, length_record, Nat.add_assoc.
Qed.

Lemma positions_keys off es : map fst (positions off es) = map log_index es.
Proof. revert off. induction es as [|e es IH]; intros off; cbn; [done|]. by rewrite IH. Qed.

(** Header and body of a record in the middle of a file. *)
Lemma slice_record pre e post :
  slice (length pre) HEADER_LEN (pre ++ record e ++ post) = Some (record_header e) /\
  slice (length pre + HEADER_LEN) (length (op_bytes e)) (pre ++ record e ++ post) = Some (op_bytes e).
Proof.
  unfold record. rewrite <- app_assoc. split.
  - rewrite <- (length_record_header e). apply slice_app_mid.
  - rewrite (app_assoc pre). rewrite <- (length_record_header e), <- length_app. apply slice_app_mid.
Qed.

(** ** Lemmas: the index of a log *)

(** The indexes of a log increase strictly. *)
Definition increasing (es : list LogEntry) : Prop := StronglySorted N.lt (map log_index es).

Lemma increasing_app es1 es2 :
  increasing (es1 ++ es2) <->
  increasing es1 /\ increasing es2 /\
  forall a b, a ∈ es1 -> b ∈ es2 -> (log_index a < log_index b)%N.
Proof.
  unfold increasing. rewrite map_app. split.
  - intros Hs. split_and!; [by eapply StronglySorted_app_1_l|by eapply StronglySorted_app_1_r|].
    intros a b Ha Hb. eapply StronglySorted_app_1_elem_of; [exact Hs|by apply list_elem_of_fmap_2..].
  - intros (H1 & H2 & H12). apply StronglySorted_app_2; [|done|done].
    intros x y (a & -> & Ha)%list_elem_of_fmap (b & -> & Hb)%list_elem_of_fmap. by apply H12.
Qed.

Lemma increasing_NoDup es : increasing es -> NoDup (map log_index es).
Proof.
  unfold increasing. induction 1 as [|x l Hs IH Hf]; constructor; [|done].
  intros Hin. rewrite list.Forall_forall in Hf. specialize (Hf x Hin). lia.
Qed.

Definition index_of (es : list LogEntry) : LogIndex := list_to_map (positions 0 es).

Lemma index_of_snoc es e :
  increasing (es ++ [e]) ->
  index_of (es ++ [e]) = <[log_index e := (length (records es), log_term e)]> (index_of es).
Proof.
  intros Hinc. unfold index_of. rewrite positions_app. cbn [positions]. apply list_to_map_snoc.
  change (log_index e ∉ map fst (positions 0 es)). rewrite positions_keys.
  apply increasing_app in Hinc as (_ & _ & Hlt).
  intros (a & Ha & Hin)%list_elem_of_fmap. specialize (Hlt a e Hin ltac:(by left)). lia.
Qed.

Lemma index_of_Some es i p :
  increasing es -> index_of es !! i = Some p <->
  exists es1 e es2, es = es1 ++ e :: es2 /\ log_index e = i /\ p = (length (records es1), log_term e).
Proof.
  intros Hinc. unfold index_of. rewrite <- elem_of_list_to_map
    by (change (NoDup (map fst (positions 0 es))); rewrite positions_keys; by apply increasing_NoDup).
  clear Hinc. split.
  - assert (Hgen : forall off, (i, p) ∈ positions off es -> exists es1 e es2,
      es = es1 ++ e :: es2 /\ log_index e = i /\ p = (off + length (records es1), log_term e)).
    { induction es as [|e es IH]; intros off Hin; cbn in Hin; [set_solver|].
      apply elem_of_cons in Hin as [E|Hin].
      - injection E as -> ->. exists [], e, es. cbn. by rewrite Nat.add_0_r.
      - destruct (IH _ Hin) as (es1 & e' & es2 & -> & Hi & ->). exists (e :: es1), e', es2.
        split_and!; [done|done|]. rewrite records_cons, length_app, length_record, Nat.add_assoc. done. }
    apply Hgen.
  - intros (es1 & e & es2 & -> & <- & ->). rewrite positions_app. apply elem_of_app. right. by left.
Qed.

Lemma index_of_None es i :
  increasing es -> index_of es !! i = None <-> i ∉ map log_index es.
Proof.
  intros Hinc. unfold index_of. rewrite <- not_elem_of_list_to_map.
  change ((positions 0 es).*1) with (map fst (positions 0 es)). by rewrite positions_keys.
Qed.

Lemma sorted_keys_of es : increasing es -> sorted_keys (index_of es) = map log_index es.
Proof.
  intros Hinc. unfold sorted_keys.
  assert (Hp : map fst (map_to_list (index_of es)) ≡ₚ map log_index es).
  { unfold index_of. rewrite map_to_list_to_map; [by rewrite positions_keys|].
    change (NoDup (map fst (positions 0 es))). rewrite positions_keys. by apply increasing_NoDup. }
  apply (StronglySorted_unique N.le).
  - apply Sorted_StronglySorted; [apply _|]. apply Sorted_merge_sort, _.
  - unfold increasing in Hinc. clear Hp. induction Hinc as [|x l Hs IH Hf]; constructor; [done|].
    eapply Forall_impl; [exact Hf|]. cbn. lia.
  - by rewrite merge_sort_Permutation.
Qed.

(** A store that holds the entries [es]. *)
Record holds_log (s : LogStore) (es : list LogEntry) : Prop := {
  hold_file : log_file s = records es;
  hold_len : log_file_len s = length (records es);
  hold_map : log_map s = index_of es;
  hold_inc : increasing es;
  hold_wf : Forall entry_wf es;
}.

Lemma holds_last s es : holds_log s es -> last_log_index s = log_index <$> list.last es.
Proof.
  intros [_ _ Hm Hi _]. unfold last_log_index. rewrite Hm, sorted_keys_of by done. apply fmap_last.
Qed.

Lemma holds_read s es1 e es2 :
  holds_log s (es1 ++ e :: es2) -> read_log s (log_index e) = Ok e.
Proof.
  intros [Hf _ Hm Hi Hw]. unfold read_log.
  assert (Hl : log_map s !! log_index e = Some (length (records es1), log_term e)).
  { rewrite Hm. apply index_of_Some; [done|]. by exists es1, e, es2. }
  rewrite Hl. cbn [ok_or mbind result_bind fst].
  rewrite Hf, records_app, records_cons.
  destruct (slice_record (records es1) e (records es2)) as [Hh Hb]. rewrite Hh.
  cbn [ok_or mbind result_bind].
  assert (He : entry_wf e) by (apply Forall_app in Hw as [_ Hw]; by inversion Hw).
  destruct (header_fields e He) as (-> & -> & ->). rewrite bool_decide_eq_true_2 by done.
  cbn [negb]. rewrite Hb. by destruct e.
Qed.

Lemma holds_read_None s es i : holds_log s es -> i ∉ map log_index es -> read_log s i = Err (LogNotFound i).
Proof.
  intros [_ _ Hm Hi _] Hn. unfold read_log. rewrite Hm, (proj2 (index_of_None es i Hi) Hn). done.
Qed.

(** ** Lemmas: the operations *)

Lemma append_loop_ok new prev es :
  increasing (es ++ new) -> Forall entry_wf new ->
  prev = default 0%N (log_index <$> list.last es) ->
  append_loop new prev (length (records es)) (records es) (index_of es) =
    (records (es ++ new), index_of (es ++ new), Ok (length (records (es ++ new)))).
Proof.
  revert es prev. induction new as [|e new IH]; intros es prev Hinc Hwf ->; cbn [append_loop].
  { by rewrite app_nil_r. }
  apply Forall_cons_1 in Hwf as [[Hi Ht Ho] Hwf].
  assert (Hlt : forall p, list.last es = Some p -> (log_index p < log_index e)%N).
  { intros p (es' & ->)%last_Some. apply increasing_app in Hinc as (_ & _ & H). apply H; set_solver. }
  rewrite (bool_decide_eq_false_2 (2 ^ 32 - 1 < _)%N) by lia.
  destruct (negb _ && _) eqn:E.
  { apply andb_true_iff in E as [E1 E2]. apply bool_decide_eq_true in E2.
    destruct (list.last es) as [p|] eqn:L; cbn in *; [specialize (Hlt p eq_refl); lia|].
    by rewrite bool_decide_eq_true_2 in E1. }
  change (e :: new) with ([e] ++ new) in *. rewrite app_assoc in *.
  assert (Hinc' : increasing (es ++ [e])) by (apply increasing_app in Hinc; tauto).
  rewrite <- index_of_snoc by done.
  rewrite <- records_snoc, <- length_records_snoc.
  apply IH; [done|done|]. by rewrite last_snoc.
Qed.

Lemma holds_log_append s es new :
  holds_log s es -> increasing (es ++ new) -> Forall entry_wf new ->
  exists s', append_log s new = (s', Ok tt) /\ holds_log s' (es ++ new).
Proof.
  intros Hh Hinc Hwf. unfold append_log. rewrite (holds_last _ _ Hh).
  destruct Hh as [-> -> -> Hi Hw]. rewrite (append_loop_ok new _ es) by done. cbn.
  eexists. split; [done|]. constructor; cbn; try done. by apply Forall_app.
Qed.

Lemma rebuild_records es2 es1 fuel :
  increasing (es1 ++ es2) -> Forall entry_wf es2 -> length es2 < fuel ->
  rebuild_index fuel (records (es1 ++ es2)) (length (records es1)) (index_of es1) =
    (index_of (es1 ++ es2), length (records (es1 ++ es2))).
Proof.
  revert es1 fuel. induction es2 as [|e es2 IH]; intros es1 [|fuel] Hinc Hwf Hf; cbn [length] in Hf;
    try lia; cbn [rebuild_index].
  { rewrite app_nil_r. unfold slice. rewrite decide_False by (unfold HEADER_LEN; lia). done. }
  apply Forall_cons_1 in Hwf as [He Hwf].
  rewrite records_app, records_cons at 1.
  rewrite (proj1 (slice_record _ e _)). destruct (header_fields e He) as (-> & -> & ->).
  change (e :: es2) with ([e] ++ es2) in *. rewrite app_assoc in *.
  rewrite <- index_of_snoc by (apply increasing_app in Hinc; tauto).
  rewrite <- length_records_snoc.
  apply IH; [done|done|lia].
Qed.

Lemma holds_open es : increasing es -> Forall entry_wf es -> holds_log (open_log (records es)) es.
Proof.
  intros Hinc Hwf. unfold open_log.
  pose proof (rebuild_records es [] (S (length (records es))) Hinc Hwf) as H. cbn [app records] in H.
  change (rebuild_index (S (length (records es))) (records es) 0 ∅) with
    (rebuild_index (S (length (records es))) (records es) (length (records [])) (index_of [])).
  rewrite H; [by constructor|].
  enough (length es <= length (records es)) by lia. clear.
  induction es as [|e es IH]; [done|].
  rewrite records_cons, length_app, length_record. unfold record_len, HEADER_LEN. cbn [length]. lia.
Qed.

Lemma holds_read_elem s es e : holds_log s es -> e ∈ es -> read_log s (log_index e) = Ok e.
Proof. intros Hh (es1 & es2 & ->)%list_elem_of_split. by eapply holds_read. Qed.

(** Entries selected by index. *)
Definition keep (f : N -> bool) (es : list LogEntry) : list LogEntry :=
  List.filter (fun e => f (log_index e)) es.

Lemma keep_app f es1 es2 : keep f (es1 ++ es2) = keep f es1 ++ keep f es2.
Proof. apply List.filter_app. Qed.

Lemma keep_all f es : (forall e, e ∈ es -> f (log_index e) = true) -> keep f es = es.
Proof.
  induction es as [|e es IH]; intros H; [done|]. cbn. rewrite (H e) by (by left).
  f_equal. apply IH. intros e' He'. apply H. by right.
Qed.

Lemma keep_none f es : (forall e, e ∈ es -> f (log_index e) = false) -> keep f es = [].
Proof.
  induction es as [|e es IH]; intros H; [done|]. cbn. rewrite (H e) by (by left).
  apply IH. intros e' He'. apply H. by right.
Qed.

Lemma elem_of_keep f es e : e ∈ keep f es <-> e ∈ es /\ f (log_index e) = true.
Proof. unfold keep. rewrite !list_elem_of_In. apply List.filter_In. Qed.

Lemma keep_indexes f es : List.filter f (map log_index es) = map log_index (keep f es).
Proof. induction es as [|e es IH]; cbn; [done|]. rewrite IH. by destruct (f (log_index e)). Qed.

Lemma keep_increasing f es : increasing es -> increasing (keep f es).
Proof.
  unfold increasing. induction es as [|e es IH]; cbn; intros Hs; [done|].
  apply StronglySorted_inv in Hs as [Hs Hf].
  destruct (f (log_index e)); cbn; [|by apply IH]. constructor; [by apply IH|].
  rewrite list.Forall_forall in *. intros x (a & -> & Ha)%list_elem_of_fmap. apply Hf.
  apply elem_of_keep in Ha as [Ha _]. by apply list_elem_of_fmap_2.
Qed.

Lemma keep_wf f es : Forall entry_wf es -> Forall entry_wf (keep f es).
Proof. rewrite !list.Forall_forall. intros H e [He _]%elem_of_keep. by apply H. Qed.

Lemma keep_same_length f es : length (keep f es) = length es -> keep f es = es.
Proof.
  intros H. apply keep_all. intros e He. destruct (f (log_index e)) eqn:E; [done|exfalso].
  apply list_elem_of_split in He as (es1 & es2 & ->). rewrite keep_app in H. cbn in H. rewrite E in H.
  pose proof (List.filter_length_le (fun e => f (log_index e)) es1).
  pose proof (List.filter_length_le (fun e => f (log_index e)) es2).
  rewrite !length_app in H. unfold keep in H. cbn [length] in H. lia.
Qed.

Lemma size_index_of es : increasing es -> base.size (index_of es) = length es.
Proof.
  intros Hi. unfold index_of. rewrite map_size_list_to_map.
  - by rewrite <- (length_map fst), positions_keys, length_map.
  - change (NoDup (map fst (positions 0 es))). rewrite positions_keys. by apply increasing_NoDup.
Qed.

(** The entries up to [k] of an index are the index of the prefix that ends at [k]. *)
Lemma index_of_prefix es1 es2 k :
  increasing (es1 ++ es2) -> (forall e, e ∈ es1 -> (log_index e <= k)%N) ->
  (forall e, e ∈ es2 -> (k < log_index e)%N) ->
  filter (fun p : N * (nat * N) => (p.1 <= k)%N) (index_of (es1 ++ es2)) = index_of es1.
Proof.
  intros Hinc H1 H2. pose proof (proj1 (increasing_app _ _) Hinc) as (Hi1 & _ & _).
  apply map_eq. intros i. unfold index_of at 1. rewrite positions_app, list_to_map_app.
  change (list_to_map (positions 0 es1)) with (index_of es1).
  destruct (index_of es1 !! i) as [p|] eqn:E.
  - apply map_lookup_filter_Some. split; [by apply lookup_union_Some_l|]. cbn.
    apply index_of_Some in E as (a & e & b & -> & <- & _); [|done]. apply H1. set_solver.
  - apply map_lookup_filter_None. right. intros p Hp. cbn.
    rewrite lookup_union_r in Hp by done. apply elem_of_list_to_map_2 in Hp.
    apply (list_elem_of_fmap_2 fst) in Hp. cbn in Hp.
    change (i ∈ map fst (positions (0 + length (records es1)) es2)) in Hp. rewrite positions_keys in Hp.
    apply list_elem_of_fmap in Hp as (e & -> & He). specialize (H2 e He). lia.
Qed.

Lemma set_len_prefix (a b : bytes) : set_len (length a) (a ++ b) = a.
Proof. unfold set_len. rewrite resize_le by lens. by apply take_app_length'. Qed.

Lemma holds_cut s es1 es2 k :
  holds_log s (es1 ++ es2) -> (forall e, e ∈ es1 -> (log_index e <= k)%N) ->
  (forall e, e ∈ es2 -> (k < log_index e)%N) ->
  holds_log (mkLogStore (set_len (length (records es1)) (log_file s))
      (filter (fun p : N * (nat * N) => (p.1 <= k)%N) (log_map s)) (length (records es1)))
    (keep (fun i => bool_decide (i <= k)%N) (es1 ++ es2)).
Proof.
  intros [-> _ -> Hi Hw] H1 H2. rewrite keep_app, keep_all, keep_none, app_nil_r.
  - constructor; cbn.
    + rewrite records_app. apply set_len_prefix.
    + done.
    + by apply index_of_prefix.
    + apply increasing_app in Hi. tauto.
    + apply Forall_app in Hw. tauto.
  - intros e He. apply bool_decide_eq_false_2. specialize (H2 e He). lia.
  - intros e He. apply bool_decide_eq_true_2. by apply H1.
Qed.

(** When [truncate_after] cuts at an entry: it exists, or nothing lies past it, or everything does. *)
Definition cut_exists (es : list LogEntry) (k : N) : Prop :=
  k ∈ map log_index es \/ (forall e, e ∈ es -> (log_index e <= k)%N) \/
  (forall e, e ∈ es -> (k < log_index e)%N).

Lemma holds_truncate s es k :
  holds_log s es -> cut_exists es k ->
  exists s', truncate_after s k = (s', Ok tt) /\ holds_log s' (keep (fun i => bool_decide (i <= k)%N) es).
Proof.
  intros Hh Hc. unfold truncate_after. destruct (log_map s !! k) as [[off t]|] eqn:E.
  - rewrite (hold_map _ _ Hh) in E. apply index_of_Some in E as (es1 & e & es2 & -> & <- & Hp);
      [|apply Hh]. injection Hp as -> ->. rewrite (holds_read _ _ _ _ Hh).
    eexists. split; [done|]. rewrite <- length_records_snoc.
    change (e :: es2) with ([e] ++ es2) in *. rewrite app_assoc in *.
    pose proof (hold_inc _ _ Hh) as Hi. apply holds_cut; [done| |].
    + intros a Ha. apply increasing_app in Hi as (Hi & _ & _). apply increasing_app in Hi as (_ & _ & Hi).
      apply elem_of_app in Ha as [Ha|Ha]; [|apply list_elem_of_singleton in Ha as ->; done].
      specialize (Hi a e Ha ltac:(by left)). lia.
    + intros b Hb. apply increasing_app in Hi as (_ & _ & Hi). apply Hi; [|done].
      apply elem_of_app. right. by left.
  - rewrite (hold_map _ _ Hh) in E. apply index_of_None in E; [|apply Hh].
    rewrite (holds_last _ _ Hh). destruct Hc as [Hc|[Hc|Hc]]; [done| |].
    + exists s. rewrite bool_decide_eq_true_2.
      * split; [done|]. rewrite keep_all; [done|]. intros e He. apply bool_decide_eq_true_2. by apply Hc.
      * destruct (list.last es) as [e|] eqn:L; cbn; [|lia].
        apply Hc. apply last_Some in L as (l & ->). set_solver.
    + destruct (bool_decide _) eqn:B.
      * exists s. split; [done|]. apply bool_decide_eq_true in B.
        destruct (list.last es) as [e|] eqn:L; cbn in B.
        -- assert (He : e ∈ es) by (apply last_Some in L as (l & ->); set_solver).
           specialize (Hc e He). lia.
        -- apply last_None in L as ->. done.
      * eexists. split; [done|]. apply (holds_cut s [] es k); [done|set_solver|done].
Qed.

Lemma purge_copy_ok s ks pre :
  (forall e, e ∈ ks -> read_log s (log_index e) = Ok e) -> increasing (pre ++ ks) ->
  purge_copy s (map log_index ks) (records pre) (index_of pre) =
    Ok (records (pre ++ ks), index_of (pre ++ ks)).
Proof.
  revert pre. induction ks as [|e ks IH]; intros pre Hr Hinc; cbn [map purge_copy].
  { by rewrite app_nil_r. }
  rewrite (Hr e) by (by left). cbn [mbind result_bind].
  change (e :: ks) with ([e] ++ ks) in Hinc |- *. rewrite app_assoc in *.
  rewrite <- index_of_snoc by (apply increasing_app in Hinc; tauto). rewrite <- records_snoc.
  apply IH; [|done]. intros e' He'. apply Hr. by right.
Qed.

Lemma holds_purge s es k :
  holds_log s es ->
  exists s', purge_before s k = (s', Ok tt) /\ holds_log s' (keep (fun i => bool_decide (k <= i)%N) es).
Proof.
  intros Hh. unfold purge_before. pose proof (hold_inc _ _ Hh) as Hi.
  rewrite (hold_map _ _ Hh), sorted_keys_of, keep_indexes, size_index_of, length_map by done.
  set (ks := keep _ es).
  destruct (bool_decide _ && _) eqn:E.
  { apply andb_true_iff in E as [_ E]. apply bool_decide_eq_true in E. exists s. split; [done|].
    pose proof (size_index_of es Hi) as Hsz. rewrite E, map_size_empty in Hsz.
    destruct es; [done|discriminate]. }
  clear E. case_bool_decide as Hl.
  { exists s. split; [done|]. unfold ks. by rewrite keep_same_length. }
  change (purge_copy s (map log_index ks) [] ∅) with
    (purge_copy s (map log_index ks) (records []) (index_of [])).
  rewrite purge_copy_ok; cbn [app].
  - eexists. split; [done|]. constructor; cbn; [done..| |].
    + by apply keep_increasing.
    + apply keep_wf, Hh.
  - intros e [He _]%elem_of_keep. by apply (holds_read_elem s es).
  - by apply keep_increasing.
Qed.

(** ** The log as a list of entries *)

Inductive log_op : Type :=
  | OpAppend (entries : list LogEntry)
  | OpTruncate (last_kept : N)
  | OpPurge (first_kept : N)
  | OpReopen.

Definition log_step (s : LogStore) (op : log_op) : LogStore * result LogError unit :=
  match op with
  | OpAppend entries => append_log s entries
  | OpTruncate k => truncate_after s k
  | OpPurge k => purge_before s k
  | OpReopen => (open_log (log_file s), Ok tt)
  end.

(** The operations one after the other; an error ends the run. *)
Fixpoint log_run (s : LogStore) (ops : list log_op) : LogStore * result LogError unit :=
  match ops with
  | [] => (s, Ok tt)
  | op :: ops =>
      match log_step s op with
      | (s', Ok _) => log_run s' ops
      | (s', Err e) => (s', Err e)
      end
  end.

(** The specification: a list of entries. *)
Definition spec_step (es : list LogEntry) (op : log_op) : list LogEntry :=
  match op with
  | OpAppend entries => es ++ entries
  | OpTruncate k => keep (fun i => bool_decide (i <= k)%N) es
  | OpPurge k => keep (fun i => bool_decide (k <= i)%N) es
  | OpReopen => es
  end.

(** What a caller owes: appended indexes increase past the log, entries fit their
    fields, and a truncation cuts where there is an entry to cut at. *)
Definition admissible (es : list LogEntry) (op : log_op) : Prop :=
  match op with
  | OpAppend entries => increasing (es ++ entries) /\ Forall entry_wf entries
  | OpTruncate k => cut_exists es k
  | OpPurge _ | OpReopen => True
  end.

Fixpoint admissible_run (es : list LogEntry) (ops : list log_op) : Prop :=
  match ops with
  | [] => True
  | op :: ops => admissible es op /\ admissible_run (spec_step es op) ops
  end.

Lemma holds_step s es op :
  holds_log s es -> admissible es op ->
  exists s', log_step s op = (s', Ok tt) /\ holds_log s' (spec_step es op).
Proof.
  intros Hh Ha. destruct op as [new|k|k|]; cbn in *.
  - apply holds_log_append; tauto.
  - by apply holds_truncate.
  - by apply holds_purge.
  - eexists. split; [done|]. rewrite (hold_file _ _ Hh). apply holds_open; apply Hh.
Qed.

Lemma holds_run ops s es :
  holds_log s es -> admissible_run es ops ->
  exists s', log_run s ops = (s', Ok tt) /\ holds_log s' (foldl spec_step es ops).
Proof.
  revert s es. induction ops as [|op ops IH]; intros s es Hh Ha; cbn in *; [by exists s|].
  destruct Ha as [Ha Har]. destruct (holds_step s es op Hh Ha) as (s' & -> & Hh'). by apply IH.
Qed.

Lemma holds_read_all s es ks :
  holds_log s es -> (forall e, e ∈ ks -> e ∈ es) -> read_all s (map log_index ks) = Ok ks.
Proof.
  intros Hh. induction ks as [|e ks IH]; intros Hin; [done|]. cbn [map read_all].
  rewrite (holds_read_elem s es e) by (try done; apply Hin; by left). cbn [mbind result_bind].
  rewrite IH by (intros e' He'; apply Hin; by right). done.
Qed.

Lemma holds_range s es a b :
  holds_log s es ->
  read_range_log s a b = Ok (keep (fun i => bool_decide (a <= i)%N && bool_decide (i <= b)%N) es).
Proof.
  intros Hh. unfold read_range_log. case_bool_decide as Hab.
  - rewrite keep_none; [done|]. intros e _. apply andb_false_iff.
    destruct (decide (a <= log_index e)%N); [right|left]; apply bool_decide_eq_false_2; lia.
  - rewrite (hold_map _ _ Hh), sorted_keys_of, keep_indexes by apply Hh.
    apply (holds_read_all s es); [done|]. by intros e [He _]%elem_of_keep.
Qed.

Lemma holds_term s es : holds_log s es -> last_log_term s = log_term <$> list.last es.
Proof.
  intros Hh. unfold last_log_term. rewrite (holds_last _ _ Hh), (hold_map _ _ Hh).
  destruct (list.last es) as [e|] eqn:L; cbn; [|done]. apply last_Some in L as (l & ->).
  rewrite (proj2 (index_of_Some (l ++ [e]) (log_index e) (length (records l), log_term e) (hold_inc _ _ Hh)));
    [done|]. by exists l, e, [].
Qed.

Lemma holds_reopen s es : holds_log s es -> open_log (log_file s) = s.
Proof.
  intros Hh. pose proof (holds_open es (hold_inc _ _ Hh) (hold_wf _ _ Hh)) as Ho.
  rewrite (hold_file _ _ Hh). destruct Ho as [A B C _ _], Hh as [A' B' C' _ _].
  destruct (open_log _), s; cbn in *. congruence.
Qed.

Lemma holds_find s es i :
  holds_log s es ->
  read_log s i = ok_or (List.find (fun e => bool_decide (log_index e = i)) es) (LogNotFound i).
Proof.
  intros Hh. destruct (List.find _ es) as [e|] eqn:F; cbn [ok_or].
  - apply List.find_some in F as [He Hi]. apply bool_decide_eq_true in Hi as <-.
    apply (holds_read_elem s es); [done|]. by apply list_elem_of_In.
  - apply (holds_read_None s es); [done|]. intros (e & -> & He)%list_elem_of_fmap.
    apply list_elem_of_In in He. pose proof (List.find_none _ _ F e He) as Hx. cbn in Hx.
    by rewrite bool_decide_eq_true_2 in Hx.
Qed.

(** ** The log refines a list of entries *)

(** Any admissible sequence of appends, truncations, purges and reopenings of an
    empty raft log succeeds, and the log it leaves is the list of entries the same
    operations build: a read of an index returns the entry of that index or [NotFound],
    a range returns the entries in it in order, the last index and term and the count
    are the list's, and scanning the file again rebuilds exactly the store in memory. *)
Theorem raft_log_refines (ops : list log_op) :
  admissible_run [] ops ->
  exists s, log_run (open_log []) ops = (s, Ok tt) /\
    let es := foldl spec_step [] ops in
    (forall i, read_log s i =
       ok_or (List.find (fun e => bool_decide (log_index e = i)) es) (LogNotFound i)) /\
    (forall a b, read_range_log s a b =
       Ok (keep (fun i => bool_decide (a <= i)%N && bool_decide (i <= b)%N) es)) /\
    last_log_index s = log_index <$> list.last es /\
    last_log_term s = log_term <$> list.last es /\
    first_log_index s = log_index <$> head es /\
    entry_count s = length es /\
    open_log (log_file s) = s.
Proof.
  intros Ha.
  assert (H0 : holds_log (open_log []) []) by (apply (holds_open []); constructor).
  destruct (holds_run ops _ _ H0 Ha) as (s & Hr & Hh). exists s. split; [done|].
  cbn zeta. set (es := foldl spec_step [] ops) in *. split_and!.
  - intros i. by apply holds_find.
  - intros a b. by apply holds_range.
  - by apply holds_last.
  - by apply holds_term.
  - unfold first_log_index. rewrite (hold_map _ _ Hh), sorted_keys_of by apply Hh. by destruct es.
  - unfold entry_count. rewrite (hold_map _ _ Hh). apply size_index_of, Hh.
  - by apply (holds_reopen s es).
Qed.

Definition demo_entry (i : N) : LogEntry := mkLogEntry i 7 [Ascii.ascii_of_N i; zero_byte].

Definition demo_ops : list log_op :=
  [OpAppend [demo_entry 1; demo_entry 2; demo_entry 3]; OpTruncate 2;
   OpAppend [demo_entry 3; demo_entry 4]; OpPurge 2; OpReopen].

Lemma raft_log_refines_witness :
  exists s, log_run (open_log []) demo_ops = (s, Ok tt) /\
    read_log s 3 = Ok (demo_entry 3) /\ read_log s 1 = Err (LogNotFound 1).
Proof.
  assert (Ha : admissible_run [] demo_ops).
  { assert (Hw : forall i, (i < 100)%N -> entry_wf (demo_entry i)) by (intros i Hi; split; cbn; lia).
    cbn. split_and!; try done.
    all: unfold increasing, cut_exists; cbn.
    all: try (repeat constructor; cbn; lia).
    all: try (repeat constructor; apply Hw; lia). }
  destruct (raft_log_refines demo_ops Ha) as (s & Hr & Hread & _).
  exists s. split; [exact Hr|]. split; rewrite Hread; reflexivity.
Defined.

(** A batch refused in its middle has already written its first records, and the offset
    the next append starts from is not advanced past them: an entry appended
    successfully afterwards is indexed at the wrong place and cannot be read. *)
Theorem refused_append_breaks_log :
  let s1 := append_log (open_log []) [demo_entry 1; demo_entry 5; demo_entry 3] in
  let s2 := append_log s1.1 [demo_entry 6] in
  s1.2 = Err (NonMonotonic 5 3) /\ s2.2 = Ok tt /\ read_log s2.1 6 = Err LogCorruption.
Proof. vm_compute. done. Qed.

(** A record cut short by a crash stays in the file when the log is opened; an entry
    appended successfully afterwards is written behind it and indexed before it. *)
Theorem torn_tail_breaks_append :
  let s := append_log (open_log (record (demo_entry 1) ++ take 5 (record (demo_entry 2)))) [demo_entry 2] in
  s.2 = Ok tt /\ read_log s.1 2 = Err LogCorruption.
Proof. vm_compute. done. Qed.

(** Truncation after an index that has no entry, between two that do, empties the file
    and keeps the lower entries in the index. *)
Theorem truncate_gap_loses_entries :
  let s := append_log (open_log []) [demo_entry 1; demo_entry 5] in
  let t := truncate_after s.1 3 in
  t.2 = Ok tt /\ last_log_index t.1 = Some 1%N /\ read_log t.1 1 = Err LogIo.
Proof. vm_compute. done. Qed.
