(* ===== verification/RaftFsm.v ===== *)
(** The replicated state machine ([src/raft/fsm/ops.rs], [src/raft/fsm/mod.rs]) and
    the snapshot store ([src/raft/storage/snapshot.rs]).

    A [HashMap] is a [gmap].  Each operation of the machine holds the locks it needs,
    so it is a function of the state.  The snapshot directory maps the index in a
    file's name to the file's bytes; bincode and msgpack are parameters. *)

From Stdlib Require Import NArith.
From stdpp Require Import base list gmap strings numbers sorting.
From S2P Require Import Prelude Policy.

(** ** Operations and state *)

Record BucketSettings : Type := mkBucketSettings {
  bs_versioning : option string;
  bs_ftt : option nat;
  bs_tags : option (gmap string string);
  bs_policy : option Value;
  bs_lifecycle : option string;
}.

Definition default_settings : BucketSettings := mkBucketSettings None None None None None.

Inductive VoterKind : Type := Voter | Observer.

Record FsmVolume : Type := mkFsmVolume {
  fv_backend_index : nat;
  fv_node_id : string;
  fv_volume_id : string;
}.

Inductive Op : Type :=
  | AddNode (node_id advertise_s3 advertise_cluster : string) (voter_kind : VoterKind)
      (added_at_unix_secs : N)
  | RemoveNode (node_id : string)
  | SetPlacementEpoch (epoch_id : N) (cluster_id : string) (volumes : list FsmVolume)
  | SetBucketSettings (bucket : string) (settings : BucketSettings)
  | DeleteBucketSettings (bucket : string).

Record Member : Type := mkMember {
  member_node_id : string;
  member_advertise_s3 : string;
  member_advertise_cluster : string;
  member_voter_kind : VoterKind;
  member_added_at : N;
}.

Record Placement : Type := mkPlacement {
  placement_epoch : N;
  placement_cluster : string;
  placement_volumes : list FsmVolume;
}.

Record State : Type := mkState {
  members : gmap string Member;
  placement : Placement;
  buckets : gmap string BucketSettings;
}.

Definition default_state : State := mkState ∅ (mkPlacement 0 "" []) ∅.

Inductive ApplyError : Type :=
  | EpochRegression (have got : N)
  | UnknownNode (node_id : string)
  | UnknownBucket (bucket : string).

(** [Op::apply], in place: the state after it, and its result. *)
Definition apply_op (op : Op) (s : State) : State * result ApplyError unit :=
  match op with
  | AddNode id s3 cl vk at_ =>
      (mkState (<[id := mkMember id s3 cl vk at_]> (members s)) (placement s) (buckets s), Ok tt)
  | RemoveNode id =>
      let s' := mkState (delete id (members s)) (placement s) (buckets s) in
      match members s !! id with
      | None => (s', Err (UnknownNode id))
      | Some _ => (s', Ok tt)
      end
  | SetPlacementEpoch ep cl vols =>
      if bool_decide (ep <= placement_epoch (placement s))%N
         && negb (bool_decide (placement_epoch (placement s) = 0%N))
      then (s, Err (EpochRegression (placement_epoch (placement s)) ep))
      else (mkState (members s) (mkPlacement ep cl vols) (buckets s), Ok tt)
  | SetBucketSettings b st => (mkState (members s) (placement s) (<[b := st]> (buckets s)), Ok tt)
  | DeleteBucketSettings b =>
      let s' := mkState (members s) (placement s) (delete b (buckets s)) in
      match buckets s !! b with
      | None => (s', Err (UnknownBucket b))
      | Some _ => (s', Ok tt)
      end
  end.

(** ** The machine *)

Record AbixioStateMachine : Type := mkMachine {
  fsm_state : State;
  fsm_applied : N;
}.

Definition fsm_new : AbixioStateMachine := mkMachine default_state 0.

Definition fsm_apply (m : AbixioStateMachine) (index : N) (op : Op)
    : AbixioStateMachine * result ApplyError N :=
  let r := apply_op op (fsm_state m) in
  match r.2 with
  | Err e => (mkMachine r.1 (fsm_applied m), Err e)
  | Ok _ =>
      let cursor := if bool_decide (fsm_applied m < index)%N then index else fsm_applied m in
      (mkMachine r.1 cursor, Ok cursor)
  end.

Definition fsm_snapshot (m : AbixioStateMachine) : N * State := (fsm_applied m, fsm_state m).
Definition fsm_install (m : AbixioStateMachine) (index : N) (s : State) : AbixioStateMachine :=
  mkMachine s index.
Definition fsm_bucket_settings (m : AbixioStateMachine) (b : string) : option BucketSettings :=
  buckets (fsm_state m) !! b.
Definition fsm_member (m : AbixioStateMachine) (id : string) : option Member :=
  members (fsm_state m) !! id.
Definition fsm_placement (m : AbixioStateMachine) : Placement := placement (fsm_state m).
Definition fsm_members (m : AbixioStateMachine) : list Member := map snd (map_to_list (members (fsm_state m))).

(** ** The snapshot store *)

Record SnapshotMeta : Type := mkSnapshotMeta {
  last_applied_index : N;
  last_applied_term : N;
  created_at_unix_secs : N;
}.

Inductive SnapshotError : Type := SnapIo | SnapBincode | MsgpackEncode | MsgpackDecode.

Definition max_kept : nat := 2.
Definition HEADER_LEN_BYTES : nat := 4.

Abbreviation SnapDir := (gmap N bytes).

(** [list_indexes], sorted. *)
Definition sorted_indexes (d : SnapDir) : list N := merge_sort N.le (map fst (map_to_list d)).

(** The removals of [prune_older_than]. *)
Definition prune_step (latest : N) (d : SnapDir) (idx : N) : SnapDir :=
  if bool_decide (latest <= idx)%N then d else delete idx d.

Definition prune_older_than (latest : N) (d : SnapDir) : SnapDir :=
  let indexes := sorted_indexes d in
  if bool_decide (length indexes <= max_kept) then d
  else foldl (prune_step latest) d (take (length indexes - max_kept) indexes).

Section SnapshotStore.
(** [bincode] on the header, [rmp_serde] on the state, and the clock. *)
Context (enc_meta : SnapshotMeta -> bytes) (dec_meta : bytes -> option SnapshotMeta).
Context (enc_state : State -> bytes) (dec_state : bytes -> option State).

Definition snapshot_file (m : SnapshotMeta) (s : State) : bytes :=
  le_bytes HEADER_LEN_BYTES (N.of_nat (length (enc_meta m))) ++ enc_meta m ++ enc_state s.

Definition snap_store (d : SnapDir) (now index term : N) (s : State)
    : SnapDir * result SnapshotError SnapshotMeta :=
  let m := mkSnapshotMeta index term now in
  if bool_decide (2 ^ 32 - 1 < N.of_nat (length (enc_meta m)))%N then (d, Err SnapIo)
  else (prune_older_than index (<[index := snapshot_file m s]> d), Ok m).

Definition load_latest (d : SnapDir) : result SnapshotError (option (SnapshotMeta * State)) :=
  match list.last (sorted_indexes d) with
  | None => Ok None
  | Some latest =>
      f ← ok_or (d !! latest) SnapIo;
      hl ← ok_or (slice 0 HEADER_LEN_BYTES f) SnapIo;
      let header_len := N.to_nat (le_val hl) in
      hb ← ok_or (slice HEADER_LEN_BYTES header_len f) SnapIo;
      m ← ok_or (dec_meta hb) SnapBincode;
      s ← ok_or (dec_state (drop (HEADER_LEN_BYTES + header_len) f)) MsgpackDecode;
      Ok (Some (m, s))
  end.
End SnapshotStore.

(** ** The tables as their keys see them *)

Definition bucket_view (b : string) (v : option BucketSettings) (op : Op) : option BucketSettings :=
  match op with
  | SetBucketSettings b' st => if decide (b' = b) then Some st else v
  | DeleteBucketSettings b' => if decide (b' = b) then None else v
  | _ => v
  end.

Definition member_view (id : string) (v : option Member) (op : Op) : option Member :=
  match op with
  | AddNode id' s3 cl vk at_ => if decide (id' = id) then Some (mkMember id s3 cl vk at_) else v
  | RemoveNode id' => if decide (id' = id) then None else v
  | _ => v
  end.

(** Every operation in turn, refused ones included. *)
Definition apply_ops (ops : list Op) (s : State) : State := foldl (fun s op => (apply_op op s).1) s ops.

Lemma apply_op_error op s s' e : apply_op op s = (s', Err e) -> s' = s.
Proof.
  destruct op as [| id | ep cl vs | | b]; cbn; intros H; try discriminate.
  - destruct (members s !! id) eqn:E; [discriminate|]. injection H as <- _.
    rewrite delete_id by done. by destruct s.
  - destruct (_ && _); [|discriminate]. by injection H as <- _.
  - destruct (buckets s !! b) eqn:E; [discriminate|]. injection H as <- _.
    rewrite delete_id by done. by destruct s.
Qed.

Lemma apply_op_bucket op s b : buckets (apply_op op s).1 !! b = bucket_view b (buckets s !! b) op.
Proof.
  destruct op as [| id | ep cl vs | b' st | b']; cbn; try done.
  - by destruct (members s !! id).
  - by destruct (_ && _).
  - case_decide as E; [subst; by rewrite lookup_insert_eq|by rewrite lookup_insert_ne].
  - destruct (buckets s !! b'); cbn;
      (case_decide as E; [subst; by rewrite lookup_delete_eq|by rewrite lookup_delete_ne]).
Qed.

Lemma apply_op_member op s id : members (apply_op op s).1 !! id = member_view id (members s !! id) op.
Proof.
  destruct op as [id' s3 cl vk t | id' | ep cl vs | b' st | b']; cbn; try done.
  - case_decide as E; [subst; by rewrite lookup_insert_eq|by rewrite lookup_insert_ne].
  - destruct (members s !! id'); cbn;
      (case_decide as E; [subst; by rewrite lookup_delete_eq|by rewrite lookup_delete_ne]).
  - by destruct (_ && _).
  - by destruct (buckets s !! b').
Qed.

Lemma apply_op_epoch op s :
  (placement_epoch (placement s) <= placement_epoch (placement (apply_op op s).1))%N.
Proof.
  destruct op as [id' s3 cl vk t | id' | ep cl vs | b' st | b']; cbn; try lia.
  - destruct (members s !! id'); cbn; lia.
  - destruct (_ && _) eqn:E; cbn; [lia|]. apply andb_false_iff in E as [E|E].
    + apply bool_decide_eq_false in E. lia.
    + apply negb_false_iff, bool_decide_eq_true in E. lia.
  - destruct (buckets s !! b'); cbn; lia.
Qed.

(** After any sequence of operations, refused ones included, every bucket's settings
    and every member are what the last operation on that key left, and the
    placement epoch never goes back: replicas that saw the same operations answer
    every read alike, and a refused operation leaves the state as it was. *)
Theorem fsm_tables_exact (ops : list Op) (s : State) :
  (forall b, buckets (apply_ops ops s) !! b = foldl (bucket_view b) (buckets s !! b) ops) /\
  (forall id, members (apply_ops ops s) !! id = foldl (member_view id) (members s !! id) ops) /\
  (placement_epoch (placement s) <= placement_epoch (placement (apply_ops ops s)))%N /\
  (forall op e, (apply_op op s).2 = Err e -> (apply_op op s).1 = s).
Proof.
  split_and!.
  - intros b. revert s. induction ops as [|op ops IH]; intros s; [done|].
    change (apply_ops (op :: ops) s) with (apply_ops ops (apply_op op s).1). cbn [foldl].
    by rewrite IH, apply_op_bucket.
  - intros id. revert s. induction ops as [|op ops IH]; intros s; [done|].
    change (apply_ops (op :: ops) s) with (apply_ops ops (apply_op op s).1). cbn [foldl].
    by rewrite IH, apply_op_member.
  - revert s. induction ops as [|op ops IH]; intros s; [cbn; lia|].
    change (apply_ops (op :: ops) s) with (apply_ops ops (apply_op op s).1).
    etrans; [apply (apply_op_epoch op)|apply IH].
  - intros op e H. destruct (apply_op op s) as [s' r] eqn:E. cbn in *. subst. by eapply apply_op_error.
Qed.

(** Epoch 0 is not protected: a topology set with epoch 0 can be replaced by another
    with the same epoch. *)
Theorem epoch_zero_is_replaced :
  exists s', apply_op (SetPlacementEpoch 0 "b" []) (apply_op (SetPlacementEpoch 0 "a" []) default_state).1
    = (s', Ok tt) /\ placement_cluster (placement s') = "b".
Proof. eexists. split; reflexivity. Qed.

(** ** Lemmas: the snapshot store *)

Lemma elem_of_sorted_indexes d i : i ∈ sorted_indexes d <-> is_Some (d !! i).
Proof.
  unfold sorted_indexes. rewrite merge_sort_Permutation. split.
  - intros ((j & f) & -> & Hin)%list_elem_of_fmap. apply elem_of_map_to_list in Hin. by eexists.
  - intros [f Hf]. apply elem_of_map_to_list in Hf. by apply (list_elem_of_fmap_2 fst) in Hf.
Qed.

Lemma NoDup_sorted_indexes d : NoDup (sorted_indexes d).
Proof. unfold sorted_indexes. rewrite merge_sort_Permutation. apply NoDup_fst_map_to_list. Qed.

Lemma sorted_indexes_lt d : StronglySorted N.lt (sorted_indexes d).
Proof.
  assert (Hs : StronglySorted N.le (sorted_indexes d)).
  { apply Sorted_StronglySorted; [apply _|]. apply Sorted_merge_sort, _. }
  pose proof (NoDup_sorted_indexes d) as Hn.
  induction Hs as [|x l Hs IH Hf]; constructor.
  - apply list.NoDup_cons in Hn as [_ Hn]. by apply IH.
  - apply list.NoDup_cons in Hn as [Hx _]. rewrite list.Forall_forall in *. intros y Hy.
    specialize (Hf y Hy). assert (x <> y) by (by intros ->). lia.
Qed.

Lemma sorted_indexes_unique d l :
  StronglySorted N.lt l -> (forall i, i ∈ l <-> is_Some (d !! i)) -> sorted_indexes d = l.
Proof.
  intros Hs Hl.
  assert (Hn : NoDup l).
  { clear Hl. induction Hs as [|x l Hs IH Hf]; constructor; [|done]. intros Hx.
    rewrite list.Forall_forall in Hf. specialize (Hf x Hx). lia. }
  assert (Hle : forall k, StronglySorted N.lt k -> StronglySorted N.le k).
  { clear. induction 1 as [|x k Hs IH Hf]; constructor; [done|]. eapply Forall_impl; [exact Hf|]. cbn. lia. }
  apply (StronglySorted_unique N.le); [apply Hle, sorted_indexes_lt|by apply Hle|].
  apply NoDup_Permutation; [apply NoDup_sorted_indexes|done|].
  intros i. by rewrite elem_of_sorted_indexes, Hl.
Qed.

Lemma prune_fold_lookup latest ks d i :
  (forall k, k ∈ ks -> (k < latest)%N) ->
  foldl (prune_step latest) d ks !! i = if decide (i ∈ ks) then None else d !! i.
Proof.
  revert d. induction ks as [|k ks IH]; intros d Hk; cbn [foldl].
  { rewrite decide_False by set_solver. done. }
  rewrite IH by (intros j Hj; apply Hk; by right). unfold prune_step.
  rewrite bool_decide_eq_false_2 by (specialize (Hk k ltac:(by left)); lia).
  destruct (decide (i ∈ ks)) as [Hi|Hi].
  - rewrite decide_True by (by right). done.
  - destruct (decide (i = k)) as [->|Hne].
    + rewrite lookup_delete_eq, decide_True by (by left). done.
    + rewrite lookup_delete_ne, decide_False; [done| |done]. intros [->|?]%elem_of_cons; done.
Qed.

(** Pruning after the newest index keeps the two newest files and nothing else. *)
Lemma prune_exact latest d :
  is_Some (d !! latest) -> (forall i, is_Some (d !! i) -> (i <= latest)%N) ->
  let newest := drop (length (sorted_indexes d) - max_kept) (sorted_indexes d) in
  sorted_indexes (prune_older_than latest d) = newest /\
  forall i, i ∈ newest -> prune_older_than latest d !! i = d !! i.
Proof.
  intros Hl Hmax. cbn zeta. unfold prune_older_than. case_bool_decide as Hlen.
  { replace (length (sorted_indexes d) - max_kept) with 0 by lia. by rewrite drop_0. }
  set (l := sorted_indexes d) in *. set (n := length l - max_kept).
  pose proof (sorted_indexes_lt d) as Hs. fold l in Hs.
  assert (Hsplit : forall x y, x ∈ take n l -> y ∈ drop n l -> (x < y)%N).
  { intros x y. rewrite <- (take_drop n l) in Hs. by apply StronglySorted_app_1_elem_of. }
  assert (Hnew : forall k, k ∈ take n l -> (k < latest)%N).
  { intros k Hk. assert (Hex : exists y, y ∈ drop n l).
    { destruct (drop n l) as [|y r] eqn:E; [|exists y; by left].
      apply (f_equal length) in E. rewrite length_drop in E. cbn in E. unfold n, max_kept in *. lia. }
    destruct Hex as [y Hy]. specialize (Hsplit k y Hk Hy).
    enough (y <= latest)%N by lia. apply Hmax, elem_of_sorted_indexes. fold l.
    rewrite <- (take_drop n l). apply elem_of_app. by right. }
  assert (Hlk : forall i, i ∈ drop n l -> foldl (prune_step latest) d (take n l) !! i = d !! i).
  { intros i Hi. rewrite prune_fold_lookup by done. rewrite decide_False; [done|].
    intros Ht. specialize (Hsplit i i Ht Hi). lia. }
  split; [|exact Hlk]. apply sorted_indexes_unique.
  - rewrite <- (take_drop n l) in Hs. by eapply StronglySorted_app_1_r.
  - intros i. split.
    + intros Hi. rewrite Hlk by done. apply elem_of_sorted_indexes. fold l.
      rewrite <- (take_drop n l). apply elem_of_app. by right.
    + rewrite prune_fold_lookup by done. case_decide as Hi; [by intros []|].
      intros Hd%elem_of_sorted_indexes. fold l in Hd. rewrite <- (take_drop n l) in Hd.
      apply elem_of_app in Hd as [Hd|Hd]; done.
Qed.

Lemma last_sorted_indexes d latest :
  is_Some (d !! latest) -> (forall i, is_Some (d !! i) -> (i <= latest)%N) ->
  exists l, sorted_indexes d = l ++ [latest].
Proof.
  intros Hl Hmax. pose proof (sorted_indexes_lt d) as Hs.
  assert (Hin : latest ∈ sorted_indexes d) by by apply elem_of_sorted_indexes.
  destruct (list.last (sorted_indexes d)) as [x|] eqn:E.
  2:{ apply last_None in E. rewrite E in Hin. by apply not_elem_of_nil in Hin. }
  apply last_Some in E as (l & E). exists l. rewrite E in *. do 2 f_equal.
  assert (x <= latest)%N. { apply Hmax, elem_of_sorted_indexes. rewrite E. set_solver. }
  apply elem_of_app in Hin as [Hin|Hin]; [|by apply list_elem_of_singleton in Hin].
  assert (latest < x)%N by (eapply StronglySorted_app_1_elem_of; [exact Hs|done|by left]). lia.
Qed.

Lemma load_newest enc_meta dec_meta enc_state dec_state d latest m s :
  dec_meta (enc_meta m) = Some m -> dec_state (enc_state s) = Some s ->
  (N.of_nat (length (enc_meta m)) < 2 ^ 32)%N ->
  list.last (sorted_indexes d) = Some latest -> d !! latest = Some (snapshot_file enc_meta enc_state m s) ->
  load_latest dec_meta dec_state d = Ok (Some (m, s)).
Proof.
  intros Hm Hs Hlen Hl Hd. unfold load_latest. rewrite Hl, Hd. cbn [ok_or mbind result_bind].
  unfold snapshot_file.
  set (hl := le_bytes HEADER_LEN_BYTES _).
  assert (Hhl : slice 0 HEADER_LEN_BYTES (hl ++ enc_meta m ++ enc_state s) = Some hl)
    by (apply (slice_app_mid' []); unfold hl; lens).
  rewrite Hhl. unfold hl.
  cbn [ok_or mbind result_bind].
  rewrite le_val_le_bytes_small, Nat2N.id by exact Hlen.
  rewrite (slice_app_mid' (le_bytes HEADER_LEN_BYTES _) (enc_meta m) (enc_state s)) by lens.
  cbn [ok_or mbind result_bind]. rewrite Hm. cbn [ok_or mbind result_bind].
  rewrite app_assoc, drop_app_length' by lens. by rewrite Hs.
Qed.

(** A snapshot written at an index no older than those on disk is the one the
    next load returns, header and state alike, and the directory then holds the
    newest two snapshots, the files of the older of them untouched, and no other;
    bincode and msgpack need to read back only this header and this state. *)
Theorem snapshot_store_load enc_meta dec_meta enc_state dec_state
    (d : SnapDir) (now index term : N) (s : State) :
  let m := mkSnapshotMeta index term now in
  dec_meta (enc_meta m) = Some m -> dec_state (enc_state s) = Some s ->
  (N.of_nat (length (enc_meta m)) < 2 ^ 32)%N ->
  (forall i, is_Some (d !! i) -> (i <= index)%N) ->
  exists d', snap_store enc_meta enc_state d now index term s = (d', Ok m) /\
    load_latest dec_meta dec_state d' = Ok (Some (m, s)) /\
    (let all := sorted_indexes (<[index := snapshot_file enc_meta enc_state m s]> d) in
     sorted_indexes d' = drop (length all - max_kept) all) /\
    (forall i, i <> index -> i ∈ sorted_indexes d' -> d' !! i = d !! i).
Proof.
  cbn zeta. intros Hm Hs Hlen Hmax. unfold snap_store.
  rewrite bool_decide_eq_false_2 by lia. eexists. split; [done|].
  set (m := mkSnapshotMeta index term now) in *.
  set (d1 := <[index := _]> d).
  assert (Hd1 : d1 !! index = Some (snapshot_file enc_meta enc_state m s)) by apply lookup_insert_eq.
  assert (Hmax1 : forall i, is_Some (d1 !! i) -> (i <= index)%N).
  { intros i. destruct (decide (i = index)) as [->|Hne]; [lia|].
    unfold d1. rewrite lookup_insert_ne by done. apply Hmax. }
  destruct (prune_exact index d1 ltac:(by eexists) Hmax1) as [Hk Hsame].
  destruct (last_sorted_indexes d1 index ltac:(by eexists) Hmax1) as (l & Hlast).
  assert (Hnew : drop (length (sorted_indexes d1) - max_kept) (sorted_indexes d1) =
                 drop (length (sorted_indexes d1) - max_kept) l ++ [index]).
  { rewrite Hlast. apply drop_app_le. rewrite length_app. unfold max_kept. cbn. lia. }
  split_and!; [|exact Hk|].
  - apply (load_newest enc_meta dec_meta enc_state dec_state _ index); [done..| |].
    + by rewrite Hk, Hnew, last_snoc.
    + rewrite Hsame; [exact Hd1|]. rewrite Hnew. set_solver.
  - intros i Hne Hi. rewrite Hk in Hi. rewrite Hsame by done. unfold d1. by rewrite lookup_insert_ne.
Qed.

(** Codecs that read back what they write, for one state. *)
Definition demo_enc_meta (m : SnapshotMeta) : bytes :=
  le_bytes 8 (last_applied_index m) ++ le_bytes 8 (last_applied_term m) ++
  le_bytes 8 (created_at_unix_secs m).
Definition demo_dec_meta (b : bytes) : option SnapshotMeta :=
  Some (mkSnapshotMeta (le_val (take 8 b)) (le_val (sub_list 8 8 b)) (le_val (drop 16 b))).
Definition demo_enc_state (s : State) : bytes := le_bytes 8 (placement_epoch (placement s)).
Definition demo_dec_state (b : bytes) : option State :=
  Some (mkState ∅ (mkPlacement (le_val b) "" []) ∅).

Definition demo_state : State := mkState ∅ (mkPlacement 9 "" []) ∅.
Definition demo_dir : SnapDir := {[ 3%N := []; 5%N := [zero_byte] ]}.

Lemma snapshot_store_load_witness :
  exists d', snap_store demo_enc_meta demo_enc_state demo_dir 0 8 2 demo_state =
      (d', Ok (mkSnapshotMeta 8 2 0)) /\
    load_latest demo_dec_meta demo_dec_state d' = Ok (Some (mkSnapshotMeta 8 2 0, demo_state)) /\
    sorted_indexes d' = [5; 8]%N.
Proof.
  destruct (snapshot_store_load demo_enc_meta demo_dec_meta demo_enc_state demo_dec_state
              demo_dir 0 8 2 demo_state) as (d' & H1 & H2 & H3 & _).
  - reflexivity.
  - reflexivity.
  - reflexivity.
  - intros i [x Hx]. unfold demo_dir in Hx.
    apply lookup_insert_Some in Hx as [[<- _]|[_ Hx]]; [lia|].
    apply lookup_singleton_Some in Hx as [<- _]. lia.
  - exists d'. split; [exact H1|]. split; [exact H2|]. rewrite H3. vm_compute. reflexivity.
Defined.
