(* ===== verification/RaftAdapter.v ===== *)
(** The adapters openraft drives ([src/raft/adapter/log.rs], [src/raft/adapter/fsm.rs])
    over the log store and the state machine.

    Log ids, entries and memberships are openraft's: a log id is a leader id and an
    index, of which the adapters read the leader's term; an entry is blank, an
    operation or a membership.  bincode and msgpack are parameters.  The stores sit
    behind mutexes held for each call, so a call is a function of the state. *)

From Stdlib Require Import NArith.
From stdpp Require Import base list gmap strings numbers sorting pretty.
From S2P Require Import Prelude RaftLog RaftFsm.

Inductive Bound : Type := Included (i : N) | Excluded (i : N) | Unbounded.

Section Types.
Context (LeaderId Membership : Type).

Record LogId : Type := mkLogId { leader_id : LeaderId; id_index : N }.

Inductive EntryPayload : Type :=
  | Blank
  | Normal (op : Op)
  | MembershipChange (m : Membership).

Record Entry : Type := mkEntry { entry_id : LogId; payload : EntryPayload }.

Record StoredMembership : Type := mkStored { stored_id : option LogId; stored_m : Membership }.

Record LogState : Type := mkLogState { last_purged_log_id : option LogId; last_log_id : option LogId }.

Record AbixioFsmAdapter : Type := mkFsmAdapter {
  fa_fsm : AbixioStateMachine;
  fa_snaps : SnapDir;
  fa_last_applied : option LogId;
  fa_membership : StoredMembership;
  fa_snapshot_id : N;
}.

Record SnapshotBody : Type := mkBody {
  body_state : State;
  body_last_applied : option LogId;
  body_membership : StoredMembership;
}.

Record OrSnapshotMeta : Type := mkOrMeta {
  snap_last_log_id : option LogId;
  snap_membership : StoredMembership;
  snap_id : string;
}.
End Types.

Arguments mkLogId {_}. Arguments leader_id {_}. Arguments id_index {_}.
Arguments Blank {_}. Arguments Normal {_}. Arguments MembershipChange {_}.
Arguments mkEntry {_ _}. Arguments entry_id {_ _}. Arguments payload {_ _}.
Arguments mkStored {_ _}. Arguments stored_id {_ _}. Arguments stored_m {_ _}.
Arguments mkLogState {_}. Arguments last_purged_log_id {_}. Arguments last_log_id {_}.
Arguments mkFsmAdapter {_ _}. Arguments fa_fsm {_ _}. Arguments fa_snaps {_ _}.
Arguments fa_last_applied {_ _}. Arguments fa_membership {_ _}. Arguments fa_snapshot_id {_ _}.
Arguments mkBody {_ _}. Arguments body_state {_ _}. Arguments body_last_applied {_ _}.
Arguments body_membership {_ _}.
Arguments mkOrMeta {_ _}. Arguments snap_last_log_id {_ _}. Arguments snap_membership {_ _}.
Arguments snap_id {_ _}.

Definition u64_max : N := 2 ^ 64 - 1.

(** ** The log adapter *)

Section LogAdapter.
Context {LeaderId Membership : Type}.
Context (get_term : LeaderId -> N) (new_leader : N -> N -> LeaderId).
Context (enc_entry : Entry LeaderId Membership -> bytes)
  (dec_entry : bytes -> option (Entry LeaderId Membership)).

(** Errors of the log, or of decoding an entry. *)
Inductive AdapterError : Type := FromLog (e : LogError) | FromBincode.

Definition log_err {A} (r : result LogError A) : result AdapterError A :=
  match r with Ok a => Ok a | Err e => Err (FromLog e) end.

Definition entry_index (e : Entry LeaderId Membership) : N := id_index (entry_id e).

Definition raw_entry (e : Entry LeaderId Membership) : LogEntry :=
  mkLogEntry (entry_index e) (get_term (leader_id (entry_id e))) (enc_entry e).

Fixpoint decode_entries (raw : list LogEntry) : result AdapterError (list (Entry LeaderId Membership)) :=
  match raw with
  | [] => Ok []
  | r :: raw => e ← ok_or (dec_entry (op_bytes r)) FromBincode; es ← decode_entries raw; Ok (e :: es)
  end.

Definition range_start (b : Bound) : N :=
  match b with Included i => i | Excluded i => N.min (i + 1) u64_max | Unbounded => 0 end.
Definition range_end (b : Bound) : N :=
  match b with Included i => i | Excluded i => i - 1 | Unbounded => u64_max end.

Definition try_get_log_entries (s : LogStore) (lo hi : Bound)
    : result AdapterError (list (Entry LeaderId Membership)) :=
  let start := range_start lo in
  let effective_end := N.min (default 0%N (last_log_index s)) (range_end hi) in
  if bool_decide (effective_end < start)%N then Ok []
  else raw ← log_err (read_range_log s start effective_end); decode_entries raw.

(** Both ids are made of the term of the last entry and node 0. *)
Definition get_log_state (s : LogStore) : LogState LeaderId :=
  match last_log_index s with
  | None => mkLogState None None
  | Some last =>
      let last_term := default 0%N (last_log_term s) in
      let first := default last (first_log_index s) in
      mkLogState
        (if bool_decide (0 < first)%N then Some (mkLogId (new_leader last_term 0) (first - 1)%N) else None)
        (Some (mkLogId (new_leader last_term 0) last))
  end.

(** [append], [truncate] and [purge]. *)
Definition adapter_append (s : LogStore) (entries : list (Entry LeaderId Membership))
    : LogStore * result AdapterError unit :=
  let r := append_log s (map raw_entry entries) in (r.1, log_err r.2).
Definition adapter_truncate (s : LogStore) (id : LogId LeaderId) : LogStore * result AdapterError unit :=
  let r := truncate_after s (id_index id - 1) in (r.1, log_err r.2).
Definition adapter_purge (s : LogStore) (id : LogId LeaderId) : LogStore * result AdapterError unit :=
  let r := purge_before s (N.min (id_index id + 1) u64_max) in (r.1, log_err r.2).
End LogAdapter.

(** ** The state machine adapter *)

Section FsmAdapter.
Context {LeaderId Membership : Type}.
Context (get_term : LeaderId -> N).
Context (enc_meta : SnapshotMeta -> bytes) (dec_meta : bytes -> option SnapshotMeta).
Context (enc_state : State -> bytes) (dec_state : bytes -> option State).
Context (enc_body : SnapshotBody LeaderId Membership -> bytes)
  (dec_body : bytes -> option (SnapshotBody LeaderId Membership)).

Inductive FsmError : Type := FromApply (e : ApplyError) | FromSnapshot (e : SnapshotError) | FromMsgpack.

(** [AbixioFsmAdapter::new]; [m0] is openraft's default membership. *)
Definition adapter_new (d : SnapDir) (m0 : StoredMembership LeaderId Membership)
    : AbixioFsmAdapter LeaderId Membership := mkFsmAdapter fsm_new d None m0 0.

(** One round of [apply]'s loop; a refused operation leaves [last_applied] alone. *)
Definition apply_entry (a : AbixioFsmAdapter LeaderId Membership) (e : Entry LeaderId Membership)
    : AbixioFsmAdapter LeaderId Membership * result FsmError unit :=
  let done_ fsm m := (mkFsmAdapter fsm (fa_snaps a) (Some (entry_id e)) m (fa_snapshot_id a), Ok tt) in
  match payload e with
  | Blank => done_ (fa_fsm a) (fa_membership a)
  | Normal op =>
      let r := fsm_apply (fa_fsm a) (id_index (entry_id e)) op in
      match r.2 with
      | Ok _ => done_ r.1 (fa_membership a)
      | Err err =>
          (mkFsmAdapter r.1 (fa_snaps a) (fa_last_applied a) (fa_membership a) (fa_snapshot_id a),
           Err (FromApply err))
      end
  | MembershipChange m => done_ (fa_fsm a) (mkStored (Some (entry_id e)) m)
  end.

(** [apply]; an error ends it with the entries before it applied. *)
Fixpoint adapter_apply (a : AbixioFsmAdapter LeaderId Membership) (entries : list (Entry LeaderId Membership))
    : AbixioFsmAdapter LeaderId Membership * result FsmError (list N) :=
  match entries with
  | [] => (a, Ok [])
  | e :: entries =>
      match apply_entry a e with
      | (a', Err err) => (a', Err err)
      | (a', Ok _) =>
          let r := adapter_apply a' entries in
          (r.1, match r.2 with Ok out => Ok (id_index (entry_id e) :: out) | Err err => Err err end)
      end
  end.

(** One atomic step, as for an adapter that is called by one task at a time.  The source
    locks the tables, [last_applied] and the membership one after the other, so an [apply]
    that ran between could give a body whose parts are of different moments. *)
Definition build_snapshot (a : AbixioFsmAdapter LeaderId Membership) (now : N)
    : AbixioFsmAdapter LeaderId Membership * result FsmError (OrSnapshotMeta LeaderId Membership * bytes) :=
  let snap := fsm_snapshot (fa_fsm a) in
  let body := mkBody snap.2 (fa_last_applied a) (fa_membership a) in
  let term := default 0%N ((fun l => get_term (leader_id l)) <$> fa_last_applied a) in
  let r := snap_store enc_meta enc_state (fa_snaps a) now snap.1 term (body_state body) in
  match r.2 with
  | Err e => (mkFsmAdapter (fa_fsm a) r.1 (fa_last_applied a) (fa_membership a) (fa_snapshot_id a),
              Err (FromSnapshot e))
  | Ok _ =>
      let g := (fa_snapshot_id a + 1)%N in
      (mkFsmAdapter (fa_fsm a) r.1 (fa_last_applied a) (fa_membership a) g,
       Ok (mkOrMeta (fa_last_applied a) (fa_membership a)
             ("snap-" +:+ pretty snap.1 +:+ "-" +:+ pretty g), enc_body body))
  end.

Definition install_snapshot (a : AbixioFsmAdapter LeaderId Membership)
    (meta : OrSnapshotMeta LeaderId Membership) (data : bytes)
    : AbixioFsmAdapter LeaderId Membership * result FsmError unit :=
  match dec_body data with
  | None => (a, Err FromMsgpack)
  | Some body =>
      let idx := default 0%N (id_index <$> snap_last_log_id meta) in
      (mkFsmAdapter (fsm_install (fa_fsm a) idx (body_state body)) (fa_snaps a)
         (snap_last_log_id meta) (snap_membership meta) (fa_snapshot_id a), Ok tt)
  end.

Definition get_current_snapshot (a : AbixioFsmAdapter LeaderId Membership)
    : result FsmError (option (OrSnapshotMeta LeaderId Membership * bytes)) :=
  match load_latest dec_meta dec_state (fa_snaps a) with
  | Err e => Err (FromSnapshot e)
  | Ok None => Ok None
  | Ok (Some (m, s)) =>
      let body := mkBody s (fa_last_applied a) (fa_membership a) in
      Ok (Some (mkOrMeta (fa_last_applied a) (fa_membership a)
                  ("snap-" +:+ pretty (last_applied_index m) +:+ "-replay"), enc_body body))
  end.
End FsmAdapter.

(** ** Snapshots carry a replica forward *)

Section Transfer.
Context {LeaderId Membership : Type}.

(** What a replica answers with: its tables, the last entry it applied, the membership. *)
Definition replica (a : AbixioFsmAdapter LeaderId Membership)
    : State * option (LogId LeaderId) * StoredMembership LeaderId Membership :=
  (fsm_state (fa_fsm a), fa_last_applied a, fa_membership a).

Lemma fsm_apply_state m i op :
  fsm_state (fsm_apply m i op).1 = (apply_op op (fsm_state m)).1 /\
  match (fsm_apply m i op).2, (apply_op op (fsm_state m)).2 with
  | Ok _, Ok _ => True
  | Err e, Err e' => e = e'
  | _, _ => False
  end.
Proof. unfold fsm_apply. by destruct (apply_op op (fsm_state m)) as [s [[]|e]]. Qed.

Lemma apply_entry_congruence e a b :
  replica a = replica b ->
  replica (apply_entry a e).1 = replica (apply_entry b e).1 /\ (apply_entry a e).2 = (apply_entry b e).2.
Proof.
  intros Hab. unfold replica in Hab. apply pair_equal_spec in Hab as [Hab Hm].
  apply pair_equal_spec in Hab as [Hs Hl].
  unfold apply_entry, replica. destruct (payload e) as [|op|m]; cbn; [by rewrite Hs, Hm| |by rewrite Hs].
  destruct (fsm_apply_state (fa_fsm a) (id_index (entry_id e)) op) as [Ha Hra].
  destruct (fsm_apply_state (fa_fsm b) (id_index (entry_id e)) op) as [Hb Hrb].
  rewrite Hs in Ha, Hra. rewrite <- Hb in Ha.
  destruct ((fsm_apply (fa_fsm a) _ op).2), ((fsm_apply (fa_fsm b) _ op).2),
    ((apply_op op (fsm_state (fa_fsm b))).2); try done; subst; cbn; by rewrite Ha, Hm, ?Hl.
Qed.

(** Replicas that agree before applying entries agree after. *)
Lemma apply_congruence es a b :
  replica a = replica b ->
  replica (adapter_apply a es).1 = replica (adapter_apply b es).1 /\
  (adapter_apply a es).2 = (adapter_apply b es).2.
Proof.
  revert a b. induction es as [|e es IH]; intros a b Hab; [done|]. cbn [adapter_apply].
  destruct (apply_entry_congruence e a b Hab) as [H1 H2].
  destruct (apply_entry a e) as [a' ra], (apply_entry b e) as [b' rb]. cbn in H1, H2. subst rb.
  destruct ra; [|done]. destruct (IH a' b' H1) as [H3 H4]. cbn. by rewrite H3, H4.
Qed.

Context (get_term : LeaderId -> N).
Context (enc_meta : SnapshotMeta -> bytes) (dec_meta : bytes -> option SnapshotMeta).
Context (enc_state : State -> bytes) (dec_state : bytes -> option State).
Context (enc_body : SnapshotBody LeaderId Membership -> bytes)
  (dec_body : bytes -> option (SnapshotBody LeaderId Membership)).

Lemma build_snapshot_ok a now a' snap :
  build_snapshot get_term enc_meta enc_state enc_body a now = (a', Ok snap) ->
  replica a' = replica a /\
  snap.2 = enc_body (mkBody (fsm_state (fa_fsm a)) (fa_last_applied a) (fa_membership a)) /\
  snap_last_log_id snap.1 = fa_last_applied a /\ snap_membership snap.1 = fa_membership a.
Proof.
  unfold build_snapshot. destruct (snap_store _ _ _ _ _ _ _) as [d [m|e]]; cbn; intros H; [|discriminate].
  by injection H as <- <-.
Qed.
End Transfer.

(** C26: A replica in any state that installs the snapshot another replica built, and
    then applies the entries that follow, ends with the tables, the last applied log id
    and the membership of the replica that applied those entries itself, and returns the
    same responses or the same error: a snapshot and the rest of the log stand for the
    whole log.  msgpack needs to read back only the body that was sent. *)
Theorem snapshot_replaces_log {LeaderId Membership : Type} (get_term : LeaderId -> N)
    enc_meta enc_state (enc_body : SnapshotBody LeaderId Membership -> bytes) dec_body
    (leader follower : AbixioFsmAdapter LeaderId Membership) now leader' meta data es :
  let body := mkBody (fsm_state (fa_fsm leader)) (fa_last_applied leader) (fa_membership leader) in
  dec_body (enc_body body) = Some body ->
  build_snapshot get_term enc_meta enc_state enc_body leader now = (leader', Ok (meta, data)) ->
  exists follower', install_snapshot dec_body follower meta data = (follower', Ok tt) /\
    replica (adapter_apply follower' es).1 = replica (adapter_apply leader es).1 /\
    (adapter_apply follower' es).2 = (adapter_apply leader es).2 /\
    replica (adapter_apply leader' es).1 = replica (adapter_apply leader es).1.
Proof.
  cbn zeta. intros Hrt Hb. destruct (build_snapshot_ok _ _ _ _ _ _ _ _ Hb) as (Hl & Hd & Hid & Hm). cbn in *.
  unfold install_snapshot. rewrite Hd, Hrt. eexists. split; [done|].
  assert (Hf : replica (mkFsmAdapter
      (fsm_install (fa_fsm follower) (default 0%N (id_index <$> snap_last_log_id meta))
         (fsm_state (fa_fsm leader)))
      (fa_snaps follower) (snap_last_log_id meta) (snap_membership meta) (fa_snapshot_id follower))
    = replica leader) by (unfold replica; cbn; by rewrite Hid, Hm).
  destruct (apply_congruence es _ _ Hf) as [H1 H2]. split_and!; [exact H1|exact H2|].
  by apply apply_congruence.
Qed.

(** A concrete cluster: leader ids are terms, memberships numbers, and the codec of
    bodies keeps the epoch, the index and term of the last applied entry, and the
    membership. *)
Definition demo_enc_body (b : SnapshotBody N N) : bytes :=
  demo_enc_state (body_state b) ++
  match body_last_applied b with
  | None => []
  | Some i => le_bytes 8 (leader_id i) ++ le_bytes 8 (id_index i)
  end.
Definition demo_dec_body (data : bytes) : option (SnapshotBody N N) :=
  s ← demo_dec_state (take 8 data);
  Some (mkBody s
    (match drop 8 data with
     | [] => None
     | r => Some (mkLogId (le_val (take 8 r)) (le_val (drop 8 r)))
     end) (mkStored None 0%N)).

Definition set_epoch (i : N) : Entry N N := mkEntry (mkLogId 1%N i) (Normal (SetPlacementEpoch i "" [])).

Definition demo_start : AbixioFsmAdapter N N := adapter_new ∅ (mkStored None 0%N).
Definition demo_leader : AbixioFsmAdapter N N := (adapter_apply demo_start [set_epoch 1; set_epoch 2]).1.
Definition demo_built := build_snapshot (fun t => t) demo_enc_meta demo_enc_state demo_enc_body demo_leader 0.

Lemma snapshot_replaces_log_witness :
  exists meta data follower',
    demo_built.2 = Ok (meta, data) /\
    install_snapshot demo_dec_body demo_start meta data = (follower', Ok tt) /\
    replica (adapter_apply follower' [set_epoch 3]).1 = replica (adapter_apply demo_leader [set_epoch 3]).1.
Proof.
  destruct demo_built as [leader' [[meta data]|e]] eqn:E.
  2:{ exfalso. unfold demo_built, build_snapshot, snap_store in E.
      rewrite bool_decide_eq_false_2 in E by (vm_compute; discriminate). discriminate E. }
  destruct (snapshot_replaces_log (fun t : N => t) demo_enc_meta demo_enc_state demo_enc_body demo_dec_body
              demo_leader demo_start 0 leader' meta data [set_epoch 3]) as (f & Hi & Hr & _).
  - vm_compute. reflexivity.
  - exact E.
  - exists meta, data, f. split; [reflexivity|]. split; [exact Hi|exact Hr].
Defined.

(** The snapshot a replica offers is the one on disk, labelled with the entry the
    replica applied last, which may be later: one that installs it skips the entries
    in between.  Here the leader snapshots at entry 2 and applies entry 3; the
    follower is told it holds entry 3 and has the epoch of entry 2. *)
Theorem current_snapshot_is_mislabelled :
  let leader := (adapter_apply demo_built.1 [set_epoch 3]).1 in
  exists meta data,
    get_current_snapshot demo_dec_meta demo_dec_state demo_enc_body leader = Ok (Some (meta, data)) /\
    let follower := (install_snapshot demo_dec_body demo_start meta data).1 in
    fa_last_applied follower = fa_last_applied leader /\
    placement_epoch (fsm_placement (fa_fsm follower)) = 2%N /\
    placement_epoch (fsm_placement (fa_fsm leader)) = 3%N.
Proof. cbn zeta. eexists _, _. split; [vm_compute; reflexivity|]. vm_compute. done. Qed.

(** A restarted replica starts from an empty machine, and offers whatever snapshot is
    on disk as if no entry had been applied to it. *)
Theorem restart_forgets_snapshot {LeaderId Membership : Type} dec_meta dec_state
    (enc_body : SnapshotBody LeaderId Membership -> bytes) d m0 meta data :
  get_current_snapshot dec_meta dec_state enc_body (adapter_new d m0) = Ok (Some (meta, data)) ->
  snap_last_log_id meta = None /\ fsm_state (fa_fsm (adapter_new d m0)) = default_state.
Proof.
  unfold get_current_snapshot. destruct (load_latest _ _ _) as [[[m s]|]|]; cbn; intros H; try discriminate.
  by injection H as <- _.
Qed.

(** ** The log as openraft sees it *)

Section LogRefinement.
Context {LeaderId Membership : Type}.
Context (get_term : LeaderId -> N) (new_leader : N -> N -> LeaderId).
Context (enc_entry : Entry LeaderId Membership -> bytes)
  (dec_entry : bytes -> option (Entry LeaderId Membership)).

Abbreviation raw := (raw_entry get_term enc_entry).

(** Entries the codec reads back, with fields that fit. *)
Record entry_ok (e : Entry LeaderId Membership) : Prop := {
  ok_index : (entry_index e < u64_max)%N;
  ok_term : (get_term (leader_id (entry_id e)) < 2 ^ 64)%N;
  ok_len : (N.of_nat (length (enc_entry e)) < 2 ^ 32)%N;
  ok_codec : dec_entry (enc_entry e) = Some e;
}.

Lemma raw_wf e : entry_ok e -> entry_wf (raw e).
Proof. intros [Hi Ht Hl _]. unfold u64_max in Hi. split; cbn; [lia|done|done]. Qed.

(** No index is missing between two of the log. *)
Definition gapfree (xs : list (Entry LeaderId Membership)) : Prop :=
  forall a b k, a ∈ xs -> b ∈ xs -> (entry_index a <= k)%N -> (k <= entry_index b)%N ->
    k ∈ map entry_index xs.

Definition select (f : N -> bool) (xs : list (Entry LeaderId Membership)) : list (Entry LeaderId Membership) :=
  List.filter (fun e => f (entry_index e)) xs.

Lemma keep_raw f xs : keep f (map raw xs) = map raw (select f xs).
Proof.
  induction xs as [|e xs IH]; [done|]. unfold keep, select in *. cbn [map List.filter].
  change (log_index (raw e)) with (entry_index e). rewrite IH. by destruct (f (entry_index e)).
Qed.

Lemma raw_indexes xs : map log_index (map raw xs) = map entry_index xs.
Proof. by rewrite map_map. Qed.

Lemma elem_of_select f xs e : e ∈ select f xs <-> e ∈ xs /\ f (entry_index e) = true.
Proof. unfold select. rewrite !list_elem_of_In. apply List.filter_In. Qed.

(** Cutting a gapfree log anywhere leaves it gapfree. *)
Lemma gapfree_select f xs :
  (forall i j k, f i = true -> f j = true -> (i <= k)%N -> (k <= j)%N -> f k = true) ->
  gapfree xs -> gapfree (select f xs).
Proof.
  intros Hf Hg a b k [Ha Hfa]%elem_of_select [Hb Hfb]%elem_of_select H1 H2.
  pose proof (Hg a b k Ha Hb H1 H2) as (e & -> & He)%list_elem_of_fmap.
  apply list_elem_of_fmap_2, elem_of_select. split; [done|]. by eapply (Hf (entry_index a) (entry_index b)).
Qed.

Lemma gapfree_cut xs k : gapfree xs -> cut_exists (map raw xs) k.
Proof.
  intros Hg. unfold cut_exists. rewrite raw_indexes.
  destruct (decide (Forall (fun e => entry_index e <= k)%N xs)) as [Ha|Ha].
  { right. left. intros r (e & -> & He)%list_elem_of_fmap. rewrite list.Forall_forall in Ha. by apply Ha. }
  destruct (decide (Forall (fun e => k < entry_index e)%N xs)) as [Hb|Hb].
  { right. right. intros r (e & -> & He)%list_elem_of_fmap. rewrite list.Forall_forall in Hb. by apply Hb. }
  left. apply not_Forall_Exists, list.Exists_exists in Ha as (b & Hb1 & Hb2); [|intros ?; apply _].
  apply not_Forall_Exists, list.Exists_exists in Hb as (a & Ha1 & Ha2); [|intros ?; apply _].
  cbn in *. apply (Hg a b); [done|done|lia|lia].
Qed.

Inductive raft_op : Type :=
  | RaftAppend (entries : list (Entry LeaderId Membership))
  | RaftTruncate (id : LogId LeaderId)
  | RaftPurge (id : LogId LeaderId)
  | RaftReopen.

Definition raft_step (s : LogStore) (op : raft_op) : LogStore * result AdapterError unit :=
  match op with
  | RaftAppend entries => adapter_append get_term enc_entry s entries
  | RaftTruncate id => adapter_truncate s id
  | RaftPurge id => adapter_purge s id
  | RaftReopen => (open_log (log_file s), Ok tt)
  end.

Fixpoint raft_run (s : LogStore) (ops : list raft_op) : LogStore * result AdapterError unit :=
  match ops with
  | [] => (s, Ok tt)
  | op :: ops =>
      match raft_step s op with
      | (s', Ok _) => raft_run s' ops
      | (s', Err e) => (s', Err e)
      end
  end.

(** openraft's contract: [truncate] drops the id and all after, [purge] the id and all before. *)
Definition raft_spec (xs : list (Entry LeaderId Membership)) (op : raft_op) : list (Entry LeaderId Membership) :=
  match op with
  | RaftAppend entries => xs ++ entries
  | RaftTruncate id => select (fun i => bool_decide (i < id_index id)%N) xs
  | RaftPurge id => select (fun i => bool_decide (id_index id < i)%N) xs
  | RaftReopen => xs
  end.

(** What the caller promises: entries continue the log without a gap, no truncation
    starts at index 0, and ids stay below the last [u64]. *)
Definition raft_admissible (xs : list (Entry LeaderId Membership)) (op : raft_op) : Prop :=
  match op with
  | RaftAppend entries =>
      StronglySorted N.lt (map entry_index (xs ++ entries)) /\ gapfree (xs ++ entries) /\
      Forall entry_ok entries
  | RaftTruncate id => (0 < id_index id)%N
  | RaftPurge id => (id_index id < u64_max)%N
  | RaftReopen => True
  end.

Fixpoint raft_admissible_run (xs : list (Entry LeaderId Membership)) (ops : list raft_op) : Prop :=
  match ops with
  | [] => True
  | op :: ops => raft_admissible xs op /\ raft_admissible_run (raft_spec xs op) ops
  end.

Record holds_entries (s : LogStore) (xs : list (Entry LeaderId Membership)) : Prop := {
  he_log : holds_log s (map raw xs);
  he_gapfree : gapfree xs;
  he_ok : Forall entry_ok xs;
}.

Lemma Forall_select (P : Entry LeaderId Membership -> Prop) f xs : Forall P xs -> Forall P (select f xs).
Proof. rewrite !list.Forall_forall. intros H e [He _]%elem_of_select. by apply H. Qed.

Lemma select_ext f g xs :
  (forall e, e ∈ xs -> f (entry_index e) = g (entry_index e)) -> select f xs = select g xs.
Proof. intros H. apply List.filter_ext_in. intros e He. by apply H, list_elem_of_In. Qed.

Lemma holds_entries_step s xs op :
  holds_entries s xs -> raft_admissible xs op ->
  exists s', raft_step s op = (s', Ok tt) /\ holds_entries s' (raft_spec xs op).
Proof.
  intros [Hl Hg Ho] Ha. destruct op as [es|id|id|]; cbn in Ha |- *.
  - destruct Ha as (Hs & Hg' & Ho').
    destruct (holds_log_append s (map raw xs) (map raw es)) as (s' & E & Hh); [done| | |].
    + unfold increasing. by rewrite <- map_app, raw_indexes.
    + apply Forall_map. eapply Forall_impl; [exact Ho'|apply raw_wf].
    + unfold adapter_append. rewrite E. exists s'. split; [done|]. rewrite <- map_app in Hh.
      split; [done|done|]. by apply Forall_app.
  - destruct (holds_truncate s _ (id_index id - 1) Hl (gapfree_cut _ _ Hg)) as (s' & E & Hh).
    unfold adapter_truncate. rewrite E. exists s'. split; [done|]. rewrite keep_raw in Hh.
    rewrite (select_ext _ (fun i => bool_decide (i <= id_index id - 1)%N))
      by (intros e _; apply bool_decide_ext; lia).
    split; [done| |by apply Forall_select]. apply gapfree_select; [|done].
    intros i j k _ ?%bool_decide_eq_true _ ?. apply bool_decide_eq_true_2. lia.
  - destruct (holds_purge s _ (N.min (id_index id + 1) u64_max) Hl) as (s' & E & Hh).
    unfold adapter_purge. rewrite E. exists s'. split; [done|]. rewrite keep_raw in Hh.
    rewrite (select_ext _ (fun i => bool_decide (N.min (id_index id + 1) u64_max <= i)%N))
      by (intros e _; apply bool_decide_ext; lia).
    split; [done| |by apply Forall_select]. apply gapfree_select; [|done].
    intros i j k ?%bool_decide_eq_true _ ? _. apply bool_decide_eq_true_2. lia.
  - eexists. split; [done|]. split; [|done|done]. by rewrite (holds_reopen s (map raw xs)).
Qed.

Lemma holds_entries_run ops s xs :
  holds_entries s xs -> raft_admissible_run xs ops ->
  exists s', raft_run s ops = (s', Ok tt) /\ holds_entries s' (foldl raft_spec xs ops).
Proof.
  revert s xs. induction ops as [|op ops IH]; intros s xs Hh Ha; cbn in *; [by exists s|].
  destruct Ha as [Ha Har]. destruct (holds_entries_step s xs op Hh Ha) as (s' & -> & Hh'). by apply IH.
Qed.

Lemma decode_raw xs : Forall entry_ok xs -> decode_entries dec_entry (map raw xs) = Ok xs.
Proof.
  induction 1 as [|e xs He _ IH]; [done|]. cbn [map decode_entries].
  change (op_bytes (raw e)) with (enc_entry e). rewrite (ok_codec _ He). cbn [ok_or mbind result_bind].
  by rewrite IH.
Qed.

(** Membership in a range of indexes. *)
Definition in_bounds (lo hi : Bound) (i : N) : bool :=
  match lo with Included a => bool_decide (a <= i)%N | Excluded a => bool_decide (a < i)%N | Unbounded => true end
  && match hi with Included b => bool_decide (i <= b)%N | Excluded b => bool_decide (i < b)%N | Unbounded => true end.

Lemma in_bounds_range lo hi i :
  hi <> Excluded 0 -> (i < u64_max)%N ->
  in_bounds lo hi i = bool_decide (range_start lo <= i)%N && bool_decide (i <= range_end hi)%N.
Proof.
  intros Hhi Hi. unfold in_bounds, range_start, range_end. f_equal.
  - destruct lo; [done|apply bool_decide_ext; lia|]. symmetry. apply bool_decide_eq_true_2. lia.
  - destruct hi as [b|b|]; [done| |].
    + apply bool_decide_ext. assert (b <> 0%N) by congruence. lia.
    + symmetry. apply bool_decide_eq_true_2. lia.
Qed.

Lemma entry_below_last s xs e :
  holds_entries s xs -> e ∈ xs -> (entry_index e <= default 0 (last_log_index s))%N.
Proof.
  intros [Hl _ _] He. rewrite (holds_last _ _ Hl).
  destruct (list.last (map raw xs)) as [x|] eqn:L.
  2:{ apply last_None, map_eq_nil in L as ->. by apply not_elem_of_nil in He. }
  apply last_Some in L as (l & L). cbn.
  pose proof (hold_inc _ _ Hl) as Hi. rewrite L in Hi. apply increasing_app in Hi as (_ & _ & Hlt).
  apply (list_elem_of_fmap_2 raw) in He. change (raw <$> xs) with (map raw xs) in He. rewrite L in He.
  change (entry_index e) with (log_index (raw e)).
  apply elem_of_app in He as [He|He]; [|by apply list_elem_of_singleton in He as ->].
  apply N.lt_le_incl, Hlt; [done|by left].
Qed.

Lemma holds_entries_range s xs lo hi :
  holds_entries s xs -> hi <> Excluded 0 ->
  try_get_log_entries dec_entry s lo hi = Ok (select (in_bounds lo hi) xs).
Proof.
  intros Hh Hhi. pose proof Hh as [Hl _ Ho]. unfold try_get_log_entries.
  set (e := N.min _ _).
  assert (Hsel : select (in_bounds lo hi) xs =
      select (fun i => bool_decide (range_start lo <= i)%N && bool_decide (i <= e)%N) xs).
  { apply select_ext. intros x Hx. rewrite list.Forall_forall in Ho.
    rewrite in_bounds_range by (try done; apply (ok_index x (Ho x Hx))). f_equal.
    pose proof (entry_below_last s xs x Hh Hx). apply bool_decide_ext. lia. }
  rewrite Hsel. case_bool_decide as Hlt.
  - symmetry. f_equal. unfold select.
    destruct (List.filter _ xs) as [|x r] eqn:F; [done|].
    assert (Hx : List.In x (x :: r)) by by left. rewrite <- F in Hx.
    apply List.filter_In in Hx as [_ Hx]. apply andb_true_iff in Hx as [H1 H2].
    apply bool_decide_eq_true in H1, H2. lia.
  - rewrite (holds_range _ _ _ _ Hl). cbn [log_err mbind result_bind]. rewrite keep_raw.
    apply decode_raw, Forall_select, Ho.
Qed.

Lemma holds_entries_state s xs :
  holds_entries s xs ->
  get_log_state new_leader s =
    match head xs, list.last xs with
    | Some a, Some b =>
        let lid := new_leader (get_term (leader_id (entry_id b))) 0 in
        mkLogState (if bool_decide (0 < entry_index a)%N then Some (mkLogId lid (entry_index a - 1)) else None)
          (Some (mkLogId lid (entry_index b)))
    | _, _ => mkLogState None None
    end.
Proof.
  intros [Hl _ _]. unfold get_log_state. rewrite (holds_term _ _ Hl), (holds_last _ _ Hl).
  unfold first_log_index. rewrite (hold_map _ _ Hl), sorted_keys_of, raw_indexes by apply Hl.
  change (map raw xs) with (raw <$> xs). rewrite fmap_last.
  destruct xs as [|a xs]; [done|]. destruct (list.last (a :: xs)) as [b|] eqn:L; [done|].
  by apply last_None in L.
Qed.
End LogRefinement.


(** A codec for blank entries. *)
Definition demo_enc_entry (e : Entry N N) : bytes :=
  le_bytes 8 (leader_id (entry_id e)) ++ le_bytes 8 (id_index (entry_id e)).
Definition demo_dec_entry (b : bytes) : option (Entry N N) :=
  Some (mkEntry (mkLogId (le_val (take 8 b)) (le_val (drop 8 b))) Blank).

Definition blank (i : N) : Entry N N := mkEntry (mkLogId 1%N i) Blank.

Definition demo_raft_ops : list (raft_op (LeaderId:=N) (Membership:=N)) :=
  [RaftAppend [blank 0; blank 1; blank 2; blank 3]; RaftTruncate (mkLogId 1%N 3%N);
   RaftPurge (mkLogId 1%N 0%N); RaftReopen].

Lemma blank_ok i : (i < 1000)%N -> entry_ok (fun t => t) demo_enc_entry demo_dec_entry (blank i).
Proof.
  intros Hi. split; cbn [blank entry_id leader_id id_index]; [unfold entry_index, u64_max; cbn; lia|lia| |].
  - unfold demo_enc_entry. rewrite length_app, !length_le_bytes. lia.
  - unfold demo_enc_entry, demo_dec_entry. cbn [blank entry_id leader_id id_index].
    rewrite take_app_length', drop_app_length' by (by rewrite length_le_bytes).
    by rewrite !le_val_le_bytes_small by (cbn; lia).
Qed.


(** [truncate] at index 0 keeps entry 0. *)
Theorem truncate_zero_keeps_entry :
  let s := (adapter_append (fun t => t) demo_enc_entry (open_log []) [blank 0; blank 1]).1 in
  try_get_log_entries demo_dec_entry (adapter_truncate s (mkLogId 1%N 0%N)).1 Unbounded Unbounded
    = Ok [blank 0].
Proof. vm_compute. reflexivity. Qed.

(** The empty range [0..0] returns entry 0. *)
Theorem empty_range_returns_entry :
  let s := (adapter_append (fun t => t) demo_enc_entry (open_log []) [blank 0; blank 1]).1 in
  try_get_log_entries demo_dec_entry s (Included 0) (Excluded 0) = Ok [blank 0].
Proof. vm_compute. reflexivity. Qed.

(** A log purged to its end forgets that it was. *)
Theorem purge_all_forgets_purged :
  let s := (adapter_append (fun t => t) demo_enc_entry (open_log []) [blank 0; blank 1]).1 in
  get_log_state (fun t _ => t) (adapter_purge s (mkLogId 1%N 1%N)).1 = mkLogState None None.
Proof. vm_compute. reflexivity. Qed.
