(* ===== verification/FileSys.v ===== *)
(** The file system a local volume works on: the part of [std::fs] and [tokio::fs]
    the volume calls, with directories of their own.

    Permissions, links, a full disk and failing devices are not modelled: an
    operation fails only for the shape of the tree.  Each call is atomic. *)

From Stdlib Require Import Ascii.
From stdpp Require Import base list gmap strings numbers.
From S2P Require Import Prelude Metadata Pathing Wal Materialize.

Record FS : Type := mkFS {
  fs_files : Files;
  fs_dirs : gset Path;
}.

Definition fs_is_dir (fs : FS) (p : Path) : bool := bool_decide (p ∈ fs_dirs fs).
Definition fs_read (fs : FS) (p : Path) : option bytes := fs_files fs !! p.

(** [p] and the directories above it. *)
Definition prefixes (p : Path) : list Path := map (fun i => take i p) (seq 1 (length p)).

(** [create_dir_all]. *)
Definition mkdir_all (p : Path) (fs : FS) : FS * Result unit :=
  if existsb (fun q => bool_decide (is_Some (fs_files fs !! q))) (prefixes p)
  then (fs, Err (Io "not a directory"))
  else (mkFS (fs_files fs) (fs_dirs fs ∪ list_to_set (prefixes p)), Ok tt).

Definition parent (p : Path) : Path := take (length p - 1) p.

(** [fs::write] and [File::create]: the directory must exist, the path must not be one. *)
Definition fs_put (p : Path) (data : bytes) (fs : FS) : FS * Result unit :=
  if fs_is_dir fs p then (fs, Err (Io "is a directory"))
  else if negb (fs_is_dir fs (parent p)) then (fs, Err (Io "not found"))
  else (mkFS (<[p := data]> (fs_files fs)) (fs_dirs fs), Ok tt).

Definition below (d p : Path) : bool := path_starts_with p d.

(** [remove_dir_all]. *)
Definition remove_dir_all (d : Path) (fs : FS) : FS :=
  mkFS (filter (fun e : Path * bytes => below d e.1 = false) (fs_files fs))
       (filter (fun p => below d p = false) (fs_dirs fs)).

(** The names in a directory. *)
Definition child_name (d p : Path) : option string :=
  if bool_decide (take (length d) p = d) then
    match drop (length d) p with [Normal n] => Some n | _ => None end
  else None.

Definition dir_entries (fs : FS) (d : Path) : list string := omap (child_name d) (elements (fs_dirs fs)).
Definition file_entries (fs : FS) (d : Path) : list string :=
  omap (child_name d) (map fst (map_to_list (fs_files fs))).

(** [remove_dir]: only an empty directory. *)
Definition remove_dir (d : Path) (fs : FS) : FS * Result unit :=
  if bool_decide (dir_entries fs d = []) && bool_decide (file_entries fs d = [])
  then (mkFS (fs_files fs) (fs_dirs fs ∖ {[d]}), Ok tt)
  else (fs, Err BucketNotEmpty).

(** [rename] of a file: the target may be a file but not a directory, and its directory
    must exist. *)
Definition fs_rename (src dst : Path) (fs : FS) : FS * Result unit :=
  match fs_files fs !! src with
  | None => (fs, Err (Io "not found"))
  | Some data =>
      if fs_is_dir fs dst then (fs, Err (Io "is a directory"))
      else if negb (fs_is_dir fs (parent dst)) then (fs, Err (Io "not found"))
      else (mkFS (<[dst := data]> (delete src (fs_files fs))) (fs_dirs fs), Ok tt)
  end.

(** Whether the error of reading a path that is no file is one other than "not found": the
    path is a directory, or it leads through a file. *)
Definition read_refused (fs : FS) (p : Path) : bool :=
  fs_is_dir fs p ||
  negb (fs_is_dir fs (parent p)) && existsb (fun q => bool_decide (is_Some (fs_files fs !! q))) (prefixes (parent p)).

(** [remove_file], and [Path::exists]. *)
Definition fs_remove (p : Path) (fs : FS) : FS := mkFS (delete p (fs_files fs)) (fs_dirs fs).
Definition fs_exists (fs : FS) (p : Path) : bool := bool_decide (is_Some (fs_files fs !! p)) || fs_is_dir fs p.

(** An open file: writes go to the handle's offset, and to nothing once the file is gone. *)
Record Handle : Type := mkHandle {
  h_path : Path;
  h_offset : nat;
}.

Definition overwrite (off : nat) (data old : bytes) : bytes :=
  resize off zero_byte old ++ data ++ drop (off + length data) old.

Definition handle_write (h : Handle) (data : bytes) (fs : FS) : FS * Handle :=
  (match fs_files fs !! h_path h with
   | Some old => mkFS (<[h_path h := overwrite (h_offset h) data old]> (fs_files fs)) (fs_dirs fs)
   | None => fs
   end, mkHandle (h_path h) (h_offset h + length data)).

(** ** The tree *)

(** Every file and directory lies in a directory, and no path is both. *)
Record fs_wf (fs : FS) : Prop := {
  wf_file_parent : forall p, is_Some (fs_files fs !! p) -> parent p ∈ fs_dirs fs;
  wf_dir_parent : forall p, p ∈ fs_dirs fs -> length p <= 1 \/ parent p ∈ fs_dirs fs;
  wf_disjoint : forall p, p ∈ fs_dirs fs -> fs_files fs !! p = None;
}.

(** ** Lemmas *)

Lemma elem_of_prefixes q p : q ∈ prefixes p <-> q <> [] /\ exists r, p = q ++ r.
Proof.
  unfold prefixes. rewrite list_elem_of_fmap. split.
  - intros (i & -> & Hi%elem_of_seq). split.
    + intros E. apply (f_equal length) in E. rewrite length_take in E. cbn in E. lia.
    + exists (drop i p). by rewrite take_drop.
  - intros [Hq [r ->]]. exists (length q). split; [by rewrite take_app_length|].
    apply elem_of_seq. rewrite length_app. destruct q; [done|]. cbn. lia.
Qed.

Lemma prefixes_self p : p <> [] -> p ∈ prefixes p.
Proof. intros Hp. apply elem_of_prefixes. split; [done|]. exists []. by rewrite app_nil_r. Qed.

Lemma parent_snoc d c : parent (d ++ [c]) = d.
Proof.
  unfold parent. rewrite length_app. cbn [length].
  replace (length d + 1 - 1) with (length d) by lia. apply take_app_length.
Qed.

Lemma below_spec d p : below d p = true <-> exists r, p = d ++ r.
Proof.
  unfold below. split; [apply path_starts_with_prefix|]. intros [r ->]. apply path_starts_with_app.
Qed.

Lemma mkdir_all_ok p fs :
  (forall q, q ∈ prefixes p -> fs_files fs !! q = None) ->
  mkdir_all p fs = (mkFS (fs_files fs) (fs_dirs fs ∪ list_to_set (prefixes p)), Ok tt).
Proof.
  intros Hf. unfold mkdir_all. destruct (existsb _ _) eqn:E; [|done]. exfalso.
  apply existsb_exists in E as (q & Hq & Hs). apply bool_decide_eq_true in Hs as [x Hx].
  apply list_elem_of_In in Hq. by rewrite Hf in Hx.
Qed.

Lemma read_not_found fs p : p ∉ fs_dirs fs ->
  parent p ∈ fs_dirs fs \/ (forall q, q ∈ prefixes (parent p) -> fs_files fs !! q = None) -> read_refused fs p = false.
Proof.
  intros Hp H. unfold read_refused, fs_is_dir. rewrite (bool_decide_eq_false_2 _ Hp). cbn [orb].
  destruct H as [Hd|Hf]; [by rewrite (bool_decide_eq_true_2 _ Hd)|]. apply andb_false_intro2.
  apply not_true_is_false. intros (q & Hq & Hs)%existsb_exists. apply bool_decide_eq_true in Hs as [x Hx].
  apply list_elem_of_In in Hq. by rewrite Hf in Hx.
Qed.

Lemma mkdir_all_inv p fs fs' r :
  mkdir_all p fs = (fs', r) ->
  fs_files fs' = fs_files fs /\ (forall q, q ∈ fs_dirs fs -> q ∈ fs_dirs fs') /\
  (forall q, q ∈ fs_dirs fs' -> q ∈ fs_dirs fs \/ q ∈ prefixes p) /\
  (r = Ok tt -> forall q, q ∈ prefixes p -> q ∈ fs_dirs fs' /\ fs_files fs !! q = None).
Proof.
  unfold mkdir_all. destruct (existsb _ _) eqn:E; intros [= <- <-].
  { split_and!; [done|done|by left|discriminate]. }
  cbn. split_and!; [done|set_solver|set_solver|].
  intros _ q Hq. split; [set_solver|]. apply eq_None_not_Some. intros Hs.
  enough (existsb (fun q => bool_decide (is_Some (fs_files fs !! q))) (prefixes p) = true) by congruence.
  apply existsb_exists. exists q. split; [by apply list_elem_of_In|]. by apply bool_decide_eq_true.
Qed.

Lemma fs_put_ok p data fs :
  p ∉ fs_dirs fs -> parent p ∈ fs_dirs fs ->
  fs_put p data fs = (mkFS (<[p := data]> (fs_files fs)) (fs_dirs fs), Ok tt).
Proof.
  intros Hp Hd. unfold fs_put, fs_is_dir. rewrite (bool_decide_eq_false_2 (p ∈ _)) by done.
  by rewrite (bool_decide_eq_true_2 (parent p ∈ _)) by done.
Qed.

(** What a write leaves, whether it succeeds or not. *)
Lemma fs_put_inv p data fs fs' r :
  fs_put p data fs = (fs', r) ->
  fs_dirs fs' = fs_dirs fs /\ (forall q, q <> p -> fs_files fs' !! q = fs_files fs !! q) /\
  (r = Ok tt -> fs_files fs' !! p = Some data).
Proof.
  unfold fs_put. destruct (fs_is_dir fs p); [by intros [= <- <-]|].
  destruct (negb _); intros [= <- <-]; [done|]. cbn. split_and!; [done| |].
  - intros q Hq. by rewrite lookup_insert_ne.
  - intros _. by rewrite lookup_insert_eq.
Qed.

Lemma mkdir_all_wf p fs : fs_wf fs -> fs_wf (mkdir_all p fs).1.
Proof.
  intros [Hf Hd Hx]. destruct (mkdir_all p fs) as [fs' r] eqn:E. pose proof E as E'.
  unfold mkdir_all in E'. destruct (existsb _ _) eqn:Ex; injection E' as <- <-; [by split|].
  destruct (mkdir_all_inv _ _ _ _ E) as (_ & _ & _ & Hp). specialize (Hp eq_refl). cbn in *. split; cbn.
  - intros q Hq. apply elem_of_union_l. by apply Hf.
  - intros q [Hq|Hq]%elem_of_union; [destruct (Hd q Hq); [by left|right; set_solver]|].
    rewrite elem_of_list_to_set in Hq. apply elem_of_prefixes in Hq as [Hq (r & ->)].
    destruct (decide (length q <= 1)) as [|Hl]; [by left|right]. apply elem_of_union_r, elem_of_list_to_set.
    apply elem_of_prefixes. unfold parent. split.
    + intros E2. apply (f_equal length) in E2. rewrite length_take in E2. cbn in E2. lia.
    + exists (drop (length q - 1) q ++ r). by rewrite app_assoc, take_drop.
  - intros q [Hq|Hq]%elem_of_union; [by apply Hx|].
    rewrite elem_of_list_to_set in Hq. by apply Hp.
Qed.

Lemma fs_put_wf p data fs : fs_wf fs -> fs_wf (fs_put p data fs).1.
Proof.
  intros [Hf Hd Hx]. unfold fs_put, fs_is_dir. case_bool_decide as Hp; [by split|].
  case_bool_decide as Hpar; cbn; [|by split]. split; cbn; [|done|].
  - intros q Hq. destruct (decide (q = p)) as [->|Hne]; [done|].
    rewrite lookup_insert_ne in Hq by done. by apply Hf.
  - intros q Hq. rewrite lookup_insert_ne by (by intros ->). by apply Hx.
Qed.

(** Nothing of what lies below is left, and nothing else changes. *)
Lemma remove_dir_all_lookup d fs p :
  fs_files (remove_dir_all d fs) !! p = if below d p then None else fs_files fs !! p.
Proof.
  unfold remove_dir_all. cbn. destruct (below d p) eqn:B.
  - apply map_lookup_filter_None. right. intros x _. cbn. congruence.
  - destruct (fs_files fs !! p) as [x|] eqn:E.
    + by apply map_lookup_filter_Some.
    + apply map_lookup_filter_None. by left.
Qed.

Lemma elem_of_remove_dir_all d fs p :
  p ∈ fs_dirs (remove_dir_all d fs) <-> p ∈ fs_dirs fs /\ below d p = false.
Proof. unfold remove_dir_all. cbn. rewrite elem_of_filter. tauto. Qed.

Lemma below_parent d p : below d p = false -> below d (parent p) = false.
Proof.
  intros Hb. destruct (below d (parent p)) eqn:E; [|done]. apply below_spec in E as [r Hr].
  enough (below d p = true) by congruence. apply below_spec. unfold parent in Hr.
  exists (r ++ drop (length p - 1) p). by rewrite app_assoc, <- Hr, take_drop.
Qed.

Lemma remove_dir_all_wf d fs : fs_wf fs -> fs_wf (remove_dir_all d fs).
Proof.
  intros [Hf Hd Hx]. split.
  - intros p. rewrite remove_dir_all_lookup. destruct (below d p) eqn:B; [by intros []|].
    intros Hp. apply elem_of_remove_dir_all. split; [by apply Hf|by apply below_parent].
  - intros p [Hp Hb]%elem_of_remove_dir_all. destruct (Hd p Hp) as [|Hpar]; [by left|right].
    apply elem_of_remove_dir_all. split; [done|by apply below_parent].
  - intros p [Hp Hb]%elem_of_remove_dir_all. rewrite remove_dir_all_lookup, Hb. by apply Hx.
Qed.

(** A directory holds what has it for a parent. *)
Lemma elem_of_dir_entries fs d n : n ∈ dir_entries fs d <-> d ++ [Normal n] ∈ fs_dirs fs.
Proof.
  unfold dir_entries. rewrite list_elem_of_omap. split.
  - intros (p & Hp & Hc). unfold child_name in Hc. case_bool_decide as Ht; [|done].
    destruct (drop (length d) p) as [|[| | |m] [|? ?]] eqn:E; try done. injection Hc as ->.
    rewrite <- (take_drop (length d) p), Ht, E in Hp. by apply elem_of_elements.
  - intros Hp. exists (d ++ [Normal n]). split; [by apply elem_of_elements|].
    unfold child_name. by rewrite take_app_length, drop_app_length, bool_decide_eq_true_2.
Qed.

(** The directories above a directory exist. *)
Lemma dirs_closed fs p r : fs_wf fs -> p <> [] -> p ++ r ∈ fs_dirs fs -> p ∈ fs_dirs fs.
Proof.
  intros Hwf Hp. induction r as [|x r IH] using rev_ind; [by rewrite app_nil_r|].
  rewrite app_assoc. intros Hin. apply IH.
  destruct (wf_dir_parent _ Hwf _ Hin) as [Hl|Hpar]; [|by rewrite parent_snoc in Hpar].
  rewrite !length_app in Hl. cbn in Hl. destruct p; [done|]. cbn in Hl. lia.
Qed.

(** Writes through one handle add up. *)
Lemma handle_write_snoc p old data fs :
  fs_files fs !! p = Some old ->
  handle_write (mkHandle p (length old)) data fs =
    (mkFS (<[p := old ++ data]> (fs_files fs)) (fs_dirs fs), mkHandle p (length (old ++ data))).
Proof.
  intros Hp. unfold handle_write. cbn. rewrite Hp, length_app. unfold overwrite.
  rewrite resize_all, (drop_ge old), app_nil_r by lia. done.
Qed.

(** ** Files that do not get in each other's way *)

(** [p] can be written: no file stands where its directory goes, and it is no directory. *)
Definition ready (fs : FS) (p : Path) : Prop :=
  (forall q, q ∈ prefixes (parent p) -> fs_files fs !! q = None) /\ p ∉ fs_dirs fs.

(** Neither of the two lies below the other. *)
Definition indep (p q : Path) : Prop :=
  forall r, r <> [] -> q <> p ++ r /\ p <> q ++ r.

Lemma elem_of_prefixes_snoc d c q : q ∈ prefixes d -> exists r, r <> [] /\ d ++ [c] = q ++ r.
Proof.
  intros [Hq [r ->]]%elem_of_prefixes. exists (r ++ [c]). split; [by destruct r|]. by rewrite app_assoc.
Qed.

Lemma indep_not_above p q : indep p q -> p ∉ prefixes (parent q).
Proof.
  intros Hi Hx. destruct q as [|y q' _] using rev_ind.
  { apply elem_of_prefixes in Hx as [Hne [r Hr]]. destruct p; [done|discriminate Hr]. }
  rewrite parent_snoc in Hx. apply (elem_of_prefixes_snoc q' y) in Hx as (r & Hr & E). by destruct (Hi r Hr).
Qed.

(** [create_dir_all] and [write] of a file that is ready. *)
Lemma put_ready fs d c data :
  d <> [] -> ready fs (d ++ [c]) ->
  exists fs1 fs', mkdir_all d fs = (fs1, Ok tt) /\ fs_put (d ++ [c]) data fs1 = (fs', Ok tt) /\
    fs_files fs' = <[d ++ [c] := data]> (fs_files fs) /\ d ∈ fs_dirs fs' /\
    (forall q, q ∈ fs_dirs fs -> q ∈ fs_dirs fs') /\
    (forall q, ready fs q -> indep (d ++ [c]) q -> ready fs' q).
Proof.
  intros Hd [Hf Hp]. rewrite parent_snoc in Hf.
  eexists _, _. split; [by apply mkdir_all_ok|]. split.
  { apply fs_put_ok; cbn.
    - rewrite not_elem_of_union, not_elem_of_list_to_set. split; [done|].
      intros (r & Hr & E)%(elem_of_prefixes_snoc d c). apply (f_equal length) in E. rewrite !length_app in E.
      destruct r; [done|]. cbn in E. lia.
    - rewrite parent_snoc. apply elem_of_union_r, elem_of_list_to_set. by apply prefixes_self. }
  cbn. split_and!; [done|apply elem_of_union_r, elem_of_list_to_set; by apply prefixes_self|set_solver|].
  intros q [Hqf Hqd] Hi. split; cbn.
  - intros x Hx. rewrite lookup_insert_ne; [by apply Hqf|]. intros <-. by apply (indep_not_above _ _ Hi).
  - rewrite not_elem_of_union, not_elem_of_list_to_set. split; [done|].
    intros (r & Hr & E)%(elem_of_prefixes_snoc d c). by destruct (Hi r Hr).
Qed.

(** [write] into a directory that exists. *)
Lemma put_in_dir fs d c data :
  d ∈ fs_dirs fs -> d ++ [c] ∉ fs_dirs fs ->
  fs_put (d ++ [c]) data fs = (mkFS (<[d ++ [c] := data]> (fs_files fs)) (fs_dirs fs), Ok tt).
Proof. intros Hd Hp. apply fs_put_ok; [done|by rewrite parent_snoc]. Qed.

(** A new file elsewhere, or one less, keeps a path ready. *)
Lemma ready_files fs fs' q :
  fs_dirs fs' = fs_dirs fs -> (forall x, x ∈ prefixes (parent q) -> fs_files fs !! x = None -> fs_files fs' !! x = None) ->
  ready fs q -> ready fs' q.
Proof. intros Hd Hf [H1 H2]. split; [auto|by rewrite Hd]. Qed.
