(* ===== verification/LocalVolume.v ===== *)
(** A local volume ([src/storage/local_volume.rs]): the objects, versions, buckets and
    settings of one disk, as files below its root, in front of which small writes may
    go through the write-ahead log.

    An operation takes the volume and returns it changed; [None] is the panic of a
    log write out of bounds.  A streaming writer is a value of its own that holds a
    buffer or an open file.  base64 and the JSON of bucket settings are parameters.
    The order of [read_dir] does not matter: every listing is sorted. *)

From Stdlib Require Import Ascii.
From stdpp Require Import base list gmap strings numbers pretty sorting.
From S2P Require Import Prelude Metadata Needle Segment Pathing Wal Materialize RaftFsm FileSys.

(** base64 (the standard alphabet) and serde_json on [BucketSettings]. *)
Class Base64 : Type := {
  b64_encode : bytes -> string;
  b64_decode : string -> option bytes;
}.
Class Base64Ok `{Base64} : Prop := b64_roundtrip : forall d, b64_decode (b64_encode d) = Some d.

Class SettingsCodec : Type := {
  settings_to_vec : BucketSettings -> option bytes;
  settings_from_slice : bytes -> option BucketSettings;
}.
Class SettingsCodecOk `{SettingsCodec} : Prop :=
  settings_roundtrip : forall s b, settings_to_vec s = Some b -> settings_from_slice b = Some s.

(** The log and its dispatch ([wal] and [wal_tx]). *)
Record WalHandle : Type := mkWalHandle {
  wh_wal : Wal;
  wh_workers : list Worker;
  wh_next : N;
  wh_cap : nat;
}.

Record LocalVolume : Type := mkLocalVolume {
  lv_root : Path;
  lv_volume_id : string;
  lv_fs : FS;
  lv_wal : option WalHandle;
  lv_threshold : nat;
}.

Definition set_fs (fs : FS) (v : LocalVolume) : LocalVolume :=
  mkLocalVolume (lv_root v) (lv_volume_id v) fs (lv_wal v) (lv_threshold v).
Definition set_wal (h : WalHandle) (v : LocalVolume) : LocalVolume :=
  mkLocalVolume (lv_root v) (lv_volume_id v) (lv_fs v) (Some h) (lv_threshold v).
Definition set_inline (d : option string) (m : ObjectMeta) : ObjectMeta :=
  {| size := size m; etag := etag m; content_type := content_type m;
     created_at := created_at m; erasure := erasure m; checksum := checksum m;
     user_metadata := user_metadata m; tags := tags m; version_id := version_id m;
     is_latest := is_latest m; is_delete_marker := is_delete_marker m; parts := parts m;
     inline_data := d |}.

(** A step on the volume's files, and a sequence of two. *)
Abbreviation Io_step := (FS -> FS * Result unit).
Definition andthen (f g : Io_step) : Io_step :=
  fun fs => let r := f fs in match r.2 with Ok _ => g r.1 | Err e => (r.1, Err e) end.
Definition failing {A : Type} (r : Result A) (k : A -> Io_step) : Io_step :=
  fun fs => match r with Ok a => k a fs | Err e => (fs, Err e) end.

Definition on_files (v : LocalVolume) (f : Io_step) : LocalVolume * Result unit :=
  let r := f (lv_fs v) in (set_fs r.1 v, r.2).

Section Defs.
  Context `{Hashes} `{MetaCodec} `{UuidParser} `{MetaFileCodec} `{Base64} `{SettingsCodec}.

(** [write_meta_file] and [read_meta_file] of [metadata.rs]. *)
Definition write_meta (p : Path) (mf : ObjectMetaFile) : Io_step :=
  failing (ok_or (json_to_vec mf) (Io "invalid data")) (fun b => fs_put p b).
Definition read_meta_at (fs : FS) (p : Path) : Result ObjectMetaFile := read_meta_file (fs_files fs) p.

(** *** Construction *)

Definition local_new (root : Path) (fs : FS) (vid : option string) : Result LocalVolume :=
  if fs_is_dir fs root then
    let r := mkdir_all (push root ".abixio.tmp") fs in
    _ ← r.2; Ok (mkLocalVolume root (default "" vid) r.1 None DEFAULT_WAL_THRESHOLD)
  else Err (InvalidConfig "disk path does not exist").

Definition set_volume_id (id : string) (v : LocalVolume) : LocalVolume :=
  mkLocalVolume (lv_root v) id (lv_fs v) (lv_wal v) (lv_threshold v).

(** *** Reads through the log *)

Definition read_shard_from_wal_versioned (v : LocalVolume) (b k vid : string)
    : Result (option (bytes * ObjectMeta)) :=
  match lv_wal v with
  | None => Ok None
  | Some h =>
      match get_versioned (wh_wal h) b k vid with
      | None => Ok None
      | Some entry =>
          data ← ok_or (read_data (wh_wal h) entry) ObjectNotFound;
          meta ← read_meta (wh_wal h) entry;
          Ok (Some (data, meta))
      end
  end.

Definition read_shard_from_wal (v : LocalVolume) (b k : string) : Result (option (bytes * ObjectMeta)) :=
  read_shard_from_wal_versioned v b k "".

Definition is_in_wal (v : LocalVolume) (b k : string) : bool :=
  match lv_wal v with Some h => wal_contains (wh_wal h) b k | None => false end.

(** *** Reads of the file tier *)

(** The metadata of the first version that is not a delete marker. *)
Definition current_version (mf : ObjectMetaFile) : Result ObjectMeta :=
  ok_or (List.find (fun v => negb (is_delete_marker v)) (versions mf)) ObjectNotFound.

Definition object_versions (v : LocalVolume) (b k : string) : Result ObjectMetaFile :=
  d ← object_dir (lv_root v) b k;
  if fs_is_dir (lv_fs v) d then
    p ← object_meta_path (lv_root v) b k;
    match read_meta_at (lv_fs v) p with Ok mf => Ok mf | Err _ => Err ObjectNotFound end
  else Err ObjectNotFound.

Definition version_data_path (v : LocalVolume) (b k : string) (m : ObjectMeta) : Result Path :=
  if bool_decide (version_id m = "") then object_shard_path (lv_root v) b k
  else version_shard_path (lv_root v) b k (version_id m).

Definition read_file_tier (v : LocalVolume) (b k : string) : Result (bytes * ObjectMeta) :=
  mf ← object_versions v b k;
  m ← current_version mf;
  match inline_data m with
  | Some enc =>
      data ← ok_or (b64_decode enc) (Internal "inline base64 decode");
      Ok (data, set_inline None m)
  | None =>
      p ← version_data_path v b k m;
      data ← ok_or (fs_read (lv_fs v) p) ObjectNotFound;
      Ok (data, m)
  end.

(** [read_shard]: the log first. *)
Definition local_read_shard (v : LocalVolume) (b k : string) : Result (bytes * ObjectMeta) :=
  match read_shard_from_wal v b k with
  | Ok (Some r) => Ok r
  | _ => read_file_tier v b k
  end.

(** [read_shard_stream] skips the log. *)
Definition read_shard_stream (v : LocalVolume) (b k : string) : Result (bytes * ObjectMeta) :=
  read_file_tier v b k.

(** [mmap_shard]: as [read_shard], but inline data stays in the metadata. *)
Definition local_mmap_shard (v : LocalVolume) (b k : string) : Result (bytes * ObjectMeta) :=
  match read_shard_from_wal v b k with
  | Ok (Some r) => Ok r
  | _ =>
      mf ← object_versions v b k;
      m ← current_version mf;
      match inline_data m with
      | Some enc => data ← ok_or (b64_decode enc) (Internal "inline base64 decode"); Ok (data, m)
      | None =>
          p ← version_data_path v b k m;
          data ← ok_or (fs_read (lv_fs v) p) ObjectNotFound;
          Ok (data, m)
      end
  end.

Definition stat_object (v : LocalVolume) (b k : string) : Result ObjectMeta :=
  let from_log := h ← lv_wal v; e ← get (wh_wal h) b k; result_ok (read_meta (wh_wal h) e) in
  match from_log with
  | Some m => Ok m
  | None => mf ← object_versions v b k; m ← current_version mf; Ok (set_inline None m)
  end.

(** *** Writes of the file tier *)

Definition single_version (b k : string) (m : ObjectMeta) : ObjectMetaFile :=
  {| mf_bucket := b; mf_key := k; versions := [set_is_latest true m] |}.

(** Both writes of a [try_join!]. *)
Definition put_both (p1 : Path) (d1 : bytes) (p2 : Path) (d2 : bytes) : Io_step :=
  fun fs =>
    let r1 := fs_put p1 d1 fs in
    let r2 := fs_put p2 d2 r1.1 in
    (r2.1, _ ← r1.2; r2.2).

(** An unversioned object as two files. *)
Definition write_two_files (root : Path) (b k : string) (data : bytes) (m : ObjectMeta) : Io_step :=
  failing (object_dir root b k) (fun d =>
    andthen (mkdir_all d)
      (failing (ok_or (json_to_vec (single_version b k m)) (Internal "simd_json meta serialize"))
        (fun json => put_both (push d "shard.dat") data (push d "meta.json") json))).

(** The file path of [write_shard]. *)
Definition write_shard_files (root : Path) (b k : string) (data : bytes) (m : ObjectMeta) : Io_step :=
  if bool_decide (version_id m = "") && bool_decide (size m <= N.of_nat DEFAULT_WAL_THRESHOLD)%N then
    failing (object_dir root b k) (fun d =>
      andthen (mkdir_all d)
        (write_meta (push d "meta.json") (single_version b k (set_inline (Some (b64_encode data)) m))))
  else write_two_files root b k data m.

Definition to_mat (v : LocalVolume) (h : WalHandle) : MatState :=
  mkMatState (wh_wal h) (fs_files (lv_fs v)) (wh_workers h) (wh_next h).
Definition of_mat (h : WalHandle) (st : MatState) : WalHandle :=
  mkWalHandle (mat_wal st) (mat_workers st) (mat_next st) (wh_cap h).

(** [write_shard]. *)
Definition local_write_shard (v : LocalVolume) (b k : string) (data : bytes) (m : ObjectMeta) (now : N)
    : option (LocalVolume * Result unit) :=
  match _ ← validate_bucket_name b; validate_object_key k with
  | Err e => Some (v, Err e)
  | Ok _ =>
      match lv_wal v with
      | Some h =>
          if bool_decide (length data <= lv_threshold v) then
            r ← write_shard_wal (wh_cap h) (to_mat v h) b k data m now;
            Some (set_wal (of_mat h r.1) v, r.2)
          else Some (on_files v (write_shard_files (lv_root v) b k data m))
      | None => Some (on_files v (write_shard_files (lv_root v) b k data m))
      end
  end.

Definition empty_meta_file (b k : string) : ObjectMetaFile :=
  {| mf_bucket := b; mf_key := k; versions := [] |}.

(** The metadata file at [p], or an empty one, with its identity filled in. *)
Definition meta_or_empty (fs : FS) (p : Path) (b k : string) : ObjectMetaFile :=
  let mf := match read_meta_at fs p with Ok mf => mf | Err _ => empty_meta_file b k end in
  {| mf_bucket := if bool_decide (mf_bucket mf = "") then b else mf_bucket mf;
     mf_key := if bool_decide (mf_key mf = "") then k else mf_key mf;
     versions := versions mf |}.

(** A version put in front of the others, which stop being the latest. *)
Definition push_version (vid : string) (m : ObjectMeta) (mf : ObjectMetaFile) : ObjectMetaFile :=
  {| mf_bucket := mf_bucket mf; mf_key := mf_key mf;
     versions := set_version_id vid (set_is_latest true m) :: map (set_is_latest false) (versions mf) |}.

Definition drop_version (vid : string) (mf : ObjectMetaFile) : ObjectMetaFile :=
  {| mf_bucket := mf_bucket mf; mf_key := mf_key mf;
     versions := List.filter (fun v => negb (bool_decide (version_id v = vid))) (versions mf) |}.

Definition add_version (root : Path) (b k vid : string) (m : ObjectMeta) : Io_step :=
  failing (object_meta_path root b k) (fun p fs => write_meta p (push_version vid m (meta_or_empty fs p b k)) fs).

(** [write_versioned_shard]. *)
Definition write_versioned_shard (v : LocalVolume) (b k vid : string) (data : bytes) (m : ObjectMeta)
    : LocalVolume * Result unit :=
  on_files v
    (failing (version_dir (lv_root v) b k vid) (fun d =>
      andthen (mkdir_all d)
        (failing (version_shard_path (lv_root v) b k vid) (fun p =>
          andthen (fs_put p data) (add_version (lv_root v) b k vid m))))).

Definition write_part_shard (v : LocalVolume) (b k : string) (n : Z) (data : bytes) : LocalVolume * Result unit :=
  on_files v (failing (object_dir (lv_root v) b k) (fun d =>
    andthen (mkdir_all d) (fs_put (push d ("part." +:+ pretty n)) data))).

Definition read_part_shard (v : LocalVolume) (b k : string) (n : Z) : Result bytes :=
  d ← object_dir (lv_root v) b k;
  ok_or (fs_read (lv_fs v) (push d ("part." +:+ pretty n))) ObjectNotFound.

Definition write_meta_only (v : LocalVolume) (b k : string) (m : ObjectMeta) : LocalVolume * Result unit :=
  on_files v (failing (object_dir (lv_root v) b k) (fun d =>
    andthen (mkdir_all d)
      (failing (object_meta_path (lv_root v) b k) (fun p => write_meta p (single_version b k m))))).

Definition write_meta_versions (v : LocalVolume) (b k : string) (vs : list ObjectMeta) : LocalVolume * Result unit :=
  on_files v (failing (object_dir (lv_root v) b k) (fun d =>
    andthen (mkdir_all d)
      (failing (object_meta_path (lv_root v) b k) (fun p =>
        write_meta p {| mf_bucket := b; mf_key := k; versions := vs |})))).

(** [update_meta]: the first version with the same shard index or the same id. *)
Fixpoint replace_first (f : ObjectMeta -> bool) (m : ObjectMeta) (vs : list ObjectMeta) : list ObjectMeta :=
  match vs with
  | [] => []
  | v :: vs => if f v then m :: vs else v :: replace_first f m vs
  end.

Definition update_meta (v : LocalVolume) (b k : string) (m : ObjectMeta) : LocalVolume * Result unit :=
  match object_versions v b k with
  | Err e => (v, Err e)
  | Ok mf =>
      let same w := bool_decide (index (erasure w) = index (erasure m))
                    || bool_decide (version_id w = version_id m) in
      let mf := {| mf_bucket := mf_bucket mf; mf_key := mf_key mf;
                   versions := replace_first same m (versions mf) |} in
      on_files v (failing (object_meta_path (lv_root v) b k) (fun p => write_meta p mf))
  end.

(** *** Streaming writers *)

Inductive WalMode : Type :=
  | Buffering (buf : bytes)
  | Streaming (file : Handle).

Record WalShardWriter : Type := mkWalShardWriter {
  ww_bucket : string;
  ww_key : string;
  ww_version_id : string;
  ww_threshold : nat;
  ww_mode : WalMode;
}.

Record LocalShardWriter : Type := mkLocalShardWriter {
  lw_file : Handle;
  lw_bucket : string;
  lw_key : string;
  lw_version_id : option string;
}.

Inductive VolumeWriter : Type :=
  | WalWriter (w : WalShardWriter)
  | FileWriter (w : LocalShardWriter).

Definition WAL_STREAMING_PROMOTE_BYTES : nat := N.to_nat (1024 * 1024).

(** The shard's file, created empty. *)
Definition open_shard_file (root : Path) (b k : string) (vid : option string) (fs : FS) : FS * Result Handle :=
  let create d p :=
    let r := andthen (mkdir_all d) (fs_put p []) fs in
    (r.1, match r.2 with Ok _ => Ok (mkHandle p 0) | Err e => Err e end) in
  match match vid with
        | Some vid => d ← version_dir root b k vid; p ← version_shard_path root b k vid; Ok (d, p)
        | None => d ← object_dir root b k; p ← object_shard_path root b k; Ok (d, p)
        end with
  | Err e => (fs, Err e)
  | Ok (d, p) => create d p
  end.

Definition version_opt (vid : string) : option string := if bool_decide (vid = "") then None else Some vid.

(** [open_shard_writer]: the log when there is one, else the file. *)
Definition local_open_shard_writer (v : LocalVolume) (b k : string) (vid : option string)
    : LocalVolume * Result VolumeWriter :=
  match lv_wal v with
  | Some _ => (v, Ok (WalWriter (mkWalShardWriter b k (default "" vid) (lv_threshold v) (Buffering []))))
  | None =>
      let r := open_shard_file (lv_root v) b k vid (lv_fs v) in
      (set_fs r.1 v, h ← r.2; Ok (FileWriter (mkLocalShardWriter h b k vid)))
  end.

Definition set_mode (m : WalMode) (w : WalShardWriter) : WalShardWriter :=
  mkWalShardWriter (ww_bucket w) (ww_key w) (ww_version_id w) (ww_threshold w) m.

(** [write_chunk] of both writers. *)
Definition local_write_chunk (v : LocalVolume) (w : VolumeWriter) (data : bytes) : LocalVolume * Result VolumeWriter :=
  match w with
  | FileWriter w =>
      let r := handle_write (lw_file w) data (lv_fs v) in
      (set_fs r.1 v, Ok (FileWriter (mkLocalShardWriter r.2 (lw_bucket w) (lw_key w) (lw_version_id w))))
  | WalWriter w =>
      match ww_mode w with
      | Streaming h =>
          let r := handle_write h data (lv_fs v) in (set_fs r.1 v, Ok (WalWriter (set_mode (Streaming r.2) w)))
      | Buffering buf =>
          if bool_decide (WAL_STREAMING_PROMOTE_BYTES < length buf + length data) then
            let r := open_shard_file (lv_root v) (ww_bucket w) (ww_key w) (version_opt (ww_version_id w)) (lv_fs v) in
            match r.2 with
            | Err e => (set_fs r.1 v, Err e)
            | Ok h =>
                let r1 := handle_write h buf r.1 in
                let r2 := handle_write r1.2 data r1.1 in
                (set_fs r2.1 v, Ok (WalWriter (set_mode (Streaming r2.2) w)))
            end
          else (v, Ok (WalWriter (set_mode (Buffering (buf ++ data)) w)))
      end
  end.

(** The metadata of a finished version: an older entry of the same id goes. *)
Definition replace_version (root : Path) (b k vid : string) (m : ObjectMeta) : Io_step :=
  failing (object_meta_path root b k) (fun p fs =>
    write_meta p (push_version vid m (drop_version vid (meta_or_empty fs p b k))) fs).

Definition set_single (root : Path) (b k : string) (m : ObjectMeta) : Io_step :=
  failing (object_meta_path root b k) (fun p => write_meta p (single_version b k m)).

(** A needle into the log, and its request to the workers. *)
Definition log_and_send (v : LocalVolume) (h : WalHandle) (b k vid : string) (data : bytes) (m : ObjectMeta)
    (now : N) : option (LocalVolume * Result unit) :=
  match needle_new b k (version_opt vid) m data with
  | Err e => Some (v, Err e)
  | Ok needle =>
      r ← wal_append (wh_wal h) needle now;
      let st := mkMatState r.1 (fs_files (lv_fs v)) (wh_workers h) (wh_next h) in
      match r.2 with
      | Err e => Some (set_wal (of_mat h st) v, Err e)
      | Ok entry =>
          st ← try_send (wh_cap h) st (mkMaterializeRequest b k vid entry);
          Some (set_wal (of_mat h st) v, Ok tt)
      end
  end.

Definition local_finalize (v : LocalVolume) (w : VolumeWriter) (m : ObjectMeta) (now : N)
    : option (LocalVolume * Result unit) :=
  match w with
  | FileWriter w =>
      Some (on_files v
        match lw_version_id w with
        | Some vid => add_version (lv_root v) (lw_bucket w) (lw_key w) vid m
        | None => set_single (lv_root v) (lw_bucket w) (lw_key w) m
        end)
  | WalWriter w =>
      let b := ww_bucket w in let k := ww_key w in let vid := ww_version_id w in
      match ww_mode w with
      | Streaming _ =>
          Some (on_files v (if bool_decide (vid = "") then set_single (lv_root v) b k m
                            else replace_version (lv_root v) b k vid m))
      | Buffering buf =>
          match lv_wal v with
          | Some h =>
              if bool_decide (length buf <= ww_threshold w) then log_and_send v h b k vid buf m now
              else Some (on_files v
                (if bool_decide (vid = "") then write_two_files (lv_root v) b k buf m
                 else failing (version_dir (lv_root v) b k vid) (fun d =>
                   andthen (mkdir_all d)
                     (failing (version_shard_path (lv_root v) b k vid) (fun p =>
                       failing (object_meta_path (lv_root v) b k) (fun mp fs =>
                         let mf := push_version vid m (drop_version vid (meta_or_empty fs mp b k)) in
                         andthen (fs_put p buf) (write_meta mp mf) fs))))))
          | None => None
          end
      end
  end.

(** *** Versions *)

Definition local_read_versioned_shard (v : LocalVolume) (b k vid : string) : Result (bytes * ObjectMeta) :=
  match read_shard_from_wal_versioned v b k vid with
  | Ok (Some (data, m)) =>
      Ok (data, if bool_decide (version_id m = "") then set_version_id vid m else m)
  | _ =>
      p ← object_meta_path (lv_root v) b k;
      mf ← match read_meta_at (lv_fs v) p with Ok mf => Ok mf | Err _ => Err ObjectNotFound end;
      m ← ok_or (List.find (fun m => bool_decide (version_id m = vid)) (versions mf)) ObjectNotFound;
      sp ← version_shard_path (lv_root v) b k vid;
      data ← ok_or (fs_read (lv_fs v) sp) ObjectNotFound;
      Ok (data, m)
  end.

(** The first version becomes the latest. *)
Definition mark_first (vs : list ObjectMeta) : list ObjectMeta :=
  match vs with [] => [] | m :: vs => set_is_latest true m :: vs end.

Definition delete_version_data (v : LocalVolume) (b k vid : string) : LocalVolume * Result unit :=
  match version_dir (lv_root v) b k vid with
  | Err e => (v, Err e)
  | Ok d =>
      let fs := if fs_is_dir (lv_fs v) d then remove_dir_all d (lv_fs v) else lv_fs v in
      match object_meta_path (lv_root v) b k with
      | Err e => (set_fs fs v, Err e)
      | Ok p =>
          match read_meta_at fs p with
          | Err _ => (set_fs fs v, Ok tt)
          | Ok mf =>
              let mf := drop_version vid mf in
              let mf := {| mf_bucket := mf_bucket mf; mf_key := mf_key mf;
                           versions := mark_first (versions mf) |} in
              (set_fs (write_meta p mf fs).1 v, Ok tt)
          end
      end
  end.

(** The log's versions go in front of those on disk and replace their namesakes. *)
Definition merge_pending (w : Wal) (b k : string) (vs : list ObjectMeta) (vid : string) : list ObjectMeta :=
  if bool_decide (vid = "") then vs
  else match e ← get_versioned w b k vid; result_ok (read_meta w e) with
       | None => vs
       | Some m =>
           let m := if bool_decide (version_id m = "") then set_version_id vid m else m in
           set_is_latest false m :: List.filter (fun v => negb (bool_decide (version_id v = vid))) vs
       end.

(** Only the first version that is no delete marker stays the latest; a delete marker
    before it keeps its flag. *)
Fixpoint fix_latest (seen : bool) (vs : list ObjectMeta) : list ObjectMeta :=
  match vs with
  | [] => []
  | m :: vs =>
      if seen then set_is_latest false m :: fix_latest true vs
      else if negb (is_delete_marker m) then set_is_latest true m :: fix_latest true vs
      else m :: fix_latest false vs
  end.

Definition read_meta_versions (v : LocalVolume) (b k : string) : Result (list ObjectMeta) :=
  p ← object_meta_path (lv_root v) b k;
  let on_disk := match read_meta_at (lv_fs v) p with Ok mf => versions mf | Err _ => [] end in
  let merged :=
    match lv_wal v with
    | None => on_disk
    | Some h => fold_left (merge_pending (wh_wal h) b k) (versions_for (wh_wal h) b k) on_disk
    end in
  Ok (fix_latest false merged).

(** *** Deletion *)

Definition local_delete_object (v : LocalVolume) (b k : string) : LocalVolume * Result unit :=
  match lv_wal v with
  | Some h =>
      if is_in_wal v b k then
        (set_wal (mkWalHandle (mark_materialized (wh_wal h) b k) (wh_workers h) (wh_next h) (wh_cap h)) v, Ok tt)
      else on_files v (failing (object_dir (lv_root v) b k) (fun d fs =>
             if fs_is_dir fs d then (remove_dir_all d fs, Ok tt) else (fs, Err ObjectNotFound)))
  | None =>
      on_files v (failing (object_dir (lv_root v) b k) (fun d fs =>
        if fs_is_dir fs d then (remove_dir_all d fs, Ok tt) else (fs, Err ObjectNotFound)))
  end.

(** *** Listings *)

Definition hidden (name : string) : bool := starts_with "." name.

(** [walk_keys] below [dir]; [rel] are the names between the bucket and [dir].  The
    fuel bounds the depth. *)
Fixpoint walk_keys (fuel : nat) (fs : FS) (dir : Path) (rel : list string) (prefix : string) : list string :=
  match fuel with
  | 0 => []
  | S fuel =>
      flat_map (fun name =>
        if hidden name then []
        else
          let sub := dir ++ [Normal name] in
          let rel' := rel ++ [name] in
          if bool_decide (is_Some (fs_read fs (push sub "meta.json"))) || fs_is_dir fs (push sub "meta.json") then
            let key := string_of (join_with slash (map bytes_of rel')) in
            if starts_with prefix key then [key] else []
          else walk_keys fuel fs sub rel' prefix)
        (dir_entries fs dir)
  end.

Definition tree_depth (fs : FS) : nat := list_max (map length (elements (fs_dirs fs))).

Definition list_objects (v : LocalVolume) (b prefix : string) : Result (list string) :=
  d ← bucket_dir (lv_root v) b;
  keys ← (if fs_is_dir (lv_fs v) d then
            _ ← validate_object_prefix prefix;
            Ok (walk_keys (S (tree_depth (lv_fs v))) (lv_fs v) d [] prefix)
          else Ok []);
  let pending := match lv_wal v with Some h => wal_list_keys (wh_wal h) b prefix | None => [] end in
  let all := fold_left (fun ks k => if bool_decide (k ∈ ks) then ks else ks ++ [k]) pending keys in
  Ok (merge_sort str_le all).

Definition list_buckets (v : LocalVolume) : list string :=
  merge_sort str_le (List.filter (fun n => negb (hidden n)) (dir_entries (lv_fs v) (lv_root v))).

(** *** Buckets and their settings *)

Definition make_bucket (v : LocalVolume) (b : string) : LocalVolume * Result unit :=
  on_files v (failing (bucket_dir (lv_root v) b) (fun d fs =>
    if fs_is_dir fs d then (fs, Err BucketExists) else mkdir_all d fs)).

Definition delete_bucket (v : LocalVolume) (b : string) : LocalVolume * Result unit :=
  on_files v (failing (bucket_dir (lv_root v) b) (fun d fs =>
    if fs_is_dir fs d then remove_dir d fs else (fs, Err BucketNotFound))).

Definition bucket_exists (v : LocalVolume) (b : string) : bool :=
  match bucket_dir (lv_root v) b with Ok d => fs_is_dir (lv_fs v) d | Err _ => false end.

Definition read_bucket_settings (v : LocalVolume) (b : string) : BucketSettings :=
  match bucket_settings_path (lv_root v) b with
  | Err _ => default_settings
  | Ok p => default default_settings (fs_read (lv_fs v) p ≫= settings_from_slice)
  end.

Definition write_bucket_settings (v : LocalVolume) (b : string) (st : BucketSettings) : LocalVolume * Result unit :=
  on_files v (failing (bucket_settings_dir (lv_root v) b) (fun d =>
    andthen (mkdir_all d)
      (failing (ok_or (settings_to_vec st) (Io "serialize")) (fun data => fs_put (push d "settings.json") data)))).

End Defs.

(** ** Lemmas *)

Section Lemmas.
  Context `{Hashes} `{MetaCodec} `{UuidParser} `{MetaFileCodec} `{Base64} `{SettingsCodec}.

(** A metadata file that JSON reads back. *)
Definition json_ok (mf : ObjectMetaFile) : Prop :=
  exists j, json_to_vec mf = Some j /\ json_from_slice j = Some mf.

Definition meta_file (d : Path) : Path := d ++ [Normal "meta.json"].
Definition shard_file (d : Path) : Path := d ++ [Normal "shard.dat"].

Lemma parent_meta d : parent (meta_file d) = d.
Proof. apply parent_snoc. Qed.
Lemma parent_shard d : parent (shard_file d) = d.
Proof. apply parent_snoc. Qed.

Lemma push_meta d : push d "meta.json" = meta_file d.
Proof. apply push_good, good_file_names. Qed.
Lemma push_shard d : push d "shard.dat" = shard_file d.
Proof. apply push_good, good_file_names. Qed.

Lemma object_paths root b k d :
  object_dir root b k = Ok d ->
  object_meta_path root b k = Ok (meta_file d) /\ object_shard_path root b k = Ok (shard_file d) /\ d <> [].
Proof.
  intros Hd. unfold object_meta_path, object_shard_path. rewrite Hd. cbn [mbind result_bind].
  rewrite push_meta, push_shard. split_and!; [done|done|].
  apply object_dir_Ok in Hd as (_ & _ & ->). destruct (normalize_path root); discriminate.
Qed.

(** Room for an object at [d]: no file in the way of its directory, no directory in the
    way of its files. *)
Record clear_for (fs : FS) (d : Path) : Prop := {
  clear_path : forall q, q ∈ prefixes d -> fs_files fs !! q = None;
  clear_meta : meta_file d ∉ fs_dirs fs;
  clear_shard : shard_file d ∉ fs_dirs fs;
}.

Lemma not_own_prefix d c : d ++ [c] ∉ prefixes d.
Proof.
  intros [_ [r Hr]]%elem_of_prefixes. apply (f_equal length) in Hr.
  rewrite !length_app in Hr. cbn in Hr. lia.
Qed.

(** After [create_dir_all] there is still room. *)
Lemma clear_mkdir fs d :
  d <> [] -> clear_for fs d ->
  let fs' := mkFS (fs_files fs) (fs_dirs fs ∪ list_to_set (prefixes d)) in
  mkdir_all d fs = (fs', Ok tt) /\ d ∈ fs_dirs fs' /\ meta_file d ∉ fs_dirs fs' /\ shard_file d ∉ fs_dirs fs'.
Proof.
  intros Hd [Hp Hm Hs]. cbn zeta. split_and!; cbn.
  - by apply mkdir_all_ok.
  - apply elem_of_union_r, elem_of_list_to_set. by apply prefixes_self.
  - intros [?|Hx]%elem_of_union; [done|]. rewrite elem_of_list_to_set in Hx. by apply not_own_prefix in Hx.
  - intros [?|Hx]%elem_of_union; [done|]. rewrite elem_of_list_to_set in Hx. by apply not_own_prefix in Hx.
Qed.

Lemma write_meta_ok p mf j fs :
  json_to_vec mf = Some j -> p ∉ fs_dirs fs -> parent p ∈ fs_dirs fs ->
  write_meta p mf fs = (mkFS (<[p := j]> (fs_files fs)) (fs_dirs fs), Ok tt).
Proof. intros Hj Hp Hd. unfold write_meta, failing. rewrite Hj. cbn. by apply fs_put_ok. Qed.

Lemma meta_ne_shard d d' : meta_file d <> shard_file d'.
Proof. intros E. apply app_inj_tail in E as [_ E]. discriminate. Qed.

Lemma write_two_files_ok root b k d data m j fs :
  object_dir root b k = Ok d -> clear_for fs d -> json_to_vec (single_version b k m) = Some j ->
  write_two_files root b k data m fs =
    (mkFS (<[meta_file d := j]> (<[shard_file d := data]> (fs_files fs)))
       (fs_dirs fs ∪ list_to_set (prefixes d)), Ok tt).
Proof.
  intros Hd Hc Hj. destruct (object_paths _ _ _ _ Hd) as (_ & _ & Hne).
  destruct (clear_mkdir fs d Hne Hc) as (Hmk & Hin & Hm & Hs).
  unfold write_two_files, failing, andthen. rewrite Hd, Hmk. cbn [fst snd]. rewrite Hj. cbn [ok_or].
  rewrite push_meta, push_shard. unfold put_both.
  rewrite (fs_put_ok (shard_file d)) by (done || by rewrite ?parent_meta, ?parent_shard).
  cbn [fst snd]. rewrite (fs_put_ok (meta_file d)) by (done || by rewrite ?parent_meta, ?parent_shard). done.
Qed.

(** *** What a read depends on *)

Lemma object_versions_ok v b k d mf j :
  object_dir (lv_root v) b k = Ok d -> d ∈ fs_dirs (lv_fs v) ->
  fs_files (lv_fs v) !! meta_file d = Some j -> json_from_slice j = Some mf ->
  object_versions v b k = Ok mf.
Proof.
  intros Hd Hin Hf Hj. destruct (object_paths _ _ _ _ Hd) as (Hm & _ & _).
  unfold object_versions. rewrite Hd. cbn [mbind result_bind]. unfold fs_is_dir.
  rewrite bool_decide_eq_true_2, Hm by done. cbn [mbind result_bind].
  unfold read_meta_at, read_meta_file. by rewrite Hf; cbn; rewrite Hj.
Qed.

Lemma read_file_tier_ok v b k d mf j m data :
  object_dir (lv_root v) b k = Ok d -> d ∈ fs_dirs (lv_fs v) ->
  fs_files (lv_fs v) !! meta_file d = Some j -> json_from_slice j = Some mf ->
  current_version mf = Ok m -> version_id m = "" ->
  match inline_data m with
  | None => fs_files (lv_fs v) !! shard_file d = Some data
  | Some enc => b64_decode enc = Some data
  end ->
  read_file_tier v b k = Ok (data, set_inline None m).
Proof.
  intros Hd Hin Hf Hj Hc Hv Hdata. destruct (object_paths _ _ _ _ Hd) as (_ & Hs & _).
  unfold read_file_tier. rewrite (object_versions_ok v b k d mf j) by done. cbn [mbind result_bind].
  rewrite Hc. cbn [mbind result_bind]. destruct (inline_data m) as [enc|] eqn:E.
  - by rewrite Hdata.
  - unfold version_data_path. rewrite bool_decide_eq_true_2, Hs by done. cbn [mbind result_bind].
    unfold fs_read. rewrite Hdata. cbn. destruct m; cbn in *. by subst.
Qed.

(** The volumes agree on the files of the object at [d], and its directory is kept. *)
Definition same_object (fs fs' : FS) (d : Path) : Prop :=
  (forall p, (exists r, p = d ++ r /\ r <> [] /\ length r <= 2) -> fs_files fs' !! p = fs_files fs !! p) /\
  (d ∈ fs_dirs fs -> d ∈ fs_dirs fs').

Lemma object_versions_frame v fs' b k d :
  object_dir (lv_root v) b k = Ok d -> fs_wf (lv_fs v) -> same_object (lv_fs v) fs' d ->
  object_versions (set_fs fs' v) b k = object_versions v b k.
Proof.
  intros Hd Hwf (Hf & Hin). destruct (object_paths _ _ _ _ Hd) as (Hm & _ & _).
  unfold object_versions. cbn [lv_root lv_fs set_fs]. rewrite Hd. cbn [mbind result_bind]. rewrite Hm.
  assert (Hmeta : fs_files fs' !! meta_file d = fs_files (lv_fs v) !! meta_file d).
  { apply Hf. exists [Normal "meta.json"]. split_and!; [done|done|]. cbn. lia. }
  unfold fs_is_dir, read_meta_at, read_meta_file. cbn [mbind result_bind]. rewrite Hmeta.
  destruct (decide (d ∈ fs_dirs (lv_fs v))) as [Hi|Hi].
  - rewrite !bool_decide_eq_true_2 by auto. done.
  - rewrite (bool_decide_eq_false_2 (d ∈ fs_dirs (lv_fs v))) by done.
    case_bool_decide; [|done].
    assert (Hnone : fs_files (lv_fs v) !! meta_file d = None).
    { apply eq_None_not_Some. intros Hs. apply Hi. apply (wf_file_parent _ Hwf) in Hs.
      by rewrite parent_meta in Hs. }
    by rewrite Hnone.
Qed.

Lemma read_file_tier_frame v fs' b k d :
  (forall s, uuid_ok s = true -> good_part s) ->
  object_dir (lv_root v) b k = Ok d -> fs_wf (lv_fs v) -> same_object (lv_fs v) fs' d ->
  read_file_tier (set_fs fs' v) b k = read_file_tier v b k.
Proof.
  intros Hu Hd Hwf Hsame. unfold read_file_tier. rewrite (object_versions_frame v fs' b k d) by done.
  destruct Hsame as (Hf & _). destruct (object_paths _ _ _ _ Hd) as (_ & Hs & _).
  destruct (object_versions v b k) as [mf|e]; cbn [mbind result_bind]; [|done].
  destruct (current_version mf) as [m|e]; cbn [mbind result_bind]; [|done].
  destruct (inline_data m); [done|].
  change (version_data_path (set_fs fs' v) b k m) with (version_data_path v b k m).
  destruct (version_data_path v b k m) as [p|e] eqn:Hp; cbn [mbind result_bind]; [|done].
  unfold fs_read. cbn [lv_fs set_fs]. rewrite Hf; [done|].
  unfold version_data_path in Hp. case_bool_decide.
  - rewrite Hs in Hp. injection Hp as <-. exists [Normal "shard.dat"]. split_and!; [done|done|]. cbn. lia.
  - unfold version_shard_path, version_dir, validate_version_id in Hp. rewrite Hd in Hp.
    destruct (uuid_ok (version_id m)) eqn:Hid; [|discriminate]. cbn [mbind result_bind] in Hp.
    injection Hp as <-. rewrite push_shard, push_good by auto.
    exists [Normal (version_id m); Normal "shard.dat"]. split_and!; [|done|cbn; lia]. unfold shard_file.
    by rewrite <- app_assoc.
Qed.

(** Writing the two files of the object at [d] leaves every other object alone, except
    one whose key is that of [d] without its last component. *)
Lemma same_object_write fs fs' d d' :
  (forall p, p <> meta_file d -> p <> shard_file d -> fs_files fs' !! p = fs_files fs !! p) ->
  (forall p, p ∈ fs_dirs fs -> p ∈ fs_dirs fs') ->
  d' <> d -> d' <> parent d -> same_object fs fs' d'.
Proof.
  intros Hf Hd Hne Hpar. split; [|apply Hd].
  assert (Hfile : forall c r, r <> [] -> length r <= 2 -> d' ++ r <> d ++ [c]).
  { intros c [|x [|y [|z r]]] Hr Hl E; cbn in Hl; [done| | |lia].
    - apply app_inj_tail in E as [E _]. by apply Hne.
    - change [x; y] with ([x] ++ [y]) in E. rewrite app_assoc in E. apply app_inj_tail in E as [E _].
      apply Hpar. rewrite <- E. symmetry. apply parent_snoc. }
  intros p (r & -> & Hr & Hl). apply Hf; by apply Hfile.
Qed.

Lemma current_single b k m : is_delete_marker m = false -> current_version (single_version b k m) = Ok (set_is_latest true m).
Proof. intros Hm. unfold current_version, single_version. cbn. by rewrite Hm. Qed.
End Lemmas.

(** ** An object on the file tier *)

Section FileTier.
  Context `{Hashes} `{MetaCodec} `{UuidParser} `{MetaFileCodec} `{Base64} `{!Base64Ok} `{SettingsCodec}.

(** What [write_shard] puts into the metadata of an unversioned object. *)
Definition stored_meta (data : bytes) (m : ObjectMeta) : ObjectMeta :=
  if bool_decide (size m <= N.of_nat DEFAULT_WAL_THRESHOLD)%N then set_inline (Some (b64_encode data)) m else m.

Lemma write_shard_files_ok root b k d data m fs :
  object_dir root b k = Ok d -> clear_for fs d -> fs_wf fs -> version_id m = "" ->
  json_ok (single_version b k (stored_meta data m)) ->
  exists fs' j, write_shard_files root b k data m fs = (fs', Ok tt) /\ fs_wf fs' /\ d ∈ fs_dirs fs' /\
    fs_files fs' !! meta_file d = Some j /\ json_from_slice j = Some (single_version b k (stored_meta data m)) /\
    (inline_data (stored_meta data m) = None -> fs_files fs' !! shard_file d = Some data) /\
    (forall p, p <> meta_file d -> p <> shard_file d -> fs_files fs' !! p = fs_files fs !! p) /\
    fs_dirs fs' = fs_dirs fs ∪ list_to_set (prefixes d).
Proof.
  intros Hd Hc Hwf Hv (j & Hj & Hj'). destruct (object_paths _ _ _ _ Hd) as (_ & _ & Hne).
  destruct (clear_mkdir fs d Hne Hc) as (Hmk & Hin & Hm & Hs).
  pose proof (mkdir_all_wf d fs Hwf) as Hwf1. rewrite Hmk in Hwf1. cbn [fst] in Hwf1.
  unfold write_shard_files, stored_meta in *. rewrite (bool_decide_eq_true_2 (version_id m = "")) by done.
  cbn [andb]. case_bool_decide as Hsz.
  - unfold failing, andthen. rewrite Hd, Hmk. cbn [fst snd]. rewrite push_meta.
    pose proof (fs_put_wf (meta_file d) j _ Hwf1) as Hwf2.
    rewrite fs_put_ok in Hwf2 by (done || by rewrite parent_meta).
    rewrite (write_meta_ok _ _ j) by (done || by rewrite parent_meta).
    eexists _, j. split_and!; [done|exact Hwf2|exact Hin|apply lookup_insert_eq|done|done| |done].
    intros p Hp _. cbn. by rewrite lookup_insert_ne.
  - rewrite (write_two_files_ok _ _ _ d data m j) by done.
    eexists _, j. split_and!; [done| |exact Hin|apply lookup_insert_eq|done| | |done].
    + pose proof (fs_put_wf (shard_file d) data _ Hwf1) as Hwf2.
      rewrite fs_put_ok in Hwf2 by (done || by rewrite parent_shard). cbn [fst] in Hwf2.
      pose proof (fs_put_wf (meta_file d) j _ Hwf2) as Hwf3.
      rewrite fs_put_ok in Hwf3 by (done || by rewrite parent_meta). exact Hwf3.
    + intros _. cbn. rewrite lookup_insert_ne by apply meta_ne_shard. apply lookup_insert_eq.
    + intros p Hp Hp'. cbn. by rewrite !lookup_insert_ne.
Qed.

(** A shard written to a volume without a log, inline in its metadata when it is
    small and as a file of its own otherwise, is what the volume reads next, with its
    metadata marked latest; the write succeeds whenever no file is in the way of the
    object's directory and no directory in the way of its files; and no other object
    changes, save one whose key is this one's without its last component. *)
Theorem local_put_get (v : LocalVolume) b k d data m now :
  (forall s, uuid_ok s = true -> good_part s) ->
  lv_wal v = None -> fs_wf (lv_fs v) -> object_dir (lv_root v) b k = Ok d -> clear_for (lv_fs v) d ->
  version_id m = "" -> is_delete_marker m = false -> inline_data m = None ->
  json_ok (single_version b k (stored_meta data m)) ->
  exists v', local_write_shard v b k data m now = Some (v', Ok tt) /\ fs_wf (lv_fs v') /\
    local_read_shard v' b k = Ok (data, set_is_latest true m) /\
    read_shard_stream v' b k = Ok (data, set_is_latest true m) /\
    stat_object v' b k = Ok (set_is_latest true m) /\
    (forall b' k' d', object_dir (lv_root v) b' k' = Ok d' -> d' <> d -> d' <> parent d ->
       local_read_shard v' b' k' = local_read_shard v b' k').
Proof.
  intros Hu Hw Hwf Hd Hc Hv Hdel Hinl Hj.
  destruct (write_shard_files_ok _ _ _ _ data m _ Hd Hc Hwf Hv Hj)
    as (fs' & j & Hwr & Hwf' & Hin & Hmeta & Hdec & Hshard & Hframe & Hdirs').
  assert (Hdirs : forall p, p ∈ fs_dirs (lv_fs v) -> p ∈ fs_dirs fs') by (rewrite Hdirs'; set_solver).
  assert (Hval : (_ ← validate_bucket_name b; validate_object_key k) = Ok tt).
  { pose proof Hd as (Hb & Hk & _)%object_dir_Ok. rewrite Hb. cbn. by rewrite Hk. }
  unfold local_write_shard. rewrite Hval, Hw. unfold on_files. rewrite Hwr. cbn [fst snd].
  exists (set_fs fs' v). split; [done|]. split; [done|].
  assert (Hnolog : forall b' k', read_shard_from_wal (set_fs fs' v) b' k' = Ok None)
    by (intros; unfold read_shard_from_wal, read_shard_from_wal_versioned; cbn; by rewrite Hw).
  set (m' := set_is_latest true (stored_meta data m)).
  assert (Hcur : current_version (single_version b k (stored_meta data m)) = Ok m').
  { apply current_single. unfold stored_meta. by case_bool_decide. }
  assert (Hmm : set_inline None m' = set_is_latest true m).
  { unfold m', stored_meta. case_bool_decide; destruct m; cbn in *; by subst. }
  assert (Hread : read_file_tier (set_fs fs' v) b k = Ok (data, set_is_latest true m)).
  { rewrite <- Hmm. eapply read_file_tier_ok; [exact Hd|exact Hin|exact Hmeta|exact Hdec|exact Hcur| |].
    - unfold m', stored_meta. by case_bool_decide.
    - unfold m' in *. change (inline_data (set_is_latest true (stored_meta data m)))
        with (inline_data (stored_meta data m)).
      destruct (inline_data (stored_meta data m)) as [enc|] eqn:E; [|by apply Hshard].
      unfold stored_meta in E. case_bool_decide; cbn in E; [|congruence].
      injection E as <-. apply b64_roundtrip. }
  split_and!.
  - unfold local_read_shard. by rewrite Hnolog.
  - exact Hread.
  - unfold stat_object. cbn [lv_wal set_fs]. rewrite Hw. cbn [mbind option_bind].
    rewrite (object_versions_ok (set_fs fs' v) b k d _ j Hd Hin Hmeta Hdec). cbn [mbind result_bind].
    rewrite Hcur. cbn [mbind result_bind]. by rewrite Hmm.
  - intros b' k' d' Hd' Hne Hpar. unfold local_read_shard. rewrite Hnolog.
    assert (Hn : read_shard_from_wal v b' k' = Ok None)
      by (unfold read_shard_from_wal, read_shard_from_wal_versioned; by rewrite Hw).
    rewrite Hn. eapply read_file_tier_frame; [exact Hu|exact Hd'|exact Hwf|].
    by apply (same_object_write _ _ d).
Qed.

(** *** Streaming writers *)

Fixpoint local_write_chunks (v : LocalVolume) (w : VolumeWriter) (cs : list bytes)
    : LocalVolume * Result VolumeWriter :=
  match cs with
  | [] => (v, Ok w)
  | c :: cs =>
      match local_write_chunk v w c with
      | (v', Ok w') => local_write_chunks v' w' cs
      | (v', Err e) => (v', Err e)
      end
  end.

Definition put_file (p : Path) (data : bytes) (v : LocalVolume) : LocalVolume :=
  set_fs (mkFS (<[p := data]> (fs_files (lv_fs v))) (fs_dirs (lv_fs v))) v.

Lemma put_file_put p a c v : put_file p c (put_file p a v) = put_file p c v.
Proof. unfold put_file, set_fs. cbn. by rewrite insert_insert_eq. Qed.

Lemma put_file_same p a v : fs_files (lv_fs v) !! p = Some a -> put_file p a v = v.
Proof. intros Hp. unfold put_file, set_fs. rewrite insert_id by done. by destruct v as [? ? [] ? ?]. Qed.

(** A writer that has the file open, after any chunks. *)
Lemma file_chunks cs v p old (mk : Handle -> VolumeWriter) :
  (forall h c v, local_write_chunk v (mk h) c =
     let r := handle_write h c (lv_fs v) in (set_fs r.1 v, Ok (mk r.2))) ->
  fs_files (lv_fs v) !! p = Some old ->
  local_write_chunks v (mk (mkHandle p (length old))) cs =
    (put_file p (old ++ concat cs) v, Ok (mk (mkHandle p (length (old ++ concat cs))))).
Proof.
  intros Hmk. revert v old. induction cs as [|c cs IH]; intros v old Hp; cbn [local_write_chunks concat].
  { rewrite app_nil_r. by rewrite put_file_same. }
  rewrite Hmk, (handle_write_snoc p old c _ Hp). cbn [fst snd].
  change (set_fs _ v) with (put_file p (old ++ c) v).
  rewrite IH by (cbn; apply lookup_insert_eq). by rewrite put_file_put, <- app_assoc.
Qed.

Lemma open_shard_file_ok root b k d fs :
  object_dir root b k = Ok d -> clear_for fs d ->
  open_shard_file root b k None fs =
    (mkFS (<[shard_file d := []]> (fs_files fs)) (fs_dirs fs ∪ list_to_set (prefixes d)),
     Ok (mkHandle (shard_file d) 0)).
Proof.
  intros Hd Hc. destruct (object_paths _ _ _ _ Hd) as (_ & Hs & Hne).
  destruct (clear_mkdir fs d Hne Hc) as (Hmk & Hin & _ & Hsd).
  unfold open_shard_file. rewrite Hd. cbn [mbind result_bind]. rewrite Hs. cbn [mbind result_bind].
  unfold andthen. rewrite Hmk. cbn [fst snd]. by rewrite fs_put_ok by (done || by rewrite parent_shard).
Qed.

(** The files after an unversioned PUT of [data] as two files. *)
Definition two_files (d : Path) (data j : bytes) (v : LocalVolume) : LocalVolume :=
  set_fs (mkFS (<[meta_file d := j]> (<[shard_file d := data]> (fs_files (lv_fs v))))
            (fs_dirs (lv_fs v) ∪ list_to_set (prefixes d))) v.

Lemma set_single_ok root b k d m j fs :
  object_dir root b k = Ok d -> json_to_vec (single_version b k m) = Some j ->
  d ∈ fs_dirs fs -> meta_file d ∉ fs_dirs fs ->
  set_single root b k m fs = (mkFS (<[meta_file d := j]> (fs_files fs)) (fs_dirs fs), Ok tt).
Proof.
  intros Hd Hj Hin Hm. destruct (object_paths _ _ _ _ Hd) as (Hmp & _ & _).
  unfold set_single, failing. rewrite Hmp. apply write_meta_ok; [done|done|by rewrite parent_meta].
Qed.

(** The volume right after the shard file was created and filled. *)
Definition filled (d : Path) (data : bytes) (v : LocalVolume) : LocalVolume :=
  set_fs (mkFS (<[shard_file d := data]> (fs_files (lv_fs v)))
            (fs_dirs (lv_fs v) ∪ list_to_set (prefixes d))) v.

Lemma finish_filled b k d data m j v :
  object_dir (lv_root v) b k = Ok d -> clear_for (lv_fs v) d ->
  json_to_vec (single_version b k m) = Some j ->
  on_files (filled d data v) (set_single (lv_root v) b k m) = (two_files d data j v, Ok tt).
Proof.
  intros Hd Hc Hj. destruct (object_paths _ _ _ _ Hd) as (_ & _ & Hne).
  destruct (clear_mkdir _ d Hne Hc) as (_ & Hin & Hm & _).
  unfold on_files, filled. cbn [lv_fs set_fs].
  rewrite (set_single_ok _ _ _ d m j) by done. done.
Qed.

Lemma set_mode_twice a c w : set_mode a (set_mode c w) = set_mode a w.
Proof. by destruct w. Qed.

Lemma put_filled d a c v : put_file (shard_file d) c (filled d a v) = filled d c v.
Proof. unfold put_file, filled, set_fs. cbn. by rewrite insert_insert_eq. Qed.

(** A writer of the log buffers, or has promoted to the file with all bytes so far. *)
Lemma wal_chunks cs v w buf d :
  ww_mode w = Buffering buf -> ww_version_id w = "" ->
  object_dir (lv_root v) (ww_bucket w) (ww_key w) = Ok d -> clear_for (lv_fs v) d ->
  (local_write_chunks v (WalWriter w) cs = (v, Ok (WalWriter (set_mode (Buffering (buf ++ concat cs)) w)))) \/
  (exists h, local_write_chunks v (WalWriter w) cs =
     (filled d (buf ++ concat cs) v, Ok (WalWriter (set_mode (Streaming h) w)))).
Proof.
  intros Hmode Hvid Hd Hc. revert w buf Hmode Hvid Hd.
  induction cs as [|c cs IH]; intros w buf Hmode Hvid Hd; cbn [local_write_chunks concat].
  { left. rewrite app_nil_r. destruct w; cbn in *. by subst. }
  unfold local_write_chunk. rewrite Hmode. destruct (bool_decide (WAL_STREAMING_PROMOTE_BYTES < _)).
  - right. unfold version_opt. rewrite Hvid, bool_decide_eq_true_2 by done.
    rewrite (open_shard_file_ok _ _ _ d) by done. cbn [fst snd].
    change (mkHandle (shard_file d) 0) with (mkHandle (shard_file d) (length (@nil byte))).
    rewrite (handle_write_snoc _ []) by apply lookup_insert_eq. cbn [fst snd fs_files fs_dirs app].
    rewrite (handle_write_snoc _ buf) by (cbn; apply lookup_insert_eq). cbn [fst snd fs_files fs_dirs].
    rewrite !insert_insert_eq.
    change (set_fs _ v) with (filled d (buf ++ c) v).
    rewrite (file_chunks cs _ (shard_file d) (buf ++ c) (fun h => WalWriter (set_mode (Streaming h) w))).
    + rewrite put_filled, <- app_assoc. by eexists.
    + intros h c' v'. cbn. by rewrite set_mode_twice.
    + cbn. apply lookup_insert_eq.
  - destruct (IH (set_mode (Buffering (buf ++ c)) w) (buf ++ c) eq_refl Hvid Hd) as [E|[h E]]; rewrite E;
      rewrite set_mode_twice, <- app_assoc; [by left|right; by exists h].
Qed.

Lemma two_files_read b k d data m j v :
  object_dir (lv_root v) b k = Ok d -> json_from_slice j = Some (single_version b k m) -> d <> [] ->
  version_id m = "" -> is_delete_marker m = false -> inline_data m = None ->
  read_file_tier (two_files d data j v) b k = Ok (data, set_is_latest true m).
Proof.
  intros Hd Hj Hne Hv Hdel Hinl. replace (set_is_latest true m) with (set_inline None (set_is_latest true m)).
  2:{ destruct m; cbn in *. by subst. }
  eapply read_file_tier_ok; [exact Hd| |cbn; apply lookup_insert_eq|exact Hj|by apply current_single|done|].
  - cbn. apply elem_of_union_r, elem_of_list_to_set. by apply prefixes_self.
  - cbn. rewrite Hinl, lookup_insert_ne by apply meta_ne_shard. apply lookup_insert_eq.
Qed.

(** A shard streamed to a volume in any chunks is what the volume reads next.
    Without a log the chunks go to the file as they come; with one they are buffered,
    written at the end when they exceed the log's threshold, or moved to the file once
    the buffer is full.  All of it succeeds whenever the object's paths are free; with a
    log, no older entry of the key may be pending. *)
Theorem stream_put_get (v : LocalVolume) b k d m cs now :
  object_dir (lv_root v) b k = Ok d -> clear_for (lv_fs v) d ->
  version_id m = "" -> is_delete_marker m = false -> inline_data m = None ->
  json_ok (single_version b k m) ->
  match lv_wal v with
  | None => True
  | Some h => get (wh_wal h) b k = None /\ lv_threshold v < length (concat cs)
  end ->
  exists v1 w1 v2 w2 v3,
    local_open_shard_writer v b k None = (v1, Ok w1) /\
    local_write_chunks v1 w1 cs = (v2, Ok w2) /\
    local_finalize v2 w2 m now = Some (v3, Ok tt) /\
    local_read_shard v3 b k = Ok (concat cs, set_is_latest true m).
Proof.
  intros Hd Hc Hv Hdel Hinl (j & Hj & Hj') Hw. destruct (object_paths _ _ _ _ Hd) as (_ & _ & Hne).
  assert (Hread : read_file_tier (two_files d (concat cs) j v) b k = Ok (concat cs, set_is_latest true m))
    by by apply two_files_read.
  unfold local_open_shard_writer. destruct (lv_wal v) as [h|] eqn:Ew.
  - destruct Hw as [Hpend Hthr]. set (w := mkWalShardWriter _ _ _ _ _).
    assert (Hlog : local_read_shard (two_files d (concat cs) j v) b k = Ok (concat cs, set_is_latest true m)).
    { unfold local_read_shard, read_shard_from_wal, read_shard_from_wal_versioned. cbn [lv_wal two_files set_fs].
      rewrite Ew. unfold get in Hpend. by rewrite Hpend. }
    destruct (wal_chunks cs v w [] d) as [E|[hd E]]; [done..| |]; cbn [app] in E.
    + eexists v, (WalWriter w), v, _, (two_files d (concat cs) j v). split_and!; [done|exact E| |exact Hlog].
      unfold local_finalize. cbn [ww_mode set_mode]. rewrite Ew. cbn [ww_threshold set_mode w].
      rewrite bool_decide_eq_false_2 by lia. cbn [ww_version_id ww_bucket ww_key].
      rewrite (bool_decide_eq_true_2 ("" = "")) by done. unfold on_files.
      by rewrite (write_two_files_ok _ _ _ d (concat cs) m j).
    + eexists v, (WalWriter w), _, _, (two_files d (concat cs) j v). split_and!; [done|exact E| |exact Hlog].
      unfold local_finalize. cbn [ww_mode set_mode ww_version_id ww_bucket ww_key w].
      rewrite (bool_decide_eq_true_2 ("" = "")) by done.
      change (lv_root (filled d (concat cs) v)) with (lv_root v). by rewrite (finish_filled b k d (concat cs) m j v).
  - rewrite (open_shard_file_ok _ _ _ d) by done. cbn [fst snd].
    change (set_fs _ v) with (filled d [] v). cbn [mbind result_bind].
    eexists _, _, _, _, (two_files d (concat cs) j v). split_and!; [done| | |].
    + change (mkHandle (shard_file d) 0) with (mkHandle (shard_file d) (length (@nil byte))).
      rewrite (file_chunks cs _ (shard_file d) [] (fun h => FileWriter (mkLocalShardWriter h b k None)));
        [|done|cbn; apply lookup_insert_eq]. cbn [app]. by rewrite put_filled.
    + unfold local_finalize. cbn [lw_version_id lw_bucket lw_key].
      change (lv_root (filled d (concat cs) v)) with (lv_root v). by rewrite (finish_filled b k d (concat cs) m j v).
    + unfold local_read_shard, read_shard_from_wal, read_shard_from_wal_versioned. cbn [lv_wal two_files set_fs].
      by rewrite Ew.
Qed.

(** A write too large for the log goes to the files while an older entry of the same key
    is still pending in it; reads prefer the log, so they return the older data, and a
    worker later writes it over the new file. *)
Theorem stale_log_shadows_large_put (v v' : LocalVolume) h b k e old old_meta data m now :
  lv_wal v = Some h -> get (wh_wal h) b k = Some e ->
  read_data (wh_wal h) e = Some old -> read_meta (wh_wal h) e = Ok old_meta ->
  lv_threshold v < length data ->
  local_write_shard v b k data m now = Some (v', Ok tt) ->
  local_read_shard v' b k = Ok (old, old_meta).
Proof.
  intros Hw Hg Hold Hm Hlen Hput. unfold local_write_shard in Hput.
  destruct (_ ← validate_bucket_name b; validate_object_key k); [|discriminate].
  rewrite Hw, bool_decide_eq_false_2 in Hput by lia. injection Hput as <- _.
  unfold local_read_shard, read_shard_from_wal, read_shard_from_wal_versioned, on_files.
  cbn [lv_wal set_fs]. rewrite Hw. unfold get in Hg. rewrite Hg, Hold. cbn [ok_or mbind result_bind].
  by rewrite Hm.
Qed.

(** Opening a writer empties the shard of the object it is going to replace: until the
    writer finishes, and for good if it never does, the object reads as empty under its
    old metadata. *)
Theorem open_writer_empties_object (v : LocalVolume) b k d data m j :
  lv_wal v = None -> object_dir (lv_root v) b k = Ok d -> clear_for (lv_fs v) d ->
  json_from_slice j = Some (single_version b k m) ->
  version_id m = "" -> is_delete_marker m = false -> inline_data m = None ->
  local_read_shard (two_files d data j v) b k = Ok (data, set_is_latest true m) /\
  exists v' w, local_open_shard_writer (two_files d data j v) b k None = (v', Ok w) /\
    local_read_shard v' b k = Ok ([], set_is_latest true m).
Proof.
  intros Hw Hd Hc Hj Hv Hdel Hinl. destruct (object_paths _ _ _ _ Hd) as (_ & _ & Hne).
  destruct (clear_mkdir _ d Hne Hc) as (_ & Hin & Hmd & Hsd).
  assert (Hlog : forall data', local_read_shard (two_files d data' j v) b k =
            read_file_tier (two_files d data' j v) b k).
  { intros data'. unfold local_read_shard, read_shard_from_wal, read_shard_from_wal_versioned.
    cbn [lv_wal two_files set_fs]. by rewrite Hw. }
  split; [rewrite Hlog; by apply two_files_read|].
  assert (Hc' : clear_for (lv_fs (two_files d data j v)) d).
  { split; [|done|done]. intros q Hq. cbn. rewrite !lookup_insert_ne; [by apply (clear_path _ _ Hc)| |];
      intros <-; by apply not_own_prefix in Hq. }
  unfold local_open_shard_writer. cbn [lv_wal two_files set_fs]. rewrite Hw.
  rewrite (open_shard_file_ok _ _ _ d) by done. cbn [fst snd mbind result_bind].
  eexists _, _. split; [done|].
  unfold local_read_shard, read_shard_from_wal, read_shard_from_wal_versioned.
  cbn [lv_wal lv_root lv_volume_id lv_threshold two_files set_fs].
  rewrite <- (two_files_read b k d [] m j v Hd Hj Hne Hv Hdel Hinl).
  unfold two_files, set_fs. cbn.
  rewrite (insert_insert_ne _ (shard_file d)) by (apply not_eq_sym, meta_ne_shard).
  rewrite insert_insert_eq, Hw. by rewrite <- (assoc_L (∪)), (idemp_L (∪)).
Qed.

(** [write_shard] writes the shard of a versioned object beside its metadata, where a
    read of a versioned object does not look. *)
Theorem versioned_write_shard_unreadable (v : LocalVolume) b k d sp data m j now :
  lv_wal v = None -> object_dir (lv_root v) b k = Ok d -> clear_for (lv_fs v) d ->
  version_id m <> "" -> is_delete_marker m = false -> inline_data m = None ->
  json_to_vec (single_version b k m) = Some j -> json_from_slice j = Some (single_version b k m) ->
  version_shard_path (lv_root v) b k (version_id m) = Ok sp ->
  sp <> meta_file d -> sp <> shard_file d -> fs_files (lv_fs v) !! sp = None ->
  exists v', local_write_shard v b k data m now = Some (v', Ok tt) /\
    local_read_shard v' b k = Err ObjectNotFound.
Proof.
  intros Hw Hd Hc Hv Hdel Hinl Hj Hj' Hsp Hn1 Hn2 Hnone. destruct (object_paths _ _ _ _ Hd) as (_ & _ & Hne).
  pose proof Hd as (Hb & Hk & _)%object_dir_Ok. unfold local_write_shard. rewrite Hb. cbn [mbind result_bind].
  rewrite Hk, Hw. unfold on_files, write_shard_files. rewrite (bool_decide_eq_false_2 (version_id m = "")) by done.
  cbn [andb]. rewrite (write_two_files_ok _ _ _ d data m j) by done. cbn [fst snd].
  change (set_fs _ v) with (two_files d data j v). eexists. split; [done|].
  unfold local_read_shard, read_shard_from_wal, read_shard_from_wal_versioned. cbn [lv_wal two_files set_fs]. rewrite Hw.
  unfold read_file_tier. rewrite (object_versions_ok _ b k d (single_version b k m) j); [|done| |cbn; apply lookup_insert_eq|done].
  2:{ cbn. apply elem_of_union_r, elem_of_list_to_set. by apply prefixes_self. }
  cbn [mbind result_bind]. rewrite current_single by done. cbn [mbind result_bind].
  change (inline_data (set_is_latest true m)) with (inline_data m). rewrite Hinl. unfold version_data_path.
  change (version_id (set_is_latest true m)) with (version_id m). rewrite bool_decide_eq_false_2 by done.
  change (lv_root (two_files d data j v)) with (lv_root v). rewrite Hsp. cbn [mbind result_bind].
  unfold fs_read. cbn. by rewrite !lookup_insert_ne, Hnone.
Qed.
End FileTier.
