(* ===== verification/LocalObjects.v ===== *)
(** Versions and listings of a local volume, what deletion and metadata updates miss,
    and concrete volumes for the theorems about [LocalVolume]. *)

From Stdlib Require Import Ascii.
From stdpp Require Import base list gmap strings numbers pretty sorting.
From S2P Require Import Prelude Metadata Needle Segment Pathing Wal Materialize RaftFsm FileSys.
From S2P Require Import LocalVolume.

(** ** Versions of an object *)

Section Versions.
  Context `{Hashes} `{MetaCodec} `{UuidParser} `{MetaFileCodec} `{Base64} `{SettingsCodec}.

(** A version: its id, its shard, its metadata as given. *)
Record Ver : Type := mkVer {
  ver_id : string;
  ver_data : bytes;
  ver_meta : ObjectMeta;
}.

Definition ver_entry (latest : bool) (e : Ver) : ObjectMeta :=
  set_version_id (ver_id e) (set_is_latest latest (ver_meta e)).

(** The entries of the metadata file, newest first. *)
Definition ver_list (vs : list Ver) : list ObjectMeta :=
  match vs with [] => [] | e :: vs => ver_entry true e :: map (ver_entry false) vs end.

Inductive ver_op : Type :=
  | VPut (e : Ver)
  | VDelete (vid : string).

Definition ver_step (v : LocalVolume) (b k : string) (op : ver_op) : LocalVolume * Result unit :=
  match op with
  | VPut e => write_versioned_shard v b k (ver_id e) (ver_data e) (ver_meta e)
  | VDelete vid => delete_version_data v b k vid
  end.

Fixpoint ver_run (v : LocalVolume) (b k : string) (ops : list ver_op) : LocalVolume * Result unit :=
  match ops with
  | [] => (v, Ok tt)
  | op :: ops =>
      match ver_step v b k op with
      | (v', Ok _) => ver_run v' b k ops
      | (v', Err e) => (v', Err e)
      end
  end.

(** The specification: the list of versions, newest first. *)
Definition ver_spec (vs : list Ver) (op : ver_op) : list Ver :=
  match op with
  | VPut e => e :: vs
  | VDelete vid => List.filter (fun e => negb (bool_decide (ver_id e = vid))) vs
  end.

(** New ids are valid and unused, and the metadata is that of plain data. *)
Definition ver_admissible (vs : list Ver) (op : ver_op) : Prop :=
  match op with
  | VPut e => uuid_ok (ver_id e) = true /\ ver_id e ∉ map ver_id vs /\
              is_delete_marker (ver_meta e) = false /\ inline_data (ver_meta e) = None /\ ver_id e <> ""
  | VDelete vid => uuid_ok vid = true
  end.

Fixpoint ver_admissible_run (vs : list Ver) (ops : list ver_op) : Prop :=
  match ops with
  | [] => True
  | op :: ops => ver_admissible vs op /\ ver_admissible_run (ver_spec vs op) ops
  end.

(** What a read of a version returns. *)
Definition ver_read (vs : list Ver) (vid : string) : Result (bytes * ObjectMeta) :=
  match List.find (fun e => bool_decide (ver_id e = vid)) vs with
  | Some e => Ok (ver_data e, ver_entry (bool_decide (head (map ver_id vs) = Some vid)) e)
  | None => Err ObjectNotFound
  end.

(** *** The metadata entries *)

Lemma relatest b e c : set_is_latest b (ver_entry c e) = ver_entry b e.
Proof. done. Qed.

Lemma map_relatest b vs : map (set_is_latest b) (ver_list vs) = map (ver_entry b) vs.
Proof. destruct vs as [|e vs]; [done|]. cbn. f_equal. rewrite map_map. apply map_ext. done. Qed.

Lemma filter_entries b vid vs :
  List.filter (fun m => negb (bool_decide (version_id m = vid))) (map (ver_entry b) vs) =
  map (ver_entry b) (List.filter (fun e => negb (bool_decide (ver_id e = vid))) vs).
Proof. induction vs as [|e vs IH]; [done|]. cbn. rewrite IH. by case_bool_decide. Qed.

(** Dropping a version and marking the first of the rest. *)
Lemma drop_mark vid vs :
  mark_first (List.filter (fun m => negb (bool_decide (version_id m = vid))) (ver_list vs)) =
  ver_list (List.filter (fun e => negb (bool_decide (ver_id e = vid))) vs).
Proof.
  destruct vs as [|e vs]; [done|]. cbn [ver_list List.filter].
  change (version_id (ver_entry true e)) with (ver_id e). rewrite filter_entries.
  case_bool_decide; cbn; [|done]. by destruct (List.filter _ vs).
Qed.

Lemma find_list vid vs :
  List.find (fun m => bool_decide (version_id m = vid)) (ver_list vs) =
  match List.find (fun e => bool_decide (ver_id e = vid)) vs with
  | Some e => Some (ver_entry (bool_decide (head (map ver_id vs) = Some vid)) e)
  | None => None
  end.
Proof.
  destruct vs as [|e vs]; [done|]. cbn [ver_list List.find map head].
  change (version_id (ver_entry true e)) with (ver_id e). case_bool_decide as E.
  { subst. by rewrite bool_decide_eq_true_2. }
  rewrite (bool_decide_eq_false_2 (Some _ = Some _)) by congruence.
  induction vs as [|e' vs IH]; [done|]. cbn. by case_bool_decide.
Qed.

Lemma fix_latest_list vs :
  Forall (fun e => is_delete_marker (ver_meta e) = false) vs -> fix_latest false (ver_list vs) = ver_list vs.
Proof.
  intros Hd. destruct vs as [|e vs]; [done|]. apply Forall_cons_1 in Hd as [He _]. cbn.
  rewrite He. cbn. f_equal. induction vs as [|e' vs IH]; [done|]. cbn. f_equal. done.
Qed.

(** *** The files *)

Definition ver_dir (d : Path) (vid : string) : Path := d ++ [Normal vid].

(** Room for versions at [d]. *)
Record ver_room (fs : FS) (d : Path) : Prop := {
  hv_path : forall q, q ∈ prefixes d -> fs_files fs !! q = None;
  hv_meta_dir : meta_file d ∉ fs_dirs fs;
  hv_free : forall vid, uuid_ok vid = true ->
    fs_files fs !! ver_dir d vid = None /\ shard_file (ver_dir d vid) ∉ fs_dirs fs;
}.

(** The files below [d] hold the versions [vs]. *)
Record holds_versions (fs : FS) (d : Path) (vs : list Ver) : Prop := {
  hv_room : ver_room fs d;
  hv_data : Forall (fun e => uuid_ok (ver_id e) = true /\
    fs_files fs !! shard_file (ver_dir d (ver_id e)) = Some (ver_data e)) vs;
  hv_meta : match fs_files fs !! meta_file d with
    | None => vs = []
    | Some j => d ∈ fs_dirs fs /\ exists mf, json_from_slice j = Some mf /\ versions mf = ver_list vs
    end;
  hv_plain : Forall (fun e => is_delete_marker (ver_meta e) = false /\ inline_data (ver_meta e) = None /\
    ver_id e <> "") vs;
}.

Context (uuid_part : forall s, uuid_ok s = true -> good_part s /\ s <> "meta.json" /\ s <> "shard.dat").
Context (json_all : forall mf, json_ok mf).

Lemma version_paths root b k d vid :
  object_dir root b k = Ok d -> uuid_ok vid = true ->
  version_dir root b k vid = Ok (ver_dir d vid) /\
  version_shard_path root b k vid = Ok (shard_file (ver_dir d vid)).
Proof.
  intros Hd Hu. destruct (uuid_part vid Hu) as [Hg _].
  unfold version_shard_path, version_dir, validate_version_id. rewrite Hu. cbn [mbind result_bind].
  rewrite Hd. cbn [mbind result_bind]. by rewrite push_good, push_shard.
Qed.

Lemma ver_dir_ne d vid : uuid_ok vid = true -> meta_file d <> ver_dir d vid /\ shard_file d <> ver_dir d vid.
Proof.
  intros Hu. destruct (uuid_part vid Hu) as (_ & Hm & Hs).
  split; intros E; apply app_inj_tail in E as [_ E]; congruence.
Qed.

Lemma deep_ne d vid c : shard_file (ver_dir d vid) <> d ++ [c].
Proof. intros E. apply (f_equal length) in E. unfold shard_file, ver_dir in E. rewrite !length_app in E. cbn in E. lia. Qed.

Lemma ver_dir_inj d a c : ver_dir d a = ver_dir d c -> a = c.
Proof. intros E. by apply app_inj_tail in E as [_ [= ->]]. Qed.

Lemma prefixes_snoc q d c : q ∈ prefixes (d ++ [c]) <-> q ∈ prefixes d \/ q = d ++ [c].
Proof.
  rewrite !elem_of_prefixes. split.
  - intros [Hq [r Hr]]. destruct r as [|x r _] using rev_ind.
    + right. by rewrite app_nil_r in Hr.
    + left. split; [done|]. rewrite app_assoc in Hr. apply app_inj_tail in Hr as [-> _]. by exists r.
  - intros [[Hq [r ->]]| ->].
    + split; [done|]. exists (r ++ [c]). by rewrite <- app_assoc.
    + split; [by destruct d|]. exists []. by rewrite app_nil_r.
Qed.

Lemma not_prefix_longer q d : length d < length q -> q ∉ prefixes d.
Proof. intros Hl [_ [r ->]]%elem_of_prefixes. rewrite length_app in Hl. lia. Qed.

(** What [read_meta_file] finds. *)
Lemma hv_read fs d vs :
  holds_versions fs d vs ->
  match read_meta_at fs (meta_file d) with
  | Ok mf => versions mf = ver_list vs /\ d ∈ fs_dirs fs
  | Err _ => vs = [] /\ fs_files fs !! meta_file d = None
  end.
Proof.
  intros Hh. pose proof (hv_meta _ _ _ Hh) as Hm. unfold read_meta_at, read_meta_file.
  destruct (fs_files fs !! meta_file d) as [j|]; [|done]. destruct Hm as (Hd & mf & Hj & Hv).
  cbn. by rewrite Hj.
Qed.

(** Writing the metadata file of [d]. *)
Lemma hv_write_meta fs d vs' mf :
  ver_room fs d -> d ∈ fs_dirs fs -> versions mf = ver_list vs' ->
  Forall (fun e => uuid_ok (ver_id e) = true /\
    fs_files fs !! shard_file (ver_dir d (ver_id e)) = Some (ver_data e)) vs' ->
  Forall (fun e => is_delete_marker (ver_meta e) = false /\ inline_data (ver_meta e) = None /\ ver_id e <> "") vs' ->
  exists fs', write_meta (meta_file d) mf fs = (fs', Ok tt) /\ holds_versions fs' d vs'.
Proof.
  intros [Hp Hm Hf] Hd Hv Hdata Hplain. destruct (json_all mf) as (j & Hj & Hj').
  rewrite (write_meta_ok _ _ j) by (done || by rewrite parent_meta).
  eexists. split; [done|]. split; cbn; [split; cbn; [| |intros vid Hu; split]| | |done].
  - intros q Hq. rewrite lookup_insert_ne; [by apply Hp|]. intros <-. by apply not_own_prefix in Hq.
  - done.
  - rewrite lookup_insert_ne by (by apply ver_dir_ne). by apply Hf.
  - by apply Hf.
  - eapply Forall_impl; [exact Hdata|]. intros e [Hu He]. split; [done|]. cbn.
    rewrite lookup_insert_ne; [done|]. apply not_eq_sym, deep_ne.
  - rewrite lookup_insert_eq. split; [done|]. by exists mf.
Qed.

(** The files once the shard of a new version is written. *)
Definition with_shard_of (fs : FS) (d : Path) (e : Ver) : FS :=
  mkFS (<[shard_file (ver_dir d (ver_id e)) := ver_data e]> (fs_files fs))
       (fs_dirs fs ∪ list_to_set (prefixes (ver_dir d (ver_id e)))).

Lemma shard_of_ne d vid q : length q <= S (length d) -> shard_file (ver_dir d vid) <> q.
Proof. intros Hl <-. unfold shard_file, ver_dir in Hl. rewrite !length_app in Hl. cbn in Hl. lia. Qed.

Lemma length_prefix q d : q ∈ prefixes d -> length q <= length d.
Proof. intros [_ [r ->]]%elem_of_prefixes. rewrite length_app. lia. Qed.

Lemma elem_of_with_shard fs d e q :
  q ∈ fs_dirs (with_shard_of fs d e) <-> q ∈ fs_dirs fs \/ q ∈ prefixes d \/ q = ver_dir d (ver_id e).
Proof. cbn. rewrite elem_of_union, elem_of_list_to_set. unfold ver_dir. rewrite prefixes_snoc. tauto. Qed.

Lemma hv_shard fs d vs e :
  holds_versions fs d vs -> uuid_ok (ver_id e) = true -> ver_id e ∉ map ver_id vs ->
  holds_versions (with_shard_of fs d e) d vs.
Proof.
  intros [[Hp Hm Hf] Hdata Hmeta Hplain] Hu Hfresh.
  assert (Hother : forall q, length q <= S (length d) ->
    fs_files (with_shard_of fs d e) !! q = fs_files fs !! q)
    by (intros q Hl; cbn; apply lookup_insert_ne; by apply shard_of_ne).
  assert (Hml : length (meta_file d) <= S (length d)) by (unfold meta_file; rewrite length_app; cbn; lia).
  split; [split; [| |intros vid Hv; split]| | |done].
  - intros q Hq. rewrite Hother; [by apply Hp|]. apply length_prefix in Hq. lia.
  - rewrite elem_of_with_shard. intros [?|[Hx|Hx]]; [done|by apply not_own_prefix in Hx|].
    by apply (proj1 (ver_dir_ne d (ver_id e) Hu)).
  - rewrite Hother; [by apply Hf|]. unfold ver_dir. rewrite length_app. cbn. lia.
  - rewrite elem_of_with_shard. intros [Hx|[Hx|Hx]]; [by apply (proj2 (Hf vid Hv))| |by apply deep_ne in Hx].
    apply not_prefix_longer in Hx; [done|]. unfold shard_file, ver_dir. rewrite !length_app. cbn. lia.
  - rewrite list.Forall_forall in *. intros e' He'. destruct (Hdata e' He') as [Hu' Hd']. split; [done|].
    cbn. rewrite lookup_insert_ne; [done|]. intros E. apply app_inj_tail in E as [E _].
    apply ver_dir_inj in E. apply Hfresh. rewrite E. by apply list_elem_of_fmap_2.
  - rewrite Hother by done. destruct (fs_files fs !! meta_file d); [|done]. destruct Hmeta as [Hd Hx].
    split; [|done]. apply elem_of_with_shard. by left.
Qed.

Lemma meta_or_empty_versions fs d vs b k :
  holds_versions fs d vs -> versions (meta_or_empty fs (meta_file d) b k) = ver_list vs.
Proof.
  intros Hh%hv_read. unfold meta_or_empty. destruct (read_meta_at fs (meta_file d)) as [mf|]; cbn; [tauto|].
  by destruct Hh as [-> _].
Qed.

Lemma hv_put v b k d vs e :
  object_dir (lv_root v) b k = Ok d -> holds_versions (lv_fs v) d vs -> ver_admissible vs (VPut e) ->
  exists fs', write_versioned_shard v b k (ver_id e) (ver_data e) (ver_meta e) = (set_fs fs' v, Ok tt) /\
    holds_versions fs' d (e :: vs).
Proof.
  intros Hd Hh (Hu & Hfresh & Hdel & Hinl & Hne).
  destruct (version_paths _ _ _ _ _ Hd Hu) as [Hvd Hvs]. destruct (object_paths _ _ _ _ Hd) as (Hmp & _ & Hd0).
  pose proof (hv_shard _ _ _ _ Hh Hu Hfresh) as Hh2.
  assert (Hin : d ∈ fs_dirs (with_shard_of (lv_fs v) d e)).
  { apply elem_of_with_shard. right. left. by apply prefixes_self. }
  destruct (hv_write_meta _ d (e :: vs) (push_version (ver_id e) (ver_meta e)
      (meta_or_empty (with_shard_of (lv_fs v) d e) (meta_file d) b k)) (hv_room _ _ _ Hh2) Hin) as (fs' & Hwr & Hh').
  - unfold push_version. cbn [versions]. rewrite (meta_or_empty_versions _ d vs), map_relatest by done. done.
  - constructor; [|apply Hh2]. split; [done|]. cbn. apply lookup_insert_eq.
  - constructor; [done|apply Hh].
  - exists fs'. split; [|done]. unfold write_versioned_shard, on_files, failing, andthen.
    rewrite Hvd, Hvs. rewrite mkdir_all_ok.
    2:{ intros q. unfold ver_dir. rewrite prefixes_snoc. intros [Hq| ->]; [by apply (hv_path _ _ (hv_room _ _ _ Hh))|].
        by apply (hv_free _ _ (hv_room _ _ _ Hh)). }
    cbn [fst snd]. rewrite fs_put_ok; cbn [fs_dirs fs_files fst snd].
    + unfold add_version, failing. rewrite Hmp.
      change (mkFS _ _) with (with_shard_of (lv_fs v) d e). by rewrite Hwr.
    + intros Hx. pose proof (proj2 (hv_free _ _ (hv_room _ _ _ Hh2) _ Hu)) as Hy. by apply Hy.
    + rewrite parent_shard. apply elem_of_union_r, elem_of_list_to_set, prefixes_self. by destruct d.
Qed.

(** The files once the directory of a version is removed. *)
Definition without_version (fs : FS) (d : Path) (vid : string) : FS :=
  if fs_is_dir fs (ver_dir d vid) then remove_dir_all (ver_dir d vid) fs else fs.

Lemma without_version_file fs d vid q :
  below (ver_dir d vid) q = false -> fs_files (without_version fs d vid) !! q = fs_files fs !! q.
Proof. intros Hb. unfold without_version. destruct (fs_is_dir _ _); [|done]. by rewrite remove_dir_all_lookup, Hb. Qed.

Lemma without_version_dir fs d vid q :
  q ∈ fs_dirs (without_version fs d vid) -> q ∈ fs_dirs fs.
Proof. unfold without_version. destruct (fs_is_dir _ _); [|done]. by intros [? _]%elem_of_remove_dir_all. Qed.

Lemma below_ver_dir d vid c r : below (ver_dir d vid) (d ++ c :: r) = bool_decide (c = Normal vid).
Proof.
  case_bool_decide as E.
  - apply below_spec. exists r. subst. unfold ver_dir. by rewrite <- app_assoc.
  - apply not_true_is_false. intros [r' Hr]%below_spec. unfold ver_dir in Hr. rewrite <- app_assoc in Hr.
    apply app_inv_head in Hr. injection Hr as -> _. done.
Qed.

Lemma below_shard_of d vid vid' : below (ver_dir d vid) (shard_file (ver_dir d vid')) = bool_decide (vid' = vid).
Proof.
  assert (E : shard_file (ver_dir d vid') = d ++ Normal vid' :: [Normal "shard.dat"])
    by (unfold shard_file, ver_dir; by rewrite <- app_assoc).
  rewrite E, below_ver_dir. apply bool_decide_ext. split; congruence.
Qed.

Lemma below_ver_short d vid q : length q <= length d -> below (ver_dir d vid) q = false.
Proof.
  intros Hl. apply not_true_is_false. intros [r ->]%below_spec. unfold ver_dir in Hl.
  rewrite !length_app in Hl. cbn in Hl. lia.
Qed.

Lemma without_room fs d vid : uuid_ok vid = true -> ver_room fs d -> ver_room (without_version fs d vid) d.
Proof.
  intros Hu [Hp Hm Hf]. split.
  - intros q Hq. rewrite without_version_file; [by apply Hp|]. by apply below_ver_short, length_prefix.
  - intros Hx%without_version_dir. done.
  - intros vid' Hu'. destruct (Hf vid' Hu') as [Hf1 Hf2]. split.
    + unfold without_version. destruct (fs_is_dir _ _); [|done]. rewrite remove_dir_all_lookup.
      by destruct (below _ _).
    + by intros Hx%without_version_dir.
Qed.

Lemma without_meta fs d vid :
  uuid_ok vid = true -> fs_files (without_version fs d vid) !! meta_file d = fs_files fs !! meta_file d.
Proof.
  intros Hu. apply without_version_file. unfold meta_file. rewrite below_ver_dir.
  apply bool_decide_eq_false_2. destruct (uuid_part vid Hu) as (_ & Hne & _). congruence.
Qed.

Lemma hv_delete v b k d vs vid :
  object_dir (lv_root v) b k = Ok d -> holds_versions (lv_fs v) d vs -> uuid_ok vid = true ->
  exists fs', delete_version_data v b k vid = (set_fs fs' v, Ok tt) /\
    holds_versions fs' d (List.filter (fun e => negb (bool_decide (ver_id e = vid))) vs).
Proof.
  intros Hd Hh Hu. destruct (version_paths _ _ _ _ _ Hd Hu) as [Hvd _].
  destruct (object_paths _ _ _ _ Hd) as (Hmp & _ & _). pose proof Hh as [Hroom Hdata Hmeta Hplain].
  unfold delete_version_data. rewrite Hvd, Hmp.
  change (if fs_is_dir _ _ then _ else _) with (without_version (lv_fs v) d vid).
  set (fs1 := without_version (lv_fs v) d vid).
  pose proof (without_room _ d vid Hu Hroom) as Hroom1. fold fs1 in Hroom1.
  pose proof (hv_read _ _ _ Hh) as Hr. unfold read_meta_at, read_meta_file in Hr |- *.
  unfold fs1 at 1. rewrite without_meta by done.
  destruct (data ← _; _) as [mf|e].
  2:{ destruct Hr as [-> Hnone]. exists fs1. split; [done|]. split; [done|constructor| |constructor].
      unfold fs1. by rewrite without_meta, Hnone. }
  destruct Hr as [Hv Hin].
  destruct (hv_write_meta fs1 d (List.filter (fun e => negb (bool_decide (ver_id e = vid))) vs)
    {| mf_bucket := mf_bucket (drop_version vid mf); mf_key := mf_key (drop_version vid mf);
       versions := mark_first (versions (drop_version vid mf)) |} Hroom1) as (fs' & Hwr & Hh').
  - unfold fs1, without_version. destruct (fs_is_dir _ _); [|done]. apply elem_of_remove_dir_all.
    split; [done|]. by apply below_ver_short.
  - cbn [versions drop_version]. rewrite Hv. apply drop_mark.
  - rewrite list.Forall_forall in *. intros e He%list_elem_of_In.
    apply List.filter_In in He as [He%list_elem_of_In Hne]. destruct (Hdata e He) as [Hue Hf]. split; [done|].
    unfold fs1. rewrite without_version_file; [done|]. rewrite below_shard_of.
    by apply negb_true_iff.
  - rewrite list.Forall_forall in *. intros e He%list_elem_of_In. apply List.filter_In in He as [He _].
    apply Hplain. by apply list_elem_of_In.
  - exists fs'. split; [|done]. by rewrite Hwr.
Qed.

Lemma hv_run ops v b k d vs :
  object_dir (lv_root v) b k = Ok d -> holds_versions (lv_fs v) d vs -> ver_admissible_run vs ops ->
  exists fs', ver_run v b k ops = (set_fs fs' v, Ok tt) /\ holds_versions fs' d (foldl ver_spec vs ops).
Proof.
  intros Hd. revert v vs Hd. induction ops as [|op ops IH]; intros v vs Hd Hh Ha; cbn.
  { exists (lv_fs v). split; [by destruct v|done]. }
  destruct Ha as [Ha Har].
  assert (Hstep : exists fs1, ver_step v b k op = (set_fs fs1 v, Ok tt) /\ holds_versions fs1 d (ver_spec vs op)).
  { destruct op as [e|vid]; [by apply hv_put|by apply hv_delete]. }
  destruct Hstep as (fs1 & -> & Hh1).
  destruct (IH (set_fs fs1 v) (ver_spec vs op) Hd Hh1 Har) as (fs' & -> & Hh'). by exists fs'.
Qed.

Lemma hv_find vs vid e :
  List.find (fun e => bool_decide (ver_id e = vid)) vs = Some e -> e ∈ vs /\ ver_id e = vid.
Proof. intros [He Hv]%List.find_some. apply bool_decide_eq_true in Hv. by rewrite list_elem_of_In. Qed.

Lemma hv_read_versioned v b k d vs vid :
  lv_wal v = None -> object_dir (lv_root v) b k = Ok d -> holds_versions (lv_fs v) d vs ->
  local_read_versioned_shard v b k vid = ver_read vs vid.
Proof.
  intros Hw Hd Hh. destruct (object_paths _ _ _ _ Hd) as (Hmp & _ & _).
  unfold local_read_versioned_shard, read_shard_from_wal_versioned, ver_read. rewrite Hw, Hmp. cbn [mbind result_bind].
  pose proof (hv_read _ _ _ Hh) as Hr. destruct (read_meta_at (lv_fs v) (meta_file d)) as [mf|e].
  2:{ destruct Hr as [-> _]. done. }
  destruct Hr as [Hv _]. cbn [mbind result_bind]. rewrite Hv, find_list.
  destruct (List.find _ vs) as [e|] eqn:F; [|done]. apply hv_find in F as [He <-]. cbn [ok_or mbind result_bind].
  pose proof (hv_data _ _ _ Hh) as Hdata. rewrite list.Forall_forall in Hdata. destruct (Hdata e He) as [Hu Hf].
  destruct (version_paths _ _ _ _ _ Hd Hu) as [_ Hvs]. rewrite Hvs. cbn [mbind result_bind].
  unfold fs_read. by rewrite Hf.
Qed.

Lemma hv_read_current v b k d vs :
  lv_wal v = None -> object_dir (lv_root v) b k = Ok d -> holds_versions (lv_fs v) d vs ->
  local_read_shard v b k =
    match vs with [] => Err ObjectNotFound | e :: _ => Ok (ver_data e, ver_entry true e) end.
Proof.
  intros Hw Hd Hh. destruct (object_paths _ _ _ _ Hd) as (Hmp & _ & _).
  unfold local_read_shard, read_shard_from_wal, read_shard_from_wal_versioned. rewrite Hw.
  unfold read_file_tier, object_versions. rewrite Hd, Hmp. cbn [mbind result_bind]. unfold fs_is_dir.
  pose proof (hv_read _ _ _ Hh) as Hr. destruct (read_meta_at (lv_fs v) (meta_file d)) as [mf|e].
  2:{ destruct Hr as [-> _]. by case_bool_decide. }
  destruct Hr as [Hv Hin]. rewrite bool_decide_eq_true_2 by done. cbn [mbind result_bind].
  unfold current_version. rewrite Hv. destruct vs as [|e vs]; [done|].
  pose proof (hv_plain _ _ _ Hh) as Hp. apply Forall_cons_1 in Hp as [(Hdel & Hinl & Hne) _].
  pose proof (hv_data _ _ _ Hh) as Hdata. apply Forall_cons_1 in Hdata as [[Hu Hf] _].
  cbn [ver_list List.find]. change (is_delete_marker (ver_entry true e)) with (is_delete_marker (ver_meta e)).
  rewrite Hdel. cbn [negb ok_or mbind result_bind].
  change (inline_data (ver_entry true e)) with (inline_data (ver_meta e)). rewrite Hinl.
  unfold version_data_path. change (version_id (ver_entry true e)) with (ver_id e).
  rewrite bool_decide_eq_false_2 by done.
  destruct (version_paths _ _ _ _ _ Hd Hu) as [_ Hvs]. rewrite Hvs. cbn [mbind result_bind].
  unfold fs_read. by rewrite Hf.
Qed.

(** C27: Writing and deleting versions of an object on a volume, in any order with
    fresh ids, implements a list of versions, newest first: every operation succeeds, a
    read of a version returns its shard and metadata or [ObjectNotFound], the listing is
    the list with exactly the first version marked latest, and a plain read returns the
    first, so after the newest is deleted the one before it is current again. *)
Theorem versions_refine v b k d ops :
  lv_wal v = None -> object_dir (lv_root v) b k = Ok d -> ver_room (lv_fs v) d ->
  fs_files (lv_fs v) !! meta_file d = None -> ver_admissible_run [] ops ->
  exists v', ver_run v b k ops = (v', Ok tt) /\
    let vs := foldl ver_spec [] ops in
    (forall vid, local_read_versioned_shard v' b k vid = ver_read vs vid) /\
    read_meta_versions v' b k = Ok (ver_list vs) /\
    local_read_shard v' b k =
      match vs with [] => Err ObjectNotFound | e :: _ => Ok (ver_data e, ver_entry true e) end.
Proof.
  intros Hw Hd Hroom Hnone Ha.
  assert (Hinit : holds_versions (lv_fs v) d []) by (split; [done|constructor|by rewrite Hnone|constructor]).
  destruct (hv_run ops v b k d [] Hd Hinit Ha) as (fs' & Hr & Hh). exists (set_fs fs' v). split; [done|].
  cbn zeta. split_and!.
  - intros vid. by apply hv_read_versioned with d.
  - destruct (object_paths _ _ _ _ Hd) as (Hmp & _ & _). unfold read_meta_versions. cbn [lv_root lv_wal lv_fs set_fs].
    rewrite Hmp, Hw. cbn [mbind result_bind]. rewrite <- fix_latest_list.
    2:{ pose proof (hv_plain _ _ _ Hh) as Hp. eapply Forall_impl; [exact Hp|]. by intros e (? & _). }
    pose proof (hv_read _ _ _ Hh) as Hm. destruct (read_meta_at fs' (meta_file d)) as [mf|].
    + by destruct Hm as [-> _].
    + by destruct Hm as [-> _].
  - by apply hv_read_current with d.
Qed.
End Versions.

(** ** Listings *)

Section Listing.
  Context `{Hashes} `{MetaCodec} `{UuidParser} `{MetaFileCodec}.

(** [walk_keys] takes a directory for an object when it holds a [meta.json]. *)
Definition is_object (fs : FS) (p : Path) : bool :=
  bool_decide (is_Some (fs_read fs (push p "meta.json"))) || fs_is_dir fs (push p "meta.json").

Definition key_of (names : list string) : string := string_of (join_with slash (map bytes_of names)).

(** A key the walk reports: an object below no other object, with no hidden name. *)
Definition listed (fs : FS) (dir : Path) (names : list string) : Prop :=
  names <> [] /\ dir ++ map Normal names ∈ fs_dirs fs /\ Forall (fun n => hidden n = false) names /\
  is_object fs (dir ++ map Normal names) = true /\
  forall n1 n2, names = n1 ++ n2 -> n1 <> [] -> n2 <> [] -> is_object fs (dir ++ map Normal n1) = false.

Lemma listed_cons fs dir name names :
  listed fs dir (name :: names) <->
  dir ++ [Normal name] ++ map Normal names ∈ fs_dirs fs /\ hidden name = false /\
  if is_object fs (dir ++ [Normal name]) then names = []
  else listed fs (dir ++ [Normal name]) names.
Proof.
  unfold listed. cbn [map]. change (Normal name :: map Normal names) with ([Normal name] ++ map Normal names).
  rewrite !app_assoc. split.
  - intros (_ & Hin & Hh & Hobj & Hpre). apply Forall_cons_1 in Hh as [Hn Hh]. split_and!; [done|done|].
    destruct (is_object fs (dir ++ [Normal name])) eqn:E.
    + destruct names as [|x names]; [done|]. pose proof (Hpre [name] (x :: names) eq_refl ltac:(done) ltac:(done)) as Hx. cbn in Hx. congruence.
    + split_and!; [|done|done|done|].
      * intros ->. cbn in Hobj. rewrite app_nil_r in Hobj. congruence.
      * intros n1 n2 -> H1' H2'. rewrite <- app_assoc. by apply (Hpre (name :: n1) n2).
  - intros (Hin & Hn & Hrest). destruct (is_object fs (dir ++ [Normal name])) eqn:E.
    + subst names. cbn [map] in *. rewrite app_nil_r in *. split_and!; [done|done|by repeat constructor|done|].
      intros [|x n1] n2 Heq H1' H2'; [done|]. cbn in Heq. injection Heq as <- Hnil.
      symmetry in Hnil. apply app_eq_nil in Hnil as [-> ->]. done.
    + destruct Hrest as (Hne & _ & Hh & Hobj & Hpre). split_and!; [done|done|by constructor|done|].
      intros [|x n1] n2 Heq H1' H2'; [done|]. cbn in Heq. injection Heq as <- ->.
      destruct n1 as [|y n1]; [done|].
      change (dir ++ map Normal (name :: y :: n1)) with (dir ++ [Normal name] ++ map Normal (y :: n1)).
      rewrite (app_assoc dir). by apply (Hpre (y :: n1) n2).
Qed.

(** With fuel for the depth of the tree the walk finds exactly the listed keys. *)
Lemma walk_keys_spec fuel fs dir rel prefix key :
  fs_wf fs -> (forall p, p ∈ fs_dirs fs -> length p <= length dir + fuel) ->
  key ∈ walk_keys fuel fs dir rel prefix <->
  exists names, listed fs dir names /\ key = key_of (rel ++ names) /\ starts_with prefix key = true.
Proof.
  intros Hwf. revert dir rel. induction fuel as [|fuel IH]; intros dir rel Hdepth; cbn [walk_keys].
  { split; [by intros ?%not_elem_of_nil|]. intros (names & (Hne & Hin & _) & _).
    apply Hdepth in Hin. rewrite length_app, length_map in Hin. destruct names; [done|]. cbn in Hin. lia. }
  assert (Hsub : forall name p, p ∈ fs_dirs fs -> length p <= length (dir ++ [Normal name]) + fuel).
  { intros name p Hp%Hdepth. rewrite length_app. cbn. lia. }
  rewrite list_elem_of_In, in_flat_map. setoid_rewrite <- list_elem_of_In. split.
  - intros (name & Hin%elem_of_dir_entries & Hk). destruct (hidden name) eqn:Hh; [by apply not_elem_of_nil in Hk|].
    fold (is_object fs (dir ++ [Normal name])) in Hk. destruct (is_object fs (dir ++ [Normal name])) eqn:Ho.
    + fold (key_of (rel ++ [name])) in Hk. destruct (starts_with prefix (key_of (rel ++ [name]))) eqn:Hs; [|by apply not_elem_of_nil in Hk].
      apply list_elem_of_singleton in Hk as ->. exists [name]. split_and!; [|done|done].
      apply listed_cons. rewrite Ho. cbn [map]. by rewrite app_nil_r.
    + apply (IH _ _ (Hsub name)) in Hk as (names & Hl & -> & Hs). exists (name :: names).
      rewrite <- app_assoc. split_and!; [|done|by rewrite <- app_assoc in Hs]. apply listed_cons. rewrite Ho, app_assoc.
      split_and!; [|done|done]. by destruct Hl as (_ & Hin' & _).
  - intros (names & Hl & -> & Hs). destruct names as [|name names]; [by destruct Hl|].
    apply listed_cons in Hl as (Hin & Hh & Hl). exists name. split.
    + apply elem_of_dir_entries. rewrite app_assoc in Hin. eapply dirs_closed; [done| |exact Hin]. by destruct dir.
    + rewrite Hh. fold (is_object fs (dir ++ [Normal name])).
      destruct (is_object fs (dir ++ [Normal name])) eqn:Ho.
      * subst names. fold (key_of (rel ++ [name])). rewrite Hs. by left.
      * apply (IH _ _ (Hsub name)). exists names. by rewrite <- !app_assoc.
Qed.

Lemma elem_of_merge_keys (pending keys : list string) k :
  k ∈ fold_left (fun ks k => if bool_decide (k ∈ ks) then ks else ks ++ [k]) pending keys <->
  k ∈ keys \/ k ∈ pending.
Proof.
  revert keys. induction pending as [|x pending IH]; intros keys; cbn [fold_left].
  { split; [by left|]. intros [?|?%not_elem_of_nil]; done. }
  rewrite IH, elem_of_cons. case_bool_decide as Hx.
  - split; [tauto|]. intros [?|[->|?]]; auto.
  - rewrite elem_of_app, list_elem_of_singleton. tauto.
Qed.

Lemma tree_depth_bound fs p : p ∈ fs_dirs fs -> length p <= tree_depth fs.
Proof.
  intros Hp. unfold tree_depth. pose proof (list_max_le (map length (elements (fs_dirs fs)))
    (list_max (map length (elements (fs_dirs fs))))) as [H' _].
  specialize (H' (le_n _)). rewrite Forall_forall in H'. apply H'.
  apply list_elem_of_fmap_2. by apply elem_of_elements.
Qed.

(** A listing returns, sorted, the keys with the prefix that are pending in the log or
    are objects on disk, that is directories with metadata; but of the objects on disk
    only those that lie below no other object and have no name that starts with a dot.
    The walk always ends: the depth of the tree is fuel enough. *)
Theorem list_objects_exact (v : LocalVolume) b prefix d :
  fs_wf (lv_fs v) -> bucket_dir (lv_root v) b = Ok d -> d ∈ fs_dirs (lv_fs v) ->
  validate_object_prefix prefix = Ok tt ->
  exists keys, list_objects v b prefix = Ok keys /\ Sorted str_le keys /\
    forall key, key ∈ keys <->
      (exists names, listed (lv_fs v) d names /\ key = key_of names /\ starts_with prefix key = true) \/
      (exists h, lv_wal v = Some h /\ key ∈ wal_list_keys (wh_wal h) b prefix).
Proof.
  intros Hwf Hd Hin Hpre. unfold list_objects. rewrite Hd. cbn [mbind result_bind]. unfold fs_is_dir.
  rewrite bool_decide_eq_true_2 by done. rewrite Hpre. cbn [mbind result_bind].
  eexists. split; [done|]. split; [apply Sorted_merge_sort, _|].
  intros key. rewrite merge_sort_Permutation, elem_of_merge_keys, walk_keys_spec; [|done|].
  2:{ intros p Hp%tree_depth_bound. lia. }
  apply or_iff_compat_l. destruct (lv_wal v) as [h|].
  - split; [intros ?; by exists h|]. by intros (h' & [= <-] & ?).
  - split; [by intros ?%not_elem_of_nil|]. by intros (h & ? & _).
Qed.
End Listing.

(** ** What deletion and metadata updates miss *)

Section Gaps.
  Context `{Hashes} `{MetaCodec} `{UuidParser} `{MetaFileCodec} `{Base64} `{SettingsCodec}.

Lemma mark_pending w b k v : pending (mark_materialized_versioned w b k v) = delete (b, k, v) (pending w).
Proof.
  unfold mark_materialized_versioned. destruct (pending w !! (b, k, v)) as [e|] eqn:E.
  - destruct (segment_pending_counts _ !! _); [|done]. case_bool_decide; [|done].
    unfold try_delete_segment. repeat case_match; done.
  - by rewrite delete_id.
Qed.

(** Deleting an object that is pending in the log only drops the log entry: an older
    version in the files becomes visible again, although the deletion succeeded. *)
Theorem delete_pending_reveals_files (v : LocalVolume) b k :
  is_in_wal v b k = true ->
  (local_delete_object v b k).2 = Ok tt /\
  local_read_shard (local_delete_object v b k).1 b k = read_file_tier v b k.
Proof.
  intros Hin. unfold local_delete_object. rewrite Hin. unfold is_in_wal in Hin.
  destruct (lv_wal v) as [h|]; [|done]. split; [done|].
  unfold local_read_shard, read_shard_from_wal, read_shard_from_wal_versioned. cbn [lv_wal set_wal fst wh_wal].
  unfold get_versioned, mark_materialized. rewrite mark_pending, lookup_delete_eq. done.
Qed.

(** [update_meta] takes the first version with the same shard index, so an update meant
    for an older version replaces the entry of the newest. *)
Theorem update_meta_hits_newest (v v' : LocalVolume) b k d mf a vs m :
  object_dir (lv_root v) b k = Ok d -> object_versions v b k = Ok mf -> versions mf = a :: vs ->
  index (erasure a) = index (erasure m) -> version_id a <> version_id m ->
  (forall mf, json_ok mf) -> update_meta v b k m = (v', Ok tt) ->
  exists mf', object_versions v' b k = Ok mf' /\ versions mf' = m :: vs.
Proof.
  intros Hd Hov Hvs Hidx _ Hj Hup. destruct (object_paths _ _ _ _ Hd) as (Hmp & _ & _).
  unfold update_meta in Hup. rewrite Hov in Hup. set (mf' := mkObjectMetaFile _ _ _) in Hup.
  assert (Hmf' : versions mf' = m :: vs).
  { unfold mf'. cbn. rewrite Hvs. cbn. by rewrite bool_decide_eq_true_2. }
  unfold on_files, failing in Hup. rewrite Hmp in Hup. unfold write_meta, failing in Hup.
  destruct (Hj mf') as (j & Hj1 & Hj2). rewrite Hj1 in Hup. cbn [ok_or] in Hup.
  destruct (fs_put (meta_file d) j (lv_fs v)) as [fs' r] eqn:Hput. cbn in Hup.
  injection Hup as <- ->. destruct (fs_put_inv _ _ _ _ _ Hput) as (Hdirs & _ & Hnew).
  assert (Hdin : d ∈ fs_dirs (lv_fs v)).
  { unfold object_versions in Hov. rewrite Hd in Hov. cbn [mbind result_bind] in Hov. unfold fs_is_dir in Hov.
    by case_bool_decide. }
  exists mf'. split; [|done]. apply (object_versions_ok (set_fs fs' v) b k d mf' j); [done| |by apply Hnew|done].
  cbn. by rewrite Hdirs.
Qed.
(** Neither deleting nor creating a bucket touches any bucket's settings: a bucket that
    is created again has the policy, versioning state, tags and lifecycle of the one
    that was deleted. *)
Theorem bucket_settings_survive (v : LocalVolume) b b' :
  read_bucket_settings (make_bucket (delete_bucket v b).1 b).1 b' = read_bucket_settings v b'.
Proof.
  assert (Hfiles : forall (w : LocalVolume) (f : Io_step), (forall fs, fs_files (f fs).1 = fs_files fs) ->
    read_bucket_settings (on_files w f).1 b' = read_bucket_settings w b').
  { intros w f Hf. unfold read_bucket_settings, on_files. cbn. destruct (bucket_settings_path _ _) as [q|]; [|done].
    unfold fs_read. by rewrite Hf. }
  unfold make_bucket, delete_bucket. rewrite !Hfiles; [done|..]; intros fs; unfold failing;
    destruct (bucket_dir _ b) as [d|]; try done; destruct (fs_is_dir fs d); try done.
  - unfold remove_dir. by destruct (_ && _).
  - unfold mkdir_all. by destruct (existsb _ _).
Qed.

End Gaps.

(** ** Concrete volumes *)

Global Instance ErasureMeta_countable : Countable ErasureMeta.
Proof.
  refine (inj_countable' (fun e => (ftt e, index e, epoch_id e, volume_ids e))
            (fun '(a, c, d, e) => mkErasureMeta a c d e) _). by intros [].
Defined.
Global Instance PartEntry_countable : Countable PartEntry.
Proof.
  refine (inj_countable' (fun e => (part_number e, part_size e, part_etag e, part_erasure e, part_checksum e))
            (fun '(a, c, d, e, f) => mkPartEntry a c d e f) _). by intros [].
Defined.
Global Instance ObjectMeta_countable : Countable ObjectMeta.
Proof.
  refine (inj_countable' (fun m => (size m, etag m, content_type m, created_at m, erasure m, checksum m,
              (user_metadata m, tags m, version_id m, is_latest m, is_delete_marker m, parts m, inline_data m)))
            (fun '(a, c, d, e, f, g, (h, i, j, k, l, n, o)) => mkObjectMeta a c d e f g h i j k l n o) _).
  by intros [].
Defined.
Global Instance ObjectMetaFile_eq_dec : EqDecision ObjectMetaFile.
Proof. solve_decision. Defined.
Global Instance ObjectMetaFile_countable : Countable ObjectMetaFile.
Proof.
  refine (inj_countable' (fun m => (mf_bucket m, mf_key m, versions m))
            (fun '(a, c, d) => mkObjectMetaFile a c d) _). by intros [].
Defined.

Definition digit_codec : MetaFileCodec := {|
  json_to_vec := fun mf => Some (digits (encode mf));
  json_from_slice := fun b => decode (undigits b) |}.

Lemma digit_codec_ok mf : @json_ok digit_codec mf.
Proof. exists (digits (encode mf)). split; [done|]. cbn. by rewrite undigits_digits, decode_encode. Qed.

Definition plain_base64 : Base64 := {| b64_encode := string_of; b64_decode := fun s => Some (bytes_of s) |}.
Lemma plain_base64_ok : @Base64Ok plain_base64.
Proof. intros d. cbn. by rewrite bytes_of_string_of. Qed.

Definition two_uuids : UuidParser := fun s => bool_decide (s = "v1") || bool_decide (s = "v2").
Lemma two_uuids_part s : @uuid_ok two_uuids s = true -> good_part s /\ s <> "meta.json" /\ s <> "shard.dat".
Proof.
  unfold uuid_ok, two_uuids. intros [->%bool_decide_eq_true| ->%bool_decide_eq_true]%orb_true_iff;
    (split; [by_decide|done]).
Qed.

Definition demo_root : Path := components "/data".
Definition demo_fs : FS := mkFS ∅ {[ [RootDir]; demo_root ]}.
Definition demo_volume : LocalVolume := mkLocalVolume demo_root "vol" demo_fs None 10.
Definition demo_meta : ObjectMeta :=
  mkObjectMeta 1 "etag" "text/plain" 7 (mkErasureMeta 0 0 1 []) "sum" ∅ ∅ "" true false [] None.
Definition demo_obj : Path := components "/data/bkt/obj".

Lemma demo_wf : fs_wf demo_fs.
Proof.
  split; [by intros p []| |done]. intros p Hp. cbn in Hp.
  apply elem_of_union in Hp as [->%elem_of_singleton| ->%elem_of_singleton]; [left; cbn; lia|right].
  cbn. set_solver.
Qed.

Lemma demo_object_dir : object_dir (lv_root demo_volume) "bkt" "obj" = Ok demo_obj.
Proof. vm_compute. reflexivity. Qed.

Lemma demo_no_dir c r : demo_obj ++ c :: r ∉ fs_dirs demo_fs.
Proof. intros [Hx%elem_of_singleton|Hx%elem_of_singleton]%elem_of_union; by apply (f_equal length) in Hx. Qed.

Lemma demo_clear : clear_for (lv_fs demo_volume) demo_obj.
Proof. split; [done|apply demo_no_dir|apply demo_no_dir]. Qed.

Lemma demo_room : @ver_room two_uuids (lv_fs demo_volume) demo_obj.
Proof.
  split; [done|apply demo_no_dir|]. intros vid _. split; [done|].
  unfold shard_file, ver_dir. rewrite <- app_assoc. apply demo_no_dir.
Qed.

Definition demo_settings_codec : SettingsCodec :=
  {| settings_to_vec := fun _ => None; settings_from_slice := fun _ => None |}.

Lemma local_put_get_witness :
  exists v', @local_write_shard example_hashes ex_codec digit_codec plain_base64
      demo_volume "bkt" "obj" ["x"%char] demo_meta 0 = Some (v', Ok tt) /\
    @local_read_shard ex_codec two_uuids digit_codec plain_base64 v' "bkt" "obj"
      = Ok (["x"%char], set_is_latest true demo_meta).
Proof.
  destruct (@local_put_get example_hashes ex_codec two_uuids digit_codec plain_base64 plain_base64_ok
              demo_volume "bkt" "obj" demo_obj ["x"%char] demo_meta 0) as (v' & Hw & _ & Hr & _).
  - intros s Hs. by apply two_uuids_part.
  - reflexivity.
  - exact demo_wf.
  - exact demo_object_dir.
  - exact demo_clear.
  - reflexivity.
  - reflexivity.
  - reflexivity.
  - apply digit_codec_ok.
  - exists v'. split; [exact Hw|exact Hr].
Defined.

Lemma stream_put_get_witness :
  exists v1 w1 v2 w2 v3,
    @local_open_shard_writer two_uuids demo_volume "bkt" "obj" None = (v1, Ok w1) /\
    @local_write_chunks two_uuids v1 w1 [["a"%char]; ["b"%char]] = (v2, Ok w2) /\
    @local_finalize example_hashes ex_codec two_uuids digit_codec v2 w2 demo_meta 0 = Some (v3, Ok tt) /\
    @local_read_shard ex_codec two_uuids digit_codec plain_base64 v3 "bkt" "obj"
      = Ok (["a"%char; "b"%char], set_is_latest true demo_meta).
Proof.
  apply (@stream_put_get example_hashes ex_codec two_uuids digit_codec plain_base64
           demo_volume "bkt" "obj" demo_obj demo_meta [["a"%char]; ["b"%char]] 0).
  - exact demo_object_dir.
  - exact demo_clear.
  - reflexivity.
  - reflexivity.
  - reflexivity.
  - apply digit_codec_ok.
  - exact I.
Defined.

Definition demo_v1 : Ver := mkVer "v1" ["x"%char] demo_meta.
Definition demo_v2 : Ver := mkVer "v2" ["y"%char] demo_meta.

Lemma versions_refine_witness :
  exists v', @ver_run two_uuids digit_codec demo_volume "bkt" "obj" [VPut demo_v1; VPut demo_v2; VDelete "v2"]
      = (v', Ok tt) /\
    @local_read_shard ex_codec two_uuids digit_codec plain_base64 v' "bkt" "obj"
      = Ok (["x"%char], ver_entry true demo_v1).
Proof.
  destruct (@versions_refine ex_codec two_uuids digit_codec plain_base64 two_uuids_part digit_codec_ok
              demo_volume "bkt" "obj" demo_obj [VPut demo_v1; VPut demo_v2; VDelete "v2"]) as (v' & Hr & _ & _ & Hc).
  - reflexivity.
  - exact demo_object_dir.
  - exact demo_room.
  - reflexivity.
  - cbn. split_and!; try done; set_solver.
  - exists v'. split; [exact Hr|exact Hc].
Defined.

(** A bucket with the objects [a] and [a/b]. *)
Definition nested_fs : FS :=
  mkFS {[ components "/data/bkt/a/meta.json" := []; components "/data/bkt/a/b/meta.json" := [] ]}
       {[ components "/"; components "/data"; components "/data/bkt"; components "/data/bkt/a";
          components "/data/bkt/a/b" ]}.
Definition nested_volume : LocalVolume := mkLocalVolume demo_root "vol" nested_fs None 10.

Lemma list_objects_exact_witness :
  exists keys, list_objects nested_volume "bkt" "" = Ok keys /\ Sorted str_le keys.
Proof.
  destruct (list_objects_exact nested_volume "bkt" "" (components "/data/bkt")) as (keys & Hk & Hs & _).
  - split.
    + intros p [x Hx]. unfold nested_volume, nested_fs in Hx. cbn [lv_fs fs_files] in Hx.
      apply lookup_insert_Some in Hx as [[<- _]|[_ Hx]]; [by_decide|].
      apply lookup_singleton_Some in Hx as [<- _]. by_decide.
    + intros p Hp. cbn in Hp. rewrite !elem_of_union, !elem_of_singleton in Hp.
      destruct_or!; subst; first [left; cbn; lia | right; by_decide].
    + intros p Hp. cbn in Hp. rewrite !elem_of_union, !elem_of_singleton in Hp.
      destruct_or!; subst; reflexivity.
  - vm_compute. reflexivity.
  - by_decide.
  - vm_compute. reflexivity.
  - exists keys. split; [exact Hk|exact Hs].
Defined.

(** The object [a/b] is on the volume and no listing shows it. *)
Theorem nested_object_unlisted :
  is_object nested_fs (components "/data/bkt/a/b") = true /\ list_objects nested_volume "bkt" "" = Ok ["a"].
Proof. vm_compute. done. Qed.
