(* ===== verification/VolumeRestart.v ===== *)
(** Restart of a local volume with its write-ahead log ([enable_wal_with_config] of
    [src/storage/local_volume.rs]): what a volume answers after a crash.

    A crash keeps the volume's files and the log directory and loses the rest.  The workers are
    spawned before the recovered entries are sent to them; their steps commute with the sends,
    which wait for room, so they come after them here. *)

From Stdlib Require Import Ascii.
From stdpp Require Import base list gmap strings numbers pretty sorting.
From S2P Require Import Prelude Metadata Needle Segment Pathing Wal WalRecovery Materialize RaftFsm FileSys LocalVolume LocalObjects.

Open Scope string_scope.
Open Scope list_scope.

(** [Path::is_file]. *)
Definition fs_is_file (fs : FS) (p : Path) : bool := bool_decide (is_Some (fs_files fs !! p)).

Section Restart.
  Context `{Hashes} `{MetaCodec} `{UuidParser} `{MetaFileCodec} `{Base64} `{SettingsCodec}.

(** [enable_wal_with_config] on the log directory [dir], with segments of [seg_size] bytes
    ([DEFAULT_SEGMENT_SIZE] in the code).  [None] is the panic of the assertion. *)
Definition enable_wal_with_config (seg_size : nat) (v : LocalVolume) (dir : gmap string bytes)
    (threshold channel_buffer worker_count : nat) (now : N) : option (LocalVolume * Result unit) :=
  match lv_wal v with
  | Some _ => Some (v, Ok tt)
  | None =>
      if bool_decide (1 <= worker_count) then
        w ← wal_open dir seg_size (fs_is_file (lv_fs v)) (lv_root v) now;
        r ← recover_wal (mkMatState w (fs_files (lv_fs v)) (replicate worker_count (mkWorker [] None)) 0);
        Some (mkLocalVolume (lv_root v) (lv_volume_id v) (lv_fs v)
                (Some (mkWalHandle (mat_wal r.1) (mat_workers r.1) (mat_next r.1) channel_buffer)) threshold, Ok tt)
      else None
  end.

Definition enable_wal (seg_size : nat) (v : LocalVolume) (dir : gmap string bytes) (now : N) : option (LocalVolume * Result unit) :=
  enable_wal_with_config seg_size v dir DEFAULT_WAL_THRESHOLD (N.to_nat 10000) 2 now.

(** What is left of the volume after a crash, before its log is enabled. *)
Definition crashed (v : LocalVolume) : LocalVolume :=
  mkLocalVolume (lv_root v) (lv_volume_id v) (lv_fs v) None DEFAULT_WAL_THRESHOLD.

(** ** Lemmas *)

(** The log's answer depends only on the objects it holds. *)
Lemma log_answer v h m b k vid : lv_wal v = Some h -> represents (wh_wal h) m ->
  read_shard_from_wal_versioned v b k vid =
    match m !! (b, k, vid) with
    | Some (d, mb) => meta ← decode_meta mb; Ok (Some (d, meta))
    | None => Ok None
    end.
Proof.
  intros Hw Hm. unfold read_shard_from_wal_versioned, get_versioned. rewrite Hw. specialize (Hm (b, k, vid)).
  destruct (m !! (b, k, vid)) as [[d mb]|]; [|by rewrite Hm]. destruct Hm as (e & -> & -> & Hmb). cbn [ok_or mbind result_bind].
  unfold read_meta. by rewrite Hmb.
Qed.

Lemma log_stat v h m b k : lv_wal v = Some h -> represents (wh_wal h) m ->
  (h ← lv_wal v; e ← get (wh_wal h) b k; result_ok (read_meta (wh_wal h) e)) =
    (x ← m !! (b, k, ""); result_ok (decode_meta x.2)).
Proof.
  intros Hw Hm. rewrite Hw. cbn [mbind option_bind]. unfold get, get_versioned. specialize (Hm (b, k, "")).
  destruct (m !! (b, k, "")) as [[d mb]|]; [|by rewrite Hm]. destruct Hm as (e & -> & _ & Hmb). cbn [mbind option_bind snd].
  unfold read_meta. by rewrite Hmb.
Qed.

Lemma queues_insert (ws : list Worker) i wk r : ws !! i = Some wk ->
  concat (map w_queue (<[i := mkWorker (w_queue wk ++ [r]) (w_busy wk)]> ws)) ≡ₚ concat (map w_queue ws) ++ [r].
Proof.
  revert i. induction ws as [|x ws IH]; intros [|i] Hi; simplify_eq/=.
  - rewrite <- !app_assoc. apply Permutation_app_head, Permutation_app_comm.
  - rewrite (IH _ Hi). by rewrite app_assoc.
Qed.

(** Sending the recovered entries always succeeds and changes the queues only. *)
Lemma send_all_ok st reqs : mat_workers st <> [] -> exists st', send_all st reqs = Some st' /\ mat_wal st' = mat_wal st /\
  concat (map w_queue (mat_workers st')) ≡ₚ concat (map w_queue (mat_workers st)) ++ reqs.
Proof.
  revert st. induction reqs as [|r reqs IH]; intros st Hne; cbn [send_all].
  { exists st. by rewrite app_nil_r. }
  unfold send. rewrite bool_decide_eq_false_2 by (by intros ?%nil_length_inv).
  assert (Hlt : N.to_nat (mat_next st mod N.of_nat (length (mat_workers st))) < length (mat_workers st)).
  { destruct (mat_workers st) as [|x l] eqn:E; [done|]. pose proof (N.mod_lt (mat_next st) (N.of_nat (length (x :: l)))). cbn [length] in *. lia. }
  destruct (lookup_lt_is_Some_2 _ _ Hlt) as [wk Hwk]. rewrite Hwk. cbn [mbind option_bind]. set (st1 := mkMatState _ _ _ _).
  destruct (IH st1) as (st' & -> & Hw & Hq).
  { intros E%(f_equal length). cbn [st1 mat_workers] in E. rewrite length_insert in E. by apply nil_length_inv in E. }
  exists st'. split; [done|]. split; [done|]. rewrite Hq. cbn [st1 mat_workers].
  rewrite (queues_insert _ _ wk r Hwk), <- app_assoc. done.
Qed.

(** ** Properties *)

(** C23: A restart changes no answer.  Take a volume whose log is in step with its files, in
    which every needle still in the log directory is pending or has its file, and no pending
    object has one.  After a crash, enabling the log on what the disk holds succeeds, every read
    and every stat of an object gives the same answer as before the crash, and the materialize
    workers have exactly the pending objects in their queues. *)
Theorem restart_keeps_reads `{!HashesOk} v h segs m threshold buffer workers now :
  lv_wal v = Some h -> log_inv (wh_wal h) segs m -> (next_segment_id (wh_wal h) + 1 < 10 ^ 6)%N -> 1 <= workers ->
  (forall n, n ∈ needles segs -> is_Some (m !! needle_key n) \/ dest (fs_is_file (lv_fs v)) (lv_root v) (needle_key n) = true) ->
  (forall k, is_Some (m !! k) -> dest (fs_is_file (lv_fs v)) (lv_root v) k = false) ->
  exists v' h', enable_wal_with_config (segment_capacity (wh_wal h)) (crashed v) (log_dir (wh_wal h)) threshold buffer workers now
      = Some (v', Ok tt) /\ lv_wal v' = Some h' /\ represents (wh_wal h') m /\
    (forall b k, local_read_shard v' b k = local_read_shard v b k) /\
    (forall b k, stat_object v' b k = stat_object v b k) /\
    concat (map w_queue (wh_workers h')) ≡ₚ drain_recovery_requests (wh_wal h').
Proof.
  intros Hw Hl Hn Hwk Hacc Hpend. pose proof (li_wal _ _ _ Hl) as Hi. unfold enable_wal_with_config. cbn [crashed lv_wal lv_fs lv_root].
  rewrite bool_decide_eq_true_2 by done.
  destruct (reopen_log (fs_is_file (lv_fs v)) (lv_root v) _ _ _ _ now (crash_disk _ _ _ Hl) (wal_inv_capacity _ Hi) (inv_width _ Hi) ltac:(lia))
    as (w' & segs' & -> & Hl' & _ & _ & _).
  cbn [mbind option_bind]. unfold recover_wal. cbn [mat_wal].
  destruct (send_all_ok (mkMatState w' (fs_files (lv_fs v)) (replicate workers (mkWorker [] None)) 0) (drain_recovery_requests w'))
    as (st' & -> & Hst & Hq); [by destruct workers; [lia|]|].
  cbn [mbind option_bind fst snd]. eexists _, _. split; [done|]. split; [done|]. cbn [wh_wal wh_workers]. rewrite Hst. cbn [mat_wal].
  assert (Hm : represents w' m).
  { rewrite <- (recovered_all (lv_root v) (fs_is_file (lv_fs v)) _ _ _ Hl); [apply (li_rep _ _ _ Hl')|done|done]. }
  split; [done|]. split_and!.
  - intros b k. unfold local_read_shard, read_shard_from_wal. rewrite (log_answer v h m) by (done || apply (li_rep _ _ _ Hl)).
    erewrite (log_answer _ _ m) by (done || cbn; by rewrite ?Hst). done.
  - intros b k. unfold stat_object. rewrite (log_stat v h m) by (done || apply (li_rep _ _ _ Hl)).
    erewrite (log_stat _ _ m) by (done || cbn; by rewrite ?Hst). done.
  - rewrite Hq. cbn [mat_workers]. replace (concat (map w_queue (replicate workers (mkWorker [] None)))) with (@nil MaterializeRequest); [done|].
    clear. induction workers; [done|]. cbn. done.
Qed.

End Restart.

(** ** A concrete volume *)

Global Instance ActiveSegment_eq_dec : EqDecision ActiveSegment.
Proof. solve_decision. Defined.
Global Instance SealedSegment_eq_dec : EqDecision SealedSegment.
Proof. solve_decision. Defined.
Global Instance Wal_eq_dec : EqDecision Wal.
Proof. solve_decision. Defined.

Section Demo.
  Local Existing Instances example_hashes example_hashes_ok ex_meta_codec ex_uuid ex_meta_file_codec plain_base64 demo_settings_codec.

Definition demo_pair (v : LocalVolume) (r : option (LocalVolume * Result unit)) : LocalVolume :=
  match r with Some (v', Ok _) => v' | _ => v end.

(** A volume whose log has segments of 300 bytes, and the same after a small write. *)
Definition logged : LocalVolume := demo_pair demo_volume (enable_wal_with_config 300 demo_volume ∅ 100 10 2 1).
Definition logged_cat : LocalVolume :=
  demo_pair logged (local_write_shard logged "bkt" "cat" (bytes_of "meow") (ex_object_meta "e") 5).
Definition logged_dog : LocalVolume :=
  demo_pair logged_cat (local_write_shard logged_cat "bkt" "dog" (bytes_of "woof") (ex_object_meta "f") 6).

Definition the_handle (v : LocalVolume) : WalHandle := match lv_wal v with Some h => h | None => mkWalHandle ex_wal [] 0 0 end.
Definition the_log (v : LocalVolume) : Wal := wh_wal (the_handle v).

Definition restart (v : LocalVolume) : LocalVolume := demo_pair v (enable_wal_with_config 300 (crashed v) (log_dir (the_log v)) 100 10 2 9).

(** An object that is deleted while it is pending comes back at the next restart: the deletion
    takes the entry off the pending map and leaves the needle in the active segment's file, and
    no tombstone is written. *)
Theorem deleted_object_comes_back :
  let v := (local_delete_object logged_cat "bkt" "cat").1 in
  (local_delete_object logged_cat "bkt" "cat").2 = Ok tt /\
  local_read_shard v "bkt" "cat" = Err ObjectNotFound /\
  local_read_shard (restart v) "bkt" "cat" = Ok (bytes_of "meow", ex_object_meta "e").
Proof. vm_compute. done. Qed.

Definition cat_needle : Needle := mkNeedle FLAG_NORMAL "bkt" "cat" "" (bytes_of "e") (bytes_of "meow").

Lemma no_files k : dest (fs_is_file demo_fs) demo_root k = false.
Proof. unfold dest, dest_exists. case_bool_decide; case_match; reflexivity. Qed.

(** The log of [logged_cat] is in step with its files. *)
Lemma logged_cat_log : exists segs, log_inv (the_log logged_cat) segs {[needle_key cat_needle := (bytes_of "meow", bytes_of "e")]} /\
  needles segs ⊆ [cat_needle] /\ next_segment_id (the_log logged_cat) = 3%N.
Proof.
  assert (Hd : disk_ok 300 ∅ [] 2).
  { split_and!; [|constructor|set_solver|constructor|done]. exists []. split; [by left|]. split; [set_solver|].
    intros name. rewrite lookup_empty. by intros []. }
  destruct (reopen_log (fs_is_file demo_fs) demo_root 300 ∅ [] 2 1 Hd ltac:(unfold SUPERBLOCK_SIZE; lia) ltac:(done) ltac:(done))
    as (w & segs & Hw & Hl & Hsub & Hc & Hn).
  assert (Ew : w = the_log logged).
  { apply (inj Some). rewrite <- Hw. by_decide. }
  assert (Hs : wf_needle cat_needle) by (unfold wf_needle; split_and!; vm_compute; reflexivity).
  subst w. destruct (wal_append_log (the_log logged) segs _ cat_needle 5 Hl Hs ltac:(done) ltac:(vm_compute; done))
    as (w' & r & segs' & Ha & _ & _ & Hl' & Hsub').
  assert (Ew' : w' = the_log logged_cat).
  { pose proof (f_equal (option_map fst) Ha) as Ha'. cbn [option_map fst] in Ha'. apply (inj Some). rewrite <- Ha'. by_decide. }
  subst w'. exists segs'. split_and!; [| |vm_compute; reflexivity].
  - unfold spec_op in Hl'. rewrite decide_True in Hl' by (apply Nat.leb_le; vm_compute; reflexivity). exact Hl'.
  - rewrite decide_True in Hsub' by (apply Nat.leb_le; vm_compute; reflexivity).
    intros n Hin. apply Hsub', elem_of_cons in Hin as [->|Hin]; [by apply list_elem_of_singleton|]. clear -Hsub Hin.
    apply Hsub in Hin. change (n ∈ @nil Needle) in Hin. by apply not_elem_of_nil in Hin.
Qed.

Lemma restart_keeps_reads_witness :
  exists v' h', enable_wal_with_config (segment_capacity (the_log logged_cat)) (crashed logged_cat) (log_dir (the_log logged_cat)) 100 10 2 9
      = Some (v', Ok tt) /\
    lv_wal v' = Some h' /\ local_read_shard v' "bkt" "cat" = Ok (bytes_of "meow", ex_object_meta "e").
Proof.
  destruct logged_cat_log as (segs & Hl & Hsub & Hn).
  destruct (restart_keeps_reads logged_cat
    (the_handle logged_cat) segs
    {[needle_key cat_needle := (bytes_of "meow", bytes_of "e")]} 100 10 2 9) as (v' & h' & He & Hw & _ & Hr & _).
  - vm_compute. reflexivity.
  - exact Hl.
  - fold (the_log logged_cat). rewrite Hn. vm_compute. reflexivity.
  - lia.
  - intros n Hin. left. apply Hsub, list_elem_of_singleton in Hin as ->. rewrite lookup_singleton_eq. by eexists.
  - intros k _. exact (no_files k).
  - exists v', h'. split; [exact He|]. split; [exact Hw|]. rewrite Hr. vm_compute. reflexivity.
Defined.

End Demo.
