(* ===== verification/VolumePool.v ===== *)
(** The volume pool ([src/storage/volume_pool.rs]): the object store over the
    volumes of a node, with its two caches, the repair queue and the placement
    topology.

    An operation is a function of the pool that returns the new pool and a
    [Result], or [None] when it panics; [?] is the bind.  Loops over the disks run
    in order.  Metrics and timing spans have no effect and are left out.  The
    clocks ([SystemTime] in seconds and in nanoseconds, [Instant]) and fresh UUIDs
    are arguments. *)

From Stdlib Require Import Ascii.
From stdpp Require Import base list gmap strings numbers pretty sorting.
From S2P Require Import Prelude Metadata Pathing Placement Erasure Backend ErasureDecode ErasurePut.
From S2P Require Import Caches Heal RaftFsm.

(** ** Interfaces *)

(** The part of the [Backend] trait that the pool uses beyond encoding, decoding
    and healing. *)
Class PoolBackend (B : Type) : Type := {
  set_volume_id : string -> B -> B;
  bucket_exists : B -> string -> bool;
  disk_make_bucket : B -> string -> B * Result unit;
  disk_delete_bucket : B -> string -> B * Result unit;
  bucket_created_at : B -> string -> N;
  read_meta_versions : B -> string -> string -> Result (list ObjectMeta);
  write_meta_versions : B -> string -> string -> list ObjectMeta -> B * Result unit;
  delete_version_data : B -> string -> string -> string -> B * Result unit;
  read_bucket_settings : B -> string -> BucketSettings;
  write_bucket_settings : B -> string -> BucketSettings -> B * Result unit;
  drain_pending_writes : B -> B;
}.

(** The client of one peer's cache: [PeerCacheClient::replicate] and [sync_pull],
    with the state of the peer. *)
Class PeerCache (P : Type) : Type := {
  replicate_entry : P -> string -> string -> WriteCache.CacheEntry -> P * result string unit;
  sync_pull : P -> string -> P * result string (list (CacheKey * WriteCache.CacheEntry));
}.

(** The readings of the clocks at one operation. *)
Record Clock : Type := mkClock {
  now_secs : N;
  now_nanos : N;
  now_instant : N;
}.

(** ** Failures to tolerate *)

Definition ftt_to_ec (ftt num_disks : nat) : Result (nat * nat) :=
  if bool_decide (num_disks = 0) || bool_decide (num_disks <= ftt)
  then Err (InvalidConfig ("ftt " +:+ pretty ftt +:+ " requires at least " +:+ pretty (ftt + 1)
              +:+ " disks, have " +:+ pretty num_disks))
  else Ok (num_disks - ftt, ftt).

Definition default_ftt (num_disks : nat) : nat := Nat.min 1 (num_disks - 1).

Record PlacementTopology : Type := mkPlacementTopology {
  pt_epoch_id : N;
  pt_cluster_id : string;
  pt_disks : list PlacementVolume;
}.

Record ListOptions : Type := mkListOptions {
  lo_prefix : string;
  lo_delimiter : string;
  lo_start_after : string;
  lo_max_keys : nat;
  lo_continuation_token : string;
}.

Record ListResult : Type := mkListResult {
  lr_objects : list ObjectInfo;
  lr_common_prefixes : list string;
  lr_is_truncated : bool;
  lr_next_continuation_token : string;
}.

Record BucketInfo : Type := mkBucketInfo {
  bi_name : string;
  bi_created_at : N;
}.

Definition meta_to_info (bucket key : string) (meta : ObjectMeta) : ObjectInfo :=
  {| info_bucket := bucket; info_key := key; info_size := size meta; info_etag := etag meta;
     info_content_type := content_type meta; info_created_at := created_at meta;
     info_user_metadata := user_metadata meta; info_tags := tags meta;
     info_version_id := version_id meta; info_is_delete_marker := is_delete_marker meta |}.

(** The [ObjectInfo] the reads build from an entry of the write cache. *)
Definition cached_info (bucket key : string) (e : WriteCache.CacheEntry) : ObjectInfo :=
  {| info_bucket := bucket; info_key := key; info_size := WriteCache.original_size e;
     info_etag := WriteCache.we_etag e; info_content_type := WriteCache.we_content_type e;
     info_created_at := WriteCache.we_created_at e;
     info_user_metadata := WriteCache.we_user_metadata e; info_tags := WriteCache.we_tags e;
     info_version_id := ""; info_is_delete_marker := false |}.

Definition set_tags (t : gmap string string) (m : ObjectMeta) : ObjectMeta :=
  {| size := size m; etag := etag m; content_type := content_type m;
     created_at := created_at m; erasure := erasure m; checksum := checksum m;
     user_metadata := user_metadata m; tags := t; version_id := version_id m;
     is_latest := is_latest m; is_delete_marker := is_delete_marker m;
     parts := parts m; inline_data := inline_data m |}.

Definition set_versioning (v : option string) (s : BucketSettings) : BucketSettings :=
  mkBucketSettings v (bs_ftt s) (bs_tags s) (bs_policy s) (bs_lifecycle s).
Definition set_bs_ftt (f : option nat) (s : BucketSettings) : BucketSettings :=
  mkBucketSettings (bs_versioning s) f (bs_tags s) (bs_policy s) (bs_lifecycle s).

(** [settings == BucketSettings::default()] *)
Definition is_default_settings (s : BucketSettings) : bool :=
  match s with mkBucketSettings None None None None None => true | _ => false end.

(** [versions.iter_mut().find(|v| !v.is_delete_marker)] and the assignment of its
    tags; [None] when there is no such version. *)
Fixpoint tag_latest (t : gmap string string) (vs : list ObjectMeta) : option (list ObjectMeta) :=
  match vs with
  | [] => None
  | v :: vs => if is_delete_marker v then (v ::.) <$> tag_latest t vs else Some (set_tags t v :: vs)
  end.

(** [s.find(pat)] on bytes. *)
Fixpoint find_sub (pat s : bytes) : option nat :=
  if bool_decide (take (length pat) s = pat) then Some 0
  else match s with [] => None | _ :: s => S <$> find_sub pat s end.

(** [s.is_char_boundary(i)] on UTF-8 bytes. *)
Definition is_char_boundary (s : bytes) (i : nat) : bool :=
  bool_decide (i = length s) ||
  match s !! i with Some c => negb (in_range 128 191 c) | None => false end.

(** ** The pool and its operations *)

Record VolumePool (B P : Type) : Type := mkVolumePool {
  vp_disks : list B;
  vp_mrf : option MrfQueue;
  vp_placement : PlacementTopology;
  vp_write_cache : option WriteCache.WriteCache;
  vp_read_cache : option ReadCache.ReadCache;
  vp_local_node_id : string;
  vp_peers : list P;
}.
Arguments mkVolumePool {B P}.
Arguments vp_disks {B P}.
Arguments vp_mrf {B P}.
Arguments vp_placement {B P}.
Arguments vp_write_cache {B P}.
Arguments vp_read_cache {B P}.
Arguments vp_local_node_id {B P}.
Arguments vp_peers {B P}.

(** An operation of the pool: [None] is a panic. *)
Definition PoolM (B P A : Type) : Type := VolumePool B P -> option (VolumePool B P * Result A).

Section Monad.
  Context {B P : Type}.

Global Instance pool_ret : MRet (PoolM B P) := fun A a p => Some (p, Ok a).
Global Instance pool_bind : MBind (PoolM B P) := fun A C f m p =>
  match m p with
  | None => None
  | Some (p, Ok a) => f a p
  | Some (p, Err e) => Some (p, Err e)
  end.

(** [Result] values, indexing that may panic, reads and updates of the pool. *)
Definition lift {A : Type} (r : Result A) : PoolM B P A := fun p => Some (p, r).
Definition fail {A : Type} (e : StorageError) : PoolM B P A := lift (Err e).
Definition unwrap {A : Type} (o : option A) : PoolM B P A :=
  fun p => match o with Some a => Some (p, Ok a) | None => None end.
Definition gets {A : Type} (f : VolumePool B P -> A) : PoolM B P A := fun p => Some (p, Ok (f p)).
Definition modify (f : VolumePool B P -> VolumePool B P) : PoolM B P unit := fun p => Some (f p, Ok tt).

Definition set_disks (ds : list B) (p : VolumePool B P) : VolumePool B P :=
  mkVolumePool ds (vp_mrf p) (vp_placement p) (vp_write_cache p) (vp_read_cache p)
    (vp_local_node_id p) (vp_peers p).
Definition set_mrf (q : option MrfQueue) (p : VolumePool B P) : VolumePool B P :=
  mkVolumePool (vp_disks p) q (vp_placement p) (vp_write_cache p) (vp_read_cache p)
    (vp_local_node_id p) (vp_peers p).
Definition set_placement (t : PlacementTopology) (p : VolumePool B P) : VolumePool B P :=
  mkVolumePool (vp_disks p) (vp_mrf p) t (vp_write_cache p) (vp_read_cache p)
    (vp_local_node_id p) (vp_peers p).
Definition set_write_cache (c : option WriteCache.WriteCache) (p : VolumePool B P) : VolumePool B P :=
  mkVolumePool (vp_disks p) (vp_mrf p) (vp_placement p) c (vp_read_cache p)
    (vp_local_node_id p) (vp_peers p).
Definition set_read_cache (c : option ReadCache.ReadCache) (p : VolumePool B P) : VolumePool B P :=
  mkVolumePool (vp_disks p) (vp_mrf p) (vp_placement p) (vp_write_cache p) c
    (vp_local_node_id p) (vp_peers p).
Definition set_local_node_id (id : string) (p : VolumePool B P) : VolumePool B P :=
  mkVolumePool (vp_disks p) (vp_mrf p) (vp_placement p) (vp_write_cache p) (vp_read_cache p)
    id (vp_peers p).
Definition set_peer_cache_clients (ps : list P) (p : VolumePool B P) : VolumePool B P :=
  mkVolumePool (vp_disks p) (vp_mrf p) (vp_placement p) (vp_write_cache p) (vp_read_cache p)
    (vp_local_node_id p) ps.

(** [for disk in self.disks() { f(disk) }] *)
Definition each_disk {A : Type} (f : B -> B * A) : PoolM B P (list A) := fun p =>
  let rs := map f (vp_disks p) in Some (set_disks (map fst rs) p, Ok (map snd rs)).

(** The caches, where they are enabled. *)
Definition write_cache_get (b k : string) : PoolM B P (option WriteCache.CacheEntry) := fun p =>
  match vp_write_cache p with
  | None => Some (p, Ok None)
  | Some c => let r := WriteCache.get c b k in Some (set_write_cache (Some r.1) p, Ok r.2)
  end.
Definition read_cache_get (b k : string) : PoolM B P (option ReadCache.CacheEntry) := fun p =>
  match vp_read_cache p with
  | None => Some (p, Ok None)
  | Some c =>
      match ReadCache.get c b k with
      | (c, Some e) => Some (set_read_cache (Some c) p, Ok (Some e))
      | (c, None) => Some (set_read_cache (Some (ReadCache.record_miss c)) p, Ok None)
      end
  end.
Definition on_read_cache (f : ReadCache.ReadCache -> ReadCache.ReadCache) : PoolM B P unit :=
  modify (fun p => set_read_cache (f <$> vp_read_cache p) p).

Definition enable_write_cache (max_bytes : N) (p : VolumePool B P) : VolumePool B P :=
  set_write_cache (Some (WriteCache.new max_bytes)) p.
Definition enable_read_cache (max_bytes max_object_bytes : N) (p : VolumePool B P) : VolumePool B P :=
  if bool_decide (max_bytes = 0%N) then set_read_cache None p
  else set_read_cache (Some (ReadCache.new max_bytes max_object_bytes)) p.

End Monad.

Section Pool.
  Context `{Hashes} `{ReedSolomon} `{UuidParser} {B W P : Type} `{!Backend B W} `{!HealBackend B}
          `{!PoolBackend B} `{!PeerCache P}.
  Context (block : nat).
  Context (label : B -> string) (fs_read : Path -> option bytes) (part_meta_index : bytes -> option nat).

(** *** Construction and topology *)

Definition assign_volume_ids (disks : list B) : list B :=
  imap (fun i d => if bool_decide (info_volume_id d = "") then set_volume_id ("vol-" +:+ pretty i) d
                   else d) disks.

Definition pool_new (disks : list B) : Result (VolumePool B P) :=
  if bool_decide (length disks = 0) then Err (InvalidConfig "at least 1 disk is required")
  else
    let disks := assign_volume_ids disks in
    let placement_disks := imap (fun i d => mkPlacementVolume i "local" (info_volume_id d)) disks in
    Ok (mkVolumePool disks None (mkPlacementTopology 1 "local-set" placement_disks) None None "" []).

Definition set_placement_topology (epoch : N) (cluster : string) (disks : list PlacementVolume)
    : PoolM B P unit :=
  n ← gets (fun p => length (vp_disks p));
  if bool_decide (length disks <> n)
  then fail (InvalidConfig ("placement disk count mismatch: expected " +:+ pretty n +:+ ", got "
               +:+ pretty (length disks)))
  else modify (set_placement (mkPlacementTopology epoch cluster disks)).

Definition placement_planner (p : VolumePool B P) : PlacementPlanner :=
  mkPlacementPlanner (pt_epoch_id (vp_placement p)) (pt_cluster_id (vp_placement p))
    (pt_disks (vp_placement p)).

Fixpoint settings_ec (n : nat) (bucket : string) (disks : list B) : option (nat * nat) :=
  match disks with
  | [] => None
  | d :: disks =>
      match bs_ftt (read_bucket_settings d bucket) ≫= fun ftt => result_ok (ftt_to_ec ftt n) with
      | Some ec => Some ec
      | None => settings_ec n bucket disks
      end
  end.

Definition bucket_ec (p : VolumePool B P) (bucket : string) : nat * nat :=
  let n := length (vp_disks p) in
  match settings_ec n bucket (vp_disks p) with
  | Some ec => ec
  | None => default (1, 0) (result_ok (ftt_to_ec (default_ftt n) n))
  end.

Definition resolve_ec (bucket : string) (opts : PutOptions) : PoolM B P (nat * nat) :=
  match ec_ftt opts with
  | Some ftt => n ← gets (fun p => length (vp_disks p)); lift (ftt_to_ec ftt n)
  | None => gets (fun p => bucket_ec p bucket)
  end.

(** The first volume that knows the object. *)
Definition first_stat (b k : string) (disks : list B) : option ObjectMeta :=
  head (omap (fun d => result_ok (stat_object d b k)) disks).

Definition meta_ec (m : ObjectMeta) : nat * nat := (erasure_data (erasure m), erasure_parity (erasure m)).

Definition read_ec_from_meta (b k : string) : PoolM B P (option (nat * nat)) :=
  e ← write_cache_get b k;
  match e ≫= (fun e => head (WriteCache.metas e)) with
  | Some m => mret (Some (meta_ec m))
  | None => gets (fun p => meta_ec <$> first_stat b k (vp_disks p))
  end.

(** [match self.read_ec_from_meta(..) { Some(ec) => ec, None => self.bucket_ec(..) }] *)
Definition object_ec (b k : string) : PoolM B P (nat * nat) :=
  ec ← read_ec_from_meta b k;
  match ec with Some ec => mret ec | None => gets (fun p => bucket_ec p b) end.

Definition head_bucket (bucket : string) : PoolM B P bool :=
  _ ← lift (validate_bucket_name bucket);
  gets (fun p => bool_decide (1 <= length (List.filter (fun d => bucket_exists d bucket) (vp_disks p)))).

Definition require_bucket (bucket : string) : PoolM B P unit :=
  there ← head_bucket bucket;
  if (there : bool) then mret tt else fail BucketNotFound.

(** *** PUT *)

Definition LOG_THRESHOLD : N := 64 * 1024.

Definition default_content_type (opts : PutOptions) : string :=
  if bool_decide (opt_content_type opts = "") then "application/octet-stream" else opt_content_type opts.

Definition small_etag (opts : PutOptions) (data : bytes) : string :=
  if skip_md5 opts then hex16 (xxh64 data) +:+ hex16 (as_u64 (N.of_nat (length data))) else md5_hex data.

(** The shards of a small object; with one data shard and no parity the data is
    the shard. *)
Definition small_shards (dn pn : nat) (data : bytes) : PoolM B P (list bytes) :=
  if bool_decide (dn = 1) && bool_decide (pn = 0) then mret [data]
  else
    let shards := split_data data dn in
    if bool_decide (0 < pn) then
      s0 ← unwrap (shards !! 0);
      if rs_new_ok dn pn
      then lift (ok_or (rs_encode dn pn (shards ++ replicate pn (replicate (length s0) zero_byte)))
                       (InvalidConfig "rs encode"))
      else fail (InvalidConfig "rs")
    else mret shards.

Definition small_meta (opts : PutOptions) (data : bytes) (pn : nat) (now : N) (r : PlacementRecord)
    (idx : nat) (shard : bytes) : ObjectMeta :=
  {| size := as_u64 (N.of_nat (length data)); etag := small_etag opts data;
     content_type := default_content_type opts; created_at := now;
     erasure := {| ftt := pn; index := idx; epoch_id := pr_epoch_id r;
                   volume_ids := map ps_volume_id (pr_shards r) |};
     checksum := blake3_hex shard; user_metadata := opt_user_metadata opts; tags := opt_tags opts;
     version_id := ""; is_latest := true; is_delete_marker := false; parts := [];
     inline_data := None |}.

Definition small_info (bucket key : string) (opts : PutOptions) (data : bytes) (now : N) : ObjectInfo :=
  {| info_bucket := bucket; info_key := key; info_size := as_u64 (N.of_nat (length data));
     info_etag := small_etag opts data; info_content_type := default_content_type opts;
     info_created_at := now; info_user_metadata := opt_user_metadata opts; info_tags := opt_tags opts;
     info_version_id := ""; info_is_delete_marker := false |}.

(** The loop over [0..total], which counts the volumes that took their shard. *)
Fixpoint write_small (disks : list B) (b k : string) (dist : list nat) (shards : list bytes)
    (metas : list ObjectMeta) (successes : nat) : option (list B * nat) :=
  match shards, metas with
  | s :: shards, m :: metas =>
      match dist with
      | [] => None
      | i :: dist =>
          d ← disks !! i;
          let r := write_shard d b k s m in
          write_small (<[i := r.1]> disks) b k dist shards metas
            (if is_ok r.2 then S successes else successes)
      end
  | _, _ => Some (disks, successes)
  end.

(** Ask the first peer to hold a replica; without peers there is nothing to ask. *)
Definition replicate_first (b k : string) (e : WriteCache.CacheEntry) : PoolM B P bool := fun p =>
  match vp_peers p with
  | [] => Some (p, Ok true)
  | peer :: rest =>
      let r := replicate_entry peer b k e in
      Some (set_peer_cache_clients (r.1 :: rest) p, Ok (is_ok r.2))
  end.

Definition write_cache_insert (b k : string) (e : WriteCache.CacheEntry) : PoolM B P bool := fun p =>
  match vp_write_cache p with
  | None => Some (p, Ok false)
  | Some c => let r := WriteCache.insert c b k e in Some (set_write_cache (Some r.1) p, Ok r.2)
  end.

(** The write cache takes the entry, unless it is off or full or the peer refused. *)
Definition cache_small (b k : string) (mk : string -> WriteCache.CacheEntry) : PoolM B P bool :=
  wc ← gets vp_write_cache;
  match wc with
  | None => mret false
  | Some _ =>
      node ← gets vp_local_node_id;
      peer_ok ← replicate_first b k (mk node);
      if (peer_ok : bool) then write_cache_insert b k (mk node) else mret false
  end.

Definition warm_read_cache (b k : string) (data : bytes) (info : ObjectInfo) : PoolM B P unit :=
  on_read_cache (fun c =>
    if bool_decide (N.of_nat (length data) <= ReadCache.max_object_bytes c)%N
    then ReadCache.put c b k (ReadCache.mkCacheEntry data info) else c).

(** A small object once encoded and placed. *)
Record SmallPut : Type := mkSmallPut {
  sp_dn : nat;
  sp_pn : nat;
  sp_dist : list nat;
  sp_shards : list bytes;
  sp_metas : list ObjectMeta;
}.

Definition encode_small (bucket key : string) (data : bytes) (opts : PutOptions) (t : Clock)
    : PoolM B P SmallPut :=
  ec ← resolve_ec bucket opts;
  shards ← small_shards ec.1 ec.2 data;
  planner ← gets placement_planner;
  placement ← lift (map_err InvalidConfig (plan planner bucket key ec.1 ec.2));
  mret {| sp_dn := ec.1; sp_pn := ec.2; sp_dist := map ps_backend_index (pr_shards placement);
          sp_shards := shards;
          sp_metas := imap (small_meta opts data ec.2 (now_secs t) placement) shards |}.

Definition small_entry (s : SmallPut) (data : bytes) (opts : PutOptions) (t : Clock) (node : string)
    : WriteCache.CacheEntry :=
  WriteCache.mkCacheEntry (sp_shards s) (sp_metas s) (sp_dist s) (as_u64 (N.of_nat (length data)))
    (default_content_type opts) (small_etag opts data) (now_secs t) (opt_user_metadata opts)
    (opt_tags opts) (now_nanos t) (now_instant t) node.

(** Encode, warm the read cache and offer the object to the write cache. *)
Definition stage_small (bucket key : string) (data : bytes) (opts : PutOptions) (t : Clock)
    : PoolM B P (SmallPut * bool) :=
  s ← encode_small bucket key data opts t;
  warm_read_cache bucket key data (small_info bucket key opts data (now_secs t));;
  cached ← cache_small bucket key (small_entry s data opts t);
  mret (s, cached).

Definition put_small (bucket key : string) (items : list (Result bytes)) (opts : PutOptions) (t : Clock)
    : PoolM B P ObjectInfo :=
  chunks ← lift (body_items items);
  let data := concat chunks in
  let info := small_info bucket key opts data (now_secs t) in
  st ← stage_small bucket key data opts t;
  if (st.2 : bool) then mret info
  else
    disks ← gets vp_disks;
    r ← unwrap (write_small disks bucket key (sp_dist st.1) (sp_shards st.1) (sp_metas st.1) 0);
    modify (set_disks r.1);;
    if bool_decide (r.2 < write_quorum (sp_dn st.1) (sp_pn st.1)) then fail WriteQuorum else mret info.

(** The effects of an encode on the pool: the volumes, and the repair queue when
    the object was queued. *)
Definition run_encode (bucket key : string)
    (enc : list B -> PlacementPlanner -> bool -> option PutOutcome) : PoolM B P ObjectInfo := fun p =>
  match enc (vp_disks p) (placement_planner p) (bool_decide (is_Some (vp_mrf p))) with
  | None => None
  | Some o =>
      let q := if po_mrf o then (fun q => (enqueue q (mkMrfEntry bucket key)).1) <$> vp_mrf p
               else vp_mrf p in
      Some (set_mrf q (set_disks (po_disks o) p), po_result o)
  end.

Definition invalidate_read (b k : string) : PoolM B P unit :=
  on_read_cache (fun c => ReadCache.invalidate c b k).

Definition put_streaming (bucket key : string) (items : list (Result bytes)) (opts : PutOptions)
    (vid : option string) (content_length : option nat) (t : Clock) : PoolM B P ObjectInfo :=
  ec ← resolve_ec bucket opts;
  run_encode bucket key (fun disks planner mrf =>
    encode_and_write block disks planner ec.1 ec.2 bucket key items opts mrf vid content_length (now_secs t)).

Definition put_object_stream (bucket key : string) (items : list (Result bytes)) (opts : PutOptions)
    (vid : option string) (content_length : option nat) (t : Clock) : PoolM B P ObjectInfo :=
  lift (validate_bucket_name bucket);;
  lift (validate_object_key key);;
  lift (match vid with Some v => validate_version_id v | None => Ok tt end);;
  require_bucket bucket;;
  invalidate_read bucket key;;
  match vid, content_length with
  | None, Some len => if bool_decide (N.of_nat len <= LOG_THRESHOLD)%N then put_small bucket key items opts t
                      else put_streaming bucket key items opts vid content_length t
  | _, _ => put_streaming bucket key items opts vid content_length t
  end.

(** Run [m], then [after], and answer with the result of [m]. *)
Definition finally {A : Type} (m : PoolM B P A) (after : VolumePool B P -> VolumePool B P) : PoolM B P A :=
  fun p => r ← m p; Some (after r.1, r.2).

(** The body of [put_object] and of [put_object_versioned]: the cached bytes are
    dropped whether or not the write succeeded. *)
Definition put_bytes (bucket key : string) (data : bytes) (opts : PutOptions) (vid : option string)
    (t : Clock) : PoolM B P ObjectInfo :=
  ec ← resolve_ec bucket opts;
  finally
    (run_encode bucket key (fun disks planner mrf =>
       encode_and_write_bytes block disks planner ec.1 ec.2 bucket key data opts mrf vid (now_secs t)))
    (fun p => set_read_cache ((fun c => ReadCache.invalidate c bucket key) <$> vp_read_cache p) p).

Definition put_object (bucket key : string) (data : bytes) (opts : PutOptions) (t : Clock)
    : PoolM B P ObjectInfo :=
  lift (validate_bucket_name bucket);;
  lift (validate_object_key key);;
  require_bucket bucket;;
  put_bytes bucket key data opts None t.

Definition put_object_versioned (bucket key : string) (data : bytes) (opts : PutOptions) (vid : string)
    (t : Clock) : PoolM B P ObjectInfo :=
  lift (validate_bucket_name bucket);;
  lift (validate_object_key key);;
  lift (validate_version_id vid);;
  require_bucket bucket;;
  put_bytes bucket key data opts (Some vid) t.

(** *** GET and HEAD *)

(** [entry.shards.iter().take(data_n)] *)
Definition cached_data_shards (e : WriteCache.CacheEntry) : list bytes :=
  let dn := match head (WriteCache.metas e) with Some m => erasure_data (erasure m) | None => 1 end in
  take dn (WriteCache.shards e).

Definition cached_data (e : WriteCache.CacheEntry) : bytes :=
  take (N.to_nat (WriteCache.original_size e)) (concat (cached_data_shards e)).

(** [meta.version_id.is_empty() && !meta.is_delete_marker] *)
Definition plain_version (m : ObjectMeta) : bool :=
  bool_decide (version_id m = "") && negb (is_delete_marker m).

(** The metadata of the first volume that knows the object, if it is multipart. *)
Definition multipart_stat (bucket key : string) (disks : list B) : option ObjectMeta :=
  meta ← first_stat bucket key disks; if is_multipart meta then Some meta else None.

Definition remember (bucket key : string) (data : bytes) (meta : ObjectMeta) : PoolM B P unit :=
  on_read_cache (fun c =>
    if plain_version meta
    then ReadCache.put c bucket key (ReadCache.mkCacheEntry data (meta_to_info bucket key meta)) else c).

Definition get_from_disks (bucket key : string) : PoolM B P (bytes * ObjectInfo) :=
  disks ← gets vp_disks;
  match multipart_stat bucket key disks with
  | Some meta =>
      data ← lift (read_and_decode_multipart label fs_read part_meta_index disks bucket key meta);
      mret (data, meta_to_info bucket key meta)
  | None =>
      ec ← object_ec bucket key;
      r ← lift (read_and_decode disks ec.1 ec.2 bucket key);
      remember bucket key r.1 r.2;;
      mret (r.1, meta_to_info bucket key r.2)
  end.

Definition get_object (bucket key : string) : PoolM B P (bytes * ObjectInfo) :=
  lift (validate_bucket_name bucket);;
  lift (validate_object_key key);;
  require_bucket bucket;;
  cached ← write_cache_get bucket key;
  match cached with
  | Some e => mret (cached_data e, cached_info bucket key e)
  | None =>
      cached ← read_cache_get bucket key;
      match cached with
      | Some e => mret (ReadCache.data e, ReadCache.info e)
      | None => get_from_disks bucket key
      end
  end.

(** [(0..len).step_by(chunk_size)], each start giving the slice up to the next. *)
Definition slices (chunk_size : nat) (data : bytes) : list bytes :=
  map (fun i => sub_list (i * chunk_size) chunk_size data) (seq 0 (div_ceil (length data) chunk_size)).

Definition SLICE_BYTES : nat := N.to_nat (4 * 1024 * 1024).

(** [disk.mmap_shard] of the first volume that has the shard. *)
Definition first_mmap (bucket key : string) (disks : list B) : option (bytes * ObjectMeta) :=
  head (omap (fun d => result_ok (mmap_shard d bucket key)) disks).

Definition stream_from_disks (bucket key : string) : PoolM B P (ObjectInfo * list (Result bytes)) :=
  disks ← gets vp_disks;
  match multipart_stat bucket key disks with
  | Some meta =>
      data ← lift (read_and_decode_multipart label fs_read part_meta_index disks bucket key meta);
      mret (meta_to_info bucket key meta, [Ok data])
  | None =>
      ec ← object_ec bucket key;
      if bool_decide (ec.1 = 1) && bool_decide (ec.2 = 0) then
        match first_mmap bucket key disks with
        | Some (data, meta) =>
            on_read_cache (fun c =>
              if plain_version meta && bool_decide (N.of_nat (length data) <= ReadCache.max_object_bytes c)%N
              then ReadCache.put c bucket key (ReadCache.mkCacheEntry data (meta_to_info bucket key meta))
              else c);;
            mret (meta_to_info bucket key meta, map Ok (slices SLICE_BYTES data))
        | None => fail ObjectNotFound
        end
      else
        r ← lift (read_and_decode_stream block disks ec.1 ec.2 bucket key);
        mret (meta_to_info bucket key r.1, r.2)
  end.

Definition get_object_stream (bucket key : string) : PoolM B P (ObjectInfo * list (Result bytes)) :=
  lift (validate_bucket_name bucket);;
  lift (validate_object_key key);;
  require_bucket bucket;;
  cached ← write_cache_get bucket key;
  match cached with
  | Some e => mret (cached_info bucket key e, map Ok (cached_data_shards e))
  | None =>
      cached ← read_cache_get bucket key;
      match cached with
      | Some e => mret (ReadCache.info e, [Ok (ReadCache.data e)])
      | None => stream_from_disks bucket key
      end
  end.

Definition head_object (bucket key : string) : PoolM B P ObjectInfo :=
  lift (validate_bucket_name bucket);;
  lift (validate_object_key key);;
  require_bucket bucket;;
  cached ← write_cache_get bucket key;
  match cached with
  | Some e => mret (cached_info bucket key e)
  | None =>
      stat ← gets (fun p => first_stat bucket key (vp_disks p));
      lift (meta_to_info bucket key <$> ok_or stat ObjectNotFound)
  end.

(** *** DELETE *)

Definition write_cache_remove (b k : string) : PoolM B P bool := fun p =>
  match vp_write_cache p with
  | None => Some (p, Ok false)
  | Some c => let r := WriteCache.remove c b k in
              Some (set_write_cache (Some r.1) p, Ok (bool_decide (is_Some r.2)))
  end.

(** A delete counts as a success where the object is gone, also when it was not there. *)
Definition delete_counts (r : Result unit) : bool :=
  match r with Ok _ | Err ObjectNotFound => true | Err _ => false end.

Definition pool_delete_object (bucket key : string) : PoolM B P unit :=
  lift (validate_bucket_name bucket);;
  lift (validate_object_key key);;
  was_cached ← write_cache_remove bucket key;
  invalidate_read bucket key;;
  ec ← object_ec bucket key;
  rs ← each_disk (fun d => delete_object d bucket key);
  let successes := length (List.filter delete_counts rs) in
  let found := existsb is_ok rs in
  if negb found && negb was_cached then fail ObjectNotFound
  else if was_cached && negb found then mret tt
  else if bool_decide (successes < write_quorum ec.1 ec.2) then fail WriteQuorum
  else mret tt.

(** *** Buckets *)

(** [ftt] of a bucket is written into the settings of each volume. *)
Definition update_settings (bucket : string) (f : BucketSettings -> BucketSettings) : PoolM B P unit :=
  rs ← each_disk (fun d => write_bucket_settings d bucket (f (read_bucket_settings d bucket)));
  if bool_decide (length (List.filter is_ok rs) = 0) then fail WriteQuorum else mret tt.

Definition set_ftt (bucket : string) (f : nat) : PoolM B P unit :=
  lift (validate_bucket_name bucket);;
  require_bucket bucket;;
  n ← gets (fun p => length (vp_disks p));
  lift (ftt_to_ec f n);;
  update_settings bucket (set_bs_ftt (Some f)).

(** [if let Ok(a) = m.await] and [let _ = m.await]. *)
Definition attempt {A : Type} (m : PoolM B P A) : PoolM B P (option A) := fun p =>
  r ← m p; Some (r.1, Ok (result_ok r.2)).

Definition pool_make_bucket (bucket : string) : PoolM B P unit :=
  lift (validate_bucket_name bucket);;
  there ← gets (fun p => existsb (fun d => bucket_exists d bucket) (vp_disks p));
  if (there : bool) then fail BucketExists
  else
    rs ← each_disk (fun d => disk_make_bucket d bucket);
    if bool_decide (length (List.filter is_ok rs) = 0) then fail WriteQuorum
    else
      n ← gets (fun p => length (vp_disks p));
      attempt (set_ftt bucket (default_ftt n));;
      mret tt.

Definition pool_delete_bucket (bucket : string) : PoolM B P unit :=
  lift (validate_bucket_name bucket);;
  require_bucket bucket;;
  cached ← gets (fun p => match vp_write_cache p with
                          | Some c => WriteCache.list_keys c bucket ""
                          | None => []
                          end);
  if negb (bool_decide (cached = [])) then fail BucketNotEmpty
  else
    disks ← gets vp_disks;
    if existsb (fun d => match list_objects d bucket "" with
                         | Ok (_ :: _) => true
                         | _ => false
                         end) disks
    then fail BucketNotEmpty
    else
      each_disk (fun d => disk_delete_bucket d bucket);;
      on_read_cache (fun c => ReadCache.invalidate_bucket c bucket).

(** The names on the first volume that lists its buckets. *)
Definition pool_list_buckets (p : VolumePool B P) : list BucketInfo :=
  default [] (head (omap (fun d =>
    names ← result_ok (list_buckets d);
    Some (map (fun name => mkBucketInfo name (bucket_created_at d name)) names)) (vp_disks p))).

(** *** Listing *)

Definition first_listing (bucket prefix : string) (disks : list B) : list string :=
  default [] (head (omap (fun d => result_ok (list_objects d bucket prefix)) disks)).

(** [for k in cached { if !keys.contains(&k) { keys.push(k) } } keys.sort()] *)
Definition merge_keys (keys cached : list string) : list string :=
  merge_sort str_le (fold_left (fun ks k => if bool_decide (k ∈ ks) then ks else ks ++ [k]) cached keys).

Definition all_keys (bucket prefix : string) (p : VolumePool B P) : list string :=
  let keys := first_listing bucket prefix (vp_disks p) in
  match vp_write_cache p with
  | Some c => merge_keys keys (WriteCache.list_keys c bucket prefix)
  | None => keys
  end.

Fixpoint list_plain (bucket : string) (keys : list string) (objects : list ObjectInfo)
    : PoolM B P (list ObjectInfo) :=
  match keys with
  | [] => mret objects
  | key :: keys =>
      info ← attempt (head_object bucket key);
      list_plain bucket keys (objects ++ option_list info)
  end.

(** [&key[prefix.len()..]] and [&after_prefix[..=pos]] panic off a character boundary. *)
Fixpoint list_grouped (bucket prefix delimiter : string) (keys : list string)
    (objects : list ObjectInfo) (prefixes : list string) : PoolM B P (list ObjectInfo * list string) :=
  match keys with
  | [] => mret (objects, prefixes)
  | key :: keys =>
      let n := String.length prefix in
      unwrap (if is_char_boundary (bytes_of key) n then Some tt else None);;
      let after_prefix := drop n (bytes_of key) in
      match find_sub (bytes_of delimiter) after_prefix with
      | Some pos =>
          unwrap (if is_char_boundary after_prefix (S pos) then Some tt else None);;
          let cp := prefix +:+ string_of (take (S pos) after_prefix) in
          list_grouped bucket prefix delimiter keys objects
            (if bool_decide (cp ∈ prefixes) then prefixes else prefixes ++ [cp])
      | None =>
          info ← attempt (head_object bucket key);
          list_grouped bucket prefix delimiter keys (objects ++ option_list info) prefixes
      end
  end.

Definition pool_list_objects (bucket : string) (opts : ListOptions) : PoolM B P ListResult :=
  lift (validate_bucket_name bucket);;
  lift (validate_object_prefix (lo_prefix opts));;
  require_bucket bucket;;
  keys ← gets (all_keys bucket (lo_prefix opts));
  r ← (if bool_decide (lo_delimiter opts = "")
       then objects ← list_plain bucket keys []; mret (objects, [])
       else list_grouped bucket (lo_prefix opts) (lo_delimiter opts) keys [] []);
  let max_keys := if bool_decide (lo_max_keys opts = 0) then N.to_nat 1000 else lo_max_keys opts in
  mret {| lr_objects := r.1; lr_common_prefixes := r.2;
          lr_is_truncated := bool_decide (max_keys < length r.1 + length r.2);
          lr_next_continuation_token := "" |}.

(** *** Tags *)

Definition get_object_tags (bucket key : string) : PoolM B P (gmap string string) :=
  lift (validate_bucket_name bucket);;
  lift (validate_object_key key);;
  require_bucket bucket;;
  stat ← gets (fun p => first_stat bucket key (vp_disks p));
  lift (tags <$> ok_or stat ObjectNotFound).

(** One volume: no live version ([None]), or the result of the rewrite. *)
Definition tag_on_disk (bucket key : string) (t : gmap string string) (d : B) : B * option (Result unit) :=
  match tag_latest t (default [] (result_ok (read_meta_versions d bucket key))) with
  | None => (d, None)
  | Some vs => let r := write_meta_versions d bucket key vs in (r.1, Some r.2)
  end.

Definition put_object_tags (bucket key : string) (t : gmap string string) : PoolM B P unit :=
  lift (validate_bucket_name bucket);;
  lift (validate_object_key key);;
  require_bucket bucket;;
  ec ← object_ec bucket key;
  rs ← each_disk (tag_on_disk bucket key t);
  let written := omap id rs in
  if bool_decide (written = []) then fail ObjectNotFound
  else if bool_decide (length (List.filter is_ok written) < write_quorum ec.1 ec.2) then fail WriteQuorum
  else mret tt.

Definition delete_object_tags (bucket key : string) : PoolM B P unit := put_object_tags bucket key ∅.

(** *** Versions *)

Definition get_object_version (bucket key vid : string) : PoolM B P (bytes * ObjectInfo) :=
  lift (validate_bucket_name bucket);;
  lift (validate_object_key key);;
  lift (validate_version_id vid);;
  require_bucket bucket;;
  ec ← object_ec bucket key;
  disks ← gets vp_disks;
  r ← lift (read_and_decode_versioned disks ec.1 ec.2 bucket key vid);
  mret (r.1, meta_to_info bucket key r.2).

Definition delete_object_version (bucket key vid : string) : PoolM B P unit :=
  lift (validate_bucket_name bucket);;
  lift (validate_object_key key);;
  lift (validate_version_id vid);;
  require_bucket bucket;;
  each_disk (fun d => delete_version_data d bucket key vid);;
  invalidate_read bucket key.

Definition delete_marker (vid : string) (now : N) : ObjectMeta :=
  {| size := 0; etag := ""; content_type := ""; created_at := now;
     erasure := {| ftt := 0; index := 0; epoch_id := 0; volume_ids := [] |}; checksum := "";
     user_metadata := ∅; tags := ∅; version_id := vid; is_latest := true; is_delete_marker := true;
     parts := []; inline_data := None |}.

(** [vid] is the UUID the source draws. *)
Definition add_delete_marker (bucket key vid : string) (t : Clock) : PoolM B P ObjectInfo :=
  lift (validate_bucket_name bucket);;
  lift (validate_object_key key);;
  require_bucket bucket;;
  let marker := delete_marker vid (now_secs t) in
  each_disk (fun d =>
    let vs := default [] (result_ok (read_meta_versions d bucket key)) in
    write_meta_versions d bucket key (marker :: map (set_is_latest false) vs));;
  invalidate_read bucket key;;
  mret {| info_bucket := bucket; info_key := key; info_size := 0; info_etag := "";
          info_content_type := ""; info_created_at := now_secs t; info_user_metadata := ∅;
          info_tags := ∅; info_version_id := vid; info_is_delete_marker := true |}.

(** The versions of a key on the first volume that has any. *)
Definition first_versions (bucket key : string) (disks : list B) : option (list ObjectMeta) :=
  head (omap (fun d => match read_meta_versions d bucket key with
                       | Ok (v :: vs) => Some (v :: vs)
                       | _ => None
                       end) disks).

Definition list_object_versions (bucket prefix : string) : PoolM B P (list (string * list ObjectMeta)) :=
  lift (validate_bucket_name bucket);;
  lift (validate_object_prefix prefix);;
  require_bucket bucket;;
  gets (fun p => omap (fun key => (key,.) <$> first_versions bucket key (vp_disks p))
                   (first_listing bucket prefix (vp_disks p))).

(** *** Bucket settings *)

Definition get_versioning_config (bucket : string) : PoolM B P (option string) :=
  lift (validate_bucket_name bucket);;
  require_bucket bucket;;
  gets (fun p => head (omap (fun d => bs_versioning (read_bucket_settings d bucket)) (vp_disks p))).

Definition set_versioning_config (bucket status : string) : PoolM B P unit :=
  lift (validate_bucket_name bucket);;
  require_bucket bucket;;
  update_settings bucket (set_versioning (Some status)).

Definition get_ftt (bucket : string) : PoolM B P (option nat) :=
  lift (validate_bucket_name bucket);;
  require_bucket bucket;;
  gets (fun p => head (omap (fun d => bs_ftt (read_bucket_settings d bucket)) (vp_disks p))).

Definition get_bucket_settings (bucket : string) : PoolM B P BucketSettings :=
  lift (validate_bucket_name bucket);;
  require_bucket bucket;;
  gets (fun p => default default_settings
    (List.find (fun s => negb (is_default_settings s)) (map (fun d => read_bucket_settings d bucket) (vp_disks p)))).

Definition set_bucket_settings (bucket : string) (s : BucketSettings) : PoolM B P unit :=
  lift (validate_bucket_name bucket);;
  require_bucket bucket;;
  update_settings bucket (fun _ => s).

(** *** Destaging the write cache *)

(** One entry: each shard with a volume and metadata is written, results ignored. *)
Fixpoint flush_shards (disks : list B) (b k : string) (dist : list nat) (shards : list bytes)
    (metas : list ObjectMeta) : option (list B) :=
  match shards, dist, metas with
  | s :: shards, i :: dist, m :: metas =>
      d ← disks !! i;
      flush_shards (<[i := (write_shard d b k s m).1]> disks) b k dist shards metas
  | _, _, _ => Some disks
  end.

Fixpoint flush_entries (disks : list B) (es : list (CacheKey * WriteCache.CacheEntry)) : option (list B) :=
  match es with
  | [] => Some disks
  | (k, e) :: es =>
      disks ← flush_shards disks k.1 k.2 (WriteCache.distribution e) (WriteCache.shards e)
                (WriteCache.metas e);
      flush_entries disks es
  end.

Definition flush_older_than (age : N) (t : Clock) : PoolM B P unit := fun p =>
  match vp_write_cache p with
  | None => Some (p, Ok tt)
  | Some c =>
      let r := WriteCache.drain_primary_older_than c (vp_local_node_id p) age (now_instant t) in
      disks ← flush_entries (vp_disks p) r.2;
      Some (set_disks disks (set_write_cache (Some r.1) p), Ok tt)
  end.

Definition flush_write_cache (t : Clock) : PoolM B P unit := flush_older_than 0 t.

Definition shutdown (t : Clock) : PoolM B P unit :=
  attempt (flush_write_cache t);;
  each_disk (fun d => (drain_pending_writes d, tt));;
  mret tt.

Definition set_cached_at (i : N) (e : WriteCache.CacheEntry) : WriteCache.CacheEntry :=
  WriteCache.mkCacheEntry (WriteCache.shards e) (WriteCache.metas e) (WriteCache.distribution e)
    (WriteCache.original_size e) (WriteCache.we_content_type e) (WriteCache.we_etag e)
    (WriteCache.we_created_at e) (WriteCache.we_user_metadata e) (WriteCache.we_tags e)
    (WriteCache.cached_at_unix_nanos e) i (WriteCache.primary_node_id e).

Definition insert_pulled (t : Clock) (c : WriteCache.WriteCache)
    (e : CacheKey * WriteCache.CacheEntry) : WriteCache.WriteCache :=
  (WriteCache.insert c e.1.1 e.1.2 (set_cached_at (now_instant t) e.2)).1.

Fixpoint pull_peers (node : string) (t : Clock) (peers : list P) (c : WriteCache.WriteCache)
    : list P * WriteCache.WriteCache :=
  match peers with
  | [] => ([], c)
  | peer :: peers =>
      let r := sync_pull peer node in
      let c := match r.2 with Ok es => fold_left (insert_pulled t) es c | Err _ => c end in
      let rest := pull_peers node t peers c in
      (r.1 :: rest.1, rest.2)
  end.

Definition recover_cache_from_peers (t : Clock) (p : VolumePool B P) : VolumePool B P :=
  match vp_write_cache p with
  | None => p
  | Some c =>
      if bool_decide (vp_local_node_id p = "") || bool_decide (length (vp_peers p) = 0) then p
      else
        let r := pull_peers (vp_local_node_id p) t (vp_peers p) c in
        set_write_cache (Some r.2) (set_peer_cache_clients r.1 p)
  end.

End Pool.
