(* ===== verification/PoolSpec.v ===== *)
(** The volume pool as a map: what its volumes promise, the invariant that ties the
    two caches and the volumes together, and the theorems about the pool's
    operations. *)

From Stdlib Require Import Ascii.
From stdpp Require Import base list gmap strings numbers pretty sorting.
From S2P Require Import Prelude Metadata Pathing Placement Erasure Backend ErasureDecode ErasurePut.
From S2P Require Import Caches Heal RaftFsm VolumePool.

(** ** What the pool relies on *)

(** The objects that a pool is used for: [named b k] says whether the key [k] of the
    bucket [b] is one of them.  A volume that keeps objects in a tree of directories
    cannot keep one below another, and what the volumes promise below is promised for
    the names in use only ([LocalBackend] says which names the repository's own volume
    can serve). *)
Class ObjectNames : Type := named : string -> string -> bool.

Section Frame.
  Context `{ObjectNames} {B W : Type} `{!Backend B W} `{!HealBackend B} `{!PoolBackend B}.

(** [d'] is [d] with another shard of one object. *)
Record only_changes (b k : string) (d d' : B) : Prop := {
  oc_read : forall b' k', named b' k' = true -> (b', k') <> (b, k) -> read_shard d' b' k' = read_shard d b' k';
  oc_bucket : forall b', bucket_exists d' b' = bucket_exists d b';
  oc_settings : forall b', read_bucket_settings d' b' = read_bucket_settings d b';
}.

Global Instance only_changes_refl b k : Reflexive (only_changes b k).
Proof. by constructor. Qed.

Global Instance only_changes_trans b k : Transitive (only_changes b k).
Proof.
  intros d1 d2 d3 [H1 H2 H3] [H4 H5 H6]. constructor; intros.
  - by rewrite H4, H1.
  - by rewrite H5, H2.
  - by rewrite H6, H3.
Qed.

End Frame.

(** A volume in good order accepts a shard of a named object and reads it back, reports
    in [stat] what it reads, deletes what it has and lists the named objects in order. *)
Class PoolBackendOk (B W : Type) `{ObjectNames} `{Backend B W} `{!HealBackend B} `{!PoolBackend B} : Type := {
  good : B -> Prop;
  write_shard_good : forall d b k s m, good d -> named b k = true -> plain_meta m -> exists d',
    write_shard d b k s m = (d', Ok tt) /\ good d' /\ only_changes b k d d' /\
    read_shard d' b k = Ok (s, m);
  stat_good : forall d b k, good d -> named b k = true ->
    result_ok (stat_object d b k) = snd <$> result_ok (read_shard d b k);
  delete_good : forall d b k, good d -> named b k = true -> exists d',
    delete_object d b k = (d', if is_ok (read_shard d b k) then Ok tt else Err ObjectNotFound) /\
    good d' /\ only_changes b k d d' /\ is_ok (read_shard d' b k) = false;
  list_good : forall d b prefix, good d -> validate_object_prefix prefix = Ok tt ->
    match list_objects d b prefix with
    | Ok ks => Sorted str_le ks /\ NoDup ks /\
        forall k, k ∈ ks <-> named b k = true /\ is_ok (read_shard d b k) = true /\ starts_with prefix k = true
    | Err _ => bucket_exists d b = false
    end;
}.

(** ** The read cache *)

Section ReadEntries.
  Import ReadCache.

Lemma elem_of_lru_remove k l x : x ∈ lru_remove k l -> x ∈ l /\ x.1 <> k.
Proof.
  unfold lru_remove. intros [Hx Hk]%list_elem_of_In%filter_In. split; [by apply list_elem_of_In|].
  intros E. rewrite bool_decide_eq_true_2 in Hk by done. done.
Qed.

Lemma evict_suffix l n max : exists dropped, l = dropped ++ (evict l n max).1.
Proof.
  revert n. induction l as [|[k e] l IH]; intros n; cbn; [case_bool_decide; by exists []|].
  case_bool_decide; [|by exists []]. destruct (IH (u64_sat_sub n (mem_size e))) as [d Hd].
  exists ((k, e) :: d). by rewrite Hd at 1.
Qed.

Lemma elem_of_pop k c x : x ∈ lru (pop k c) -> x ∈ lru c /\ x.1 <> k.
Proof. rewrite pop_lru. apply elem_of_lru_remove. Qed.

Lemma elem_of_put c b k e x : x ∈ lru (put c b k e) -> x = ((b, k), e) \/ x ∈ lru c.
Proof.
  unfold put. destruct (_ || _); [by right|].
  set (l := _ :: lru (pop (b, k) c)). set (n := as_u64 _). set (mx := max_bytes _).
  destruct (evict_suffix (rev l) n mx) as [d Hd]. cbn [lru set_lru].
  intros Hx%list_elem_of_In%in_rev%list_elem_of_In.
  assert (Hx' : x ∈ rev l) by (rewrite Hd; set_solver).
  apply list_elem_of_In, in_rev, list_elem_of_In in Hx'. subst l.
  apply elem_of_cons in Hx' as [->|Hx']; [by left|]. right. by apply elem_of_pop in Hx' as [? _].
Qed.

Lemma get_found c b k c' e : get c b k = (c', Some e) ->
  ((b, k), e) ∈ lru c /\ forall x, x ∈ lru c' -> x ∈ lru c.
Proof.
  unfold get. destruct (lru_find (b, k) (lru c)) as [e'|] eqn:E; [|done]. intros [= <- <-].
  apply lru_find_Some in E. split; [done|]. cbn. intros x [->|Hx]%elem_of_cons; [done|].
  by apply elem_of_lru_remove in Hx as [? _].
Qed.

Lemma get_missed c b k c' : get c b k = (c', None) -> c' = c.
Proof. unfold get. by destruct (lru_find _ _); intros [= <-]. Qed.

End ReadEntries.

(** ** Stripes *)

Section Stripes.
  Context `{Hashes} `{ReedSolomon} `{!ReedSolomonOk} {B W : Type} `{!ObjectNames} `{!Backend B W} `{!HealBackend B}
          `{!PoolBackend B} `{!PoolBackendOk B W}.

(** Any [dn] of the shards give the data back, and so do the first [dn]. *)
Record codes (dn pn : nat) (data : bytes) (shards : list bytes) : Prop := {
  codes_length : length shards = dn + pn;
  codes_rebuild : forall slots, erased shards slots -> dn <= good_count slots ->
    rebuild dn pn slots (length data) = Ok data;
  codes_join : take (length data) (concat (take dn shards)) = data;
  codes_block : if bool_decide (dn = 1) && bool_decide (pn = 0) then shards = [data] else coded dn pn data shards;
}.

(** The shards of an object spread over all of [n] volumes. *)
Record striped (n : nat) (c : PutContext) (dn pn : nat) (data : bytes) (dist : list nat)
    (shards : list bytes) : Prop := {
  st_pos : 0 < dn;
  st_total : dn + pn = n;
  st_volumes : length (pc_volume_ids c) = n;
  st_version : pc_version_id c = None;
  st_dist : dist ≡ₚ seq 0 n;
  st_codes : codes dn pn data shards;
  st_width : (N.of_nat (length data) < 2 ^ 64)%N;
}.

(** No volume has a shard of the object. *)
Definition unreadable (disks : list B) (b k : string) : Prop :=
  forall j d, disks !! j = Some d -> is_ok (read_shard d b k) = false.

Definition disks_hold (disks : list B) (b k : string) (v : option (bytes * ObjectInfo)) : Prop :=
  match v with
  | None => unreadable disks b k
  | Some (data, info) => exists c dn pn dist shards,
      striped (length disks) c dn pn data dist shards /\ pc_bucket c = b /\ pc_key c = k /\
      info = object_info c data /\ placed c pn (dn + pn) data dist shards disks
  end.

Lemma small_codes dn pn data :
  0 < dn -> (0 < pn -> rs_new_ok dn pn = true) -> forall {P} (p : VolumePool B P),
  exists shards, small_shards dn pn data p = Some (p, Ok shards) /\ codes dn pn data shards.
Proof.
  intros Hdn Hrs P p. unfold small_shards. destruct (bool_decide (dn = 1) && bool_decide (pn = 0)) eqn:E.
  - apply andb_true_iff in E as [->%bool_decide_eq_true ->%bool_decide_eq_true].
    exists [data]. split; [done|]. constructor; [done| | |].
    + intros slots Her Hg. unfold rebuild. cbn [bool_decide andb mbind result_bind].
      rewrite bool_decide_eq_false_2 by lia. cbn [andb mbind result_bind].
      rewrite (erased_all [data] slots) by (done || (simpl; lia)). cbn. by rewrite app_nil_r, firstn_all.
    + cbn. by rewrite app_nil_r, firstn_all.
    + done.
  - destruct (block_shards_coded dn pn Hdn Hrs data (replicate (dn + pn) [])) as (shards & _ & Hc);
      [by rewrite length_replicate|].
    assert (Hcodes : codes dn pn data shards).
    { constructor; [apply Hc|intros slots; by apply (rebuild_block dn pn Hdn Hrs data shards)|..].
      - rewrite (coded_data _ _ _ _ Hc). by apply split_join.
      - by rewrite E. }
    exists shards. split; [|done]. clear E. case_bool_decide as Hpn.
    + destruct (split_data data dn) as [|s0 ss] eqn:Es.
      { pose proof (length_split_data data dn) as Hl. rewrite Es in Hl. simpl in Hl. lia. }
      pose proof (split_data_sizes data dn) as Hs. rewrite Es in Hs. apply Forall_cons_1 in Hs as [Hs _].
      pose proof (coded_parity _ _ _ _ Hc Hpn) as He. rewrite Es in He.
      unfold mbind, pool_bind, unwrap. cbn [lookup list_lookup]. rewrite Hrs, Hs, He by done. done.
    + pose proof (coded_data _ _ _ _ Hc) as Hd. pose proof (coded_length _ _ _ _ Hc) as Hl.
      rewrite take_ge in Hd by lia. by rewrite <- Hd.
Qed.

(** *** Frame *)

Lemma hold_elsewhere disks disks' b k b' k' v :
  Forall2 (only_changes b k) disks disks' -> named b' k' = true -> (b', k') <> (b, k) ->
  disks_hold disks b' k' v -> disks_hold disks' b' k' v.
Proof.
  intros Hf Hnm Hne.
  assert (Hback : forall j d', disks' !! j = Some d' -> exists d, disks !! j = Some d /\ only_changes b k d d').
  { intros j d' Hj. destruct (Forall2_lookup_r _ _ _ _ _ Hf Hj) as (d & ? & ?). eauto. }
  destruct v as [[data info]|]; cbn.
  - intros (c & dn & pn & dist & shards & Hst & <- & <- & Hi & [Honly (idxs & Hnd & Hlen & Hidx)]).
    exists c, dn, pn, dist, shards. rewrite <- (Forall2_length _ _ _ Hf). split_and!; try done. split.
    + intros j d' s m Hj Hr. destruct (Hback j d' Hj) as (d & Hd & Hoc).
      rewrite (oc_read _ _ _ _ Hoc) in Hr by done. by apply (Honly j d).
    + exists idxs. split_and!; [done..|]. intros i Hi'.
      destruct (Hidx i Hi') as (j & d & s & Hdi & Hd & Hs & Hr).
      destruct (Forall2_lookup_l _ _ _ _ _ Hf Hd) as (d' & Hd' & Hoc). exists j, d', s.
      by rewrite (oc_read _ _ _ _ Hoc).
  - intros Hfr j d' Hj. destruct (Hback j d' Hj) as (d & Hd & Hoc).
    rewrite (oc_read _ _ _ _ Hoc) by done. by apply (Hfr j).
Qed.

Lemma insert_changes b k disks i d d' :
  disks !! i = Some d -> only_changes b k d d' -> Forall2 (only_changes b k) disks (<[i := d']> disks).
Proof.
  intros Hi Hd. rewrite <- (list_insert_id disks i d Hi) at 1. apply Forall2_insert; [|done].
  apply Forall_Forall2_diag, list.Forall_forall. intros x _. reflexivity.
Qed.

(** *** Reads *)

Lemma shard_meta_ec c dn pn data i s :
  length (pc_volume_ids c) = dn + pn -> (N.of_nat (dn + pn) < 2 ^ 64)%N ->
  meta_ec (shard_meta c pn data i s) = (dn, pn).
Proof.
  intros Hv Hn. unfold meta_ec, erasure_data, erasure_parity. cbn [erasure shard_meta volume_ids ftt].
  f_equal. rewrite usize_sub_le; lia.
Qed.

Lemma shard_meta_info c pn data i s :
  pc_version_id c = None ->
  meta_to_info (pc_bucket c) (pc_key c) (shard_meta c pn data i s) = object_info c data.
Proof. intros Hv. unfold meta_to_info, object_info. cbn. by rewrite Hv. Qed.

Lemma stripe_ec n c dn pn data dist shards i s :
  striped n c dn pn data dist shards -> (N.of_nat n < 2 ^ 64)%N ->
  meta_ec (shard_meta c pn data i s) = (dn, pn).
Proof.
  intros Hst Hn. pose proof (st_total _ _ _ _ _ _ _ Hst). subst n. by apply shard_meta_ec, Hn; apply Hst.
Qed.

Lemma stripe_info n c dn pn data dist shards i s :
  striped n c dn pn data dist shards ->
  meta_to_info (pc_bucket c) (pc_key c) (shard_meta c pn data i s) = object_info c data.
Proof. intros Hst. apply shard_meta_info, Hst. Qed.

Lemma placed_le c pn n n' data dist shards disks :
  n' <= n -> placed c pn n data dist shards disks -> placed c pn n' data dist shards disks.
Proof. intros Hle [Honly (idxs & ? & ? & ?)]. split; [done|]. exists idxs. split_and!; [done|lia|done]. Qed.

(** A full stripe has a shard on every volume. *)
Lemma placed_everywhere c dn pn data dist shards disks j d :
  striped (length disks) c dn pn data dist shards -> placed c pn (dn + pn) data dist shards disks ->
  disks !! j = Some d -> is_ok (read_shard d (pc_bucket c) (pc_key c)) = true.
Proof.
  intros Hst [_ (idxs & Hnd & Hlen & Hidx)] Hj. pose proof (st_total _ _ _ _ _ _ _ Hst) as Ht.
  assert (Hp : idxs ≡ₚ seq 0 (dn + pn)).
  { apply submseteq_length_Permutation; [|by rewrite length_seq]. apply NoDup_submseteq; [done|].
    intros i Hi. destruct (Hidx i Hi) as (j' & d' & s & Hdi & _). apply lookup_lt_Some in Hdi.
    apply elem_of_seq. rewrite (Permutation_length (st_dist _ _ _ _ _ _ _ Hst)), length_seq in Hdi. lia. }
  assert (Hjd : j ∈ dist).
  { rewrite (st_dist _ _ _ _ _ _ _ Hst). apply elem_of_seq. apply lookup_lt_Some in Hj. lia. }
  apply list_elem_of_lookup in Hjd as [i Hi]. destruct (Hidx i) as (j' & d' & s & Hdi & Hd & _ & Hr).
  { rewrite Hp. apply elem_of_seq. apply lookup_lt_Some in Hi.
    rewrite (Permutation_length (st_dist _ _ _ _ _ _ _ Hst)), length_seq in Hi. lia. }
  rewrite Hi in Hdi. injection Hdi as <-. rewrite Hj in Hd. injection Hd as <-. by rewrite Hr.
Qed.

Lemma placed_read n c dn pn data dist shards disks :
  striped n c dn pn data dist shards -> placed c pn (dn + pn) data dist shards disks ->
  exists i s, read_and_decode disks dn pn (pc_bucket c) (pc_key c) = Ok (data, shard_meta c pn data i s).
Proof.
  intros Hst Hp. apply (placed_le _ _ _ dn) in Hp; [|lia].
  destruct (placed_collect c dn pn data dist shards disks) as (slots & meta & Hc & Her & Hg & i & s & ->);
    [apply Hst|apply Hst|done|].
  exists i, s. unfold read_and_decode. fold (shard_reads disks (pc_bucket c) (pc_key c)). rewrite Hc.
  cbn [mbind result_bind fst snd]. cbn [size shard_meta]. rewrite wrap_small by apply Hst.
  rewrite Nat2N.id, (codes_rebuild _ _ _ _ (st_codes _ _ _ _ _ _ _ Hst)) by done. done.
Qed.

Lemma head_omap {A C} (f : A -> option C) (l : list A) :
  (exists x y, x ∈ l /\ f x = Some y) -> exists x y, x ∈ l /\ f x = Some y /\ head (omap f l) = Some y.
Proof.
  induction l as [|a l IH]; intros (x & y & Hx & Hf); [by apply elem_of_nil in Hx|]. cbn.
  destruct (f a) as [y'|] eqn:E; [exists a, y'; split_and!; [by left|done|done]|].
  destruct IH as (x' & y'' & Hx' & Hf' & Hh).
  { exists x, y. apply elem_of_cons in Hx as [->|?]; [congruence|done]. }
  exists x', y''. split_and!; [by right|done|done].
Qed.

(** A volume reports in [stat] what it reads. *)
Definition stat_agrees (b k : string) (d : B) : Prop :=
  result_ok (stat_object d b k) = snd <$> result_ok (read_shard d b k).

Lemma good_agrees disks b k : Forall good disks -> named b k = true -> Forall (stat_agrees b k) disks.
Proof. intros Hg Hnm. eapply Forall_impl; [exact Hg|]. intros d Hd. by apply stat_good. Qed.

(** Some volume answers a stat, and whichever it is, it has metadata of the stripe. *)
Lemma placed_first_stat c pn n data dist shards disks :
  Forall (stat_agrees (pc_bucket c) (pc_key c)) disks -> 0 < n -> placed c pn n data dist shards disks ->
  exists i s, first_stat (pc_bucket c) (pc_key c) disks = Some (shard_meta c pn data i s).
Proof.
  intros Hg Hn [Honly (idxs & Hnd & Hlen & Hidx)]. unfold first_stat.
  destruct (head_omap (fun d => result_ok (stat_object d (pc_bucket c) (pc_key c))) disks)
    as (d & m & Hd & Hs & Hh).
  - destruct idxs as [|i idxs]; [simpl in Hlen; lia|].
    destruct (Hidx i ltac:(by left)) as (j & d & s & _ & Hd & _ & Hr).
    exists d, (shard_meta c pn data i s). split; [by eapply list_elem_of_lookup_2|].
    rewrite (Forall_lookup_1 _ _ _ _ Hg Hd). by rewrite Hr.
  - rewrite Hh. apply list_elem_of_lookup in Hd as [j Hj].
    rewrite (Forall_lookup_1 _ _ _ _ Hg Hj) in Hs.
    destruct (read_shard d _ _) as [[s m']|] eqn:Hr; [|done]. injection Hs as <-.
    destruct (Honly j d s m' Hj Hr) as (i & _ & _ & ->). by exists i, s.
Qed.

Lemma placed_stat n c dn pn data dist shards disks :
  Forall good disks -> named (pc_bucket c) (pc_key c) = true ->
  striped n c dn pn data dist shards -> placed c pn (dn + pn) data dist shards disks ->
  exists i s, first_stat (pc_bucket c) (pc_key c) disks = Some (shard_meta c pn data i s).
Proof.
  intros Hg Hnm Hst. apply placed_first_stat; [by apply good_agrees|]. pose proof (st_pos _ _ _ _ _ _ _ Hst). lia.
Qed.

Lemma fresh_stat disks b k :
  Forall good disks -> named b k = true -> unreadable disks b k -> first_stat b k disks = None.
Proof.
  intros Hg Hnm Hf. unfold first_stat. replace (omap _ disks) with (@nil ObjectMeta); [done|]. symmetry.
  induction disks as [|d disks IH]; [done|]. cbn. apply Forall_cons_1 in Hg as [Hd Hg].
  rewrite stat_good by done. pose proof (Hf 0 d eq_refl) as Hr. destruct (read_shard d b k); [done|]. cbn.
  apply IH; [done|]. intros j. apply (Hf (S j)).
Qed.

Lemma fresh_read disks dn pn b k :
  unreadable disks b k -> read_and_decode disks dn pn b k = Err ObjectNotFound.
Proof.
  intros Hf. unfold read_and_decode, collect. replace (existsb _ _) with false; [done|]. symmetry.
  induction disks as [|d disks IH]; [done|]. cbn. pose proof (Hf 0 d eq_refl) as Hr.
  destruct (read_shard d b k); [done|]. apply IH. intros j. apply (Hf (S j)).
Qed.

(** *** Writes *)

Lemma write_small_good disks b k dist shards metas n0 :
  Forall good disks -> named b k = true -> NoDup dist -> Forall (fun j => j < length disks) dist ->
  length dist = length shards -> length metas = length shards -> Forall plain_meta metas ->
  exists disks', write_small disks b k dist shards metas n0 = Some (disks', n0 + length shards) /\
    Forall good disks' /\ Forall2 (only_changes b k) disks disks' /\
    (forall j, j ∉ dist -> disks' !! j = disks !! j) /\
    (forall i j s m, dist !! i = Some j -> shards !! i = Some s -> metas !! i = Some m ->
       exists d, disks' !! j = Some d /\ read_shard d b k = Ok (s, m)).
Proof.
  revert disks shards metas n0. induction dist as [|x dist IH]; intros disks [|s shards] [|m metas] n0 Hg Hnm Hnd Hlt Hl Hl' Hpm;
    try done.
  - exists disks. cbn. rewrite Nat.add_0_r. by split_and!.
  - apply list.NoDup_cons in Hnd as [Hx Hnd]. apply Forall_cons_1 in Hlt as [Hxl Hlt].
    apply Forall_cons_1 in Hpm as [Hm Hpm].
    destruct (lookup_lt_is_Some_2 disks x Hxl) as [d Hd]. cbn [write_small]. rewrite Hd. cbn [mbind option_bind].
    destruct (write_shard_good d b k s m) as (d' & Ew & Hgd & Hoc & Hr); [by eapply Forall_lookup_1 in Hg|done|done|].
    rewrite Ew. cbn [fst snd is_ok].
    destruct (IH (<[x := d']> disks) shards metas (S n0)) as (disks' & E & Hg' & Hf & Hout & Hin);
      [by apply Forall_insert|done|done|by rewrite length_insert|by injection Hl|by injection Hl'|done|].
    exists disks'. split_and!; [rewrite E; f_equal; f_equal; simpl; lia|done| | |].
    + etransitivity; [by eapply insert_changes|done].
    + intros j [Hj Hj']%not_elem_of_cons. rewrite Hout by done. by apply list_lookup_insert_ne.
    + intros [|i] j s' m' Hi Hs Hm'; [|by eapply Hin]. cbn in Hi, Hs, Hm'. simplify_eq.
      exists d'. split; [|done]. rewrite Hout by done. by apply list_lookup_insert_eq.
Qed.

Lemma seq_bound dist n : dist ≡ₚ seq 0 n -> NoDup dist /\ length dist = n /\ Forall (fun j => j < n) dist.
Proof.
  intros Hp. split_and!.
  - rewrite Hp. apply NoDup_seq.
  - by rewrite Hp, length_seq.
  - apply list.Forall_forall. intros j Hj. rewrite Hp in Hj. apply elem_of_seq in Hj. lia.
Qed.

(** A stripe written to volumes in good order replaces whatever they had of the object. *)
Lemma write_stripe disks c dn pn data dist shards :
  Forall good disks -> named (pc_bucket c) (pc_key c) = true -> striped (length disks) c dn pn data dist shards ->
  exists disks',
    write_small disks (pc_bucket c) (pc_key c) dist shards (imap (shard_meta c pn data) shards) 0
      = Some (disks', dn + pn) /\
    Forall good disks' /\ Forall2 (only_changes (pc_bucket c) (pc_key c)) disks disks' /\
    placed c pn (dn + pn) data dist shards disks'.
Proof.
  intros Hg Hnm Hst. destruct (seq_bound _ _ (st_dist _ _ _ _ _ _ _ Hst)) as (Hnd & Hdl & Hlt).
  pose proof (codes_length _ _ _ _ (st_codes _ _ _ _ _ _ _ Hst)) as Hsl.
  pose proof (st_total _ _ _ _ _ _ _ Hst) as Ht.
  destruct (write_small_good disks (pc_bucket c) (pc_key c) dist shards (imap (shard_meta c pn data) shards) 0)
    as (disks' & E & Hg' & Hf & _ & Hin); try done; [lia|by rewrite length_imap|by apply plain_metas, Hst|].
  exists disks'. rewrite E, Hsl. split_and!; try done.
  assert (Hread : forall i j, dist !! i = Some j -> exists d s, disks' !! j = Some d /\ shards !! i = Some s /\
    read_shard d (pc_bucket c) (pc_key c) = Ok (s, shard_meta c pn data i s)).
  { intros i j Hi. destruct (lookup_lt_is_Some_2 shards i) as [s Hs]; [apply lookup_lt_Some in Hi; lia|].
    destruct (Hin i j s (shard_meta c pn data i s)) as (d & ? & ?); eauto.
    by rewrite list_lookup_imap, Hs. }
  split.
  - intros j d s m Hj Hr.
    assert (Hjd : j ∈ dist).
    { rewrite (st_dist _ _ _ _ _ _ _ Hst). apply elem_of_seq. apply lookup_lt_Some in Hj.
      rewrite (Forall2_length _ _ _ Hf). lia. }
    apply list_elem_of_lookup in Hjd as [i Hi]. destruct (Hread i j Hi) as (d' & s' & Hd' & Hs' & Hr').
    simplify_eq. rewrite Hr in Hr'. simplify_eq. by exists i.
  - exists (seq 0 (dn + pn)). split_and!; [apply NoDup_seq|by rewrite length_seq|]. intros i Hi%elem_of_seq.
    destruct (lookup_lt_is_Some_2 dist i) as [j Hj]; [lia|].
    destruct (Hread i j Hj) as (d & s & ? & ? & ?). by exists j, d, s.
Qed.

Lemma flush_is_write disks b k dist shards metas :
  length dist = length shards -> length metas = length shards ->
  flush_shards disks b k dist shards metas = fst <$> write_small disks b k dist shards metas 0.
Proof.
  generalize 0. revert disks dist metas.
  induction shards as [|s shards IH]; intros disks [|j dist] [|m metas] n Hl Hl'; try done.
  cbn. destruct (disks !! j) as [d|]; [|done]. cbn. apply IH; [by injection Hl|by injection Hl'].
Qed.

(** Deleting on every volume. *)
Lemma delete_all disks b k :
  Forall good disks -> named b k = true ->
  let rs := map (fun d => delete_object d b k) disks in
  Forall good (map fst rs) /\ Forall2 (only_changes b k) disks (map fst rs) /\
  unreadable (map fst rs) b k /\
  map snd rs = map (fun d => if is_ok (read_shard d b k) then Ok tt else Err ObjectNotFound) disks.
Proof.
  intros Hg Hnm. induction Hg as [|d disks Hd Hg IH]; cbn in *.
  { by split_and!. }
  destruct IH as (IH1 & IH2 & IH3 & IH4). destruct (delete_good d b k Hd Hnm) as (d' & E & Hgd & Hoc & Hr).
  rewrite E. cbn [fst snd]. split_and!; [by constructor|by constructor| |by rewrite IH4].
  intros [|j] x Hx; cbn in Hx; [by simplify_eq|]. by apply (IH3 j).
Qed.

End Stripes.

(** ** Coherence *)

Definition wc_lookup (wc : option WriteCache.WriteCache) (k : CacheKey) : option WriteCache.CacheEntry :=
  wc ≫= fun c => WriteCache.entries c !! k.

(** Every entry of the read cache is the object's value. *)
Definition rc_ok (rc : option ReadCache.ReadCache) (m : gmap CacheKey (bytes * ObjectInfo)) : Prop :=
  forall c x, rc = Some c -> x ∈ ReadCache.lru c ->
    m !! x.1 = Some (ReadCache.data x.2, ReadCache.info x.2).

Definition rc_clear (rc : option ReadCache.ReadCache) (k : CacheKey) : Prop :=
  forall c x, rc = Some c -> x ∈ ReadCache.lru c -> x.1 <> k.

Section ReadCacheOk.
  Context (m : gmap CacheKey (bytes * ObjectInfo)) (b k : string).

Lemma rc_invalidate rc : rc_ok rc m ->
  let rc' := (fun c => ReadCache.invalidate c b k) <$> rc in rc_ok rc' m /\ rc_clear rc' (b, k).
Proof.
  intros Hok. destruct rc as [c|]; cbn; [|done].
  split; intros ? x [= <-] [Hx Hne]%elem_of_pop; [by apply (Hok c)|done].
Qed.

Lemma rc_ok_insert rc v : rc_ok rc m -> rc_clear rc (b, k) -> rc_ok rc (<[(b, k) := v]> m).
Proof.
  intros Hok Hcl c x E Hx. rewrite lookup_insert_ne; [by apply (Hok c)|]. intros Ek. by apply (Hcl c x).
Qed.

Lemma rc_ok_delete rc : rc_ok rc m -> rc_clear rc (b, k) -> rc_ok rc (delete (b, k) m).
Proof.
  intros Hok Hcl c x E Hx. rewrite lookup_delete_ne; [by apply (Hok c)|]. intros Ek. by apply (Hcl c x).
Qed.

(** A put of the object's own value, if the cache makes it. *)
Lemma rc_ok_put (guard : ReadCache.ReadCache -> bool) rc data info :
  rc_ok rc m -> m !! (b, k) = Some (data, info) ->
  rc_ok ((fun c => if guard c then ReadCache.put c b k (ReadCache.mkCacheEntry data info) else c) <$> rc) m.
Proof.
  intros Hok Hm. destruct rc as [c|]; [|done]. intros ? x [= <-] Hx. destruct (guard c); [|by apply (Hok c)].
  apply elem_of_put in Hx as [->|Hx]; [done|by apply (Hok c)].
Qed.

End ReadCacheOk.

Section Coherence.
  Context `{Hashes} `{ReedSolomon} `{!ReedSolomonOk} {B W : Type} `{!ObjectNames} `{!Backend B W} `{!HealBackend B}
          `{!PoolBackend B} `{!PoolBackendOk B W}.

(** An entry of the write cache holds the value [v] of the object. *)
Definition entry_holds (n : nat) (b k : string) (e : WriteCache.CacheEntry) (v : bytes * ObjectInfo) : Prop :=
  exists c dn pn,
    striped n c dn pn v.1 (WriteCache.distribution e) (WriteCache.shards e) /\
    pc_bucket c = b /\ pc_key c = k /\ v.2 = object_info c v.1 /\
    WriteCache.metas e = imap (shard_meta c pn v.1) (WriteCache.shards e) /\
    WriteCache.original_size e = N.of_nat (length v.1) /\ cached_info b k e = v.2.

(** The volumes and the caches of a pool agree on the objects [m]: what a cache has
    is right, and a named object that the write cache does not have is on the volumes.
    The volumes are in good order, each is a target of placement, and the erasure
    code accepts every split of them. *)
Record coherent (disks : list B) (pl : PlacementTopology) (wc : option WriteCache.WriteCache)
    (rc : option ReadCache.ReadCache) (m : gmap CacheKey (bytes * ObjectInfo)) : Prop := {
  co_good : Forall good disks;
  co_pos : 0 < length disks;
  co_width : (N.of_nat (length disks) < 2 ^ 64)%N;
  co_topo : map pv_backend_index (pt_disks pl) ≡ₚ seq 0 (length disks);
  co_rs : forall dn pn, 0 < dn -> 0 < pn -> dn + pn = length disks -> rs_new_ok dn pn = true;
  co_read : rc_ok rc m;
  co_write : forall b k e, wc_lookup wc (b, k) = Some e ->
    exists v, m !! (b, k) = Some v /\ entry_holds (length disks) b k e v;
  co_names : forall b k, is_Some (m !! (b, k)) -> validate_object_key k = Ok tt /\ named b k = true;
  co_disks : forall b k, named b k = true -> exists v, disks_hold disks b k v /\ (wc_lookup wc (b, k) = None -> v = m !! (b, k));
}.

Definition coh {P : Type} (p : VolumePool B P) (m : gmap CacheKey (bytes * ObjectInfo)) : Prop :=
  coherent (vp_disks p) (vp_placement p) (vp_write_cache p) (vp_read_cache p) m.

(** The bucket exists on a volume and its name is valid. *)
Definition live {P : Type} (p : VolumePool B P) (b : string) : Prop :=
  validate_bucket_name b = Ok tt /\ existsb (fun d => bucket_exists d b) (vp_disks p) = true.

Lemma pool_bind_ok {P A C : Type} (m : PoolM B P A) (f : A -> PoolM B P C) p p' a :
  m p = Some (p', Ok a) -> (m ≫= f) p = f a p'.
Proof. intros E. unfold mbind, pool_bind. by rewrite E. Qed.

Lemma lift_ok {P A C : Type} (a : A) (r : Result A) (f : A -> PoolM B P C) p :
  r = Ok a -> (lift r ≫= f) p = f a p.
Proof. intros ->. done. Qed.

Lemma require_bucket_ok {P : Type} (p : VolumePool B P) b : live p b -> require_bucket b p = Some (p, Ok tt).
Proof.
  intros [Hv He]. unfold require_bucket, head_bucket. rewrite Hv. cbn.
  unfold mbind, pool_bind. cbn. rewrite bool_decide_eq_true_2; [done|].
  apply existsb_exists in He as (d & Hd & He).
  assert (Hin : In d (List.filter (fun d => bucket_exists d b) (vp_disks p))) by by apply filter_In.
  destruct (List.filter _ _); [done|simpl; lia].
Qed.

(** *** Erasure parameters *)

Lemma ftt_to_ec_ok f n : f < n -> ftt_to_ec f n = Ok (n - f, f).
Proof. intros Hf. unfold ftt_to_ec. by rewrite !bool_decide_eq_false_2 by lia. Qed.

Lemma settings_ec_ok n b (disks : list B) dn pn :
  settings_ec n b disks = Some (dn, pn) -> 0 < dn /\ dn + pn = n.
Proof.
  induction disks as [|d disks IH]; cbn; [done|]. destruct (bs_ftt _) as [f|]; cbn; [|done].
  unfold ftt_to_ec. destruct (decide (n = 0 \/ n <= f)) as [Hn|Hn].
  - replace (_ || _) with true; [done|]. symmetry. apply orb_true_iff.
    destruct Hn; [left|right]; by apply bool_decide_eq_true_2.
  - rewrite !bool_decide_eq_false_2 by lia. cbn. intros [= <- <-]. lia.
Qed.

Lemma bucket_ec_ok {P : Type} (p : VolumePool B P) b :
  0 < length (vp_disks p) -> 0 < (bucket_ec p b).1 /\ (bucket_ec p b).1 + (bucket_ec p b).2 = length (vp_disks p).
Proof.
  intros Hn. unfold bucket_ec. destruct (settings_ec _ _ _) as [[dn pn]|] eqn:E; [by apply settings_ec_ok in E|].
  rewrite ftt_to_ec_ok by (unfold default_ftt; lia). unfold default_ftt, result_ok, from_option, id, fst, snd. lia.
Qed.

Lemma resolve_ec_ok {P : Type} (p : VolumePool B P) b opts :
  0 < length (vp_disks p) -> (forall f, ec_ftt opts = Some f -> f < length (vp_disks p)) ->
  exists dn pn, resolve_ec b opts p = Some (p, Ok (dn, pn)) /\ 0 < dn /\ dn + pn = length (vp_disks p).
Proof.
  intros Hn Hf. unfold resolve_ec. destruct (ec_ftt opts) as [f|].
  - specialize (Hf f eq_refl). exists (length (vp_disks p) - f), f. unfold mbind, pool_bind, gets, lift.
    rewrite ftt_to_ec_ok by done. split; [done|lia].
  - destruct (bucket_ec_ok p b Hn) as [H1' H2']. exists (bucket_ec p b).1, (bucket_ec p b).2.
    unfold gets. by destruct (bucket_ec p b).
Qed.

(** *** Encoding a small object *)

Definition without_etag (o : PutOptions) : PutOptions :=
  mkPutOptions (opt_content_type o) (opt_user_metadata o) (opt_tags o) (ec_ftt o) None (skip_md5 o).

Lemma encode_small_ok {P : Type} (p : VolumePool B P) m b k data opts t :
  coh p m -> (forall f, ec_ftt opts = Some f -> f < length (vp_disks p)) ->
  (N.of_nat (length data) < 2 ^ 64)%N ->
  exists s c, encode_small b k data opts t p = Some (p, Ok s) /\
    striped (length (vp_disks p)) c (sp_dn s) (sp_pn s) data (sp_dist s) (sp_shards s) /\
    sp_metas s = imap (shard_meta c (sp_pn s) data) (sp_shards s) /\
    pc_bucket c = b /\ pc_key c = k /\ object_info c data = small_info b k opts data (now_secs t).
Proof.
  intros Hco Hf Hd. destruct (resolve_ec_ok p b opts (co_pos _ _ _ _ _ Hco) Hf) as (dn & pn & Er & Hdn & Hn).
  destruct (small_codes dn pn data Hdn ltac:(intros; by apply (co_rs _ _ _ _ _ Hco)) p) as (shards & Es & Hc).
  assert (Hlen : length (pt_disks (vp_placement p)) = length (vp_disks p)).
  { rewrite <- (length_map pv_backend_index), (co_topo _ _ _ _ _ Hco). apply length_seq. }
  assert (Hle : dn + pn <= length (pp_disks (placement_planner p))) by (cbn; lia).
  pose proof (proj2 (plan_Ok (placement_planner p) b k dn pn _) (conj Hdn (conj Hle eq_refl))) as Ep.
  set (r := mkPlacementRecord _ _ _ _ _) in Ep.
  exists (mkSmallPut dn pn (map ps_backend_index (pr_shards r)) shards
            (imap (small_meta opts data pn (now_secs t) r) shards)).
  exists (mkPutContext b k (without_etag opts) None (default_content_type opts) (now_secs t) (pr_epoch_id r)
            (map ps_volume_id (pr_shards r))).
  assert (Hdeal : length (take (dn + pn) (full_deal (placement_planner p) b k)) = dn + pn).
  { rewrite length_take, (Permutation_length (full_deal_perm (placement_planner p) b k)). cbn. lia. }
  split_and!; try done.
  - unfold encode_small. rewrite (pool_bind_ok _ _ _ _ _ Er). cbn [fst snd].
    rewrite (pool_bind_ok _ _ _ _ _ Es). unfold mbind at 1, pool_bind, gets. rewrite Ep. done.
  - constructor; try done; cbn [sp_dn sp_pn sp_dist sp_shards pc_volume_ids].
    + subst r. cbn [pr_shards]. by rewrite (map_shard_of _ pv_volume_id), length_map, Hdeal.
    + subst r. cbn [pr_shards]. rewrite (map_shard_of _ pv_backend_index) by done.
      rewrite take_ge. { rewrite full_deal_perm. apply (co_topo _ _ _ _ _ Hco). }
      rewrite (Permutation_length (full_deal_perm (placement_planner p) b k)). cbn. lia.
Qed.

(** *** The caches of a pool *)

Lemma cache_small_ok {P : Type} `{!PeerCache P} (p : VolumePool B P) b k mk :
  exists p' r, cache_small b k mk p = Some (p', Ok r) /\ vp_disks p' = vp_disks p /\
    vp_placement p' = vp_placement p /\ vp_read_cache p' = vp_read_cache p /\
    if r : bool then exists node, forall x, wc_lookup (vp_write_cache p') x =
        if decide (x = (b, k)) then Some (mk node) else wc_lookup (vp_write_cache p) x
    else vp_write_cache p' = vp_write_cache p.
Proof.
  unfold cache_small, replicate_first, write_cache_insert, gets, mbind, pool_bind.
  destruct (vp_write_cache p) as [c|] eqn:Ec; [|by exists p, false].
  set (p1 := match vp_peers p with [] => p | peer :: rest => set_peer_cache_clients
    ((replicate_entry peer b k (mk (vp_local_node_id p))).1 :: rest) p end).
  set (ok := match vp_peers p with [] => true | peer :: _ =>
    is_ok (replicate_entry peer b k (mk (vp_local_node_id p))).2 end).
  replace (match vp_peers p with [] => _ | _ :: _ => _ end) with (Some (p1, @Ok StorageError bool ok))
    by (subst p1 ok; by destruct (vp_peers p)).
  assert (Hp1 : vp_disks p1 = vp_disks p /\ vp_placement p1 = vp_placement p /\
    vp_read_cache p1 = vp_read_cache p /\ vp_write_cache p1 = Some c)
    by (subst p1; by destruct (vp_peers p)).
  destruct Hp1 as (Hd & Hpl & Hr & Hw). clearbody p1 ok. destruct ok; [|exists p1, false; by rewrite <- Hw].
  rewrite Hw. unfold WriteCache.insert. case_bool_decide; [exists (set_write_cache (Some c) p1), false; done|].
  eexists _, true. split; [done|]. cbn [vp_disks vp_placement vp_read_cache vp_write_cache set_write_cache].
  split_and!; [done..|]. exists (vp_local_node_id p). intros x. cbn [wc_lookup mbind option_bind].
  destruct (WriteCache.entries c !! (b, k)); cbn [fst WriteCache.entries WriteCache.set_entries
    WriteCache.add_size WriteCache.sub_size]; case_decide as Hx;
    [subst; apply lookup_insert_eq|by apply lookup_insert_ne|subst; apply lookup_insert_eq|by apply lookup_insert_ne].
Qed.

Lemma entry_of_put {P : Type} (p : VolumePool B P) b k data opts t node s c :
  striped (length (vp_disks p)) c (sp_dn s) (sp_pn s) data (sp_dist s) (sp_shards s) ->
  sp_metas s = imap (shard_meta c (sp_pn s) data) (sp_shards s) ->
  pc_bucket c = b -> pc_key c = k -> object_info c data = small_info b k opts data (now_secs t) ->
  entry_holds (length (vp_disks p)) b k (small_entry s data opts t node)
    (data, small_info b k opts data (now_secs t)).
Proof.
  intros Hst Hm Hb Hk Hi. exists c, (sp_dn s), (sp_pn s). cbn. split_and!; try done.
  apply wrap_small, Hst.
Qed.

(** Coherence after an operation on one object. *)
Lemma coherent_update disks disks' pl wc wc' rc rc' m m' b k :
  coherent disks pl wc rc m ->
  Forall good disks' -> Forall2 (only_changes b k) disks disks' ->
  (forall x, x <> (b, k) -> wc_lookup wc' x = wc_lookup wc x /\ m' !! x = m !! x) ->
  rc_ok rc' m' ->
  (forall e, wc_lookup wc' (b, k) = Some e ->
     exists v, m' !! (b, k) = Some v /\ entry_holds (length disks) b k e v) ->
  (is_Some (m' !! (b, k)) -> validate_object_key k = Ok tt /\ named b k = true) ->
  (exists v, disks_hold disks' b k v /\ (wc_lookup wc' (b, k) = None -> v = m' !! (b, k))) ->
  coherent disks' pl wc' rc' m'.
Proof.
  intros Hco Hg Hf Hother Hrc He Hk Hd. pose proof (Forall2_length _ _ _ Hf) as Hl.
  constructor; rewrite <- ?Hl; try apply Hco; try done.
  - intros b' k' e Hwe. destruct (decide ((b', k') = (b, k))) as [[= -> ->]|Hne]; [by apply He|].
    destruct (Hother _ Hne) as [Hw Hm]. rewrite Hw in Hwe. rewrite Hm. by apply (co_write _ _ _ _ _ Hco).
  - intros b' k'. destruct (decide ((b', k') = (b, k))) as [[= -> ->]|Hne]; [done|].
    destruct (Hother _ Hne) as [_ Hm]. rewrite Hm. apply Hco.
  - intros b' k' Hnm. destruct (decide ((b', k') = (b, k))) as [[= -> ->]|Hne]; [done|].
    destruct (Hother _ Hne) as [Hw Hm]. rewrite Hw, Hm.
    destruct (co_disks _ _ _ _ _ Hco b' k' Hnm) as (v & Hv & Hvm). exists v. split; [|done].
    by eapply hold_elsewhere.
Qed.

Lemma changes_refl b k (disks : list B) : Forall2 (only_changes b k) disks disks.
Proof. apply Forall_Forall2_diag, list.Forall_forall. intros d _. reflexivity. Qed.

Definition same_buckets (disks disks' : list B) : Prop :=
  Forall2 (fun d d' => forall b, bucket_exists d' b = bucket_exists d b) disks disks'.

Lemma changes_buckets b k disks disks' : Forall2 (only_changes b k) disks disks' -> same_buckets disks disks'.
Proof. intros Hf. eapply Forall2_impl; [exact Hf|]. intros d d' Hoc. apply Hoc. Qed.

Lemma same_buckets_refl disks : same_buckets disks disks.
Proof. by apply Forall_Forall2_diag, list.Forall_forall. Qed.

Lemma same_buckets_trans l1 l2 l3 : same_buckets l1 l2 -> same_buckets l2 l3 -> same_buckets l1 l3.
Proof.
  intros H12. revert l3. induction H12 as [|x y l1 l2 Hxy _ IH]; intros l3 H23; inversion H23; subst; constructor.
  - intros b. congruence.
  - by apply IH.
Qed.

Lemma live_changes {P : Type} (p p' : VolumePool B P) x :
  same_buckets (vp_disks p) (vp_disks p') -> live p x -> live p' x.
Proof.
  intros Hf [Hv He]. split; [done|]. rewrite <- He. clear He. revert Hf.
  generalize (vp_disks p) (vp_disks p'). induction 1 as [|d d' l l' Hd _ IH]; [done|]. cbn.
  by rewrite Hd, IH.
Qed.

(** *** PUT *)

(** The PUT is taken by the write cache. *)
Definition will_cache {P : Type} `{!PeerCache P} (b k : string) (data : bytes) (opts : PutOptions) (t : Clock)
    (p : VolumePool B P) : bool :=
  match (invalidate_read b k;; stage_small b k data opts t) p with
  | Some (_, Ok (_, true)) => true
  | _ => false
  end.

Lemma body_ok (chunks : list bytes) : body_items (map Ok chunks) = Ok chunks.
Proof. induction chunks as [|c chunks IH]; cbn; [done|]. by rewrite IH. Qed.

(** Staging encodes the object, leaves its value as the only entry that the read
    cache may have of it, and may put it into the write cache. *)
Lemma stage_ok {P : Type} `{!PeerCache P} (p : VolumePool B P) m b k data opts t :
  let info := small_info b k opts data (now_secs t) in
  coh p m -> (forall f, ec_ftt opts = Some f -> f < length (vp_disks p)) ->
  (N.of_nat (length data) < 2 ^ 64)%N ->
  exists p' s c cached, (invalidate_read b k;; stage_small b k data opts t) p = Some (p', Ok (s, cached)) /\
    striped (length (vp_disks p)) c (sp_dn s) (sp_pn s) data (sp_dist s) (sp_shards s) /\
    sp_metas s = imap (shard_meta c (sp_pn s) data) (sp_shards s) /\
    pc_bucket c = b /\ pc_key c = k /\ object_info c data = info /\
    vp_disks p' = vp_disks p /\ vp_placement p' = vp_placement p /\
    rc_ok (vp_read_cache p') (<[(b, k) := (data, info)]> m) /\
    if cached : bool then exists node, forall x, wc_lookup (vp_write_cache p') x =
        if decide (x = (b, k)) then Some (small_entry s data opts t node) else wc_lookup (vp_write_cache p) x
    else vp_write_cache p' = vp_write_cache p.
Proof.
  intros info Hco Hf Hlen.
  destruct (rc_invalidate m b k _ (co_read _ _ _ _ _ Hco)) as [Hrc Hcl]. cbn zeta in Hrc, Hcl.
  set (rc1 := _ <$> vp_read_cache p) in *. set (p1 := set_read_cache rc1 p).
  assert (E1 : invalidate_read b k p = Some (p1, Ok tt)) by done.
  assert (Hco1 : coh p1 m) by (destruct Hco; by constructor).
  destruct (encode_small_ok p1 m b k data opts t Hco1 Hf Hlen) as (sp & c & Ee & Hst & Hm & Hb & Hk & Hi).
  set (fits := fun c => bool_decide (N.of_nat (length data) <= ReadCache.max_object_bytes c)%N).
  set (p2 := set_read_cache ((fun c => if fits c then ReadCache.put c b k (ReadCache.mkCacheEntry data info)
    else c) <$> rc1) p1).
  assert (E2 : warm_read_cache b k data info p1 = Some (p2, Ok tt)) by done.
  assert (Hrc2 : rc_ok (vp_read_cache p2) (<[(b, k) := (data, info)]> m)).
  { apply (rc_ok_put _ b k fits rc1 data info); [by apply rc_ok_insert|apply lookup_insert_eq]. }
  destruct (cache_small_ok p2 b k (small_entry sp data opts t)) as (p3 & cached & E3 & Hd3 & Hpl3 & Hr3 & Hw3).
  exists p3, sp, c, cached. split.
  { rewrite (pool_bind_ok _ _ _ _ _ E1). unfold stage_small.
    rewrite (pool_bind_ok _ _ _ _ _ Ee), (pool_bind_ok _ _ _ _ _ E2), (pool_bind_ok _ _ _ _ _ E3). done. }
  rewrite Hr3. split_and!; done.
Qed.

Lemma put_small_coherent {P : Type} `{!PeerCache P} (p : VolumePool B P) m b k chunks opts t :
  let data := concat chunks in
  let info := small_info b k opts data (now_secs t) in
  coh p m -> validate_object_key k = Ok tt -> named b k = true ->
  (forall f, ec_ftt opts = Some f -> f < length (vp_disks p)) ->
  (N.of_nat (length data) < 2 ^ 64)%N ->
  wc_lookup (vp_write_cache p) (b, k) = None \/ will_cache b k data opts t p = true ->
  exists p', (invalidate_read b k;; put_small b k (map Ok chunks) opts t) p = Some (p', Ok info) /\
    coh p' (<[(b, k) := (data, info)]> m) /\ Forall2 (only_changes b k) (vp_disks p) (vp_disks p').
Proof.
  intros data info Hco Hkey Hnm Hf Hlen Hadm. unfold will_cache in Hadm.
  destruct (stage_ok p m b k data opts t Hco Hf Hlen)
    as (p3 & sp & c & cached & E & Hst & Hm & Hb & Hk & Hi & Hd3 & Hpl3 & Hrc3 & Hw3).
  rewrite E in Hadm.
  set (p1 := set_read_cache ((fun c => ReadCache.invalidate c b k) <$> vp_read_cache p) p).
  change (stage_small b k data opts t p1 = Some (p3, Ok (sp, cached))) in E.
  change ((invalidate_read b k;; put_small b k (map Ok chunks) opts t) p)
    with (put_small b k (map Ok chunks) opts t p1).
  unfold put_small. rewrite (lift_ok chunks) by apply body_ok. rewrite (pool_bind_ok _ _ _ _ _ E).
  cbn [fst snd]. destruct cached.
  - exists p3. destruct Hw3 as [node Hw3]. split; [done|]. unfold coh. rewrite Hd3, Hpl3.
    split; [|apply changes_refl]. eapply (coherent_update _ _ _ _ _ _ _ _ _ b k Hco); [apply Hco|apply changes_refl| |done|..].
    + intros x Hx. rewrite Hw3, decide_False by done. by rewrite lookup_insert_ne.
    + intros e. rewrite Hw3, decide_True by done. intros [= <-]. rewrite lookup_insert_eq. eexists. split; [done|].
      by eapply entry_of_put.
    + done.
    + destruct (co_disks _ _ _ _ _ Hco b k Hnm) as (v & Hv & _). exists v. split; [done|].
      by rewrite Hw3, decide_True.
  - assert (Hnone : wc_lookup (vp_write_cache p) (b, k) = None) by (by destruct Hadm).
    destruct (write_stripe (vp_disks p) c (sp_dn sp) (sp_pn sp) data (sp_dist sp) (sp_shards sp)
      (co_good _ _ _ _ _ Hco) ltac:(by rewrite Hb, Hk) Hst) as (disks' & Ew & Hg' & Hf' & Hpl).
    rewrite Hb, Hk in Ew, Hf'. unfold mbind, pool_bind, gets, modify. rewrite Hd3, Hm, Ew. cbn [fst snd unwrap].
    rewrite bool_decide_eq_false_2 by (unfold write_quorum; case_bool_decide; lia).
    eexists. split; [done|]. cbn [vp_disks set_disks]. split; [|done]. unfold coh.
    cbn [vp_disks vp_placement vp_write_cache vp_read_cache set_disks]. rewrite Hpl3, Hw3.
    eapply (coherent_update _ _ _ _ _ _ _ _ _ b k Hco); [done|done| |done|..].
    + intros x Hx. by rewrite lookup_insert_ne.
    + intros e He. by rewrite Hnone in He.
    + done.
    + exists (Some (data, info)). rewrite lookup_insert_eq. split; [|done]. cbn.
      exists c, (sp_dn sp), (sp_pn sp), (sp_dist sp), (sp_shards sp).
      rewrite <- (Forall2_length _ _ _ Hf'). done.
Qed.

(** *** GET and HEAD *)

Lemma cached_value n b k e v :
  (N.of_nat n < 2 ^ 64)%N -> entry_holds n b k e v -> (cached_data e, cached_info b k e) = v.
Proof.
  intros Hn (c & dn & pn & Hst & Hb & Hk & Hi & Hm & Hsz & Hci). destruct v as [data info]. cbn [fst snd] in *.
  f_equal; [|done]. unfold cached_data, cached_data_shards. rewrite Hm, Hsz, Nat2N.id.
  pose proof (codes_length _ _ _ _ (st_codes _ _ _ _ _ _ _ Hst)) as Hl.
  pose proof (st_pos _ _ _ _ _ _ _ Hst). destruct (WriteCache.shards e) as [|s ss] eqn:Es; [simpl in Hl; lia|].
  cbn [imap head]. pose proof (f_equal fst (stripe_ec _ _ _ _ _ _ _ 0 s Hst Hn)) as He.
  unfold meta_ec in He. cbn [fst] in He. rewrite He. apply (st_codes _ _ _ _ _ _ _ Hst).
Qed.

Lemma write_cache_get_some {P : Type} (p : VolumePool B P) b k e :
  wc_lookup (vp_write_cache p) (b, k) = Some e ->
  exists wc, write_cache_get b k p = Some (set_write_cache wc p, Ok (Some e)) /\
    forall x, wc_lookup wc x = wc_lookup (vp_write_cache p) x.
Proof.
  unfold write_cache_get, WriteCache.get. destruct (vp_write_cache p) as [c|]; cbn; [|done]. intros E. rewrite E.
  by exists (Some (WriteCache.record_hit c)).
Qed.

Lemma write_cache_get_none {P : Type} (p : VolumePool B P) b k :
  wc_lookup (vp_write_cache p) (b, k) = None -> write_cache_get b k p = Some (p, Ok None).
Proof.
  unfold write_cache_get, WriteCache.get. destruct p as [ds q pl [c|] rc id ps]; cbn; [|done]. intros E.
  by rewrite E.
Qed.

(** Touching the caches without changing what they hold. *)
Lemma coherent_caches disks pl wc wc' rc rc' m :
  coherent disks pl wc rc m -> (forall x, wc_lookup wc' x = wc_lookup wc x) -> rc_ok rc' m ->
  coherent disks pl wc' rc' m.
Proof.
  intros Hco Hw Hr. constructor; try apply Hco; try done.
  - intros b k e. rewrite Hw. apply Hco.
  - intros b k. rewrite Hw. apply Hco.
Qed.

Lemma object_ec_stat {P : Type} (p : VolumePool B P) b k meta :
  wc_lookup (vp_write_cache p) (b, k) = None -> first_stat b k (vp_disks p) = Some meta ->
  object_ec b k p = Some (p, Ok (meta_ec meta)).
Proof.
  intros Hw Hs. unfold object_ec, read_ec_from_meta, mbind, pool_bind.
  rewrite write_cache_get_none by done. cbn. unfold gets. by rewrite Hs.
Qed.

Lemma object_ec_none {P : Type} (p : VolumePool B P) b k :
  wc_lookup (vp_write_cache p) (b, k) = None -> first_stat b k (vp_disks p) = None ->
  object_ec b k p = Some (p, Ok (bucket_ec p b)).
Proof.
  intros Hw Hs. unfold object_ec, read_ec_from_meta, mbind, pool_bind.
  rewrite write_cache_get_none by done. cbn. unfold gets. by rewrite Hs.
Qed.

Section Get.
  Context (label : B -> string) (fs_read : Path -> option bytes) (part_meta_index : bytes -> option nat).

Lemma get_from_disks_ok {P : Type} (p : VolumePool B P) m b k :
  coh p m -> named b k = true -> wc_lookup (vp_write_cache p) (b, k) = None ->
  exists p', get_from_disks label fs_read part_meta_index b k p = Some (p', ok_or (m !! (b, k)) ObjectNotFound) /\
    coh p' m /\ vp_disks p' = vp_disks p.
Proof.
  intros Hco Hnm Hw. destruct (co_disks _ _ _ _ _ Hco b k Hnm) as (v & Hv & Hvm). rewrite (Hvm Hw) in Hv. clear v Hvm.
  unfold get_from_disks, gets. unfold mbind at 1, pool_bind at 1. unfold multipart_stat.
  destruct (m !! (b, k)) as [[data info]|] eqn:Em; cbn [ok_or].
  - destruct Hv as (c & dn & pn & dist & shards & Hst & <- & <- & -> & Hp).
    destruct (placed_stat _ _ _ _ _ _ _ _ (co_good _ _ _ _ _ Hco) Hnm Hst Hp) as (i & s & Hs).
    rewrite Hs. cbn [mbind option_bind]. change (is_multipart (shard_meta c pn data i s)) with false. cbn iota.
    rewrite (pool_bind_ok _ _ _ _ _ (object_ec_stat p _ _ _ Hw Hs)).
    rewrite (stripe_ec _ _ _ _ _ _ _ i s Hst (co_width _ _ _ _ _ Hco)). cbn [fst snd].
    destruct (placed_read _ _ _ _ _ _ _ _ Hst Hp) as (i' & s' & Hr). rewrite (lift_ok _ _ _ _ Hr). cbn [fst snd].
    rewrite (pool_bind_ok (remember _ _ _ _) _ p _ tt eq_refl).
    rewrite (stripe_info _ _ _ _ _ _ _ i' s' Hst). eexists. split; [done|]. split; [|done].
    eapply coherent_caches; [exact Hco|done|].
    apply (rc_ok_put m _ _ (fun _ => plain_version (shard_meta c pn data i' s'))); [apply Hco|done].
  - rewrite (fresh_stat _ _ _ (co_good _ _ _ _ _ Hco) Hnm Hv). cbn [mbind option_bind].
    rewrite (pool_bind_ok _ _ _ _ _ (object_ec_none p _ _ Hw (fresh_stat _ _ _ (co_good _ _ _ _ _ Hco) Hnm Hv))).
    rewrite (fresh_read _ _ _ _ _ Hv). by exists p.
Qed.

Lemma get_coherent {P : Type} (p : VolumePool B P) m b k :
  coh p m -> live p b -> validate_object_key k = Ok tt -> named b k = true ->
  exists p', get_object label fs_read part_meta_index b k p = Some (p', ok_or (m !! (b, k)) ObjectNotFound) /\
    coh p' m /\ vp_disks p' = vp_disks p.
Proof.
  intros Hco Hl Hk Hnm. unfold get_object. rewrite (lift_ok tt) by apply Hl. rewrite (lift_ok tt) by done.
  rewrite (pool_bind_ok _ _ _ _ _ (require_bucket_ok p b Hl)).
  destruct (wc_lookup (vp_write_cache p) (b, k)) as [e|] eqn:Ew.
  - destruct (co_write _ _ _ _ _ Hco _ _ _ Ew) as (v & Hm & He).
    destruct (write_cache_get_some p b k e Ew) as (wc & Eg & Hsame). rewrite (pool_bind_ok _ _ _ _ _ Eg).
    rewrite (cached_value _ _ _ _ _ (co_width _ _ _ _ _ Hco) He), Hm. eexists. split; [done|]. split; [|done].
    eapply coherent_caches; [exact Hco|done|apply Hco].
  - rewrite (pool_bind_ok _ _ _ _ _ (write_cache_get_none p b k Ew)). unfold read_cache_get, mbind, pool_bind.
    destruct (vp_read_cache p) as [c|] eqn:Ec; [|by apply get_from_disks_ok].
    destruct (ReadCache.get c b k) as [c' [e|]] eqn:Eg.
    + apply get_found in Eg as [Hin Hsub]. pose proof (co_read _ _ _ _ _ Hco c _ Ec Hin) as Hm. cbn in Hm.
      rewrite Hm. eexists. split; [done|]. split; [|done]. eapply coherent_caches; [exact Hco|done|].
      intros ? x [= <-] Hx. apply (co_read _ _ _ _ _ Hco c); [done|by apply Hsub].
    + apply get_missed in Eg as ->.
      destruct (get_from_disks_ok (set_read_cache (Some (ReadCache.record_miss c)) p) m b k) as (p' & ? & ? & ?).
      * eapply coherent_caches; [exact Hco|done|]. intros ? x [= <-] Hx.
        by apply (co_read _ _ _ _ _ Hco c).
      * done.
      * done.
      * by exists p'.
Qed.

End Get.

Lemma head_coherent {P : Type} (p : VolumePool B P) m b k :
  coh p m -> live p b -> validate_object_key k = Ok tt -> named b k = true ->
  exists p', head_object b k p = Some (p', snd <$> ok_or (m !! (b, k)) ObjectNotFound) /\
    coh p' m /\ vp_disks p' = vp_disks p.
Proof.
  intros Hco Hl Hk Hnm. unfold head_object. rewrite (lift_ok tt) by apply Hl. rewrite (lift_ok tt) by done.
  rewrite (pool_bind_ok _ _ _ _ _ (require_bucket_ok p b Hl)).
  destruct (wc_lookup (vp_write_cache p) (b, k)) as [e|] eqn:Ew.
  - destruct (co_write _ _ _ _ _ Hco _ _ _ Ew) as (v & Hm & He).
    destruct (write_cache_get_some p b k e Ew) as (wc & Eg & Hsame). rewrite (pool_bind_ok _ _ _ _ _ Eg).
    pose proof (cached_value _ _ _ _ _ (co_width _ _ _ _ _ Hco) He) as <-. rewrite Hm.
    eexists. split; [done|]. split; [|done]. eapply coherent_caches; [exact Hco|done|apply Hco].
  - rewrite (pool_bind_ok _ _ _ _ _ (write_cache_get_none p b k Ew)). exists p. split; [|done].
    destruct (co_disks _ _ _ _ _ Hco b k Hnm) as (v & Hv & Hvm). rewrite (Hvm Ew) in Hv. clear v Hvm.
    unfold gets. unfold mbind, pool_bind. destruct (m !! (b, k)) as [[data info]|].
    + destruct Hv as (c & dn & pn & dist & shards & Hst & <- & <- & -> & Hp).
      destruct (placed_stat _ _ _ _ _ _ _ _ (co_good _ _ _ _ _ Hco) Hnm Hst Hp) as (i & s & Hs).
      rewrite Hs. cbn. by rewrite (stripe_info _ _ _ _ _ _ _ i s Hst).
    + by rewrite (fresh_stat _ _ _ (co_good _ _ _ _ _ Hco) Hnm Hv).
Qed.

(** *** DELETE *)

Lemma write_cache_remove_ok {P : Type} (p : VolumePool B P) b k :
  exists wc, write_cache_remove b k p =
      Some (set_write_cache wc p, Ok (bool_decide (is_Some (wc_lookup (vp_write_cache p) (b, k))))) /\
    wc_lookup wc (b, k) = None /\
    forall x, x <> (b, k) -> wc_lookup wc x = wc_lookup (vp_write_cache p) x.
Proof.
  unfold write_cache_remove, WriteCache.remove. destruct p as [ds q pl [c|] rc id ps]; cbn; [|by exists None].
  destruct (WriteCache.entries c !! (b, k)) as [e|] eqn:E.
  - eexists. split; [done|]. cbn. split; [apply lookup_delete_eq|]. intros x Hx. by apply lookup_delete_ne.
  - by exists (Some c).
Qed.

Lemma quorum_le dn pn : 0 < dn -> write_quorum dn pn <= dn + pn.
Proof. unfold write_quorum. case_bool_decide; lia. Qed.

(** The parameters an operation finds for an object are those of a stripe over all
    the volumes. *)
Lemma object_ec_ok {P : Type} (p : VolumePool B P) b k v :
  wc_lookup (vp_write_cache p) (b, k) = None -> named b k = true -> Forall good (vp_disks p) ->
  0 < length (vp_disks p) ->
  (N.of_nat (length (vp_disks p)) < 2 ^ 64)%N -> disks_hold (vp_disks p) b k v ->
  exists dn pn, object_ec b k p = Some (p, Ok (dn, pn)) /\ write_quorum dn pn <= length (vp_disks p).
Proof.
  intros Hw Hnm Hg Hn Hwd Hv. destruct v as [[data info]|]; cbn in Hv.
  - destruct Hv as (c & dn & pn & dist & shards & Hst & <- & <- & -> & Hp).
    destruct (placed_stat _ _ _ _ _ _ _ _ Hg Hnm Hst Hp) as (i & s & Hs).
    exists dn, pn. rewrite (object_ec_stat p _ _ _ Hw Hs), (stripe_ec _ _ _ _ _ _ _ i s Hst Hwd).
    split; [done|]. rewrite <- (st_total _ _ _ _ _ _ _ Hst) at 1. apply quorum_le, Hst.
  - exists (bucket_ec p b).1, (bucket_ec p b).2.
    rewrite (object_ec_none p _ _ Hw (fresh_stat _ _ _ Hg Hnm Hv)). destruct (bucket_ec_ok p b Hn) as [Hd Ht].
    split; [by destruct (bucket_ec p b)|]. rewrite <- Ht. by apply quorum_le.
Qed.

Lemma delete_results disks b k :
  let rs := map (fun d : B => if is_ok (read_shard d b k) then Ok tt else Err ObjectNotFound) disks in
  length (List.filter delete_counts rs) = length disks /\
  existsb is_ok rs = existsb (fun d => is_ok (read_shard d b k)) disks.
Proof.
  induction disks as [|d disks [IH1 IH2]]; [done|]. cbn in *.
  destruct (is_ok (read_shard d b k)) eqn:E; cbn; rewrite ?IH1; split; try done.
Qed.

Lemma fresh_existsb (disks : list B) b k :
  unreadable disks b k <-> existsb (fun d => is_ok (read_shard d b k)) disks = false.
Proof.
  unfold unreadable. induction disks as [|d disks IH]; cbn; [split; [done|]; intros _ j d; by rewrite lookup_nil|].
  rewrite orb_false_iff, <- IH. split.
  - intros Hf. split; [by apply (Hf 0)|]. intros j x Hx. by apply (Hf (S j)).
  - intros [Hd Hf] [|j] x Hx; [by simplify_eq/=|]. by apply (Hf j).
Qed.

Lemma delete_coherent {P : Type} (p : VolumePool B P) m b k :
  coh p m -> validate_bucket_name b = Ok tt -> validate_object_key k = Ok tt -> named b k = true ->
  exists p', pool_delete_object b k p =
      Some (p', if bool_decide (is_Some (m !! (b, k))) then Ok tt else Err ObjectNotFound) /\
    coh p' (delete (b, k) m) /\ Forall2 (only_changes b k) (vp_disks p) (vp_disks p').
Proof.
  intros Hco Hb Hk Hnm. unfold pool_delete_object. rewrite (lift_ok tt) by done. rewrite (lift_ok tt) by done.
  destruct (write_cache_remove_ok p b k) as (wc & Er & Hnone & Hsame). rewrite (pool_bind_ok _ _ _ _ _ Er).
  destruct (rc_invalidate m b k _ (co_read _ _ _ _ _ Hco)) as [Hrc Hcl]. cbn zeta in Hrc, Hcl.
  set (rc := _ <$> vp_read_cache p) in *. set (p2 := set_read_cache rc (set_write_cache wc p)).
  rewrite (pool_bind_ok (invalidate_read b k) _ _ p2 tt eq_refl).
  destruct (co_disks _ _ _ _ _ Hco b k Hnm) as (v & Hv & Hvm).
  destruct (object_ec_ok p2 b k v Hnone Hnm (co_good _ _ _ _ _ Hco) (co_pos _ _ _ _ _ Hco) (co_width _ _ _ _ _ Hco) Hv)
    as (dn & pn & Ee & Hq). rewrite (pool_bind_ok _ _ _ _ _ Ee).
  destruct (delete_all (vp_disks p) b k (co_good _ _ _ _ _ Hco) Hnm) as (Hg & Hf & Hfr & Hrs). cbn zeta in *.
  rewrite (pool_bind_ok (each_disk _) _ p2 _ _ eq_refl). cbn [vp_disks set_read_cache set_write_cache p2].
  rewrite Hrs. destruct (delete_results (vp_disks p) b k) as [Hcnt Hex]. cbn zeta in Hcnt, Hex. rewrite Hcnt, Hex.
  clear Hcnt Hex Hrs. set (found := existsb _ _).
  rewrite (bool_decide_eq_false_2 (length (vp_disks p) < _)) by (cbn [fst snd]; subst p2; cbn in Hq; lia).
  exists (set_disks (map fst (map (fun d => delete_object d b k) (vp_disks p))) p2). split.
  - destruct (wc_lookup (vp_write_cache p) (b, k)) as [e|] eqn:Ew.
    + destruct (co_write _ _ _ _ _ Hco _ _ _ Ew) as (v' & Hm & _). rewrite Hm.
      rewrite !bool_decide_eq_true_2 by done. by destruct found.
    + rewrite (Hvm eq_refl) in Hv. rewrite (bool_decide_eq_false_2 (is_Some None)) by by intros [].
      destruct (m !! (b, k)) as [[data info]|]; cbn in Hv.
      * destruct found eqn:Ef; [done|]. apply fresh_existsb in Ef.
        destruct Hv as (c & dn' & pn' & dist & shards & Hst & <- & <- & _ & Hp).
        destruct (placed_stat _ _ _ _ _ _ _ _ (co_good _ _ _ _ _ Hco) Hnm Hst Hp) as (i & s & Hs).
        by rewrite (fresh_stat _ _ _ (co_good _ _ _ _ _ Hco) Hnm Ef) in Hs.
      * apply fresh_existsb in Hv. subst found. by rewrite Hv.
  - split; [|done].
    eapply (coherent_update _ _ _ _ _ _ _ _ _ b k Hco); [done|done| |by apply rc_ok_delete|..].
    + intros x Hx. split; [by apply Hsame|by rewrite lookup_delete_ne].
    + intros e He. change (wc_lookup wc (b, k) = Some e) in He. congruence.
    + done.
    + exists None. split; [done|]. intros _. by rewrite lookup_delete_eq.
Qed.

(** *** Flushing *)

(** A cache with given entries; what it counts does not matter for coherence. *)
Definition wc_of (m : gmap CacheKey WriteCache.CacheEntry) : option WriteCache.WriteCache :=
  Some (WriteCache.mkWriteCache m 0 0 0).

Lemma flush_entries_ok es disks pl ents rc m :
  coherent disks pl (wc_of (list_to_map es ∪ ents)) rc m ->
  NoDup (map fst es) -> Forall (fun e => ents !! e.1 = None) es ->
  exists disks', flush_entries disks es = Some disks' /\ coherent disks' pl (wc_of ents) rc m /\
    same_buckets disks disks'.
Proof.
  revert disks. induction es as [|[[b k] e] es IH]; intros disks Hco Hnd Hout.
  { exists disks. split; [done|]. split; [|apply same_buckets_refl].
    eapply coherent_caches; [exact Hco| |apply Hco]. intros x. cbn. by rewrite map_empty_union. }
  apply list.NoDup_cons in Hnd as [Hk Hnd]. apply Forall_cons_1 in Hout as [Hb Hout]. cbn in Hb.
  assert (Hrest : (list_to_map es ∪ ents : gmap CacheKey WriteCache.CacheEntry) !! (b, k) = None).
  { apply lookup_union_None. split; [|done]. by apply not_elem_of_list_to_map_1. }
  destruct (co_write _ _ _ _ _ Hco b k e) as ([data info] & Hm & c & dn & pn & Hst & Hcb & Hck & Hi & Hme & _).
  { cbn. rewrite <- insert_union_l. apply lookup_insert_eq. }
  cbn [fst snd] in *.
  destruct (co_names _ _ _ _ _ Hco b k ltac:(eauto)) as [_ Hnm].
  destruct (write_stripe disks c dn pn data _ _ (co_good _ _ _ _ _ Hco) ltac:(by rewrite Hcb, Hck) Hst) as (disks1 & Ew & Hg & Hf & Hp).
  rewrite Hcb, Hck in Ew, Hf. destruct (seq_bound _ _ (st_dist _ _ _ _ _ _ _ Hst)) as (_ & Hdl & _).
  pose proof (codes_length _ _ _ _ (st_codes _ _ _ _ _ _ _ Hst)) as Hsl.
  pose proof (st_total _ _ _ _ _ _ _ Hst) as Ht.
  assert (Hco1 : coherent disks1 pl (wc_of (list_to_map es ∪ ents)) rc m).
  { eapply (coherent_update _ _ _ _ _ _ _ _ _ b k Hco); [done|done| |apply Hco|..].
    - intros x Hx. split; [|done]. cbn. rewrite <- insert_union_l. by rewrite lookup_insert_ne.
    - intros e' He'. cbn in He'. congruence.
    - apply Hco.
    - exists (Some (data, info)). rewrite Hm. split; [|done]. cbn. exists c, dn, pn, (WriteCache.distribution e), (WriteCache.shards e).
      rewrite <- (Forall2_length _ _ _ Hf). done. }
  destruct (IH disks1 Hco1 Hnd Hout) as (disks' & E & Hco' & Hs).
  exists disks'. cbn [flush_entries fst snd]. rewrite flush_is_write by (lia || by rewrite Hme, length_imap).
  rewrite Hme, Ew. split; [done|]. split; [done|].
  eapply same_buckets_trans; [by eapply changes_buckets|done].
Qed.

Lemma flush_coherent {P : Type} (p : VolumePool B P) m age t :
  coh p m -> exists p', flush_older_than age t p = Some (p', Ok tt) /\ coh p' m /\
    same_buckets (vp_disks p) (vp_disks p').
Proof.
  intros Hco. unfold flush_older_than, WriteCache.drain_primary_older_than.
  destruct (vp_write_cache p) as [c|] eqn:Ec; [|exists p; split_and!; [done|done|apply same_buckets_refl]].
  set (ks := WriteCache.select_keys _ c).
  assert (Hnd : NoDup ks) by apply WriteCache.select_keys_NoDup.
  destruct (WriteCache.drain_keys_entries ks c Hnd) as [Hl Hin]. cbn zeta in Hl, Hin.
  set (r := WriteCache.drain_keys c ks) in *.
  assert (Hnd' : NoDup (map fst r.2)) by (eapply sublist_NoDup; [exact Hnd|apply WriteCache.drain_keys_fst]).
  destruct (flush_entries_ok r.2 (vp_disks p) (vp_placement p) (WriteCache.entries r.1) (vp_read_cache p) m)
    as (disks' & E & Hco' & Hs); [|done| |].
  - eapply coherent_caches; [exact Hco| |apply Hco]. intros x. rewrite Ec. cbn.
    destruct (decide (x ∈ ks)) as [Hx|Hx].
    + destruct (WriteCache.entries c !! x) as [e|] eqn:Ex.
      * apply lookup_union_Some_l. apply elem_of_list_to_map_1; [done|]. by apply Hin.
      * apply lookup_union_None. split; [|by rewrite Hl, decide_True].
        apply not_elem_of_list_to_map_1. intros [[k' e] [-> Hke]]%list_elem_of_fmap. cbn in *.
        apply Hin in Hke as [_ Hke]. congruence.
    + rewrite lookup_union_r; [by rewrite Hl, decide_False|].
      apply not_elem_of_list_to_map_1. intros [[k' e] [-> Hke]]%list_elem_of_fmap. by apply Hin in Hke as [? _].
  - apply list.Forall_forall. intros [k' e] [Hk _]%Hin. cbn. by rewrite Hl, decide_True.
  - rewrite E. eexists. split; [done|]. cbn. split; [|done].
    eapply coherent_caches; [exact Hco'|done|apply Hco'].
Qed.

(** *** Listing *)

Definition list_spec (m : gmap CacheKey (bytes * ObjectInfo)) (b prefix : string) : list string :=
  merge_sort str_le (omap (fun e : CacheKey * (bytes * ObjectInfo) =>
    if bool_decide (e.1.1 = b) && starts_with prefix e.1.2 then Some e.1.2 else None) (map_to_list m)).

(** The keys of a bucket with a prefix, out of an association list without duplicates. *)
Lemma elem_of_select_keys {V : Type} (l : list (CacheKey * V)) b prefix k :
  k ∈ omap (fun e : CacheKey * V => if bool_decide (e.1.1 = b) && starts_with prefix e.1.2 then Some e.1.2 else None) l
  <-> (b, k) ∈ map fst l /\ starts_with prefix k = true.
Proof.
  rewrite list_elem_of_omap, list_elem_of_fmap. split.
  - intros ([[b' k'] v] & Hin & E). cbn in E. case_bool_decide as Eb; [|done]. subst b'. cbn in E.
    destruct (starts_with prefix k') eqn:Es; [|done]. injection E as ->. split; [|done]. by exists ((b, k), v).
  - intros [([[b' k'] v] & [= <- <-] & Hin) Hs]. exists ((b, k), v). split; [done|]. cbn.
    by rewrite bool_decide_eq_true_2, Hs.
Qed.

Lemma select_keys_nodup {V : Type} (l : list (CacheKey * V)) b prefix :
  NoDup (map fst l) ->
  NoDup (omap (fun e : CacheKey * V => if bool_decide (e.1.1 = b) && starts_with prefix e.1.2 then Some e.1.2 else None) l).
Proof.
  induction l as [|[[b' k'] v] l IH]; intros Hnd; [constructor|]. cbn in Hnd |- *.
  apply list.NoDup_cons in Hnd as [Hn Hnd]. specialize (IH Hnd).
  case_bool_decide as Eb; cbn; [|done]. subst b'. destruct (starts_with prefix k'); [|done].
  constructor; [|done]. rewrite elem_of_select_keys. by intros [? _].
Qed.

Lemma elem_of_list_spec m b prefix k :
  k ∈ list_spec m b prefix <-> is_Some (m !! (b, k)) /\ starts_with prefix k = true.
Proof.
  unfold list_spec. rewrite merge_sort_Permutation, elem_of_select_keys. f_equiv. rewrite list_elem_of_fmap. split.
  - intros ([? v] & -> & Hin%elem_of_map_to_list). eauto.
  - intros [v Hv]. exists ((b, k), v). split; [done|]. by apply elem_of_map_to_list.
Qed.

Lemma elem_of_cached_keys (c : WriteCache.WriteCache) b prefix k :
  k ∈ WriteCache.list_keys c b prefix <-> is_Some (WriteCache.entries c !! (b, k)) /\ starts_with prefix k = true.
Proof.
  unfold WriteCache.list_keys. rewrite elem_of_select_keys. f_equiv. rewrite list_elem_of_fmap. split.
  - intros ([? v] & -> & Hin%elem_of_map_to_list). eauto.
  - intros [v Hv]. exists ((b, k), v). split; [done|]. by apply elem_of_map_to_list.
Qed.

Lemma merge_keys_spec keys cached :
  NoDup keys -> NoDup (merge_keys keys cached) /\ Sorted str_le (merge_keys keys cached) /\
  forall k, k ∈ merge_keys keys cached <-> k ∈ keys \/ k ∈ cached.
Proof.
  intros Hnd. unfold merge_keys. set (f := fun ks k => _).
  assert (Hf : NoDup (fold_left f cached keys) /\ forall k, k ∈ fold_left f cached keys <-> k ∈ keys \/ k ∈ cached).
  { revert keys Hnd. induction cached as [|x cached IH]; intros keys Hnd; cbn; [split; [done|set_solver]|].
    destruct (IH (f keys x)) as [IH1 IH2].
    - unfold f. case_bool_decide; [done|]. apply list.NoDup_app. split_and!; [done|set_solver|apply NoDup_singleton].
    - split; [done|]. intros k. rewrite IH2. unfold f. case_bool_decide; set_solver. }
  split_and!; [rewrite merge_sort_Permutation; apply Hf|apply Sorted_merge_sort, _|].
  intros k. rewrite merge_sort_Permutation. apply Hf.
Qed.

(** The listing of the pool comes from some volume, and is exact on the volumes' objects. *)
Lemma first_listing_ok {P : Type} (p : VolumePool B P) m b prefix :
  coh p m -> live p b -> validate_object_prefix prefix = Ok tt ->
  let ks := first_listing b prefix (vp_disks p) in
  Sorted str_le ks /\ NoDup ks /\
  (forall k, k ∈ ks -> named b k = true /\ starts_with prefix k = true) /\
  forall k, wc_lookup (vp_write_cache p) (b, k) = None ->
    k ∈ ks <-> is_Some (m !! (b, k)) /\ starts_with prefix k = true.
Proof.
  intros Hco [_ Hl] Hvp ks. pose proof (co_good _ _ _ _ _ Hco) as Hg. rewrite list.Forall_forall in Hg.
  destruct (head_omap (fun d => result_ok (list_objects d b prefix)) (vp_disks p)) as (d & l & Hd & El & Hh).
  { apply existsb_exists in Hl as (d & Hd%list_elem_of_In & Hb). pose proof (list_good d b prefix (Hg d Hd) Hvp) as Hok.
    destruct (list_objects d b prefix) as [l|] eqn:El; [|by rewrite Hok in Hb]. exists d, l. by rewrite El. }
  assert (Eks : ks = l) by (subst ks; unfold first_listing; by rewrite Hh). rewrite Eks. clear Hh Eks ks.
  pose proof (list_good d b prefix (Hg d Hd) Hvp) as Hok. destruct (list_objects d b prefix) as [l'|]; [|done].
  injection El as ->. destruct Hok as (Hs & Hnd & Hin). split_and!; [done|done|by intros k (? & _ & ?)%Hin|].
  intros k Hw. rewrite Hin. apply list_elem_of_lookup in Hd as [j Hj]. split.
  - intros (Hnm & Hr & Hp). split; [|done]. destruct (co_disks _ _ _ _ _ Hco b k Hnm) as (v & Hv & Hvm).
    rewrite (Hvm Hw) in Hv. destruct (m !! (b, k)); [eauto|]. by rewrite (Hv j d Hj) in Hr.
  - intros [Hm Hp]. destruct (co_names _ _ _ _ _ Hco b k Hm) as [_ Hnm].
    destruct (co_disks _ _ _ _ _ Hco b k Hnm) as (v & Hv & Hvm). rewrite (Hvm Hw) in Hv.
    destruct Hm as [[data info] Hm]. rewrite Hm in Hv.
    destruct Hv as (c & dn & pn & dist & shards & Hst & <- & <- & _ & Hpl). split_and!; [done| |done].
    by eapply (placed_everywhere c dn pn data dist shards (vp_disks p) j).
Qed.

Lemma all_keys_ok {P : Type} (p : VolumePool B P) m b prefix :
  coh p m -> live p b -> validate_object_prefix prefix = Ok tt -> all_keys b prefix p = list_spec m b prefix.
Proof.
  intros Hco Hl Hvp. destruct (first_listing_ok p m b prefix Hco Hl Hvp) as (Hs & Hnd & Hnm & Hin). cbn zeta in *.
  unfold all_keys. set (ks := first_listing b prefix (vp_disks p)) in *. apply (Sorted_unique str_le).
  - destruct (vp_write_cache p); [|done]. by apply merge_keys_spec.
  - apply Sorted_merge_sort, _.
  - apply NoDup_Permutation.
    + destruct (vp_write_cache p); [|done]. by apply merge_keys_spec.
    + unfold list_spec. rewrite merge_sort_Permutation. apply select_keys_nodup, NoDup_fst_map_to_list.
    + intros k. rewrite elem_of_list_spec. destruct (vp_write_cache p) as [c|] eqn:Ec; [|by apply Hin].
      destruct (merge_keys_spec ks (WriteCache.list_keys c b prefix) Hnd) as (_ & _ & ->).
      rewrite elem_of_cached_keys. destruct (WriteCache.entries c !! (b, k)) as [e|] eqn:Ee.
      * destruct (co_write _ _ _ _ _ Hco b k e) as (v & Hm & _); [by rewrite Ec|]. rewrite Hm.
        split; [|naive_solver]. intros [Hk|[_ Hk]]; [|eauto]. split; [eauto|]. by apply Hnm in Hk as [_ ?].
      * rewrite Hin by (by rewrite Ec || done). naive_solver.
Qed.

Lemma list_plain_ok {P : Type} (p : VolumePool B P) m b keys objs :
  coh p m -> live p b -> Forall (fun k => is_Some (m !! (b, k))) keys ->
  exists p', list_plain b keys objs p = Some (p', Ok (objs ++ omap (fun k => snd <$> m !! (b, k)) keys)) /\
    coh p' m /\ vp_disks p' = vp_disks p.
Proof.
  revert p objs. induction keys as [|k keys IH]; intros p objs Hco Hl Hk.
  { exists p. cbn. by rewrite app_nil_r. }
  apply Forall_cons_1 in Hk as [[v Hv] Hk]. cbn [list_plain].
  destruct (head_coherent p m b k Hco Hl) as (p1 & E & Hco1 & Hd1); [apply (co_names _ _ _ _ _ Hco b); eauto|apply (co_names _ _ _ _ _ Hco b); eauto|].
  destruct (IH p1 (objs ++ [v.2]) Hco1) as (p' & E' & Hco' & Hd'); [|done|].
  { destruct Hl as [? He]. split; [done|]. by rewrite Hd1. }
  exists p'. rewrite (pool_bind_ok (attempt (head_object b k)) _ p p1 (Some v.2)).
  - cbn [option_list omap list_omap]. rewrite Hv. cbn. rewrite E', <- app_assoc. split_and!; [done|done|by rewrite Hd'].
  - unfold attempt. rewrite E, Hv. done.
Qed.

Lemma list_coherent {P : Type} (p : VolumePool B P) m b opts :
  coh p m -> live p b -> validate_object_prefix (lo_prefix opts) = Ok tt -> lo_delimiter opts = "" ->
  let objects := omap (fun k => snd <$> m !! (b, k)) (list_spec m b (lo_prefix opts)) in
  let max_keys := if bool_decide (lo_max_keys opts = 0) then N.to_nat 1000 else lo_max_keys opts in
  exists p', pool_list_objects b opts p =
      Some (p', Ok (mkListResult objects [] (bool_decide (max_keys < length objects + 0)) "")) /\
    coh p' m /\ vp_disks p' = vp_disks p.
Proof.
  intros Hco Hl Hp Hd objects max_keys. unfold pool_list_objects. rewrite (lift_ok tt) by apply Hl.
  rewrite (lift_ok tt) by done. rewrite (pool_bind_ok _ _ _ _ _ (require_bucket_ok p b Hl)).
  rewrite (pool_bind_ok (gets _) _ p p _ eq_refl), (all_keys_ok p m) by done.
  destruct (list_plain_ok p m b (list_spec m b (lo_prefix opts)) [] Hco Hl) as (p' & E & Hco' & Hd').
  { apply list.Forall_forall. intros k. rewrite elem_of_list_spec. by intros [? _]. }
  exists p'. rewrite (bool_decide_eq_true_2 (lo_delimiter opts = _)) by done.
  rewrite (pool_bind_ok _ _ p p' (objects, [])); [split_and!; [reflexivity|done|done]|].
  by rewrite (pool_bind_ok _ _ _ _ _ E).
Qed.

End Coherence.
