(* ===== verification/PoolRefine.v ===== *)
(** The volume pool implements a map from objects to values: the refinement theorem,
    an in-memory volume that satisfies what the pool relies on, and theorems about
    single operations of the pool. *)

From Stdlib Require Import Ascii.
From stdpp Require Import base list gmap strings numbers pretty sorting.
From S2P Require Import Prelude Metadata Pathing Placement Erasure Backend ErasureDecode ErasurePut.
From S2P Require Import Caches Heal RaftFsm VolumePool PoolSpec.

(** ** Operations on small objects *)

Inductive pool_op : Type :=
| OpPut (b k : string) (chunks : list bytes) (opts : PutOptions) (content_length : nat) (t : Clock)
| OpGet (b k : string)
| OpHead (b k : string)
| OpDelete (b k : string)
| OpList (b prefix : string) (max_keys : nat)
| OpFlush (age : N) (t : Clock).

Inductive pool_out : Type :=
| OutInfo (r : Result ObjectInfo)
| OutData (r : Result (bytes * ObjectInfo))
| OutUnit (r : Result unit)
| OutList (r : Result ListResult).

(** The map that the pool implements. *)
Definition pool_spec `{Hashes} (m : gmap CacheKey (bytes * ObjectInfo)) (op : pool_op)
    : gmap CacheKey (bytes * ObjectInfo) * pool_out :=
  match op with
  | OpPut b k chunks opts _ t =>
      let info := small_info b k opts (concat chunks) (now_secs t) in
      (<[(b, k) := (concat chunks, info)]> m, OutInfo (Ok info))
  | OpGet b k => (m, OutData (ok_or (m !! (b, k)) ObjectNotFound))
  | OpHead b k => (m, OutInfo (snd <$> ok_or (m !! (b, k)) ObjectNotFound))
  | OpDelete b k =>
      (delete (b, k) m, OutUnit (if bool_decide (is_Some (m !! (b, k))) then Ok tt else Err ObjectNotFound))
  | OpList b prefix max_keys =>
      let objects := omap (fun k => snd <$> m !! (b, k)) (list_spec m b prefix) in
      let max_keys := if bool_decide (max_keys = 0) then N.to_nat 1000 else max_keys in
      (m, OutList (Ok (mkListResult objects [] (bool_decide (max_keys < length objects + 0)) "")))
  | OpFlush _ _ => (m, OutUnit (Ok tt))
  end.

Fixpoint spec_run `{Hashes} (m : gmap CacheKey (bytes * ObjectInfo)) (ops : list pool_op)
    : gmap CacheKey (bytes * ObjectInfo) * list pool_out :=
  match ops with
  | [] => (m, [])
  | op :: ops => let r := pool_spec m op in let rest := spec_run r.1 ops in (rest.1, r.2 :: rest.2)
  end.

Section Refine.
  Context `{Hashes} `{ReedSolomon} `{UuidParser} `{ObjectNames} {B W P : Type} `{!Backend B W} `{!HealBackend B}
          `{!PoolBackend B} `{!PeerCache P}.
  Context (block : nat).
  Context (label : B -> string) (fs_read : Path -> option bytes) (part_meta_index : bytes -> option nat).

Definition pool_step (p : VolumePool B P) (op : pool_op) : option (VolumePool B P * pool_out) :=
  match op with
  | OpPut b k chunks opts len t =>
      r ← put_object_stream block b k (map Ok chunks) opts None (Some len) t p; Some (r.1, OutInfo r.2)
  | OpGet b k => r ← get_object label fs_read part_meta_index b k p; Some (r.1, OutData r.2)
  | OpHead b k => r ← head_object b k p; Some (r.1, OutInfo r.2)
  | OpDelete b k => r ← pool_delete_object b k p; Some (r.1, OutUnit r.2)
  | OpList b prefix max_keys =>
      r ← pool_list_objects b (mkListOptions prefix "" "" max_keys "") p; Some (r.1, OutList r.2)
  | OpFlush age t => r ← flush_older_than age t p; Some (r.1, OutUnit r.2)
  end.

Fixpoint pool_run (p : VolumePool B P) (ops : list pool_op) : option (VolumePool B P * list pool_out) :=
  match ops with
  | [] => Some (p, [])
  | op :: ops => r ← pool_step p op; rest ← pool_run r.1 ops; Some (rest.1, r.2 :: rest.2)
  end.

(** Valid names of objects in use, a bucket that exists, an object of at most [LOG_THRESHOLD] declared
    bytes with a tolerance the volumes allow.  A PUT of an object that the write
    cache holds must be taken by the write cache: otherwise the old entry stays. *)
Definition bucket_live (p : VolumePool B P) (b : string) : bool :=
  is_ok (validate_bucket_name b) && existsb (fun d => bucket_exists d b) (vp_disks p).

Definition admissible (p : VolumePool B P) (op : pool_op) : bool :=
  match op with
  | OpPut b k chunks opts len t =>
      bucket_live p b && (is_ok (validate_object_key k) && named b k) && bool_decide (N.of_nat len <= LOG_THRESHOLD)%N &&
      match ec_ftt opts with Some f => bool_decide (f < length (vp_disks p)) | None => true end &&
      bool_decide (N.of_nat (length (concat chunks)) < 2 ^ 64)%N &&
      (match wc_lookup (vp_write_cache p) (b, k) with None => true | Some _ => false end
       || will_cache b k (concat chunks) opts t p)
  | OpGet b k | OpHead b k => bucket_live p b && (is_ok (validate_object_key k) && named b k)
  | OpDelete b k => is_ok (validate_bucket_name b) && (is_ok (validate_object_key k) && named b k)
  | OpList b prefix _ => bucket_live p b && is_ok (validate_object_prefix prefix)
  | OpFlush _ _ => true
  end.

Fixpoint admissible_run (p : VolumePool B P) (ops : list pool_op) : bool :=
  match ops with
  | [] => true
  | op :: ops => admissible p op &&
                 match pool_step p op with Some (p', _) => admissible_run p' ops | None => false end
  end.

Lemma is_ok_unit (r : Result unit) : is_ok r = true -> r = Ok tt.
Proof. by destruct r as [[]|]. Qed.

Lemma bucket_live_ok p b : bucket_live p b = true -> live p b.
Proof. intros [Hv He]%andb_true_iff. split; [by apply is_ok_unit|done]. Qed.

Context `{!ReedSolomonOk} `{!PoolBackendOk B W}.

Lemma pool_step_refines p m op :
  coh p m -> admissible p op = true ->
  exists p', pool_step p op = Some (p', (pool_spec m op).2) /\ coh p' (pool_spec m op).1.
Proof.
  intros Hco Ha. destruct op as [b k chunks opts len t|b k|b k|b k|b prefix n|age t]; cbn [pool_step pool_spec fst snd];
    cbn [admissible] in Ha; rewrite ?andb_true_iff in Ha.
  - destruct Ha as [[[[[Hl%bucket_live_ok [Hk%is_ok_unit Hnm]] Hlen%bool_decide_eq_true] Hf0] Hd%bool_decide_eq_true] Hc0].
    assert (Hf : forall f, ec_ftt opts = Some f -> f < length (vp_disks p)).
    { intros f Ef. rewrite Ef in Hf0. by apply bool_decide_eq_true in Hf0. }
    assert (Hc : wc_lookup (vp_write_cache p) (b, k) = None \/ will_cache b k (concat chunks) opts t p = true).
    { apply orb_true_iff in Hc0 as [Hc0|Hc0]; [left|by right]. by destruct (wc_lookup _ _). }
    destruct (put_small_coherent p m b k chunks opts t Hco Hk Hnm Hf Hd Hc) as (p' & E & Hco' & _).
    exists p'. split; [|done]. unfold put_object_stream.
    rewrite (lift_ok tt) by apply Hl. rewrite (lift_ok tt) by done. rewrite (lift_ok tt) by done.
    rewrite (pool_bind_ok _ _ _ _ _ (require_bucket_ok p b Hl)).
    rewrite bool_decide_eq_true_2 by done. by rewrite E.
  - destruct Ha as [Hl%bucket_live_ok [Hk%is_ok_unit Hnm]].
    destruct (get_coherent label fs_read part_meta_index p m b k Hco Hl Hk Hnm) as (p' & E & Hco' & _).
    exists p'. by rewrite E.
  - destruct Ha as [Hl%bucket_live_ok [Hk%is_ok_unit Hnm]].
    destruct (head_coherent p m b k Hco Hl Hk Hnm) as (p' & E & Hco' & _). exists p'. by rewrite E.
  - destruct Ha as [Hb%is_ok_unit [Hk%is_ok_unit Hnm]].
    destruct (delete_coherent p m b k Hco Hb Hk Hnm) as (p' & E & Hco' & _). exists p'. by rewrite E.
  - destruct (list_coherent p m b (mkListOptions prefix "" "" n "") Hco (bucket_live_ok _ _ (proj1 Ha))
      (is_ok_unit _ (proj2 Ha)) eq_refl) as (p' & E & Hco' & _). exists p'. by rewrite E.
  - destruct (flush_coherent p m age t Hco) as (p' & E & Hco' & _). exists p'. by rewrite E.
Qed.

Lemma pool_run_refines p m ops : coh p m -> admissible_run p ops = true ->
  exists p', pool_run p ops = Some (p', (spec_run m ops).2) /\ coh p' (spec_run m ops).1.
Proof.
  revert p m. induction ops as [|op ops IH]; intros p m Hco Ha; [by exists p|]. cbn in Ha. apply andb_true_iff in Ha as [Ha Hr].
  destruct (pool_step_refines p m op Hco Ha) as (p1 & E & Hco1).
  rewrite E in Hr. destruct (IH p1 _ Hco1 Hr) as (p' & E' & Hco'). exists p'. cbn. rewrite E. cbn. rewrite E'. done.
Qed.

End Refine.

(** C3: The pool, with its write cache, its read cache, its peers and its volumes,
    implements a map from objects to values: under every admissible sequence of
    small PUTs, GETs, HEADs, DELETEs, listings and flushes of the write cache, no
    operation panics, each answers what the map answers (a listing: the objects under
    the prefix in the order of their keys), and the caches and volumes end up agreeing
    on the map.  It is for the objects in use ([named]) and volumes that keep the laws of
    [PoolBackendOk] for them: those of memory below for all names, and the repository's
    local volume without a log when no key in use lies below another (LocalBackend); with
    nested keys, or with its log, the local volume breaks the law of deletion
    (delete_destroys_nested, delete_pending_reveals_files). *)
Theorem pool_refines_map `{Hashes} `{ReedSolomon} `{UuidParser} `{!ObjectNames} {B W P : Type} `{!Backend B W}
    `{!HealBackend B} `{!PoolBackend B} `{!PeerCache P} `{!ReedSolomonOk} `{!PoolBackendOk B W}
    block label fs_read part_meta_index (p : VolumePool B P) m ops :
  coh p m -> admissible_run block label fs_read part_meta_index p ops = true ->
  exists p', pool_run block label fs_read part_meta_index p ops = Some (p', (spec_run m ops).2) /\
    coh p' (spec_run m ops).1.
Proof. exact (pool_run_refines block label fs_read part_meta_index p m ops). Qed.

(** ** A volume in memory *)

Record MemVolume : Type := mkMemVolume {
  mv_id : string;
  mv_readonly : bool;
  mv_buckets : gset string;
  mv_settings : gmap string BucketSettings;
  mv_metas : gmap (string * string) (list ObjectMeta);
  mv_data : gmap (string * string * string) bytes;
}.

Definition mv_set (metas : gmap (string * string) (list ObjectMeta)) (data : gmap (string * string * string) bytes)
    (d : MemVolume) : MemVolume := mkMemVolume (mv_id d) (mv_readonly d) (mv_buckets d) (mv_settings d) metas data.
Definition mv_set_buckets (bs : gset string) (st : gmap string BucketSettings) (d : MemVolume) : MemVolume :=
  mkMemVolume (mv_id d) (mv_readonly d) bs st (mv_metas d) (mv_data d).

Definition mv_versions (d : MemVolume) (b k : string) : list ObjectMeta := default [] (mv_metas d !! (b, k)).

Definition mv_current (d : MemVolume) (b k : string) : option ObjectMeta :=
  List.find (fun m => negb (is_delete_marker m)) (mv_versions d b k).

Definition mv_read (d : MemVolume) (b k : string) (m : option ObjectMeta) : Result (bytes * ObjectMeta) :=
  m ← ok_or m ObjectNotFound;
  data ← ok_or (mv_data d !! (b, k, version_id m)) ObjectNotFound;
  Ok (data, m).

(** A refused write. *)
Definition mv_guard (d : MemVolume) (d' : MemVolume) : MemVolume * Result unit :=
  if mv_readonly d then (d, Err (Io "read-only file system")) else (d', Ok tt).

Definition mv_put (d : MemVolume) (b k vid : string) (data : bytes) (m : ObjectMeta) : MemVolume * Result unit :=
  let vs := if bool_decide (vid = "") then [m] else m :: map (set_is_latest false) (mv_versions d b k) in
  mv_guard d (mv_set (<[(b, k) := vs]> (mv_metas d)) (<[(b, k, vid) := data]> (mv_data d)) d).

Record MvWriter : Type := mkMvWriter {
  mvw_object : string * string * option string;
  mvw_bytes : bytes;
}.

Global Instance mv_backend : Backend MemVolume MvWriter := {|
  open_shard_writer := fun d b k v => (d, Ok (mkMvWriter (b, k, v) []));
  write_chunk := fun d w c => (d, Ok (mkMvWriter (mvw_object w) (mvw_bytes w ++ c)));
  finalize := fun d w m => let '(b, k, v) := mvw_object w in mv_put d b k (default "" v) (mvw_bytes w) m;
  read_shard := fun d b k => mv_read d b k (mv_current d b k);
  read_versioned_shard := fun d b k v =>
    mv_read d b k (List.find (fun m => bool_decide (version_id m = v)) (mv_versions d b k));
  stat_object := fun d b k => ok_or (mv_current d b k) ObjectNotFound;
  delete_object := fun d b k =>
    match mv_current d b k with
    | None => (d, Err ObjectNotFound)
    | Some _ => mv_guard d (mv_set (delete (b, k) (mv_metas d)) (mv_data d) d)
    end;
|}.

Global Instance mv_heal_backend : HealBackend MemVolume := {|
  write_shard := fun d b k data m => mv_put d b k "" data m;
  info_volume_id := mv_id;
  list_buckets := fun d => Ok (merge_sort str_le (elements (mv_buckets d)));
  list_objects := fun d b prefix =>
    Ok (merge_sort str_le (List.filter (fun k => is_ok (mv_read d b k (mv_current d b k)))
          (omap (fun o : CacheKey * list ObjectMeta =>
             if bool_decide (o.1.1 = b) && starts_with prefix o.1.2 then Some o.1.2 else None)
             (map_to_list (mv_metas d)))));
|}.

Global Instance mv_pool_backend : PoolBackend MemVolume := {|
  set_volume_id := fun id d => mkMemVolume id (mv_readonly d) (mv_buckets d) (mv_settings d) (mv_metas d) (mv_data d);
  bucket_exists := fun d b => bool_decide (b ∈ mv_buckets d);
  disk_make_bucket := fun d b => if bool_decide (b ∈ mv_buckets d) then (d, Err BucketExists)
    else mv_guard d (mv_set_buckets ({[b]} ∪ mv_buckets d) (mv_settings d) d);
  disk_delete_bucket := fun d b => mv_guard d (mv_set_buckets (mv_buckets d ∖ {[b]}) (mv_settings d) d);
  bucket_created_at := fun _ _ => 0%N;
  read_meta_versions := fun d b k => Ok (mv_versions d b k);
  write_meta_versions := fun d b k vs => mv_guard d (mv_set (<[(b, k) := vs]> (mv_metas d)) (mv_data d) d);
  delete_version_data := fun d b k vid =>
    mv_guard d (mv_set (<[(b, k) := List.filter (fun m => negb (bool_decide (version_id m = vid))) (mv_versions d b k)]>
                         (mv_metas d)) (mv_data d) d);
  read_bucket_settings := fun d b => default default_settings (mv_settings d !! b);
  write_bucket_settings := fun d b s => mv_guard d (mv_set_buckets (mv_buckets d) (<[b := s]> (mv_settings d)) d);
  drain_pending_writes := fun d => d;
|}.

(** In good order: writable, and every live version has its data. *)
Definition mv_good (d : MemVolume) : Prop :=
  mv_readonly d = false /\ forall b k m, mv_current d b k = Some m -> is_Some (mv_data d !! (b, k, version_id m)).

Lemma mv_current_ne d b k b' k' vs data :
  (b', k') <> (b, k) -> mv_current (mv_set (<[(b, k) := vs]> (mv_metas d)) data d) b' k' = mv_current d b' k'.
Proof. intros Hne. unfold mv_current, mv_versions. cbn. by rewrite lookup_insert_ne. Qed.

Lemma mv_read_data d b k m data :
  (forall v, data !! (b, k, v) = mv_data d !! (b, k, v)) ->
  mv_read (mv_set (mv_metas d) data d) b k m = mv_read d b k m.
Proof. intros Hd. unfold mv_read. cbn. destruct m as [m|]; [|done]. cbn. by rewrite Hd. Qed.

(** A map has room for every name. *)
Definition all_names : ObjectNames := fun _ _ => true.
Local Existing Instance all_names.

Lemma mv_put_changes d b k vid s m d' :
  mv_put d b k vid s m = (d', Ok tt) -> only_changes b k d d'.
Proof.
  unfold mv_put, mv_guard. destruct (mv_readonly d); [done|]. intros [= <-]. constructor; [|done..].
  intros b' k' _ Hne. cbn. rewrite mv_current_ne by done.
  unfold mv_read. destruct (mv_current d b' k') as [m'|]; [|done]. cbn.
  by rewrite lookup_insert_ne by (intros [=]; congruence).
Qed.

Global Instance mv_pool_backend_ok : PoolBackendOk MemVolume MvWriter.
Proof.
  refine {| good := mv_good |}.
  - intros d b k s m [Hw Hd] _ (Hv & Hm & _ & _).
    assert (E : exists d', write_shard d b k s m = (d', Ok tt)) by (cbn; unfold mv_put, mv_guard; rewrite Hw; eauto).
    destruct E as [d' E]. exists d'. split; [done|]. pose proof (mv_put_changes d b k "" s m d' E) as Hoc.
    cbn in E. unfold mv_put, mv_guard in E. rewrite Hw in E. injection E as <-.
    assert (Hcur : mv_current (mv_set (<[(b, k) := [m]]> (mv_metas d)) (<[(b, k, "") := s]> (mv_data d)) d) b k = Some m).
    { unfold mv_current, mv_versions. cbn. rewrite lookup_insert_eq. cbn. by rewrite Hm. }
    split_and!; [|done|].
    + split; [done|]. intros b' k' m' Hc'. destruct (decide ((b', k') = (b, k))) as [[= -> ->]|Hne].
      * rewrite Hcur in Hc'. injection Hc' as <-. cbn. rewrite Hv, lookup_insert_eq. eauto.
      * rewrite mv_current_ne in Hc' by done. cbn.
        rewrite lookup_insert_ne by (intros [=]; congruence). by apply Hd.
    + cbn [read_shard mv_backend]. rewrite Hcur. unfold mv_read. cbn.
      by rewrite Hv, lookup_insert_eq.
  - intros d b k [_ Hd] _. cbn. destruct (mv_current d b k) as [m|] eqn:E; [|done]. unfold mv_read. cbn.
    by destruct (Hd _ _ _ E) as [s ->].
  - intros d b k [Hw Hd] _. cbn. destruct (mv_current d b k) as [m|] eqn:E.
    + destruct (Hd _ _ _ E) as [s Hs].
      assert (Hr : mv_read d b k (Some m) = Ok (s, m)) by (unfold mv_read; cbn; by rewrite Hs).
      rewrite Hr. cbn [is_ok]. unfold mv_guard. rewrite Hw.
      set (d' := mv_set _ _ d).
      assert (Hsame : forall b' k', (b', k') <> (b, k) -> mv_current d' b' k' = mv_current d b' k').
      { intros b' k' Hne. unfold mv_current, mv_versions, d'. cbn. by rewrite lookup_delete_ne. }
      assert (Hgone : mv_current d' b k = None).
      { unfold mv_current, mv_versions, d'. cbn. by rewrite lookup_delete_eq. }
      exists d'. split_and!; [done| | |].
      * split; [done|]. intros b' k' m' Hc. destruct (decide ((b', k') = (b, k))) as [[= -> ->]|Hne]; [congruence|].
        rewrite Hsame in Hc by done. by apply Hd.
      * constructor; [|done..]. intros b' k' _ Hne. cbn. by rewrite Hsame.
      * cbn. by rewrite Hgone.
    + exists d. split_and!; [done|by split|reflexivity|]. cbn. by rewrite E.
  - intros d b prefix _ _. cbn [list_objects mv_heal_backend]. split_and!; [apply Sorted_merge_sort, _| |].
    + rewrite merge_sort_Permutation. apply NoDup_ListNoDup, List.NoDup_filter, NoDup_ListNoDup, select_keys_nodup,
        NoDup_fst_map_to_list.
    + intros k. rewrite merge_sort_Permutation, list_elem_of_In, filter_In, <- list_elem_of_In, elem_of_select_keys.
      split; [intros [[_ ?] ?]; done|]. intros (_ & Hr & Hs). split_and!; [|done|done]. cbn in Hr.
      unfold mv_current, mv_versions in Hr. destruct (mv_metas d !! (b, k)) as [vs|] eqn:E; [|done].
      apply list_elem_of_fmap. exists ((b, k), vs). split; [done|]. by apply elem_of_map_to_list.
Defined.

(** A peer in memory, or one that does not answer. *)
Definition MemPeer : Type := option WriteCache.WriteCache.

Global Instance mem_peer : PeerCache MemPeer := {|
  replicate_entry := fun p b k e =>
    match p with
    | None => (None, Err "unreachable")
    | Some c => let r := WriteCache.insert c b k e in (Some r.1, if r.2 then Ok tt else Err "peer cache full")
    end;
  sync_pull := fun p node =>
    match p with
    | None => (None, Err "unreachable")
    | Some c => let r := WriteCache.drain_by_primary c node in (Some r.1, Ok r.2)
    end;
|}.

Lemma coh_start `{Hashes} `{ReedSolomon} `{!ObjectNames} {B W P : Type} `{!Backend B W} `{!HealBackend B} `{!PoolBackend B}
    `{!PoolBackendOk B W} (p : VolumePool B P) :
  Forall good (vp_disks p) -> 0 < length (vp_disks p) -> (N.of_nat (length (vp_disks p)) < 2 ^ 64)%N ->
  map pv_backend_index (pt_disks (vp_placement p)) ≡ₚ seq 0 (length (vp_disks p)) ->
  (forall dn pn, 0 < dn -> 0 < pn -> dn + pn = length (vp_disks p) -> rs_new_ok dn pn = true) ->
  (forall c, vp_read_cache p = Some c -> ReadCache.lru c = []) ->
  (forall c, vp_write_cache p = Some c -> WriteCache.entries c = ∅) ->
  (forall b k, named b k = true -> unreadable (vp_disks p) b k) -> coh p ∅.
Proof.
  intros Hg Hn Hw Ht Hrs Hr Hwc Hf. constructor; try done.
  - intros c x Hc Hx. rewrite (Hr c Hc) in Hx. by apply elem_of_nil in Hx.
  - intros b k e He. destruct (vp_write_cache p) as [c|]; [|done]. cbn in He. by rewrite (Hwc c eq_refl) in He.
  - intros b k [v Hv]. by rewrite lookup_empty in Hv.
  - intros b k Hnm. exists None. split; [by apply Hf|done].
Qed.

Section Demo.
  Local Existing Instances example_hashes xor_code xor_code_ok.

Definition demo_uuid : UuidParser := fun s => bool_decide (s = "v1") || bool_decide (s = "v2").
Local Existing Instance demo_uuid.

Definition demo_disk (id : string) : MemVolume := mkMemVolume id false {[ "photos" ]} ∅ ∅ ∅.
Definition demo_topology : PlacementTopology :=
  mkPlacementTopology 1 "local-set" [mkPlacementVolume 0 "local" "v1"; mkPlacementVolume 1 "local" "v2"].

(** Two volumes, a write cache with room for one small object and a read cache. *)
Definition demo_pool : VolumePool MemVolume MemPeer :=
  mkVolumePool [demo_disk "v1"; demo_disk "v2"] None demo_topology (Some (WriteCache.new 700))
    (Some (ReadCache.new 1000 200)) "n1" [].

Definition demo_clock (n : N) : Clock := mkClock n n n.
Definition demo_opts : PutOptions := mkPutOptions "" ∅ ∅ None None false.

Lemma demo_coh : coh demo_pool ∅.
Proof.
  apply coh_start.
  - by repeat constructor.
  - cbn. lia.
  - cbn. lia.
  - done.
  - intros dn pn Hd Hp Hn. cbn in Hn. assert (pn = 1) as -> by lia. by assert (dn = 1) as -> by lia.
  - by intros c [= <-].
  - by intros c [= <-].
  - intros b k _ [|[|j]] d Hj; cbn in Hj; simplify_eq; done.
Qed.

Definition demo_ops : list pool_op :=
  [ OpPut "photos" "cat" [bytes_of "mia"; bytes_of "ow"] demo_opts 5 (demo_clock 1);
    OpPut "photos" "dog" [bytes_of "woof"] demo_opts 4 (demo_clock 2);
    OpGet "photos" "cat"; OpGet "photos" "dog"; OpFlush 1 (demo_clock 5); OpGet "photos" "cat";
    OpPut "photos" "cat" [] demo_opts 0 (demo_clock 6); OpList "photos" "" 1; OpDelete "photos" "dog"; OpHead "photos" "dog";
    OpHead "photos" "cat" ].

Definition no_label (d : MemVolume) : string := "".
Definition no_file (p : Path) : option bytes := None.
Definition no_index (b : bytes) : option nat := None.

Lemma pool_refines_map_witness :
  admissible_run 16 no_label no_file no_index demo_pool demo_ops = true /\
  exists p', pool_run 16 no_label no_file no_index demo_pool demo_ops = Some (p', (spec_run ∅ demo_ops).2) /\
    coh p' (spec_run ∅ demo_ops).1.
Proof.
  assert (Ha : admissible_run 16 no_label no_file no_index demo_pool demo_ops = true) by (vm_compute; reflexivity).
  split; [exact Ha|]. exact (pool_refines_map 16 no_label no_file no_index demo_pool ∅ demo_ops demo_coh Ha).
Defined.

(** ** Where the pool is not a map *)

(** The pool after an operation, and its answer. *)
Definition after {A : Type} (m : PoolM MemVolume MemPeer A) (p : VolumePool MemVolume MemPeer)
    : VolumePool MemVolume MemPeer * Result A :=
  match m p with Some r => r | None => (p, Err (Internal "panic")) end.

Definition demo_put (k s : string) (n : N) : PoolM MemVolume MemPeer ObjectInfo :=
  put_object_stream 16 "photos" k [Ok (bytes_of s)] demo_opts None (Some (String.length s)) (demo_clock n).
Definition demo_get (k : string) : PoolM MemVolume MemPeer (bytes * ObjectInfo) :=
  get_object no_label no_file no_index "photos" k.

(** An acknowledged overwrite is lost from view when the write cache is full: the
    new bytes go to the volumes and to the read cache, the old entry stays in the
    write cache, which every read looks at first. *)
Theorem full_cache_shadows_overwrite :
  let p1 := (after (demo_put "cat" "old" 1) demo_pool).1 in
  let r := after (demo_put "cat" "new" 2) p1 in
  is_ok r.2 = true /\ fst <$> (after (demo_get "cat") r.1).2 = Ok (bytes_of "old").
Proof. vm_compute. split; reflexivity. Qed.

(** [put_object] does not look at the write cache at all: it is acknowledged, and
    the cached object is still what a GET returns. *)
Theorem put_object_shadowed_by_cache :
  let p1 := (after (demo_put "cat" "old" 1) demo_pool).1 in
  let r := after (put_object 16 "photos" "cat" (bytes_of "new") demo_opts (demo_clock 2)) p1 in
  is_ok r.2 = true /\ fst <$> (after (demo_get "cat") r.1).2 = Ok (bytes_of "old").
Proof. vm_compute. split; reflexivity. Qed.

Definition read_only (d : MemVolume) : MemVolume :=
  mkMemVolume (mv_id d) true (mv_buckets d) (mv_settings d) (mv_metas d) (mv_data d).
Definition read_only_pool : VolumePool MemVolume MemPeer :=
  mkVolumePool (map read_only (vp_disks demo_pool)) None demo_topology None (Some (ReadCache.new 1000 200)) "n1" [].

(** A PUT that no volume accepted is readable: the read cache is warmed before
    the write, and a failed write does not clear it.  HEAD does not find the object. *)
Theorem failed_put_is_served :
  let r := after (demo_put "cat" "ghost" 1) read_only_pool in
  r.2 = Err WriteQuorum /\ fst <$> (after (demo_get "cat") r.1).2 = Ok (bytes_of "ghost") /\
  (after (head_object "photos" "cat") r.1).2 = Err ObjectNotFound.
Proof. vm_compute. split_and!; reflexivity. Qed.

(** Three volumes: two data shards and one of parity. *)
Definition demo_pool3 : VolumePool MemVolume MemPeer :=
  mkVolumePool [demo_disk "v1"; demo_disk "v2"; demo_disk "v3"] None
    (mkPlacementTopology 1 "local-set" [mkPlacementVolume 0 "local" "v1"; mkPlacementVolume 1 "local" "v2";
       mkPlacementVolume 2 "local" "v3"]) (Some (WriteCache.new 9000)) None "n1" [].

(** The stream of a cached object includes the padding of its last data shard: five
    bytes are announced, six are sent. *)
Theorem cached_stream_has_padding :
  let p := (after (demo_put "cat" "meow!" 1) demo_pool3).1 in
  match (after (get_object_stream 16 no_label no_file no_index "photos" "cat") p).2 with
  | Ok (info, items) => info_size info = 5%N /\
      items = [Ok (bytes_of "meo"); Ok (bytes_of "w!" ++ [zero_byte])]
  | Err _ => False
  end.
Proof. vm_compute. split; reflexivity. Qed.

(** An object that is only in the write cache has no tags and cannot be tagged. *)
Theorem cached_object_untaggable :
  let p := (after (demo_put "cat" "meow" 1) demo_pool).1 in
  is_ok (after (head_object "photos" "cat") p).2 = true /\
  (after (get_object_tags "photos" "cat") p).2 = Err ObjectNotFound /\
  (after (put_object_tags "photos" "cat" {[ "k" := "v" ]}) p).2 = Err ObjectNotFound.
Proof. vm_compute. split_and!; reflexivity. Qed.

Definition uncached (p : VolumePool MemVolume MemPeer) : VolumePool MemVolume MemPeer := set_write_cache None p.

(** Tags that were set are missing from a GET that the read cache answers. *)
Theorem tags_not_seen_by_cached_get :
  let p1 := (after (demo_put "cat" "meow" 1) (uncached demo_pool)).1 in
  let r := after (put_object_tags "photos" "cat" {[ "k" := "v" ]}) p1 in
  r.2 = Ok tt /\
  (after (get_object_tags "photos" "cat") r.1).2 = Ok {[ "k" := "v" ]} /\
  (info_tags ∘ snd) <$> (after (demo_get "cat") r.1).2 = Ok ∅.
Proof. vm_compute. split_and!; reflexivity. Qed.

(** A delete marker in front of an object in the write cache hides nothing. *)
Theorem delete_marker_misses_cache :
  let p1 := (after (demo_put "cat" "meow" 1) demo_pool).1 in
  let r := after (add_delete_marker "photos" "cat" "v1" (demo_clock 2)) p1 in
  is_ok r.2 = true /\ fst <$> (after (demo_get "cat") r.1).2 = Ok (bytes_of "meow").
Proof. vm_compute. split; reflexivity. Qed.

Definition demo_list (delimiter : string) (max : nat) : PoolM MemVolume MemPeer ListResult :=
  pool_list_objects "photos" (mkListOptions "" delimiter "" max "").

(** A delimiter that is not ASCII makes a listing panic at the first key that has it:
    the slice ends after the first byte of the character. *)
Theorem wide_delimiter_panics :
  let p := (after (demo_put "aéb" "x" 1) demo_pool).1 in demo_list "é" 10 p = None.
Proof. vm_compute. reflexivity. Qed.

(** A listing that says it is truncated has all the keys and no token to go on from. *)
Theorem truncated_listing_is_complete :
  let p := (after (demo_put "b" "x" 2) (after (demo_put "a" "x" 1) (uncached demo_pool)).1).1 in
  match (after (demo_list "" 1) p).2 with
  | Ok r => lr_is_truncated r = true /\ length (lr_objects r) = 2 /\ lr_next_continuation_token r = ""
  | Err _ => False
  end.
Proof. vm_compute. split_and!; reflexivity. Qed.

(** A peer keeps the replica of an object after the object was flushed and deleted.  When
    the node restarts and recovers what its peers hold for it, the deleted object is back. *)
Definition peered_pool : VolumePool MemVolume MemPeer :=
  set_peer_cache_clients [Some (WriteCache.new 9000)] demo_pool.
Definition restarted (p : VolumePool MemVolume MemPeer) : VolumePool MemVolume MemPeer :=
  recover_cache_from_peers (demo_clock 9)
    (mkVolumePool (vp_disks p) None demo_topology (Some (WriteCache.new 700)) None "n1" (vp_peers p)).

Theorem restart_resurrects_deleted :
  let p1 := (after (demo_put "cat" "meow" 1) peered_pool).1 in
  let p2 := (after (shutdown (demo_clock 2)) p1).1 in
  let r := after (pool_delete_object "photos" "cat") p2 in
  r.2 = Ok tt /\ (after (demo_get "cat") r.1).2 = Err ObjectNotFound /\
  fst <$> (after (demo_get "cat") (restarted r.1)).2 = Ok (bytes_of "meow").
Proof. vm_compute. split_and!; reflexivity. Qed.

End Demo.
