(* ===== verification/PoolStream.v ===== *)
(** Large objects through the volume pool: the streaming PUT and GET, and the
    settings and buckets of a pool. *)

From Stdlib Require Import Ascii.
From stdpp Require Import base list gmap strings numbers pretty sorting.
From S2P Require Import Prelude Metadata Pathing Placement Erasure Backend ErasureDecode ErasurePut.
From S2P Require Import Caches Heal RaftFsm VolumePool PoolSpec PoolRefine.

(** A volume that may refuse writes.  [sound] does not say that a writer can be opened, fed
    or finalized; it says that [stat] reports what is read, and using a writer of a named
    object keeps this and the buckets. *)
Class PoolWriterOk (B W : Type) `{ObjectNames} `{Backend B W} `{!HealBackend B} `{!PoolBackend B}
    `{!BackendOk B W} : Type := {
  sound : B -> Prop;
  sound_stat : forall d b k, sound d -> named b k = true -> stat_agrees b k d;
  open_sound : forall d b k, sound d -> named b k = true ->
    let d' := (open_shard_writer d b k None).1 in sound d' /\ forall b', bucket_exists d' b' = bucket_exists d b';
  write_sound : forall d w c b k bs, sound d -> named b k = true -> writer_has d w (b, k, None) bs ->
    let d' := (write_chunk d w c).1 in sound d' /\ forall b', bucket_exists d' b' = bucket_exists d b';
  finalize_sound : forall d w m b k bs, sound d -> named b k = true -> writer_has d w (b, k, None) bs -> plain_meta m ->
    let d' := (finalize d w m).1 in sound d' /\ forall b', bucket_exists d' b' = bucket_exists d b';
}.

(** ** What a streaming PUT leaves on the volumes *)

Section Encode.
  Context `{Hashes} `{ReedSolomon} `{!ReedSolomonOk} `{ObjectNames} {B W : Type} `{!Backend B W} `{!HealBackend B}
          `{!PoolBackend B} `{!BackendOk B W} `{!PoolWriterOk B W}.

(** A volume after a write. *)
Definition kept (d d' : B) : Prop :=
  sound d -> sound d' /\ forall b', bucket_exists d' b' = bucket_exists d b'.

Global Instance kept_refl : Reflexive kept.
Proof. by intros d Hd. Qed.

Global Instance kept_trans : Transitive kept.
Proof.
  intros d1 d2 d3 H12 H23 Hd. destruct (H12 Hd) as [Hd2 Hb2]. destruct (H23 Hd2) as [Hd3 Hb3].
  split; [done|]. intros b. by rewrite Hb3.
Qed.

Lemma kept_frame b k : named b k = true -> writer_frame b k None kept.
Proof.
  intros Hnm. constructor; [apply _|apply _|intros d Hd; by apply open_sound|].
  intros d w c bs Hw Hd. by eapply write_sound.
Qed.

Lemma finalize_all_kept b k dist ws contents metas disks disks' results :
  named b k = true -> NoDup dist -> writers_have b k None disks dist ws contents -> Forall plain_meta metas ->
  finalize_all disks dist ws metas = Some (disks', results) -> Forall2 kept disks disks'.
Proof.
  intros Hnm. revert ws contents metas disks results. induction dist as [|j dist IH];
    intros [|w ws] contents [|m metas] disks results Hnd Hw Hm E; try done; cbn [finalize_all] in E;
    try (injection E as <- <-; apply frame_refl, _).
  apply bind_Some in E as (d & Hd & E). apply bind_Some in E as ([disks1 res1] & E1 & [= <- <-]).
  destruct contents as [|bs contents]; [by destruct Hw as (_ & ? & _)|].
  apply writers_have_cons in Hw as [(d0 & Hd0 & Hwd) Hw]. rewrite Hd in Hd0. injection Hd0 as <-.
  apply list.NoDup_cons in Hnd as [Hj Hnd]. apply Forall_cons_1 in Hm as [Hm Hms].
  eapply (frame_insert kept disks disks1 j d (finalize d w m).1); [apply _|apply _|done| |].
  - intros Hs. by eapply finalize_sound.
  - eapply IH; [done| |done|exact E1]. by apply writers_have_insert.
Qed.

Lemma encode_ec_kept block dn pn c disks dist items o info :
  named (pc_bucket c) (pc_key c) = true -> 0 < dn -> 0 < block -> NoDup dist -> length dist = dn + pn ->
  pc_version_id c = None ->
  encode_ec block dn pn c disks dist items = Some o -> po_result o = Ok info -> Forall2 kept disks (po_disks o).
Proof.
  intros Hnm Hdn Hblk Hnd Hdist Hv E Hres. unfold encode_ec in E.
  destruct (bool_decide (0 < pn) && negb (rs_new_ok dn pn)) eqn:Ers; [by injection E as <-|].
  assert (Hrs : 0 < pn -> rs_new_ok dn pn = true).
  { intros Hp. rewrite bool_decide_eq_true_2 in Ers by done. by destruct (rs_new_ok dn pn). }
  apply bind_Some in E as ([disks1 r] & Hfeed & E). rewrite Hv in Hfeed.
  destruct (feed_writers_ok _ _ _ _ (kept_frame _ _ Hnm) block dn pn dist Hdn Hrs Hblk Hnd items _ _ _ Hdist Hfeed)
    as [Hf Hr].
  destruct r as [[st body]|]; [|by injection E as <-].
  destruct (Hr _ _ eq_refl) as (chunks & bl & bss & _ & _ & _ & _ & Hh & Hw).
  apply bind_Some in E as ([disks' results] & Hfin & E). cbn [fst snd] in E.
  case_bool_decide as Hq.
  { apply bind_Some in E as (? & _ & [= <-]). done. }
  injection E as <-. cbn [po_disks]. etransitivity; [exact Hf|].
  eapply finalize_all_kept; [exact Hnm|exact Hnd|exact Hw| |exact Hfin]. by apply plain_metas.
Qed.

(** The one volume of a PUT without redundancy. *)
Lemma serial_written c (d : B) chunks d' info :
  named (pc_bucket c) (pc_key c) = true -> pc_version_id c = None ->
  encode_and_write_1plus0_serial c d (map Ok chunks) = (d', Ok info) ->
  info = object_info c (concat chunks) /\ kept d d' /\
  read_shard d' (pc_bucket c) (pc_key c) = Ok (concat chunks, shard_meta c 0 (concat chunks) 0 (concat chunks)).
Proof.
  intros Hnm Hv E. destruct (serial_finalized c _ (kept_frame _ _ Hnm) d chunks d' info Hv E)
    as (Hi & Hpm & d1 & w & Hk & Hw & Ef). cbn zeta in *. split_and!; [done| |by eapply finalize_read_ok].
  transitivity d1; [done|]. intros Hs. pose proof (finalize_sound d1 w _ _ _ _ Hs Hnm Hw Hpm) as Hf.
  by rewrite Ef in Hf.
Qed.

Record written_stripe (block dn pn : nat) (c : PutContext) (body : bytes) (disks disks' : list B)
    (dist : list nat) (bl : list bytes) (bss : list (list bytes)) : Prop := {
  ws_pos : 0 < dn;
  ws_version : pc_version_id c = None;
  ws_volumes : length (pc_volume_ids c) = dn + pn;
  ws_rs : 0 < pn -> rs_new_ok dn pn = true;
  ws_chopped : chopped block body bl;
  ws_coded : Forall2 (coded dn pn) bl bss;
  ws_placed : placed c pn dn body dist (join_blocks (dn + pn) bss) disks';
  ws_kept : Forall2 kept disks disks';
}.

Lemma encode_written block disks planner dn pn bucket key chunks opts mrf clen now o info :
  named bucket key = true -> 0 < block -> NoDup (map pv_backend_index (pp_disks planner)) -> fresh_object disks bucket key ->
  encode_and_write block disks planner dn pn bucket key (map Ok chunks) opts mrf None clen now = Some o ->
  po_result o = Ok info ->
  exists c dist bl bss, pc_bucket c = bucket /\ pc_key c = key /\ info = object_info c (concat chunks) /\
    written_stripe block dn pn c (concat chunks) disks (po_disks o) dist bl bss.
Proof.
  intros Hnm Hb Hnd Hfresh E Hres. unfold encode_and_write in E.
  destruct (plan planner bucket key dn pn) as [r|] eqn:Ep; [|by injection E as <-].
  destruct (plan_distribution _ _ _ _ _ _ Ep Hnd) as (Hdn & Hdist & Hlen).
  set (c := mkPutContext _ _ _ _ _ _ _ _) in E. set (dist := map ps_backend_index _) in *.
  assert (Hvol : length (pc_volume_ids c) = dn + pn).
  { subst c dist. cbn. rewrite length_map in Hlen |- *. done. }
  destruct (bool_decide (dn = 1) && bool_decide (pn = 0)) eqn:E10.
  - apply andb_true_iff in E10 as [->%bool_decide_eq_true ->%bool_decide_eq_true].
    apply bind_Some in E as (j & Hj & E). apply bind_Some in E as (d & Hd & E).
    rewrite pipelined_serial in E.
    destruct (encode_and_write_1plus0_serial c d (map Ok chunks)) as [d' r'] eqn:Es.
    assert (po_disks o = <[j := d']> disks /\ r' = Ok info) as [-> ->].
    { injection E as <-. cbn in Hres |- *. by destruct clen; [case_bool_decide|]. }
    destruct (serial_written c d chunks d' info Hnm eq_refl Es) as (Hi & Hk & Hr).
    destruct (chopped_exists block (concat chunks) Hb) as [bl Hch].
    destruct (chopped_single block _ bl Hb Hch) as [Hco Hj1].
    exists c, dist, bl, (map (fun b => [b]) bl). split_and!; try done.
    constructor; try done; [lia| |].
    + change (1 + 0) with 1. rewrite Hj1.
      assert (Hdj : forall x dx, <[j := d']> disks !! x = Some dx ->
        is_ok (read_shard dx bucket key) = true -> x = j /\ dx = d').
      { intros x dx Hx Hok. destruct (decide (x = j)) as [->|Hne].
        - rewrite list_lookup_insert_eq in Hx by (by eapply lookup_lt_Some). by injection Hx as <-.
        - rewrite list_lookup_insert_ne in Hx by done. by rewrite (absent_unreadable _ _ _ (Hfresh _ _ Hx)) in Hok. }
      split.
      * intros x dx s m Hx Hrx. destruct (Hdj x dx Hx) as [-> ->]; [cbn in Hrx; by rewrite Hrx|].
        rewrite Hr in Hrx. injection Hrx as <- <-. by exists 0.
      * exists [0]. split_and!; [apply NoDup_singleton|done|]. intros i ->%list_elem_of_singleton.
        exists j, d', (concat chunks). split_and!; try done.
        apply list_lookup_insert_eq. by eapply lookup_lt_Some.
    + eapply (frame_insert kept disks _ j d d'); [apply _|apply _|done|exact Hk|apply frame_refl, _].
  - apply bind_Some in E as (o' & Eo & [= <-]). cbn in Hres |- *.
    destruct (encode_ec_placed block dn pn c disks dist _ o' info Hdn Hb Hdist Hlen eq_refl Hfresh Eo Hres)
      as (chunks' & bl & bss & Hitems & Hinfo & Hrs & Hch & Hco & Hp).
    assert (chunks' = chunks) as ->.
    { clear -Hitems. revert chunks' Hitems. induction chunks as [|x chunks IH]; intros [|y ys] E; try done.
      cbn in E. injection E as -> E. f_equal. by apply IH. }
    exists c, dist, bl, bss. split_and!; try done. constructor; try done.
    by apply (encode_ec_kept block dn pn c disks dist (map Ok chunks) o' info Hnm).
Qed.

(** The streaming reader returns the body, with metadata of the stripe. *)
Lemma written_stream block dn pn c body disks disks' dist bl bss :
  0 < block -> (N.of_nat (length body) < 2 ^ 64)%N ->
  written_stripe block dn pn c body disks disks' dist bl bss ->
  exists i s out,
    read_and_decode_stream block disks' dn pn (pc_bucket c) (pc_key c)
      = Ok (shard_meta c pn body i s, map Ok out) /\ concat out = body.
Proof.
  intros Hb Hlen [Hdn Hv Hvol Hrs Hch Hco Hp _].
  destruct (placed_collect c dn pn body dist (join_blocks (dn + pn) bss) disks') as (slots & meta & Hcol & Her & Hg & i & s & ->);
    [done| |done|].
  { apply length_join_blocks. by eapply coded_lengths. }
  assert (Hsz : N.to_nat (size (shard_meta c pn body i s)) = length body) by (cbn; rewrite wrap_small; lia).
  unfold read_and_decode_stream, mmap_shard. fold (shard_reads disks' (pc_bucket c) (pc_key c)).
  rewrite Hcol. cbn [mbind result_bind fst snd]. rewrite Hsz.
  destruct (stream_loop_ok dn pn Hdn Hrs block (length body) body bl bss 0
    (join_blocks (dn + pn) bss) slots Hb Hch Hco) as (out & Hl & Hc); try done.
  { clear. induction (join_blocks _ _) as [|x l IH]; [done|]. cbn. by rewrite drop_0, IH. }
  exists i, s, out. by rewrite Hl.
Qed.

End Encode.

(** ** Inverting the steps of an operation *)

Section Invert.
  Context `{Hashes} `{ReedSolomon} {B W P : Type} `{!Backend B W} `{!HealBackend B} `{!PoolBackend B}.

Lemma pool_bind_inv {A C : Type} (m : PoolM B P A) (f : A -> PoolM B P C) p p' r :
  (m ≫= f) p = Some (p', Ok r) -> exists p1 a, m p = Some (p1, Ok a) /\ f a p1 = Some (p', Ok r).
Proof.
  unfold mbind, pool_bind. destruct (m p) as [[p1 [a|e]]|] eqn:E; [|done..]. intros Hf. by exists p1, a.
Qed.

Lemma lift_inv {A : Type} (r : Result A) (p p1 : VolumePool B P) a : lift r p = Some (p1, Ok a) -> p1 = p /\ r = Ok a.
Proof. unfold lift. by intros [= <- ->]. Qed.

Lemma require_bucket_inv (p p1 : VolumePool B P) b u : require_bucket b p = Some (p1, Ok u) -> p1 = p /\ live p b.
Proof.
  unfold require_bucket, head_bucket. intros (q & there & Hh & E)%pool_bind_inv.
  apply pool_bind_inv in Hh as (q' & [] & [-> Hv]%lift_inv & [= <- <-]). case_bool_decide as Hn; [|done].
  injection E as <- _. split; [done|]. split; [done|]. apply existsb_exists.
  destruct (List.filter _ (vp_disks p)) as [|d l] eqn:El; [simpl in Hn; lia|].
  assert (Hin : In d (List.filter (fun d => bucket_exists d b) (vp_disks p))) by (rewrite El; by left).
  apply filter_In in Hin. eauto.
Qed.

(** A write uses every volume: the parameters it resolves cover them all. *)
Lemma resolve_ec_inv (p p1 : VolumePool B P) b opts ec :
  0 < length (vp_disks p) -> resolve_ec b opts p = Some (p1, Ok ec) ->
  p1 = p /\ 0 < ec.1 /\ ec.1 + ec.2 = length (vp_disks p).
Proof.
  intros Hn. unfold resolve_ec. destruct (ec_ftt opts) as [f|].
  - intros (q & n & [= <- <-] & [-> Hf]%lift_inv)%pool_bind_inv. split; [done|].
    unfold ftt_to_ec in Hf. destruct (decide (length (vp_disks p) <= f)) as [Hle|Hlt].
    + rewrite (bool_decide_eq_true_2 (_ <= f)), orb_true_r in Hf by done. done.
    + rewrite !bool_decide_eq_false_2 in Hf by lia. injection Hf as <-. cbn. lia.
  - unfold gets. intros [= <- <-]. split; [done|]. by apply bucket_ec_ok.
Qed.

Lemma read_cache_clear (p : VolumePool B P) b k :
  rc_clear (vp_read_cache p) (b, k) ->
  exists rc, read_cache_get b k p = Some (set_read_cache rc p, Ok None).
Proof.
  intros Hc. unfold read_cache_get. destruct p as [ds q pl wc [c|] id ps]; cbn in *; [|by exists None].
  destruct (ReadCache.get c b k) as [c' [e|]] eqn:Eg; [|by eexists].
  apply get_found in Eg as [Hin _]. by apply (Hc c _ eq_refl) in Hin.
Qed.

End Invert.

Lemma concat_slices n (data : bytes) : 0 < n -> concat (slices n data) = data.
Proof.
  intros Hn. unfold slices. pose proof (div_ceil_mul (length data) n Hn) as Hd. revert Hd.
  generalize (div_ceil (length data) n) as q. intros q Hq.
  assert (Hgen : forall q i,
    concat (map (fun j => sub_list (j * n) n data) (seq i q)) = take (q * n) (drop (i * n) data)).
  { clear q Hq. induction q as [|q IH]; intros i; [done|]. cbn [seq map concat]. rewrite IH.
    unfold sub_list. replace (S i * n) with (i * n + n) by lia. rewrite <- drop_drop.
    replace (S q * n) with (n + q * n) by lia. apply take_take_drop. }
  rewrite Hgen. cbn [Nat.mul]. rewrite drop_0, take_ge; [done|lia].
Qed.

(** Objects above the threshold of the log, or of unknown length. *)
Definition is_large (clen : option nat) : bool :=
  match clen with Some len => bool_decide (LOG_THRESHOLD < N.of_nat len)%N | None => true end.

Section Large.
  Context `{Hashes} `{ReedSolomon} `{!ReedSolomonOk} `{UuidParser} `{ObjectNames} {B W P : Type} `{!Backend B W}
          `{!HealBackend B} `{!PoolBackend B} `{!PeerCache P} `{!BackendOk B W} `{!PoolWriterOk B W}.
  Context (block : nat).
  Context (label : B -> string) (fs_read : Path -> option bytes) (part_meta_index : bytes -> option nat).

Lemma kept_sound (disks disks' : list B) :
  Forall sound disks -> Forall2 kept disks disks' -> Forall sound disks' /\ same_buckets disks disks'.
Proof.
  intros Hg Hf. induction Hf as [|d d' l l' Hd _ IH]; [split; constructor|].
  apply Forall_cons_1 in Hg as [Hgd Hg]. destruct (IH Hg) as [IH1 IH2]. destruct (Hd Hgd) as [Hg' Hoc].
  split; constructor; done.
Qed.

Lemma first_mmap_placed c dn pn body dist disks s meta :
  first_mmap (pc_bucket c) (pc_key c) disks = Some (s, meta) ->
  placed c pn dn body dist [body] disks ->
  s = body /\ exists i, meta = shard_meta c pn body i body.
Proof.
  intros Hm [Honly _]. unfold first_mmap, mmap_shard in Hm.
  assert (Hin : (s, meta) ∈ omap (fun d => result_ok (read_shard d (pc_bucket c) (pc_key c))) disks).
  { destruct (omap _ disks); [done|]. injection Hm as ->. by left. }
  apply list_elem_of_omap in Hin as (d' & [j' Hj']%list_elem_of_lookup & Hr).
  destruct (read_shard d' _ _) as [[s' m']|] eqn:E; [|done]. injection Hr as -> ->.
  destruct (Honly _ _ _ _ Hj' E) as ([|i] & _ & Hs & ->); [|done]. injection Hs as <-. eauto.
Qed.

Lemma first_mmap_some c dn pn body dist shards disks :
  0 < dn -> placed c pn dn body dist shards disks ->
  exists s meta, first_mmap (pc_bucket c) (pc_key c) disks = Some (s, meta).
Proof.
  intros Hdn [_ (idxs & _ & Hlen & Hidx)]. destruct idxs as [|i idxs]; [simpl in Hlen; lia|].
  destruct (Hidx i ltac:(by left)) as (j & d & s & _ & Hd & _ & Hr).
  destruct (head_omap (fun d => result_ok (mmap_shard d (pc_bucket c) (pc_key c))) disks) as (_ & [s' m'] & _ & _ & Hh).
  { exists d, (s, shard_meta c pn body i s). split; [by eapply list_elem_of_lookup_2|]. unfold mmap_shard. by rewrite Hr. }
  by exists s', m'.
Qed.

(** Without parity the shards are determined by the data. *)
Lemma coded_unique dn bl bss bss' :
  Forall2 (coded dn 0) bl bss -> Forall2 (coded dn 0) bl bss' -> bss = bss'.
Proof.
  intros Hf. revert bss'. induction Hf as [|x y bl bss Hxy _ IH]; intros bss' Hf'; inversion Hf'; subst; [done|].
  f_equal; [|by apply IH]. transitivity (split_data x dn).
  - rewrite <- (coded_data _ _ _ _ Hxy). symmetry. apply take_ge. rewrite (coded_length _ _ _ _ Hxy). lia.
  - match goal with Hc : coded dn 0 x ?y' |- _ = ?y' =>
      rewrite <- (coded_data _ _ _ _ Hc); apply take_ge; rewrite (coded_length _ _ _ _ Hc); lia end.
Qed.

(** The volumes of a pool serve what a streaming PUT wrote. *)
Lemma stream_written (p : VolumePool B P) dn pn c body disks dist bl bss :
  0 < block -> (N.of_nat (length body) < 2 ^ 64)%N -> (N.of_nat (dn + pn) < 2 ^ 64)%N ->
  Forall sound (vp_disks p) -> named (pc_bucket c) (pc_key c) = true ->
  wc_lookup (vp_write_cache p) (pc_bucket c, pc_key c) = None ->
  written_stripe block dn pn c body disks (vp_disks p) dist bl bss ->
  exists p' items, stream_from_disks block label fs_read part_meta_index (pc_bucket c) (pc_key c) p
      = Some (p', Ok (object_info c body, map Ok items)) /\ concat items = body.
Proof.
  intros Hb Hlen Hn Hs0 Hnm Hw Hws. pose proof (ws_pos _ _ _ _ _ _ _ _ _ _ Hws) as Hdn.
  pose proof (ws_version _ _ _ _ _ _ _ _ _ _ Hws) as Hv. pose proof (ws_placed _ _ _ _ _ _ _ _ _ _ Hws) as Hp.
  assert (Hg : Forall (stat_agrees (pc_bucket c) (pc_key c)) (vp_disks p)).
  { eapply Forall_impl; [exact Hs0|]. intros d Hd. by apply sound_stat. }
  destruct (placed_first_stat _ _ _ _ _ _ _ Hg Hdn Hp) as (i & s & Hs).
  unfold stream_from_disks, gets. unfold mbind at 1, pool_bind at 1. unfold multipart_stat. rewrite Hs.
  cbn [mbind option_bind]. change (is_multipart (shard_meta c pn body i s)) with false. cbn iota.
  rewrite (pool_bind_ok _ _ _ _ _ (object_ec_stat p _ _ _ Hw Hs)).
  rewrite (shard_meta_ec c dn pn) by (done || apply (ws_volumes _ _ _ _ _ _ _ _ _ _ Hws)). cbn [fst snd].
  destruct (bool_decide (dn = 1) && bool_decide (pn = 0)) eqn:E10.
  - apply andb_true_iff in E10 as [->%bool_decide_eq_true ->%bool_decide_eq_true].
    assert (Hj : join_blocks 1 bss = [body]).
    { destruct (chopped_single block body bl Hb (ws_chopped _ _ _ _ _ _ _ _ _ _ Hws)) as [Hco <-]. f_equal.
      eapply coded_unique; [|exact Hco]. apply Hws. }
    change (1 + 0) with 1 in Hp. rewrite Hj in Hp.
    destruct (first_mmap_some _ _ _ _ _ _ _ Hdn Hp) as (s' & meta & Hm). rewrite Hm.
    destruct (first_mmap_placed _ _ _ _ _ _ _ _ Hm Hp) as (-> & i' & ->).
    eexists _, (slices SLICE_BYTES body).
    rewrite (pool_bind_ok (on_read_cache _) _ p _ tt eq_refl), (shard_meta_info c) by done.
    split; [done|]. apply concat_slices. unfold SLICE_BYTES. lia.
  - destruct (written_stream _ _ _ _ _ _ _ _ _ _ Hb Hlen Hws) as (i' & s' & out & Hr & Hc).
    rewrite (lift_ok _ _ _ _ Hr). cbn [fst snd]. rewrite (shard_meta_info c) by done. by exists p, out.
Qed.

(** What a streaming PUT that was acknowledged did to the pool. *)
Lemma put_stream_inv (p p' : VolumePool B P) b k chunks opts clen t info :
  named b k = true -> 0 < block -> 0 < length (vp_disks p) ->
  NoDup (map pv_backend_index (pt_disks (vp_placement p))) -> fresh_object (vp_disks p) b k -> is_large clen = true ->
  put_object_stream block b k (map Ok chunks) opts None clen t p = Some (p', Ok info) ->
  live p b /\ validate_object_key k = Ok tt /\ vp_write_cache p' = vp_write_cache p /\
  vp_read_cache p' = (fun c => ReadCache.invalidate c b k) <$> vp_read_cache p /\
  exists c dn pn dist bl bss, dn + pn = length (vp_disks p) /\ pc_bucket c = b /\ pc_key c = k /\
    info = object_info c (concat chunks) /\
    written_stripe block dn pn c (concat chunks) (vp_disks p) (vp_disks p') dist bl bss.
Proof.
  intros Hnm Hb Hn Hnd Hfr Hlarge E. unfold put_object_stream in E.
  apply pool_bind_inv in E as (p0 & [] & [-> Hvb]%lift_inv & E).
  apply pool_bind_inv in E as (p0 & [] & [-> Hvk]%lift_inv & E).
  apply pool_bind_inv in E as (p0 & [] & [-> _]%lift_inv & E).
  apply pool_bind_inv in E as (p0 & [] & [-> Hl]%require_bucket_inv & E).
  apply pool_bind_inv in E as (p1 & [] & [= <-] & E).
  set (p1 := set_read_cache _ p) in E.
  assert (Es : put_streaming block b k (map Ok chunks) opts None clen t p1 = Some (p', Ok info)).
  { unfold is_large in Hlarge. destruct clen as [len|]; [|done]. rewrite bool_decide_eq_false_2 in E; [done|].
    apply bool_decide_eq_true in Hlarge. lia. }
  unfold put_streaming in Es. apply pool_bind_inv in Es as (p2 & [dn pn] & Er & Es).
  apply resolve_ec_inv in Er as (-> & Hdn & Hec); [|done]. unfold run_encode in Es.
  destruct (encode_and_write _ _ _ _ _ _ _ _ _ _ _ _ _) as [o|] eqn:Ee; [|done].
  injection Es as <- Hres. destruct (encode_written _ _ (placement_planner p1) _ _ _ _ _ _ _ _ _ _ _ Hnm Hb Hnd Hfr Ee Hres)
    as (c & dist & bl & bss & Hcb & Hck & Hi & Hws).
  split_and!; [done..|]. by exists c, dn, pn, dist, bl, bss.
Qed.

End Large.

(** C5: A large object written through the pool is read back whole.  If the streaming
    PUT of a new object acknowledges (any body, any chunking, any tolerance, any of the
    volumes refusing to open, take or finish their shard as long as the quorum is met),
    then the streaming GET answers with the same description of the object and a stream
    without errors whose concatenation is the body, whether it is memory-mapped from one
    volume or decoded from many.  The volumes keep the laws of [PoolWriterOk], which do not
    say that a write succeeds; the repository's local volume without a log keeps them
    (file_writer_ok) for objects none of which lies below another. *)
Theorem large_put_then_get `{Hashes} `{ReedSolomon} `{!ReedSolomonOk} `{UuidParser} `{!ObjectNames} {B W P : Type}
    `{!Backend B W} `{!HealBackend B} `{!PoolBackend B} `{!PeerCache P} `{!BackendOk B W}
    `{!PoolWriterOk B W} block label fs_read part_meta_index (p p' : VolumePool B P) b k chunks opts clen t info :
  0 < block -> named b k = true ->
  Forall sound (vp_disks p) -> 0 < length (vp_disks p) -> (N.of_nat (length (vp_disks p)) < 2 ^ 64)%N ->
  NoDup (map pv_backend_index (pt_disks (vp_placement p))) -> fresh_object (vp_disks p) b k ->
  wc_lookup (vp_write_cache p) (b, k) = None -> is_large clen = true ->
  (N.of_nat (length (concat chunks)) < 2 ^ 64)%N ->
  put_object_stream block b k (map Ok chunks) opts None clen t p = Some (p', Ok info) ->
  exists p'' items, get_object_stream block label fs_read part_meta_index b k p' = Some (p'', Ok (info, map Ok items)) /\
    concat items = concat chunks.
Proof.
  intros Hb Hnm Hg Hn Hwd Hnd Hfr Hw Hlarge Hlen E.
  destruct (put_stream_inv block p p' b k chunks opts clen t info Hnm Hb Hn Hnd Hfr Hlarge E)
    as (Hl & Hvk & Hwc & Hrc & c & dn & pn & dist & bl & bss & Hec & <- & <- & -> & Hws).
  destruct (kept_sound _ _ Hg (ws_kept _ _ _ _ _ _ _ _ _ _ Hws)) as [Hg' Hsb].
  pose proof (live_changes p p' _ Hsb Hl) as Hl'.
  assert (Hcl : rc_clear (vp_read_cache p') (pc_bucket c, pc_key c)).
  { rewrite Hrc. destruct (vp_read_cache p) as [rc|]; [|done]. intros ? x [= <-] Hx. by apply elem_of_pop in Hx as [_ ?]. }
  unfold get_object_stream. rewrite (lift_ok tt) by apply Hl. rewrite (lift_ok tt) by done.
  rewrite (pool_bind_ok _ _ _ _ _ (require_bucket_ok p' _ Hl')).
  rewrite (pool_bind_ok _ _ _ _ _ (write_cache_get_none p' _ _ ltac:(by rewrite Hwc))).
  destruct (read_cache_clear p' _ _ Hcl) as [rc Er]. rewrite (pool_bind_ok _ _ _ _ _ Er).
  destruct (stream_written block label fs_read part_meta_index (set_read_cache rc p') dn pn c (concat chunks)
    (vp_disks p) dist bl bss) as (p'' & items & Es & Hc); try done; [lia|by cbn; rewrite Hwc|].
  by exists p'', items.
Qed.

(** ** The volume in memory *)

Local Existing Instance all_names.

Global Instance mv_backend_ok : BackendOk MemVolume MvWriter.
Proof.
  refine {| writer_has := fun _ w o bs => mvw_object w = o /\ mvw_bytes w = bs |}.
  - by intros d b k v d' w [= <- <-].
  - by intros d w c d' w' o bs [<- <-] [= <- <-].
  - intros d b k. cbn. by destruct (mv_current d b k).
  - done.
  - done.
  - intros d [o bs] bs' m d' b k [Ho Hb] (Hv & Hm & _). cbn in *. subst. unfold mv_put, mv_guard.
    destruct (mv_readonly d); [done|]. intros [= <-]. cbn.
    unfold mv_current, mv_versions. cbn. rewrite lookup_insert_eq. cbn. rewrite Hm. cbn.
    unfold mv_read. cbn. by rewrite Hv, lookup_insert_eq.
  - intros d [o bs] bs' m d' e b k [Ho Hb] Hs. cbn in *. subst. unfold mv_put, mv_guard.
    destruct (mv_readonly d); [|done]. intros [= <- _]. by destruct (mv_current d b k).
Defined.

(** Every live version has its data; the volume may be read-only. *)
Definition mv_sound (d : MemVolume) : Prop :=
  forall b k m, mv_current d b k = Some m -> is_Some (mv_data d !! (b, k, version_id m)).

Global Instance mv_pool_writer_ok : PoolWriterOk MemVolume MvWriter.
Proof.
  refine {| sound := mv_sound |}.
  - intros d b k Hd _. unfold stat_agrees. cbn. destruct (mv_current d b k) as [m|] eqn:E; [|done]. unfold mv_read. cbn.
    by destruct (Hd _ _ _ E) as [s ->].
  - done.
  - done.
  - intros d [o bs] m b k bs' Hs _ [Ho Hb] Hp. cbn in Ho, Hb. subst. cbn [finalize mv_backend mvw_object mvw_bytes default].
    destruct (mv_readonly d) eqn:Er; [unfold mv_put, mv_guard; by rewrite Er|].
    destruct (write_shard_good d b k bs' m) as (d' & E & [_ Hg'] & Hoc & _); [by split|done|done|].
    cbn in E |- *. rewrite E. split; [done|apply Hoc].
Defined.

Section LargeDemo.
  Local Existing Instances example_hashes copy_code copy_code_ok demo_uuid.

Definition demo_chunks : list bytes := [bytes_of "a large "; bytes_of "object"].

(** Three volumes, one of which refuses every write; one data shard and two of parity. *)
Definition demo_refusing : VolumePool MemVolume MemPeer :=
  mkVolumePool [demo_disk "v1"; read_only (demo_disk "v2"); demo_disk "v3"] None
    (vp_placement demo_pool3) (Some (WriteCache.new 9000)) None "n1" [].
Definition demo_ftt2 : PutOptions := mkPutOptions "" ∅ ∅ (Some 2) None false.
Definition demo_large : option (VolumePool MemVolume MemPeer * Result ObjectInfo) :=
  put_object_stream 4 "photos" "cat" (map Ok demo_chunks) demo_ftt2 None None (demo_clock 1) demo_refusing.
Definition demo_after : VolumePool MemVolume MemPeer := default demo_refusing (fst <$> demo_large).
Definition demo_info : ObjectInfo :=
  match demo_large with Some (_, Ok i) => i | _ => mkObjectInfo "" "" 0 "" "" 0 ∅ ∅ "" false end.

Lemma large_put_then_get_witness :
  demo_large = Some (demo_after, Ok demo_info) /\
  map (fun d => is_ok (read_shard d "photos" "cat")) (vp_disks demo_after) = [true; false; true] /\
  exists p'' items, get_object_stream 4 no_label no_file no_index "photos" "cat" demo_after
      = Some (p'', Ok (demo_info, map Ok items)) /\ concat items = bytes_of "a large object".
Proof.
  assert (E : demo_large = Some (demo_after, Ok demo_info)) by (vm_compute; reflexivity).
  split; [exact E|]. split; [vm_compute; reflexivity|].
  apply (large_put_then_get 4 no_label no_file no_index demo_refusing demo_after "photos" "cat" demo_chunks demo_ftt2
           None (demo_clock 1) demo_info); [lia|done|by repeat constructor|cbn; lia|cbn; lia|by_decide| |done|done|cbn; lia|exact E].
  intros [|[|[|j]]] d Hj; cbn in Hj; try discriminate Hj; injection Hj as <-; vm_compute; reflexivity.
Defined.

End LargeDemo.
