(* ===== verification/PoolSettings.v ===== *)
(** Bucket settings and buckets of the volume pool, and the erasure parameters a
    write resolves. *)

From Stdlib Require Import Ascii.
From stdpp Require Import base list gmap strings numbers pretty sorting.
From S2P Require Import Prelude Metadata Pathing Placement Erasure Backend ErasureDecode ErasurePut.
From S2P Require Import Caches Heal RaftFsm VolumePool PoolSpec PoolRefine PoolStream.

(** What the pool relies on for settings and buckets. *)
Class PoolSettingsOk (B W : Type) `{Backend B W} `{!HealBackend B} `{!PoolBackend B} `{!ObjectNames} `{!PoolBackendOk B W} : Prop := {
  settings_good : forall d b s, good d -> exists d', write_bucket_settings d b s = (d', Ok tt) /\ good d' /\
    (forall b', read_bucket_settings d' b' = if decide (b' = b) then s else read_bucket_settings d b') /\
    (forall b', bucket_exists d' b' = bucket_exists d b');
  make_bucket_good : forall d b, good d -> bucket_exists d b = false -> exists d',
    disk_make_bucket d b = (d', Ok tt) /\ good d' /\
    (forall b', bucket_exists d' b' = if decide (b' = b) then true else bucket_exists d b');
}.

Section Settings.
  Context `{Hashes} `{ReedSolomon} `{UuidParser} {B W P : Type} `{!Backend B W} `{!HealBackend B} `{!PoolBackend B}
          `{!ObjectNames} `{!PoolBackendOk B W} `{!PoolSettingsOk B W}.

(** Every volume has the settings [s] for bucket [b]. *)
Definition agree_settings (disks : list B) (b : string) (s : BucketSettings) : Prop :=
  Forall (fun d => read_bucket_settings d b = s) disks.

Lemma update_settings_ok (p : VolumePool B P) b f :
  Forall good (vp_disks p) -> 0 < length (vp_disks p) ->
  exists p', update_settings b f p = Some (p', Ok tt) /\ Forall good (vp_disks p') /\
    Forall2 (fun d d' => forall b', read_bucket_settings d' b' =
      if decide (b' = b) then f (read_bucket_settings d b) else read_bucket_settings d b') (vp_disks p) (vp_disks p') /\
    same_buckets (vp_disks p) (vp_disks p').
Proof.
  intros Hg Hn. unfold update_settings.
  set (step := fun d => write_bucket_settings d b (f (read_bucket_settings d b))).
  assert (Hstep : let rs := map step (vp_disks p) in Forall good (map fst rs) /\
    Forall2 (fun d d' => forall b', read_bucket_settings d' b' =
      if decide (b' = b) then f (read_bucket_settings d b) else read_bucket_settings d b') (vp_disks p) (map fst rs) /\
    same_buckets (vp_disks p) (map fst rs) /\
    length (List.filter is_ok (map snd rs)) = length (vp_disks p)).
  { clear Hn. induction Hg as [|d ds Hd Hg IH]; [split_and!; constructor|].
    destruct IH as (I1 & I2 & I3 & I4).
    destruct (settings_good d b (f (read_bucket_settings d b)) Hd) as (d' & E & Hd' & Hr & Hb). cbn [map].
    assert (Es : step d = (d', Ok tt)) by done. rewrite Es. cbn [map fst snd].
    split_and!; [by constructor|by constructor|by constructor|cbn; by rewrite I4]. }
  destruct Hstep as (I1 & I2 & I3 & I4). cbn zeta in *.
  rewrite (pool_bind_ok (each_disk step) _ p _ _ eq_refl). rewrite I4, bool_decide_eq_false_2 by lia.
  eexists. by split_and!.
Qed.

Lemma head_agree {A : Type} (g : BucketSettings -> option A) (disks : list B) b s a :
  0 < length disks -> agree_settings disks b s -> g s = Some a ->
  head (omap (fun d => g (read_bucket_settings d b)) disks) = Some a.
Proof.
  destruct disks as [|d ds]; simpl; [lia|]. intros _ Ha Hg. apply Forall_cons_1 in Ha as [Hs _].
  by rewrite Hs, Hg.
Qed.

Lemma find_agree (disks : list B) b s :
  agree_settings disks b s ->
  default default_settings (List.find (fun s => negb (is_default_settings s))
    (map (fun d => read_bucket_settings d b) disks)) = if bool_decide (length disks = 0) then default_settings else s.
Proof.
  intros Ha. induction Ha as [|d ds Hs Ha IH]; [done|]. cbn [map List.find length].
  rewrite (bool_decide_eq_false_2 (S _ = 0)) by done. rewrite Hs. destruct (is_default_settings s) eqn:Ed; [|done].
  assert (Es : s = default_settings) by (by destruct s as [[] [] [] [] []]).
  cbn [negb]. rewrite IH, Es. by case_bool_decide.
Qed.

(** An update of one bucket's settings keeps the agreement on every bucket. *)
Lemma agree_update (disks disks' : list B) b f b' s :
  Forall2 (fun d d' => forall b', read_bucket_settings d' b' =
    if decide (b' = b) then f (read_bucket_settings d b) else read_bucket_settings d b') disks disks' ->
  agree_settings disks b' s -> agree_settings disks' b' (if decide (b' = b) then f s else s).
Proof.
  intros Hf Ha. unfold agree_settings in *. induction Hf as [|d d' l l' Hd _ IH]; [constructor|].
  apply Forall_cons_1 in Ha as [Hs Ha]. constructor; [|by apply IH]. rewrite Hd. case_decide as E; [by rewrite <- E, Hs|done].
Qed.

Lemma set_then_get (p : VolumePool B P) b g s0 :
  Forall good (vp_disks p) -> 0 < length (vp_disks p) -> live p b -> agree_settings (vp_disks p) b s0 ->
  exists p', update_settings b g p = Some (p', Ok tt) /\ length (vp_disks p') = length (vp_disks p) /\
    agree_settings (vp_disks p') b (g s0) /\ live p' b /\ get_bucket_settings b p' = Some (p', Ok (g s0)).
Proof.
  intros Hg Hn Hl Ha. destruct (update_settings_ok p b g Hg Hn) as (p' & E & _ & Hf & Hsb).
  pose proof (Forall2_length _ _ _ Hf) as Hlen.
  assert (Ha' : agree_settings (vp_disks p') b (g s0)).
  { pose proof (agree_update _ _ _ _ b s0 Hf Ha) as Ha'. by rewrite decide_True in Ha'. }
  pose proof (live_changes p p' b Hsb Hl) as Hl'. exists p'. split_and!; try done.
  unfold get_bucket_settings. rewrite (lift_ok tt) by apply Hl.
  rewrite (pool_bind_ok _ _ _ _ _ (require_bucket_ok p' b Hl')). unfold gets.
  by rewrite (find_agree _ _ _ Ha'), bool_decide_eq_false_2 by lia.
Qed.


Lemma make_all (disks : list B) b :
  Forall good disks -> Forall (fun d => bucket_exists d b = false) disks ->
  let rs := map (fun d => disk_make_bucket d b) disks in
  Forall good (map fst rs) /\ Forall (fun d => bucket_exists d b = true) (map fst rs) /\
  length (List.filter is_ok (map snd rs)) = length disks.
Proof.
  intros Hg Hb. induction Hg as [|d ds Hd Hg IH]; [split_and!; constructor|].
  apply Forall_cons_1 in Hb as [Hdb Hb]. destruct (IH Hb) as (I1 & I2 & I3).
  destruct (make_bucket_good d b Hd Hdb) as (d' & E & Hd' & He). cbn [map]. rewrite E. cbn.
  split_and!; [by constructor| |by rewrite I3]. constructor; [|done]. rewrite He. by rewrite decide_True.
Qed.

Lemma existsb_forall (f : B -> bool) disks v :
  0 < length disks -> Forall (fun d => f d = v) disks -> existsb f disks = v.
Proof.
  intros Hn Hf. induction Hf as [|d ds Hd Hf IH]; [simpl in Hn; lia|]. cbn. rewrite Hd.
  destruct v; [done|]. destruct ds; [done|]. apply IH. simpl. lia.
Qed.

End Settings.

(** Parameters that use every one of [n] volumes, with data on one at least. *)
Definition covers (n : nat) (ec : nat * nat) : Prop := 1 <= ec.1 /\ ec.1 + ec.2 = n.

(** The erasure parameters of a write always cover the volumes.  For every bucket,
    whatever settings the volumes hold, and every option of the request, the pool
    answers [(data, parity)] with at least one data shard and as many shards as there
    are volumes; it refuses exactly a requested tolerance that is not below the number
    of volumes, and the pool does not change. *)
Theorem write_params_cover_volumes {B P : Type} `{!PoolBackend B} (p : VolumePool B P) b opts :
  0 < length (vp_disks p) ->
  match ec_ftt opts with
  | Some f => if bool_decide (f < length (vp_disks p))
              then resolve_ec b opts p = Some (p, Ok (length (vp_disks p) - f, f))
              else exists msg, resolve_ec b opts p = Some (p, Err (InvalidConfig msg))
  | None => exists ec, resolve_ec b opts p = Some (p, Ok ec) /\ covers (length (vp_disks p)) ec
  end.
Proof.
  intros Hn. unfold resolve_ec. destruct (ec_ftt opts) as [f|].
  - unfold mbind, pool_bind, gets, lift. case_bool_decide as Hf; [by rewrite ftt_to_ec_ok|].
    unfold ftt_to_ec. rewrite (bool_decide_eq_true_2 (_ <= f)), orb_true_r by lia. by eexists.
  - exists (bucket_ec p b). split; [done|exact (bucket_ec_ok p b Hn)].
Qed.

(** Settings survive a round trip through the pool.  On volumes in good order that
    agree on a bucket's settings, setting the versioning state or the tolerance
    succeeds, the getters return what was set, the tolerance decides the parameters of
    later writes, and every other setting is as before; a tolerance of as many failures
    as there are volumes is refused. *)
Theorem settings_roundtrip_pool {B W P : Type} `{!Backend B W} `{!HealBackend B} `{!PoolBackend B}
    `{!ObjectNames} `{!PoolBackendOk B W} `{!PoolSettingsOk B W} (p : VolumePool B P) b s0 v f :
  Forall good (vp_disks p) -> 0 < length (vp_disks p) -> live p b -> agree_settings (vp_disks p) b s0 ->
  (exists p', set_versioning_config b v p = Some (p', Ok tt) /\
     get_versioning_config b p' = Some (p', Ok (Some v)) /\
     get_bucket_settings b p' = Some (p', Ok (set_versioning (Some v) s0))) /\
  (if bool_decide (f < length (vp_disks p))
   then exists p', set_ftt b f p = Some (p', Ok tt) /\ get_ftt b p' = Some (p', Ok (Some f)) /\
          get_bucket_settings b p' = Some (p', Ok (set_bs_ftt (Some f) s0)) /\
          bucket_ec p' b = (length (vp_disks p) - f, f)
   else exists msg, set_ftt b f p = Some (p, Err (InvalidConfig msg))).
Proof.
  intros Hg Hn Hl Ha.
  split.
  - destruct (set_then_get p b (set_versioning (Some v)) s0 Hg Hn Hl Ha) as (p' & E & Hlen & Ha' & Hl' & Hgs). exists p'.
    unfold set_versioning_config, get_versioning_config. rewrite !(lift_ok tt) by apply Hl.
    rewrite (pool_bind_ok _ _ _ _ _ (require_bucket_ok p b Hl)), (pool_bind_ok _ _ _ _ _ (require_bucket_ok p' b Hl')).
    split_and!; [done| |done]. unfold gets.
    by rewrite (head_agree bs_versioning _ _ _ v (eq_ind_r (lt 0) Hn Hlen) Ha') by done.
  - unfold set_ftt. rewrite !(lift_ok tt) by apply Hl.
    rewrite (pool_bind_ok _ _ _ _ _ (require_bucket_ok p b Hl)), (pool_bind_ok (gets _) _ p p _ eq_refl).
    case_bool_decide as Hf.
    + destruct (set_then_get p b (set_bs_ftt (Some f)) s0 Hg Hn Hl Ha) as (p' & E & Hlen & Ha' & Hl' & Hgs). exists p'.
      rewrite (lift_ok (length (vp_disks p) - f, f)) by (by apply ftt_to_ec_ok).
      unfold get_ftt. rewrite (lift_ok tt) by apply Hl. rewrite (pool_bind_ok _ _ _ _ _ (require_bucket_ok p' b Hl')).
      split_and!; [done| |done|].
      * unfold gets. by rewrite (head_agree bs_ftt _ _ _ f (eq_ind_r (lt 0) Hn Hlen) Ha') by done.
      * unfold bucket_ec. rewrite Hlen. destruct (vp_disks p') as [|d ds]; [simpl in Hlen; lia|].
        apply Forall_cons_1 in Ha' as [Hs _]. cbn [settings_ec]. rewrite Hs. cbn [set_bs_ftt bs_ftt mbind option_bind].
        by rewrite ftt_to_ec_ok.
    + unfold ftt_to_ec. rewrite (bool_decide_eq_true_2 (_ <= f)), orb_true_r by lia. by eexists.
Qed.

(** Creating a bucket that no volume has succeeds: every volume has it afterwards,
    its tolerance is the default one (one failure, or none on a single volume), and
    creating it again answers that it exists and changes nothing. *)
Theorem make_bucket_creates {B W P : Type} `{!Backend B W} `{!HealBackend B} `{!PoolBackend B}
    `{!ObjectNames} `{!PoolBackendOk B W} `{!PoolSettingsOk B W} (p : VolumePool B P) b :
  Forall good (vp_disks p) -> 0 < length (vp_disks p) -> validate_bucket_name b = Ok tt ->
  Forall (fun d => bucket_exists d b = false) (vp_disks p) ->
  exists p', pool_make_bucket b p = Some (p', Ok tt) /\
    Forall (fun d => bucket_exists d b = true) (vp_disks p') /\
    get_ftt b p' = Some (p', Ok (Some (default_ftt (length (vp_disks p))))) /\
    pool_make_bucket b p' = Some (p', Err BucketExists).
Proof.
  intros Hg Hn Hv Hb. destruct (make_all (vp_disks p) b Hg Hb) as (I1 & I2 & I3). cbn zeta in *.
  set (p1 := set_disks (map fst (map (fun d => disk_make_bucket d b) (vp_disks p))) p).
  assert (Hlen : length (vp_disks p1) = length (vp_disks p)) by (cbn; by rewrite !length_map).
  assert (Hn1 : 0 < length (vp_disks p1)) by lia.
  assert (Hl1 : live p1 b) by (split; [done|]; by apply existsb_forall).
  destruct (update_settings_ok p1 b (set_bs_ftt (Some (default_ftt (length (vp_disks p))))) I1 Hn1)
    as (p' & E & Hg' & Hf & Hsb).
  pose proof (live_changes p1 p' b Hsb Hl1) as Hl'. exists p'. split_and!.
  - unfold pool_make_bucket. rewrite (lift_ok tt) by done. rewrite (pool_bind_ok (gets _) _ p p _ eq_refl).
    rewrite (existsb_forall (fun d => bucket_exists d b) _ false Hn Hb).
    rewrite (pool_bind_ok (each_disk _) _ p p1 _ eq_refl), I3, bool_decide_eq_false_2 by lia.
    rewrite (pool_bind_ok (gets _) _ p1 p1 _ eq_refl), Hlen.
    rewrite (pool_bind_ok (attempt _) _ p1 p' (Some tt)); [done|]. unfold attempt, set_ftt.
    rewrite (lift_ok tt) by done. rewrite (pool_bind_ok _ _ _ _ _ (require_bucket_ok p1 b Hl1)).
    rewrite (pool_bind_ok (gets _) _ p1 p1 _ eq_refl), Hlen.
    rewrite (lift_ok (length (vp_disks p) - default_ftt (length (vp_disks p)), default_ftt (length (vp_disks p))))
      by (apply ftt_to_ec_ok; unfold default_ftt; lia).
    by rewrite E.
  - clear -I2 Hsb. change (vp_disks p1) with (map fst (map (fun d => disk_make_bucket d b) (vp_disks p))) in Hsb.
    revert I2 Hsb. generalize (map fst (map (fun d => disk_make_bucket d b) (vp_disks p))) (vp_disks p').
    intros l l' I2 Hsb. induction Hsb as [|d d' l l' Hd _ IH]; [constructor|].
    apply Forall_cons_1 in I2 as [Hdb I2]. constructor; [by rewrite Hd|by apply IH].
  - unfold get_ftt. rewrite (lift_ok tt) by done. rewrite (pool_bind_ok _ _ _ _ _ (require_bucket_ok p' b Hl')).
    unfold gets. destruct Hf as [|d d' l l' Hd _]; [simpl in Hn1; lia|]. cbn. by rewrite Hd, decide_True.
  - unfold pool_make_bucket. rewrite (lift_ok tt) by done. rewrite (pool_bind_ok (gets _) _ p' p' _ eq_refl).
    by rewrite (proj2 Hl').
Qed.

(** ** The volume in memory *)

Local Existing Instance all_names.

Global Instance mv_settings_ok : PoolSettingsOk MemVolume MvWriter.
Proof.
  constructor.
  - intros d b s [Hw Hd]. cbn. unfold mv_guard. rewrite Hw. eexists. split_and!; [done|by split| |done].
    intros b'. cbn. case_decide as Hb; [subst; by rewrite lookup_insert_eq|by rewrite lookup_insert_ne].
  - intros d b [Hw Hd] Hb. cbn in Hb |- *. unfold mv_guard. rewrite Hw, Hb. eexists. split_and!; [done|by split|].
    intros b'. cbn. destruct (decide (b' = b)) as [->|Hx]; [apply bool_decide_eq_true_2; set_solver|].
    apply bool_decide_ext. set_solver.
Qed.

Section SettingsDemo.
  Local Existing Instances example_hashes xor_code xor_code_ok demo_uuid.

Lemma write_params_cover_volumes_witness :
  0 < length (vp_disks demo_pool3) /\ resolve_ec "photos" demo_opts demo_pool3 = Some (demo_pool3, Ok (2, 1)) /\
  exists ec, resolve_ec "photos" demo_opts demo_pool3 = Some (demo_pool3, Ok ec) /\
    covers (length (vp_disks demo_pool3)) ec.
Proof.
  assert (Hn : 0 < length (vp_disks demo_pool3)) by (cbn; lia). split_and!; [exact Hn|vm_compute; reflexivity|].
  exact (write_params_cover_volumes demo_pool3 "photos" demo_opts Hn).
Defined.

Lemma demo_live : live demo_pool3 "photos".
Proof. split; vm_compute; reflexivity. Qed.

Lemma settings_roundtrip_pool_witness :
  (exists p', set_versioning_config "photos" "Enabled" demo_pool3 = Some (p', Ok tt) /\
     get_versioning_config "photos" p' = Some (p', Ok (Some "Enabled"))) /\
  exists p', set_ftt "photos" 2 demo_pool3 = Some (p', Ok tt) /\ bucket_ec p' "photos" = (1, 2).
Proof.
  destruct (settings_roundtrip_pool demo_pool3 "photos" default_settings "Enabled" 2) as [H1 H2];
    [by repeat constructor|cbn; lia|exact demo_live|by repeat constructor|].
  cbn in H2. destruct H1 as (p1 & ? & ? & _), H2 as (p2 & ? & _ & _ & ?). split; [by exists p1|by exists p2].
Defined.

Lemma make_bucket_creates_witness :
  exists p', pool_make_bucket "videos" demo_pool3 = Some (p', Ok tt) /\
    pool_make_bucket "videos" p' = Some (p', Err BucketExists).
Proof.
  destruct (make_bucket_creates demo_pool3 "videos") as (p' & E & _ & _ & E');
    [by repeat constructor|cbn; lia|vm_compute; reflexivity|by repeat constructor|].
  exists p'. split; [exact E|exact E'].
Defined.

(** One volume that did not take the new settings is enough to make them invisible:
    the call succeeds when any volume takes them, and the getters ask the first
    volume that has the setting. *)
Theorem partly_set_versioning_is_ignored :
  let p0 := (after (set_versioning_config "photos" "Enabled") demo_pool3).1 in
  let p1 := set_disks (match vp_disks p0 with d :: ds => read_only d :: ds | [] => [] end) p0 in
  let r := after (set_versioning_config "photos" "Suspended") p1 in
  r.2 = Ok tt /\ (after (get_versioning_config "photos") r.1).2 = Ok (Some "Enabled").
Proof. vm_compute. split; reflexivity. Qed.

(** A bucket that is deleted and created again starts with the settings of the old
    one: deleting a bucket leaves its settings on the volumes. *)
Theorem recreated_bucket_keeps_settings :
  let p0 := (after (set_versioning_config "photos" "Enabled") demo_pool3).1 in
  let p1 := (after (pool_delete_bucket "photos") p0).1 in
  let r := after (pool_make_bucket "photos") p1 in
  (after (head_bucket "photos") p1).2 = Ok false /\ r.2 = Ok tt /\
  (after (get_versioning_config "photos") r.1).2 = Ok (Some "Enabled").
Proof. vm_compute. split_and!; reflexivity. Qed.

End SettingsDemo.
