(* ===== verification/Config.v ===== *)
(** The command line ([src/config.rs]): expansion of [{N...M}] ranges, durations,
    validation.

    Text is handled as its UTF-8 bytes; every position the source slices at is next
    to an ASCII character, so no slice splits a character.  [Path::is_file] and
    [Path::is_dir] ask the file system and are arguments.  The value parser of the
    options is the [clap] crate's; [default_config] holds the defaults of its
    attributes. *)

From Stdlib Require Import Ascii.
From stdpp Require Import base list gmap strings numbers pretty.
From S2P Require Import Prelude Metadata Pathing.

Open Scope string_scope.
Open Scope list_scope.

Record Config : Type := mkConfig {
  c_listen : string;
  c_tls_cert : option string;
  c_tls_key : option string;
  c_volumes : list string;
  c_nodes : list string;
  c_no_auth : bool;
  c_scan_interval : string;
  c_heal_interval : string;
  c_mrf_workers : nat;
  c_write_tier : string;
  c_write_cache : N;
  c_write_cache_flush_ms : N;
  c_write_cache_min_age_ms : N;
  c_write_cache_peer_replicate : bool;
  c_lifecycle_enable : bool;
  c_lifecycle_interval : string;
  c_read_cache : N;
  c_read_cache_max_object : N;
  c_metrics_enable : bool;
  c_raft_enable : bool;
  c_raft_bootstrap : bool;
  c_raft_id : N;
  c_raft_dir : string;
}.

Definition default_config (volumes : list string) : Config := {|
  c_listen := ":10000"; c_tls_cert := None; c_tls_key := None;
  c_volumes := volumes; c_nodes := [""]; c_no_auth := false;
  c_scan_interval := "10m"; c_heal_interval := "24h"; c_mrf_workers := 2;
  c_write_tier := "wal"; c_write_cache := 256; c_write_cache_flush_ms := 100;
  c_write_cache_min_age_ms := 10; c_write_cache_peer_replicate := true;
  c_lifecycle_enable := true; c_lifecycle_interval := "1h";
  c_read_cache := 256; c_read_cache_max_object := 65536; c_metrics_enable := true;
  c_raft_enable := false; c_raft_bootstrap := false; c_raft_id := 0; c_raft_dir := "" |}.

Definition set_volumes_nodes (vs ns : list string) (c : Config) : Config := {|
  c_listen := c_listen c; c_tls_cert := c_tls_cert c; c_tls_key := c_tls_key c;
  c_volumes := vs; c_nodes := ns; c_no_auth := c_no_auth c;
  c_scan_interval := c_scan_interval c; c_heal_interval := c_heal_interval c;
  c_mrf_workers := c_mrf_workers c; c_write_tier := c_write_tier c;
  c_write_cache := c_write_cache c; c_write_cache_flush_ms := c_write_cache_flush_ms c;
  c_write_cache_min_age_ms := c_write_cache_min_age_ms c;
  c_write_cache_peer_replicate := c_write_cache_peer_replicate c;
  c_lifecycle_enable := c_lifecycle_enable c; c_lifecycle_interval := c_lifecycle_interval c;
  c_read_cache := c_read_cache c; c_read_cache_max_object := c_read_cache_max_object c;
  c_metrics_enable := c_metrics_enable c; c_raft_enable := c_raft_enable c;
  c_raft_bootstrap := c_raft_bootstrap c; c_raft_id := c_raft_id c; c_raft_dir := c_raft_dir c |}.

(** ** Numbers: [str::parse] *)

Definition parse_digits (l : bytes) : option N :=
  if bool_decide (l = []) || negb (forallb is_digit l) then None else Some (dec_value l).

Definition parse_u64 (l : bytes) : option N :=
  let digits := match l with c :: r => if Ascii.eqb c "+" then r else l | [] => [] end in
  n ← parse_digits digits;
  if bool_decide (n < 2 ^ 64)%N then Some n else None.

Definition parse_i64 (l : bytes) : option Z :=
  match l with
  | c :: r =>
      if Ascii.eqb c "-" then
        n ← parse_digits r; if bool_decide (n <= 2 ^ 63)%N then Some (- Z.of_N n)%Z else None
      else
        n ← parse_digits (if Ascii.eqb c "+" then r else l);
        if bool_decide (n < 2 ^ 63)%N then Some (Z.of_N n) else None
  | [] => None
  end.

(** ** Durations *)

Definition unit_secs (c : byte) : option N :=
  if Ascii.eqb c "s" then Some 1%N
  else if Ascii.eqb c "m" then Some 60%N
  else if Ascii.eqb c "h" then Some 3600%N
  else if Ascii.eqb c "d" then Some 86400%N
  else None.

(** The loop over the characters, with [num_buf] and [total_secs].  A character that
    is not ASCII ends it at its first byte. *)
Fixpoint duration_loop (l num_buf : bytes) (total_secs : N) : result string (bytes * N) :=
  match l with
  | [] => Ok (num_buf, total_secs)
  | c :: r =>
      if is_digit c then duration_loop r (num_buf ++ [c]) total_secs
      else
        n ← ok_or (parse_u64 num_buf) "invalid number";
        secs ← ok_or (unit_secs c) "invalid duration";
        duration_loop r [] (as_u64 (total_secs + as_u64 (n * secs)))
  end.

Definition parse_duration (s : string) : result string N :=
  let s := trim_bytes (bytes_of s) in
  if bool_decide (s = []) then Err "invalid duration"
  else
    '(num_buf, total_secs) ← duration_loop s [] 0%N;
    total_secs ← (if bool_decide (num_buf = []) then Ok total_secs
                  else n ← ok_or (parse_u64 num_buf) "invalid number"; Ok (as_u64 (total_secs + n)));
    if bool_decide (total_secs = 0)%N then Err "invalid duration" else Ok total_secs.

(** ** Ranges *)

(** The text before the first [c] and the text behind it. *)
Fixpoint cut_at (c : byte) (l : bytes) : option (bytes * bytes) :=
  match l with
  | [] => None
  | x :: r => if Ascii.eqb x c then Some ([], r) else '(a, b) ← cut_at c r; Some (x :: a, b)
  end.

(** [str::split_once]. *)
Fixpoint split_once (pat l : bytes) : option (bytes * bytes) :=
  if prefixb pat l then Some ([], drop (length pat) l)
  else match l with
       | [] => None
       | x :: r => '(a, b) ← split_once pat r; Some (x :: a, b)
       end.

Definition is_ascii_alphabetic (b : byte) : bool := is_lower b || in_range 65 90 b.

(** The counting loop: [i], [i + step], ..., [n] steps on. *)
Fixpoint count_from (n : nat) (i step : Z) : list Z :=
  match n with
  | O => [i]
  | S n => i :: count_from n (i + step) step
  end.

Definition numeric_values (start stop : Z) : list bytes :=
  let step := if bool_decide (start <= stop)%Z then 1%Z else (-1)%Z in
  map (fun i => bytes_of (pretty i)) (count_from (Z.to_nat (Z.abs (stop - start))) start step).

Definition alpha_values (start_c end_c : byte) : list bytes :=
  let lo := N.min (byte_val start_c) (byte_val end_c) in
  let hi := N.max (byte_val start_c) (byte_val end_c) in
  map (fun i => [ascii_of_N (lo + N.of_nat i)]) (seq 0 (N.to_nat (hi - lo) + 1)).

(** What stands between the braces, as the list of values it ranges over. *)
Definition range_values (inner : bytes) : option (list bytes) :=
  '(start_s, end_s) ← split_once (bytes_of "...") inner;
  match parse_i64 start_s, parse_i64 end_s with
  | Some start, Some stop => Some (numeric_values start stop)
  | _, _ =>
      match start_s, end_s with
      | [start_c], [end_c] =>
          if is_ascii_alphabetic start_c && is_ascii_alphabetic end_c
          then Some (alpha_values start_c end_c) else None
      | _, _ => None
      end
  end.

(** The first pair of braces: what is before it, its values, what is behind it. *)
Definition first_range (s : bytes) : option (bytes * list bytes * bytes) :=
  '(prefix, rest) ← cut_at "{" s;
  '(inner, suffix) ← cut_at "}" rest;
  values ← range_values inner;
  Some (prefix, values, suffix).

Fixpoint expand_fuel (fuel : nat) (s : bytes) : list bytes :=
  match fuel with
  | O => [s]
  | S fuel =>
      match first_range s with
      | Some (prefix, values, suffix) => flat_map (fun v => expand_fuel fuel (prefix ++ v ++ suffix)) values
      | None => [s]
      end
  end.

Definition braces (s : bytes) : nat := length (List.filter (Ascii.eqb "{") s).

Definition expand_ranges (s : bytes) : list bytes := expand_fuel (braces s) s.

Definition expand_all (l : list string) : list string :=
  flat_map (fun s => map string_of (expand_ranges (bytes_of s))) l.

(** ** Validation *)

Section Validation.
  Context (is_file is_dir : string -> bool).

Definition check_tls (c : Config) : result string unit :=
  match c_tls_cert c, c_tls_key c with
  | Some cert, Some key =>
      if negb (is_file cert) then Err ("tls cert path does not exist: " +:+ cert)
      else if negb (is_file key) then Err ("tls key path does not exist: " +:+ key)
      else Ok tt
  | None, None => Ok tt
  | _, _ => Err "both --tls-cert and --tls-key must be provided together"
  end.

Definition check_volumes (vs : list string) : result string unit :=
  match List.find (fun v => negb (is_dir v)) vs with
  | Some raw => Err ("volume path does not exist: " +:+ raw)
  | None => Ok tt
  end.

Definition check_interval (name value : string) : result string unit :=
  _ ← map_err (fun _ => "invalid " +:+ name +:+ ": " +:+ value) (parse_duration value); Ok tt.

Definition check_write_tier (tier : string) : result string unit :=
  if bool_decide (tier = "file") || bool_decide (tier = "wal") then Ok tt
  else Err ("invalid write_tier: " +:+ tier +:+ " (expected file|wal)").

(** [expand_and_validate(&mut self)]: the ranges stay expanded when a check fails. *)
Definition expand_and_validate (c : Config) : Config * result string unit :=
  let c := set_volumes_nodes (expand_all (c_volumes c))
             (List.filter (fun s => negb (bool_decide (s = ""))) (expand_all (c_nodes c))) c in
  (c, if bool_decide (c_volumes c = []) then Err "no volumes specified"
      else
        _ ← check_tls c;
        _ ← check_volumes (c_volumes c);
        _ ← check_interval "scan_interval" (c_scan_interval c);
        _ ← check_interval "heal_interval" (c_heal_interval c);
        _ ← check_interval "lifecycle_interval" (c_lifecycle_interval c);
        check_write_tier (c_write_tier c)).

End Validation.

(** [parse_duration(..).unwrap_or(Duration::from_secs(..))]. *)
Definition interval_or (d : N) (s : string) : N :=
  match parse_duration s with Ok n => n | Err _ => d end.

Definition scan_interval_duration (c : Config) : N := interval_or 600 (c_scan_interval c).
Definition heal_interval_duration (c : Config) : N := interval_or 86400 (c_heal_interval c).
Definition lifecycle_interval_duration (c : Config) : N := interval_or 3600 (c_lifecycle_interval c).

(** ** Cutting *)

Lemma cut_at_Some c l a b : cut_at c l = Some (a, b) <-> l = a ++ c :: b /\ c ∉ a.
Proof.
  revert a; induction l as [|x l IH]; intros a; cbn [cut_at].
  { split; [done|]. intros [H _]. by destruct a. }
  destruct (Ascii.eqb_spec x c) as [->|Hne].
  - split; [intros [= <- <-]; split; [done|set_solver]|].
    intros [H Ha]. destruct a as [|y a]; [by simplify_eq/=|]. simplify_eq/=. set_solver.
  - assert (Hx : forall a', x :: l = a' ++ c :: b -> c ∉ a' -> exists a'', a' = x :: a'' /\ cut_at c l = Some (a'', b)).
    { intros [|y a'] H Ha; simplify_eq/=. exists a'. split; [done|]. apply IH. set_solver. }
    destruct (cut_at c l) as [[a' b']|]; cbn; split; try done.
    + intros [= <- <-]. destruct (proj1 (IH a') eq_refl) as [-> ?]. split; [done|set_solver].
    + intros [H Ha]. by destruct (Hx a H Ha) as (? & -> & [= -> ->]).
    + intros [H Ha]. by destruct (Hx a H Ha) as (? & -> & ?).
Qed.

Lemma cut_at_app c a l : c ∉ a -> cut_at c (a ++ l) = (fun r => (a ++ r.1, r.2)) <$> cut_at c l.
Proof.
  intros Ha. induction a as [|x a IH]; cbn [app cut_at]; [by destruct (cut_at c l) as [[??]|]|].
  destruct (Ascii.eqb_spec x c) as [->|Hne]; [set_solver|].
  rewrite IH by set_solver. by destruct (cut_at c l) as [[??]|].
Qed.

Lemma pretty_Z_no_brace (z : Z) : "{"%char ∉ bytes_of (pretty z).
Proof. by apply pretty_Z_not. Qed.

(** ** Ranges *)

Lemma alpha_no_brace a b : is_ascii_alphabetic a = true -> is_ascii_alphabetic b = true ->
  Forall (fun v => "{"%char ∉ v) (alpha_values a b).
Proof.
  intros Ha Hb. apply Forall_forall. intros v (i & -> & Hi%elem_of_seq)%list_elem_of_fmap.
  rewrite list_elem_of_singleton. intros E.
  assert (Hle : forall c, is_ascii_alphabetic c = true -> (byte_val c <= 122)%N).
  { intros c. unfold is_ascii_alphabetic, is_lower, in_range. rewrite orb_true_iff, !andb_true_iff, !N.leb_le. lia. }
  pose proof (Hle a Ha). pose proof (Hle b Hb). apply (f_equal byte_val) in E.
  rewrite byte_val_of_N in E by lia. change (byte_val "{"%char) with 123%N in E. lia.
Qed.

Lemma range_values_no_brace inner vs : range_values inner = Some vs -> Forall (fun v => "{"%char ∉ v) vs.
Proof.
  unfold range_values. destruct (split_once _ inner) as [[s e]|]; cbn; [|done].
  assert (Hnum : forall x y, Forall (fun v => "{"%char ∉ v) (numeric_values x y)).
  { intros x y. apply Forall_fmap, Forall_true. intros z. apply pretty_Z_no_brace. }
  destruct (parse_i64 s) as [x|], (parse_i64 e) as [y|]; [by intros [= <-]| | |];
    (destruct s as [|a [|??]]; [done| |done]; destruct e as [|b [|??]]; [done| |done];
     destruct (is_ascii_alphabetic a) eqn:Ha, (is_ascii_alphabetic b) eqn:Hb; cbn; try done;
     intros [= <-]; by apply alpha_no_brace).
Qed.

Lemma first_range_Some s p vs suf : first_range s = Some (p, vs, suf) ->
  exists inner, s = p ++ "{"%char :: inner ++ "}"%char :: suf /\ "{"%char ∉ p /\ Forall (fun v => "{"%char ∉ v) vs.
Proof.
  unfold first_range. destruct (cut_at "{" s) as [[p' rest]|] eqn:E1; cbn; [|done].
  destruct (cut_at "}" rest) as [[inner suf']|] eqn:E2; cbn; [|done].
  destruct (range_values inner) as [vs'|] eqn:E3; cbn; [|done]. intros [= -> -> ->].
  apply cut_at_Some in E1 as [-> Hp]. apply cut_at_Some in E2 as [-> _].
  exists inner. split_and!; [done|done|by eapply range_values_no_brace].
Qed.

Lemma first_range_app a s : "{"%char ∉ a ->
  first_range (a ++ s) = (fun r => (a ++ r.1.1, r.1.2, r.2)) <$> first_range s.
Proof.
  intros Ha. unfold first_range. rewrite cut_at_app by done.
  destruct (cut_at "{" s) as [[p rest]|]; cbn; [|done]. destruct (cut_at "}" rest) as [[inner suf]|]; cbn; [|done].
  by destruct (range_values inner).
Qed.

Lemma braces_app a b : braces (a ++ b) = braces a + braces b.
Proof. unfold braces. by rewrite List.filter_app, length_app. Qed.

Lemma braces_none a : "{"%char ∉ a -> braces a = 0.
Proof.
  unfold braces. induction a as [|x a IH]; [done|]. rewrite not_elem_of_cons. intros [Hx Ha]. cbn [List.filter].
  destruct (Ascii.eqb_spec "{" x); [done|]. by apply IH.
Qed.

(** Replacing the first pair of braces by one of its values leaves fewer braces. *)
Lemma braces_decrease s p vs suf v : first_range s = Some (p, vs, suf) -> v ∈ vs ->
  braces (p ++ v ++ suf) < braces s /\ braces suf < braces s.
Proof.
  intros (inner & -> & Hp & Hv)%first_range_Some Hin. rewrite Forall_forall in Hv. specialize (Hv v Hin).
  rewrite !braces_app, (braces_none p), (braces_none v) by done.
  change ("{"%char :: inner ++ "}"%char :: suf) with (["{"%char] ++ inner ++ ["}"%char] ++ suf).
  rewrite !braces_app. change (braces ["{"%char]) with 1. lia.
Qed.

Lemma flat_map_ext_elem {A B} (f g : A -> list B) l :
  (forall x, x ∈ l -> f x = g x) -> flat_map f l = flat_map g l.
Proof.
  induction l as [|x l IH]; [done|]. intros H. cbn. rewrite H, IH; [done| |set_solver].
  intros y Hy. apply H. set_solver.
Qed.

Lemma expand_fuel_enough n m s : braces s <= n -> braces s <= m -> expand_fuel n s = expand_fuel m s.
Proof.
  assert (H0 : forall s, braces s <= 0 -> first_range s = None).
  { clear. intros s H. destruct (first_range s) as [[[p vs] suf]|] eqn:E; [|done].
    apply first_range_Some in E as (inner & -> & _). rewrite braces_app in H.
    unfold braces at 2 in H. cbn in H. lia. }
  revert m s. induction n as [|n IH]; intros m s Hn Hm.
  - destruct m as [|m]; [done|]. cbn. by rewrite H0.
  - destruct m as [|m]; [cbn; by rewrite H0|]. cbn [expand_fuel].
    destruct (first_range s) as [[[p vs] suf]|] eqn:E; [|done]. apply flat_map_ext_elem. intros v Hv.
    destruct (braces_decrease _ _ _ _ _ E Hv). apply IH; lia.
Qed.

Lemma expand_step s p vs suf : first_range s = Some (p, vs, suf) ->
  expand_ranges s = flat_map (fun v => expand_ranges (p ++ v ++ suf)) vs.
Proof.
  intros E. unfold expand_ranges at 1. rewrite (expand_fuel_enough _ (S (braces s))) by lia. cbn [expand_fuel].
  rewrite E. apply flat_map_ext_elem. intros v Hv. destruct (braces_decrease _ _ _ _ _ E Hv).
  apply expand_fuel_enough; lia.
Qed.

Lemma expand_none s : first_range s = None -> expand_ranges s = [s].
Proof.
  intros E. unfold expand_ranges. rewrite (expand_fuel_enough _ (S (braces s))) by lia. cbn. by rewrite E.
Qed.

(** Text without an opening brace in front is carried along. *)
Lemma expand_app a s : "{"%char ∉ a -> expand_ranges (a ++ s) = map (app a) (expand_ranges s).
Proof.
  intros Ha. remember (braces s) as n eqn:En. revert s En.
  induction (lt_wf n) as [n _ IH]; intros s ->.
  destruct (first_range s) as [[[p vs] suf]|] eqn:E.
  - rewrite (expand_step s p vs suf), (expand_step (a ++ s) (a ++ p) vs suf)
      by (done || by rewrite first_range_app, E).
    rewrite flat_map_concat_map, (flat_map_concat_map _ vs), concat_map, map_map. f_equal.
    apply map_ext_in. intros v Hv%list_elem_of_In. rewrite <- app_assoc.
    destruct (braces_decrease _ _ _ _ _ E Hv) as [Hlt _]. by apply (IH _ Hlt).
  - rewrite (expand_none s), (expand_none (a ++ s)); [done| |done]. by rewrite first_range_app, E.
Qed.

(** A text with ranges: literals, each in front of a range, and the text behind the last one. *)
Definition segment_text (seg : bytes * bytes) : bytes := seg.1 ++ "{"%char :: seg.2 ++ ["}"%char].
Definition pattern_text (segs : list (bytes * bytes)) (tail : bytes) : bytes := concat (map segment_text segs) ++ tail.

(** One value for each range, the last range varying fastest. *)
Fixpoint combinations (segs : list (bytes * bytes)) (tail : bytes) : list bytes :=
  match segs with
  | [] => [tail]
  | (literal, inner) :: segs =>
      flat_map (fun v => map (fun r => literal ++ v ++ r) (combinations segs tail)) (default [] (range_values inner))
  end.

Definition range_segment (seg : bytes * bytes) : Prop := "{"%char ∉ seg.1 /\ is_Some (range_values seg.2).

Lemma first_range_segment s p vs suf : first_range s = Some (p, vs, suf) ->
  exists inner, s = segment_text (p, inner) ++ suf /\ range_values inner = Some vs.
Proof.
  unfold first_range. destruct (cut_at "{" s) as [[p' rest]|] eqn:E1; cbn; [|done].
  destruct (cut_at "}" rest) as [[inner suf']|] eqn:E2; cbn; [|done].
  destruct (range_values inner) as [vs'|] eqn:E3; cbn; [|done]. intros [= -> -> ->].
  apply cut_at_Some in E1 as [-> _]. apply cut_at_Some in E2 as [-> _]. exists inner. split; [|done].
  unfold segment_text. cbn. by rewrite <- !app_assoc, <- app_comm_cons, <- app_assoc.
Qed.

Lemma expand_segments s : exists segs tail, s = pattern_text segs tail /\ Forall range_segment segs /\
  first_range tail = None /\ expand_ranges s = combinations segs tail.
Proof.
  remember (braces s) as n eqn:En. revert s En. induction (lt_wf n) as [n _ IH]; intros s ->.
  destruct (first_range s) as [[[p vs] suf]|] eqn:E; [|exists [], s; rewrite expand_none by done; by repeat constructor].
  destruct (first_range_Some _ _ _ _ E) as (_ & _ & Hp & Hvs). rewrite Forall_forall in Hvs.
  destruct (first_range_segment _ _ _ _ E) as (inner & Es & Hi).
  assert (Hlt : braces suf < braces s).
  { rewrite Es. unfold segment_text. rewrite !braces_app. unfold braces at 3. cbn. lia. }
  destruct (IH _ Hlt suf eq_refl) as (segs & tail & Esuf & Hsegs & Ht & Ee).
  exists ((p, inner) :: segs), tail. split_and!; [| |done|].
  - rewrite Es, Esuf. unfold pattern_text. cbn [map concat]. by rewrite <- app_assoc.
  - constructor; [|done]. by split; [|exists vs].
  - rewrite (expand_step s p vs suf E). cbn [combinations]. rewrite Hi. cbn [default]. apply flat_map_ext_elem. intros v Hv.
    rewrite app_assoc, expand_app by (rewrite not_elem_of_app; auto). rewrite Ee. apply map_ext. intros r. by rewrite <- app_assoc.
Qed.

(** C38: Range expansion ends and yields the combinations of the ranges it reaches.  Every
    text is a run of ranges, each behind a literal without an opening brace, followed by a
    tail whose first pair of braces, if it has one, is no range; the results are, in order,
    the texts with one value in place of each of those ranges and the tail as it is.  So
    ranges behind a pair of braces that is no range stay text (literal_braces_hide_ranges),
    and without such a pair all are expanded.  The function satisfies the equation of the
    source, in which it calls itself on the text with the first range replaced by a value. *)
Theorem expand_ranges_combinations s :
  (exists segs tail, s = pattern_text segs tail /\ Forall range_segment segs /\ first_range tail = None /\
     expand_ranges s = combinations segs tail) /\
  expand_ranges s = match first_range s with
                    | None => [s]
                    | Some (prefix, values, suffix) => flat_map (fun v => expand_ranges (prefix ++ v ++ suffix)) values
                    end.
Proof.
  split; [apply expand_segments|]. destruct (first_range s) as [[[p vs] suf]|] eqn:E; [by apply expand_step|by apply expand_none].
Qed.

Example expand_two : map string_of (expand_ranges (bytes_of "rack{1...2}-n{b...a}")) =
  ["rack1-na"; "rack1-nb"; "rack2-na"; "rack2-nb"].
Proof. vm_compute. reflexivity. Qed.

(** ** Durations *)

(** A duration as it is written: numbers with a unit, and a last number without. *)
Record DurationText : Type := mkDurationText {
  dt_groups : list (bytes * byte);
  dt_rest : bytes;
}.

Definition number_ok (l : bytes) : Prop := l <> [] /\ forallb is_digit l = true /\ (dec_value l < 2 ^ 64)%N.

Definition duration_ok (d : DurationText) : Prop :=
  Forall (fun g => number_ok g.1 /\ is_Some (unit_secs g.2)) (dt_groups d) /\ (dt_rest d = [] \/ number_ok (dt_rest d)).

Definition groups_text (gs : list (bytes * byte)) : bytes := flat_map (fun g => g.1 ++ [g.2]) gs.

Definition group_secs (g : bytes * byte) : N := (dec_value g.1 * default 0 (unit_secs g.2))%N.
Definition groups_secs (gs : list (bytes * byte)) : N := foldr (fun g n => group_secs g + n)%N 0%N gs.

Definition duration_text (d : DurationText) : bytes := groups_text (dt_groups d) ++ dt_rest d.
Definition duration_secs (d : DurationText) : N := (groups_secs (dt_groups d) + dec_value (dt_rest d))%N.

Lemma digit_not_plus c : is_digit c = true -> Ascii.eqb c "+" = false.
Proof. intros H. destruct (Ascii.eqb_spec c "+") as [->|]; [discriminate H|done]. Qed.

Lemma parse_u64_digits l : forallb is_digit l = true ->
  parse_u64 l = (if bool_decide (l = []) then None
                 else if bool_decide (dec_value l < 2 ^ 64)%N then Some (dec_value l) else None).
Proof.
  intros Hl. unfold parse_u64, parse_digits. destruct l as [|c l]; [done|].
  pose proof (proj1 (andb_prop _ _ Hl)) as Hc. rewrite (digit_not_plus c Hc), Hl. done.
Qed.

Lemma number_ok_parse l : number_ok l -> parse_u64 l = Some (dec_value l).
Proof.
  intros (Hn & Hd & Hlt). rewrite parse_u64_digits by done. by rewrite bool_decide_eq_false_2, bool_decide_eq_true_2.
Qed.

Lemma parse_number_ok l n : forallb is_digit l = true -> parse_u64 l = Some n -> number_ok l /\ n = dec_value l.
Proof.
  intros Hd. rewrite parse_u64_digits by done. repeat case_bool_decide; try done. by intros [= <-].
Qed.

Lemma unit_not_digit c u : unit_secs c = Some u -> is_digit c = false.
Proof.
  unfold unit_secs. repeat (match goal with |- context [Ascii.eqb ?a ?b] => destruct (Ascii.eqb_spec a b) as [->|_] end);
    done.
Qed.

Lemma duration_loop_digits a l num total : forallb is_digit a = true ->
  duration_loop (a ++ l) num total = duration_loop l (num ++ a) total.
Proof.
  revert num. induction a as [|c a IH]; intros num Ha; [by rewrite app_nil_r|]. cbn in Ha |- *.
  apply andb_prop in Ha as [-> Ha]. rewrite IH by done. by rewrite <- app_assoc.
Qed.

Lemma wrap_add_l b x y : wrap b (wrap b x + y) = wrap b (x + y).
Proof. unfold wrap. apply N.Div0.add_mod_idemp_l. Qed.
Lemma wrap_add_r b x y : wrap b (x + wrap b y) = wrap b (x + y).
Proof. unfold wrap. apply N.Div0.add_mod_idemp_r. Qed.

(** The loop over a well-formed text leaves its last number and the seconds so far. *)
Lemma duration_loop_text gs rest total :
  duration_ok (mkDurationText gs rest) ->
  duration_loop (groups_text gs ++ rest) [] (as_u64 total) = Ok (rest, as_u64 (total + groups_secs gs)).
Proof.
  intros [Hg Hr]. cbn in Hg, Hr. revert total. induction Hg as [|[d u] gs [Hd [n Hu]] Hg IH]; intros total; cbn.
  - assert (forallb is_digit rest = true) as Hrd by (destruct Hr as [->|(?&?&?)]; done).
    rewrite <- (app_nil_r rest) at 1. rewrite duration_loop_digits by done. cbn. by rewrite N.add_0_r.
  - cbn in Hd, Hu. unfold group_secs at 1. cbn. rewrite Hu. cbn.
    rewrite <- !app_assoc, duration_loop_digits by apply Hd. cbn. rewrite (unit_not_digit _ _ Hu), number_ok_parse, Hu by done.
    cbn. rewrite wrap_add_l, wrap_add_r, IH. by rewrite N.add_assoc.
Qed.

(** The loop accepts nothing else. *)
Lemma duration_loop_inv l num total rest t :
  forallb is_digit num = true -> duration_loop l num (as_u64 total) = Ok (rest, t) ->
  exists gs, num ++ l = groups_text gs ++ rest /\ t = as_u64 (total + groups_secs gs) /\
    Forall (fun g => number_ok g.1 /\ is_Some (unit_secs g.2)) gs /\ forallb is_digit rest = true.
Proof.
  revert num total. induction l as [|c l IH]; intros num total Hn; cbn [duration_loop].
  - intros [= <- <-]. exists []. by rewrite app_nil_r, N.add_0_r.
  - destruct (is_digit c) eqn:Hc.
    + intros (gs & E & Ht & Hg & Hr)%IH; [|rewrite forallb_app, Hn; cbn; by rewrite Hc].
      exists gs. by rewrite <- app_assoc in E.
    + destruct (parse_u64 num) as [n|] eqn:En; cbn; [|done]. destruct (unit_secs c) as [u|] eqn:Eu; cbn; [|done].
      rewrite wrap_add_l, wrap_add_r. intros (gs & E & Ht & Hg & Hr)%IH; [|done].
      apply parse_number_ok in En as [Hok ->]; [|done]. exists ((num, c) :: gs). cbn in E |- *. rewrite E, <- !app_assoc.
      split_and!; [done| |constructor; [by split; [|eexists]|done]|done].
      rewrite Ht. unfold group_secs at 1. cbn. rewrite Eu. cbn. by rewrite N.add_assoc.
Qed.

(** Durations are parsed exactly.  [parse_duration] accepts a text, white space
    aside, precisely when it is a sequence of numbers below 2^64 with the units s, m, h
    and d, perhaps ended by a number without unit, and answers the sum of the parts as
    seconds modulo 2^64, provided that is not zero. *)
Theorem parse_duration_exact s n :
  parse_duration s = Ok n <->
  exists d, duration_ok d /\ trim_bytes (bytes_of s) = duration_text d /\ n = as_u64 (duration_secs d) /\ n <> 0%N.
Proof.
  unfold parse_duration. set (l := trim_bytes (bytes_of s)). change 0%N with (as_u64 0). split.
  - case_bool_decide as Hl; [done|]. destruct (duration_loop l [] (as_u64 0)) as [[rest t]|] eqn:E; cbn; [|done].
    apply duration_loop_inv in E as (gs & El & -> & Hg & Hr); [|done]. cbn [app] in El. rewrite El, N.add_0_l. intros H.
    exists (mkDurationText gs rest). unfold duration_ok, duration_text, duration_secs. cbn.
    destruct (bool_decide_reflect (rest = [])) as [->|Hne]; cbn in H.
    + case_bool_decide; [done|]. rewrite N.add_0_r. injection H as <-. naive_solver.
    + destruct (parse_u64 rest) as [k|] eqn:Ek; cbn in H; [|done]. apply parse_number_ok in Ek as [Hok ->]; [|done].
      rewrite wrap_add_l in H. case_bool_decide; [done|]. injection H as <-. naive_solver.
  - intros ([gs rest] & Hd & -> & -> & Hn). unfold duration_text, duration_secs in *. cbn in *.
    rewrite bool_decide_eq_false_2.
    2: { intros E. apply app_nil in E as [E1 E2]. rewrite E2 in Hn. destruct gs as [|[??] ?]; [destruct (Hn eq_refl)|].
         cbn in E1. apply app_nil in E1 as [[_ E1]%app_nil _]. done. }
    rewrite duration_loop_text by done. cbn. rewrite N.add_0_l. destruct Hd as [_ [Hr|Hr]]; cbn in Hr.
    + rewrite Hr in *. cbn in *. rewrite N.add_0_r in *. by rewrite bool_decide_eq_false_2.
    + destruct (bool_decide_reflect (rest = [])) as [->|_]; [by destruct Hr|].
      rewrite number_ok_parse by done. cbn. rewrite wrap_add_l. by rewrite bool_decide_eq_false_2.
Qed.

(** A sum that does not fit wraps around: more than half a trillion years pass as
    forty-four seconds. *)
Theorem huge_duration_wraps : parse_duration "307445734561825861m" = Ok 44%N.
Proof. vm_compute. reflexivity. Qed.

(** A pair of braces that is no range hides the ranges behind it. *)
Theorem literal_braces_hide_ranges :
  map string_of (expand_ranges (bytes_of "/mnt/{a}/d{1...2}")) = ["/mnt/{a}/d{1...2}"].
Proof. vm_compute. reflexivity. Qed.

(** ** Validation *)

Lemma check_interval_ok name v : check_interval name v = Ok tt <-> exists n, parse_duration v = Ok n.
Proof. unfold check_interval. destruct (parse_duration v); cbn; naive_solver. Qed.

(** C39: A configuration that passes validation has volumes, all of them directories, no
    empty node, a known write tier, and intervals that parse, so that the defaults of
    the accessors are never used. *)
Theorem validated_config is_file is_dir c c' :
  expand_and_validate is_file is_dir c = (c', Ok tt) ->
  c_volumes c' <> [] /\ Forall (fun v => is_dir v = true) (c_volumes c') /\ "" ∉ c_nodes c' /\
  c_write_tier c' ∈ ["file"; "wal"] /\
  parse_duration (c_scan_interval c) = Ok (scan_interval_duration c') /\
  parse_duration (c_heal_interval c) = Ok (heal_interval_duration c') /\
  parse_duration (c_lifecycle_interval c) = Ok (lifecycle_interval_duration c').
Proof.
  unfold expand_and_validate. set (c1 := set_volumes_nodes _ _ c). intros [= <- H]. revert H.
  case_bool_decide as Hv; [done|]. intros ([] & _ & H)%result_bind_Ok.
  apply result_bind_Ok in H as ([] & Hdir & H). apply result_bind_Ok in H as ([] & Hs & H).
  apply result_bind_Ok in H as ([] & Hh & H). apply result_bind_Ok in H as ([] & Hl & H).
  assert (Hint : forall name v d, check_interval name v = Ok tt -> parse_duration v = Ok (interval_or d v)).
  { intros name v d [n Hn]%check_interval_ok. unfold interval_or. by rewrite Hn. }
  split_and!; [done| | | |by eapply Hint..].
  - apply Forall_forall. intros v Hin. unfold check_volumes in Hdir.
    destruct (List.find _ _) eqn:E; [done|]. eapply find_none in E; [|by apply list_elem_of_In].
    by apply negb_false_iff in E.
  - cbn. intros Hin%list_elem_of_In. apply filter_In in Hin as [_ Hin]. by rewrite bool_decide_eq_true_2 in Hin.
  - unfold check_write_tier in H. destruct (_ || _) eqn:E; [|discriminate H].
    apply orb_prop in E as [E|E]; apply bool_decide_eq_true_1 in E; cbn; rewrite E; set_solver.
Qed.

Lemma validated_config_witness :
  let c := default_config ["/srv/d{1...2}"] in
  let r := expand_and_validate (fun _ => false) (fun _ => true) c in
  c_volumes r.1 = ["/srv/d1"; "/srv/d2"] /\ c_nodes r.1 = [] /\
  parse_duration (c_heal_interval c) = Ok (heal_interval_duration r.1) /\ heal_interval_duration r.1 = 86400%N.
Proof.
  assert (H : expand_and_validate (fun _ => false) (fun _ => true) (default_config ["/srv/d{1...2}"]) =
    ((expand_and_validate (fun _ => false) (fun _ => true) (default_config ["/srv/d{1...2}"])).1, Ok tt))
    by (vm_compute; reflexivity).
  split_and!; [vm_compute; reflexivity|vm_compute; reflexivity| |vm_compute; reflexivity].
  exact (proj1 (proj2 (proj2 (proj2 (proj2 (proj2 (validated_config _ _ _ _ H))))))).
Defined.
