(* ===== verification/VolumeFormat.v ===== *)
(** The identity of volumes ([src/storage/volume.rs]): the file [volume.json] of every
    volume, formatting, loading and finalizing.

    The file system is the one of [FileSys]; a volume is given by its path as text,
    [components] of which is where it lies.  The JSON of the file is the crate's
    (class [Json]); the identifiers a fresh format draws and the clock are arguments.
    Error texts are constructors with the values they print. *)

From Stdlib Require Import Ascii.
From stdpp Require Import base list gmap strings numbers pretty.
From S2P Require Import Prelude Metadata Pathing Wal Materialize FileSys.

Open Scope string_scope.
Open Scope list_scope.

Record SetMember : Type := mkSetMember {
  sm_volume_id : string;
  sm_node_id : string;
  sm_index : N;
}.

Record VolumeFormat : Type := mkVolumeFormat {
  vf_version : N;
  vf_cluster_id : option string;
  vf_node_id : string;
  vf_volume_id : string;
  vf_volume_index : N;
  vf_created_at : N;
  vf_cluster : option (list SetMember);
}.

Global Instance SetMember_eq_dec : EqDecision SetMember.
Proof. solve_decision. Defined.
Global Instance VolumeFormat_eq_dec : EqDecision VolumeFormat.
Proof. solve_decision. Defined.

Global Instance SetMember_countable : Countable SetMember.
Proof.
  refine (inj_countable' (fun m => (sm_volume_id m, sm_node_id m, sm_index m))
            (fun '(a, b, c) => mkSetMember a b c) _). by intros [].
Defined.
Global Instance VolumeFormat_countable : Countable VolumeFormat.
Proof.
  refine (inj_countable' (fun f => (vf_version f, vf_cluster_id f, vf_node_id f, vf_volume_id f,
                                    vf_volume_index f, vf_created_at f, vf_cluster f))
            (fun '(a, b, c, d, e, g, h) => mkVolumeFormat a b c d e g h) _). by intros [].
Defined.

Definition CURRENT_VOLUME_FORMAT_VERSION : N := 1.
Definition MIN_SUPPORTED_VOLUME_FORMAT_VERSION : N := 1.

Inductive VolumeError : Type :=
| NewerFormat (path : string) (version : N)
| OlderFormat (path : string) (version : N)
| ReadFailed (path : string)
| ParseFailed (path : string)
| MixedState (present total : nat)
| NodeIdMismatch (a b : string)
| ClusterIdMismatch
| DuplicateVolumeId (id : string)
| WriteFailed.

Definition check_format_version (path : string) (version : N) : result VolumeError unit :=
  if bool_decide (CURRENT_VOLUME_FORMAT_VERSION < version)%N then Err (NewerFormat path version)
  else if bool_decide (version < MIN_SUPPORTED_VOLUME_FORMAT_VERSION)%N then Err (OlderFormat path version)
  else Ok tt.

Definition sys_dir (root : string) : Path := push (components root) ".abixio.sys".
Definition volume_path (root : string) : Path := push (sys_dir root) "volume.json".

Section Format.
  Context `{!Json VolumeFormat}.

Definition read_volume_format (fs : FS) (root : string) : result VolumeError (option VolumeFormat) :=
  match fs_read fs (volume_path root) with
  | None => if read_refused fs (volume_path root) then Err (ReadFailed root) else Ok None
  | Some data =>
      fmt ← ok_or (from_json data) (ParseFailed root);
      _ ← check_format_version root (vf_version fmt);
      Ok (Some fmt)
  end.

Definition write_volume_format (root : string) (fmt : VolumeFormat) (fs : FS) : FS * result VolumeError unit :=
  let r := mkdir_all (sys_dir root) fs in
  match r.2, to_json fmt with
  | Ok _, Some data =>
      let w := fs_put (volume_path root) data r.1 in (w.1, map_err (fun _ => WriteFailed) w.2)
  | _, _ => (r.1, Err WriteFailed)
  end.

Definition generate_volume_format (node_id volume_id : string) (volume_index now : N) : VolumeFormat := {|
  vf_version := CURRENT_VOLUME_FORMAT_VERSION; vf_cluster_id := None; vf_node_id := node_id;
  vf_volume_id := volume_id; vf_volume_index := volume_index; vf_created_at := now; vf_cluster := None |}.

(** [iter().map(read).collect::<Result<Vec<_>, _>>()]: the first error wins. *)
Fixpoint read_formats (fs : FS) (roots : list string) : result VolumeError (list (option VolumeFormat)) :=
  match roots with
  | [] => Ok []
  | r :: rs => f ← read_volume_format fs r; fs' ← read_formats fs rs; Ok (f :: fs')
  end.

Fixpoint check_agree (node_id : string) (cluster_id : option string) (present : list VolumeFormat)
    : result VolumeError unit :=
  match present with
  | [] => Ok tt
  | f :: rest =>
      if negb (bool_decide (vf_node_id f = node_id)) then Err (NodeIdMismatch node_id (vf_node_id f))
      else if negb (bool_decide (vf_cluster_id f = cluster_id)) then Err ClusterIdMismatch
      else check_agree node_id cluster_id rest
  end.

Fixpoint check_unique (seen : gset string) (present : list VolumeFormat) : result VolumeError unit :=
  match present with
  | [] => Ok tt
  | f :: rest =>
      if bool_decide (vf_volume_id f ∈ seen) then Err (DuplicateVolumeId (vf_volume_id f))
      else check_unique ({[vf_volume_id f]} ∪ seen) rest
  end.

Definition load_volumes (fs : FS) (roots : list string) : result VolumeError (option (list VolumeFormat)) :=
  formats ← read_formats fs roots;
  let present := omap id formats in
  match present with
  | [] => Ok None
  | f :: _ =>
      if negb (bool_decide (length present = length roots)) then Err (MixedState (length present) (length roots))
      else
        _ ← check_agree (vf_node_id f) (vf_cluster_id f) present;
        _ ← check_unique ∅ present;
        Ok (Some present)
  end.

(** Writing a list of formats, stopping at the first failure. *)
Fixpoint write_formats (roots : list string) (formats : list VolumeFormat) (fs : FS) : FS * result VolumeError unit :=
  match roots, formats with
  | r :: rs, f :: fms =>
      let w := write_volume_format r f fs in
      match w.2 with Ok _ => write_formats rs fms w.1 | Err e => (w.1, Err e) end
  | _, _ => (fs, Ok tt)
  end.

(** [uuid] is the sequence of identifiers drawn: the node's, then the volumes'. *)
Definition fresh_formats (uuid : nat -> string) (now : N) (n : nat) : list VolumeFormat :=
  map (fun i => generate_volume_format (uuid 0) (uuid (S i)) (as_u32 (N.of_nat i)) now) (seq 0 n).

Definition format_volumes (uuid : nat -> string) (now : N) (roots : list string) (fs : FS)
    : FS * result VolumeError (list VolumeFormat) :=
  let formats := fresh_formats uuid now (length roots) in
  let w := write_formats roots formats fs in
  (w.1, _ ← w.2; Ok formats).

Definition finalized (cluster_id : string) (members : list SetMember) (f : VolumeFormat) : VolumeFormat := {|
  vf_version := vf_version f; vf_cluster_id := Some cluster_id; vf_node_id := vf_node_id f;
  vf_volume_id := vf_volume_id f; vf_volume_index := vf_volume_index f; vf_created_at := vf_created_at f;
  vf_cluster := Some members |}.

Definition finalize_volumes (roots : list string) (formats : list VolumeFormat) (cluster_id : string)
    (members : list SetMember) (fs : FS) : FS * result VolumeError unit :=
  write_formats roots (map (finalized cluster_id members) formats) fs.

End Format.

(** ** Writing and loading *)

(** A file of the system directory of a volume. *)
Definition sys_file (name root : string) : Path := components root ++ [Normal ".abixio.sys"; Normal name].

(** A volume such a file can be written to: its root is a directory, and neither name
    under it is taken by the wrong kind of entry. *)
Definition sys_ready (name : string) (fs : FS) (root : string) : Prop :=
  components root ∈ fs_dirs fs /\ fs_files fs !! sys_dir root = None /\ sys_file name root ∉ fs_dirs fs.

Definition formattable : FS -> string -> Prop := sys_ready "volume.json".

Lemma sys_dir_eq root : sys_dir root = components root ++ [Normal ".abixio.sys"].
Proof. apply push_good. by_decide. Qed.
Lemma sys_file_eq name root : sys_file name root = sys_dir root ++ [Normal name].
Proof. rewrite sys_dir_eq. unfold sys_file. by rewrite <- app_assoc. Qed.
Lemma volume_path_eq root : volume_path root = sys_file "volume.json" root.
Proof. unfold volume_path. rewrite sys_file_eq. apply push_good. by_decide. Qed.
Lemma sys_file_parent name root : parent (sys_file name root) = sys_dir root.
Proof. rewrite sys_file_eq. apply parent_snoc. Qed.

Lemma sys_file_ne_sys name root root' : name <> ".abixio.sys" -> sys_file name root <> sys_dir root'.
Proof. rewrite sys_dir_eq, sys_file_eq. intros Hn E. by apply app_inj_tail in E as [_ [= ?]]. Qed.

Lemma volume_path_inj root root' : volume_path root = volume_path root' -> components root = components root'.
Proof. rewrite !volume_path_eq. unfold sys_file. intros E. by apply app_inv_tail in E. Qed.

(** No system file lies on the way to the system directory of a volume. *)
Lemma sys_file_not_above name fs root root' :
  name <> ".abixio.sys" -> fs_wf fs -> components root ∈ fs_dirs fs -> sys_file name root' ∉ fs_dirs fs ->
  sys_file name root' ∉ prefixes (sys_dir root).
Proof.
  intros Hname Hwf Hc Hd [_ [r Hr]]%elem_of_prefixes. destruct r as [|x r _] using rev_ind.
  { rewrite app_nil_r in Hr. by apply (sys_file_ne_sys name root' root). }
  rewrite sys_dir_eq, app_assoc in Hr. apply app_inj_tail in Hr as [Hr _]. apply Hd.
  apply (dirs_closed fs _ r); [done| |by rewrite <- Hr]. unfold sys_file. by destruct (components root').
Qed.

(** [create_dir_all] of the system directory and [fs::write] of a file in it. *)
Lemma sys_put_ok name fs root data :
  name <> ".abixio.sys" -> fs_wf fs -> sys_ready name fs root ->
  exists fs1 fs', mkdir_all (sys_dir root) fs = (fs1, Ok tt) /\ fs_put (sys_file name root) data fs1 = (fs', Ok tt) /\
    fs_wf fs' /\ fs_files fs' = <[sys_file name root := data]> (fs_files fs) /\
    (forall n r, n <> ".abixio.sys" -> sys_ready n fs r -> sys_ready n fs' r).
Proof.
  intros Hname Hwf (Hc & Hs & Hv).
  assert (Hm : mkdir_all (sys_dir root) fs =
    (mkFS (fs_files fs) (fs_dirs fs ∪ list_to_set (prefixes (sys_dir root))), Ok tt)).
  { apply mkdir_all_ok. intros q [Hq [r Hr]]%elem_of_prefixes. destruct r as [|x r _] using rev_ind.
    { rewrite app_nil_r in Hr. by rewrite <- Hr. }
    rewrite sys_dir_eq, app_assoc in Hr. apply app_inj_tail in Hr as [Hr _].
    apply (wf_disjoint _ Hwf), (dirs_closed fs q r); [done|done|by rewrite <- Hr]. }
  pose proof (mkdir_all_wf (sys_dir root) fs Hwf) as Hwf1. rewrite Hm in Hwf1. cbn in Hwf1.
  assert (Hp : forall n r, n <> ".abixio.sys" -> sys_file n r ∉ fs_dirs fs ->
    sys_file n r ∉ fs_dirs fs ∪ list_to_set (prefixes (sys_dir root))).
  { intros n r Hn Hr. rewrite not_elem_of_union, not_elem_of_list_to_set. split; [done|].
    exact (sys_file_not_above n fs root r Hn Hwf Hc Hr). }
  pose proof (fs_put_wf (sys_file name root) data _ Hwf1) as Hwf2.
  assert (Hpar : parent (sys_file name root) ∈ fs_dirs fs ∪ list_to_set (prefixes (sys_dir root))).
  { rewrite sys_file_parent. apply elem_of_union_r, elem_of_list_to_set, prefixes_self.
    rewrite sys_dir_eq. by destruct (components root). }
  rewrite fs_put_ok in Hwf2 by (by try apply Hp).
  eexists _, _. split; [exact Hm|]. rewrite fs_put_ok by (by try apply Hp). split; [done|]. cbn.
  split_and!; [exact Hwf2|done|]. intros n r Hn (Hc' & Hs' & Hv'). split_and!; cbn; [set_solver| |by apply Hp].
  rewrite lookup_insert_ne; [done|]. by apply sys_file_ne_sys.
Qed.

(** Where the file can be written, reading it before finds nothing. *)
Lemma formattable_not_found fs root : fs_wf fs -> formattable fs root -> read_refused fs (volume_path root) = false.
Proof.
  intros Hwf (Hc & Hs & Hv). rewrite volume_path_eq. apply read_not_found; [done|right]. rewrite sys_file_parent.
  intros q Hq. rewrite sys_dir_eq in Hq. apply elem_of_prefixes in Hq as [Hq [r Hr]].
  destruct r as [|x r _] using rev_ind; [rewrite app_nil_r in Hr; by rewrite <- Hr, <- sys_dir_eq|].
  rewrite app_assoc in Hr. apply app_inj_tail in Hr as [Hr _]. apply (wf_disjoint _ Hwf).
  apply (dirs_closed fs q r); [done|done|by rewrite <- Hr].
Qed.

Section FormatProofs.
  Context `{!Json VolumeFormat} `{!JsonOk VolumeFormat}.

Lemma write_volume_format_ok fs root f :
  fs_wf fs -> formattable fs root ->
  exists fs', write_volume_format root f fs = (fs', Ok tt) /\ fs_wf fs' /\
    fs_files fs' !! volume_path root = to_json f /\
    (forall p, p <> volume_path root -> fs_files fs' !! p = fs_files fs !! p) /\
    (forall r, formattable fs r -> formattable fs' r).
Proof.
  intros Hwf Hr. destruct (json_reads_back f) as (data & Hd & _).
  destruct (sys_put_ok "volume.json" fs root data) as (fs1 & fs' & Em & Ep & Hwf' & Hfiles & Hready); [done..|].
  exists fs'. unfold write_volume_format. rewrite Em. cbn [fst snd]. rewrite Hd, volume_path_eq, Ep. cbn.
  split_and!; [done|done|by rewrite Hfiles, lookup_insert_eq| |].
  - intros p Hp. rewrite Hfiles, lookup_insert_ne; [done|]. congruence.
  - intros r. by apply Hready.
Qed.

Lemma write_formats_ok fs roots formats :
  fs_wf fs -> Forall (formattable fs) roots -> NoDup (map components roots) -> length formats = length roots ->
  exists fs', write_formats roots formats fs = (fs', Ok tt) /\ fs_wf fs' /\
    (forall r, formattable fs r -> formattable fs' r) /\
    Forall2 (fun r f => fs_files fs' !! volume_path r = to_json f) roots formats /\
    (forall p, p ∉ map volume_path roots -> fs_files fs' !! p = fs_files fs !! p).
Proof.
  revert fs formats. induction roots as [|r roots IH]; intros fs formats Hwf Hf Hnd Hl.
  { destruct formats; [|done]. exists fs. split_and!; [done..|constructor|done]. }
  destruct formats as [|f formats]; [done|]. inversion_clear Hf as [|?? Hr Hrs]. inversion_clear Hnd as [|?? Hnin Hnd'].
  destruct (write_volume_format_ok fs r f Hwf Hr) as (fs1 & E1 & Hwf1 & Hread & Hother & Hform).
  destruct (IH fs1 formats Hwf1) as (fs2 & E2 & Hwf2 & Hform2 & Hreads & Hother2); [|done|by injection Hl|].
  { rewrite Forall_forall in Hrs |- *. auto. }
  exists fs2. cbn. rewrite E1. cbn. rewrite E2. split_and!; [done|done|auto| |].
  - constructor; [|done]. rewrite Hother2; [done|]. intros (x & E & Hx)%list_elem_of_fmap. apply Hnin.
    rewrite (volume_path_inj r x E). by apply list_elem_of_fmap_2.
  - intros p [Hp Hps]%not_elem_of_cons. rewrite Hother2 by done. by apply Hother.
Qed.

(** Formats that belong to one node and one cluster, readable by this binary. *)
Record consistent (formats : list VolumeFormat) : Prop := {
  con_version : Forall (fun f => vf_version f = CURRENT_VOLUME_FORMAT_VERSION) formats;
  con_node : forall f g, f ∈ formats -> g ∈ formats -> vf_node_id f = vf_node_id g;
  con_cluster : forall f g, f ∈ formats -> g ∈ formats -> vf_cluster_id f = vf_cluster_id g;
  con_unique : NoDup (map vf_volume_id formats);
}.

Lemma check_agree_ok n c l :
  check_agree n c l = Ok tt <-> Forall (fun f => vf_node_id f = n /\ vf_cluster_id f = c) l.
Proof.
  induction l as [|f l IH]; cbn; [split; [constructor|done]|]. rewrite Forall_cons, <- IH.
  repeat case_bool_decide; cbn; naive_solver.
Qed.

Lemma check_unique_ok seen l : check_unique seen l = Ok tt <-> fresh seen (map vf_volume_id l).
Proof.
  revert seen. induction l as [|f l IH]; intros seen; cbn [check_unique map]; [split; [repeat constructor|done]|].
  rewrite fresh_cons. case_bool_decide; [naive_solver|]. rewrite IH. tauto.
Qed.

(** Reading files that decode to formats of this version. *)
Lemma read_formats_ok fs roots formats :
  Forall2 (fun r f => exists data, fs_files fs !! volume_path r = Some data /\ from_json data = Some f) roots formats ->
  Forall (fun f => vf_version f = CURRENT_VOLUME_FORMAT_VERSION) formats ->
  read_formats fs roots = Ok (map Some formats).
Proof.
  induction 1 as [|r f roots formats (data & Hd & Hj) _ IH]; intros Hv; [done|].
  inversion_clear Hv as [|?? Hver Hv']. cbn. unfold read_volume_format, fs_read. rewrite Hd, Hj. cbn.
  unfold check_format_version. rewrite Hver. cbn. by rewrite IH.
Qed.

Lemma load_decoded fs roots formats :
  Forall2 (fun r f => exists data, fs_files fs !! volume_path r = Some data /\ from_json data = Some f) roots formats ->
  consistent formats -> formats <> [] -> load_volumes fs roots = Ok (Some formats).
Proof.
  intros Hf [Hv Hn Hc Hu] Hne. unfold load_volumes. rewrite (read_formats_ok fs roots formats Hf Hv). cbn.
  assert (Hp : omap id (map Some formats) = formats) by (clear; induction formats; cbn; by f_equal).
  rewrite Hp. destruct formats as [|f formats]; [done|]. rewrite <- (Forall2_length _ _ _ Hf).
  rewrite bool_decide_eq_true_2 by done.
  assert (Ha : check_agree (vf_node_id f) (vf_cluster_id f) (f :: formats) = Ok tt).
  { apply check_agree_ok, Forall_forall. intros g Hg. split; [apply Hn|apply Hc]; set_solver. }
  assert (Hq : check_unique ∅ (f :: formats) = Ok tt).
  { by apply check_unique_ok, fresh_empty. }
  cbn [negb]. rewrite Ha. cbn [mbind result_bind]. by rewrite Hq.
Qed.

Lemma load_written fs roots formats :
  Forall2 (fun r f => fs_files fs !! volume_path r = to_json f) roots formats ->
  consistent formats -> formats <> [] -> load_volumes fs roots = Ok (Some formats).
Proof.
  intros Hf. apply load_decoded. eapply Forall2_impl; [exact Hf|]. intros r f E.
  destruct (json_reads_back f) as (data & Hd & Hb). exists data. by rewrite E.
Qed.

Lemma fresh_consistent uuid now n : Inj eq eq uuid -> consistent (fresh_formats uuid now n).
Proof.
  intros Hinj.
  assert (Hel : forall f, f ∈ fresh_formats uuid now n ->
    exists i, f = generate_volume_format (uuid 0) (uuid (S i)) (as_u32 (N.of_nat i)) now).
  { intros f (i & -> & _)%list_elem_of_fmap. by exists i. }
  split.
  - apply Forall_forall. by intros f [i ->]%Hel.
  - by intros f g [i ->]%Hel [j ->]%Hel.
  - by intros f g [i ->]%Hel [j ->]%Hel.
  - unfold fresh_formats. rewrite map_map. cbn.
    assert (Inj eq eq (fun i => uuid (S i))) by (intros i j E%Hinj; by injection E).
    apply (NoDup_fmap_2 (fun i => uuid (S i))), NoDup_seq.
Qed.

Lemma finalized_consistent cid members formats :
  consistent formats -> consistent (map (finalized cid members) formats).
Proof.
  intros [Hv Hn _ Hu]. split.
  - by apply Forall_fmap.
  - intros f g (f' & -> & Hf)%list_elem_of_fmap (g' & -> & Hg)%list_elem_of_fmap. cbn. auto.
  - by intros f g (f' & -> & Hf)%list_elem_of_fmap (g' & -> & Hg)%list_elem_of_fmap.
  - by rewrite map_map.
Qed.

(** Formatting and finalizing are read back as they were written. *)
Theorem volumes_roundtrip uuid now roots fs cid members :
  fs_wf fs -> Forall (formattable fs) roots -> NoDup (map components roots) -> roots <> [] -> Inj eq eq uuid ->
  let formats := fresh_formats uuid now (length roots) in
  exists fs1 fs2,
    format_volumes uuid now roots fs = (fs1, Ok formats) /\ load_volumes fs1 roots = Ok (Some formats) /\
    finalize_volumes roots formats cid members fs1 = (fs2, Ok tt) /\
    load_volumes fs2 roots = Ok (Some (map (finalized cid members) formats)).
Proof.
  intros Hwf Hf Hnd Hne Hinj formats. pose proof (fresh_consistent uuid now (length roots) Hinj) as Hcon.
  assert (Hlen : length formats = length roots) by (unfold formats, fresh_formats; lens).
  assert (Hfne : formats <> []) by (intros E; apply (f_equal length) in E; destruct roots; [done|by rewrite Hlen in E]).
  destruct (write_formats_ok fs roots formats Hwf Hf Hnd Hlen) as (fs1 & E1 & Hwf1 & Hform & Hr1 & _).
  destruct (write_formats_ok fs1 roots (map (finalized cid members) formats)) as (fs2 & E2 & _ & _ & Hr2 & _);
    [done|rewrite Forall_forall in Hf |- *; auto|done|lens|].
  exists fs1, fs2. split_and!.
  - unfold format_volumes. fold formats. by rewrite E1.
  - by apply load_written.
  - exact E2.
  - apply load_written; [done|by apply finalized_consistent|]. by destruct formats.
Qed.

Lemma read_formats_inv fs roots formats :
  read_formats fs roots = Ok formats -> Forall2 (fun r o => read_volume_format fs r = Ok o) roots formats.
Proof.
  revert formats. induction roots as [|r roots IH]; intros formats; cbn; [intros [= <-]; constructor|].
  intros (o & Ho & H)%result_bind_Ok. apply result_bind_Ok in H as (os & Hos & [= <-]). constructor; auto.
Qed.

Lemma read_volume_format_inv fs r f :
  read_volume_format fs r = Ok (Some f) ->
  (exists data, fs_files fs !! volume_path r = Some data /\ from_json data = Some f) /\
  vf_version f = CURRENT_VOLUME_FORMAT_VERSION.
Proof.
  unfold read_volume_format, fs_read. destruct (fs_files fs !! volume_path r) as [data|]; [|by destruct (read_refused _ _)].
  destruct (from_json data) as [g|] eqn:E; cbn; [|done]. unfold check_format_version.
  repeat case_bool_decide; cbn; try done. intros [= ->]. split; [by exists data|].
  unfold CURRENT_VOLUME_FORMAT_VERSION, MIN_SUPPORTED_VOLUME_FORMAT_VERSION in *. lia.
Qed.

Lemma omap_id_le {A} (l : list (option A)) : length (omap id l) <= length l.
Proof. induction l as [|[x|] l IH]; cbn in *; lia. Qed.

Lemma omap_id_full {A} (l : list (option A)) : length (omap id l) = length l -> l = map Some (omap id l).
Proof.
  induction l as [|[x|] l IH]; cbn; [done| |]; intros H.
  - injection H as H. f_equal. by apply IH.
  - pose proof (omap_id_le l). exfalso. unfold id in *. lia.
Qed.

(** A node starts from volumes only if every one of them carries a readable identity,
    of one node and one cluster, and no volume is there twice: loading answers formats
    precisely then, and with the formats of the volumes in their order. *)
Theorem load_volumes_exact fs roots formats :
  load_volumes fs roots = Ok (Some formats) <->
  Forall2 (fun r f => exists data, fs_files fs !! volume_path r = Some data /\ from_json data = Some f) roots formats /\
  consistent formats /\ formats <> [].
Proof.
  unfold load_volumes. split.
  - intros (os & Hos & H)%result_bind_Ok. apply read_formats_inv in Hos.
    destruct (omap id os) as [|f fs'] eqn:Eo; [done|]. case_bool_decide as Hlen; [|done]. cbn [negb] in H.
    apply result_bind_Ok in H as ([] & Ha & H). apply result_bind_Ok in H as ([] & Hu & [= <-]).
    rewrite <- Eo, (Forall2_length _ _ _ Hos) in Hlen. apply omap_id_full in Hlen. rewrite Eo in Hlen.
    rewrite Hlen in Hos. apply Forall2_fmap_r in Hos.
    assert (Hv : Forall2 (fun r f => (exists data, fs_files fs !! volume_path r = Some data /\ from_json data = Some f) /\
       vf_version f = CURRENT_VOLUME_FORMAT_VERSION) roots (f :: fs')).
    { eapply Forall2_impl; [exact Hos|]. intros r g. apply read_volume_format_inv. }
    split; [by eapply Forall2_impl; [exact Hv|]; intros ?? [??]|]. split; [|done].
    apply check_agree_ok in Ha. apply check_unique_ok, fresh_empty in Hu. rewrite Forall_forall in Ha. split.
    + by eapply Forall2_Forall_r; [exact Hv|]; apply Forall_true; intros ? ? [? ?].
    + intros g h Hg Hh. by rewrite (proj1 (Ha g Hg)), (proj1 (Ha h Hh)).
    + intros g h Hg Hh. by rewrite (proj2 (Ha g Hg)), (proj2 (Ha h Hh)).
    + done.
  - intros (Hf & Hcon & Hne). by apply load_decoded.
Qed.

End FormatProofs.
