(* ===== verification/Topology.v ===== *)
(** The static topology file ([src/cluster/topology.rs]) and the discovery of nodes at
    boot ([src/cluster/identity.rs]).

    A path is its text, as [Path::display] prints it.  The answers of the other nodes to
    a join request, one function per round of the discovery loop, the host name and the
    iteration order of a [HashMap] are arguments; errors are constructors with the values
    the messages print. *)

From Stdlib Require Import Ascii.
From stdpp Require Import base list gmap strings numbers sorting pretty.
From S2P Require Import Prelude Metadata Pathing Wal Materialize Placement FileSys VolumeFormat.

Open Scope string_scope.
Open Scope list_scope.

(** ** The topology file *)

Record TopologyVolume : Type := mkTopologyVolume {
  tv_volume_id : string;
  tv_path : string;
}.

Record TopologyNode : Type := mkTopologyNode {
  tn_node_id : string;
  tn_advertise_s3 : string;
  tn_advertise_cluster : string;
  tn_volumes : list TopologyVolume;
}.

Record StaticTopology : Type := mkStaticTopology {
  st_cluster_id : string;
  st_epoch_id : N;
  st_nodes : list TopologyNode;
}.

Inductive TopologyError : Type :=
| ReadTopology
| ParseTopology
| EmptyClusterId
| ZeroEpoch
| NoNodes
| EmptyNodeId
| DuplicateNodeId (id : string)
| NodeWithoutDisks (id : string)
| EmptyVolumeId
| DuplicateVolume (id : string)
| DuplicateDiskPath (path : string)
| UnknownNode (id : string)
| DisksDiffer (id : string) (expected actual : gset string).

Definition ascii_lower (c : byte) : byte :=
  if in_range 65 90 c then ascii_of_N (byte_val c + 32) else c.

(** [normalize_path]: backslashes to slashes, ASCII letters to lower case. *)
Definition disk_path (path : string) : string :=
  string_of (map (fun c => ascii_lower (if Ascii.eqb c "\" then "/"%char else c)) (bytes_of path)).

Definition blank (s : string) : bool := bool_decide (trim s = "").

(** The sets the loops of [validate] fill. *)
Record Seen : Type := mkSeen {
  seen_nodes : gset string;
  seen_volumes : gset string;
  seen_paths : gset string;
}.

Fixpoint validate_volumes (vs : list TopologyVolume) (s : Seen) : result TopologyError Seen :=
  match vs with
  | [] => Ok s
  | v :: rest =>
      if blank (tv_volume_id v) then Err EmptyVolumeId
      else if bool_decide (tv_volume_id v ∈ seen_volumes s) then Err (DuplicateVolume (tv_volume_id v))
      else if bool_decide (disk_path (tv_path v) ∈ seen_paths s) then Err (DuplicateDiskPath (disk_path (tv_path v)))
      else validate_volumes rest
             (mkSeen (seen_nodes s) ({[tv_volume_id v]} ∪ seen_volumes s) ({[disk_path (tv_path v)]} ∪ seen_paths s))
  end.

Fixpoint validate_nodes (ns : list TopologyNode) (s : Seen) : result TopologyError Seen :=
  match ns with
  | [] => Ok s
  | n :: rest =>
      if blank (tn_node_id n) then Err EmptyNodeId
      else if bool_decide (tn_node_id n ∈ seen_nodes s) then Err (DuplicateNodeId (tn_node_id n))
      else if bool_decide (tn_volumes n = []) then Err (NodeWithoutDisks (tn_node_id n))
      else
        s' ← validate_volumes (tn_volumes n)
               (mkSeen ({[tn_node_id n]} ∪ seen_nodes s) (seen_volumes s) (seen_paths s));
        validate_nodes rest s'
  end.

Global Instance TopologyVolume_eq_dec : EqDecision TopologyVolume.
Proof. solve_decision. Defined.
Global Instance TopologyNode_eq_dec : EqDecision TopologyNode.
Proof. solve_decision. Defined.

Definition validate (t : StaticTopology) : result TopologyError unit :=
  if blank (st_cluster_id t) then Err EmptyClusterId
  else if bool_decide (st_epoch_id t = 0%N) then Err ZeroEpoch
  else if bool_decide (st_nodes t = []) then Err NoNodes
  else _ ← validate_nodes (st_nodes t) (mkSeen ∅ ∅ ∅); Ok tt.

Definition load `{!Json StaticTopology} (fs : FS) (path : Path) : result TopologyError StaticTopology :=
  bytes ← ok_or (fs_read fs path) ReadTopology;
  t ← ok_or (from_json bytes) ParseTopology;
  _ ← validate t;
  Ok t.

Definition topology_hash `{!Json StaticTopology} `{Hashes} (t : StaticTopology) : option string :=
  sha256_hex <$> to_json t.

Definition node (t : StaticTopology) (node_id : string) : option TopologyNode :=
  List.find (fun n => bool_decide (tn_node_id n = node_id)) (st_nodes t).

Definition peers_for (t : StaticTopology) (node_id : string) : list string :=
  map tn_advertise_cluster (List.filter (fun n => negb (bool_decide (tn_node_id n = node_id))) (st_nodes t)).

Definition validate_local_node (t : StaticTopology) (node_id : string) (disk_paths : list string)
    : result TopologyError unit :=
  n ← ok_or (node t node_id) (UnknownNode node_id);
  let expected : gset string := list_to_set (map (fun v => disk_path (tv_path v)) (tn_volumes n)) in
  let actual : gset string := list_to_set (map disk_path disk_paths) in
  if bool_decide (expected = actual) then Ok tt else Err (DisksDiffer node_id expected actual).

(** Every volume with its node, in the order of the file. *)
Definition all_volumes (t : StaticTopology) : list (TopologyNode * TopologyVolume) :=
  flat_map (fun n => map (pair n) (tn_volumes n)) (st_nodes t).

Definition placement_volumes (t : StaticTopology) : list PlacementVolume :=
  imap (fun i '(n, v) => mkPlacementVolume i (tn_node_id n) (tv_volume_id v)) (all_volumes t).

(** ** Identities at boot *)

Record VolumeEntry : Type := mkVolumeEntry {
  ve_volume_id : string;
  ve_index : N;
  ve_path : string;
}.

Record NodeIdentity : Type := mkNodeIdentity {
  ni_node_id : string;
  ni_advertise : string;
  ni_volumes : list VolumeEntry;
}.

Record NodeVolumes : Type := mkNodeVolumes {
  nv_node_id : string;
  nv_endpoint : string;
  nv_volume_paths : list string;
}.

Record ResolvedIdentity : Type := mkResolvedIdentity {
  ri_node_id : string;
  ri_cluster_id : string;
  ri_advertise : string;
  ri_nodes : list string;
  ri_disk_paths : list string;
  ri_all_members : list SetMember;
  ri_node_volumes : list NodeVolumes;
}.

(** The global index is a [u32] that counts up. *)
Definition build_members (identities : list NodeIdentity) : list SetMember :=
  imap (fun i '(n, v) => mkSetMember (ve_volume_id v) n (as_u32 (N.of_nat i)))
    (flat_map (fun id => map (pair (ni_node_id id)) (ni_volumes id)) (sort_by_key ni_node_id identities)).

Definition derive_advertise (hostname : option string) (listen : string) : string :=
  let addr := if starts_with ":" listen then "0.0.0.0" +:+ listen else listen in
  let host := default "127.0.0.1" hostname in
  let port := default "10000" (last (split ":"%char addr)) in
  "http://" +:+ host +:+ ":" +:+ port.

(** [a.trim_end_matches('/') == b.trim_end_matches('/')]. *)
Definition same_endpoint (a b : string) : bool := bool_decide (trim_end_slashes a = trim_end_slashes b).

Section Identity.
  Context `{Hashes}.

(** [format!("abixio-{}", hex::encode(&digest[..8]))] of a hash that was fed [input]:
    sixteen digits of it. *)
Definition short_hash (prefix : string) (input : bytes) : string :=
  prefix +:+ string_of (take 16 (bytes_of (sha256_hex input))).

Definition cluster_id_for (sorted_node_ids : list string) : string :=
  short_hash "abixio-" (bytes_of "deployment:" ++ flat_map (fun id => bytes_of id ++ [":"%char]) sorted_node_ids).

(** [build_node_volumes_from_members]; [iter] is the order in which the map is walked. *)
Definition by_node (members : list SetMember) : gmap string (list string) :=
  fold_left (fun m x => <[sm_node_id x := default [] (m !! sm_node_id x) ++ [sm_volume_id x]]> m) members ∅.

Definition build_node_volumes_from_members (iter : gmap string (list string) -> list (string * list string))
    (local_node_id local_advertise : string) (local_disk_paths : list string) (members : list SetMember)
    (nodes : list string) : list NodeVolumes :=
  let m := by_node members in
  (if bool_decide (is_Some (m !! local_node_id)) then [mkNodeVolumes local_node_id local_advertise local_disk_paths] else [])
  ++ omap (fun '(nid, vol_ids) =>
       if bool_decide (nid = local_node_id) then None
       else Some (mkNodeVolumes nid
                    (default "" (List.find (fun n => negb (same_endpoint n local_advertise)) nodes)) vol_ids))
     (iter m).

(** One pass over the remote nodes: who is not known yet is asked, and an identity
    with a new node id is kept.  [ask n] is the answer to a [POST] on
    [/_admin/cluster/join] of node [n], an endpoint that no handler of the repository
    serves ([join_endpoint_missing] in Admin): of the nodes built from it all answer
    [None], and [unanswered_boot_waits] says what becomes of the boot. *)
Definition join_round (ask : string -> option NodeIdentity) (remote : list string) (known : list NodeIdentity)
    : list NodeIdentity :=
  fold_left (fun known n =>
    if existsb (fun id => same_endpoint (ni_advertise id) n) known then known
    else match ask n with
         | Some peer => if existsb (fun id => bool_decide (ni_node_id id = ni_node_id peer)) known
                        then known else known ++ [peer]
         | None => known
         end) remote known.

(** The loop; [rounds] are the answers of each round, [None] when they run out. *)
Fixpoint discover (rounds : list (string -> option NodeIdentity)) (remote : list string) (expected : nat)
    (known : list NodeIdentity) : option (list NodeIdentity) :=
  match rounds with
  | [] => None
  | ask :: rest =>
      let known := join_round ask remote known in
      if bool_decide (expected <= length known) then Some known else discover rest remote expected known
  end.

Definition local_identity (formats : list VolumeFormat) (node_id advertise : string) (disk_paths : list string) : NodeIdentity :=
  mkNodeIdentity node_id advertise
    (zip_with (fun f p => mkVolumeEntry (vf_volume_id f) (vf_volume_index f) p) formats disk_paths).

(** The state of a boot: what has been written and how it ends.  [None] is a boot that
    still waits for other nodes. *)
Definition Boot : Type := FS * option (result VolumeError ResolvedIdentity).

Context `{!Json VolumeFormat}.

Definition load_or_format (uuid : nat -> string) (now : N) (disk_paths : list string) (fs : FS)
    : FS * result VolumeError (list VolumeFormat) :=
  match load_volumes fs disk_paths with
  | Ok (Some f) => (fs, Ok f)
  | Ok None => format_volumes uuid now disk_paths fs
  | Err e => (fs, Err e)
  end.

Definition finish (fs : FS) (disk_paths : list string) (formats : list VolumeFormat)
    (id : ResolvedIdentity) : Boot :=
  let w := finalize_volumes disk_paths formats (ri_cluster_id id) (ri_all_members id) fs in
  (w.1, Some (_ ← w.2; Ok id)).

Definition standalone (node_id advertise : string) (disk_paths : list string) (formats : list VolumeFormat)
    : ResolvedIdentity := {|
  ri_node_id := node_id; ri_cluster_id := cluster_id_for [node_id]; ri_advertise := advertise;
  ri_nodes := []; ri_disk_paths := disk_paths;
  ri_all_members := build_members [local_identity formats node_id advertise disk_paths];
  ri_node_volumes := [mkNodeVolumes node_id advertise disk_paths] |}.

Definition rejoined iter (node_id advertise cluster_id : string) (members : list SetMember)
    (disk_paths nodes : list string) : ResolvedIdentity := {|
  ri_node_id := node_id; ri_cluster_id := cluster_id; ri_advertise := advertise;
  ri_nodes := nodes; ri_disk_paths := disk_paths; ri_all_members := members;
  ri_node_volumes := build_node_volumes_from_members iter node_id advertise disk_paths members nodes |}.

Definition joined (node_id advertise : string) (disk_paths : list string) (all : list NodeIdentity)
    : ResolvedIdentity := {|
  ri_node_id := node_id; ri_cluster_id := cluster_id_for (merge_sort str_le (map ni_node_id all));
  ri_advertise := advertise;
  ri_nodes := map ni_advertise (List.filter (fun id => negb (bool_decide (ni_node_id id = node_id))) all);
  ri_disk_paths := disk_paths; ri_all_members := build_members all;
  ri_node_volumes := map (fun id => mkNodeVolumes (ni_node_id id) (ni_advertise id) (map ve_path (ni_volumes id))) all |}.

(** [resolve_identity].  [formats[0]] exists: a server has at least one volume; without
    any the source panics, which is [None] too here. *)
Definition resolve_identity iter (uuid : nat -> string) (now : N) (hostname : option string)
    (rounds : list (string -> option NodeIdentity)) (disk_paths : list string) (listen : string)
    (nodes : list string) (fs : FS) : Boot :=
  let '(fs, loaded) := load_or_format uuid now disk_paths fs in
  match loaded with
  | Err e => (fs, Some (Err e))
  | Ok [] => (fs, None)
  | Ok ((f :: _) as formats) =>
      let node_id := vf_node_id f in
      let advertise := derive_advertise hostname listen in
      let local := local_identity formats node_id advertise disk_paths in
      let remote := List.filter (fun n => negb (same_endpoint n advertise)) nodes in
      match nodes, vf_cluster_id f, vf_cluster f with
      | [], _, _ => finish fs disk_paths formats (standalone node_id advertise disk_paths formats)
      | _ :: _, Some cluster_id, Some members =>
          (fs, Some (Ok (rejoined iter node_id advertise cluster_id members disk_paths nodes)))
      | _ :: _, _, _ =>
          match discover rounds remote (length nodes) [local] with
          | None => (fs, None)
          | Some all => finish fs disk_paths formats (joined node_id advertise disk_paths all)
          end
      end
  end.

End Identity.

(** ** What [validate] guarantees *)

Definition node_ok (n : TopologyNode) : Prop :=
  blank (tn_node_id n) = false /\ tn_volumes n <> [] /\
  Forall (fun v => blank (tv_volume_id v) = false) (tn_volumes n).

Record valid_topology (t : StaticTopology) : Prop := {
  vt_cluster_id : blank (st_cluster_id t) = false;
  vt_epoch : st_epoch_id t <> 0%N;
  vt_nodes : st_nodes t <> [];
  vt_node_ok : Forall node_ok (st_nodes t);
  vt_node_ids : NoDup (map tn_node_id (st_nodes t));
  vt_volume_ids : NoDup (map (fun nv => tv_volume_id nv.2) (all_volumes t));
  vt_paths : NoDup (map (fun nv => disk_path (tv_path nv.2)) (all_volumes t));
}.

Definition volume_ids_of (n : TopologyNode) : list string := map tv_volume_id (tn_volumes n).
Definition paths_of (n : TopologyNode) : list string := map (fun v => disk_path (tv_path v)) (tn_volumes n).

Definition after_volumes (vs : list TopologyVolume) (s : Seen) : Seen :=
  mkSeen (seen_nodes s) (list_to_set (map tv_volume_id vs) ∪ seen_volumes s)
    (list_to_set (map (fun v => disk_path (tv_path v)) vs) ∪ seen_paths s).

Lemma validate_volumes_ok vs s s' :
  validate_volumes vs s = Ok s' <->
  Forall (fun v => blank (tv_volume_id v) = false) vs /\ fresh (seen_volumes s) (map tv_volume_id vs) /\
  fresh (seen_paths s) (map (fun v => disk_path (tv_path v)) vs) /\ s' = after_volumes vs s.
Proof.
  revert s. induction vs as [|v vs IH]; intros s; cbn [validate_volumes map].
  - unfold after_volumes. cbn. rewrite !(left_id_L ∅ (∪)). destruct s. split; [intros [= <-]|naive_solver].
    repeat split; constructor.
  - rewrite Forall_cons, !fresh_cons. destruct (blank (tv_volume_id v)); [naive_solver|].
    repeat (case_bool_decide; [naive_solver|]). rewrite IH.
    replace (after_volumes vs _) with (after_volumes (v :: vs) s); [cbn; tauto|].
    unfold after_volumes. cbn. f_equal; set_solver.
Qed.

Lemma validate_nodes_ok ns s :
  is_ok (validate_nodes ns s) = true <->
  Forall node_ok ns /\ fresh (seen_nodes s) (map tn_node_id ns) /\
  fresh (seen_volumes s) (flat_map volume_ids_of ns) /\ fresh (seen_paths s) (flat_map paths_of ns).
Proof.
  revert s. induction ns as [|n ns IH]; intros s; cbn [validate_nodes map flat_map].
  { split; [intros _; repeat split; constructor|done]. }
  rewrite Forall_cons, fresh_cons, !fresh_app. unfold node_ok at 1.
  destruct (blank (tn_node_id n)); [cbn; naive_solver|].
  repeat (case_bool_decide; [cbn; naive_solver|]).
  destruct (validate_volumes _ _) as [s'|e] eqn:E.
  - apply validate_volumes_ok in E as (Hb & Hv & Hp & ->). cbn [mbind result_bind]. rewrite IH. cbn in *.
    unfold volume_ids_of at 1, paths_of at 1. tauto.
  - cbn [mbind result_bind is_ok]. split; [done|]. intros (((_ & _ & Hb) & _) & _ & [Hv _] & [Hp _]).
    assert (Hok : validate_volumes (tn_volumes n) (mkSeen ({[tn_node_id n]} ∪ seen_nodes s) (seen_volumes s) (seen_paths s)) =
      Ok (after_volumes (tn_volumes n) (mkSeen ({[tn_node_id n]} ∪ seen_nodes s) (seen_volumes s) (seen_paths s))))
      by by apply validate_volumes_ok.
    by rewrite Hok in E.
Qed.

Lemma all_volumes_map {A} (f : TopologyVolume -> A) t :
  map (fun nv => f nv.2) (all_volumes t) = flat_map (fun n => map f (tn_volumes n)) (st_nodes t).
Proof.
  unfold all_volumes. induction (st_nodes t) as [|n ns IH]; [done|]. cbn. rewrite map_app, IH. f_equal.
  by rewrite map_map.
Qed.

(** A topology passes validation exactly when it has a cluster id, an epoch and nodes,
    every node has an id of its own and at least one volume, and no volume id and no
    path, up to case and the direction of slashes, occurs twice in the cluster. *)
Theorem validate_exact t : validate t = Ok tt <-> valid_topology t.
Proof.
  unfold validate. destruct (blank (st_cluster_id t)) eqn:Hb; [split; [done|intros []; congruence]|].
  case_bool_decide as He; [split; [done|intros []; congruence]|].
  case_bool_decide as Hn; [split; [done|intros []; congruence]|].
  pose proof (validate_nodes_ok (st_nodes t) (mkSeen ∅ ∅ ∅)) as Hok. cbn in Hok. rewrite !fresh_empty in Hok.
  assert (Hiff : (_ ← validate_nodes (st_nodes t) (mkSeen ∅ ∅ ∅); Ok tt) = Ok tt <->
    is_ok (validate_nodes (st_nodes t) (mkSeen ∅ ∅ ∅)) = true) by by destruct (validate_nodes _ _).
  rewrite Hiff, Hok. unfold volume_ids_of, paths_of. rewrite <- !all_volumes_map.
  split; [intros (?&?&?&?); by split|by intros []].
Qed.

Lemma map_imap_pair {A B C} (f : nat -> A -> B) (g : B -> C) (h : A -> C) l :
  (forall i x, g (f i x) = h x) -> map g (imap f l) = map h l.
Proof.
  intros Hgh. revert f Hgh. induction l as [|x l IH]; intros f Hgh; [done|]. cbn. rewrite Hgh. f_equal.
  apply IH. intros i y. apply Hgh.
Qed.

Lemma imap_positions {A B} (f : nat -> A -> B) (g : B -> nat) l :
  (forall i x, g (f i x) = i) -> map g (imap f l) = seq 0 (length l).
Proof.
  intros Hg. apply list_eq. intros i. change (map g (imap f l)) with (g <$> imap f l).
  rewrite list_lookup_fmap, list_lookup_imap. destruct (l !! i) as [x|] eqn:E; cbn.
  - rewrite lookup_seq_lt by by eapply lookup_lt_Some. cbn. by rewrite Hg.
  - symmetry. apply lookup_seq_ge. by apply lookup_ge_None.
Qed.

(** What a placed shard says about its volume. *)
Definition on_volume (t : StaticTopology) (s : PlacementShard) : Prop :=
  exists n v, all_volumes t !! ps_backend_index s = Some (n, v) /\
    ps_node_id s = tn_node_id n /\ ps_volume_id s = tv_volume_id v.

(** A placement over a validated topology uses distinct volumes.  Whenever the file
    passes [validate] and a plan over its volumes succeeds, the shards lie on volumes
    with distinct ids and distinct backend indexes, and the index of a shard is the
    position in the file of the volume and the node it names. *)
Theorem topology_placement_distinct `{Hashes} t bucket key data parity r :
  validate t = Ok tt ->
  plan (mkPlacementPlanner (st_epoch_id t) (st_cluster_id t) (placement_volumes t)) bucket key data parity = Ok r ->
  NoDup (map ps_volume_id (pr_shards r)) /\ NoDup (map ps_backend_index (pr_shards r)) /\
  Forall (on_volume t) (pr_shards r).
Proof.
  intros Hv%validate_exact (_ & Ht & ->)%plan_Ok. cbn [pr_shards]. set (p := mkPlacementPlanner _ _ _).
  pose proof (full_deal_perm p bucket key) as Hp. cbn [pp_disks p] in Hp.
  assert (Hnd : forall A (f : PlacementVolume -> A), NoDup (map f (placement_volumes t)) ->
    NoDup (map f (take (data + parity) (full_deal p bucket key)))).
  { intros A f. rewrite <- (Permutation_map f Hp). intros H1. eapply sublist_NoDup; [exact H1|].
    rewrite <- firstn_map. apply sublist_take. }
  split_and!.
  - rewrite (map_shard_of _ pv_volume_id) by done. apply Hnd. unfold placement_volumes.
    rewrite (map_imap_pair _ _ (fun nv => tv_volume_id nv.2)) by by intros i [n v]. apply Hv.
  - rewrite (map_shard_of _ pv_backend_index) by done. apply Hnd. unfold placement_volumes.
    rewrite imap_positions by by intros i [n v]. apply NoDup_seq.
  - apply Forall_forall. intros s Hs. apply elem_of_lookup_imap in Hs as (i & d & -> & Hd).
    apply list_elem_of_lookup_2, elem_of_take in Hd as (j0 & Hd & _). apply list_elem_of_lookup_2 in Hd. rewrite Hp in Hd.
    apply elem_of_lookup_imap in Hd as (j & [n v] & -> & Hj). by exists n, v.
Qed.

(** ** Sorting by a key *)

Section KeyOrder.
  Context {A : Type} (key : A -> string).

Definition key_le (x y : A) : Prop := str_le (key x) (key y).

Lemma insert_by_key_sorted x l : StronglySorted key_le l -> StronglySorted key_le (insert_by_key key x l).
Proof.
  induction 1 as [|y l Hs IH Hall]; cbn; [repeat constructor|].
  destruct (String.leb (key x) (key y)) eqn:E.
  - constructor; [by constructor|]. constructor; [done|]. eapply Forall_impl; [exact Hall|].
    intros z Hz. unfold key_le in *. by transitivity (key y).
  - constructor; [done|]. rewrite insert_by_key_perm. constructor; [|done].
    destruct (total str_le (key x) (key y)) as [Hle|Hle]; [unfold str_le in Hle; by rewrite E in Hle|done].
Qed.

Lemma sort_by_key_sorted l : StronglySorted key_le (sort_by_key key l).
Proof. induction l as [|x l IH]; cbn; [constructor|by apply insert_by_key_sorted]. Qed.

(** With distinct keys the order of the input does not matter. *)
Lemma sort_by_key_unique l k : l ≡ₚ k -> NoDup (map key l) -> sort_by_key key l = sort_by_key key k.
Proof.
  intros Hp Hnd. apply (StronglySorted_unique_strong key_le); [|apply sort_by_key_sorted..|].
  - intros x y. rewrite !sort_by_key_perm, <- Hp. intros Hx Hy Hxy Hyx.
    assert (E : key x = key y) by by apply (anti_symm str_le).
    apply list_elem_of_lookup in Hx as [i Hi], Hy as [j Hj].
    enough (i = j) by congruence. eapply (NoDup_lookup (map key l)); [done| |].
    + change (map key l) with (key <$> l). by rewrite list_lookup_fmap, Hi.
    + change (map key l) with (key <$> l). rewrite list_lookup_fmap, Hj. cbn. by rewrite E.
  - by rewrite !sort_by_key_perm.
Qed.

End KeyOrder.

(** ** Discovery *)

Section Discovery.
  Context `{Hashes} (peer : string -> NodeIdentity) (nodes : list string).

(** The nodes of a cluster: distinct endpoints, each advertised by the node that
    answers there, and distinct node ids. *)
Record cluster_nodes : Prop := {
  cn_nodup : NoDup nodes;
  cn_endpoint : forall n m, n ∈ nodes -> m ∈ nodes -> same_endpoint n m = true -> n = m;
  cn_advertise : forall n, n ∈ nodes -> same_endpoint (ni_advertise (peer n)) n = true;
  cn_node_id : forall n m, n ∈ nodes -> m ∈ nodes -> ni_node_id (peer n) = ni_node_id (peer m) -> n = m;
}.

(** A node answers with its own identity, if it answers. *)
Definition honest (ask : string -> option NodeIdentity) : Prop :=
  forall n, n ∈ nodes -> ask n = None \/ ask n = Some (peer n).

Context (Hcl : cluster_nodes).

Lemma advertised k n : k ∈ nodes -> n ∈ nodes -> same_endpoint (ni_advertise (peer k)) n = bool_decide (k = n).
Proof.
  intros Hk Hn. pose proof (cn_advertise Hcl k Hk) as Ha. unfold same_endpoint in *.
  apply bool_decide_eq_true in Ha. rewrite Ha. case_bool_decide as E.
  - symmetry. apply bool_decide_eq_true_2, (cn_endpoint Hcl); [done..|]. by apply bool_decide_eq_true_2.
  - symmetry. apply bool_decide_eq_false_2. by intros ->.
Qed.

Lemma existsb_peer (f : NodeIdentity -> bool) n ks : (forall k, k ∈ ks -> f (peer k) = bool_decide (k = n)) ->
  existsb f (map peer ks) = bool_decide (n ∈ ks).
Proof.
  induction ks as [|k ks IH]; intros Hf; [done|]. cbn. rewrite Hf, IH by (try set_solver; intros; apply Hf; set_solver).
  repeat case_bool_decide; set_solver.
Qed.

Lemma join_round_ok ask remote ks :
  honest ask -> (forall n, n ∈ remote -> n ∈ nodes) -> NoDup ks -> (forall k, k ∈ ks -> k ∈ nodes) ->
  exists ks', join_round ask remote (map peer ks) = map peer ks' /\ NoDup ks' /\ (forall k, k ∈ ks' -> k ∈ nodes) /\
    (forall k, k ∈ ks -> k ∈ ks') /\ (forall n, n ∈ remote -> ask n = Some (peer n) -> n ∈ ks').
Proof.
  intros Hh. revert ks. induction remote as [|n remote IH]; intros ks Hr Hnd Hks.
  { exists ks. split_and!; [done..|set_solver]. }
  assert (Hn : n ∈ nodes) by (apply Hr; set_solver). unfold join_round. cbn [fold_left].
  rewrite (existsb_peer _ n) by (intros k Hk; apply advertised; auto).
  case_bool_decide as Hin.
  - destruct (IH ks) as (ks' & E & ? & ? & Hsub & Hans); [set_solver|done..|]. exists ks'. split_and!; try done.
    intros m [->|Hm]%elem_of_cons Ha; [auto|auto].
  - destruct (Hh n Hn) as [Ha|Ha]; rewrite Ha.
    + destruct (IH ks) as (ks' & E & ? & ? & Hsub & Hans); [set_solver|done..|]. exists ks'. split_and!; try done.
      intros m [->|Hm]%elem_of_cons Ha'; [by rewrite Ha in Ha'|auto].
    + rewrite (existsb_peer _ n).
      2: { intros k Hk. apply bool_decide_ext. split; [apply (cn_node_id Hcl); auto|by intros ->]. }
      rewrite bool_decide_eq_false_2 by done. change (map peer ks ++ [peer n]) with (map peer ks ++ map peer [n]).
      rewrite <- map_app. destruct (IH (ks ++ [n])) as (ks' & E & ? & ? & Hsub & Hans).
      { set_solver. } { apply NoDup_app. split_and!; [done|set_solver|apply NoDup_singleton]. } { set_solver. }
      exists ks'. split_and!; try done; [set_solver|]. intros m [->|Hm]%elem_of_cons Ha'; [set_solver|auto].
Qed.

Lemma all_found ks : NoDup ks -> (forall k, k ∈ ks -> k ∈ nodes) -> length nodes <= length ks -> ks ≡ₚ nodes.
Proof.
  intros Hnd Hsub Hlen. apply submseteq_length_Permutation; [|done]. by apply NoDup_submseteq.
Qed.

(** The loop ends at the latest with the first round in which every node answers, and
    then knows exactly the nodes of the cluster. *)
Lemma discover_ok rounds remote ks :
  Forall honest rounds -> Exists (fun ask => forall n, n ∈ nodes -> ask n = Some (peer n)) rounds ->
  (forall n, n ∈ remote -> n ∈ nodes) -> NoDup ks -> (forall k, k ∈ ks -> k ∈ nodes) ->
  (forall n, n ∈ nodes -> n ∈ remote \/ n ∈ ks) ->
  exists all, discover rounds remote (length nodes) (map peer ks) = Some all /\ all ≡ₚ map peer nodes.
Proof.
  intros Hh Hex Hr. revert ks. induction Hh as [|ask rounds Ha Hh IH]; intros ks Hnd Hks Hcov.
  { by apply Exists_nil in Hex. }
  destruct (join_round_ok ask remote ks Ha Hr Hnd Hks) as (ks' & E & Hnd' & Hks' & Hsub & Hans).
  cbn [discover]. rewrite E. case_bool_decide as Hlen.
  - exists (map peer ks'). split; [done|]. apply Permutation_map, all_found; [done..|].
    by rewrite length_map in Hlen.
  - apply IH; [|done..|].
    + apply Exists_cons in Hex as [Hall|Hex]; [|done]. exfalso. apply Hlen. rewrite length_map.
      apply submseteq_length, NoDup_submseteq; [apply Hcl|]. intros n Hn.
      destruct (Hcov n Hn) as [Hrem|Hk]; [|by apply Hsub]. apply Hans; [done|]. by apply Hall.
    + intros n Hn. destruct (Hcov n Hn) as [|Hk]; [by left|right; by apply Hsub].
Qed.

(** The first boot of one node: its own identity, then the others'. *)
Definition first_boot (rounds : list (string -> option NodeIdentity)) (me : string) : option (list NodeIdentity) :=
  let advertise := ni_advertise (peer me) in
  discover rounds (List.filter (fun n => negb (same_endpoint n advertise)) nodes) (length nodes) [peer me].

Lemma first_boot_ok rounds me :
  me ∈ nodes -> Forall honest rounds ->
  Exists (fun ask => forall n, n ∈ nodes -> ask n = Some (peer n)) rounds ->
  exists all, first_boot rounds me = Some all /\ all ≡ₚ map peer nodes.
Proof.
  intros Hme Hh Hex. unfold first_boot. change [peer me] with (map peer [me]).
  assert (Hf : forall n, n ∈ List.filter (fun n => negb (same_endpoint n (ni_advertise (peer me)))) nodes <->
    n ∈ nodes /\ n <> me).
  { intros n. rewrite list_elem_of_In, filter_In, <- list_elem_of_In, negb_true_iff.
    split; intros [Hn Hx]; (split; [done|]).
    - intros ->. pose proof (advertised me me Hme Hme) as Ha. rewrite bool_decide_eq_true_2 in Ha by done.
      unfold same_endpoint in *. apply bool_decide_eq_true in Ha. apply bool_decide_eq_false in Hx. by rewrite Ha in Hx.
    - pose proof (advertised me n Hme Hn) as Ha. rewrite bool_decide_eq_false_2 in Ha by done.
      unfold same_endpoint in *. apply bool_decide_eq_false in Ha. by apply bool_decide_eq_false_2. }
  apply discover_ok; [done..| | | |].
  - intros n Hn%Hf. by destruct Hn.
  - apply NoDup_singleton.
  - set_solver.
  - intros n Hn. destruct (decide (n = me)) as [->|Hne]; [right; set_solver|left]. by apply Hf.
Qed.

End Discovery.

Lemma merge_sort_perm l k : l ≡ₚ k -> merge_sort str_le l = merge_sort str_le k.
Proof.
  intros Hp. apply (Sorted_unique str_le); [apply Sorted_merge_sort, _..|].
  by rewrite !merge_sort_Permutation.
Qed.

(** The cluster id and the member list depend on the set of nodes only. *)
Lemma joined_perm `{Hashes} n1 a1 d1 n2 a2 d2 all1 all2 :
  all1 ≡ₚ all2 -> NoDup (map ni_node_id all1) ->
  ri_cluster_id (joined n1 a1 d1 all1) = ri_cluster_id (joined n2 a2 d2 all2) /\
  ri_all_members (joined n1 a1 d1 all1) = ri_all_members (joined n2 a2 d2 all2).
Proof.
  intros Hp Hnd. cbn. split.
  - by rewrite (merge_sort_perm _ _ (Permutation_map ni_node_id Hp)).
  - unfold build_members. by rewrite (sort_by_key_unique ni_node_id all1 all2).
Qed.

(** What the exchange would give if the nodes did answer: those that boot together agree.
    Let the nodes of a cluster have distinct endpoints, which they advertise, and distinct
    ids, and let them answer join requests with their own identity or not at all.  If in some round of its loop a node hears
    from all the others, its discovery ends, whatever happened in the rounds before, and
    any two nodes arrive at the same cluster id and the same numbered member list. *)
Theorem first_boot_agreement `{Hashes} peer nodes rounds1 rounds2 me1 me2 :
  cluster_nodes peer nodes -> me1 ∈ nodes -> me2 ∈ nodes ->
  Forall (honest peer nodes) rounds1 -> Forall (honest peer nodes) rounds2 ->
  Exists (fun ask => forall n, n ∈ nodes -> ask n = Some (peer n)) rounds1 ->
  Exists (fun ask => forall n, n ∈ nodes -> ask n = Some (peer n)) rounds2 ->
  exists all1 all2, first_boot peer nodes rounds1 me1 = Some all1 /\ first_boot peer nodes rounds2 me2 = Some all2 /\
    forall disks1 disks2,
      let id1 := joined (ni_node_id (peer me1)) (ni_advertise (peer me1)) disks1 all1 in
      let id2 := joined (ni_node_id (peer me2)) (ni_advertise (peer me2)) disks2 all2 in
      ri_cluster_id id1 = ri_cluster_id id2 /\ ri_all_members id1 = ri_all_members id2.
Proof.
  intros Hcl H1 H2 Hh1 Hh2 He1 He2.
  destruct (first_boot_ok peer nodes Hcl rounds1 me1 H1 Hh1 He1) as (all1 & E1 & P1).
  destruct (first_boot_ok peer nodes Hcl rounds2 me2 H2 Hh2 He2) as (all2 & E2 & P2).
  exists all1, all2. split_and!; [done..|]. intros d1 d2. apply joined_perm; [by rewrite P1, P2|].
  rewrite (Permutation_map ni_node_id P1), map_map. apply NoDup_alt. intros i j x Hi Hj.
  change (map ?f ?l) with (f <$> l) in Hi, Hj. apply list_lookup_fmap_Some in Hi as (n & -> & Hi).
  apply list_lookup_fmap_Some in Hj as (m & E & Hj).
  apply (cn_node_id _ _ Hcl) in E; [|by eapply list_elem_of_lookup_2..]. subst m.
  by eapply NoDup_lookup; [apply Hcl| |].
Qed.

(** A node whose join requests are not answered waits for ever on its first boot in a cluster. *)
Theorem unanswered_boot_waits `{Hashes} `{!Json VolumeFormat} iter uuid now hostname rounds disk_paths listen nodes fs fs' f formats :
  load_or_format uuid now disk_paths fs = (fs', Ok (f :: formats)) -> vf_cluster_id f = None -> 2 <= length nodes ->
  Forall (fun ask => forall n, ask n = None) rounds ->
  resolve_identity iter uuid now hostname rounds disk_paths listen nodes fs = (fs', None).
Proof.
  intros El Hf Hn Hr. unfold resolve_identity. rewrite El, Hf. destruct nodes as [|n nodes]; [cbn in Hn; lia|].
  assert (Hd : forall remote known, length known < length (n :: nodes) -> discover rounds remote (length (n :: nodes)) known = None).
  { induction Hr as [|ask rounds Ha _ IH]; intros remote known Hk; [done|]. cbn [discover].
    assert (E : join_round ask remote known = known).
    { unfold join_round. clear -Ha. induction remote as [|x remote IHr]; [done|]. cbn [fold_left]. by destruct (existsb _ _); [|rewrite Ha]. }
    rewrite E, bool_decide_eq_false_2 by lia. by apply IH. }
  by rewrite Hd by (cbn in *; lia).
Qed.

(** ** Booting again *)

Section Reboot.
  Context `{Hashes} `{!Json VolumeFormat} `{!JsonOk VolumeFormat}.

Lemma local_identity_finalized cid members formats n a disks :
  local_identity (map (finalized cid members) formats) n a disks = local_identity formats n a disks.
Proof.
  unfold local_identity. f_equal. revert disks. induction formats as [|f formats IH]; intros [|d disks]; cbn; try done.
  by rewrite IH.
Qed.

Lemma standalone_finalized cid members formats n a disks :
  standalone n a disks (map (finalized cid members) formats) = standalone n a disks formats.
Proof. unfold standalone. by rewrite local_identity_finalized. Qed.

(** What is written and re-read when a node boots alone on volumes that carry [formats]. *)
Lemma standalone_boot iter uuid now hostname rounds disks listen fs0 fs f formats :
  fs_wf fs -> Forall (formattable fs) disks -> NoDup (map components disks) ->
  load_or_format uuid now disks fs0 = (fs, Ok (f :: formats)) -> consistent (f :: formats) ->
  length (f :: formats) = length disks ->
  let id := standalone (vf_node_id f) (derive_advertise hostname listen) disks (f :: formats) in
  exists fs', resolve_identity iter uuid now hostname rounds disks listen [] fs0 = (fs', Some (Ok id)) /\
    fs_wf fs' /\ Forall (formattable fs') disks /\
    load_volumes fs' disks = Ok (Some (map (finalized (ri_cluster_id id) (ri_all_members id)) (f :: formats))).
Proof.
  intros Hwf Hf Hnd Hl Hcon Hlen id. set (fin := map (finalized (ri_cluster_id id) (ri_all_members id)) (f :: formats)).
  destruct (write_formats_ok fs disks fin) as (fs' & E & Hwf' & Hform & Hr & _); [done..|by unfold fin; rewrite length_map|].
  exists fs'. split_and!; [| done | rewrite Forall_forall in Hf |- *; auto |].
  - unfold resolve_identity. rewrite Hl. unfold finish, finalize_volumes. fold id. fold fin. by rewrite E.
  - apply load_written; [done|by apply finalized_consistent|done].
Qed.

Lemma load_blank fs disks :
  fs_wf fs -> Forall (fun r => fs_files fs !! volume_path r = None /\ formattable fs r) disks ->
  load_volumes fs disks = Ok None.
Proof.
  intros Hwf Hb. unfold load_volumes.
  assert (Hr : read_formats fs disks = Ok (map (fun _ => None) disks)).
  { induction Hb as [|r rs [Hn Hd] _ IH]; [done|]. cbn. unfold read_volume_format, fs_read.
    rewrite Hn, formattable_not_found by done. cbn. by rewrite IH. }
  rewrite Hr. cbn. assert (Ho : omap id (map (fun _ : string => @None VolumeFormat) disks) = []).
  { clear. induction disks; cbn; auto. }
  by rewrite Ho.
Qed.

(** C37: The identity of a node survives a restart.  On fresh volumes, with distinct
    identifiers drawn, a node that boots alone formats and finalizes its volumes; every
    later boot from the same volumes, at any time and whatever identifiers it could draw,
    answers the same node id, cluster id, members and volumes. *)
Theorem reboot_keeps_identity iter uuid now hostname rounds disks listen fs :
  fs_wf fs -> Forall (formattable fs) disks -> NoDup (map components disks) -> disks <> [] -> Inj eq eq uuid ->
  Forall (fun r => fs_files fs !! volume_path r = None) disks ->
  exists fs1 id, resolve_identity iter uuid now hostname rounds disks listen [] fs = (fs1, Some (Ok id)) /\
    ri_node_id id = uuid 0 /\
    forall iter' uuid' now' rounds', exists fs2,
      resolve_identity iter' uuid' now' hostname rounds' disks listen [] fs1 = (fs2, Some (Ok id)).
Proof.
  intros Hwf Hf Hnd Hne Hinj Hblank. set (formats := fresh_formats uuid now (length disks)).
  assert (Hlen : length formats = length disks) by (unfold formats, fresh_formats; lens).
  destruct (write_formats_ok fs disks formats Hwf Hf Hnd Hlen) as (fs1 & E1 & Hwf1 & Hform & _ & _).
  assert (Hl : load_or_format uuid now disks fs = (fs1, Ok formats)).
  { unfold load_or_format. rewrite load_blank; [unfold format_volumes; fold formats; by rewrite E1|done|].
    apply Forall_forall. intros r Hr. rewrite Forall_forall in Hf, Hblank. auto. }
  pose proof (fresh_consistent uuid now (length disks) Hinj) as Hcon. fold formats in Hcon.
  assert (Hnode : Forall (fun f => vf_node_id f = uuid 0) formats) by by apply Forall_fmap, Forall_true.
  destruct formats as [|f formats']; [by destruct disks|]. apply Forall_cons in Hnode as [Hnode _].
  assert (Hf1 : Forall (formattable fs1) disks) by (rewrite Forall_forall in Hf |- *; auto).
  destruct (standalone_boot iter uuid now hostname rounds disks listen fs fs1 f formats') as (fs2 & Eb & Hwf2 & Hf2 & Hload);
    [done..|].
  exists fs2. eexists. split_and!; [exact Eb|exact Hnode|]. intros iter' uuid' now' rounds'.
  set (id := standalone _ _ _ _) in *. cbn [map] in Hload.
  destruct (standalone_boot iter' uuid' now' hostname rounds' disks listen fs2 fs2
              (finalized (ri_cluster_id id) (ri_all_members id) f)
              (map (finalized (ri_cluster_id id) (ri_all_members id)) formats')) as (fs3 & Eb' & _).
  { done. } { done. } { done. } { unfold load_or_format. by rewrite Hload. }
  { by apply (finalized_consistent _ _ (f :: formats')). } { cbn in Hlen |- *. by rewrite length_map. }
  exists fs3. rewrite Eb'. do 3 f_equal. apply (standalone_finalized _ _ (f :: formats')).
Qed.

End Reboot.

(** ** Examples *)

Definition demo_topology : StaticTopology := mkStaticTopology "c1" 1
  [mkTopologyNode "n1" "http://a" "http://a" [mkTopologyVolume "v1" "/d1"; mkTopologyVolume "v2" "/d2"];
   mkTopologyNode "n2" "http://b" "http://b" [mkTopologyVolume "v3" "/d3"]].

Lemma topology_placement_distinct_witness :
  exists r, validate demo_topology = Ok tt /\
  @plan example_hashes (mkPlacementPlanner 1 "c1" (placement_volumes demo_topology)) "b" "k" 2 1 = Ok r /\
  NoDup (map ps_volume_id (pr_shards r)).
Proof.
  destruct (@plan example_hashes (mkPlacementPlanner 1 "c1" (placement_volumes demo_topology)) "b" "k" 2 1) as [r|] eqn:E;
    [|exfalso; revert E; vm_compute; discriminate].
  assert (Hv : validate demo_topology = Ok tt) by (vm_compute; reflexivity).
  exists r. split_and!; [exact Hv|done|].
  exact (proj1 (@topology_placement_distinct example_hashes demo_topology "b" "k" 2 1 r Hv E)).
Defined.

Definition demo_peer (n : string) : NodeIdentity :=
  mkNodeIdentity ("id-" +:+ n) (n +:+ "/") [mkVolumeEntry ("vol-" +:+ n) 0 "/d"].
Definition demo_nodes : list string := ["http://b"; "http://a"].

Lemma demo_cluster_nodes : cluster_nodes demo_peer demo_nodes.
Proof.
  assert (Hel : forall n, n ∈ demo_nodes -> n = "http://b" \/ n = "http://a") by (unfold demo_nodes; set_solver).
  split; [by_decide|..].
  - intros n m [-> | ->]%Hel [-> | ->]%Hel; vm_compute; done.
  - intros n [-> | ->]%Hel; vm_compute; reflexivity.
  - intros n m [-> | ->]%Hel [-> | ->]%Hel; vm_compute; done.
Qed.

Lemma first_boot_agreement_witness :
  exists all1 all2, first_boot demo_peer demo_nodes [fun _ => None; fun n => Some (demo_peer n)] "http://a" = Some all1 /\
    first_boot demo_peer demo_nodes [fun n => Some (demo_peer n)] "http://b" = Some all2 /\
    length all1 = 2 /\ all1 <> all2 /\
    build_members all1 = build_members all2.
Proof.
  destruct (@first_boot_agreement example_hashes demo_peer demo_nodes [fun _ => None; fun n => Some (demo_peer n)]
    [fun n => Some (demo_peer n)] "http://a" "http://b") as (all1 & all2 & E1 & E2 & Hag).
  - exact demo_cluster_nodes.
  - by_decide.
  - by_decide.
  - constructor; [intros n _; by left|]. constructor; [intros n _; by right|constructor].
  - constructor; [intros n _; by right|constructor].
  - apply Exists_cons_tl, Exists_cons_hd. done.
  - apply Exists_cons_hd. done.
  - exists all1, all2. split_and!; [done|done| | |exact (proj2 (Hag [] []))].
    + revert E1. vm_compute. by intros [= <-].
    + revert E1 E2. vm_compute. by intros [= <-] [= <-].
Defined.

Definition boot_fs : FS := mkFS ∅ {[ [RootDir]; components "/d1"; components "/d2" ]}.

Lemma boot_fs_wf : fs_wf boot_fs.
Proof.
  split; cbn.
  - intros p [x Hx]. by rewrite lookup_empty in Hx.
  - intros p. rewrite !elem_of_union, !elem_of_singleton. intros [[->| ->]| ->]; [left; cbn; lia|right..]; vm_compute; set_solver.
  - done.
Qed.

Definition count_uuid (i : nat) : string := pretty (N.of_nat i).

Lemma reboot_keeps_identity_witness :
  let boot := @resolve_identity example_hashes (countable_json VolumeFormat) map_to_list in
  exists fs1 id, boot count_uuid 5%N None [] ["/d1"; "/d2"] ":10000" [] boot_fs = (fs1, Some (Ok id)) /\
    ri_node_id id = "0" /\
    exists fs2, boot (fun i => count_uuid (i + 7)) 9%N None [] ["/d1"; "/d2"] ":10000" [] fs1 = (fs2, Some (Ok id)).
Proof.
  destruct (@reboot_keeps_identity example_hashes (countable_json VolumeFormat) (countable_json_ok VolumeFormat)
    map_to_list count_uuid 5 None [] ["/d1"; "/d2"] ":10000" boot_fs) as (fs1 & id & E & Hid & Hre).
  - exact boot_fs_wf.
  - repeat constructor; by_decide.
  - by_decide.
  - done.
  - intros i j. unfold count_uuid. intros ?%(inj pretty). by apply Nat2N.inj.
  - repeat constructor; vm_compute; reflexivity.
  - exists fs1, id. split_and!; [exact E|exact Hid|]. apply Hre.
Defined.

(** After a restart of a cluster the volumes of every other node are looked for at one
    and the same endpoint, the first that is not the node's own. *)
Theorem rejoin_sends_all_to_one_node :
  let members := [mkSetMember "va" "a" 0; mkSetMember "vb" "b" 1; mkSetMember "vc" "c" 2] in
  Forall (fun nv => nv_node_id nv = "a" \/ nv_endpoint nv = "http://b")
    (build_node_volumes_from_members map_to_list "a" "http://a" ["/d1"] members ["http://a"; "http://b"; "http://c"]) /\
  map nv_node_id (build_node_volumes_from_members map_to_list "a" "http://a" ["/d1"] members
    ["http://a"; "http://b"; "http://c"]) ≡ₚ ["a"; "b"; "c"].
Proof.
  split; by_decide.
Qed.
