(* ===== verification/ClusterManager.v ===== *)
(** Cluster membership ([src/cluster/mod.rs]): whether a node may serve data, from the
    peers that answer its probes, and the state it keeps on its volumes.

    A manager is its configuration, the state behind the lock and the file system of its
    volumes.  The answer of an endpoint to a status probe (request, token check and JSON
    included) is the argument [ask]; the clock is read once per operation; a poisoned
    lock is not modelled. *)

From Stdlib Require Import Ascii.
From stdpp Require Import base list gmap strings numbers sorting pretty.
From S2P Require Import Prelude Metadata Pathing Wal Materialize Placement FileSys VolumeFormat Topology.

Open Scope string_scope.
Open Scope list_scope.

Record ClusterConfig : Type := mkClusterConfig {
  cc_node_id : string;
  cc_advertise_s3 : string;
  cc_advertise_cluster : string;
  cc_nodes : list string;
  cc_access_key : string;
  cc_secret_key : string;
  cc_no_auth : bool;
  cc_disk_paths : list string;
}.

Inductive ServiceState : Type := Joining | SyncingEpoch | Fenced | Ready.

Record ClusterSummary : Type := mkClusterSummary {
  cs_enabled : bool;
  cs_cluster_id : string;
  cs_node_id : string;
  cs_topology_hash : option string;
  cs_state : ServiceState;
  cs_epoch_id : N;
  cs_leader_id : string;
  cs_node_count : nat;
  cs_voter_count : nat;
  cs_reachable_voters : nat;
  cs_quorum : nat;
  cs_fenced_reason : option string;
}.

Record ClusterNodeStatus : Type := mkClusterNodeStatus {
  ns_node_id : string;
  ns_advertise_s3 : string;
  ns_advertise_cluster : string;
  ns_state : ServiceState;
  ns_voter : bool;
  ns_reachable : bool;
  ns_total_disks : nat;
  ns_last_heartbeat : N;
}.

Record ClusterVolumeStatus : Type := mkClusterVolumeStatus {
  vs_volume_id : string;
  vs_node_id : string;
  vs_path : string;
}.

Record ClusterEpoch : Type := mkClusterEpoch {
  ce_epoch_id : N;
  ce_leader_id : string;
  ce_committed_at : N;
  ce_voter_count : nat;
  ce_reachable_voters : nat;
}.

Record ClusterTopology : Type := mkClusterTopology {
  ct_cluster_id : string;
  ct_epoch : ClusterEpoch;
  ct_nodes : list ClusterNodeStatus;
  ct_volumes : list ClusterVolumeStatus;
}.

Record PersistedClusterState : Type := mkPersisted {
  ps_summary : ClusterSummary;
  ps_topology : ClusterTopology;
  ps_epochs : list ClusterEpoch;
}.

Record ClusterManager : Type := mkManager {
  cm_config : ClusterConfig;
  cm_state : PersistedClusterState;
  cm_fs : FS;
}.

Global Instance ServiceState_eq_dec : EqDecision ServiceState.
Proof. solve_decision. Defined.

(** ** Statuses a topology file gives *)

Definition volume_statuses (t : StaticTopology) : list ClusterVolumeStatus :=
  map (fun '(n, v) => mkClusterVolumeStatus (tv_volume_id v) (tn_node_id n) (tv_path v)) (all_volumes t).

Definition node_statuses (t : StaticTopology) (local_state : ServiceState) (local_node_id : string)
    : list ClusterNodeStatus :=
  map (fun n =>
    let local := bool_decide (tn_node_id n = local_node_id) in
    mkClusterNodeStatus (tn_node_id n) (tn_advertise_s3 n) (tn_advertise_cluster n)
      (if local then local_state else Joining) true local (length (tn_volumes n)) 0) (st_nodes t).

(** ** Normalization and identifiers *)

Definition normalize_id (value : string) : string :=
  let trimmed := trim value in if bool_decide (trimmed = "") then "local" else trimmed.

Definition normalize_endpoint (endpoint : string) : string :=
  let trimmed := trim_end_slashes (trim endpoint) in
  if starts_with "http://" trimmed || starts_with "https://" trimmed then trimmed
  else if bool_decide (trimmed = "") then trimmed
  else "http://" +:+ trimmed.

Fixpoint dedup_endpoints (seen : gset string) (nodes : list string) : list string :=
  match nodes with
  | [] => []
  | n :: rest =>
      let value := normalize_endpoint n in
      if bool_decide (value ∈ seen) then dedup_endpoints seen rest
      else value :: dedup_endpoints ({[value]} ∪ seen) rest
  end.

Definition normalize_nodes (nodes : list string) : list string := dedup_endpoints ∅ nodes.

Definition normalize_config (c : ClusterConfig) : ClusterConfig := {|
  cc_node_id := normalize_id (cc_node_id c);
  cc_advertise_s3 := normalize_endpoint (cc_advertise_s3 c);
  cc_advertise_cluster := normalize_endpoint (cc_advertise_cluster c);
  cc_nodes := normalize_nodes (cc_nodes c);
  cc_access_key := cc_access_key c; cc_secret_key := cc_secret_key c; cc_no_auth := cc_no_auth c;
  cc_disk_paths := cc_disk_paths c |}.

(** The smallest id of the set: a [BTreeSet] iterates in order. *)
Definition elect_leader (local_node_id : string) (peers : list (string * ClusterSummary)) : string :=
  default local_node_id (head (merge_sort str_le (elements (list_to_set (C := gset string)
    (local_node_id :: map (fun p => cs_node_id p.2) peers))))).

(** The first node with the given id is changed. *)
Fixpoint update_node (id : string) (f : ClusterNodeStatus -> ClusterNodeStatus) (ns : list ClusterNodeStatus)
    : list ClusterNodeStatus :=
  match ns with
  | [] => []
  | n :: rest => if bool_decide (ns_node_id n = id) then f n :: rest else n :: update_node id f rest
  end.

Definition set_node_state (s : ServiceState) (n : ClusterNodeStatus) : ClusterNodeStatus :=
  mkClusterNodeStatus (ns_node_id n) (ns_advertise_s3 n) (ns_advertise_cluster n) s (ns_voter n) (ns_reachable n)
    (ns_total_disks n) (ns_last_heartbeat n).
Definition touch_node (s : ServiceState) (now : N) (n : ClusterNodeStatus) : ClusterNodeStatus :=
  mkClusterNodeStatus (ns_node_id n) (ns_advertise_s3 n) (ns_advertise_cluster n) s (ns_voter n) true
    (ns_total_disks n) now.

(** [epochs[0] = epoch], or the first entry. *)
Definition set_first_epoch (e : ClusterEpoch) (es : list ClusterEpoch) : list ClusterEpoch :=
  match es with [] => [e] | _ :: rest => e :: rest end.

Definition quorum_of (voters : nat) : nat := voters / 2 + 1.

Definition quorum_lost (reachable quorum : nat) : string :=
  "cluster quorum lost: reachable_voters=" +:+ pretty (N.of_nat reachable) +:+ " quorum=" +:+ pretty (N.of_nat quorum).

Definition cluster_enabled (m : ClusterManager) : bool := negb (bool_decide (cc_nodes (cm_config m) = [])).
Definition summary (m : ClusterManager) : ClusterSummary := ps_summary (cm_state m).
Definition blocks_data_plane (m : ClusterManager) : bool := negb (bool_decide (cs_state (summary m) = Ready)).
Definition allows_mutation (m : ClusterManager) : bool := bool_decide (cs_state (summary m) = Ready).
Definition current_epoch_id (m : ClusterManager) : N := 1.
Definition local_node_id (m : ClusterManager) : string := cc_node_id (cm_config m).
Definition manager_topology_hash (m : ClusterManager) : option string := cs_topology_hash (summary m).
Definition status_response (m : ClusterManager) : ClusterSummary * ClusterTopology :=
  (ps_summary (cm_state m), ps_topology (cm_state m)).
Definition nodes (m : ClusterManager) : list ClusterNodeStatus := ct_nodes (ps_topology (cm_state m)).
Definition topology (m : ClusterManager) : ClusterTopology := ps_topology (cm_state m).
Definition epochs (m : ClusterManager) : list ClusterEpoch := ps_epochs (cm_state m).
Definition set_state (s : PersistedClusterState) (m : ClusterManager) : ClusterManager :=
  mkManager (cm_config m) s (cm_fs m).

Inductive ManagerError : Type := LoadFailed (path : string) | PersistFailed (path : string).

Definition state_file (disk : string) : Path := push (components disk) ".abixio.sys/cluster.json".
Arguments state_file : simpl never.

(** [build_nodes]. *)
Definition build_nodes (c : ClusterConfig) (local_state : ServiceState)
    (probed : list (string * ClusterSummary)) (now : N) : list ClusterNodeStatus :=
  mkClusterNodeStatus (cc_node_id c) (cc_advertise_s3 c) (cc_advertise_cluster c) local_state true true
    (length (cc_disk_paths c)) now
  :: omap (fun remote =>
       if same_endpoint remote (cc_advertise_s3 c) || same_endpoint remote (cc_advertise_cluster c) then None
       else
         let status := snd <$> List.find (fun p => bool_decide (p.1 = remote)) probed in
         Some (mkClusterNodeStatus (default remote (cs_node_id <$> status)) (default "" (cs_node_id <$> status))
                 remote (default Joining (cs_state <$> status)) true (bool_decide (is_Some status)) 0 now))
     (cc_nodes c).

Section Manager.
  Context `{Hashes} `{!Json PersistedClusterState}.

(** [cluster_id_for] of this file: the hash of the node's own id and the node list. *)
Definition manager_cluster_id (node_id : string) (nodes : list string) : string :=
  short_hash "abixio-" (bytes_of node_id ++ flat_map bytes_of nodes).

Definition volume_id_for (node_id path : string) : string :=
  short_hash "vol-" (bytes_of node_id ++ bytes_of path).

Definition local_volumes (c : ClusterConfig) : list ClusterVolumeStatus :=
  map (fun path => mkClusterVolumeStatus (volume_id_for (cc_node_id c) path) (cc_node_id c) path) (cc_disk_paths c).

Definition initial_state (c : ClusterConfig) (cluster_id : string) (now : N) : PersistedClusterState :=
  let n := length (cc_nodes c) in
  let state := if bool_decide (cc_nodes c = []) then Ready else SyncingEpoch in
  let epoch := mkClusterEpoch 1 (cc_node_id c) now n 1 in
  mkPersisted
    (mkClusterSummary (negb (bool_decide (cc_nodes c = []))) cluster_id (cc_node_id c) None state 1 (cc_node_id c)
       n n 1 (quorum_of n) None)
    (mkClusterTopology cluster_id epoch
       [mkClusterNodeStatus (cc_node_id c) (cc_advertise_s3 c) (cc_advertise_cluster c) state true true
          (length (cc_disk_paths c)) now] (local_volumes c))
    [epoch].

(** [load_persisted_state]: the first volume that has the file decides. *)
Fixpoint load_persisted_state (fs : FS) (disks : list string) : result ManagerError (option PersistedClusterState) :=
  match disks with
  | [] => Ok None
  | d :: rest =>
      match fs_read fs (state_file d) with
      | Some bytes => s ← ok_or (from_json bytes) (LoadFailed d); Ok (Some s)
      | None => if fs_is_dir fs (state_file d) then Err (LoadFailed d) else load_persisted_state fs rest
      end
  end.

Fixpoint write_state (bytes : bytes) (disks : list string) (fs : FS) : FS * result ManagerError unit :=
  match disks with
  | [] => (fs, Ok tt)
  | d :: rest =>
      let r := mkdir_all (parent (state_file d)) fs in
      match r.2 with
      | Err _ => (r.1, Err (PersistFailed d))
      | Ok _ =>
          let w := fs_put (state_file d) bytes r.1 in
          match w.2 with
          | Err _ => (w.1, Err (PersistFailed d))
          | Ok _ => write_state bytes rest w.1
          end
      end
  end.

Definition persist_state (m : ClusterManager) : ClusterManager * result ManagerError unit :=
  match to_json (cm_state m) with
  | None => (m, Err (PersistFailed ""))
  | Some bytes =>
      let w := write_state bytes (cc_disk_paths (cm_config m)) (cm_fs m) in
      (mkManager (cm_config m) (cm_state m) w.1, w.2)
  end.

(** [let _ = self.persist_state()] after a change. *)
Definition save (s : PersistedClusterState) (m : ClusterManager) : ClusterManager :=
  (persist_state (set_state s m)).1.

Definition force_fence (reason : string) (m : ClusterManager) : ClusterManager :=
  let s := cm_state m in let u := ps_summary s in let t := ps_topology s in
  save (mkPersisted
    (mkClusterSummary (cs_enabled u) (cs_cluster_id u) (cs_node_id u) (cs_topology_hash u) Fenced (cs_epoch_id u)
       (cs_leader_id u) (cs_node_count u) (cs_voter_count u) (cs_reachable_voters u) (cs_quorum u) (Some reason))
    (mkClusterTopology (ct_cluster_id t) (ct_epoch t)
       (update_node (cc_node_id (cm_config m)) (set_node_state Fenced) (ct_nodes t)) (ct_volumes t))
    (ps_epochs s)) m.

Definition install_topology (epoch_id : N) (leader_id : string) (ns : list ClusterNodeStatus)
    (volumes : list ClusterVolumeStatus) (now : N) (m : ClusterManager) : ClusterManager :=
  let s := cm_state m in let u := ps_summary s in
  let voter_count := Nat.max (length (List.filter ns_voter ns)) 1 in
  let reachable := Nat.max (length (List.filter (fun n => ns_voter n && ns_reachable n) ns)) 1 in
  let quorum := quorum_of voter_count in
  let met := bool_decide (quorum <= reachable) in
  let epoch := mkClusterEpoch epoch_id leader_id now voter_count reachable in
  save (mkPersisted
    (mkClusterSummary (cs_enabled u) (cs_cluster_id u) (cs_node_id u) (cs_topology_hash u)
       (if met then Ready else Fenced) epoch_id leader_id (length ns - 1) voter_count reachable quorum
       (if met then None else Some (quorum_lost reachable quorum)))
    (mkClusterTopology (cs_cluster_id u) epoch ns volumes)
    (set_first_epoch epoch (ps_epochs s))) m.

Definition mark_ready (epoch_id : N) (leader_id : string) (reachable : nat)
    (peers : option (list (string * ClusterSummary))) (now : N) (m : ClusterManager) : ClusterManager :=
  let c := cm_config m in let s := cm_state m in let u := ps_summary s in let t := ps_topology s in
  let voter_count := length (cc_nodes c) in
  let epoch := mkClusterEpoch epoch_id leader_id now voter_count reachable in
  save (mkPersisted
    (mkClusterSummary (cs_enabled u) (cs_cluster_id u) (cs_node_id u) (cs_topology_hash u) Ready epoch_id leader_id
       (cs_node_count u) voter_count reachable (quorum_of voter_count) None)
    (mkClusterTopology (ct_cluster_id t) epoch
       (update_node (cc_node_id c) (touch_node Ready now) (build_nodes c Ready (default [] peers) now)) (ct_volumes t))
    (set_first_epoch epoch (ps_epochs s))) m.

Definition mark_fenced (epoch_id : N) (leader_id : string) (reachable : nat) (reason : option string) (now : N)
    (m : ClusterManager) : ClusterManager :=
  let c := cm_config m in let s := cm_state m in let u := ps_summary s in let t := ps_topology s in
  let voter_count := length (cc_nodes c) in
  save (mkPersisted
    (mkClusterSummary (cs_enabled u) (cs_cluster_id u) (cs_node_id u) (cs_topology_hash u) Fenced epoch_id leader_id
       (cs_node_count u) voter_count reachable (quorum_of voter_count) reason)
    (mkClusterTopology (ct_cluster_id t) (ct_epoch t)
       (update_node (cc_node_id c) (touch_node Fenced now) (build_nodes c Fenced [] now)) (ct_volumes t))
    (ps_epochs s)) m.

Definition fetch_peer_summaries (ask : string -> option ClusterSummary) (m : ClusterManager)
    : list (string * ClusterSummary) :=
  omap (fun peer =>
    u ← ask peer;
    if bool_decide (cs_cluster_id u = cs_cluster_id (summary m)) then Some (peer, u) else None) (cc_nodes (cm_config m)).

Definition refresh_from_nodes (ask : string -> option ClusterSummary) (now : N) (m : ClusterManager) : ClusterManager :=
  let peers := fetch_peer_summaries ask m in
  let reachable := 1 + length peers in
  let quorum := quorum_of (length (cc_nodes (cm_config m))) in
  let leader := elect_leader (cc_node_id (cm_config m)) peers in
  if bool_decide (reachable < quorum)
  then mark_fenced (current_epoch_id m) leader reachable (Some (quorum_lost reachable quorum)) now m
  else mark_ready (current_epoch_id m) leader reachable (Some peers) now m.

Definition refresh_local_identity (m : ClusterManager) : ClusterManager :=
  let c := cm_config m in let s := cm_state m in let u := ps_summary s in let t := ps_topology s in
  let cid := manager_cluster_id (cc_node_id c) (cc_nodes c) in
  set_state (mkPersisted
    (mkClusterSummary (cs_enabled u) cid (cc_node_id c) None (cs_state u) (cs_epoch_id u) (cs_leader_id u)
       (length (cc_nodes c)) (cs_voter_count u) (cs_reachable_voters u) (cs_quorum u) (cs_fenced_reason u))
    (mkClusterTopology cid (ct_epoch t) (ct_nodes t) (local_volumes c))
    (ps_epochs s)) m.

Definition manager_new (config : ClusterConfig) (now : N) (fs : FS) : FS * result ManagerError ClusterManager :=
  let c := normalize_config config in
  let cid := manager_cluster_id (cc_node_id c) (cc_nodes c) in
  match load_persisted_state fs (cc_disk_paths c) with
  | Err e => (fs, Err e)
  | Ok loaded =>
      let s := match loaded with
               | Some s => if bool_decide (cs_cluster_id (ps_summary s) = cid) then s else initial_state c cid now
               | None => initial_state c cid now
               end in
      let m := refresh_local_identity (mkManager c s fs) in
      if negb (cluster_enabled m)
      then let m := mark_ready (current_epoch_id m) (cc_node_id c) 1 None now m in (cm_fs m, Ok m)
      else let r := persist_state m in (cm_fs r.1, _ ← r.2; Ok r.1)
  end.

End Manager.

(** ** A node over its life: down, or up with a manager *)

Inductive Node : Type := Down (fs : FS) | Up (m : ClusterManager).

Definition node_fs (n : Node) : FS := match n with Down fs => fs | Up m => cm_fs m end.

Section Life.
  Context `{Hashes} `{!Json PersistedClusterState}.

Inductive node_step : Node -> Node -> Prop :=
| node_start n config now fs' m : manager_new config now (node_fs n) = (fs', Ok m) -> node_step n (Up m)
| node_start_fails n config now fs' e : manager_new config now (node_fs n) = (fs', Err e) -> node_step n (Down fs')
| node_stop m : node_step (Up m) (Down (cm_fs m))
| node_refresh ask now m : node_step (Up m) (Up (refresh_from_nodes ask now m))
| node_fence reason m : node_step (Up m) (Up (force_fence reason m))
| node_install epoch leader ns vs now m : node_step (Up m) (Up (install_topology epoch leader ns vs now m)).

(** What the summary of a node says of its voters. *)
Record summary_ok (u : ClusterSummary) : Prop := {
  so_quorum : cs_quorum u = quorum_of (cs_voter_count u);
  so_ready : cs_state u = Ready -> cs_quorum u <= cs_reachable_voters u;
  so_reason : cs_state u = Fenced <-> is_Some (cs_fenced_reason u);
}.

Definition files_ok (fs : FS) : Prop := forall d bytes s,
  fs_files fs !! state_file d = Some bytes -> from_json bytes = Some s -> summary_ok (ps_summary s).

Definition node_ok (n : Node) : Prop :=
  files_ok (node_fs n) /\ match n with Up m => summary_ok (summary m) | Down _ => True end.

Lemma write_state_files bytes disks fs p :
  let fs' := (write_state bytes disks fs).1 in
  fs_files fs' !! p = fs_files fs !! p \/ fs_files fs' !! p = Some bytes.
Proof.
  revert fs. induction disks as [|d disks IH]; intros fs; cbn [write_state]; [by left|].
  destruct (mkdir_all (parent (state_file d)) fs) as [fs1 r1] eqn:E1. cbn [fst snd].
  pose proof (mkdir_all_inv _ _ _ _ E1) as (Hf & _). destruct r1; [|left; cbn; by rewrite Hf].
  destruct (fs_put (state_file d) bytes fs1) as [fs2 r2] eqn:E2. cbn [fst snd].
  pose proof (fs_put_inv _ _ _ _ _ E2) as (_ & Hother & Hput).
  assert (Hstep : fs_files fs2 !! p = fs_files fs !! p \/ fs_files fs2 !! p = Some bytes).
  { destruct (decide (p = state_file d)) as [->|Hne]; [|left; by rewrite Hother, Hf].
    destruct r2 as [[]|]; [right; by apply Hput|left].
    rewrite <- Hf. revert E2. unfold fs_put. destruct (fs_is_dir fs1 _); [by intros [= <-]|].
    destruct (fs_is_dir fs1 _); [done|by intros [= <-]]. }
  destruct r2; [|done]. destruct (IH fs2) as [E|E]; cbn in E |- *; rewrite E; [done|by right].
Qed.

(** The endpoints whose answer counts: a status of the same cluster id. *)
Definition counted (ask : string -> option ClusterSummary) (m : ClusterManager) : list string :=
  List.filter (fun p => match ask p with
                        | Some u => bool_decide (cs_cluster_id u = cs_cluster_id (summary m))
                        | None => false end) (cc_nodes (cm_config m)).

Lemma fetch_counted ask m : map fst (fetch_peer_summaries ask m) = counted ask m.
Proof.
  unfold fetch_peer_summaries, counted. induction (cc_nodes (cm_config m)) as [|p ps IH]; [done|]. cbn.
  destruct (ask p) as [u|]; cbn; [|done]. case_bool_decide; cbn; by rewrite IH.
Qed.

Lemma elect_leader_least local peers :
  let ids := local :: map (fun p => cs_node_id p.2) peers in
  elect_leader local peers ∈ ids /\ Forall (str_le (elect_leader local peers)) ids.
Proof.
  intros ids. unfold elect_leader. set (l := merge_sort str_le _).
  assert (Hl : forall x, x ∈ l <-> x ∈ ids).
  { intros x. unfold l. rewrite merge_sort_Permutation, elem_of_elements. apply elem_of_list_to_set. }
  assert (Hs : StronglySorted str_le l) by (apply (Sorted_StronglySorted str_le), Sorted_merge_sort; apply _).
  destruct l as [|x l']; cbn.
  - exfalso. by apply (not_elem_of_nil local), Hl, list_elem_of_here.
  - split; [apply Hl; set_solver|]. apply Forall_forall. intros y [->|Hy]%Hl%elem_of_cons.
    + by destruct (total str_le x x).
    + inversion_clear Hs as [|?? _ Hall]. rewrite Forall_forall in Hall. by apply Hall.
Qed.

(** A probe round decides by majority.  After [refresh_from_nodes] the node serves
    data exactly when itself and the configured endpoints that answered with the same
    cluster id are more than half of the configured endpoints; its summary shows their
    number, and the leader it names is the least id among itself and those that answered,
    so that nodes that hear the same answers name the same leader. *)
Theorem refresh_by_majority ask now m :
  let m' := refresh_from_nodes ask now m in
  let ids := cc_node_id (cm_config m) :: map (fun p => cs_node_id p.2) (fetch_peer_summaries ask m) in
  (allows_mutation m' = true <-> length (cc_nodes (cm_config m)) < 2 * (1 + length (counted ask m))) /\
  cs_reachable_voters (summary m') = 1 + length (counted ask m) /\
  cs_leader_id (summary m') ∈ ids /\ Forall (str_le (cs_leader_id (summary m'))) ids.
Proof.
  intros m' ids. unfold m', refresh_from_nodes. rewrite <- fetch_counted, length_map.
  set (peers := fetch_peer_summaries ask m). set (k := length peers).
  pose proof (elect_leader_least (cc_node_id (cm_config m)) peers) as [Hin Hle].
  assert (Hsum : forall s, summary (save s m) = ps_summary s).
  { intros s. unfold save, persist_state. by destruct (to_json _). }
  assert (Hq : quorum_of (length (cc_nodes (cm_config m))) <= 1 + k <-> length (cc_nodes (cm_config m)) < 2 * (1 + k)).
  { unfold quorum_of. pose proof (Nat.div_mod (length (cc_nodes (cm_config m))) 2).
    pose proof (Nat.mod_upper_bound (length (cc_nodes (cm_config m))) 2). lia. }
  case_bool_decide as Hlt; unfold mark_fenced, mark_ready, allows_mutation; rewrite Hsum;
    cbn [ps_summary cs_state cs_reachable_voters cs_leader_id]; split_and!; try done.
  - rewrite <- Hq. rewrite bool_decide_eq_true. split; [done|lia].
  - rewrite <- Hq, bool_decide_eq_true. split; [lia|done].
Qed.

Context `{!JsonOk PersistedClusterState}.

Lemma persist_ok m : files_ok (cm_fs m) -> summary_ok (summary m) ->
  files_ok (cm_fs (persist_state m).1) /\ summary (persist_state m).1 = summary m.
Proof.
  intros Hf Hs. unfold persist_state. destruct (json_reads_back (cm_state m)) as (data & Hd & Hb). rewrite Hd. cbn.
  split; [|done]. intros d bytes s. destruct (write_state_files data (cc_disk_paths (cm_config m)) (cm_fs m) (state_file d))
    as [E|E]; cbn in E; rewrite E; [apply Hf|]. intros [= <-]. rewrite Hb. by intros [= <-].
Qed.

Lemma save_ok s m : files_ok (cm_fs m) -> summary_ok (ps_summary s) -> node_ok (Up (save s m)).
Proof.
  intros Hf Hs. destruct (persist_ok (set_state s m)) as [Hf' Hu]; [done..|]. split; [exact Hf'|]. cbn.
  unfold save. by rewrite Hu.
Qed.

Lemma mark_ready_ok epoch leader reachable peers now m :
  files_ok (cm_fs m) -> quorum_of (length (cc_nodes (cm_config m))) <= reachable ->
  node_ok (Up (mark_ready epoch leader reachable peers now m)).
Proof. intros Hf Hq. apply save_ok; [done|]. split; cbn; [done|done|]. split; [done|by intros []]. Qed.

Lemma refresh_ok ask now m : node_ok (Up m) -> node_ok (Up (refresh_from_nodes ask now m)).
Proof.
  intros [Hf _]. unfold refresh_from_nodes. case_bool_decide as Hq; [|apply mark_ready_ok; [done|lia]].
  apply save_ok; [done|]. split; cbn; [done|done|]. split; [by eexists|done].
Qed.

Lemma initial_ok c cid now : summary_ok (ps_summary (initial_state c cid now)).
Proof.
  split; cbn; [done| |].
  - case_bool_decide as E; [|done]. intros _. rewrite E. cbn. lia.
  - case_bool_decide; split; try done; by intros [].
Qed.

Lemma load_persisted_ok fs disks s :
  files_ok fs -> load_persisted_state fs disks = Ok (Some s) -> summary_ok (ps_summary s).
Proof.
  intros Hf. induction disks as [|d disks IH]; cbn; [done|]. unfold fs_read.
  destruct (fs_files fs !! state_file d) as [bytes|] eqn:E; [|by destruct (fs_is_dir _ _)].
  destruct (from_json bytes) as [s'|] eqn:Ej; cbn; [|done]. intros [= ->]. by eapply Hf.
Qed.

Lemma manager_new_ok config now fs fs' r :
  files_ok fs -> manager_new config now fs = (fs', r) ->
  files_ok fs' /\ forall m, r = Ok m -> cm_fs m = fs' /\ node_ok (Up m).
Proof.
  intros Hf. unfold manager_new. set (c := normalize_config config). set (cid := manager_cluster_id _ _).
  destruct (load_persisted_state fs (cc_disk_paths c)) as [loaded|e] eqn:El; [|by intros [= <- <-]].
  set (s := match loaded with Some s => _ | None => _ end).
  assert (Hs : summary_ok (ps_summary s)).
  { unfold s. destruct loaded as [s'|]; [|apply initial_ok]. case_bool_decide; [by eapply load_persisted_ok|apply initial_ok]. }
  set (m := refresh_local_identity _).
  assert (Hm : summary_ok (summary m)) by (destruct Hs as [H1 H2 H3]; by split).
  destruct (cluster_enabled m) eqn:Een; cbn [negb].
  - destruct (persist_ok m) as [Hf' Hu]; [done..|]. intros [= <- <-]. split; [done|].
    intros m' Hm'. destruct ((persist_state m).2); [|done]. cbn in Hm'. injection Hm' as <-. split; [done|].
    split; [done|]. cbn. by rewrite Hu.
  - intros [= <- <-].
    assert (Hr : node_ok (Up (mark_ready (current_epoch_id m) (cc_node_id c) 1 None now m))).
    { apply mark_ready_ok; [done|]. unfold cluster_enabled in Een. apply negb_false_iff, bool_decide_eq_true in Een.
      by rewrite Een. }
    split; [apply Hr|]. by intros m' [= <-].
Qed.

Lemma node_step_ok n n' : node_ok n -> node_step n n' -> node_ok n'.
Proof.
  intros Hn Hs. destruct Hs as [n config now fs' m E|n config now fs' e E|m|ask now m|reason m|epoch leader ns vs now m].
  - destruct (manager_new_ok _ _ _ _ _ (proj1 Hn) E) as [_ Hm]. by apply Hm.
  - by destruct (manager_new_ok _ _ _ _ _ (proj1 Hn) E) as [Hf _].
  - by split; [apply Hn|].
  - by apply refresh_ok.
  - destruct Hn as [Hf [H1 H2 H3]]. apply save_ok; [done|]. split; cbn; [done|done|]. split; [by eexists|done].
  - destruct Hn as [Hf _]. apply save_ok; [done|]. split; cbn; [done| |]; case_bool_decide; cbn; done.
Qed.

Lemma node_reach_ok n n' : node_ok n -> rtc node_step n n' -> node_ok n'.
Proof. intros Hn Hr. induction Hr as [|n1 n2 n3 Hs _ IH]; [done|]. apply IH. by eapply node_step_ok. Qed.

(** C10: A node that serves data has its quorum.  Whatever sequence of starts, stops,
    failed starts, probe rounds with any answers, forced fences and installed topologies
    a node went through, beginning with volumes without a saved cluster state: when it
    lets requests through, its summary shows more than half of the voters reachable and
    no reason for a fence, and when it is fenced it shows a reason. *)
Theorem ready_has_quorum fs0 m :
  (forall d, fs_files fs0 !! state_file d = None) -> rtc node_step (Down fs0) (Up m) ->
  (blocks_data_plane m = false ->
    cs_voter_count (summary m) < 2 * cs_reachable_voters (summary m) /\ cs_fenced_reason (summary m) = None) /\
  (cs_state (summary m) = Fenced -> is_Some (cs_fenced_reason (summary m))).
Proof.
  intros Hfs Hr. assert (H0 : node_ok (Down fs0)) by (split; [intros d b s; by rewrite Hfs|done]).
  destruct (node_reach_ok _ _ H0 Hr) as [_ [Hq Hready Hreason]]. split; [|apply Hreason].
  unfold blocks_data_plane. rewrite negb_false_iff, bool_decide_eq_true. intros E. specialize (Hready E).
  rewrite Hq in Hready. unfold quorum_of in Hready. split.
  - pose proof (Nat.div_mod (cs_voter_count (summary m)) 2). pose proof (Nat.mod_upper_bound (cs_voter_count (summary m)) 2). lia.
  - destruct (cs_fenced_reason (summary m)) eqn:Er; [|done]. rewrite E in Hreason. discriminate (proj2 Hreason (ex_intro _ s eq_refl)).
Qed.

(** *** A probe round *)

(** *** Restarts *)

Lemma state_file_eq d : state_file d = sys_file "cluster.json" d.
Proof. unfold state_file, push, sys_file. cbn. by destruct (components d). Qed.

Lemma write_state_ok bytes disks fs :
  fs_wf fs -> Forall (sys_ready "cluster.json" fs) disks ->
  exists fs', write_state bytes disks fs = (fs', Ok tt) /\ fs_wf fs' /\
    (forall d, sys_ready "cluster.json" fs d -> sys_ready "cluster.json" fs' d) /\
    (forall d, d ∈ disks -> fs_files fs' !! state_file d = Some bytes).
Proof.
  revert fs. induction disks as [|d disks IH]; intros fs Hwf Hr.
  { exists fs. split_and!; [done|done|done|set_solver]. }
  inversion_clear Hr as [|?? Hd Hds].
  destruct (sys_put_ok "cluster.json" fs d bytes) as (fs1 & fs2 & E1 & E2 & Hwf2 & Hf2 & Hready); [done..|].
  destruct (IH fs2 Hwf2) as (fs' & E & Hwf' & Hready' & Hall).
  { rewrite Forall_forall in Hds |- *. intros x Hx. by apply Hready, Hds. }
  exists fs'. cbn [write_state]. rewrite state_file_eq, sys_file_parent, E1. cbn [fst snd]. rewrite E2. cbn [fst snd].
  split_and!; [done|done|intros x Hx; by apply Hready', Hready|]. intros x [->|Hx]%elem_of_cons; [|by apply Hall].
  destruct (write_state_files bytes disks fs2 (state_file d)) as [Ek|Ek]; rewrite E in Ek; cbn in Ek; rewrite Ek; [|done].
  by rewrite Hf2, state_file_eq, lookup_insert_eq.
Qed.

(** A state that already carries the node's own identity. *)
Definition refreshed (m : ClusterManager) : Prop := cm_state (refresh_local_identity m) = cm_state m.

Definition storable (m : ClusterManager) : Prop :=
  fs_wf (cm_fs m) /\ Forall (sys_ready "cluster.json" (cm_fs m)) (cc_disk_paths (cm_config m)) /\
  cc_disk_paths (cm_config m) <> [].

Lemma persist_total m : storable m ->
  exists m1, persist_state m = (m1, Ok tt) /\ storable m1 /\ cm_config m1 = cm_config m /\ cm_state m1 = cm_state m /\
    load_persisted_state (cm_fs m1) (cc_disk_paths (cm_config m)) = Ok (Some (cm_state m)).
Proof.
  intros (Hwf & Hr & Hne). unfold persist_state. destruct (json_reads_back (cm_state m)) as (data & Hd & Hb). rewrite Hd.
  destruct (write_state_ok data _ _ Hwf Hr) as (fs' & E & Hwf' & Hready & Hall). rewrite E. cbn.
  eexists. split; [done|]. cbn. split_and!; [|done|done|].
  - split_and!; cbn; [done| |done]. rewrite Forall_forall in Hr |- *. auto.
  - destruct (cc_disk_paths (cm_config m)) as [|d disks]; [done|]. cbn. unfold fs_read.
    rewrite Hall by set_solver. by rewrite Hb.
Qed.

(** A clustered node that starts where another run saved its state goes on from it. *)
Lemma restart_resumes c0 now m :
  storable m -> cm_config m = normalize_config c0 -> cluster_enabled m = true -> refreshed m ->
  load_persisted_state (cm_fs m) (cc_disk_paths (cm_config m)) = Ok (Some (cm_state m)) ->
  exists fs' m', manager_new c0 now (cm_fs m) = (fs', Ok m') /\ cm_state m' = cm_state m.
Proof.
  intros Hst Hc Hen Href Hload. unfold manager_new. rewrite <- Hc, Hload.
  assert (Hid : cs_cluster_id (ps_summary (cm_state m)) =
    manager_cluster_id (cc_node_id (cm_config m)) (cc_nodes (cm_config m))).
  { unfold refreshed in Href. apply (f_equal (fun s => cs_cluster_id (ps_summary s))) in Href. by rewrite <- Href. }
  rewrite bool_decide_eq_true_2 by done.
  assert (Hm : refresh_local_identity (mkManager (cm_config m) (cm_state m) (cm_fs m)) = m).
  { unfold refreshed in Href. destruct m as [c s f]. unfold refresh_local_identity, set_state in *. cbn in *. by rewrite Href. }
  rewrite Hm, Hen. cbn [negb]. destruct (persist_total m Hst) as (m1 & E & _ & _ & Hs & _). rewrite E. cbn.
  by eexists _, _.
Qed.

Lemma refreshed_again m : refreshed (refresh_local_identity m).
Proof. done. Qed.

(** C11: A fence survives a restart.  A clustered node whose volumes hold no cluster state
    starts without serving data; when it is then fenced and started again, it comes up in
    the state it was left in, fenced with the reason given, until a probe round finds a
    quorum. *)
Theorem fence_survives_restart c0 now now' reason fs :
  fs_wf fs -> Forall (sys_ready "cluster.json" fs) (cc_disk_paths c0) -> cc_disk_paths c0 <> [] ->
  normalize_nodes (cc_nodes c0) <> [] -> (forall d, fs_files fs !! state_file d = None) ->
  exists fs1 m, manager_new c0 now fs = (fs1, Ok m) /\ blocks_data_plane m = true /\
    exists fs2 m', manager_new c0 now' (cm_fs (force_fence reason m)) = (fs2, Ok m') /\
      cm_state m' = cm_state (force_fence reason m) /\ blocks_data_plane m' = true /\
      cs_fenced_reason (summary m') = Some reason.
Proof.
  intros Hwf Hr Hne Hn Hblank. unfold manager_new at 1. set (c := normalize_config c0).
  assert (Hload : load_persisted_state fs (cc_disk_paths c) = Ok None).
  { cbn. clear Hne. induction (cc_disk_paths c0) as [|d ds IH]; [done|]. inversion_clear Hr as [|?? (_ & _ & Hd) Hds].
    cbn. unfold fs_read, fs_is_dir. rewrite Hblank, bool_decide_eq_false_2 by by rewrite state_file_eq. by apply IH. }
  rewrite Hload. set (m0 := refresh_local_identity _).
  assert (Hen : cluster_enabled m0 = true) by (unfold cluster_enabled; cbn; by rewrite bool_decide_eq_false_2).
  rewrite Hen. cbn [negb]. destruct (persist_total m0) as (m1 & E1 & Hst1 & Hc1 & Hs1 & _); [by split_and!|].
  rewrite E1. cbn. eexists _, m1. split; [done|].
  assert (Hblk : blocks_data_plane m1 = true).
  { unfold blocks_data_plane, summary. rewrite Hs1. cbn. by rewrite (bool_decide_eq_false_2 (normalize_nodes _ = [])). }
  split; [done|]. unfold force_fence, save. set (s := mkPersisted _ _ _). set (mf := set_state s m1).
  destruct (persist_total mf) as (m2 & E2 & Hst2 & Hc2 & Hs2 & Hl2); [exact Hst1|]. rewrite E2. cbn [fst].
  assert (Hcfg : cm_config m2 = c) by by rewrite Hc2.
  destruct (restart_resumes c0 now' m2) as (fs2 & m' & En & Hsm).
  - done.
  - done.
  - unfold cluster_enabled. rewrite Hcfg. cbn. by rewrite bool_decide_eq_false_2.
  - unfold refreshed, refresh_local_identity, set_state. cbn [cm_state]. rewrite Hs2, Hcfg. unfold mf, s. cbn. rewrite Hs1. reflexivity.
  - rewrite Hc2, Hl2, Hs2. reflexivity.
  - exists fs2, m'. split_and!; [done|done|..].
    + unfold blocks_data_plane, summary. rewrite Hsm, Hs2. reflexivity.
    + unfold summary. rewrite Hsm, Hs2. reflexivity.
Qed.

Lemma standalone_start c0 now fs :
  normalize_nodes (cc_nodes c0) = [] -> load_persisted_state fs (cc_disk_paths c0) = Ok None ->
  exists m, manager_new c0 now fs = (cm_fs m, Ok m) /\ blocks_data_plane m = false.
Proof.
  intros Hn Hl. unfold manager_new. set (c := normalize_config c0). change (cc_disk_paths c) with (cc_disk_paths c0).
  rewrite Hl. set (m0 := refresh_local_identity _).
  assert (Hen : cluster_enabled m0 = false) by (unfold cluster_enabled; cbn; by rewrite bool_decide_eq_true_2).
  rewrite Hen. cbn [negb]. eexists. split; [reflexivity|].
  unfold mark_ready, save, blocks_data_plane, summary, persist_state. by destruct (to_json _).
Qed.

End Life.

(** ** Examples *)

Global Instance ServiceState_countable : Countable ServiceState.
Proof.
  refine (inj_countable' (fun s => match s with Joining => 0 | SyncingEpoch => 1 | Fenced => 2 | Ready => 3 end)
    (fun n => match n with 0 => Joining | 1 => SyncingEpoch | 2 => Fenced | _ => Ready end) _). by intros [].
Defined.
Global Instance ClusterSummary_eq_dec : EqDecision ClusterSummary.
Proof. solve_decision. Defined.
Global Instance ClusterSummary_countable : Countable ClusterSummary.
Proof.
  refine (inj_countable' (fun u => (cs_enabled u, cs_cluster_id u, cs_node_id u, cs_topology_hash u, cs_state u,
    cs_epoch_id u, cs_leader_id u, cs_node_count u, cs_voter_count u, cs_reachable_voters u, cs_quorum u, cs_fenced_reason u))
    (fun '(a, b, c, d, e, f, g, h, i, j, k, l) => mkClusterSummary a b c d e f g h i j k l) _). by intros [].
Defined.
Global Instance ClusterNodeStatus_eq_dec : EqDecision ClusterNodeStatus.
Proof. solve_decision. Defined.
Global Instance ClusterNodeStatus_countable : Countable ClusterNodeStatus.
Proof.
  refine (inj_countable' (fun n => (ns_node_id n, ns_advertise_s3 n, ns_advertise_cluster n, ns_state n, ns_voter n,
    ns_reachable n, ns_total_disks n, ns_last_heartbeat n))
    (fun '(a, b, c, d, e, f, g, h) => mkClusterNodeStatus a b c d e f g h) _). by intros [].
Defined.
Global Instance ClusterVolumeStatus_eq_dec : EqDecision ClusterVolumeStatus.
Proof. solve_decision. Defined.
Global Instance ClusterVolumeStatus_countable : Countable ClusterVolumeStatus.
Proof.
  refine (inj_countable' (fun v => (vs_volume_id v, vs_node_id v, vs_path v))
    (fun '(a, b, c) => mkClusterVolumeStatus a b c) _). by intros [].
Defined.
Global Instance ClusterEpoch_eq_dec : EqDecision ClusterEpoch.
Proof. solve_decision. Defined.
Global Instance ClusterEpoch_countable : Countable ClusterEpoch.
Proof.
  refine (inj_countable' (fun e => (ce_epoch_id e, ce_leader_id e, ce_committed_at e, ce_voter_count e, ce_reachable_voters e))
    (fun '(a, b, c, d, e) => mkClusterEpoch a b c d e) _). by intros [].
Defined.
Global Instance ClusterTopology_eq_dec : EqDecision ClusterTopology.
Proof. solve_decision. Defined.
Global Instance ClusterTopology_countable : Countable ClusterTopology.
Proof.
  refine (inj_countable' (fun t => (ct_cluster_id t, ct_epoch t, ct_nodes t, ct_volumes t))
    (fun '(a, b, c, d) => mkClusterTopology a b c d) _). by intros [].
Defined.
Global Instance PersistedClusterState_eq_dec : EqDecision PersistedClusterState.
Proof. solve_decision. Defined.
Global Instance PersistedClusterState_countable : Countable PersistedClusterState.
Proof.
  refine (inj_countable' (fun s => (ps_summary s, ps_topology s, ps_epochs s))
    (fun '(a, b, c) => mkPersisted a b c) _). by intros [].
Defined.

Definition demo_cluster_config (id endpoint : string) (ns : list string) : ClusterConfig :=
  mkClusterConfig id endpoint endpoint ns "" "" true ["/d1"].

Section ClusterDemo.
  Local Existing Instance example_hashes.

Lemma ready_has_quorum_witness :
  let J := countable_json PersistedClusterState in
  exists m, rtc node_step (Down boot_fs) (Up m) /\ blocks_data_plane m = false /\
    cs_voter_count (summary m) < 2 * cs_reachable_voters (summary m).
Proof.
  intros J. pose (c := demo_cluster_config "node-a" "http://a" []).
  destruct (standalone_start c 5 boot_fs) as (m & E & Hb); [vm_compute; reflexivity..|].
  assert (Hr : rtc node_step (Down boot_fs) (Up m)) by (eapply rtc_once, (node_start (Down boot_fs)), E).
  exists m. split_and!; [exact Hr|exact Hb|].
  refine (proj1 (proj1 (@ready_has_quorum _ J (countable_json_ok _) boot_fs m _ Hr) Hb)).
  intros d. cbn. apply lookup_empty.
Defined.

Lemma fence_survives_restart_witness :
  let J := countable_json PersistedClusterState in
  exists fs1 m, manager_new (demo_cluster_config "node-a" "http://a" ["http://a"; "http://b"]) 5 boot_fs = (fs1, Ok m) /\
    blocks_data_plane m = true.
Proof.
  intros J.
  destruct (@fence_survives_restart _ J (countable_json_ok _)
    (demo_cluster_config "node-a" "http://a" ["http://a"; "http://b"]) 5 6 "maintenance" boot_fs) as (fs1 & m & E & Hb & _).
  - exact boot_fs_wf.
  - repeat constructor; by_decide.
  - done.
  - by_decide.
  - intros d. cbn. apply lookup_empty.
  - by exists fs1, m.
Defined.

(** A codec that keeps nothing, for what does not depend on the saved state. *)
Definition no_json : Json PersistedClusterState := {| to_json := fun _ => None; from_json := fun _ => None |}.

Definition started (c : ClusterConfig) : ClusterManager :=
  let c := normalize_config c in
  refresh_local_identity (mkManager c (initial_state c (manager_cluster_id (cc_node_id c) (cc_nodes c)) 0) boot_fs).

Definition three : list string := ["http://a"; "http://b"; "http://c"].
Definition node_a : ClusterManager := started (demo_cluster_config "node-a" "http://a" three).
Definition node_b : ClusterManager := started (demo_cluster_config "node-b" "http://b" three).
Definition node_c : ClusterManager := started (demo_cluster_config "node-c" "http://c" three).

(** The cluster id of a node contains its own id, so the answers of the other nodes of
    the cluster never carry the same one: two healthy peers that answer do not count. *)
Theorem peers_never_count :
  let ask e := if bool_decide (e = "http://b") then Some (summary node_b)
               else if bool_decide (e = "http://c") then Some (summary node_c) else None in
  counted ask node_a = [] /\ blocks_data_plane (@refresh_from_nodes no_json ask 7 node_a) = true.
Proof. split; vm_compute; reflexivity. Qed.

(** The configured endpoints contain the node's own, whose answer counts as a voter beside
    the node itself: a node of three that reaches nobody else serves data. *)
Theorem isolated_node_serves :
  let ask e := if bool_decide (e = "http://a") then Some (summary node_a) else None in
  counted ask node_a = ["http://a"] /\
  allows_mutation (@refresh_from_nodes no_json ask 7 node_a) = true.
Proof. split; vm_compute; reflexivity. Qed.

End ClusterDemo.
