(* ===== verification/Multipart.v ===== *)
(** Multipart uploads ([src/multipart/mod.rs]).

    The code works on the file system directly and uses a volume only for its label,
    from which it takes the root ([disk_root]); so a disk is its label here, and the
    state is the file system of all volumes.  The identifiers drawn and the clock are
    arguments; the JSON of the upload and part files is the class [Json].  Part numbers
    are [i32], printed in decimal.  [data_n] is at least one, as everywhere in the store;
    with zero the source panics. *)

From Stdlib Require Import Ascii.
From stdpp Require Import base list gmap strings numbers sorting pretty.
From S2P Require Import Prelude Metadata Needle Pathing Segment Wal Materialize Placement Erasure.
From S2P Require Import Backend ErasureDecode FileSys.

Open Scope string_scope.
Open Scope list_scope.

Record UploadMeta : Type := mkUploadMeta {
  um_upload_id : string;
  um_bucket : string;
  um_key : string;
  um_content_type : string;
  um_user_metadata : gmap string string;
  um_created_at : N;
  um_data_dir : string;
}.

Record PartMeta : Type := mkPartMeta {
  pm_part_number : Z;
  pm_size : N;
  pm_etag : string;
}.

Record PartFileMeta : Type := mkPartFileMeta {
  pf_part_number : Z;
  pf_size : N;
  pf_etag : string;
  pf_erasure : ErasureMeta;
  pf_checksum : string;
}.

Definition UPLOAD_FILE : string := "upload.json".
Definition part_file (n : Z) : string := "part." +:+ pretty n.
Definition part_meta_file (n : Z) : string := "part." +:+ pretty n +:+ ".meta".

Definition disk_root (label : string) : Path :=
  match strip_local label with Some p => components p | None => components "." end.

(** [create_dir_all(dir).is_ok() && write(dir.join(name), data).is_ok()]. *)
Definition try_put (dir : Path) (name : string) (data : bytes) (fs : FS) : FS * bool :=
  let r := mkdir_all dir fs in
  match r.2 with
  | Err _ => (r.1, false)
  | Ok _ => let w := fs_put (push dir name) data r.1 in (w.1, is_ok w.2)
  end.

(** The stable [sort_by_key(|p| p.part_number)]. *)
Fixpoint insert_part (p : PartMeta) (l : list PartMeta) : list PartMeta :=
  match l with
  | [] => [p]
  | q :: l' => if bool_decide (pm_part_number p <= pm_part_number q)%Z then p :: l else q :: insert_part p l'
  end.
Definition sort_parts (l : list PartMeta) : list PartMeta := foldr insert_part [] l.

Section Multipart.
  Context `{Hashes} `{UuidParser} `{ReedSolomon} `{MetaFileCodec} `{!Json UploadMeta} `{!Json PartFileMeta}.

Definition upload_dir (disk bucket key upload_id : string) : Result Path :=
  multipart_upload_dir (disk_root disk) bucket key upload_id.

Definition valid_names (bucket key upload_id : string) : Result unit :=
  _ ← validate_bucket_name bucket;
  _ ← validate_object_key key;
  validate_upload_id upload_id.

(** *** Creating an upload *)

Fixpoint create_on (disks : list string) (bucket key upload_id : string) (json : bytes) (fs : FS)
    : FS * Result nat :=
  match disks with
  | [] => (fs, Ok 0)
  | d :: rest =>
      match upload_dir d bucket key upload_id with
      | Err e => (fs, Err e)
      | Ok dir =>
          let w := try_put dir UPLOAD_FILE json fs in
          let r := create_on rest bucket key upload_id json w.1 in
          (r.1, n ← r.2; Ok (if w.2 then S n else n))
      end
  end.

Definition create_upload (disks : list string) (bucket key content_type : string) (md : gmap string string)
    (upload_id data_dir : string) (now : N) (fs : FS) : FS * Result string :=
  match (_ ← validate_bucket_name bucket; validate_object_key key),
        to_json (mkUploadMeta upload_id bucket key content_type md now data_dir) with
  | Err e, _ => (fs, Err e)
  | Ok _, None => (fs, Err (Io "serialize"))
  | Ok _, Some json =>
      let r := create_on disks bucket key upload_id json fs in
      (r.1, n ← r.2; if bool_decide (n = 0) then Err WriteQuorum else Ok upload_id)
  end.

(** *** Reading the upload back: the first disk with a readable file decides *)

Fixpoint find_upload (fs : FS) (disks : list string) (bucket key upload_id : string) : Result UploadMeta :=
  match disks with
  | [] => Err ObjectNotFound
  | d :: rest =>
      dir ← upload_dir d bucket key upload_id;
      match (data ← fs_read fs (push dir UPLOAD_FILE); from_json data) with
      | Some m => Ok m
      | None => find_upload fs rest bucket key upload_id
      end
  end.

Definition read_upload (fs : FS) (disks : list string) (bucket key upload_id : string) : Result UploadMeta :=
  _ ← valid_names bucket key upload_id; find_upload fs disks bucket key upload_id.

(** *** Parts *)

Definition part_shards (dn pn : nat) (data : bytes) : Result (list bytes) :=
  let shards := split_data data dn in
  if bool_decide (0 < pn) then
    let size := length (nth 0 shards []) in
    if rs_new_ok dn pn
    then ok_or (rs_encode dn pn (shards ++ replicate pn (replicate size zero_byte))) (InvalidConfig "encode")
    else Err (InvalidConfig "reed-solomon")
  else Ok shards.

Definition part_meta (dn pn : nat) (n : Z) (data : bytes) (idx : nat) (shard : bytes) : PartFileMeta :=
  mkPartFileMeta n (as_u64 (N.of_nat (length data))) (md5_hex data)
    (mkErasureMeta pn idx 1 (map (fun i => "vol-" +:+ pretty (N.of_nat i)) (seq 0 (dn + pn)))) (blake3_hex shard).

(** One shard and its metadata file; a metadata file that cannot be written is ignored. *)
Definition put_part_shard (data_path : Path) (n : Z) (shard : bytes) (meta : PartFileMeta) (fs : FS) : FS * bool :=
  let w := try_put data_path (part_file n) shard fs in
  if (w.2 : bool) then ((fs_put (push data_path (part_meta_file n)) (default [] (to_json meta)) w.1).1, true)
  else (w.1, false).

Fixpoint put_shards (disks : list string) (dist : list nat) (bucket key upload_id data_dir : string) (n : Z)
    (meta : nat -> bytes -> PartFileMeta) (idx : nat) (shards : list bytes) (fs : FS) : FS * Result nat :=
  match shards with
  | [] => (fs, Ok 0)
  | s :: rest =>
      match (j ← dist !! idx; disks !! j) with
      | None => put_shards disks dist bucket key upload_id data_dir n meta (S idx) rest fs
      | Some d =>
          match upload_dir d bucket key upload_id with
          | Err e => (fs, Err e)
          | Ok dir =>
              let w := put_part_shard (push dir data_dir) n s (meta idx s) fs in
              let r := put_shards disks dist bucket key upload_id data_dir n meta (S idx) rest w.1 in
              (r.1, k ← r.2; Ok (if w.2 then S k else k))
          end
      end
  end.

Definition put_part (disks : list string) (dn pn : nat) (bucket key upload_id : string) (n : Z) (data : bytes)
    (fs : FS) : FS * Result PartMeta :=
  match (_ ← valid_names bucket key upload_id; read_upload fs disks bucket key upload_id), part_shards dn pn data with
  | Err e, _ => (fs, Err e)
  | Ok _, Err e => (fs, Err e)
  | Ok upload, Ok shards =>
      let dist := hash_order (bucket +:+ "/" +:+ key +:+ "/" +:+ pretty n) (dn + pn) in
      let r := put_shards disks dist bucket key upload_id (um_data_dir upload) n (part_meta dn pn n data) 0 shards fs in
      (r.1, k ← r.2;
            if bool_decide (k < (if bool_decide (pn = 0) then dn else dn + 1)) then Err WriteQuorum
            else Ok (mkPartMeta n (as_u64 (N.of_nat (length data))) (md5_hex data)))
  end.

(** [name.ends_with(".meta") && name.starts_with("part.")]. *)
Definition is_part_meta (name : string) : bool :=
  prefixb (rev (bytes_of ".meta")) (rev (bytes_of name)) && starts_with "part." name.

Definition add_part (fs : FS) (data_path : Path) (parts : list PartMeta) (name : string) : list PartMeta :=
  match (if is_part_meta name then data ← fs_read fs (push data_path name); from_json data else None) with
  | Some pm =>
      if existsb (fun p => bool_decide (pm_part_number p = pf_part_number pm)) parts then parts
      else parts ++ [mkPartMeta (pf_part_number pm) (pf_size pm) (pf_etag pm)]
  | None => parts
  end.

(** The parts in the staging directory of the first disk that has one. *)
Fixpoint find_parts (fs : FS) (disks : list string) (bucket key upload_id data_dir : string) : Result (list PartMeta) :=
  match disks with
  | [] => Ok []
  | d :: rest =>
      dir ← upload_dir d bucket key upload_id;
      let data_path := push dir data_dir in
      if fs_is_dir fs data_path then Ok (fold_left (add_part fs data_path) (file_entries fs data_path) [])
      else find_parts fs rest bucket key upload_id data_dir
  end.

Definition list_parts (fs : FS) (disks : list string) (bucket key upload_id : string)
    : Result (UploadMeta * list PartMeta) :=
  _ ← valid_names bucket key upload_id;
  upload ← read_upload fs disks bucket key upload_id;
  parts ← find_parts fs disks bucket key upload_id (um_data_dir upload);
  Ok (upload, sort_parts parts).

(** *** Completing *)

Fixpoint find_part_meta (fs : FS) (disks : list string) (bucket key upload_id data_dir : string) (n : Z)
    : Result PartFileMeta :=
  match disks with
  | [] => Err ObjectNotFound
  | d :: rest =>
      dir ← upload_dir d bucket key upload_id;
      match (data ← fs_read fs (push (push dir data_dir) (part_meta_file n)); from_json data) with
      | Some pm => Ok pm
      | None => find_part_meta fs rest bucket key upload_id data_dir n
      end
  end.

(** Move one file; when the rename fails it is copied and removed. *)
Definition move_file (src dst : Path) (fs : FS) : FS :=
  if fs_exists fs src then
    let r := fs_rename src dst fs in
    match r.2 with
    | Ok _ => r.1
    | Err _ => match fs_read r.1 src with
               | Some data => fs_remove src (fs_put dst data r.1).1
               | None => r.1
               end
    end
  else fs.

Fixpoint move_part (disks : list string) (bucket key upload_id data_dir : string) (n : Z) (fs : FS) : FS * Result unit :=
  match disks with
  | [] => (fs, Ok tt)
  | d :: rest =>
      match upload_dir d bucket key upload_id, object_dir (disk_root d) bucket key with
      | Ok dir, Ok obj_dir =>
          let staging := push dir data_dir in
          let fs := (mkdir_all obj_dir fs).1 in
          let fs := move_file (push staging (part_file n)) (push obj_dir (part_file n)) fs in
          let fs := move_file (push staging (part_meta_file n)) (push obj_dir (part_meta_file n)) fs in
          move_part rest bucket key upload_id data_dir n fs
      | Err e, _ => (fs, Err e)
      | Ok _, Err e => (fs, Err e)
      end
  end.

Definition part_entry (n : Z) (pm : PartFileMeta) : PartEntry :=
  mkPartEntry n (pf_size pm) (pf_etag pm) (pf_erasure pm) (pf_checksum pm).

Fixpoint move_parts (disks : list string) (bucket key upload_id data_dir : string) (requested : list (Z * string))
    (fs : FS) : FS * Result (list PartEntry) :=
  match requested with
  | [] => (fs, Ok [])
  | (n, _) :: rest =>
      match find_part_meta fs disks bucket key upload_id data_dir n with
      | Err e => (fs, Err e)
      | Ok pm =>
          let m := move_part disks bucket key upload_id data_dir n fs in
          match m.2 with
          | Err e => (m.1, Err e)
          | Ok _ =>
              let r := move_parts disks bucket key upload_id data_dir rest m.1 in
              (r.1, ps ← r.2; Ok (part_entry n pm :: ps))
          end
      end
  end.

(** [trim_matches] of the double quote. *)
Definition trim_quotes (s : string) : bytes :=
  let strip := fix strip (l : bytes) := match l with c :: r => if Ascii.eqb c "034" then strip r else l | [] => [] end in
  rev (strip (rev (strip (bytes_of s)))).

Definition final_etag (requested : list (Z * string)) : string :=
  md5_hex (flat_map (fun r => trim_quotes r.2) requested) +:+ "-" +:+ pretty (N.of_nat (length requested)).

Definition complete_meta (upload : UploadMeta) (entries : list PartEntry) (etag : string) (now : N) (idx : nat) : ObjectMeta :=
  let e := match entries with p :: _ => part_erasure p | [] => mkErasureMeta 0 0 0 [] end in
  {| size := as_u64 (foldr (fun p n => part_size p + n)%N 0%N entries); etag := etag; content_type := um_content_type upload;
     created_at := now; erasure := mkErasureMeta (ftt e) idx (epoch_id e) (volume_ids e); checksum := "";
     user_metadata := um_user_metadata upload; tags := ∅; version_id := ""; is_latest := true;
     is_delete_marker := false; parts := entries; inline_data := None |}.

(** [write_meta_file]. *)
Definition write_meta_json (p : Path) (mf : ObjectMetaFile) (fs : FS) : FS * bool :=
  match json_to_vec mf with
  | None => (fs, false)
  | Some b => let w := fs_put p b fs in (w.1, is_ok w.2)
  end.

Fixpoint write_metas (disks : list string) (bucket key : string) (meta : nat -> ObjectMeta) (idx : nat) (fs : FS)
    : FS * Result nat :=
  match disks with
  | [] => (fs, Ok 0)
  | d :: rest =>
      match object_dir (disk_root d) bucket key with
      | Err e => (fs, Err e)
      | Ok obj_dir =>
          let w := write_meta_json (push obj_dir "meta.json") (mkObjectMetaFile bucket key [meta idx])
                     (mkdir_all obj_dir fs).1 in
          let r := write_metas rest bucket key meta (S idx) w.1 in
          (r.1, k ← r.2; Ok (if w.2 then S k else k))
      end
  end.

(** Removing the staging directories; a name that gives no directory is passed over. *)
Definition remove_staging (disks : list string) (bucket key upload_id : string) (fs : FS) : FS :=
  fold_left (fun fs d => match upload_dir d bucket key upload_id with
                         | Ok dir => remove_dir_all dir fs | Err _ => fs end) disks fs.

Definition complete_upload (disks : list string) (bucket key upload_id : string) (requested : list (Z * string))
    (now : N) (fs : FS) : FS * Result ObjectInfo :=
  match (_ ← valid_names bucket key upload_id; list_parts fs disks bucket key upload_id) with
  | Err e => (fs, Err e)
  | Ok (upload, available) =>
      if negb (forallb (fun r => existsb (fun p => bool_decide (pm_part_number p = r.1)) available) requested)
      then (fs, Err ObjectNotFound)
      else
        let m := move_parts disks bucket key upload_id (um_data_dir upload) requested fs in
        match m.2 with
        | Err e => (m.1, Err e)
        | Ok entries =>
            let etag := final_etag requested in
            let w := write_metas disks bucket key (complete_meta upload entries etag now) 0 m.1 in
            match w.2 with
            | Err e => (w.1, Err e)
            | Ok k =>
                if bool_decide (k = 0) then (w.1, Err WriteQuorum)
                else
                  (remove_staging disks bucket key upload_id w.1,
                   Ok {| info_bucket := bucket; info_key := key;
                         info_size := as_u64 (foldr (fun p n => part_size p + n)%N 0%N entries);
                         info_etag := etag; info_content_type := um_content_type upload; info_created_at := now;
                         info_user_metadata := um_user_metadata upload; info_tags := ∅; info_version_id := "";
                         info_is_delete_marker := false |})
            end
        end
  end.

(** *** Aborting and listing *)

Fixpoint abort_on (disks : list string) (bucket key upload_id : string) (fs : FS) : FS * Result unit :=
  match disks with
  | [] => (fs, Ok tt)
  | d :: rest =>
      match upload_dir d bucket key upload_id with
      | Err e => (fs, Err e)
      | Ok dir => abort_on rest bucket key upload_id (remove_dir_all dir fs)
      end
  end.

Definition abort_upload (disks : list string) (bucket key upload_id : string) (fs : FS) : FS * Result unit :=
  match valid_names bucket key upload_id with
  | Err e => (fs, Err e)
  | Ok _ => abort_on disks bucket key upload_id fs
  end.

(** [walk_uploads]: a directory with an [upload.json] is an upload, any other is searched;
    the depth of the tree is fuel enough. *)
Fixpoint walk_uploads (fuel : nat) (fs : FS) (dir : Path) (acc : list UploadMeta * gset string)
    : list UploadMeta * gset string :=
  match fuel with
  | O => acc
  | S fuel =>
      fold_left (fun acc name =>
        let path := push dir name in
        if fs_exists fs (push path UPLOAD_FILE) then
          match (data ← fs_read fs (push path UPLOAD_FILE); from_json data) with
          | Some m => if bool_decide (um_upload_id m ∈ acc.2) then acc
                      else (acc.1 ++ [m], {[um_upload_id m]} ∪ acc.2)
          | None => acc
          end
        else walk_uploads fuel fs path acc) (dir_entries fs dir) acc
  end.

Definition depth (fs : FS) : nat := foldr Nat.max 0 (map length (elements (fs_dirs fs))).

Fixpoint list_uploads_on (fs : FS) (disks : list string) (bucket : string) : Result (list UploadMeta) :=
  match disks with
  | [] => Ok []
  | d :: rest =>
      dir ← multipart_bucket_dir (disk_root d) bucket;
      if fs_is_dir fs dir then Ok (walk_uploads (depth fs) fs dir ([], ∅)).1
      else list_uploads_on fs rest bucket
  end.

Definition list_uploads (fs : FS) (disks : list string) (bucket : string) : Result (list UploadMeta) :=
  _ ← validate_bucket_name bucket; list_uploads_on fs disks bucket.

End Multipart.
