(* ===== verification/MultipartSpec.v ===== *)
(** What a multipart upload means: the parts that were put, completed in any order, read
    back as their concatenation from any [data] disks.

    The files of an upload form a table, one row per disk and one column per file
    ([slot]); every operation is an update of that table, and no file of it stands in the
    way of another ([path_indep]). *)

From Stdlib Require Import Ascii.
From stdpp Require Import base list gmap strings numbers sorting pretty.
From S2P Require Import Prelude Metadata Needle Pathing Segment Wal Materialize Placement Erasure.
From S2P Require Import Backend ErasureDecode FileSys LocalObjects Multipart.

Open Scope string_scope.
Open Scope list_scope.

(** ** File names *)

Lemma pretty_Z_good (n : Z) c : c = slash \/ c = dot -> c ∉ bytes_of (pretty n).
Proof. intros [-> | ->]; by apply pretty_Z_not. Qed.

Lemma good_part_of s : slash ∉ bytes_of s -> length (bytes_of s) > 2 -> good_part s.
Proof.
  intros Hs Hl. unfold good_part. split_and!; [done|..]; intros E; rewrite E in Hl; cbn in Hl; lia.
Qed.

Lemma part_file_good n : good_part (part_file n).
Proof.
  apply good_part_of; unfold part_file; rewrite bytes_of_app.
  - apply not_elem_of_app. split; [by_decide|apply pretty_Z_good; by left].
  - rewrite length_app. cbn. lia.
Qed.

Lemma part_meta_good n : good_part (part_meta_file n).
Proof.
  apply good_part_of; unfold part_meta_file; rewrite !bytes_of_app.
  - rewrite !not_elem_of_app. split_and!; [by_decide|apply pretty_Z_good; by left|by_decide].
  - rewrite !length_app. cbn. lia.
Qed.

Lemma part_file_inj n m : part_file n = part_file m -> n = m.
Proof.
  intros E%(f_equal bytes_of). unfold part_file in E. rewrite !bytes_of_app in E.
  apply app_inv_head, bytes_of_inj in E. by apply (inj pretty) in E.
Qed.

Lemma part_meta_inj n m : part_meta_file n = part_meta_file m -> n = m.
Proof.
  intros E%(f_equal bytes_of). unfold part_meta_file in E. rewrite !bytes_of_app in E.
  apply app_inv_head, app_inv_tail, bytes_of_inj in E. by apply (inj pretty) in E.
Qed.

Lemma part_file_meta n m : part_file n <> part_meta_file m.
Proof.
  intros E%(f_equal bytes_of). unfold part_file, part_meta_file in E. rewrite !bytes_of_app in E.
  apply app_inv_head in E. apply (pretty_Z_good n dot); [by right|]. rewrite E. apply elem_of_app. right. by_decide.
Qed.

Lemma not_meta_json s : prefixb (bytes_of "part.") (bytes_of s) = true -> s <> "meta.json".
Proof. by intros H ->. Qed.

Lemma part_prefix n : prefixb (bytes_of "part.") (bytes_of (part_file n)) = true /\
  prefixb (bytes_of "part.") (bytes_of (part_meta_file n)) = true.
Proof.
  unfold part_file, part_meta_file. rewrite !bytes_of_app. split; apply prefixb_spec; by eexists.
Qed.

(** ** The table of files *)

Inductive slot : Type :=
| Upload
| Staged (n : Z)
| StagedMeta (n : Z)
| Final (n : Z)
| FinalMeta (n : Z)
| ObjectJson.

Global Instance slot_eq_dec : EqDecision slot.
Proof. solve_decision. Defined.

Section Table.
  Context `{UuidParser} (disks : list string) (bucket key uid data_dir : string).

Definition slot_name (s : slot) : string :=
  match s with
  | Upload => UPLOAD_FILE
  | Staged n | Final n => part_file n
  | StagedMeta n | FinalMeta n => part_meta_file n
  | ObjectJson => "meta.json"
  end.

Definition staging_names : list string := [".abixio.sys"; "multipart"; bucket] ++ split slash key ++ [uid].
Definition object_names : list string := bucket :: split slash key.

Definition slot_dir (s : slot) : list string :=
  match s with
  | Upload => staging_names
  | Staged _ | StagedMeta _ => staging_names ++ [data_dir]
  | Final _ | FinalMeta _ | ObjectJson => object_names
  end.

Definition root_of (d : string) : Path := normalize_path (disk_root d).
Definition dir_of (d : string) (s : slot) : Path := root_of d ++ map Normal (slot_dir s).
Definition path_of (d : string) (s : slot) : Path := dir_of d s ++ [Normal (slot_name s)].

(** The names are those the server accepts, the disks are local volumes none of which
    lies in another, and there is room for the files of the upload. *)
Record setting : Prop := {
  se_bucket : validate_bucket_name bucket = Ok tt;
  se_key : validate_object_key key = Ok tt;
  se_uid : validate_upload_id uid = Ok tt;
  se_uid_part : good_part uid;
  se_data_dir : good_part data_dir;
  se_data_dir_ne : data_dir <> UPLOAD_FILE;
  se_nodup : NoDup disks;
  se_local : forall d, d ∈ disks -> is_Some (strip_local d);
  se_apart : forall d d' r, d ∈ disks -> d' ∈ disks -> root_of d' = root_of d ++ r -> d = d';
}.

Context (Hse : setting).

Lemma slot_good s : good_part (slot_name s).
Proof. destruct s; [by_decide|apply part_file_good|apply part_meta_good|apply part_file_good|apply part_meta_good|by_decide]. Qed.

Lemma key_good : Forall good_part (split slash key).
Proof. apply valid_key_segments, se_key, Hse. Qed.

Lemma upload_dir_eq d : upload_dir d bucket key uid = Ok (dir_of d Upload).
Proof.
  unfold upload_dir, multipart_upload_dir. rewrite (se_bucket Hse), (se_key Hse), (se_uid Hse).
  cbn [mbind result_bind]. rewrite safe_join_good; [done|].
  repeat (constructor; [by_decide || apply valid_bucket_good, Hse|]). apply Forall_app.
  split; [apply key_good|]. constructor; [apply Hse|constructor].
Qed.

Lemma staging_eq d n : push (dir_of d Upload) data_dir = dir_of d (Staged n).
Proof. rewrite push_good by apply Hse. unfold dir_of. cbn [slot_dir]. by rewrite map_app, app_assoc. Qed.

Lemma object_dir_eq d : object_dir (disk_root d) bucket key = Ok (dir_of d ObjectJson).
Proof. apply object_dir_Ok. split_and!; [apply Hse|apply Hse|done]. Qed.

Lemma push_slot d s : push (dir_of d s) (slot_name s) = path_of d s.
Proof. by apply push_good, slot_good. Qed.

Lemma dir_of_ne d s : dir_of d s <> [].
Proof. unfold dir_of. intros [_ E]%app_nil. by destruct s. Qed.

(** Which slots share a directory. *)
Definition zone (s : slot) : nat :=
  match s with Upload => 0 | Staged _ | StagedMeta _ => 1 | _ => 2 end.

Lemma slot_name_inj s s' : zone s = zone s' -> slot_name s = slot_name s' -> s = s'.
Proof.
  destruct s, s'; cbn; intros Hz E; try done; try (by f_equal; apply part_file_inj); try (by f_equal; apply part_meta_inj);
    try (by destruct (part_file_meta _ _ E)); try (by destruct (part_file_meta _ _ (eq_sym E)));
    exfalso; (eapply not_meta_json; [apply part_prefix|]); (exact E || exact (eq_sym E)).
Qed.

Lemma bucket_not_sys : bucket <> ".abixio.sys".
Proof. apply valid_bucket_not_sys, Hse. Qed.

(** Below one root: no file lies below another, and distinct slots are distinct files. *)
Lemma names_prefix s s' r :
  slot_dir s ++ slot_name s :: r = slot_dir s' ++ [slot_name s'] -> r = [] /\ s = s'.
Proof.
  intros E. assert (Hlen := f_equal length E). rewrite !length_app in Hlen. cbn in Hlen.
  destruct (decide (zone s = zone s')) as [Hz|Hz].
  - assert (Hd : slot_dir s = slot_dir s') by (by destruct s, s'). rewrite Hd in E. apply app_inv_head in E.
    injection E as En Er. split; [done|]. by apply slot_name_inj.
  - exfalso. pose proof bucket_not_sys. pose proof (se_data_dir_ne Hse).
    destruct s, s'; try done; cbn [slot_dir slot_name] in *; unfold staging_names, object_names in *;
      cbn in E, Hlen; try (injection E; congruence); rewrite !length_app in Hlen; cbn in Hlen; try lia;
      injection E as E; rewrite <- !app_assoc in E; apply app_inv_head in E; injection E; congruence.
Qed.

Lemma path_of_eq d s : path_of d s = root_of d ++ map Normal (slot_dir s ++ [slot_name s]).
Proof. unfold path_of, dir_of. by rewrite map_app, app_assoc. Qed.

Lemma path_prefix d s d' s' r :
  d ∈ disks -> d' ∈ disks -> path_of d' s' = path_of d s ++ r -> r = [] /\ d = d' /\ s = s'.
Proof.
  intros Hd Hd' E.
  assert (Heq : d = d').
  { rewrite !path_of_eq, <- app_assoc in E.
    destruct (app_eq_app _ _ _ _ E) as (l & [[E1 _]|[E1 _]]).
    - by apply (se_apart Hse d d' l).
    - symmetry. by apply (se_apart Hse d' d l). }
  subst d'. rewrite !path_of_eq, <- app_assoc in E. apply app_inv_head in E.
  assert (Hr : exists r', r = map Normal r' /\ slot_dir s' ++ [slot_name s'] = (slot_dir s ++ [slot_name s]) ++ r').
  { revert E. generalize (slot_dir s ++ [slot_name s]) as a, (slot_dir s' ++ [slot_name s']) as b. clear.
    induction a as [|x a IH]; intros b E; [by exists b|]. destruct b as [|y b]; [done|]. cbn in E. injection E as -> E.
    destruct (IH b E) as (r' & -> & ->). by exists r'. }
  destruct Hr as (r' & -> & E'). rewrite <- app_assoc in E'. symmetry in E'.
  destruct (names_prefix s s' r' E') as [-> ->]. done.
Qed.

Lemma path_of_inj d s d' s' : d ∈ disks -> d' ∈ disks -> path_of d s = path_of d' s' -> d = d' /\ s = s'.
Proof. intros Hd Hd' E. destruct (path_prefix d s d' s' []) as (_ & ? & ?); [done..|by rewrite app_nil_r|done]. Qed.

Lemma path_indep d s d' s' : d ∈ disks -> d' ∈ disks -> indep (path_of d s) (path_of d' s').
Proof.
  intros Hd Hd' r Hr. split; intros E.
  - by destruct (path_prefix d s d' s' r Hd Hd' E).
  - by destruct (path_prefix d' s' d s r Hd' Hd E).
Qed.

(** ** Updates of the table *)

Definition view (fs : FS) (d : string) (s : slot) : option bytes := fs_files fs !! path_of d s.

Definition roomy (fs : FS) : Prop := forall d s, d ∈ disks -> ready fs (path_of d s).

(** Only the entries in [touched] change, there is still room, and no directory is lost. *)
Record evolves (fs fs' : FS) (touched : string -> slot -> Prop) : Prop := {
  ev_roomy : roomy fs';
  ev_dirs : forall q, q ∈ fs_dirs fs -> q ∈ fs_dirs fs';
  ev_view : forall d s, d ∈ disks -> ~ touched d s -> view fs' d s = view fs d s;
}.

Lemma evolves_refl fs touched : roomy fs -> evolves fs fs touched.
Proof. by split. Qed.

Lemma evolves_trans fs fs1 fs2 (t1 t2 t : string -> slot -> Prop) :
  evolves fs fs1 t1 -> evolves fs1 fs2 t2 -> (forall d s, d ∈ disks -> t1 d s \/ t2 d s -> t d s) -> evolves fs fs2 t.
Proof.
  intros [_ D1 V1] [R2 D2 V2] Ht. split; [done|auto|]. intros d s Hd Hn.
  rewrite V2, V1; [done|done| |done|]; intros Hx; apply Hn, Ht; auto.
Qed.

Lemma lookup_other fs d s d' s' data :
  d ∈ disks -> d' ∈ disks -> (d', s') <> (d, s) ->
  <[path_of d s := data]> (fs_files fs) !! path_of d' s' = view fs d' s'.
Proof.
  intros Hd Hd' Hne. apply lookup_insert_ne. intros E%path_of_inj; [|done..]. by destruct E as [-> ->].
Qed.

Lemma try_put_slot fs d s data :
  roomy fs -> d ∈ disks ->
  exists fs', try_put (dir_of d s) (slot_name s) data fs = (fs', true) /\ view fs' d s = Some data /\
    dir_of d s ∈ fs_dirs fs' /\ evolves fs fs' (fun d' s' => d' = d /\ s' = s).
Proof.
  intros Hr Hd. destruct (put_ready fs (dir_of d s) (Normal (slot_name s)) data) as (fs1 & fs' & E1 & E2 & Hf & Hin & Hdirs & Hrd).
  { apply dir_of_ne. } { by apply Hr. }
  change (dir_of d s ++ [Normal (slot_name s)]) with (path_of d s) in *.
  exists fs'. unfold try_put. rewrite E1. cbn [fst snd]. rewrite push_slot, E2. cbn.
  split_and!; [done| |done|split; [|done|]].
  - unfold view. rewrite Hf. apply lookup_insert_eq.
  - intros d' s' Hd'. apply Hrd; [by apply Hr|]. by apply path_indep.
  - intros d' s' Hd' Hne. unfold view at 1. rewrite Hf. apply lookup_other; [done..|]. intros [= -> ->]. by apply Hne.
Qed.

(** A write where the directory exists already. *)
Lemma put_slot fs d s data :
  roomy fs -> d ∈ disks -> dir_of d s ∈ fs_dirs fs ->
  exists fs', fs_put (path_of d s) data fs = (fs', Ok tt) /\ view fs' d s = Some data /\
    evolves fs fs' (fun d' s' => d' = d /\ s' = s).
Proof.
  intros Hr Hd Hin. eexists. split; [by apply put_in_dir; [|apply Hr]|].
  split; [unfold view; cbn; apply lookup_insert_eq|]. split; cbn; [|done|].
  - intros d' s' Hd'. apply (ready_files fs); [done| |by apply Hr]. cbn. intros x Hx Hn.
    rewrite lookup_insert_ne; [done|]. intros <-. by apply (indep_not_above _ _ (path_indep d s d' s' Hd Hd')).
  - intros d' s' Hd' Hne. unfold view at 1. cbn. apply lookup_other; [done..|]. intros [= -> ->]. by apply Hne.
Qed.

(** Moving a file from one slot to another whose directory exists. *)
Lemma move_slot fs d s t data :
  roomy fs -> d ∈ disks -> s <> t -> view fs d s = Some data -> dir_of d t ∈ fs_dirs fs ->
  let fs' := move_file (path_of d s) (path_of d t) fs in
  view fs' d t = Some data /\ evolves fs fs' (fun d' s' => d' = d /\ (s' = s \/ s' = t)).
Proof.
  intros Hr Hd Hst Hv Hin. unfold view in Hv.
  assert (E : fs_rename (path_of d s) (path_of d t) fs =
    (mkFS (<[path_of d t := data]> (delete (path_of d s) (fs_files fs))) (fs_dirs fs), Ok tt)).
  { unfold fs_rename, fs_is_dir. rewrite Hv. rewrite bool_decide_eq_false_2 by by apply Hr.
    replace (parent (path_of d t)) with (dir_of d t) by (symmetry; apply parent_snoc).
    by rewrite bool_decide_eq_true_2. }
  unfold move_file, fs_exists. rewrite Hv, bool_decide_eq_true_2 by by eexists. cbn [orb]. rewrite E. cbn.
  split; [unfold view; cbn; apply lookup_insert_eq|]. split; cbn; [|done|].
  - intros d' s' Hd'. apply (ready_files fs); [done| |by apply Hr]. cbn. intros x Hx Hn.
    rewrite lookup_insert_ne; [by apply lookup_delete_None; right|].
    intros <-. by apply (indep_not_above _ _ (path_indep d t d' s' Hd Hd')).
  - intros d' s' Hd' Hne. unfold view. cbn. rewrite lookup_insert_ne, lookup_delete_ne; [done|..];
      intros Ep%path_of_inj; try done; destruct Ep as [-> ->]; apply Hne; auto.
Qed.

(** [create_dir_all] of a directory of the table. *)
Lemma mkdir_slot fs d s :
  roomy fs -> d ∈ disks ->
  let fs' := (mkdir_all (dir_of d s) fs).1 in dir_of d s ∈ fs_dirs fs' /\ evolves fs fs' (fun _ _ => False).
Proof.
  intros Hr Hd. destruct (Hr d s Hd) as [Hf Hp]. unfold path_of in Hf. rewrite parent_snoc in Hf.
  rewrite mkdir_all_ok by done. cbn. split.
  { apply elem_of_union_r, elem_of_list_to_set, prefixes_self, dir_of_ne. }
  split; cbn; [|set_solver|done]. intros d' s' Hd'. destruct (Hr d' s' Hd') as [Hf' Hp']. split; [done|]. cbn.
  rewrite not_elem_of_union, not_elem_of_list_to_set. split; [done|].
  intros (r & Hrn & E)%(elem_of_prefixes_snoc _ (Normal (slot_name s))).
  by destruct (path_indep d s d' s' Hd Hd' r Hrn).
Qed.

(** ** Putting parts *)

Section Ops.
  Context `{Hashes} `{ReedSolomon} `{!ReedSolomonOk} `{MetaFileCodec} `{!Json UploadMeta} `{!Json PartFileMeta}
          `{!JsonOk UploadMeta} `{!JsonOk PartFileMeta}.
  Context (dn pn : nat).

Lemma create_on_ok json ds fs :
  roomy fs -> (forall d, d ∈ ds -> d ∈ disks) ->
  exists fs', create_on ds bucket key uid json fs = (fs', Ok (length ds)) /\
    (forall d, d ∈ ds -> view fs' d Upload = Some json) /\ evolves fs fs' (fun d s => d ∈ ds /\ s = Upload).
Proof.
  revert fs. induction ds as [|d ds IH]; intros fs Hr Hin.
  { exists fs. split_and!; [done|set_solver|by apply evolves_refl]. }
  destruct (try_put_slot fs d Upload json Hr ltac:(set_solver)) as (fs1 & E1 & Hv1 & _ & Hev1).
  destruct (IH fs1) as (fs2 & E2 & Hv2 & Hev2); [apply Hev1|set_solver|].
  exists fs2. cbn [create_on]. rewrite upload_dir_eq. change UPLOAD_FILE with (slot_name Upload). rewrite E1. cbn [fst snd].
  rewrite E2. cbn. split_and!; [done| |].
  - intros x [->|Hx]%elem_of_cons; [|by apply Hv2]. destruct (decide (d ∈ ds)) as [Hd|Hd]; [by apply Hv2|].
    rewrite (ev_view _ _ _ Hev2); [done|set_solver|naive_solver].
  - eapply evolves_trans; [exact Hev1|exact Hev2|]. intros ? ? _ [[-> ->]|[? ->]]; set_solver.
Qed.

Lemma find_upload_ok fs um ds :
  ds <> [] -> (forall d, d ∈ ds -> view fs d Upload = to_json um) -> find_upload fs ds bucket key uid = Ok um.
Proof.
  intros Hne Hv. destruct ds as [|d ds]; [done|]. cbn [find_upload]. rewrite upload_dir_eq. cbn [mbind result_bind].
  change (push (dir_of d Upload) UPLOAD_FILE) with (push (dir_of d Upload) (slot_name Upload)). rewrite push_slot.
  unfold fs_read. fold (view fs d Upload). rewrite Hv by set_solver. destruct (json_reads_back um) as (data & -> & Hb).
  cbn. by rewrite Hb.
Qed.

Lemma put_part_shard_ok fs d n shard meta :
  roomy fs -> d ∈ disks ->
  exists fs', put_part_shard (dir_of d (Staged n)) n shard meta fs = (fs', true) /\
    view fs' d (Staged n) = Some shard /\ view fs' d (StagedMeta n) = to_json meta /\
    dir_of d (Staged n) ∈ fs_dirs fs' /\
    evolves fs fs' (fun d' s => d' = d /\ (s = Staged n \/ s = StagedMeta n)).
Proof.
  intros Hr Hd. destruct (try_put_slot fs d (Staged n) shard Hr Hd) as (fs1 & E1 & Hv1 & Hin1 & Hev1).
  destruct (json_reads_back meta) as (data & Hj & _).
  destruct (put_slot fs1 d (StagedMeta n) data) as (fs2 & E2 & Hv2 & Hev2); [apply Hev1|done|done|].
  exists fs2. unfold put_part_shard. change (part_file n) with (slot_name (Staged n)). rewrite E1. cbn [fst snd].
  change (push (dir_of d (Staged n)) (part_meta_file n)) with (push (dir_of d (StagedMeta n)) (slot_name (StagedMeta n))).
  rewrite push_slot, Hj. cbn. rewrite E2. cbn. split_and!; [done| |done|by apply Hev2|].
  - rewrite (ev_view _ _ _ Hev2); [done|done|naive_solver].
  - eapply evolves_trans; [exact Hev1|exact Hev2|]. naive_solver.
Qed.

(** The disk of shard [i] of part [n]. *)
Definition dist (n : Z) : list nat := hash_order (bucket +:+ "/" +:+ key +:+ "/" +:+ pretty n) (dn + pn).
Definition target (n : Z) (i : nat) : option string := j ← dist n !! i; disks !! j.

Context (Hdn : 0 < dn) (Htotal : dn + pn = length disks) (Hrs : 0 < pn -> rs_new_ok dn pn = true).

Lemma target_inj n i i' d : target n i = Some d -> target n i' = Some d -> i = i'.
Proof.
  unfold target. intros (j & Hj & Hd)%bind_Some (j' & Hj' & Hd')%bind_Some.
  assert (j = j') as <- by (eapply NoDup_lookup; [apply Hse|done|done]).
  eapply NoDup_lookup; [|exact Hj|exact Hj']. unfold dist. rewrite hash_order_permutation. apply NoDup_seq.
Qed.

Lemma target_some n i : i < dn + pn -> exists d, target n i = Some d /\ d ∈ disks.
Proof.
  intros Hi. destruct (lookup_lt_is_Some_2 (dist n) i) as [j Hj].
  { unfold dist. by rewrite hash_order_permutation, length_seq. }
  assert (Hlt : j < length disks).
  { rewrite <- Htotal. apply (list_elem_of_lookup_2 _ _ _) in Hj. unfold dist in Hj. rewrite hash_order_permutation in Hj.
    apply elem_of_seq in Hj. lia. }
  destruct (lookup_lt_is_Some_2 disks j Hlt) as [d Hd]. exists d. unfold target. rewrite Hj. cbn.
  split; [done|by eapply list_elem_of_lookup_2].
Qed.

Lemma target_onto n d : d ∈ disks -> exists i, i < dn + pn /\ target n i = Some d.
Proof.
  intros [j Hj]%list_elem_of_lookup. assert (Hin : j ∈ dist n).
  { unfold dist. rewrite hash_order_permutation, elem_of_seq. apply lookup_lt_Some in Hj. lia. }
  apply list_elem_of_lookup in Hin as [i Hi]. exists i. unfold target. rewrite Hi. cbn. split; [|done].
  apply lookup_lt_Some in Hi. unfold dist in Hi. by rewrite hash_order_permutation, length_seq in Hi.
Qed.

Lemma put_shards_ok n meta shards idx fs :
  roomy fs -> idx + length shards <= dn + pn ->
  exists fs', put_shards disks (dist n) bucket key uid data_dir n meta idx shards fs = (fs', Ok (length shards)) /\
    (forall i s, shards !! i = Some s -> exists d, target n (idx + i) = Some d /\ view fs' d (Staged n) = Some s /\
       view fs' d (StagedMeta n) = to_json (meta (idx + i) s) /\ dir_of d (Staged n) ∈ fs_dirs fs') /\
    evolves fs fs' (fun d s => (s = Staged n \/ s = StagedMeta n) /\
                     exists i, idx <= i /\ i < idx + length shards /\ target n i = Some d).
Proof.
  revert idx fs. induction shards as [|s shards IH]; intros idx fs Hr Hlen.
  { exists fs. split_and!; [done|done|by apply evolves_refl]. }
  cbn [length] in Hlen. destruct (target_some n idx) as (d & Ht & Hd); [lia|].
  destruct (put_part_shard_ok fs d n s (meta idx s) Hr Hd) as (fs1 & E1 & Hv1 & Hm1 & Hin1 & Hev1).
  destruct (IH (S idx) fs1) as (fs2 & E2 & Hall & Hev2); [apply Hev1|lia|].
  exists fs2. cbn [put_shards]. unfold target in Ht. rewrite Ht, upload_dir_eq, (staging_eq d n), E1. cbn [fst snd].
  rewrite E2. cbn. split_and!; [done| |].
  - intros [|i] x Hx; cbn in Hx.
    + injection Hx as <-. exists d. rewrite Nat.add_0_r. fold (target n idx) in Ht.
      assert (Hun : forall t, t = Staged n \/ t = StagedMeta n -> view fs2 d t = view fs1 d t).
      { intros t _. apply (ev_view _ _ _ Hev2); [done|]. intros [_ (i & K1 & K2 & K3)].
        pose proof (target_inj n _ _ _ Ht K3). lia. }
      rewrite !Hun by auto. split_and!; [done..|by apply Hev2].
    + destruct (Hall i x Hx) as (d' & K1 & K2). exists d'. by rewrite Nat.add_succ_r.
  - eapply evolves_trans; [exact Hev1|exact Hev2|]. fold (target n idx) in Ht.
    intros d' t _ [[-> Ht']|[Ht' (i & K1 & K2 & K3)]]; (split; [done|]); [exists idx|exists i]; split_and!; (done || lia).
Qed.

(** Part [n] lies on all disks, in the slots [sp] and [sm]. *)
Definition holds (sp sm : Z -> slot) (fs : FS) (n : Z) (data : bytes) : Prop :=
  exists shards, coded dn pn data shards /\
    forall i s, shards !! i = Some s -> exists d, target n i = Some d /\ view fs d (sp n) = Some s /\
      view fs d (sm n) = to_json (part_meta dn pn n data i s).

Lemma part_shards_ok data : exists shards, part_shards dn pn data = Ok shards /\ coded dn pn data shards.
Proof.
  destruct (block_shards_coded dn pn Hdn Hrs data (replicate (dn + pn) [])) as (shards & _ & Hc);
    [by rewrite length_replicate|].
  exists shards. split; [|done]. unfold part_shards. case_bool_decide as Hpn.
  - rewrite Hrs by done. destruct (split_data data dn) as [|s0 ss] eqn:Es.
    { pose proof (length_split_data data dn) as Hl. rewrite Es in Hl. simpl in Hl. lia. }
    pose proof (split_data_sizes data dn) as Hs. rewrite Es in Hs. apply Forall_cons_1 in Hs as [Hs _].
    pose proof (coded_parity _ _ _ _ Hc Hpn) as He. rewrite Es in He. cbn [nth]. by rewrite Hs, He.
  - pose proof (coded_data _ _ _ _ Hc) as Hd. pose proof (coded_length _ _ _ _ Hc) as Hl.
    rewrite take_ge in Hd by lia. by rewrite <- Hd.
Qed.

(** The upload is registered on every disk. *)
Definition registered (um : UploadMeta) (fs : FS) : Prop := forall d, d ∈ disks -> view fs d Upload = to_json um.

Lemma names_ok : valid_names bucket key uid = Ok tt.
Proof. unfold valid_names. by rewrite (se_bucket Hse), (se_key Hse), (se_uid Hse). Qed.

Lemma disks_ne : disks <> [].
Proof. intros E. rewrite E in Htotal. cbn in Htotal. lia. Qed.

Lemma disks_cons : exists d ds, disks = d :: ds.
Proof. pose proof disks_ne. destruct disks as [|d ds]; [done|by exists d, ds]. Qed.

Lemma read_upload_ok um fs : registered um fs -> read_upload fs disks bucket key uid = Ok um.
Proof.
  intros Hreg. unfold read_upload. rewrite names_ok. cbn [mbind result_bind]. apply find_upload_ok; [apply disks_ne|done].
Qed.

Lemma put_part_ok um fs n data :
  roomy fs -> registered um fs -> um_data_dir um = data_dir ->
  exists fs', put_part disks dn pn bucket key uid n data fs =
      (fs', Ok (mkPartMeta n (as_u64 (N.of_nat (length data))) (md5_hex data))) /\
    holds Staged StagedMeta fs' n data /\ (forall d, d ∈ disks -> dir_of d (Staged n) ∈ fs_dirs fs') /\
    evolves fs fs' (fun _ s => s = Staged n \/ s = StagedMeta n).
Proof.
  intros Hr Hreg Hdd. destruct (part_shards_ok data) as (shards & Es & Hc). pose proof (coded_length _ _ _ _ Hc) as Hl.
  destruct (put_shards_ok n (part_meta dn pn n data) shards 0 fs Hr) as (fs' & E & Hall & Hev); [lia|].
  exists fs'. unfold put_part. rewrite names_ok, (read_upload_ok um fs Hreg). cbn [mbind result_bind].
  rewrite Es, Hdd. fold (dist n). rewrite E. cbn [fst snd mbind result_bind]. split_and!.
  - rewrite bool_decide_eq_false_2; [done|]. case_bool_decide; lia.
  - exists shards. split; [done|]. intros i x Hx. destruct (Hall i x Hx) as (d & K1 & K2 & K3 & _). by exists d.
  - intros d (i & Hi & Ht)%(target_onto n). destruct (lookup_lt_is_Some_2 shards i) as [x Hx]; [lia|].
    destruct (Hall i x Hx) as (d' & K1 & _ & _ & K4). cbn in K1. congruence.
  - eapply evolves_trans; [apply (evolves_refl fs (fun _ _ => False)); exact Hr|exact Hev|]. intros d t _ [[]|[Ht _]]. exact Ht.
Qed.

(** Parts put one after the other; a part put twice is replaced. *)
Fixpoint put_parts (ps : list (Z * bytes)) (fs : FS) : FS * Result unit :=
  match ps with
  | [] => (fs, Ok tt)
  | (n, data) :: rest =>
      let r := put_part disks dn pn bucket key uid n data fs in
      match r.2 with Ok _ => put_parts rest r.1 | Err e => (r.1, Err e) end
  end.

Definition uploaded (ps : list (Z * bytes)) (m : gmap Z bytes) : gmap Z bytes :=
  fold_left (fun m p => <[p.1 := p.2]> m) ps m.

(** What the staging area holds. *)
Record staged (um : UploadMeta) (m : gmap Z bytes) (fs : FS) : Prop := {
  sg_roomy : roomy fs;
  sg_registered : registered um fs;
  sg_parts : forall n data, m !! n = Some data -> holds Staged StagedMeta fs n data;
  sg_dirs : forall n data d, m !! n = Some data -> d ∈ disks -> dir_of d (Staged n) ∈ fs_dirs fs;
}.

Lemma target_disk n i d : target n i = Some d -> d ∈ disks.
Proof. intros (j & _ & Hj)%bind_Some. by eapply list_elem_of_lookup_2. Qed.

Lemma holds_evolves sp sm fs fs' t n data :
  evolves fs fs' t -> (forall d, ~ t d (sp n) /\ ~ t d (sm n)) -> holds sp sm fs n data -> holds sp sm fs' n data.
Proof.
  intros Hev Hn (shards & Hc & Hall). exists shards. split; [done|]. intros i x Hx.
  destruct (Hall i x Hx) as (d & K1 & K2 & K3). exists d. destruct (Hn d). pose proof (target_disk _ _ _ K1).
  by rewrite !(ev_view _ _ _ Hev).
Qed.

Lemma put_parts_ok um ps m fs :
  staged um m fs -> um_data_dir um = data_dir ->
  exists fs', put_parts ps fs = (fs', Ok tt) /\ staged um (uploaded ps m) fs'.
Proof.
  revert m fs. induction ps as [|[n data] ps IH]; intros m fs Hst Hdd; [by exists fs|].
  destruct (put_part_ok um fs n data) as (fs1 & E1 & Hh & Hdirs & Hev); [apply Hst|apply Hst|done|].
  destruct (IH (<[n := data]> m) fs1) as (fs2 & E2 & Hst2); [|done|].
  { split.
    - apply Hev.
    - intros d Hd. rewrite (ev_view _ _ _ Hev); [by apply (sg_registered _ _ _ Hst)|done|by intros []].
    - intros k x [[<- <-]|[Hne Hk]]%lookup_insert_Some; [done|].
      eapply holds_evolves; [exact Hev| |by apply Hst]. intros d. split; intros [E|E]; by simplify_eq.
    - intros k x d [[<- <-]|[Hne Hk]]%lookup_insert_Some Hd; [by apply Hdirs|].
      by eapply (ev_dirs _ _ _ Hev), sg_dirs. }
  exists fs2. cbn [put_parts]. rewrite E1. cbn [fst snd]. done.
Qed.

(** ** Listing *)

Lemma elem_of_file_entries fs d name : name ∈ file_entries fs d <-> is_Some (fs_files fs !! (d ++ [Normal name])).
Proof.
  unfold file_entries. rewrite list_elem_of_omap. split.
  - intros (p & Hp & Hc). unfold child_name in Hc. case_bool_decide as Ht; [|done].
    destruct (drop (length d) p) as [|[| | |m] [|? ?]] eqn:E; try done. injection Hc as ->.
    apply list_elem_of_fmap in Hp as ([q b] & -> & Hq%elem_of_map_to_list). cbn in *.
    rewrite <- (take_drop (length d) q), Ht, E in Hq. by eexists.
  - intros [b Hb]. exists (d ++ [Normal name]). split.
    + apply list_elem_of_fmap. exists (d ++ [Normal name], b). split; [done|]. by apply elem_of_map_to_list.
    + unfold child_name. by rewrite take_app_length, drop_app_length, bool_decide_eq_true_2.
Qed.

Lemma is_part_meta_file n : is_part_meta (part_meta_file n) = true.
Proof.
  unfold is_part_meta. apply andb_true_intro. split; [|apply part_prefix].
  unfold part_meta_file. rewrite !bytes_of_app, !rev_app_distr, <- app_assoc. apply prefixb_spec. by eexists.
Qed.

Lemma add_part_mono fs dp ps name p : p ∈ ps -> p ∈ add_part fs dp ps name.
Proof. intros Hp. unfold add_part. repeat case_match; try done. apply elem_of_app. by left. Qed.

Lemma fold_add_part fs dp names ps :
  (forall p, p ∈ ps -> p ∈ fold_left (add_part fs dp) names ps) /\
  (forall name data pm, name ∈ names -> is_part_meta name = true -> fs_read fs (push dp name) = Some data ->
     from_json data = Some pm -> exists p, p ∈ fold_left (add_part fs dp) names ps /\ pm_part_number p = pf_part_number pm).
Proof.
  revert ps. induction names as [|x names IH]; intros ps; [split; [done|set_solver]|].
  destruct (IH (add_part fs dp ps x)) as [Hmono Hnew]. cbn. split.
  { intros p Hp. apply Hmono. by apply add_part_mono. }
  intros name data pm [->|Hin]%elem_of_cons Hpm Hread Hj; [|by eapply Hnew].
  assert (Hadd : exists p, p ∈ add_part fs dp ps x /\ pm_part_number p = pf_part_number pm).
  { unfold add_part. rewrite Hpm, Hread. cbn. rewrite Hj. destruct (existsb _ ps) eqn:E.
    - apply existsb_exists in E as (p & Hp & Hn%bool_decide_eq_true). exists p. by rewrite list_elem_of_In.
    - eexists. split; [apply elem_of_app; right; by apply list_elem_of_singleton|done]. }
  destruct Hadd as (p & Hp & Hn). exists p. by split; [apply Hmono|].
Qed.

Lemma insert_part_perm p l : insert_part p l ≡ₚ p :: l.
Proof. induction l as [|q l IH]; cbn; [done|]. case_bool_decide; [done|]. rewrite IH. apply Permutation_swap. Qed.

Lemma sort_parts_perm l : sort_parts l ≡ₚ l.
Proof. induction l as [|p l IH]; cbn; [done|]. by rewrite insert_part_perm, IH. Qed.

Lemma find_parts_total fs ds : exists ps, find_parts fs ds bucket key uid data_dir = Ok ps.
Proof.
  induction ds as [|d ds [ps IH]]; [by exists []|]. cbn [find_parts]. rewrite upload_dir_eq. cbn [mbind result_bind].
  destruct (fs_is_dir _ _); [by eexists|]. by exists ps.
Qed.

(** Every staged part is listed. *)
Lemma list_parts_ok um m fs :
  staged um m fs -> um_data_dir um = data_dir ->
  exists ps, list_parts fs disks bucket key uid = Ok (um, ps) /\
    forall n, is_Some (m !! n) -> existsb (fun p => bool_decide (pm_part_number p = n)) ps = true.
Proof.
  intros Hst Hdd. unfold list_parts. rewrite names_ok, (read_upload_ok um) by apply Hst. cbn [mbind result_bind].
  rewrite Hdd. destruct (find_parts_total fs disks) as [ps E]. rewrite E. cbn. exists (sort_parts ps).
  split; [done|]. intros n [data Hn]. enough (Hex : exists p, p ∈ ps /\ pm_part_number p = n).
  { destruct Hex as (p & Hp & Hpn). apply existsb_exists. exists p. rewrite bool_decide_eq_true. split; [|done].
    apply list_elem_of_In. by rewrite sort_parts_perm. }
  destruct disks_cons as (d & ds & Eds). assert (Hd : d ∈ disks) by (rewrite Eds; set_solver).
  rewrite Eds in E. cbn [find_parts] in E. rewrite upload_dir_eq in E. cbn [mbind result_bind] in E.
  rewrite (staging_eq d n) in E. unfold fs_is_dir in E. rewrite bool_decide_eq_true_2 in E by by eapply sg_dirs.
  injection E as <-. destruct (sg_parts _ _ _ Hst n data Hn) as (shards & Hc & Hall).
  destruct (target_onto n d Hd) as (i & Hi & Ht).
  destruct (lookup_lt_is_Some_2 shards i) as [x Hx]; [by rewrite (coded_length _ _ _ _ Hc)|].
  destruct (Hall i x Hx) as (d' & K1 & _ & K3). assert (d' = d) as -> by congruence.
  destruct (json_reads_back (part_meta dn pn n data i x)) as (b & Hb & Hback). rewrite Hb in K3.
  destruct (proj2 (fold_add_part fs (dir_of d (Staged n)) (file_entries fs (dir_of d (Staged n))) [])
    (part_meta_file n) b (part_meta dn pn n data i x)) as (p & Hp & Hpn).
  - apply elem_of_file_entries. by exists b.
  - apply is_part_meta_file.
  - unfold fs_read. change (push _ _) with (push (dir_of d (StagedMeta n)) (slot_name (StagedMeta n))). by rewrite push_slot.
  - done.
  - by exists p.
Qed.

(** ** Completing *)

Lemma holds_on sp sm fs n data d :
  holds sp sm fs n data -> d ∈ disks ->
  exists i s, view fs d (sp n) = Some s /\ view fs d (sm n) = to_json (part_meta dn pn n data i s).
Proof.
  intros (shards & Hc & Hall) (i & Hi & Ht)%(target_onto n).
  destruct (lookup_lt_is_Some_2 shards i) as [s Hs]; [by rewrite (coded_length _ _ _ _ Hc)|].
  destruct (Hall i s Hs) as (d' & K1 & K2 & K3). exists i, s. replace d with d' by congruence. done.
Qed.

Lemma holds_copy sp sm sp' sm' fs fs' n data :
  (forall d, d ∈ disks -> view fs' d (sp' n) = view fs d (sp n) /\ view fs' d (sm' n) = view fs d (sm n)) ->
  holds sp sm fs n data -> holds sp' sm' fs' n data.
Proof.
  intros Hcopy (shards & Hc & Hall). exists shards. split; [done|]. intros i s Hs.
  destruct (Hall i s Hs) as (d & K1 & K2 & K3). exists d.
  destruct (Hcopy d (target_disk _ _ _ K1)) as [-> ->]. done.
Qed.

Lemma find_part_meta_ok fs n data :
  holds Staged StagedMeta fs n data ->
  exists i s, find_part_meta fs disks bucket key uid data_dir n = Ok (part_meta dn pn n data i s).
Proof.
  intros Hh. destruct disks_cons as (d & ds & Eds). assert (Hd : d ∈ disks) by (rewrite Eds; set_solver).
  destruct (holds_on _ _ _ _ _ d Hh Hd) as (i & s & _ & Hm). exists i, s. rewrite Eds. cbn [find_part_meta].
  rewrite upload_dir_eq. cbn [mbind result_bind]. rewrite (staging_eq d n).
  change (push _ (part_meta_file n)) with (push (dir_of d (StagedMeta n)) (slot_name (StagedMeta n))). rewrite push_slot.
  unfold fs_read. fold (view fs d (StagedMeta n)). rewrite Hm.
  destruct (json_reads_back (part_meta dn pn n data i s)) as (b & -> & Hb). cbn. by rewrite Hb.
Qed.

Definition moved (n : Z) (s : slot) : Prop := s = Staged n \/ s = StagedMeta n \/ s = Final n \/ s = FinalMeta n.

(** The two files of a part on one disk. *)
Lemma move_disk fs d n :
  roomy fs -> d ∈ disks -> is_Some (view fs d (Staged n)) -> is_Some (view fs d (StagedMeta n)) ->
  let fs1 := (mkdir_all (dir_of d ObjectJson) fs).1 in
  let fs2 := move_file (path_of d (Staged n)) (path_of d (Final n)) fs1 in
  let fs3 := move_file (path_of d (StagedMeta n)) (path_of d (FinalMeta n)) fs2 in
  view fs3 d (Final n) = view fs d (Staged n) /\ view fs3 d (FinalMeta n) = view fs d (StagedMeta n) /\
  evolves fs fs3 (fun d' s => d' = d /\ moved n s).
Proof.
  intros Hr Hd [x Hx] [y Hy] fs1 fs2 fs3. destruct (mkdir_slot fs d ObjectJson Hr Hd) as [Hin1 Hev1]. fold fs1 in Hin1, Hev1.
  assert (Hv1 : forall s, view fs1 d s = view fs d s) by (intros s; by apply (ev_view _ _ _ Hev1); [|intros []]).
  destruct (move_slot fs1 d (Staged n) (Final n) x) as [K2 Hev2]; [apply Hev1|done|done|by rewrite Hv1|done|].
  fold fs2 in K2, Hev2.
  destruct (move_slot fs2 d (StagedMeta n) (FinalMeta n) y) as [K3 Hev3]; [apply Hev2|done|done| |by apply Hev2|].
  { rewrite (ev_view _ _ _ Hev2), Hv1; [done|done|naive_solver]. }
  fold fs3 in K3, Hev3. split_and!.
  - rewrite (ev_view _ _ _ Hev3); [by rewrite K2, Hx|done|naive_solver].
  - by rewrite K3, Hy.
  - eapply evolves_trans; [exact Hev1|eapply evolves_trans; [exact Hev2|exact Hev3|]|].
    + intros d' s _ Hor. exact Hor.
    + unfold moved. naive_solver.
Qed.

Lemma move_part_ok n ds fs :
  roomy fs -> NoDup ds -> (forall d, d ∈ ds -> d ∈ disks) ->
  (forall d, d ∈ ds -> is_Some (view fs d (Staged n)) /\ is_Some (view fs d (StagedMeta n))) ->
  exists fs', move_part ds bucket key uid data_dir n fs = (fs', Ok tt) /\
    (forall d, d ∈ ds -> view fs' d (Final n) = view fs d (Staged n) /\ view fs' d (FinalMeta n) = view fs d (StagedMeta n)) /\
    evolves fs fs' (fun d s => d ∈ ds /\ moved n s).
Proof.
  revert fs. induction ds as [|d ds IH]; intros fs Hr Hnd Hin Hs.
  { exists fs. split_and!; [done|set_solver|by apply evolves_refl]. }
  apply NoDup_cons in Hnd as [Hni Hnd]. destruct (Hs d) as [S1 S2]; [set_solver|].
  destruct (move_disk fs d n) as (K1 & K2 & Hev1); [done|set_solver|done|done|]. set (fs1 := move_file _ _ _) in *.
  assert (Hsame : forall d' s, d' ∈ ds -> view fs1 d' s = view fs d' s).
  { intros d' s Hd'. apply (ev_view _ _ _ Hev1); [set_solver|]. intros [-> _]. done. }
  destruct (IH fs1) as (fs2 & E2 & Hv2 & Hev2); [apply Hev1|done|set_solver| |].
  { intros d' Hd'. rewrite !Hsame by done. apply Hs. set_solver. }
  exists fs2. cbn [move_part]. rewrite upload_dir_eq, object_dir_eq, (staging_eq d n).
  change (push (dir_of d (Staged n)) (part_file n)) with (push (dir_of d (Staged n)) (slot_name (Staged n))).
  change (push (dir_of d (Staged n)) (part_meta_file n)) with (push (dir_of d (StagedMeta n)) (slot_name (StagedMeta n))).
  change (push (dir_of d ObjectJson) (part_file n)) with (push (dir_of d (Final n)) (slot_name (Final n))).
  change (push (dir_of d ObjectJson) (part_meta_file n)) with (push (dir_of d (FinalMeta n)) (slot_name (FinalMeta n))).
  rewrite !push_slot. fold fs1. split_and!; [exact E2| |].
  - intros x [->|Hx]%elem_of_cons; [|by rewrite <- !Hsame by done; apply Hv2].
    rewrite !(ev_view _ _ _ Hev2); [done|set_solver|by intros [? _]|set_solver|by intros [? _]].
  - eapply evolves_trans; [exact Hev1|exact Hev2|]. intros ? ? _ [[-> ?]|[? ?]]; set_solver.
Qed.

(** The entry of part [n] in the object's metadata: its shard fields are those of some disk. *)
Definition entry_of (n : Z) (data : bytes) (e : PartEntry) : Prop :=
  exists i s, e = part_entry n (part_meta dn pn n data i s).

Lemma move_parts_ok (m : gmap Z bytes) req fs :
  roomy fs -> NoDup (map fst req) ->
  (forall r, r ∈ req -> exists data, m !! r.1 = Some data /\ holds Staged StagedMeta fs r.1 data) ->
  exists fs' entries, move_parts disks bucket key uid data_dir req fs = (fs', Ok entries) /\
    Forall2 (fun (r : Z * string) e => exists data, m !! r.1 = Some data /\ entry_of r.1 data e /\
               holds Final FinalMeta fs' r.1 data) req entries /\
    evolves fs fs' (fun d s => exists r, r ∈ req /\ moved r.1 s).
Proof.
  revert fs. induction req as [|[n t] req IH]; intros fs Hr Hnd Hreq.
  { exists fs, []. split_and!; [done|constructor|by apply evolves_refl]. }
  cbn [map fst] in Hnd. apply NoDup_cons in Hnd as [Hni Hnd].
  destruct (Hreq (n, t)) as (data & Hm & Hh); [set_solver|]. cbn [fst] in Hm, Hh.
  destruct (find_part_meta_ok fs n data Hh) as (i & s & Ef).
  destruct (move_part_ok n disks fs) as (fs1 & E1 & Hv1 & Hev1); [done|apply Hse|done| |].
  { intros d Hd. destruct (holds_on _ _ _ _ _ d Hh Hd) as (j & x & -> & ->).
    destruct (json_reads_back (part_meta dn pn n data j x)) as (b & -> & _). by split; eexists. }
  assert (Hne : forall r, r ∈ req -> r.1 <> n).
  { intros r Hin <-. apply Hni. apply list_elem_of_fmap. by exists r. }
  destruct (IH fs1) as (fs2 & entries & E2 & Hall & Hev2); [apply Hev1|done| |].
  { intros r Hin. destruct (Hreq r) as (x & Hx & Hhx); [set_solver|]. exists x. split; [done|].
    eapply holds_evolves; [exact Hev1| |exact Hhx]. intros d. pose proof (Hne r Hin). unfold moved. naive_solver. }
  exists fs2, (part_entry n (part_meta dn pn n data i s) :: entries). cbn [move_parts]. rewrite Ef, E1. cbn [fst snd].
  rewrite E2. cbn. split_and!; [done| |].
  - constructor; [|done]. exists data. cbn. split_and!; [done|by exists i, s|].
    eapply holds_evolves; [exact Hev2| |by eapply holds_copy]. intros d. unfold moved.
    split; intros ([k u] & Hin & Hk); pose proof (Hne _ Hin); cbn in *; naive_solver.
  - eapply evolves_trans; [exact Hev1|exact Hev2|]. intros d x _ [[_ Hx]|(r & Hin & Hx)];
      [exists (n, t)|exists r]; (split; [set_solver|done]).
Qed.

Context (Hjson : forall mf, is_Some (json_to_vec mf)).

Lemma write_metas_ok (meta : nat -> ObjectMeta) ds idx fs :
  roomy fs -> NoDup ds -> (forall d, d ∈ ds -> d ∈ disks) ->
  exists fs', write_metas ds bucket key meta idx fs = (fs', Ok (length ds)) /\
    (forall j d, ds !! j = Some d ->
       view fs' d ObjectJson = json_to_vec (mkObjectMetaFile bucket key [meta (idx + j)])) /\
    evolves fs fs' (fun d s => d ∈ ds /\ s = ObjectJson).
Proof.
  revert idx fs. induction ds as [|d ds IH]; intros idx fs Hr Hnd Hin.
  { exists fs. split_and!; [done|done|by apply evolves_refl]. }
  apply NoDup_cons in Hnd as [Hni Hnd]. assert (Hd : d ∈ disks) by set_solver.
  destruct (mkdir_slot fs d ObjectJson Hr Hd) as [Hin1 Hev1]. set (fs1 := (mkdir_all _ fs).1) in *.
  destruct (Hjson (mkObjectMetaFile bucket key [meta idx])) as [b Hb].
  destruct (put_slot fs1 d ObjectJson b) as (fs2 & E2 & Hv2 & Hev2); [apply Hev1|done|done|].
  destruct (IH (S idx) fs2) as (fs3 & E3 & Hv3 & Hev3); [apply Hev2|done|set_solver|].
  exists fs3. cbn [write_metas]. rewrite object_dir_eq. fold fs1.
  change (push (dir_of d ObjectJson) "meta.json") with (push (dir_of d ObjectJson) (slot_name ObjectJson)).
  unfold write_meta_json. rewrite push_slot, Hb, E2. cbn [fst snd is_ok]. rewrite E3. cbn. split_and!; [done| |].
  - intros [|j] x Hx; cbn in Hx.
    + injection Hx as <-. rewrite Nat.add_0_r, Hb, (ev_view _ _ _ Hev3); [done|done|by intros [? _]].
    + rewrite Nat.add_succ_r. by apply (Hv3 j).
  - eapply evolves_trans; [exact Hev1|eapply evolves_trans; [exact Hev2|exact Hev3|]|].
    + intros d' s _ Hor. exact Hor.
    + cbn. set_solver.
Qed.

(** Removing the staging directories removes what was staged, and keeps the object. *)
Lemma staging_below d d' s :
  d ∈ disks -> d' ∈ disks -> below (dir_of d Upload) (path_of d' s) = true <-> d = d' /\ zone s <> 2.
Proof.
  intros Hd Hd'. rewrite below_spec. split.
  - intros [r E]. assert (Heq : d = d').
    { rewrite path_of_eq in E. unfold dir_of in E. rewrite <- app_assoc in E.
      destruct (app_eq_app _ _ _ _ E) as (l & [[E1 _]|[E1 _]]).
      - by apply (se_apart Hse d d' l).
      - symmetry. by apply (se_apart Hse d' d l). }
    split; [done|]. subst d'. rewrite path_of_eq in E. unfold dir_of in E. rewrite <- app_assoc in E.
    apply app_inv_head in E. intros Hz. pose proof bucket_not_sys.
    destruct s; try done; cbn in E; injection E; congruence.
  - intros [<- Hz]. unfold path_of, dir_of.
    destruct s; try done; cbn [slot_dir]; [by eexists|..]; rewrite map_app; rewrite !app_assoc, <- app_assoc; by eexists.
Qed.

Lemma remove_staging_view ds fs d s :
  (forall x, x ∈ ds -> x ∈ disks) -> d ∈ disks ->
  view (remove_staging ds bucket key uid fs) d s = (if decide (d ∈ ds /\ zone s <> 2) then None else view fs d s).
Proof.
  intros Hin Hd. revert fs. unfold remove_staging. induction ds as [|x ds IH]; intros fs.
  { cbn. by rewrite decide_False by set_solver. }
  cbn [fold_left]. rewrite upload_dir_eq, IH by set_solver. unfold view at 1. rewrite remove_dir_all_lookup. fold (view fs d s).
  assert (Hb := staging_below x d s ltac:(set_solver) Hd).
  destruct (below (dir_of x Upload) (path_of d s)) eqn:B.
  - destruct (proj1 Hb eq_refl) as [-> Hz]. rewrite (decide_True (P := d ∈ d :: ds /\ _)) by set_solver. by case_decide.
  - assert (~ (x = d /\ zone s <> 2)) by (rewrite <- Hb; congruence).
    repeat case_decide; try done; set_solver.
Qed.

(** ** Reading *)

(** The reader takes the shard's index from the part's metadata file. *)
Definition part_index (b : bytes) : option nat := pm ← (from_json b : option PartFileMeta); Some (index (pf_erasure pm)).

Definition read_object (fs : FS) (avail : list string) (meta : ObjectMeta) : Result bytes :=
  read_and_decode_multipart id (fs_read fs) part_index avail bucket key meta.

Lemma disk_root_local d root : strip_local d = Some root -> disk_root d = components root.
Proof. unfold disk_root. by intros ->. Qed.

Section Part.
  Context (fs : FS) (n : Z) (data : bytes) (shards : list bytes) (e : PartEntry).
  Context (Hcoded : coded dn pn data shards) (Hnum : part_number e = n).
  Context (Hall : forall i s, shards !! i = Some s -> exists d, target n i = Some d /\ view fs d (Final n) = Some s /\
             view fs d (FinalMeta n) = to_json (part_meta dn pn n data i s)).

Lemma read_part_ok d :
  d ∈ disks -> exists i s, target n i = Some d /\ shards !! i = Some s /\
    read_part id (fs_read fs) part_index bucket key e d = Some (i, s).
Proof.
  intros Hd. destruct (target_onto n d Hd) as (i & Hi & Ht).
  destruct (lookup_lt_is_Some_2 shards i) as [s Hs]; [by rewrite (coded_length _ _ _ _ Hcoded)|].
  destruct (Hall i s Hs) as (d' & K1 & K2 & K3). assert (d' = d) as -> by congruence.
  exists i, s. split_and!; [done..|]. unfold read_part. cbn [id]. destruct (se_local Hse d Hd) as [root Hroot].
  rewrite Hroot. cbn [mbind option_bind]. rewrite <- (disk_root_local d root Hroot), object_dir_eq. cbn [result_ok mbind option_bind].
  rewrite Hnum. fold (part_meta_file n). fold (part_file n).
  change (push _ (part_meta_file n)) with (push (dir_of d (FinalMeta n)) (slot_name (FinalMeta n))).
  change (push _ (part_file n)) with (push (dir_of d (Final n)) (slot_name (Final n))).
  rewrite !push_slot. unfold fs_read. fold (view fs d (FinalMeta n)). fold (view fs d (Final n)). rewrite K2, K3.
  destruct (json_reads_back (part_meta dn pn n data i s)) as (b & -> & Hb). cbn. unfold part_index. rewrite Hb. done.
Qed.

Lemma part_slots_ok avail slots :
  (forall d, d ∈ avail -> d ∈ disks) -> erased shards slots ->
  let slots' := fold_left (fun slots d =>
      match read_part id (fs_read fs) part_index bucket key e d with
      | Some (i, x) => if bool_decide (i < dn + pn) then <[i := Some x]> slots else slots
      | None => slots
      end) avail slots in
  erased shards slots' /\ (forall i, is_Some (slots !! i ≫= id) -> is_Some (slots' !! i ≫= id)) /\
  (forall d i, d ∈ avail -> target n i = Some d -> is_Some (slots' !! i ≫= id)).
Proof.
  revert slots. induction avail as [|d avail IH]; intros slots Hin Her; [by split_and!; [|done|set_solver]|].
  cbn [fold_left]. destruct (read_part_ok d) as (i & s & Ht & Hs & ->); [set_solver|].
  pose proof (lookup_lt_Some _ _ _ Hs) as Hlt. rewrite (coded_length _ _ _ _ Hcoded) in Hlt.
  rewrite bool_decide_eq_true_2 by done.
  destruct (IH (<[i := Some s]> slots)) as (K1 & K2 & K3); [set_solver|by apply erased_insert|].
  pose proof (Forall2_length _ _ _ Her) as Hl. rewrite (coded_length _ _ _ _ Hcoded) in Hl.
  assert (Hnew : is_Some (<[i := Some s]> slots !! i ≫= id)) by (rewrite list_lookup_insert_eq by lia; cbn; eauto).
  split_and!; [done| |].
  - intros j Hj. apply K2. destruct (decide (j = i)) as [->|Hne]; [done|]. by rewrite list_lookup_insert_ne.
  - intros d' j [->|Hd']%elem_of_cons Hj; [|by eapply K3]. rewrite (target_inj n j i d) by done. by apply K2.
Qed.

(** The shards on distinct disks are distinct. *)
Lemma avail_indices avail :
  NoDup avail -> (forall d, d ∈ avail -> d ∈ disks) ->
  exists idxs, NoDup idxs /\ length idxs = length avail /\ Forall2 (fun d i => target n i = Some d) avail idxs.
Proof.
  induction avail as [|d avail IH]; intros Hnd Hin; [exists []; split_and!; [constructor|done|constructor]|].
  apply NoDup_cons in Hnd as [Hni Hnd]. destruct IH as (idxs & K1 & K2 & K3); [done|set_solver|].
  destruct (target_onto n d) as (i & _ & Hi); [set_solver|]. exists (i :: idxs). cbn.
  split_and!; [|by f_equal|by constructor]. apply NoDup_cons. split; [|done]. intros [j Hj]%list_elem_of_lookup.
  destruct (Forall2_lookup_r _ _ _ _ _ K3 Hj) as (d' & Hd' & Ht). apply Hni. replace d with d' by congruence.
  by eapply list_elem_of_lookup_2.
Qed.

Lemma decode_part_ok avail :
  entry_of n data e -> (N.of_nat (length data) < 2 ^ 64)%N -> (N.of_nat (dn + pn) < 2 ^ 64)%N ->
  NoDup avail -> (forall d, d ∈ avail -> d ∈ disks) -> dn <= length avail ->
  decode_part id (fs_read fs) part_index avail bucket key e = Ok data.
Proof.
  intros (i & s & He) Hsize Hdp Hnd Hin Hlen.
  assert (Edn : erasure_data (part_erasure e) = dn).
  { rewrite He. unfold erasure_data. cbn. rewrite length_map, length_seq, usize_sub_le; [lia|lia|done]. }
  assert (Epn : erasure_parity (part_erasure e) = pn) by by rewrite He.
  assert (Esz : N.to_nat (part_size e) = length data).
  { rewrite He. cbn [part_size part_entry pf_size part_meta]. by rewrite wrap_small, Nat2N.id. }
  unfold decode_part. rewrite Edn, Epn, Esz. unfold part_slots.
  destruct (part_slots_ok avail (replicate (dn + pn) None)) as (K1 & _ & K3); [done| |].
  { unfold erased. rewrite <- (coded_length _ _ _ _ Hcoded). clear. induction shards; constructor; [by left|done]. }
  set (slots := fold_left _ _ _) in *. destruct (avail_indices avail Hnd Hin) as (idxs & J1 & J2 & J3).
  assert (Hg : dn <= good_count slots).
  { etransitivity; [exact Hlen|]. rewrite <- J2. apply good_count_indices; [done|]. intros j [k Hk]%list_elem_of_lookup.
    destruct (Forall2_lookup_r _ _ _ _ _ J3 Hk) as (d & Hd & Ht). eapply K3; [by eapply list_elem_of_lookup_2|done]. }
  rewrite bool_decide_eq_false_2 by lia. by eapply rebuild_block.
Qed.

End Part.

(** ** The whole upload *)

(** The data asked for, in the order of the request. *)
Definition asked (m : gmap Z bytes) (req : list (Z * string)) : bytes :=
  concat (map (fun r => default [] (m !! r.1)) req).

Definition small (data : bytes) : Prop := (N.of_nat (length data) < 2 ^ 64)%N.

Lemma uploaded_small ps m n data :
  Forall (fun p => small p.2) ps -> (forall k x, m !! k = Some x -> small x) -> uploaded ps m !! n = Some data -> small data.
Proof.
  intros Hps. revert m. induction Hps as [|[k x] ps Hx _ IH]; intros m Hm; [by apply Hm|]. apply IH.
  intros k' x' [[<- <-]|[_ Hk]]%lookup_insert_Some; [done|by eapply Hm].
Qed.

Lemma create_upload_ok content_type md now fs :
  let um := mkUploadMeta uid bucket key content_type md now data_dir in
  roomy fs -> exists fs', create_upload disks bucket key content_type md uid data_dir now fs = (fs', Ok uid) /\ staged um ∅ fs'.
Proof.
  intros um Hr. destruct (json_reads_back um) as (json & Hj & _).
  destruct (create_on_ok json disks fs Hr) as (fs' & E & Hv & Hev); [done|].
  exists fs'. unfold create_upload. fold um. rewrite (se_bucket Hse), (se_key Hse), Hj. cbn [mbind result_bind].
  rewrite E. cbn [fst snd mbind result_bind]. rewrite bool_decide_eq_false_2 by lia. split; [done|].
  split; [apply Hev|intros d Hd; by rewrite Hv|done|done].
Qed.

Definition entries_hold (m : gmap Z bytes) (fs : FS) : list (Z * string) -> list PartEntry -> Prop :=
  Forall2 (fun r e => exists data, m !! r.1 = Some data /\ entry_of r.1 data e /\ holds Final FinalMeta fs r.1 data).

Lemma entries_size m fs req entries :
  entries_hold m fs req entries -> (forall n data, m !! n = Some data -> small data) ->
  foldr (fun p n => part_size p + n)%N 0%N entries = N.of_nat (length (asked m req)).
Proof.
  intros Hh Hsm. unfold asked. induction Hh as [|r e req entries (data & Hm & (i & s & ->) & _) _ IH]; [done|].
  cbn [foldr map concat part_size part_entry pf_size part_meta]. rewrite IH, Hm. cbn [default].
  rewrite wrap_small by by eapply Hsm. rewrite length_app. cbn. lia.
Qed.

Lemma entries_read m fs req entries avail :
  entries_hold m fs req entries -> (forall n data, m !! n = Some data -> small data) -> (N.of_nat (dn + pn) < 2 ^ 64)%N ->
  NoDup avail -> (forall d, d ∈ avail -> d ∈ disks) -> dn <= length avail ->
  decode_parts id (fs_read fs) part_index avail bucket key entries = Ok (asked m req).
Proof.
  intros Hh Hsm Hdp Hnd Hin Hlen. unfold asked.
  induction Hh as [|r e req entries (data & Hm & He & shards & Hc & Hall) _ IH]; [done|].
  cbn [decode_parts map concat]. rewrite (decode_part_ok fs r.1 data shards e); [|done| |done|done|by eapply Hsm|done..].
  - cbn [mbind result_bind]. rewrite IH, Hm. done.
  - by destruct He as (i & s & ->).
Qed.

Lemma entries_evolve m fs fs' req entries :
  (forall d n, d ∈ disks -> view fs' d (Final n) = view fs d (Final n) /\ view fs' d (FinalMeta n) = view fs d (FinalMeta n)) ->
  entries_hold m fs req entries -> entries_hold m fs' req entries.
Proof.
  intros Hv Hent. eapply Forall2_impl; [exact Hent|]. intros r e (data & Hm & He & Hh). exists data. split_and!; [done..|].
  eapply holds_copy; [|exact Hh]. intros d Hd. by apply Hv.
Qed.

Lemma complete_upload_ok um m req now fs :
  staged um m fs -> um_data_dir um = data_dir -> NoDup (map fst req) -> (forall r, r ∈ req -> is_Some (m !! r.1)) ->
  exists fs' entries info, complete_upload disks bucket key uid req now fs = (fs', Ok info) /\
    entries_hold m fs' req entries /\ info_size info = as_u64 (foldr (fun p n => part_size p + n)%N 0%N entries) /\
    (forall j d, disks !! j = Some d -> view fs' d ObjectJson =
       json_to_vec (mkObjectMetaFile bucket key [complete_meta um entries (final_etag req) now j])) /\
    (forall d, d ∈ disks -> view fs' d Upload = None).
Proof.
  intros Hst Hdd Hnd Hreq. destruct (list_parts_ok um m fs Hst Hdd) as (ps & El & Hav).
  destruct (move_parts_ok m req fs) as (fs1 & entries & E1 & Hent & Hev1); [apply Hst|done| |].
  { intros r Hr. destruct (Hreq r Hr) as [data Hm]. exists data. split; [done|by apply (sg_parts _ _ _ Hst)]. }
  destruct (write_metas_ok (complete_meta um entries (final_etag req) now) disks 0 fs1) as (fs2 & E2 & Hv2 & Hev2);
    [apply Hev1|apply Hse|done|].
  eexists (remove_staging disks bucket key uid fs2), entries, _. split_and!.
  - unfold complete_upload. rewrite names_ok. cbn [mbind result_bind]. rewrite El. rewrite (proj2 (forallb_forall _ _)).
    2:{ intros r Hr%list_elem_of_In. apply Hav. by apply Hreq. }
    cbn [negb]. rewrite Hdd, E1. cbn [fst snd]. rewrite E2. cbn [fst snd]. rewrite bool_decide_eq_false_2 by lia. done.
  - eapply (entries_evolve m fs1); [|exact Hent]. intros d n Hd.
    rewrite !remove_staging_view by done. rewrite !decide_False by by intros [_ []].
    by rewrite !(ev_view _ _ _ Hev2) by (done || by intros [_ ?]).
  - done.
  - intros j d Hj. rewrite remove_staging_view; [|done|by eapply list_elem_of_lookup_2].
    rewrite decide_False by by intros [_ []]. by apply (Hv2 j).
  - intros d Hd. rewrite remove_staging_view by done. by rewrite decide_True.
Qed.

(** C9: an upload is created, its parts are put (a part put again is replaced), and it is
    completed with any choice of distinct uploaded parts: all of it succeeds, every disk gets
    an object whose metadata has the size of the chosen data, nothing of the upload's
    registration stays behind, and from any [data] disks the object reads back as the chosen
    parts in the order of the request. *)
Theorem multipart_roundtrip content_type md now later ps req fs avail :
  roomy fs -> Forall (fun p => small p.2) ps -> (N.of_nat (dn + pn) < 2 ^ 64)%N ->
  NoDup (map fst req) -> (forall r, r ∈ req -> is_Some (uploaded ps ∅ !! r.1)) ->
  NoDup avail -> (forall d, d ∈ avail -> d ∈ disks) -> dn <= length avail ->
  let data := asked (uploaded ps ∅) req in
  exists fs1 fs2 fs3 info (meta : nat -> ObjectMeta),
    create_upload disks bucket key content_type md uid data_dir now fs = (fs1, Ok uid) /\
    put_parts ps fs1 = (fs2, Ok tt) /\
    complete_upload disks bucket key uid req later fs2 = (fs3, Ok info) /\
    info_size info = as_u64 (N.of_nat (length data)) /\
    (forall j d, disks !! j = Some d ->
       fs_read fs3 (path_of d ObjectJson) = json_to_vec (mkObjectMetaFile bucket key [meta j]) /\
       size (meta j) = info_size info /\ etag (meta j) = final_etag req /\ index (erasure (meta j)) = j /\
       read_object fs3 avail (meta j) = Ok data) /\
    (forall d, d ∈ disks -> fs_read fs3 (path_of d Upload) = None).
Proof.
  intros Hr Hps Hdp Hnd Hreq Hna Hin Hlen data.
  destruct (create_upload_ok content_type md now fs Hr) as (fs1 & E1 & Hst1). set (um := mkUploadMeta _ _ _ _ _ _ _) in *.
  destruct (put_parts_ok um ps ∅ fs1 Hst1 eq_refl) as (fs2 & E2 & Hst2).
  destruct (complete_upload_ok um _ req later fs2 Hst2 eq_refl Hnd Hreq) as (fs3 & entries & info & E3 & Hent & Hsz & Hmeta & Hgone).
  assert (Hsm : forall n x, uploaded ps ∅ !! n = Some x -> small x) by (intros n x; by apply uploaded_small).
  exists fs1, fs2, fs3, info, (complete_meta um entries (final_etag req) later).
  rewrite (entries_size _ _ _ _ Hent Hsm) in Hsz. split_and!; [done..| |done].
  intros j d Hj. split_and!; [by apply Hmeta| |done|done|].
  - cbn. by rewrite (entries_size _ _ _ _ Hent Hsm), Hsz.
  - by apply (entries_read _ fs3 req entries avail Hent Hsm).
Qed.

End Ops.

End Table.

(** ** A concrete upload: three disks, two of them enough *)

Global Instance UploadMeta_eq_dec : EqDecision UploadMeta.
Proof. solve_decision. Defined.
Global Instance UploadMeta_countable : Countable UploadMeta.
Proof.
  refine (inj_countable' (fun m => (um_upload_id m, um_bucket m, um_key m, um_content_type m, um_user_metadata m,
                                    um_created_at m, um_data_dir m))
            (fun '(a, b, c, d, e, f, g) => mkUploadMeta a b c d e f g) _). by intros [].
Defined.
Global Instance PartFileMeta_eq_dec : EqDecision PartFileMeta.
Proof. solve_decision. Defined.
Global Instance PartFileMeta_countable : Countable PartFileMeta.
Proof.
  refine (inj_countable' (fun m => (pf_part_number m, pf_size m, pf_etag m, pf_erasure m, pf_checksum m))
            (fun '(a, b, c, d, e) => mkPartFileMeta a b c d e) _). by intros [].
Defined.

Section Example.
  Local Existing Instances example_hashes xor_code xor_code_ok two_uuids digit_codec.

Definition demo_disks : list string := ["local:/d1"; "local:/d2"; "local:/d3"].

Lemma demo_setting : setting demo_disks "photos" "a/b" "v1" "parts".
Proof.
  split; try done; try by_decide; unfold demo_disks.
  - intros d Hd. repeat (apply elem_of_cons in Hd as [->|Hd]; [by eexists|]). by apply not_elem_of_nil in Hd.
  - intros d d' r Hd Hd'. repeat (apply elem_of_cons in Hd as [->|Hd];
      [repeat (apply elem_of_cons in Hd' as [->|Hd']; [by vm_compute|]); by apply not_elem_of_nil in Hd'|]).
    by apply not_elem_of_nil in Hd.
Qed.

Definition demo_parts : list (Z * bytes) := [(1%Z, bytes_of "old"); (2%Z, bytes_of "world"); (1%Z, bytes_of "hello ")].
Definition demo_request : list (Z * string) := [(1%Z, "e1"); (2%Z, "e2")].
Definition demo_avail : list string := ["local:/d3"; "local:/d1"].

Lemma multipart_roundtrip_witness :
  let J1 := countable_json UploadMeta in let J2 := countable_json PartFileMeta in
  exists fs1 fs2 fs3 info meta,
    create_upload demo_disks "photos" "a/b" "text/plain" ∅ "v1" "parts" 7 (mkFS ∅ ∅) = (fs1, Ok "v1") /\
    put_parts demo_disks "photos" "a/b" "v1" 2 1 demo_parts fs1 = (fs2, Ok tt) /\
    complete_upload demo_disks "photos" "a/b" "v1" demo_request 9 fs2 = (fs3, Ok info) /\
    info_size info = 11%N /\ read_object "photos" "a/b" fs3 demo_avail meta = Ok (bytes_of "hello world").
Proof.
  intros J1 J2.
  destruct (@multipart_roundtrip _ demo_disks "photos" "a/b" "v1" "parts" demo_setting _ _ _ _ J1 J2
    (countable_json_ok _) (countable_json_ok _) 2 1 ltac:(lia) eq_refl (fun _ => eq_refl) (fun mf => ex_intro _ _ eq_refl)
    "text/plain" ∅ 7%N 9%N demo_parts demo_request (mkFS ∅ ∅) demo_avail)
    as (fs1 & fs2 & fs3 & info & meta & E1 & E2 & E3 & E4 & E5 & _).
  - intros d s _. split; [intros q _; apply lookup_empty|set_solver].
  - repeat constructor.
  - done.
  - cbn. rewrite !NoDup_cons. repeat split; try apply not_elem_of_nil; [|constructor].
    intros Hin%list_elem_of_singleton. done.
  - intros r Hr. repeat (apply elem_of_cons in Hr as [->|Hr]; [by vm_compute; eexists|]). by apply not_elem_of_nil in Hr.
  - unfold demo_avail. rewrite !NoDup_cons, not_elem_of_cons. repeat split; try apply not_elem_of_nil; [done|constructor].
  - unfold demo_avail, demo_disks. set_solver.
  - cbn. lia.
  - exists fs1, fs2, fs3, info, (meta 0). split_and!; [done..|]. by apply (E5 0 "local:/d1").
Defined.

End Example.
