(* ===== verification/Internode.v ===== *)
(** What the nodes of a cluster say to each other: HTTP messages, the tokens and clocks
    that authenticate them ([src/storage/internode_auth.rs]), and how an error crosses
    the wire ([storage_error_response] of [src/storage/storage_server.rs] and
    [parse_error] of [src/storage/remote_volume.rs]).

    The HTTP, URL and JWT crates are the classes [Http] and [Jwt]; a clock reads
    nanoseconds since the epoch, or [None] when it stands before it. *)

From Stdlib Require Import Ascii.
From stdpp Require Import base list gmap strings numbers pretty.
From S2P Require Import Prelude Metadata Pathing Config.

Open Scope string_scope.
Open Scope list_scope.

(** ** Tokens *)

Record Claims : Type := mkClaims {
  cl_access_key : string;
  cl_iat : N;
  cl_exp : N;
}.

Definition TOKEN_LIFETIME_SECS : N := 900.
Definition MAX_CLOCK_SKEW_SECS : N := 900.
Definition NANOS : N := 1000000000.

(** [unix_now], as the clock's reading in nanoseconds. *)
Definition unix_now (clock : option N) : result string N := ok_or clock "system clock before epoch".

(** jsonwebtoken with HS256; the second argument of [jwt_decode] is the clock the crate
    reads. *)
Class Jwt : Type := {
  jwt_encode : string -> Claims -> result string string;
  jwt_decode : string -> option N -> string -> result string Claims;
}.

(** The crate's leeway for the expiry of a token, in seconds. *)
Definition JWT_LEEWAY : N := 60.

(** Characters a header may hold whatever the implementation. *)
Definition visible (c : byte) : bool := in_range 32 126 c.
Definition visible_str (s : string) : bool := forallb visible (bytes_of s).

Class JwtOk `{Jwt} : Prop := {
  jwt_signs : forall secret c, exists tok, jwt_encode secret c = Ok tok /\ visible_str tok = true;
  jwt_accepts : forall secret c tok now, jwt_encode secret c = Ok tok ->
    (now / NANOS <= cl_exp c + JWT_LEEWAY)%N -> jwt_decode secret (Some now) tok = Ok c;
  jwt_expires : forall secret c tok now, jwt_encode secret c = Ok tok ->
    (cl_exp c + JWT_LEEWAY < now / NANOS)%N -> is_ok (jwt_decode secret (Some now) tok) = false;
}.

Section Auth.
  Context `{Jwt}.

Definition sign_token (access_key secret_key : string) (clock : option N) : result string string :=
  now ← unix_now clock;
  let now := (now / NANOS)%N in
  jwt_encode secret_key (mkClaims access_key now (as_u64 (now + TOKEN_LIFETIME_SECS))).

Definition validate_token (token expected_access_key secret_key : string) (clock : option N) : result string unit :=
  claims ← jwt_decode secret_key clock token;
  if negb (bool_decide (cl_access_key claims = expected_access_key)) then Err "access key mismatch" else Ok tt.

Definition validate_clock_skew (remote_nanos : string) (clock : option N) : result string unit :=
  remote ← ok_or (parse_u64 (bytes_of remote_nanos)) "invalid timestamp";
  local ← unix_now clock;
  let local := as_u64 local in
  let diff := if bool_decide (local < remote)%N then (remote - local)%N else (local - remote)%N in
  let diff_secs := (diff / NANOS)%N in
  if bool_decide (MAX_CLOCK_SKEW_SECS < diff_secs)%N
  then Err ("clock skew " +:+ pretty diff_secs +:+ "s exceeds " +:+ pretty MAX_CLOCK_SKEW_SECS +:+ "s limit")
  else Ok tt.

Definition current_time_nanos (clock : option N) : string :=
  match unix_now clock with Ok d => pretty d | Err _ => "0" end.

End Auth.

(** ** Messages *)

(** A request as the server sees it: the path and the query of its URL, its headers and
    its body.  The server looks at the path, never at the verb. *)
Record Request : Type := mkRequest {
  rq_path : string;
  rq_query : string;
  rq_headers : gmap string string;
  rq_body : bytes;
}.

Record Response : Type := mkResponse {
  rp_status : N;
  rp_headers : gmap string string;
  rp_body : bytes;
}.

Definition is_success (r : Response) : bool := bool_decide (200 <= rp_status r < 300)%N.

(** hyper, reqwest and form_urlencoded: which header values can be sent, which can be
    read as text, the path of a URL, the encoding of a query and the text of a status. *)
Class Http : Type := {
  header_ok : string -> bool;
  to_str : string -> option string;
  url_path : string -> string;
  form_encode : list (string * string) -> string;
  form_parse : string -> list (string * string);
  status_display : N -> string;
}.

Definition host_char (c : byte) : bool :=
  is_digit c || in_range 97 122 c || Ascii.eqb c "." || Ascii.eqb c ":" || Ascii.eqb c "-".
Definition path_char (c : byte) : bool := host_char c || Ascii.eqb c "/" || Ascii.eqb c "_".

(** [http://host:port], with no path. *)
Definition is_origin (e : string) : Prop :=
  exists host, e = "http://" +:+ host /\ forallb host_char (bytes_of host) = true /\ host <> "".

Class HttpOk `{Http} : Prop := {
  header_visible : forall s, visible_str s = true -> header_ok s = true /\ to_str s = Some s;
  to_str_same : forall s t, to_str s = Some t -> t = s;
  url_origin : forall e p, is_origin e -> starts_with "/" p = true -> forallb path_char (bytes_of p) = true ->
    url_path (e +:+ p) = p;
  form_roundtrip : forall l, form_parse (form_encode l) = l;
}.

(** serde_json on the error object, and the text of its errors. *)
Class ErrorJson : Type := {
  error_json : string -> bytes;
  error_of : bytes -> option string;
  decode_error : bytes -> string;
}.
Class ErrorJsonOk `{ErrorJson} : Prop := error_reads_back : forall m, error_of (error_json m) = Some m.

(** ** Errors on the wire *)

(** The [Display] of [StorageError]. *)
Definition display (e : StorageError) : string :=
  match e with
  | BucketNotFound => "bucket not found"
  | ObjectNotFound => "object not found"
  | BucketExists => "bucket already exists"
  | BucketNotEmpty => "bucket not empty"
  | WriteQuorum => "write quorum not met"
  | ReadQuorum => "read quorum not met"
  | Bitrot => "bitrot detected"
  | InvalidConfig m => "invalid config: " +:+ m
  | Io m => "io error: " +:+ m
  | InvalidBucketName n => "invalid bucket name: " +:+ n
  | InvalidObjectKey k => "invalid object key or prefix: " +:+ k
  | InvalidVersionId v => "invalid version id: " +:+ v
  | InvalidUploadId u => "invalid upload id: " +:+ u
  | Internal m => "internal error: " +:+ m
  end.

Definition error_status (e : StorageError) : N :=
  match e with
  | BucketNotFound | ObjectNotFound => 404
  | BucketExists | BucketNotEmpty => 409
  | InvalidConfig _ | InvalidBucketName _ | InvalidObjectKey _ | InvalidVersionId _ | InvalidUploadId _ => 400
  | _ => 500
  end.

Section Wire.
  Context `{Http} `{ErrorJson}.

(** A header that cannot be sent makes the builder fail; the fallback has status 200. *)
Definition build_response (status : N) (headers : gmap string string) (body : bytes) : Response :=
  if forallb (fun h : string * string => header_ok h.2) (map_to_list headers)
  then mkResponse status headers body
  else mkResponse 200 ∅ (bytes_of "internal error").

Definition error_response (status : N) (msg : string) : Response :=
  build_response status {["content-type" := "application/json"]} (error_json msg).

Definition ok_empty : Response := build_response 200 ∅ [].

Definition storage_error_response (e : StorageError) : Response := error_response (error_status e) (display e).

Definition json_response {A : Type} `{Json A} (a : A) : Response :=
  build_response 200 {["content-type" := "application/json"]} (default (bytes_of "{}") (to_json a)).

(** [parse_error]. *)
Definition parse_error (resp : Response) : StorageError :=
  let status := rp_status resp in
  let msg := default (string_of (rp_body resp)) (error_of (rp_body resp)) in
  if bool_decide (status = 404)%N then
    if contains "bucket" msg then BucketNotFound else ObjectNotFound
  else if bool_decide (status = 400)%N && contains "invalid bucket name" msg then InvalidBucketName msg
  else if bool_decide (status = 400)%N && contains "invalid object key" msg then InvalidObjectKey msg
  else if bool_decide (status = 400)%N && contains "invalid version id" msg then InvalidVersionId msg
  else if bool_decide (status = 400)%N && contains "invalid upload id" msg then InvalidUploadId msg
  else if bool_decide (status = 409)%N then
    if contains "not empty" msg then BucketNotEmpty else BucketExists
  else Io msg.

(** An error of a volume as its remote client sees it. *)
Definition remote_view (e : StorageError) : StorageError := parse_error (storage_error_response e).

End Wire.

(** ** Lemmas *)

Lemma dec_value_go n s :
  fold_left (fun acc b => acc * 10 + (byte_val b - 48))%N (bytes_of (pretty_N_go n s)) 0%N =
  fold_left (fun acc b => acc * 10 + (byte_val b - 48))%N (bytes_of s) n.
Proof.
  revert s. induction (N.lt_wf_0 n) as [n _ IH]; intros s.
  destruct (decide (n = 0)%N) as [->|Hn]; [done|]. rewrite pretty_N_go_step by lia.
  rewrite IH by (apply N.div_lt; lia). cbn [String.list_ascii_of_string fold_left]. f_equal.
  assert (Hc : forall d, (d < 10)%N -> (byte_val (pretty_N_char d) - 48)%N = d).
  { intros d Hd. assert (In d (map N.of_nat (seq 0 10))) as Hin.
    { apply in_map_iff. exists (N.to_nat d). split; [lia|]. apply in_seq. lia. }
    repeat (destruct Hin as [<-|Hin]; [reflexivity|]). done. }
  rewrite Hc by (apply N.mod_lt; lia). pose proof (N.div_mod n 10). lia.
Qed.

Lemma dec_value_pretty (n : N) : dec_value (bytes_of (pretty n)) = n.
Proof. unfold pretty, pretty_N, dec_value. case_decide as E; [by rewrite E|]. apply dec_value_go. Qed.

Lemma pretty_digits (n : N) : forallb is_digit (bytes_of (pretty n)) = true.
Proof. apply forallb_forall. intros x Hx%list_elem_of_In. pose proof (pretty_N_decimal n) as Hd. unfold decimal in Hd.
  rewrite Forall_forall in Hd. by apply Hd. Qed.

Lemma pretty_nonempty (n : N) : bytes_of (pretty n) <> [].
Proof.
  intros E. assert (pretty n = "") as E' by by apply bytes_of_inj.
  destruct (decide (n = 0)%N) as [->|Hn]; [done|]. pose proof (dec_value_pretty n) as Hd. rewrite E in Hd. cbn in Hd. lia.
Qed.

Lemma parse_pretty (n : N) : (n < 2 ^ 64)%N -> parse_u64 (bytes_of (pretty n)) = Some n.
Proof.
  intros Hn. rewrite <- (dec_value_pretty n) at 2. apply number_ok_parse. split_and!; [apply pretty_nonempty|apply pretty_digits|].
  by rewrite dec_value_pretty.
Qed.

Lemma visible_app a b : visible_str (a +:+ b) = visible_str a && visible_str b.
Proof. unfold visible_str. by rewrite bytes_of_app, forallb_app. Qed.

Lemma visible_pretty (n : N) : visible_str (pretty n) = true.
Proof.
  unfold visible_str. apply forallb_forall. intros x Hx. pose proof (proj1 (forallb_forall _ _) (pretty_digits n) x Hx) as Hd.
  unfold is_digit, visible, in_range in *. apply andb_prop in Hd as [H1 H2]. rewrite N.leb_le in *.
  apply andb_true_intro. rewrite !N.leb_le. lia.
Qed.

Section AuthLemmas.
  Context `{Jwt} `{!JwtOk}.

(** A request's time is accepted when the two clocks are at most fifteen minutes apart. *)
Lemma clock_skew_exact c s :
  (c < 2 ^ 64)%N -> (s < 2 ^ 64)%N ->
  is_ok (validate_clock_skew (current_time_nanos (Some c)) (Some s)) =
  bool_decide ((N.max c s - N.min c s) / NANOS <= MAX_CLOCK_SKEW_SECS)%N.
Proof.
  intros Hc Hs. unfold validate_clock_skew, current_time_nanos. cbn [unix_now ok_or]. rewrite parse_pretty by done.
  cbn [ok_or mbind result_bind]. rewrite wrap_small by done.
  assert (E : (if bool_decide (s < c) then c - s else s - c)%N = (N.max c s - N.min c s)%N) by (case_bool_decide; lia).
  rewrite E. set (d := ((N.max c s - N.min c s) / NANOS)%N). destruct (bool_decide_reflect (MAX_CLOCK_SKEW_SECS < d)%N).
  - by rewrite bool_decide_eq_false_2 by lia.
  - by rewrite bool_decide_eq_true_2 by lia.
Qed.

(** A token is accepted by whoever has the two keys, until a minute after it expires. *)
Lemma token_exact key key' secret c s tok :
  (c / NANOS + TOKEN_LIFETIME_SECS < 2 ^ 64)%N -> sign_token key secret (Some c) = Ok tok ->
  is_ok (validate_token tok key' secret (Some s)) =
  bool_decide (key = key') && bool_decide (s / NANOS <= c / NANOS + TOKEN_LIFETIME_SECS + JWT_LEEWAY)%N.
Proof.
  intros Hc E. unfold sign_token in E. cbn [unix_now ok_or mbind result_bind] in E. rewrite wrap_small in E by done.
  unfold validate_token. destruct (bool_decide_reflect (s / NANOS <= c / NANOS + TOKEN_LIFETIME_SECS + JWT_LEEWAY)%N) as [Hle|Hgt].
  - rewrite (jwt_accepts _ _ _ s E) by (cbn; lia). cbn [mbind result_bind cl_access_key].
    destruct (bool_decide_reflect (key = key')); done.
  - rewrite andb_false_r. pose proof (jwt_expires _ _ _ s E) as Hx. cbn in Hx.
    destruct (jwt_decode secret (Some s) tok); [|done]. specialize (Hx ltac:(lia)). done.
Qed.

End AuthLemmas.

Section WireLemmas.
  Context `{Http} `{!HttpOk} `{ErrorJson} `{!ErrorJsonOk}.

Definition headers_visible (h : gmap string string) : Prop := map_Forall (fun _ x => visible_str x = true) h.

Lemma headers_ok h : headers_visible h -> forallb (fun x : string * string => header_ok x.2) (map_to_list h) = true.
Proof.
  intros Hv. apply forallb_forall. intros [k x] Hx%list_elem_of_In%elem_of_map_to_list. by apply header_visible, (Hv k).
Qed.

Lemma build_response_ok status h body : headers_visible h -> build_response status h body = mkResponse status h body.
Proof. intros Hv. unfold build_response. by rewrite headers_ok. Qed.

Lemma visible_one k x : visible_str x = true -> headers_visible {[k := x]}.
Proof. intros Hx. by apply map_Forall_singleton. Qed.

Lemma error_response_ok status msg :
  error_response status msg = mkResponse status {["content-type" := "application/json"]} (error_json msg).
Proof. apply build_response_ok. by apply visible_one. Qed.

Lemma ok_empty_ok : ok_empty = mkResponse 200 ∅ [].
Proof. apply build_response_ok, map_Forall_empty. Qed.

Lemma json_response_ok {A} `{Json A} (a : A) :
  json_response a = mkResponse 200 {["content-type" := "application/json"]} (default (bytes_of "{}") (to_json a)).
Proof. apply build_response_ok. by apply visible_one. Qed.

Lemma error_not_success e : is_success (storage_error_response e) = false.
Proof. unfold storage_error_response. rewrite error_response_ok. by destruct e. Qed.

Lemma contains_app p s : contains p (p +:+ s) = true.
Proof.
  unfold contains. rewrite bytes_of_app. destruct (bytes_of p ++ bytes_of s) as [|x l] eqn:E; cbn [containsb].
  - apply app_nil in E as [-> _]. done.
  - apply orb_true_intro. left. rewrite <- E. apply prefixb_spec. by eexists.
Qed.

End WireLemmas.

(** ** Errors on the wire *)

Section ErrorTheorem.
  Context `{Http} `{!HttpOk} `{ErrorJson} `{!ErrorJsonOk}.

(** What a client makes of the error of a remote volume: the errors the store decides
    on (an object or bucket that is missing, exists or is not empty) arrive as they are; a
    refused bucket name arrives as one, a refused key too unless its text mentions a bucket
    name; a failure of the disk, a quorum or bitrot arrives as an I/O error with its text. *)
Theorem errors_cross_the_wire e :
  match e with
  | BucketNotFound | ObjectNotFound | BucketExists | BucketNotEmpty => remote_view e = e
  | InvalidBucketName _ => remote_view e = InvalidBucketName (display e)
  | InvalidObjectKey _ =>
      remote_view e = (if contains "invalid bucket name" (display e) then InvalidBucketName else InvalidObjectKey) (display e)
  | InvalidVersionId _ =>
      contains "invalid bucket name" (display e) = false -> contains "invalid object key" (display e) = false ->
      remote_view e = InvalidVersionId (display e)
  | WriteQuorum | ReadQuorum | Bitrot | Io _ | Internal _ => remote_view e = Io (display e)
  | InvalidConfig _ | InvalidUploadId _ => error_status e = 400%N
  end.
Proof.
  assert (Hv : remote_view e = parse_error (mkResponse (error_status e) {["content-type" := "application/json"]} (error_json (display e)))).
  { unfold remote_view, storage_error_response. by rewrite error_response_ok. }
  unfold parse_error in Hv. cbn [rp_status rp_body] in Hv. rewrite error_reads_back in Hv. cbn [default] in Hv.
  assert (Hpre : forall p q s, contains p (p +:+ q +:+ s) = true).
  { intros p q s. apply contains_app. }
  destruct e as [| | | | | | |m|m|n|k|v|u|m]; cbn [error_status] in Hv; cbn -[contains display] in Hv; try exact Hv.
  all: try (rewrite Hv; vm_compute; reflexivity).
  all: change (bool_decide (400%N = 404%N)) with false in Hv; change (bool_decide (400%N = 400%N)) with true in Hv.
  all: cbn [andb] in Hv; try reflexivity; rewrite Hv.
  - rewrite (Hpre "invalid object key" " or prefix: " k : contains _ (display (InvalidObjectKey k)) = true).
    by destruct (contains _ _).
  - intros -> ->. by rewrite (Hpre "invalid version id" ": " v : contains _ (display (InvalidVersionId v)) = true).
Qed.

End ErrorTheorem.
