(* ===== verification/StorageServer.v ===== *)
(** The server side of a volume ([src/storage/storage_server.rs]): it authenticates a
    request, finds the volume it names, checks the names it carries, runs the operation
    on the local volume and turns the outcome into a response.  It also holds replicas of
    other nodes' write caches and passes raft messages on.

    A handler returns the server and the response; [None] is a panic of the local volume.
    An early return is an [Err] that holds the response ([respond]).  A body that breaks
    off is not modelled.  What the disk reports of itself ([info], the creation time of a
    bucket) and openraft are parameters. *)

From Stdlib Require Import Ascii.
From stdpp Require Import base list gmap strings numbers pretty.
From S2P Require Import Prelude Metadata Needle Segment Pathing Wal Materialize RaftFsm FileSys LocalVolume.
From S2P Require Import Caches Config Internode.

Open Scope string_scope.
Open Scope list_scope.

(** The three raft messages, the crate's types for them, and the node behind [raft]. *)
Inductive RaftRpc : Type := AppendEntries | Vote | InstallSnapshot.

Class RaftNode (R : Type) : Type := {
  rpc_request : RaftRpc -> Type;
  rpc_reply : RaftRpc -> Type;
  rpc_decode : forall m, bytes -> result string (rpc_request m);
  rpc_encode : forall m, rpc_reply m -> result string bytes;
  raft_handle : forall m, R -> rpc_request m -> R * result string (rpc_reply m);
}.

Record StorageServer (R : Type) : Type := mkStorageServer {
  ss_volumes : gmap string LocalVolume;
  ss_access_key : string;
  ss_secret_key : string;
  ss_no_auth : bool;
  ss_write_cache : option WriteCache.WriteCache;
  ss_raft : option R;
}.
Arguments mkStorageServer {R}.
Arguments ss_volumes {R}.
Arguments ss_access_key {R}.
Arguments ss_secret_key {R}.
Arguments ss_no_auth {R}.
Arguments ss_write_cache {R}.
Arguments ss_raft {R}.

(** The server's clocks: [SystemTime], the log's timestamps and [Instant]. *)
Record ServerTime : Type := mkServerTime {
  st_unix : option N;
  st_log : N;
  st_instant : N;
}.

Inductive Endpoint : Type :=
| EInfo | EWriteShard | EReadShard | EDeleteObject | EStatObject | EListObjects | EListBuckets
| EMakeBucket | EDeleteBucket | EBucketExists | EBucketCreatedAt | EUpdateMeta | EReadMetaVersions
| EWriteMetaVersions | EWriteVersionedShard | EReadVersionedShard | EDeleteVersionData
| EReadBucketSettings | EWriteBucketSettings | ECacheReplicate | ECacheSync | ERaft (m : RaftRpc).

Definition endpoints : list (string * Endpoint) :=
  [("/info", EInfo); ("/write-shard", EWriteShard); ("/read-shard", EReadShard);
   ("/delete-object", EDeleteObject); ("/stat-object", EStatObject); ("/list-objects", EListObjects);
   ("/list-buckets", EListBuckets); ("/make-bucket", EMakeBucket); ("/delete-bucket", EDeleteBucket);
   ("/bucket-exists", EBucketExists); ("/bucket-created-at", EBucketCreatedAt); ("/update-meta", EUpdateMeta);
   ("/read-meta-versions", EReadMetaVersions); ("/write-meta-versions", EWriteMetaVersions);
   ("/write-versioned-shard", EWriteVersionedShard); ("/read-versioned-shard", EReadVersionedShard);
   ("/delete-version-data", EDeleteVersionData); ("/read-bucket-settings", EReadBucketSettings);
   ("/write-bucket-settings", EWriteBucketSettings); ("/cache-replicate", ECacheReplicate);
   ("/cache-sync", ECacheSync); ("/raft/append-entries", ERaft AppendEntries); ("/raft/vote", ERaft Vote);
   ("/raft/install-snapshot", ERaft InstallSnapshot)].

Definition strip_prefix (p s : string) : option string :=
  if starts_with p s then Some (string_of (drop (String.length p) (bytes_of s))) else None.

(** The handler of a path; the prefix may be missing. *)
Definition find_endpoint (path : string) : option Endpoint :=
  let method := default path (strip_prefix "/_storage/v1" path) in
  snd <$> List.find (fun e : string * Endpoint => bool_decide (e.1 = method)) endpoints.

(** rmp_serde on cache entries; the time of insertion is not part of an entry's bytes. *)
Class CacheCodec : Type := {
  entry_to_vec : WriteCache.CacheEntry -> result string bytes;
  entry_from_slice : bytes -> result string WriteCache.CacheEntry;
  drained_to_vec : list (CacheKey * WriteCache.CacheEntry) -> result string bytes;
  drained_from_slice : bytes -> result string (list (CacheKey * WriteCache.CacheEntry));
}.

Definition set_cached_local (t : N) (e : WriteCache.CacheEntry) : WriteCache.CacheEntry :=
  WriteCache.mkCacheEntry (WriteCache.shards e) (WriteCache.metas e) (WriteCache.distribution e)
    (WriteCache.original_size e) (WriteCache.we_content_type e) (WriteCache.we_etag e) (WriteCache.we_created_at e)
    (WriteCache.we_user_metadata e) (WriteCache.we_tags e) (WriteCache.cached_at_unix_nanos e) t
    (WriteCache.primary_node_id e).

Section Server.
  Context {R : Type} `{!RaftNode R}.
  Context `{Hashes} `{MetaCodec} `{UuidParser} `{MetaFileCodec} `{Base64} `{SettingsCodec}.
  Context `{Http} `{ErrorJson} `{Jwt} `{CacheCodec}.
  Context `{!Json ObjectMeta} `{!Json (list ObjectMeta)} `{!Json (list string)} `{!Json bool} `{!Json N} `{!Json BucketSettings}.
  Context (volume_info : LocalVolume -> bytes) (created_at : LocalVolume -> string -> N).

Definition server_new (vols : gmap string LocalVolume) (access_key secret_key : string) (no_auth : bool)
    : StorageServer R := mkStorageServer vols access_key secret_key no_auth None None.

Definition set_volume (p : string) (v : LocalVolume) (s : StorageServer R) : StorageServer R :=
  mkStorageServer (<[p := v]> (ss_volumes s)) (ss_access_key s) (ss_secret_key s) (ss_no_auth s) (ss_write_cache s) (ss_raft s).
Definition with_write_cache (c : WriteCache.WriteCache) (s : StorageServer R) : StorageServer R :=
  mkStorageServer (ss_volumes s) (ss_access_key s) (ss_secret_key s) (ss_no_auth s) (Some c) (ss_raft s).
Definition with_raft (r : R) (s : StorageServer R) : StorageServer R :=
  mkStorageServer (ss_volumes s) (ss_access_key s) (ss_secret_key s) (ss_no_auth s) (ss_write_cache s) (Some r).

Definition header (rq : Request) (name : string) : option string := rq_headers rq !! name ≫= to_str.

Definition authenticate (s : StorageServer R) (t : ServerTime) (rq : Request) : result string unit :=
  if ss_no_auth s then Ok tt
  else
    auth ← ok_or (header rq "authorization") "missing authorization header";
    token ← ok_or (strip_prefix "Bearer " auth) "invalid auth scheme";
    _ ← validate_token token (ss_access_key s) (ss_secret_key s) (st_unix t);
    match header rq "x-abixio-time" with
    | Some time => validate_clock_skew time (st_unix t)
    | None => Ok tt
    end.

Definition resolve_volume (s : StorageServer R) (rq : Request) : result string (string * LocalVolume) :=
  path ← ok_or (header rq "x-abixio-volume-path") "missing x-abixio-volume-path header";
  v ← ok_or (ss_volumes s !! path) ("unknown volume: " +:+ path);
  Ok (path, v).

(** [query_param]: the last value of a name. *)
Definition query_param (rq : Request) (key : string) : option string :=
  (list_to_map (rev (form_parse (rq_query rq))) : gmap string string) !! key.
Definition param (rq : Request) (key : string) : string := default "" (query_param rq key).

(** An early return. *)
Definition on_error {E A : Type} (f : E -> Response) (r : result E A) : result Response A :=
  match r with Ok a => Ok a | Err e => Err (f e) end.
Definition bad_request : string -> Response := error_response 400.
Definition respond (s : StorageServer R) (r : result Response (StorageServer R * Response)) : StorageServer R * Response :=
  match r with Ok x => x | Err resp => (s, resp) end.

Definition the_volume (s : StorageServer R) (rq : Request) : result Response (string * LocalVolume) :=
  on_error bad_request (resolve_volume s rq).

Definition validate_bucket (b : string) : result Response unit := on_error storage_error_response (validate_bucket_name b).
Definition validate_bucket_key (b k : string) : result Response unit :=
  on_error storage_error_response (_ ← validate_bucket_name b; validate_object_key k).
Definition validate_bucket_key_version (b k v : string) : result Response unit :=
  on_error storage_error_response (_ ← validate_bucket_name b; _ ← validate_object_key k; validate_version_id v).

Definition read_json {A : Type} `{Json A} (what : string) (body : bytes) : result Response A :=
  ok_or (from_json body) (bad_request ("bad " +:+ what +:+ ": " +:+ decode_error body)).

(** The response to an operation that changed the volume at [p]. *)
Definition done_on (s : StorageServer R) (p : string) (r : LocalVolume * Result unit) : StorageServer R * Response :=
  (set_volume p r.1 s, match r.2 with Ok _ => ok_empty | Err e => storage_error_response e end).

Definition read_answer {A : Type} (s : StorageServer R) (f : A -> Response) (r : Result A) : StorageServer R * Response :=
  (s, match r with Ok a => f a | Err e => storage_error_response e end).

Definition shard_response (r : bytes * ObjectMeta) : Response :=
  build_response 200 {["x-abixio-meta" := string_of (default [] (to_json r.2))]} r.1.

(** *** Handlers *)

Definition handle_info (s : StorageServer R) (rq : Request) : StorageServer R * Response :=
  respond s ('(_, vol) ← the_volume s rq;
    Ok (s, build_response 200 {["content-type" := "application/json"]} (volume_info vol))).

Definition handle_write_shard (s : StorageServer R) (t : ServerTime) (rq : Request) : option (StorageServer R * Response) :=
  let b := param rq "bucket" in
  let k := param rq "key" in
  match ('(p, vol) ← the_volume s rq;
         _ ← validate_bucket_key b k;
         meta ← read_json (A := ObjectMeta) "meta" (bytes_of (param rq "meta"));
         Ok (p, vol, meta)) with
  | Err resp => Some (s, resp)
  | Ok (p, vol, meta) =>
      r ← local_write_shard vol b k (rq_body rq) meta (st_log t);
      Some (done_on s p r)
  end.

Definition handle_read_shard (s : StorageServer R) (rq : Request) : StorageServer R * Response :=
  let b := param rq "bucket" in
  let k := param rq "key" in
  respond s ('(p, vol) ← the_volume s rq;
    _ ← validate_bucket_key b k;
    Ok (read_answer s shard_response (local_read_shard vol b k))).

Definition handle_delete_object (s : StorageServer R) (rq : Request) : StorageServer R * Response :=
  let b := param rq "bucket" in
  let k := param rq "key" in
  respond s ('(p, vol) ← the_volume s rq;
    _ ← validate_bucket_key b k;
    Ok (done_on s p (local_delete_object vol b k))).

Definition handle_stat_object (s : StorageServer R) (rq : Request) : StorageServer R * Response :=
  let b := param rq "bucket" in
  let k := param rq "key" in
  respond s ('(p, vol) ← the_volume s rq;
    _ ← validate_bucket_key b k;
    Ok (read_answer s json_response (stat_object vol b k))).

Definition handle_list_objects (s : StorageServer R) (rq : Request) : StorageServer R * Response :=
  let b := param rq "bucket" in
  let prefix := param rq "prefix" in
  respond s ('(p, vol) ← the_volume s rq;
    _ ← validate_bucket b;
    _ ← on_error storage_error_response (validate_object_prefix prefix);
    Ok (read_answer s json_response (list_objects vol b prefix))).

Definition handle_list_buckets (s : StorageServer R) (rq : Request) : StorageServer R * Response :=
  respond s ('(p, vol) ← the_volume s rq;
    Ok (read_answer s json_response (Ok (list_buckets vol)))).

Definition handle_make_bucket (s : StorageServer R) (rq : Request) : StorageServer R * Response :=
  let b := param rq "bucket" in
  respond s ('(p, vol) ← the_volume s rq;
    _ ← validate_bucket b;
    Ok (done_on s p (make_bucket vol b))).

Definition handle_delete_bucket (s : StorageServer R) (rq : Request) : StorageServer R * Response :=
  let b := param rq "bucket" in
  respond s ('(p, vol) ← the_volume s rq;
    _ ← validate_bucket b;
    Ok (done_on s p (delete_bucket vol b))).

Definition handle_bucket_exists (s : StorageServer R) (rq : Request) : StorageServer R * Response :=
  let b := param rq "bucket" in
  respond s ('(p, vol) ← the_volume s rq;
    _ ← validate_bucket b;
    Ok (s, json_response (bucket_exists vol b))).

Definition handle_bucket_created_at (s : StorageServer R) (rq : Request) : StorageServer R * Response :=
  let b := param rq "bucket" in
  respond s ('(p, vol) ← the_volume s rq;
    _ ← validate_bucket b;
    Ok (s, json_response (created_at vol b))).

Definition handle_update_meta (s : StorageServer R) (rq : Request) : StorageServer R * Response :=
  let b := param rq "bucket" in
  let k := param rq "key" in
  respond s ('(p, vol) ← the_volume s rq;
    _ ← validate_bucket_key b k;
    meta ← read_json "meta" (rq_body rq);
    Ok (done_on s p (update_meta vol b k meta))).

Definition handle_read_meta_versions (s : StorageServer R) (rq : Request) : StorageServer R * Response :=
  let b := param rq "bucket" in
  let k := param rq "key" in
  respond s ('(p, vol) ← the_volume s rq;
    _ ← validate_bucket_key b k;
    Ok (read_answer s json_response (read_meta_versions vol b k))).

Definition handle_write_meta_versions (s : StorageServer R) (rq : Request) : StorageServer R * Response :=
  let b := param rq "bucket" in
  let k := param rq "key" in
  respond s ('(p, vol) ← the_volume s rq;
    _ ← validate_bucket_key b k;
    versions ← read_json "versions" (rq_body rq);
    Ok (done_on s p (write_meta_versions vol b k versions))).

Definition handle_write_versioned_shard (s : StorageServer R) (rq : Request) : StorageServer R * Response :=
  let b := param rq "bucket" in
  let k := param rq "key" in
  let v := param rq "version_id" in
  respond s ('(p, vol) ← the_volume s rq;
    _ ← validate_bucket_key_version b k v;
    meta ← read_json "meta" (bytes_of (param rq "meta"));
    Ok (done_on s p (write_versioned_shard vol b k v (rq_body rq) meta))).

Definition handle_read_versioned_shard (s : StorageServer R) (rq : Request) : StorageServer R * Response :=
  let b := param rq "bucket" in
  let k := param rq "key" in
  let v := param rq "version_id" in
  respond s ('(p, vol) ← the_volume s rq;
    _ ← validate_bucket_key_version b k v;
    Ok (read_answer s shard_response (local_read_versioned_shard vol b k v))).

Definition handle_delete_version_data (s : StorageServer R) (rq : Request) : StorageServer R * Response :=
  let b := param rq "bucket" in
  let k := param rq "key" in
  let v := param rq "version_id" in
  respond s ('(p, vol) ← the_volume s rq;
    _ ← validate_bucket_key_version b k v;
    Ok (done_on s p (delete_version_data vol b k v))).

Definition handle_read_bucket_settings (s : StorageServer R) (rq : Request) : StorageServer R * Response :=
  let b := param rq "bucket" in
  respond s ('(p, vol) ← the_volume s rq;
    _ ← validate_bucket b;
    Ok (s, json_response (read_bucket_settings vol b))).

Definition handle_write_bucket_settings (s : StorageServer R) (rq : Request) : StorageServer R * Response :=
  let b := param rq "bucket" in
  respond s ('(p, vol) ← the_volume s rq;
    _ ← validate_bucket b;
    settings ← read_json "settings" (rq_body rq);
    Ok (done_on s p (write_bucket_settings vol b settings))).

(** *** Replicas of other nodes' caches *)

Definition handle_cache_replicate (s : StorageServer R) (t : ServerTime) (rq : Request) : StorageServer R * Response :=
  let b := param rq "bucket" in
  let k := param rq "key" in
  respond s (cache ← ok_or (ss_write_cache s) (error_response 503 "write cache disabled on this node");
    _ ← validate_bucket_key b k;
    entry ← on_error (fun e => bad_request ("decode cache entry: " +:+ e)) (entry_from_slice (rq_body rq));
    let r := WriteCache.insert cache b k (set_cached_local (st_instant t) entry) in
    if negb r.2 then Err (error_response 507 "peer cache full") else Ok (with_write_cache r.1 s, ok_empty)).

Definition handle_cache_sync (s : StorageServer R) (rq : Request) : StorageServer R * Response :=
  let node := param rq "primary_node_id" in
  respond s (cache ← ok_or (ss_write_cache s) (error_response 503 "write cache disabled on this node");
    _ ← (if bool_decide (node = "") then Err (bad_request "missing primary_node_id") else Ok tt);
    let r := WriteCache.drain_by_primary cache node in
    Ok (with_write_cache r.1 s,
        match drained_to_vec r.2 with
        | Ok b => build_response 200 {["content-type" := "application/msgpack"]} b
        | Err e => error_response 500 ("encode sync: " +:+ e)
        end)).

(** *** Raft messages *)

Definition bincode_response (m : RaftRpc) (reply : rpc_reply m) : Response :=
  match rpc_encode m reply with
  | Ok b => build_response 200 {["content-type" := "application/bincode"]} b
  | Err e => error_response 500 ("encode: " +:+ e)
  end.

Definition handle_raft (m : RaftRpc) (s : StorageServer R) (rq : Request) : StorageServer R * Response :=
  respond s (raft ← ok_or (ss_raft s) (error_response 503 "raft not enabled");
    rpc ← on_error (fun e => bad_request ("decode: " +:+ e)) (rpc_decode m (rq_body rq));
    let r := raft_handle m raft rpc in
    Ok (with_raft r.1 s, match r.2 with
                         | Ok reply => bincode_response m reply
                         | Err e => error_response 500 ("raft: " +:+ e)
                         end)).

Definition handle_endpoint (e : Endpoint) (s : StorageServer R) (t : ServerTime) (rq : Request)
    : option (StorageServer R * Response) :=
  match e with
  | EWriteShard => handle_write_shard s t rq
  | EInfo => Some (handle_info s rq)
  | EReadShard => Some (handle_read_shard s rq)
  | EDeleteObject => Some (handle_delete_object s rq)
  | EStatObject => Some (handle_stat_object s rq)
  | EListObjects => Some (handle_list_objects s rq)
  | EListBuckets => Some (handle_list_buckets s rq)
  | EMakeBucket => Some (handle_make_bucket s rq)
  | EDeleteBucket => Some (handle_delete_bucket s rq)
  | EBucketExists => Some (handle_bucket_exists s rq)
  | EBucketCreatedAt => Some (handle_bucket_created_at s rq)
  | EUpdateMeta => Some (handle_update_meta s rq)
  | EReadMetaVersions => Some (handle_read_meta_versions s rq)
  | EWriteMetaVersions => Some (handle_write_meta_versions s rq)
  | EWriteVersionedShard => Some (handle_write_versioned_shard s rq)
  | EReadVersionedShard => Some (handle_read_versioned_shard s rq)
  | EDeleteVersionData => Some (handle_delete_version_data s rq)
  | EReadBucketSettings => Some (handle_read_bucket_settings s rq)
  | EWriteBucketSettings => Some (handle_write_bucket_settings s rq)
  | ECacheReplicate => Some (handle_cache_replicate s t rq)
  | ECacheSync => Some (handle_cache_sync s rq)
  | ERaft m => Some (handle_raft m s rq)
  end.

Definition dispatch (s : StorageServer R) (t : ServerTime) (rq : Request) : option (StorageServer R * Response) :=
  match authenticate s t rq with
  | Err e => Some (s, error_response 401 e)
  | Ok _ =>
      match find_endpoint (rq_path rq) with
      | None => Some (s, error_response 404 "unknown storage endpoint")
      | Some e => handle_endpoint e s t rq
      end
  end.

End Server.
