(* ===== verification/RemoteVolume.v ===== *)
(** A volume on another node ([src/storage/remote_volume.rs]) and the client of a peer's
    write cache ([src/storage/peer_cache.rs]).

    A call is a request, what the network does with it ([delivery]) and the outcome the
    client makes of the response.  An operation takes the server it talks to and returns
    it changed; [None] is a panic of the server. *)

From Stdlib Require Import Ascii.
From stdpp Require Import base list gmap strings numbers pretty.
From S2P Require Import Prelude Metadata Needle Segment Pathing Wal Materialize RaftFsm FileSys LocalVolume.
From S2P Require Import Caches Config Internode StorageServer.

Open Scope string_scope.
Open Scope list_scope.

Record RemoteVolume : Type := mkRemoteVolume {
  rv_endpoint : string;
  rv_volume_path : string;
  rv_access_key : string;
  rv_secret_key : string;
  rv_no_auth : bool;
}.

Record RemoteShardWriter : Type := mkRemoteShardWriter {
  rw_buf : bytes;
  rw_endpoint : string;
  rw_volume_path : string;
  rw_access_key : string;
  rw_secret_key : string;
  rw_no_auth : bool;
  rw_bucket : string;
  rw_key : string;
  rw_version_id : option string;
}.

Record PeerCacheClient : Type := mkPeerCacheClient {
  pc_endpoint : string;
  pc_access_key : string;
  pc_secret_key : string;
  pc_no_auth : bool;
}.

(** A request is answered, never reaches the server, or is served while the answer is
    lost (the client times out). *)
Inductive delivery : Type := Answered | NotSent | ReplyLost.

(** The two clocks and the fate of one call. *)
Record Call : Type := mkCall {
  ca_clock : option N;
  ca_time : ServerTime;
  ca_delivery : delivery;
}.

Section Client.
  Context {R : Type} `{!RaftNode R}.
  Context `{Hashes} `{MetaCodec} `{UuidParser} `{MetaFileCodec} `{Base64} `{SettingsCodec}.
  Context `{Http} `{ErrorJson} `{Jwt} `{CacheCodec}.
  Context `{!Json ObjectMeta} `{!Json (list ObjectMeta)} `{!Json (list string)} `{!Json bool} `{!Json N} `{!Json BucketSettings}.
  Context (volume_info : LocalVolume -> bytes) (created_at : LocalVolume -> string -> N).

Abbreviation Server := (StorageServer R).

(** [send().await]: a header that cannot be sent fails before anything is sent. *)
Definition send (c : Call) (rq : Request) (s : Server) : option (Server * result string Response) :=
  if negb (forallb (fun h : string * string => header_ok h.2) (map_to_list (rq_headers rq)))
  then Some (s, Err "builder error")
  else match ca_delivery c with
       | NotSent => Some (s, Err "error sending request")
       | Answered => '(s, resp) ← dispatch volume_info created_at s (ca_time c) rq; Some (s, Ok resp)
       | ReplyLost => '(s, _) ← dispatch volume_info created_at s (ca_time c) rq; Some (s, Err "operation timed out")
       end.

(** The headers that authenticate a request. *)
Definition auth_headers (access_key secret_key : string) (clock : option N) : gmap string string :=
  let time := {["x-abixio-time" := current_time_nanos clock]} in
  match sign_token access_key secret_key clock with
  | Ok token => <["authorization" := "Bearer " +:+ token]> time
  | Err _ => time
  end.

Definition url (v : RemoteVolume) (method : string) : string :=
  trim_end_slashes (rv_endpoint v) +:+ "/_storage/v1" +:+ method.

(** [get] and [post]. *)
Definition request (v : RemoteVolume) (c : Call) (method : string) (query : list (string * string)) (body : bytes) : Request :=
  mkRequest (url_path (url v method)) (form_encode query)
    (<["x-abixio-volume-path" := rv_volume_path v]>
       (if rv_no_auth v then ∅ else auth_headers (rv_access_key v) (rv_secret_key v) (ca_clock c))) body.

Definition io_err {A : Type} (r : result string A) : Result A :=
  match r with Ok a => Ok a | Err e => Err (Io e) end.

Definition call {A : Type} (v : RemoteVolume) (c : Call) (method : string) (query : list (string * string)) (body : bytes)
    (use : Result Response -> A) (s : Server) : option (Server * A) :=
  '(s, r) ← send c (request v c method query body) s;
  Some (s, use (io_err r)).

(** A response that must be a success. *)
Definition checked (r : Result Response) : Result Response :=
  resp ← r; if is_success resp then Ok resp else Err (parse_error resp).

Definition unit_answer (r : Result Response) : Result unit := _ ← checked r; Ok tt.

Definition json_answer {A : Type} `{Json A} (r : Result Response) : Result A :=
  resp ← checked r; ok_or (from_json (rp_body resp)) (Io "error decoding response body").

Definition shard_answer (r : Result Response) : Result (bytes * ObjectMeta) :=
  resp ← checked r;
  let meta_json := default "{}" (rp_headers resp !! "x-abixio-meta" ≫= to_str) in
  meta ← ok_or (from_json (bytes_of meta_json)) (Io (decode_error (bytes_of meta_json)));
  Ok (rp_body resp, meta).

(** [serde_json::to_string] of the metadata that goes into the query. *)
Definition with_meta {A : Type} (m : ObjectMeta) (k : string -> option (Server * Result A)) (s : Server)
    : option (Server * Result A) :=
  match to_json m with
  | None => Some (s, Err (Io "serialize"))
  | Some j => k (string_of j)
  end.

Definition remote_write_shard (v : RemoteVolume) (c : Call) (b k : string) (data : bytes) (m : ObjectMeta) (s : Server)
    : option (Server * Result unit) :=
  with_meta m (fun j => call v c "/write-shard" [("bucket", b); ("key", k); ("meta", j)] data unit_answer s) s.

Definition remote_read_shard (v : RemoteVolume) (c : Call) (b k : string) (s : Server) :=
  call v c "/read-shard" [("bucket", b); ("key", k)] [] shard_answer s.

Definition remote_delete_object (v : RemoteVolume) (c : Call) (b k : string) (s : Server) :=
  call v c "/delete-object" [("bucket", b); ("key", k)] [] unit_answer s.

Definition remote_list_objects (v : RemoteVolume) (c : Call) (b prefix : string) (s : Server)
    : option (Server * Result (list string)) :=
  call v c "/list-objects" [("bucket", b); ("prefix", prefix)] [] json_answer s.

Definition remote_list_buckets (v : RemoteVolume) (c : Call) (s : Server) : option (Server * Result (list string)) :=
  call v c "/list-buckets" [] [] json_answer s.

Definition remote_make_bucket (v : RemoteVolume) (c : Call) (b : string) (s : Server) :=
  call v c "/make-bucket" [("bucket", b)] [] unit_answer s.

Definition remote_delete_bucket (v : RemoteVolume) (c : Call) (b : string) (s : Server) :=
  call v c "/delete-bucket" [("bucket", b)] [] unit_answer s.

Definition remote_bucket_exists (v : RemoteVolume) (c : Call) (b : string) (s : Server) : option (Server * bool) :=
  call v c "/bucket-exists" [("bucket", b)] []
    (fun r => match json_answer r with Ok x => x | Err _ => false end) s.

Definition remote_bucket_created_at (v : RemoteVolume) (c : Call) (b : string) (s : Server) : option (Server * N) :=
  call v c "/bucket-created-at" [("bucket", b)] []
    (fun r => match json_answer r with Ok x => x | Err _ => 0%N end) s.

Definition remote_stat_object (v : RemoteVolume) (c : Call) (b k : string) (s : Server)
    : option (Server * Result ObjectMeta) :=
  call v c "/stat-object" [("bucket", b); ("key", k)] [] json_answer s.

(** [.json(body)]: a body that does not serialize fails the builder. *)
Definition with_body {A B : Type} `{Json B} (x : B) (k : bytes -> option (Server * Result A)) (s : Server)
    : option (Server * Result A) :=
  match to_json x with
  | None => Some (s, Err (Io "builder error"))
  | Some j => k j
  end.

Definition remote_update_meta (v : RemoteVolume) (c : Call) (b k : string) (m : ObjectMeta) (s : Server)
    : option (Server * Result unit) :=
  with_body m (fun j => call v c "/update-meta" [("bucket", b); ("key", k)] j unit_answer s) s.

Definition remote_read_meta_versions (v : RemoteVolume) (c : Call) (b k : string) (s : Server)
    : option (Server * Result (list ObjectMeta)) :=
  call v c "/read-meta-versions" [("bucket", b); ("key", k)] [] json_answer s.

Definition remote_write_meta_versions (v : RemoteVolume) (c : Call) (b k : string) (vs : list ObjectMeta) (s : Server)
    : option (Server * Result unit) :=
  with_body vs (fun j => call v c "/write-meta-versions" [("bucket", b); ("key", k)] j unit_answer s) s.

Definition remote_write_versioned_shard (v : RemoteVolume) (c : Call) (b k vid : string) (data : bytes) (m : ObjectMeta)
    (s : Server) : option (Server * Result unit) :=
  with_meta m (fun j => call v c "/write-versioned-shard"
    [("bucket", b); ("key", k); ("version_id", vid); ("meta", j)] data unit_answer s) s.

Definition remote_read_versioned_shard (v : RemoteVolume) (c : Call) (b k vid : string) (s : Server) :=
  call v c "/read-versioned-shard" [("bucket", b); ("key", k); ("version_id", vid)] [] shard_answer s.

Definition remote_delete_version_data (v : RemoteVolume) (c : Call) (b k vid : string) (s : Server) :=
  call v c "/delete-version-data" [("bucket", b); ("key", k); ("version_id", vid)] [] unit_answer s.

(** The status of this response is not looked at. *)
Definition remote_read_bucket_settings (v : RemoteVolume) (c : Call) (b : string) (s : Server)
    : option (Server * BucketSettings) :=
  call v c "/read-bucket-settings" [("bucket", b)] []
    (fun r => match r with Ok resp => default default_settings (from_json (rp_body resp)) | Err _ => default_settings end) s.

Definition remote_write_bucket_settings (v : RemoteVolume) (c : Call) (b : string) (st : BucketSettings) (s : Server)
    : option (Server * Result unit) :=
  with_body st (fun j => call v c "/write-bucket-settings" [("bucket", b)] j unit_answer s) s.

(** The label of [info]. *)
Definition remote_label (v : RemoteVolume) : string := rv_endpoint v +:+ ":" +:+ rv_volume_path v.

(** *** The buffering writer *)

Definition remote_open_shard_writer (v : RemoteVolume) (b k : string) (vid : option string) : RemoteShardWriter :=
  mkRemoteShardWriter [] (rv_endpoint v) (rv_volume_path v) (rv_access_key v) (rv_secret_key v) (rv_no_auth v) b k vid.

Definition remote_write_chunk (w : RemoteShardWriter) (data : bytes) : RemoteShardWriter :=
  mkRemoteShardWriter (rw_buf w ++ data) (rw_endpoint w) (rw_volume_path w) (rw_access_key w) (rw_secret_key w)
    (rw_no_auth w) (rw_bucket w) (rw_key w) (rw_version_id w).

(** [RemoteShardWriter::post]: the endpoint as it is, a token but no time. *)
Definition writer_request (w : RemoteShardWriter) (c : Call) (method : string) (query : list (string * string)) (body : bytes)
    : Request :=
  let volume := {["x-abixio-volume-path" := rw_volume_path w]} in
  mkRequest (url_path (rw_endpoint w +:+ "/_storage/v1" +:+ method)) (form_encode query)
    (if rw_no_auth w then volume
     else match sign_token (rw_access_key w) (rw_secret_key w) (ca_clock c) with
          | Ok token => <["authorization" := "Bearer " +:+ token]> volume
          | Err _ => volume
          end) body.

Definition remote_finalize (w : RemoteShardWriter) (c : Call) (m : ObjectMeta) (s : Server)
    : option (Server * Result unit) :=
  with_meta m (fun j =>
    let '(path, query) :=
      match rw_version_id w with
      | Some vid => ("/write-versioned-shard",
                     [("bucket", rw_bucket w); ("key", rw_key w); ("version_id", vid); ("meta", j)])
      | None => ("/write-shard", [("bucket", rw_bucket w); ("key", rw_key w); ("meta", j); ("_unused", "")])
      end in
    '(s, r) ← send c (writer_request w c path query (rw_buf w)) s;
    Some (s, resp ← io_err r;
             if is_success resp then Ok tt
             else Err (Io ("remote write-shard " +:+ pretty (rp_status resp) +:+ ": " +:+ string_of (rp_body resp))))) s.

(** *** The peer's cache *)

Definition peer_new (endpoint access_key secret_key : string) (no_auth : bool) : PeerCacheClient :=
  mkPeerCacheClient (trim_end_slashes endpoint) access_key secret_key no_auth.

Definition peer_request (p : PeerCacheClient) (c : Call) (method : string) (query : list (string * string))
    (headers : gmap string string) (body : bytes) : Request :=
  mkRequest (url_path (pc_endpoint p +:+ method)) (form_encode query)
    (headers ∪ if pc_no_auth p then ∅ else auth_headers (pc_access_key p) (pc_secret_key p) (ca_clock c)) body.

Definition peer_answer (what : string) (r : result string Response) : result string Response :=
  match r with
  | Err e => Err ("peer " +:+ what +:+ " send: " +:+ e)
  | Ok resp => if is_success resp then Ok resp
               else Err ("peer " +:+ what +:+ " " +:+ status_display (rp_status resp) +:+ ": " +:+ string_of (rp_body resp))
  end.

Definition peer_replicate (p : PeerCacheClient) (c : Call) (b k : string) (e : WriteCache.CacheEntry) (s : Server)
    : option (Server * result string unit) :=
  match entry_to_vec e with
  | Err m => Some (s, Err ("encode cache entry: " +:+ m))
  | Ok body =>
      '(s, r) ← send c (peer_request p c "/_storage/v1/cache-replicate" [("bucket", b); ("key", k)]
                          {["content-type" := "application/msgpack"]} body) s;
      Some (s, _ ← peer_answer "replicate" r; Ok tt)
  end.

Definition peer_sync_pull (p : PeerCacheClient) (c : Call) (node : string) (s : Server)
    : option (Server * result string (list (CacheKey * WriteCache.CacheEntry))) :=
  '(s, r) ← send c (peer_request p c "/_storage/v1/cache-sync" [("primary_node_id", node)] ∅ []) s;
  Some (s, resp ← peer_answer "sync-pull" r;
           match drained_from_slice (rp_body resp) with
           | Ok l => Ok l
           | Err e => Err ("decode sync entries: " +:+ e)
           end).

End Client.
