(* ===== verification/RemoteSpec.v ===== *)
(** What a remote volume means: an operation that is answered has the effect and the
    result of the same operation on the server's local volume, up to the errors' way over
    the wire; one whose answer is lost has that effect or none. *)

From Stdlib Require Import Ascii.
From stdpp Require Import base list gmap strings numbers pretty.
From S2P Require Import Prelude Metadata Needle Segment Pathing Wal Materialize RaftFsm FileSys LocalVolume.
From S2P Require Import Caches Config Internode StorageServer RemoteVolume.

Open Scope string_scope.
Open Scope list_scope.

(** ** The operations of a volume, as data *)

Inductive VolumeOp : Type :=
| OWriteShard (b k : string) (data : bytes) (m : ObjectMeta)
| OReadShard (b k : string)
| ODeleteObject (b k : string)
| OStatObject (b k : string)
| OListObjects (b prefix : string)
| OListBuckets
| OMakeBucket (b : string)
| ODeleteBucket (b : string)
| OBucketExists (b : string)
| OBucketCreatedAt (b : string)
| OUpdateMeta (b k : string) (m : ObjectMeta)
| OReadMetaVersions (b k : string)
| OWriteMetaVersions (b k : string) (vs : list ObjectMeta)
| OWriteVersionedShard (b k vid : string) (data : bytes) (m : ObjectMeta)
| OReadVersionedShard (b k vid : string)
| ODeleteVersionData (b k vid : string)
| OReadSettings (b : string)
| OWriteSettings (b : string) (st : BucketSettings).

Inductive VolumeAnswer : Type :=
| AUnit
| AShard (data : bytes) (m : ObjectMeta)
| AMeta (m : ObjectMeta)
| AMetas (ms : list ObjectMeta)
| ANames (l : list string)
| AFlag (x : bool)
| ATime (n : N)
| ASettings (st : BucketSettings).

Section Ops.
  Context {R : Type} `{!RaftNode R}.
  Context `{Hashes} `{MetaCodec} `{UuidParser} `{MetaFileCodec} `{Base64} `{SettingsCodec}.
  Context `{Http} `{ErrorJson} `{Jwt} `{CacheCodec}.
  Context `{!Json ObjectMeta} `{!Json (list ObjectMeta)} `{!Json (list string)} `{!Json bool} `{!Json N} `{!Json BucketSettings}.
  Context (volume_info : LocalVolume -> bytes) (created_at : LocalVolume -> string -> N).

Abbreviation Server := (StorageServer R).

Definition wrap_answer {A : Type} (f : A -> VolumeAnswer) (r : Result A) : Result VolumeAnswer :=
  match r with Ok a => Ok (f a) | Err e => Err e end.
Definition changed (r : LocalVolume * Result unit) : option (LocalVolume * Result VolumeAnswer) :=
  Some (r.1, wrap_answer (fun _ => AUnit) r.2).
Definition shard_of (r : bytes * ObjectMeta) : VolumeAnswer := AShard r.1 r.2.

(** On the volume itself. *)
Definition local_do (op : VolumeOp) (now : N) (v : LocalVolume) : option (LocalVolume * Result VolumeAnswer) :=
  match op with
  | OWriteShard b k data m => r ← local_write_shard v b k data m now; changed r
  | OReadShard b k => Some (v, wrap_answer shard_of (local_read_shard v b k))
  | ODeleteObject b k => changed (local_delete_object v b k)
  | OStatObject b k => Some (v, wrap_answer AMeta (stat_object v b k))
  | OListObjects b prefix => Some (v, wrap_answer ANames (list_objects v b prefix))
  | OListBuckets => Some (v, Ok (ANames (list_buckets v)))
  | OMakeBucket b => changed (make_bucket v b)
  | ODeleteBucket b => changed (delete_bucket v b)
  | OBucketExists b => Some (v, Ok (AFlag (bucket_exists v b)))
  | OBucketCreatedAt b => Some (v, Ok (ATime (created_at v b)))
  | OUpdateMeta b k m => changed (update_meta v b k m)
  | OReadMetaVersions b k => Some (v, wrap_answer AMetas (read_meta_versions v b k))
  | OWriteMetaVersions b k vs => changed (write_meta_versions v b k vs)
  | OWriteVersionedShard b k vid data m => changed (write_versioned_shard v b k vid data m)
  | OReadVersionedShard b k vid => Some (v, wrap_answer shard_of (local_read_versioned_shard v b k vid))
  | ODeleteVersionData b k vid => changed (delete_version_data v b k vid)
  | OReadSettings b => Some (v, Ok (ASettings (read_bucket_settings v b)))
  | OWriteSettings b st => changed (write_bucket_settings v b st)
  end.

Definition answered {A : Type} (f : A -> VolumeAnswer) (r : option (Server * Result A)) : option (Server * Result VolumeAnswer) :=
  '(s, x) ← r; Some (s, wrap_answer f x).
Definition answered_ok {A : Type} (f : A -> VolumeAnswer) (r : option (Server * A)) : option (Server * Result VolumeAnswer) :=
  '(s, x) ← r; Some (s, Ok (f x)).
Definition nothing (_ : unit) : VolumeAnswer := AUnit.

(** Through a remote volume. *)
Definition remote_do (op : VolumeOp) (v : RemoteVolume) (c : Call) (s : Server) : option (Server * Result VolumeAnswer) :=
  let i := volume_info in
  let t := created_at in
  match op with
  | OWriteShard b k data m => answered nothing (remote_write_shard i t v c b k data m s)
  | OReadShard b k => answered shard_of (remote_read_shard i t v c b k s)
  | ODeleteObject b k => answered nothing (remote_delete_object i t v c b k s)
  | OStatObject b k => answered AMeta (remote_stat_object i t v c b k s)
  | OListObjects b prefix => answered ANames (remote_list_objects i t v c b prefix s)
  | OListBuckets => answered ANames (remote_list_buckets i t v c s)
  | OMakeBucket b => answered nothing (remote_make_bucket i t v c b s)
  | ODeleteBucket b => answered nothing (remote_delete_bucket i t v c b s)
  | OBucketExists b => answered_ok AFlag (remote_bucket_exists i t v c b s)
  | OBucketCreatedAt b => answered_ok ATime (remote_bucket_created_at i t v c b s)
  | OUpdateMeta b k m => answered nothing (remote_update_meta i t v c b k m s)
  | OReadMetaVersions b k => answered AMetas (remote_read_meta_versions i t v c b k s)
  | OWriteMetaVersions b k vs => answered nothing (remote_write_meta_versions i t v c b k vs s)
  | OWriteVersionedShard b k vid data m => answered nothing (remote_write_versioned_shard i t v c b k vid data m s)
  | OReadVersionedShard b k vid => answered shard_of (remote_read_versioned_shard i t v c b k vid s)
  | ODeleteVersionData b k vid => answered nothing (remote_delete_version_data i t v c b k vid s)
  | OReadSettings b => answered_ok ASettings (remote_read_bucket_settings i t v c b s)
  | OWriteSettings b st => answered nothing (remote_write_bucket_settings i t v c b st s)
  end.

(** The names of an operation, checked in the order of the server. *)
Definition check_names (op : VolumeOp) : Result unit :=
  match op with
  | OListBuckets => Ok tt
  | OMakeBucket b | ODeleteBucket b | OBucketExists b | OBucketCreatedAt b | OReadSettings b | OWriteSettings b _ =>
      validate_bucket_name b
  | OListObjects b prefix => _ ← validate_bucket_name b; validate_object_prefix prefix
  | OWriteShard b k _ _ | OReadShard b k | ODeleteObject b k | OStatObject b k | OUpdateMeta b k _
  | OReadMetaVersions b k | OWriteMetaVersions b k _ => _ ← validate_bucket_name b; validate_object_key k
  | OWriteVersionedShard b k vid _ _ | OReadVersionedShard b k vid | ODeleteVersionData b k vid =>
      _ ← validate_bucket_name b; _ ← validate_object_key k; validate_version_id vid
  end.

(** What the client reports when it has no answer: an error, or a default where the
    interface has no error. *)
Definition failed (op : VolumeOp) (e : StorageError) : Result VolumeAnswer :=
  match op with
  | OBucketExists _ => Ok (AFlag false)
  | OBucketCreatedAt _ => Ok (ATime 0)
  | OReadSettings _ => Ok (ASettings default_settings)
  | _ => Err e
  end.

Definition over_the_wire (r : Result VolumeAnswer) : Result VolumeAnswer :=
  match r with Ok a => Ok a | Err e => Err (remote_view e) end.

(** The meaning of an answered operation on the volume at [p]. *)
Definition remote_spec (op : VolumeOp) (p : string) (t : ServerTime) (vol : LocalVolume) (s : Server)
    : option (Server * Result VolumeAnswer) :=
  match check_names op with
  | Err e => Some (s, failed op (remote_view e))
  | Ok _ => '(vol', r) ← local_do op (st_log t) vol; Some (set_volume p vol' s, over_the_wire r)
  end.

End Ops.

(** ** Talking to the server *)

Section Talk.
  Context {R : Type} `{!RaftNode R}.
  Context `{Hashes} `{MetaCodec} `{UuidParser} `{MetaFileCodec} `{Base64} `{SettingsCodec}.
  Context `{Http} `{!HttpOk} `{ErrorJson} `{!ErrorJsonOk} `{Jwt} `{!JwtOk} `{CacheCodec}.
  Context `{!Json ObjectMeta} `{!Json (list ObjectMeta)} `{!Json (list string)} `{!Json bool} `{!Json N} `{!Json BucketSettings}.
  Context (volume_info : LocalVolume -> bytes) (created_at : LocalVolume -> string -> N).

Abbreviation Server := (StorageServer R).

(** The endpoint is an address, the server has the volume, and the two agree on the keys
    and roughly on the time (or authentication is off). *)
Record connected (v : RemoteVolume) (s : Server) (vol : LocalVolume) (c : Call) : Prop := {
  co_origin : is_origin (trim_end_slashes (rv_endpoint v));
  co_path : visible_str (rv_volume_path v) = true;
  co_volume : ss_volumes s !! rv_volume_path v = Some vol;
  co_auth : ss_no_auth s = true \/
    (rv_no_auth v = false /\ rv_access_key v = ss_access_key s /\ rv_secret_key v = ss_secret_key s /\
     exists a b, ca_clock c = Some a /\ st_unix (ca_time c) = Some b /\ (a < 2 ^ 64)%N /\ (b < 2 ^ 64)%N /\
       ((N.max a b - N.min a b) / NANOS <= MAX_CLOCK_SKEW_SECS)%N);
}.

Lemma time_visible clock : visible_str (current_time_nanos clock) = true.
Proof. destruct clock as [n|]; [apply visible_pretty|done]. Qed.

Lemma auth_headers_visible key secret clock : headers_visible (auth_headers key secret clock).
Proof.
  unfold auth_headers. assert (Ht : headers_visible {["x-abixio-time" := current_time_nanos clock]})
    by apply visible_one, time_visible.
  destruct (sign_token key secret clock) as [tok|] eqn:E; [|done]. apply map_Forall_insert_2; [|done].
  unfold sign_token in E. destruct clock as [n|]; [|done]. cbn [unix_now ok_or mbind result_bind] in E.
  destruct (jwt_signs secret (mkClaims key (n / NANOS) (as_u64 (n / NANOS + TOKEN_LIFETIME_SECS)))) as (tok' & E' & Hv).
  rewrite E' in E. injection E as <-. by rewrite visible_app, Hv.
Qed.

Lemma strip_prefix_app p x : strip_prefix p (p +:+ x) = Some x.
Proof.
  unfold strip_prefix. assert (Hs : starts_with p (p +:+ x) = true).
  { unfold starts_with. rewrite bytes_of_app. apply prefixb_spec. by eexists. }
  rewrite Hs, bytes_of_app. f_equal. replace (String.length p) with (length (bytes_of p)).
  - rewrite drop_app_length. apply String.string_of_list_ascii_of_string.
  - clear. induction p as [|a p IH]; [done|]. cbn. by rewrite IH.
Qed.

Lemma secs_small x : (x < 2 ^ 64)%N -> (x / NANOS + TOKEN_LIFETIME_SECS < 2 ^ 64)%N.
Proof.
  intros Hx. assert (x / NANOS < 2 ^ 64 - TOKEN_LIFETIME_SECS)%N; [|unfold TOKEN_LIFETIME_SECS in *; lia].
  apply N.Div0.div_lt_upper_bound. unfold NANOS, TOKEN_LIFETIME_SECS. lia.
Qed.

(** Clocks that pass the check of the time also pass that of the token. *)
Lemma skew_within_token a b :
  ((N.max a b - N.min a b) / NANOS <= MAX_CLOCK_SKEW_SECS)%N ->
  (b / NANOS <= a / NANOS + TOKEN_LIFETIME_SECS + JWT_LEEWAY)%N.
Proof.
  unfold TOKEN_LIFETIME_SECS, JWT_LEEWAY, MAX_CLOCK_SKEW_SECS. intros Hs.
  assert (b <= a + (900 * NANOS + NANOS))%N as Hle.
  { pose proof (N.Div0.div_mod (N.max a b - N.min a b) NANOS). pose proof (N.mod_lt (N.max a b - N.min a b) NANOS). unfold NANOS in *. lia. }
  apply (N.Div0.div_le_mono _ _ NANOS) in Hle. replace (a + (900 * NANOS + NANOS))%N with (a + 901 * NANOS)%N in Hle by lia.
  rewrite N.div_add in Hle by done. lia.
Qed.

Lemma signed_token key secret a :
  exists tok, sign_token key secret (Some a) = Ok tok /\ visible_str ("Bearer " +:+ tok) = true.
Proof.
  destruct (jwt_signs secret (mkClaims key (a / NANOS) (as_u64 (a / NANOS + TOKEN_LIFETIME_SECS)))) as (tok & E & Hv).
  exists tok. split; [exact E|]. by rewrite visible_app, Hv.
Qed.

(** What the server makes of a request that carries a token signed with its secret, and a
    time or not. *)
Lemma authenticate_token (s : Server) t rq key a b tok :
  ss_no_auth s = false -> st_unix t = Some b -> (a < 2 ^ 64)%N ->
  sign_token key (ss_secret_key s) (Some a) = Ok tok -> header rq "authorization" = Some ("Bearer " +:+ tok) ->
  is_ok (authenticate s t rq) =
  bool_decide (key = ss_access_key s) && bool_decide (b / NANOS <= a / NANOS + TOKEN_LIFETIME_SECS + JWT_LEEWAY)%N &&
  match header rq "x-abixio-time" with Some time => is_ok (validate_clock_skew time (Some b)) | None => true end.
Proof.
  intros Hno Ht Ha Hs Hh. unfold authenticate. rewrite Hno, Hh. cbn [ok_or mbind result_bind]. rewrite strip_prefix_app.
  cbn [ok_or mbind result_bind]. rewrite Ht, <- (token_exact _ _ _ _ _ _ (secs_small a Ha) Hs).
  destruct (validate_token _ _ _ _) as [[]|]; cbn [mbind result_bind is_ok andb]; [|done]. by destruct (header rq "x-abixio-time").
Qed.

(** A request with the headers of [get] and [post]. *)
Lemma authenticate_signed (s : Server) t rq key a b :
  ss_no_auth s = false -> st_unix t = Some b -> (a < 2 ^ 64)%N -> (b < 2 ^ 64)%N ->
  (forall h, h = "authorization" \/ h = "x-abixio-time" -> rq_headers rq !! h = auth_headers key (ss_secret_key s) (Some a) !! h) ->
  is_ok (authenticate s t rq) =
  bool_decide (key = ss_access_key s) && bool_decide ((N.max a b - N.min a b) / NANOS <= MAX_CLOCK_SKEW_SECS)%N.
Proof.
  intros Hno Ht Ha Hb Hh. destruct (signed_token key (ss_secret_key s) a) as (tok & Esign & Hvis).
  assert (E1 : header rq "authorization" = Some ("Bearer " +:+ tok)).
  { unfold header. rewrite Hh by by left. unfold auth_headers. rewrite Esign, lookup_insert_eq. by apply header_visible. }
  assert (E2 : header rq "x-abixio-time" = Some (current_time_nanos (Some a))).
  { unfold header. rewrite Hh by by right. unfold auth_headers. rewrite Esign, lookup_insert_ne, lookup_singleton_eq by done.
    apply header_visible, visible_pretty. }
  rewrite (authenticate_token s t rq key a b tok), E2, clock_skew_exact by done. rewrite <- andb_assoc. f_equal.
  destruct (bool_decide_reflect ((N.max a b - N.min a b) / NANOS <= MAX_CLOCK_SKEW_SECS)%N) as [Hk|]; [|by rewrite andb_false_r].
  by rewrite bool_decide_eq_true_2 by by apply skew_within_token.
Qed.

(** The client names the endpoint it means. *)
Definition addresses (method : string) (e : Endpoint) : Prop :=
  forallb path_char (bytes_of method) = true /\ find_endpoint ("/_storage/v1" +:+ method) = Some e.

(** The last value of a parameter. *)
Lemma param_query rq q key :
  rq_query rq = form_encode q ->
  param rq key = default "" (snd <$> List.find (fun p : string * string => bool_decide (p.1 = key)) (rev q)).
Proof.
  intros E. unfold param, query_param. rewrite E, form_roundtrip. generalize (rev q). clear. intros l. f_equal.
  induction l as [|[k x] l IH]; cbn; [apply lookup_empty|]. case_bool_decide as E.
  - subst. apply lookup_insert_eq.
  - by rewrite lookup_insert_ne.
Qed.

Section Connection.
  Context (v : RemoteVolume) (s : Server) (vol : LocalVolume) (c : Call) (Hco : connected v s vol c).

Lemma request_path method e q body :
  addresses method e -> find_endpoint (rq_path (request v c method q body)) = Some e.
Proof.
  intros [Hp He]. cbn [rq_path request]. unfold url. rewrite url_origin; [done|apply Hco|done|].
  rewrite bytes_of_app, forallb_app, Hp. done.
Qed.

Lemma request_visible method q body : headers_visible (rq_headers (request v c method q body)).
Proof.
  cbn [rq_headers request]. apply map_Forall_insert_2; [apply Hco|].
  destruct (rv_no_auth v); [apply map_Forall_empty|apply auth_headers_visible].
Qed.

Lemma request_passes method q body : authenticate s (ca_time c) (request v c method q body) = Ok tt.
Proof.
  destruct (co_auth _ _ _ _ Hco) as [Hno|(Hn & Hk & Hs & a & b & Ha & Hb & La & Lb & Hskew)].
  { unfold authenticate. by rewrite Hno. }
  destruct (ss_no_auth s) eqn:Eno; [unfold authenticate; by rewrite Eno|].
  assert (Hok : is_ok (authenticate s (ca_time c) (request v c method q body)) = true).
  { rewrite (authenticate_signed s (ca_time c) _ (rv_access_key v) a b); try done.
    - by rewrite Hk, !bool_decide_eq_true_2.
    - intros h Hh. cbn [rq_headers request]. rewrite Hn, Ha, Hs, lookup_insert_ne; [done|]. by destruct Hh as [-> | ->]. }
  by destruct (authenticate _ _ _) as [[]|].
Qed.

Lemma request_volume method q body : the_volume s (request v c method q body) = Ok (rv_volume_path v, vol).
Proof.
  unfold the_volume, resolve_volume, header. cbn [rq_headers request]. rewrite lookup_insert_eq. cbn [mbind option_bind].
  rewrite (proj2 (header_visible _ (co_path _ _ _ _ Hco))). cbn [ok_or mbind result_bind].
  by rewrite (co_volume _ _ _ _ Hco).
Qed.

Lemma request_param method q body key :
  param (request v c method q body) key =
  default "" (snd <$> List.find (fun p : string * string => bool_decide (p.1 = key)) (rev q)).
Proof. by apply param_query. Qed.

(** A call runs the handler, or fails without an answer. *)
Lemma call_endpoint {A} method e q body (use : Result Response -> A) :
  addresses method e ->
  call volume_info created_at v c method q body use s =
  match ca_delivery c with
  | NotSent => Some (s, use (Err (Io "error sending request")))
  | Answered => '(s', resp) ← handle_endpoint volume_info created_at e s (ca_time c) (request v c method q body);
                Some (s', use (Ok resp))
  | ReplyLost => '(s', _) ← handle_endpoint volume_info created_at e s (ca_time c) (request v c method q body);
                 Some (s', use (Err (Io "operation timed out")))
  end.
Proof.
  intros Ha. unfold call, send. rewrite headers_ok by apply request_visible. cbn [negb].
  assert (Hd : dispatch volume_info created_at s (ca_time c) (request v c method q body) =
               handle_endpoint volume_info created_at e s (ca_time c) (request v c method q body)).
  { unfold dispatch. rewrite request_passes. by rewrite (request_path method e). }
  destruct (ca_delivery c); cbn [mbind option_bind]; [|done|]; rewrite Hd;
    destruct (handle_endpoint _ _ _ _ _ _) as [[s' resp]|]; done.
Qed.

End Connection.

Lemma set_volume_same (s : Server) p vol : ss_volumes s !! p = Some vol -> set_volume p vol s = s.
Proof. intros Hp. unfold set_volume. rewrite insert_id by done. by destruct s. Qed.

(** ** Answers *)

Lemma checked_error e : checked (Ok (storage_error_response e)) = Err (remote_view e).
Proof. unfold checked. cbn [mbind result_bind]. by rewrite error_not_success. Qed.

Lemma checked_ok h body : checked (Ok (mkResponse 200 h body)) = Ok (mkResponse 200 h body).
Proof. done. Qed.

Lemma unit_answer_done (r : Result unit) :
  unit_answer (Ok (match r with Ok _ => ok_empty | Err e => storage_error_response e end)) =
  match r with Ok _ => Ok tt | Err e => Err (remote_view e) end.
Proof. destruct r as [[]|e]; unfold unit_answer; [by rewrite ok_empty_ok|by rewrite checked_error]. Qed.

Lemma json_answer_read {A} `{Json A, !JsonOk A} (r : Result A) :
  json_answer (Ok (match r with Ok a => json_response a | Err e => storage_error_response e end)) =
  match r with Ok a => Ok a | Err e => Err (remote_view e) end.
Proof.
  destruct r as [a|e]; unfold json_answer; [|by rewrite checked_error]. rewrite json_response_ok.
  destruct (json_reads_back a) as (j & -> & Hj). rewrite checked_ok. cbn. by rewrite Hj.
Qed.

Context `{!JsonOk ObjectMeta}.

(** The metadata can be read from a header. *)
Definition ascii_meta (m : ObjectMeta) : Prop := exists j, to_json m = Some j /\ visible_str (string_of j) = true.

Lemma shard_answer_read (r : Result (bytes * ObjectMeta)) :
  (forall d m, r = Ok (d, m) -> ascii_meta m) ->
  shard_answer (Ok (match r with Ok a => shard_response a | Err e => storage_error_response e end)) =
  match r with Ok a => Ok a | Err e => Err (remote_view e) end.
Proof.
  intros Hv. destruct r as [[d m]|e]; unfold shard_answer; [|by rewrite checked_error].
  destruct (Hv d m eq_refl) as (j & Ej & Hj). destruct (json_reads_back m) as (j' & Ej' & Hback). assert (j' = j) as -> by congruence.
  unfold shard_response. cbn [fst snd]. rewrite Ej. cbn [default].
  rewrite build_response_ok, checked_ok by by apply visible_one. cbn [mbind result_bind rp_headers rp_body]. rewrite lookup_singleton_eq. cbn [mbind option_bind].
  rewrite (proj2 (header_visible _ Hj)). cbn. rewrite bytes_of_string_of, Hback. done.
Qed.

(** Metadata that is not plain ASCII cannot be read from the response header: the client
    takes an empty object for the metadata and fails. *)
Theorem accented_metadata_unreadable m :
  header_ok (string_of (default [] (to_json m))) = true -> to_str (string_of (default [] (to_json m))) = None ->
  from_json (bytes_of "{}") = (None : option ObjectMeta) ->
  is_ok (shard_answer (Ok (shard_response ([], m)))) = false.
Proof.
  intros Hh Ht Hj. unfold shard_response, build_response. cbn [fst snd]. rewrite map_to_list_singleton. cbn [forallb snd].
  rewrite Hh. cbn [andb]. unfold shard_answer. rewrite checked_ok. cbn [mbind result_bind rp_headers]. rewrite lookup_singleton_eq.
  cbn [mbind option_bind]. rewrite Ht. cbn [from_option id]. by rewrite Hj.
Qed.

Lemma decode_body {A} `{Json A, !JsonOk A} (a : A) what j : to_json a = Some j -> read_json what j = Ok a.
Proof. intros E. unfold read_json. destruct (json_reads_back a) as (j' & E' & Hj). replace j with j' by congruence. by rewrite Hj. Qed.

(** ** Every operation *)

Section Refinement.
  Context `{!JsonOk (list ObjectMeta)} `{!JsonOk (list string)} `{!JsonOk bool} `{!JsonOk N} `{!JsonOk BucketSettings}.
  Context (v : RemoteVolume) (s : Server) (vol : LocalVolume) (c : Call) (Hco : connected v s vol c).
  (** serde ignores unknown fields and takes missing optional ones as [None]. *)
  Context (Hsettings : forall e, default default_settings (from_json (rp_body (storage_error_response e))) = default_settings).

(** What the network makes of an operation whose meaning is [r]. *)
Definition delivered (op : VolumeOp) (r : option (Server * Result VolumeAnswer)) : option (Server * Result VolumeAnswer) :=
  match ca_delivery c with
  | Answered => r
  | NotSent => Some (s, failed op (Io "error sending request"))
  | ReplyLost => '(s', _) ← r; Some (s', failed op (Io "operation timed out"))
  end.

Abbreviation t := (ca_time c).
Abbreviation path := (rv_volume_path v).
Abbreviation spec op := (remote_spec created_at op path t vol s).
Abbreviation serve e rq := (handle_endpoint volume_info created_at e s t rq).

(** The handler checks the names and goes on with [r]. *)
Definition guarded (op : VolumeOp) (r : option (Server * Response)) : option (Server * Response) :=
  match check_names op with Err e => Some (s, storage_error_response e) | Ok _ => r end.

Definition errs (op : VolumeOp) : Prop := forall e, failed op e = Err e.

Lemma unit_op op method e q body run :
  addresses method e -> errs op ->
  serve e (request v c method q body) = guarded op (r ← run; Some (done_on s path r)) ->
  local_do created_at op (st_log t) vol = (r ← run; changed r) ->
  answered nothing (call volume_info created_at v c method q body unit_answer s) = delivered op (spec op).
Proof.
  intros Ha Hf Hs Hl. rewrite (call_endpoint v s vol c Hco method e) by done. rewrite Hs. unfold delivered, remote_spec, guarded.
  rewrite Hl, Hf. destruct (check_names op) as [[]|er].
  - destruct run as [[vol' r]|]; [|by destruct (ca_delivery c)]. unfold done_on, changed. cbn [mbind option_bind fst snd].
    destruct (ca_delivery c); cbn [mbind option_bind answered]; [|by rewrite ?Hf..]. rewrite unit_answer_done. by destruct r as [[]|].
  - destruct (ca_delivery c); cbn [mbind option_bind answered]; [|by rewrite ?Hf..].
    rewrite (unit_answer_done (Err er)). by rewrite Hf.
Qed.

Lemma read_op {A} op method e q body (f : A -> VolumeAnswer) (resp : A -> Response) (use : Result Response -> Result A) (r : Result A) :
  addresses method e -> errs op -> (forall m, use (Err (Io m)) = Err (Io m)) ->
  (forall x : Result A, x = r \/ is_ok x = false ->
     use (Ok (match x with Ok a => resp a | Err er => storage_error_response er end)) =
     match x with Ok a => Ok a | Err er => Err (remote_view er) end) ->
  serve e (request v c method q body) = guarded op (Some (read_answer s resp r)) ->
  local_do created_at op (st_log t) vol = Some (vol, wrap_answer f r) ->
  answered f (call volume_info created_at v c method q body use s) = delivered op (spec op).
Proof.
  intros Ha Hf Hu Hx Hs Hl. rewrite (call_endpoint v s vol c Hco method e) by done. rewrite Hs.
  unfold delivered, remote_spec, guarded. rewrite Hl, Hf. destruct (check_names op) as [[]|er].
  - unfold read_answer. cbn [mbind option_bind]. rewrite set_volume_same by apply Hco.
    destruct (ca_delivery c); cbn [mbind option_bind answered]; [|by rewrite ?Hu, ?Hf..]. rewrite Hx by by left. by destruct r.
  - destruct (ca_delivery c); cbn [mbind option_bind answered]; [|by rewrite ?Hu, ?Hf..].
    rewrite (Hx (Err er)) by by right. by rewrite Hf.
Qed.

(** The operations whose interface has no error. *)
Lemma plain_op {A} op method e q body (f : A -> VolumeAnswer) (resp : Response) (use : Result Response -> A) (a : A) :
  addresses method e -> use (Ok resp) = a -> (forall m, failed op (Io m) = Ok (f (use (Err (Io m))))) ->
  (forall er, failed op (remote_view er) = Ok (f (use (Ok (storage_error_response er))))) ->
  serve e (request v c method q body) = guarded op (Some (s, resp)) ->
  local_do created_at op (st_log t) vol = Some (vol, Ok (f a)) ->
  answered_ok f (call volume_info created_at v c method q body use s) = delivered op (spec op).
Proof.
  intros Ha Hok Hf He Hs Hl. rewrite (call_endpoint v s vol c Hco method e) by done. rewrite Hs.
  unfold delivered, remote_spec, guarded. rewrite Hl. destruct (check_names op) as [[]|er].
  - cbn [mbind option_bind]. rewrite set_volume_same by apply Hco.
    destruct (ca_delivery c); cbn [mbind option_bind answered_ok]; [by rewrite Hok|by rewrite ?Hf..].
  - destruct (ca_delivery c); cbn [mbind option_bind answered_ok]; [by rewrite He|by rewrite ?Hf..].
Qed.

Ltac addr := split; vm_compute; reflexivity.
Ltac named k x :=
  match goal with |- context [param ?rq k] => replace (param rq k) with x by (rewrite request_param; reflexivity) end.

(** A handler on a request of the client: its volume, its names, its body. *)
Ltac handler :=
  unfold guarded; cbn [check_names handle_endpoint]; unfold respond; rewrite (request_volume v s vol c Hco);
  cbn [mbind result_bind]; unfold validate_bucket_key_version, validate_bucket_key, validate_bucket;
  match goal with |- context [on_error storage_error_response ?r] => destruct r as [[]|]; cbn [on_error mbind result_bind]; [|done] end.

Lemma write_shard_op b k data m :
  remote_do volume_info created_at (OWriteShard b k data m) v c s = delivered (OWriteShard b k data m) (spec (OWriteShard b k data m)).
Proof.
  cbn [remote_do]. unfold remote_write_shard, with_meta. destruct (json_reads_back m) as (j & Ej & _). rewrite Ej.
  apply (unit_op _ _ EWriteShard _ _ (local_write_shard vol b k data m (st_log t))); [addr|done| |done].
  unfold handle_endpoint, handle_write_shard. named "bucket" b. named "key" k. named "meta" (string_of j). handler.
  rewrite bytes_of_string_of, (decode_body m) by done. cbn. done.
Qed.

Lemma write_versioned_op b k vid data m :
  remote_do volume_info created_at (OWriteVersionedShard b k vid data m) v c s =
  delivered (OWriteVersionedShard b k vid data m) (spec (OWriteVersionedShard b k vid data m)).
Proof.
  cbn [remote_do]. unfold remote_write_versioned_shard, with_meta. destruct (json_reads_back m) as (j & Ej & _). rewrite Ej.
  apply (unit_op _ _ EWriteVersionedShard _ _ (Some (write_versioned_shard vol b k vid data m))); [addr|done| |done].
  unfold handle_endpoint, handle_write_versioned_shard.
  named "bucket" b. named "key" k. named "version_id" vid. named "meta" (string_of j). handler.
  rewrite bytes_of_string_of, (decode_body m) by done. done.
Qed.

(** The operations that send names only. *)
Lemma named_op op method e q run :
  addresses method e -> errs op ->
  serve e (request v c method q []) = guarded op (Some (done_on s path run)) ->
  local_do created_at op (st_log t) vol = changed run ->
  answered nothing (call volume_info created_at v c method q [] unit_answer s) = delivered op (spec op).
Proof. intros Ha Hf Hs Hl. by apply (unit_op op method e q [] (Some run)). Qed.

(** The operations that send a JSON body. *)
Lemma body_op {A} `{Json A, !JsonOk A} op method e q (a : A) run :
  addresses method e -> errs op ->
  (forall j, to_json a = Some j -> serve e (request v c method q j) = guarded op (Some (done_on s path run))) ->
  local_do created_at op (st_log t) vol = changed run ->
  answered nothing (with_body a (fun j => call volume_info created_at v c method q j unit_answer s) s) = delivered op (spec op).
Proof.
  intros Ha Hf Hs Hl. unfold with_body. destruct (json_reads_back a) as (j & Ej & _). rewrite Ej.
  apply (unit_op op method e q j (Some run)); [done|done|by apply Hs|done].
Qed.

(** The operations that read JSON. *)
Lemma json_op {A} `{Json A, !JsonOk A} op method e q (f : A -> VolumeAnswer) (r : Result A) :
  addresses method e -> errs op ->
  serve e (request v c method q []) = guarded op (Some (read_answer s json_response r)) ->
  local_do created_at op (st_log t) vol = Some (vol, wrap_answer f r) ->
  answered f (call volume_info created_at v c method q [] json_answer s) = delivered op (spec op).
Proof.
  intros Ha Hf Hs Hl. eapply (read_op op method e q [] f json_response json_answer r); try done.
  intros x _. apply json_answer_read.
Qed.

Lemma shard_op op method e q (r : Result (bytes * ObjectMeta)) :
  addresses method e -> errs op -> (forall d m, r = Ok (d, m) -> ascii_meta m) ->
  serve e (request v c method q []) = guarded op (Some (read_answer s shard_response r)) ->
  local_do created_at op (st_log t) vol = Some (vol, wrap_answer shard_of r) ->
  answered shard_of (call volume_info created_at v c method q [] shard_answer s) = delivered op (spec op).
Proof.
  intros Ha Hf Hv Hs Hl. eapply (read_op op method e q [] shard_of shard_response shard_answer r); try done.
  intros x [->|Hx]; apply shard_answer_read; [done|]. by intros d m ->.
Qed.

(** Every shard the operation returns has metadata that fits a header. *)
Definition wire_safe (op : VolumeOp) : Prop :=
  forall vol' d m, local_do created_at op (st_log t) vol = Some (vol', Ok (AShard d m)) -> ascii_meta m.

Lemma json_flag {A} `{Json A, !JsonOk A} (a d : A) :
  (match json_answer (Ok (json_response a)) with Ok x => x | Err _ => d end) = a.
Proof. by rewrite (json_answer_read (Ok a)). Qed.

Lemma json_flag_error {A} `{Json A, !JsonOk A} (d : A) er :
  (match json_answer (Ok (storage_error_response er)) with Ok x => x | Err _ => d end) = d.
Proof. by rewrite (json_answer_read (A := A) (Err er)). Qed.

(** The operations that change the volume, and those that cannot fail. *)
Definition changes (op : VolumeOp) : bool :=
  match op with
  | OWriteShard _ _ _ _ | ODeleteObject _ _ | OMakeBucket _ | ODeleteBucket _ | OUpdateMeta _ _ _ | OWriteMetaVersions _ _ _
  | OWriteVersionedShard _ _ _ _ _ | ODeleteVersionData _ _ _ | OWriteSettings _ _ => true
  | _ => false
  end.
Definition cannot_fail (op : VolumeOp) : bool :=
  match op with OBucketExists _ | OBucketCreatedAt _ | OReadSettings _ => true | _ => false end.
Definition reads (op : VolumeOp) : bool := negb (changes op) && negb (cannot_fail op).

(** Operations that change the volume. *)
Lemma changes_refine op : changes op = true -> wire_safe op -> remote_do volume_info created_at op v c s = delivered op (spec op).
Proof.
  intros Hk Hw. destruct op as [b k data m|b k|b k|b k|b p| |b|b|b|b|b k m|b k|b k vs|b k vid data m|b k vid|b k vid|b|b st];
    try discriminate Hk; [apply write_shard_op| | | | | |apply write_versioned_op| |]; cbn [remote_do].
  - apply (named_op _ _ EDeleteObject _ (local_delete_object vol b k)); [addr|done| |done].
    unfold handle_endpoint, handle_delete_object. named "bucket" b. named "key" k. by handler.
  - apply (named_op _ _ EMakeBucket _ (make_bucket vol b)); [addr|done| |done].
    unfold handle_endpoint, handle_make_bucket. named "bucket" b. by handler.
  - apply (named_op _ _ EDeleteBucket _ (delete_bucket vol b)); [addr|done| |done].
    unfold handle_endpoint, handle_delete_bucket. named "bucket" b. by handler.
  - apply (body_op _ _ EUpdateMeta _ _ (update_meta vol b k m)); [addr|done| |done]. intros j Hj.
    unfold handle_endpoint, handle_update_meta. named "bucket" b. named "key" k. handler. by rewrite (decode_body m).
  - apply (body_op _ _ EWriteMetaVersions _ _ (write_meta_versions vol b k vs)); [addr|done| |done]. intros j Hj.
    unfold handle_endpoint, handle_write_meta_versions. named "bucket" b. named "key" k. handler. by rewrite (decode_body vs).
  - apply (named_op _ _ EDeleteVersionData _ (delete_version_data vol b k vid)); [addr|done| |done].
    unfold handle_endpoint, handle_delete_version_data. named "bucket" b. named "key" k. named "version_id" vid. by handler.
  - apply (body_op _ _ EWriteBucketSettings _ _ (write_bucket_settings vol b st)); [addr|done| |done]. intros j Hj.
    unfold handle_endpoint, handle_write_bucket_settings. named "bucket" b. handler. by rewrite (decode_body st).
Qed.

(** Operations that read. *)
Lemma reads_refine op : reads op = true -> wire_safe op -> remote_do volume_info created_at op v c s = delivered op (spec op).
Proof.
  intros Hk Hw. destruct op as [b k data m|b k|b k|b k|b p| |b|b|b|b|b k m|b k|b k vs|b k vid data m|b k vid|b k vid|b|b st];
    try discriminate Hk; cbn [remote_do].
  - apply (shard_op _ _ EReadShard _ (local_read_shard vol b k)); [addr|done| | |done].
    + intros d m E. apply (Hw vol d m). cbn. by rewrite E.
    + unfold handle_endpoint, handle_read_shard. named "bucket" b. named "key" k. by handler.
  - apply (json_op _ _ EStatObject _ AMeta (stat_object vol b k)); [addr|done| |done].
    unfold handle_endpoint, handle_stat_object. named "bucket" b. named "key" k. by handler.
  - apply (json_op _ _ EListObjects _ ANames (list_objects vol b p)); [addr|done| |done].
    unfold handle_endpoint, handle_list_objects. named "bucket" b. named "prefix" p.
    unfold guarded, respond, validate_bucket. cbn [check_names]. rewrite (request_volume v s vol c Hco). cbn [mbind result_bind].
    destruct (validate_bucket_name b) as [[]|]; [|done]. by destruct (validate_object_prefix p) as [[]|].
  - apply (json_op _ _ EListBuckets _ ANames (Ok (list_buckets vol))); [addr|done| |done].
    unfold guarded, respond, handle_endpoint, handle_list_buckets. by rewrite (request_volume v s vol c Hco).
  - apply (json_op _ _ EReadMetaVersions _ AMetas (read_meta_versions vol b k)); [addr|done| |done].
    unfold handle_endpoint, handle_read_meta_versions. named "bucket" b. named "key" k. by handler.
  - apply (shard_op _ _ EReadVersionedShard _ (local_read_versioned_shard vol b k vid)); [addr|done| | |done].
    + intros d m E. apply (Hw vol d m). cbn. by rewrite E.
    + unfold handle_endpoint, handle_read_versioned_shard. named "bucket" b. named "key" k. named "version_id" vid. by handler.
Qed.

(** Operations that have a default. *)
Lemma plain_refine op : cannot_fail op = true -> wire_safe op -> remote_do volume_info created_at op v c s = delivered op (spec op).
Proof.
  intros Hk Hw. destruct op as [b k data m|b k|b k|b k|b p| |b|b|b|b|b k m|b k|b k vs|b k vid data m|b k vid|b k vid|b|b st];
    try discriminate Hk; cbn [remote_do].
  - apply (plain_op _ _ EBucketExists _ _ AFlag (json_response (bucket_exists vol b)) _ (bucket_exists vol b));
      [addr|apply json_flag|done|by intros; rewrite json_flag_error| |done].
    unfold handle_endpoint, handle_bucket_exists. named "bucket" b. by handler.
  - apply (plain_op _ _ EBucketCreatedAt _ _ ATime (json_response (created_at vol b)) _ (created_at vol b));
      [addr|apply json_flag|done|by intros; rewrite json_flag_error| |done].
    unfold handle_endpoint, handle_bucket_created_at. named "bucket" b. by handler.
  - apply (plain_op _ _ EReadBucketSettings _ _ ASettings (json_response (read_bucket_settings vol b)) _ (read_bucket_settings vol b));
      [addr| |done|by intros er; rewrite Hsettings| |done].
    + rewrite json_response_ok. cbn. destruct (json_reads_back (read_bucket_settings vol b)) as (j & -> & Hj). cbn. by rewrite Hj.
    + unfold handle_endpoint, handle_read_bucket_settings. named "bucket" b. by handler.
Qed.

(** C12: An operation through a remote volume means what the same operation on the
    server's volume means.  It is for a volume that is connected (its address is an origin,
    its path is visible ASCII and names a volume of the server, and the server either asks
    for no authentication or shares the keys, with clocks that differ by at most the
    allowed skew), and for operations that return no shard with metadata outside visible
    ASCII, which the response header cannot carry (accented_metadata_unreadable).  Answered, it gives the volume's result, its error as it
    crosses the wire, or the refusal of its names, and changes the server's volume and
    nothing else exactly as the local operation does; a request that is not sent changes
    nothing, and one whose answer is lost has run exactly once. *)
Theorem remote_refines_local op :
  wire_safe op -> remote_do volume_info created_at op v c s = delivered op (spec op).
Proof.
  intros Hw. destruct (changes op) eqn:E1; [by apply changes_refine|]. destruct (cannot_fail op) eqn:E2; [by apply plain_refine|].
  apply reads_refine; [|done]. unfold reads. by rewrite E1, E2.
Qed.

End Refinement.

(** ** Who is heard *)

(** A writer keeps where it goes and collects what it is given. *)
Lemma writer_fields v b k vid cs :
  let w := fold_left remote_write_chunk cs (remote_open_shard_writer v b k vid) in
  rw_no_auth w = rv_no_auth v /\ rw_access_key w = rv_access_key v /\ rw_secret_key w = rv_secret_key v /\
  rw_volume_path w = rv_volume_path v /\ rw_endpoint w = rv_endpoint v /\ rw_bucket w = b /\ rw_key w = k /\
  rw_version_id w = vid /\ rw_buf w = concat cs.
Proof.
  induction cs as [|x cs IH] using rev_ind; [done|]. rewrite fold_left_app, concat_app. cbn. rewrite app_nil_r.
  destruct IH as (? & ? & ? & ? & ? & ? & ? & ? & <-). done.
Qed.

(** The writer's request carries a token and no time. *)
Lemma writer_headers v c b k vid cs method q body a tok :
  rv_no_auth v = false -> ca_clock c = Some a -> sign_token (rv_access_key v) (rv_secret_key v) (Some a) = Ok tok ->
  let w := fold_left remote_write_chunk cs (remote_open_shard_writer v b k vid) in
  rq_headers (writer_request w c method q body) =
  <["authorization" := "Bearer " +:+ tok]> {["x-abixio-volume-path" := rv_volume_path v]}.
Proof.
  intros Hno Ha Hs w. destruct (writer_fields v b k vid cs) as (H1' & H2' & H3' & H4' & _). fold w in H1', H2', H3', H4'.
  cbn [rq_headers writer_request]. by rewrite H1', H2', H3', H4', Hno, Ha, Hs.
Qed.

(** The window of a signed request, and that of a request that carries only a token. *)
Definition within_skew (a b : N) : bool := bool_decide ((N.max a b - N.min a b) / NANOS <= MAX_CLOCK_SKEW_SECS)%N.
Definition within_lifetime (a b : N) : bool := bool_decide (b / NANOS <= a / NANOS + 960)%N.

Lemma authenticate_request (s : Server) v c t a b method q body :
  ss_no_auth s = false -> rv_no_auth v = false -> rv_secret_key v = ss_secret_key s ->
  ca_clock c = Some a -> st_unix t = Some b -> (a < 2 ^ 64)%N -> (b < 2 ^ 64)%N ->
  is_ok (authenticate s t (request v c method q body)) = bool_decide (rv_access_key v = ss_access_key s) && within_skew a b.
Proof.
  intros Hno Hvno Hsec Hc Ht Ha Hb. apply authenticate_signed; try done. intros h Hh. cbn [rq_headers request].
  rewrite Hvno, Hc, Hsec, lookup_insert_ne; [done|]. by destruct Hh as [-> | ->].
Qed.

Lemma authenticate_writer (s : Server) v c t a b bk k vid cs method q body :
  ss_no_auth s = false -> rv_no_auth v = false -> rv_secret_key v = ss_secret_key s ->
  ca_clock c = Some a -> st_unix t = Some b -> (a < 2 ^ 64)%N -> (b < 2 ^ 64)%N ->
  is_ok (authenticate s t
    (writer_request (fold_left remote_write_chunk cs (remote_open_shard_writer v bk k vid)) c method q body)) =
    bool_decide (rv_access_key v = ss_access_key s) && within_lifetime a b.
Proof.
  intros Hno Hvno Hsec Hc Ht Ha Hb.
  destruct (signed_token (rv_access_key v) (rv_secret_key v) a) as (tok & Es & Hv).
  pose proof (writer_headers v c bk k vid cs method q body a tok Hvno Hc Es) as Hh. cbv zeta in Hh. rewrite Hsec in Es.
  rewrite (authenticate_token s t _ (rv_access_key v) a b tok); try done.
  - unfold header. rewrite Hh, lookup_insert_ne, lookup_singleton_ne by done. cbn [mbind option_bind]. rewrite andb_true_r.
    unfold within_lifetime. replace (a / NANOS + TOKEN_LIFETIME_SECS + JWT_LEEWAY)%N with (a / NANOS + 960)%N; [done|].
    unfold TOKEN_LIFETIME_SECS, JWT_LEEWAY. lia.
  - unfold header. rewrite Hh, lookup_insert_eq. by apply header_visible.
Qed.

(** C22: How long a request is good for.  A request signed with the server's secret at
    time [a] is accepted at time [b] exactly when it carries the server's access key and
    the two clocks are at most fifteen minutes apart; the request of a streaming writer,
    which carries no time, when it has the key and is at most sixteen minutes old, however
    far its clock is ahead.  A request that is not accepted is answered with 401 and
    changes nothing. *)
Theorem accepted_window (s : Server) v c t a b bk k vid cs method q body :
  ss_no_auth s = false -> rv_no_auth v = false -> rv_secret_key v = ss_secret_key s ->
  ca_clock c = Some a -> st_unix t = Some b -> (a < 2 ^ 64)%N -> (b < 2 ^ 64)%N ->
  let rq := request v c method q body in
  let rq' := writer_request (fold_left remote_write_chunk cs (remote_open_shard_writer v bk k vid)) c method q body in
  is_ok (authenticate s t rq) = bool_decide (rv_access_key v = ss_access_key s) && within_skew a b /\
  is_ok (authenticate s t rq') = bool_decide (rv_access_key v = ss_access_key s) && within_lifetime a b /\
  forall r, is_ok (authenticate s t r) = false ->
    exists resp, dispatch volume_info created_at s t r = Some (s, resp) /\ rp_status resp = 401%N.
Proof.
  intros Hno Hvno Hsec Hc Ht Ha Hb rq rq'. split_and!.
  - by apply authenticate_request.
  - by apply authenticate_writer.
  - intros r Hr. unfold dispatch. destruct (authenticate s t r) as [|e]; [done|]. eexists. split; [done|]. by rewrite error_response_ok.
Qed.

(** ** Streaming writers *)

Section Writer.
  Context (v : RemoteVolume) (s : Server) (vol : LocalVolume) (c : Call) (Hco : connected v s vol c).
  Context (Horigin : is_origin (rv_endpoint v)) (Hanswer : ca_delivery c = Answered).
  Context (b k : string) (vid : option string) (cs : list bytes) (m : ObjectMeta).

Abbreviation w := (fold_left remote_write_chunk cs (remote_open_shard_writer v b k vid)).

(** The operation the writer stands for. *)
Definition writer_op : VolumeOp :=
  match vid with None => OWriteShard b k (concat cs) m | Some x => OWriteVersionedShard b k x (concat cs) m end.

Definition writer_error (e : StorageError) : StorageError :=
  Io ("remote write-shard " +:+ pretty (error_status e) +:+ ": " +:+ string_of (error_json (display e))).

Lemma writer_passes method q body : authenticate s (ca_time c) (writer_request w c method q body) = Ok tt.
Proof.
  destruct (ss_no_auth s) eqn:Eno; [unfold authenticate; by rewrite Eno|].
  destruct (co_auth _ _ _ _ Hco) as [Hno|(Hn & Hk & Hs & x & y & Ha & Hb & La & Lb & Hskew)]; [congruence|].
  pose proof (authenticate_writer s v c (ca_time c) x y b k vid cs method q body Eno Hn Hs Ha Hb La Lb) as Hw. unfold within_lifetime in Hw.
  rewrite Hk, (bool_decide_eq_true_2 (_ = _)) in Hw by done. rewrite bool_decide_eq_true_2 in Hw.
  - by destruct (authenticate _ _ _) as [[]|].
  - apply skew_within_token in Hskew. unfold TOKEN_LIFETIME_SECS, JWT_LEEWAY in Hskew. lia.
Qed.

Lemma writer_volume method q body :
  headers_visible (rq_headers (writer_request w c method q body)) /\
  the_volume s (writer_request w c method q body) = Ok (rv_volume_path v, vol).
Proof.
  assert (Hh : exists h, rq_headers (writer_request w c method q body) = h /\ headers_visible h /\
    h !! "x-abixio-volume-path" = Some (rv_volume_path v)).
  { eexists. split; [done|]. cbn [rq_headers writer_request]. destruct (writer_fields v b k vid cs) as (-> & -> & -> & -> & _).
    pose proof (visible_one "x-abixio-volume-path" _ (co_path _ _ _ _ Hco)) as Hv.
    destruct (rv_no_auth v); [by split; [|apply lookup_singleton_eq]|].
    destruct (ca_clock c) as [x|]; [|by split; [|apply lookup_singleton_eq]].
    destruct (signed_token (rv_access_key v) (rv_secret_key v) x) as (tok & -> & Ht).
    split; [by apply map_Forall_insert_2|]. by rewrite lookup_insert_ne, lookup_singleton_eq. }
  destruct Hh as (h & E & Hv & Hp). rewrite E. split; [done|]. unfold the_volume, resolve_volume, header. rewrite E, Hp.
  cbn [mbind option_bind]. rewrite (proj2 (header_visible _ (co_path _ _ _ _ Hco))). cbn [ok_or mbind result_bind].
  by rewrite (co_volume _ _ _ _ Hco).
Qed.

Lemma writer_send method e q body :
  addresses method e ->
  send volume_info created_at c (writer_request w c method q body) s =
  ('(s', resp) ← handle_endpoint volume_info created_at e s (ca_time c) (writer_request w c method q body); Some (s', Ok resp)).
Proof.
  intros [Hp He]. unfold send. rewrite headers_ok by apply writer_volume. cbn [negb]. rewrite Hanswer. unfold dispatch.
  rewrite writer_passes. cbn [rq_path writer_request]. destruct (writer_fields v b k vid cs) as (_ & _ & _ & _ & -> & _).
  rewrite url_origin; [by rewrite He|done|done|]. by rewrite bytes_of_app, forallb_app, Hp.
Qed.

End Writer.

Ltac queried key x :=
  match goal with |- context [param ?rq key] => replace (param rq key) with x by (erewrite param_query by reflexivity; reflexivity) end.

(** A shard streamed to a remote volume is the shard written there in one piece; an error
    of the volume arrives as text. *)
Theorem remote_stream_put v s vol c b k vid cs m :
  connected v s vol c -> is_origin (rv_endpoint v) -> ca_delivery c = Answered -> check_names (writer_op b k vid cs m) = Ok tt ->
  remote_finalize volume_info created_at (fold_left remote_write_chunk cs (remote_open_shard_writer v b k vid)) c m s =
  ('(vol', r) ← local_do created_at (writer_op b k vid cs m) (st_log (ca_time c)) vol;
   Some (set_volume (rv_volume_path v) vol' s, match r with Ok _ => Ok tt | Err e => Err (writer_error e) end)).
Proof.
  intros Hco Horigin Hanswer Hn. unfold remote_finalize, with_meta. destruct (json_reads_back m) as (j & Ej & _). rewrite Ej.
  destruct (writer_fields v b k vid cs) as (_ & _ & _ & _ & _ & -> & -> & -> & ->). unfold writer_op in *.
  assert (Hfin : forall r : Result unit,
    (if is_success (match r with Ok _ => ok_empty | Err e => storage_error_response e end) then Ok tt
     else Err (Io ("remote write-shard " +:+ pretty (rp_status (match r with Ok _ => ok_empty | Err e => storage_error_response e end)) +:+ ": "
                   +:+ string_of (rp_body (match r with Ok _ => ok_empty | Err e => storage_error_response e end)))))
    = match r with Ok _ => Ok tt | Err e => Err (writer_error e) end).
  { intros [[]|e]; [by rewrite ok_empty_ok|]. rewrite error_not_success. unfold storage_error_response. by rewrite error_response_ok. }
  destruct vid as [x|]; cbn [check_names] in Hn; cbn [local_do]; cbv iota beta.
  - rewrite (writer_send v s vol c Hco Horigin Hanswer b k (Some x) cs _ EWriteVersionedShard) by (split; vm_compute; reflexivity).
    unfold handle_endpoint, handle_write_versioned_shard, respond, validate_bucket_key_version.
    queried "bucket" b. queried "key" k. queried "version_id" x. queried "meta" (string_of j).
    rewrite (proj2 (writer_volume v s vol c Hco b k _ cs _ _ _)), Hn. cbn [mbind result_bind on_error]. rewrite bytes_of_string_of, (decode_body m) by done.
    cbn [mbind result_bind option_bind io_err done_on changed rq_body writer_request]. rewrite Hfin.
    by destruct (write_versioned_shard vol b k x (concat cs) m) as [vol' [[]|]].
  - rewrite (writer_send v s vol c Hco Horigin Hanswer b k None cs _ EWriteShard) by (split; vm_compute; reflexivity).
    unfold handle_endpoint, handle_write_shard, validate_bucket_key.
    queried "bucket" b. queried "key" k. queried "meta" (string_of j).
    rewrite (proj2 (writer_volume v s vol c Hco b k _ cs _ _ _)), Hn. cbn [mbind result_bind on_error]. rewrite bytes_of_string_of, (decode_body m) by done.
    cbn [mbind result_bind rq_body writer_request]. destruct (local_write_shard _ _ _ _ _ _) as [[vol' r]|]; [|done].
    cbn [mbind option_bind result_bind io_err done_on changed fst snd]. rewrite Hfin. by destruct r as [[]|].
Qed.

End Talk.
