(* ===== verification/PeerReplica.v ===== *)
(** Replicas of a node's write cache on a peer: the client of [src/storage/peer_cache.rs]
    against the two cache endpoints of [src/storage/storage_server.rs].  An entry that was
    replicated is what the primary pulls back after a restart.

    The file ends with concrete instances of the crates between the nodes, on which the
    theorems about remote volumes and replicas are run. *)

From Stdlib Require Import Ascii.
From stdpp Require Import base list gmap strings numbers pretty.
From S2P Require Import Policy Prelude Metadata Needle Segment Pathing Wal Materialize RaftFsm FileSys LocalVolume.
From S2P Require Import LocalObjects Caches Config Internode StorageServer RemoteVolume RemoteSpec.

Open Scope string_scope.
Open Scope list_scope.

(** The same entry, whenever it was inserted. *)
Definition same_entry (e e' : WriteCache.CacheEntry) : Prop := set_cached_local 0 e = set_cached_local 0 e'.

(** rmp_serde writes the fields of a metadata record by position and leaves out an empty
    part list and absent inline data, so inline data behind an empty part list would be
    read as the parts.  The write path makes entries without inline data. *)
Definition portable (e : WriteCache.CacheEntry) : Prop :=
  Forall (fun m => parts m = [] -> inline_data m = None) (WriteCache.metas e).

Class CacheCodecOk `{CacheCodec} : Prop := {
  entry_reads_back : forall e, portable e -> exists b e', entry_to_vec e = Ok b /\ entry_from_slice b = Ok e' /\ same_entry e e';
  drained_reads_back : forall l, Forall (fun x : CacheKey * WriteCache.CacheEntry => portable x.2) l -> exists b l', drained_to_vec l = Ok b /\ drained_from_slice b = Ok l' /\
    Forall2 (fun x y : CacheKey * WriteCache.CacheEntry => x.1 = y.1 /\ same_entry x.2 y.2) l l';
}.

Lemma same_entry_primary e e' : same_entry e e' -> WriteCache.primary_node_id e = WriteCache.primary_node_id e'.
Proof. unfold same_entry, set_cached_local. by intros [=]. Qed.

Lemma same_entry_portable e e' : same_entry e e' -> portable e -> portable e'.
Proof. unfold same_entry, set_cached_local, portable. by intros [= _ ->]. Qed.

Lemma same_entry_local n e e' : same_entry e e' -> same_entry e (set_cached_local n e').
Proof. done. Qed.

Lemma same_entry_size e e' : same_entry e e' -> WriteCache.mem_size e = WriteCache.mem_size e'.
Proof.
  unfold same_entry, set_cached_local, WriteCache.mem_size. intros [= -> -> _ _ -> -> _ _ _ _ ->]. done.
Qed.

Section Peer.
  Context {R : Type} `{!RaftNode R}.
  Context `{Hashes} `{MetaCodec} `{UuidParser} `{MetaFileCodec} `{Base64} `{SettingsCodec}.
  Context `{Http} `{!HttpOk} `{ErrorJson} `{!ErrorJsonOk} `{Jwt} `{!JwtOk} `{CacheCodec} `{!CacheCodecOk}.
  Context `{!Json ObjectMeta} `{!Json (list ObjectMeta)} `{!Json (list string)} `{!Json bool} `{!Json N} `{!Json BucketSettings}.
  Context (volume_info : LocalVolume -> bytes) (created_at : LocalVolume -> string -> N).

Abbreviation Server := (StorageServer R).

Record peer_connected (p : PeerCacheClient) (s : Server) (c : Call) : Prop := {
  pco_origin : is_origin (pc_endpoint p);
  pco_auth : ss_no_auth s = true \/
    (pc_no_auth p = false /\ pc_access_key p = ss_access_key s /\ pc_secret_key p = ss_secret_key s /\
     exists a b, ca_clock c = Some a /\ st_unix (ca_time c) = Some b /\ (a < 2 ^ 64)%N /\ (b < 2 ^ 64)%N /\
       ((N.max a b - N.min a b) / NANOS <= MAX_CLOCK_SKEW_SECS)%N);
}.

Section Request.
  Context (p : PeerCacheClient) (s : Server) (c : Call) (Hco : peer_connected p s c).
  Context (method qs : string) (h : gmap string string) (body : bytes).
  Context (Hh : headers_visible h) (Hfree : h !! "authorization" = None /\ h !! "x-abixio-time" = None).

Abbreviation rq := (mkRequest (url_path (pc_endpoint p +:+ method)) qs
  (h ∪ if pc_no_auth p then ∅ else auth_headers (pc_access_key p) (pc_secret_key p) (ca_clock c)) body).

Lemma peer_visible : headers_visible (rq_headers rq).
Proof.
  cbn [rq_headers]. apply map_Forall_union_2; [done|].
  destruct (pc_no_auth p); [apply map_Forall_empty|apply auth_headers_visible].
Qed.

Lemma peer_passes : authenticate s (ca_time c) rq = Ok tt.
Proof.
  destruct (ss_no_auth s) eqn:Eno; [unfold authenticate; by rewrite Eno|].
  destruct (pco_auth _ _ _ Hco) as [Hno|(Hn & Hk & Hs & a & b & Ha & Hb & La & Lb & Hskew)]; [congruence|].
  assert (Hok : is_ok (authenticate s (ca_time c) rq) = true).
  { rewrite (authenticate_signed s (ca_time c) rq (pc_access_key p) a b); try done.
    - by rewrite Hk, !bool_decide_eq_true_2.
    - intros x Hx. cbn [rq_headers]. rewrite Hn, Ha, Hs, lookup_union_r; [done|]. by destruct Hfree, Hx as [-> | ->]. }
  by destruct (authenticate _ _ _) as [[]|].
Qed.

Lemma wire_send e :
  starts_with "/" method = true -> forallb path_char (bytes_of method) = true -> find_endpoint method = Some e ->
  send volume_info created_at c rq s =
  match ca_delivery c with
  | NotSent => Some (s, Err "error sending request")
  | Answered => '(s', resp) ← handle_endpoint volume_info created_at e s (ca_time c) rq; Some (s', Ok resp)
  | ReplyLost => '(s', _) ← handle_endpoint volume_info created_at e s (ca_time c) rq; Some (s', Err "operation timed out")
  end.
Proof.
  intros Hsl Hp He. unfold send. rewrite headers_ok by apply peer_visible. cbn [negb]. unfold dispatch. rewrite peer_passes.
  cbn [rq_path]. rewrite url_origin, He by (done || apply Hco). done.
Qed.

End Request.

Lemma peer_send p s c method q h body e :
  peer_connected p s c -> headers_visible h -> h !! "authorization" = None /\ h !! "x-abixio-time" = None ->
  starts_with "/" method = true -> forallb path_char (bytes_of method) = true -> find_endpoint method = Some e ->
  let rq := peer_request p c method q h body in
  send volume_info created_at c rq s =
  match ca_delivery c with
  | NotSent => Some (s, Err "error sending request")
  | Answered => '(s', resp) ← handle_endpoint volume_info created_at e s (ca_time c) rq; Some (s', Ok resp)
  | ReplyLost => '(s', _) ← handle_endpoint volume_info created_at e s (ca_time c) rq; Some (s', Err "operation timed out")
  end.
Proof. intros Hco Hh Hf Hs Hp He. exact (wire_send p s c Hco method (form_encode q) h body Hh Hf e Hs Hp He). Qed.

Ltac queried key x :=
  match goal with |- context [param ?rq key] => replace (param rq key) with x by (erewrite param_query by reflexivity; reflexivity) end.

(** A replica is put into the peer's cache. *)
Lemma peer_replicate_ok p s c b k e cache :
  peer_connected p s c -> ca_delivery c = Answered -> ss_write_cache s = Some cache -> WriteCache.wf cache ->
  validate_bucket_name b = Ok tt -> validate_object_key k = Ok tt ->
  (WriteCache.mem_size e < 2 ^ 63)%N -> (WriteCache.size_bytes cache + WriteCache.mem_size e <= WriteCache.max_bytes cache)%N ->
  portable e ->
  exists e' cache', same_entry e e' /\ WriteCache.wf cache' /\
    WriteCache.entries cache' = <[(b, k) := e']> (WriteCache.entries cache) /\
    peer_replicate volume_info created_at p c b k e s = Some (with_write_cache cache' s, Ok tt).
Proof.
  intros Hco Hd Hc Hwf Hb Hk Hsz Hfit Hpo. destruct (entry_reads_back e Hpo) as (body & e1 & E1 & E2 & Hse).
  set (e' := set_cached_local (st_instant (ca_time c)) e1). assert (Hse' : same_entry e e') by by apply same_entry_local.
  pose proof (same_entry_size _ _ Hse') as Hms. rewrite Hms in Hsz, Hfit.
  destruct (WriteCache.wf_insert cache b k e' Hwf Hsz) as (Hw & _ & Hins).
  rewrite bool_decide_eq_true_2 in Hins by done. destruct Hins as [Hok Hent].
  exists e', (WriteCache.insert cache b k e').1. split_and!; [done..|].
  unfold peer_replicate. rewrite E1.
  rewrite (peer_send p s c _ _ _ _ ECacheReplicate Hco (visible_one "content-type" "application/msgpack" eq_refl) (conj eq_refl eq_refl))
    by (vm_compute; reflexivity).
  rewrite Hd. unfold handle_endpoint, handle_cache_replicate, respond, validate_bucket_key.
  queried "bucket" b. queried "key" k. rewrite Hc, Hb, Hk. cbn [ok_or mbind result_bind on_error rq_body peer_request].
  rewrite E2. cbn [mbind result_bind on_error]. fold e'. rewrite Hok, ok_empty_ok. done.
Qed.

Lemma peer_sync_pull_ok p s c node cache :
  peer_connected p s c -> ca_delivery c <> NotSent -> ss_write_cache s = Some cache -> WriteCache.wf cache -> node <> "" ->
  map_Forall (fun _ => portable) (WriteCache.entries cache) ->
  exists cache' l r, WriteCache.wf cache' /\
    WriteCache.entries cache' =
      filter (fun e : CacheKey * WriteCache.CacheEntry => bool_decide (WriteCache.primary_node_id e.2 = node) = false)
        (WriteCache.entries cache) /\
    peer_sync_pull volume_info created_at p c node s = Some (with_write_cache cache' s, r) /\
    (ca_delivery c = Answered -> r = Ok l) /\ (ca_delivery c = ReplyLost -> is_ok r = false) /\
    exists l0, Forall2 (fun x y : CacheKey * WriteCache.CacheEntry => x.1 = y.1 /\ same_entry x.2 y.2) l0 l /\
      l0 ≡ₚ map_to_list (filter (fun e : CacheKey * WriteCache.CacheEntry =>
                           bool_decide (WriteCache.primary_node_id e.2 = node) = true) (WriteCache.entries cache)).
Proof.
  intros Hco Hd Hc Hwf Hn Hpo.
  destruct (WriteCache.drain_select_spec (fun e => bool_decide (WriteCache.primary_node_id e = node)) cache Hwf) as (Hw & _ & Hent & Hl).
  fold (WriteCache.drain_by_primary cache node) in Hw, Hent, Hl. set (r := WriteCache.drain_by_primary cache node) in *.
  assert (Hr : Forall (fun x : CacheKey * WriteCache.CacheEntry => portable x.2) r.2).
  { apply Forall_forall. intros [key e] Hin. rewrite Hl in Hin. apply elem_of_map_to_list, map_lookup_filter_Some in Hin as [Hin _].
    exact (Hpo key e Hin). }
  destruct (drained_reads_back r.2 Hr) as (body & l & E1 & E2 & Hsame).
  assert (Hh : handle_endpoint volume_info created_at ECacheSync s (ca_time c)
                 (peer_request p c "/_storage/v1/cache-sync" [("primary_node_id", node)] ∅ []) =
               Some (with_write_cache r.1 s, mkResponse 200 {["content-type" := "application/msgpack"]} body)).
  { unfold handle_endpoint, handle_cache_sync, respond. queried "primary_node_id" node. rewrite Hc. cbn [ok_or mbind result_bind].
    rewrite bool_decide_eq_false_2 by done. cbn [mbind result_bind]. fold r. rewrite E1. by rewrite build_response_ok by by apply visible_one. }
  exists r.1, l. unfold peer_sync_pull.
  rewrite (peer_send p s c _ _ _ _ ECacheSync Hco ltac:(apply map_Forall_empty) (conj eq_refl eq_refl)) by (vm_compute; reflexivity).
  destruct (ca_delivery c) eqn:Ed; [|done|]; rewrite Hh; cbn [mbind option_bind peer_answer].
  - change (is_success (mkResponse 200 _ _)) with true. cbn [mbind result_bind rp_body]. rewrite E2.
    eexists. split_and!; [done..| |]; [done|by exists r.2].
  - eexists. split_and!; [done..|by exists r.2].
Qed.

(** C13: What a node replicated to a peer it gets back.  An entry that the peer accepted,
    as the write path makes them (no inline data in its metadata,
    staged_entries_portable), is among those the peer returns when the node asks for its own; it returns only entries
    of that node, keeps the others, and does not touch its volumes. *)
Theorem replica_comes_back p s c1 c2 b k e node cache :
  peer_connected p s c1 -> peer_connected p s c2 -> ca_delivery c1 = Answered -> ca_delivery c2 = Answered ->
  ss_write_cache s = Some cache -> WriteCache.wf cache ->
  validate_bucket_name b = Ok tt -> validate_object_key k = Ok tt ->
  (WriteCache.mem_size e < 2 ^ 63)%N -> (WriteCache.size_bytes cache + WriteCache.mem_size e <= WriteCache.max_bytes cache)%N ->
  WriteCache.primary_node_id e = node -> node <> "" ->
  portable e -> map_Forall (fun _ => portable) (WriteCache.entries cache) ->
  exists s1 s2 l cache2,
    peer_replicate volume_info created_at p c1 b k e s = Some (s1, Ok tt) /\
    peer_sync_pull volume_info created_at p c2 node s1 = Some (s2, Ok l) /\
    (exists e', ((b, k), e') ∈ l /\ same_entry e e') /\
    (forall x, x ∈ l -> WriteCache.primary_node_id x.2 = node) /\
    ss_write_cache s2 = Some cache2 /\ ss_volumes s2 = ss_volumes s /\
    (forall key x, WriteCache.entries cache2 !! key = Some x <->
       key <> (b, k) /\ WriteCache.entries cache !! key = Some x /\ WriteCache.primary_node_id x <> node).
Proof.
  intros Hc1 Hc2 Hd1 Hd2 Hc Hwf Hb Hk Hsz Hfit Hp Hn Hpe Hpc.
  destruct (peer_replicate_ok p s c1 b k e cache) as (e1 & cache1 & Hse & Hwf1 & Hent1 & E1); try done.
  assert (Hc2' : peer_connected p (with_write_cache cache1 s) c2) by (destruct Hc2; by split).
  destruct (peer_sync_pull_ok p (with_write_cache cache1 s) c2 node cache1)
    as (cache2 & l & r & Hwf2 & Hent2 & E2 & Hr & _ & l0 & Hsame & Hl0); try done; [congruence| |].
  { rewrite Hent1. apply map_Forall_insert_2; [by apply (same_entry_portable e)|done]. }
  rewrite (Hr Hd2) in E2. assert (Hp1 : WriteCache.primary_node_id e1 = node) by by rewrite <- Hp, (same_entry_primary _ _ Hse).
  eexists _, _, l, cache2. split_and!; [exact E1|exact E2| | |done|done|].
  - assert (Hin : ((b, k), e1) ∈ l0).
    { rewrite Hl0. apply elem_of_map_to_list, map_lookup_filter_Some. rewrite Hent1, lookup_insert_eq. split; [done|].
      by apply bool_decide_eq_true_2. }
    apply list_elem_of_lookup in Hin as [i Hi]. destruct (Forall2_lookup_l _ _ _ _ _ Hsame Hi) as ([key e2] & Hi2 & Hk2 & Hs2).
    cbn in Hk2, Hs2. subst key. exists e2. split; [by eapply list_elem_of_lookup_2|]. unfold same_entry in *. congruence.
  - intros x [i Hi]%list_elem_of_lookup. destruct (Forall2_lookup_r _ _ _ _ _ Hsame Hi) as ([key x0] & Hi0 & _ & Hs0).
    rewrite <- (same_entry_primary _ _ Hs0). apply (list_elem_of_lookup_2 l0) in Hi0. rewrite Hl0 in Hi0.
    apply elem_of_map_to_list, map_lookup_filter_Some in Hi0 as [_ Hx]. by apply bool_decide_eq_true in Hx.
  - intros key x. rewrite Hent2, map_lookup_filter_Some, bool_decide_eq_false, Hent1, lookup_insert_Some. cbn. split.
    + intros [[[<- <-]|[Hne Hx]] Hnp]; [done|]. by split_and!.
    + intros (Hne & Hx & Hnp). split; [by right|done].
Qed.

(** The peer forgets the entries before the node has them: when the answer to a pull is
    lost, so are the replicas. *)
Theorem lost_answer_loses_replicas p s c b k e node cache :
  peer_connected p s c -> ca_delivery c = ReplyLost -> ss_write_cache s = Some cache -> WriteCache.wf cache -> node <> "" ->
  map_Forall (fun _ => portable) (WriteCache.entries cache) -> WriteCache.entries cache !! (b, k) = Some e -> WriteCache.primary_node_id e = node ->
  exists cache' r, peer_sync_pull volume_info created_at p c node s = Some (with_write_cache cache' s, r) /\
    is_ok r = false /\ WriteCache.entries cache' !! (b, k) = None.
Proof.
  intros Hco Hd Hc Hwf Hn Hpo He Hp.
  destruct (peer_sync_pull_ok p s c node cache) as (cache' & l & r & _ & Hent & E & _ & Hr & _); try done; [congruence|].
  exists cache', r. split_and!; [done|by apply Hr|]. rewrite Hent. apply map_lookup_filter_None. right. intros x Hx.
  cbn. rewrite He in Hx. injection Hx as <-. rewrite bool_decide_eq_false. by intros [].
Qed.

End Peer.

(** ** Concrete instances *)

Lemma digits_visible p : forallb visible (digits p) = true.
Proof. induction p as [p IH|p IH|]; [exact IH|exact IH|done]. Qed.

(** A form as the digits of its number, the path of a URL behind its host. *)
Fixpoint from_slash (l : bytes) : bytes :=
  match l with [] => [] | c :: r => if Ascii.eqb c slash then l else from_slash r end.

Definition demo_http : Http := {|
  header_ok := visible_str;
  to_str := fun s => if visible_str s then Some s else None;
  url_path := fun u => string_of (from_slash (drop 7 (bytes_of u)));
  form_encode := fun l => string_of (digits (encode l));
  form_parse := fun q => default [] (decode (undigits (bytes_of q)));
  status_display := pretty |}.

Lemma from_slash_host host p :
  forallb host_char host = true -> prefixb (bytes_of "/") p = true -> from_slash (host ++ p) = p.
Proof.
  intros Hh Hp. induction host as [|c host IH]; cbn [app].
  - by apply prefixb_spec in Hp as [r ->].
  - apply andb_prop in Hh as [Hc Hh]. cbn [from_slash]. destruct (Ascii.eqb_spec c slash) as [->|]; [done|]. by apply IH.
Qed.

Global Instance demo_http_ok : @HttpOk demo_http.
Proof.
  split.
  - intros s Hs. cbn. by rewrite Hs.
  - intros s t. cbn. destruct (visible_str s); [by intros [= ->]|done].
  - intros e p (host & -> & Hh & _) Hp _. cbn [url_path demo_http]. rewrite !bytes_of_app, <- app_assoc.
    change (drop 7 (bytes_of "http://" ++ (bytes_of host ++ bytes_of p))) with (bytes_of host ++ bytes_of p).
    rewrite from_slash_host by done. apply String.string_of_list_ascii_of_string.
  - intros l. cbn. by rewrite bytes_of_string_of, undigits_digits, decode_encode.
Qed.

(** A token that shows its claims and its secret. *)
Definition demo_jwt : Jwt := {|
  jwt_encode := fun secret c => Ok (string_of (digits (encode (secret, cl_access_key c, cl_iat c, cl_exp c))));
  jwt_decode := fun secret now tok =>
    match decode (undigits (bytes_of tok)), now with
    | Some (x, k, i, e), Some n =>
        if bool_decide (x = secret) && bool_decide (n / NANOS <= e + JWT_LEEWAY)%N then Ok (mkClaims k i e) else Err "invalid token"
    | _, _ => Err "invalid token"
    end |}.

Global Instance demo_jwt_ok : @JwtOk demo_jwt.
Proof.
  split.
  - intros secret c. eexists. split; [done|]. unfold visible_str. rewrite bytes_of_string_of. apply digits_visible.
  - intros secret [k i e] tok now. cbn. intros [= <-] Hle. rewrite bytes_of_string_of, undigits_digits, decode_encode.
    by rewrite !bool_decide_eq_true_2.
  - intros secret [k i e] tok now. cbn. intros [= <-] Hlt. rewrite bytes_of_string_of, undigits_digits, decode_encode.
    rewrite bool_decide_eq_true_2, bool_decide_eq_false_2 by (done || lia). done.
Qed.

Definition demo_errors : ErrorJson := {|
  error_json := fun m => "e"%char :: bytes_of m;
  error_of := fun b => match b with c :: r => if Ascii.eqb c "e" then Some (string_of r) else None | [] => None end;
  decode_error := fun _ => "syntax" |}.

Global Instance demo_errors_ok : @ErrorJsonOk demo_errors.
Proof. intros m. cbn. by rewrite String.string_of_list_ascii_of_string. Qed.

Global Instance CacheEntry_eq_dec : EqDecision WriteCache.CacheEntry.
Proof. solve_decision. Defined.
Global Instance CacheEntry_countable : Countable WriteCache.CacheEntry.
Proof.
  refine (inj_countable'
    (fun e => (WriteCache.shards e, WriteCache.metas e, WriteCache.distribution e, WriteCache.original_size e,
               WriteCache.we_content_type e, WriteCache.we_etag e, WriteCache.we_created_at e, WriteCache.we_user_metadata e,
               WriteCache.we_tags e, WriteCache.cached_at_unix_nanos e, WriteCache.cached_at_local e, WriteCache.primary_node_id e))
    (fun '(a, b, c, d, e, f, g, h, i, j, k, l) => WriteCache.mkCacheEntry a b c d e f g h i j k l) _). by intros [].
Defined.

Definition demo_cache_codec : CacheCodec := {|
  entry_to_vec := fun e => Ok (digits (encode (set_cached_local 0 e)));
  entry_from_slice := fun b => ok_or (decode (undigits b)) "invalid entry";
  drained_to_vec := fun l => Ok (digits (encode (map (fun x : CacheKey * WriteCache.CacheEntry => (x.1, set_cached_local 0 x.2)) l)));
  drained_from_slice := fun b => ok_or (decode (undigits b)) "invalid entries" |}.

Global Instance demo_cache_codec_ok : @CacheCodecOk demo_cache_codec.
Proof.
  split.
  - intros e _. eexists _, _. split; [done|]. cbn. rewrite undigits_digits, decode_encode. done.
  - intros l _. eexists _, _. split; [done|]. cbn. rewrite undigits_digits, decode_encode. split; [done|].
    clear. induction l as [|x l IH]; cbn; by constructor.
Qed.

(** JSON values as trees, and so as numbers. *)
Fixpoint value_tree (v : Value) : gen_tree (bool + Z + string) :=
  match v with
  | Null => GenNode 0 []
  | VBool b => GenLeaf (inl (inl b))
  | Number n => GenLeaf (inl (inr n))
  | VString s => GenLeaf (inr s)
  | Array vs => GenNode 1 (map value_tree vs)
  | VObject ms => GenNode 2 (flat_map (fun m => [GenLeaf (inr m.1); value_tree m.2]) ms)
  end.

Fixpoint tree_value (t : gen_tree (bool + Z + string)) : Value :=
  match t with
  | GenLeaf (inl (inl b)) => VBool b
  | GenLeaf (inl (inr n)) => Number n
  | GenLeaf (inr s) => VString s
  | GenNode 1 ts => Array (map tree_value ts)
  | GenNode 2 ts =>
      VObject ((fix members ts := match ts with GenLeaf (inr k) :: t :: ts => (k, tree_value t) :: members ts | _ => [] end) ts)
  | GenNode _ _ => Null
  end.

Lemma tree_value_tree : forall v, tree_value (value_tree v) = v.
Proof.
  fix IH 1. intros [|b|n|s|vs|ms]; cbn; try done; f_equal.
  - induction vs as [|v vs IHvs]; cbn; [done|]. by rewrite IH, IHvs.
  - induction ms as [|[k v] ms IHms]; cbn; [done|]. by rewrite IH, IHms.
Qed.

Global Instance Value_eq_dec : EqDecision Value.
Proof.
  intros a b. destruct (decide (value_tree a = value_tree b)) as [E|E]; [left|right; by intros ->].
  by rewrite <- (tree_value_tree a), E, tree_value_tree.
Defined.
Global Instance Value_countable : Countable Value := inj_countable' value_tree tree_value tree_value_tree.

Global Instance BucketSettings_eq_dec : EqDecision BucketSettings.
Proof. solve_decision. Defined.
Global Instance BucketSettings_countable : Countable BucketSettings.
Proof.
  refine (inj_countable' (fun st => (bs_versioning st, bs_ftt st, bs_tags st, bs_policy st, bs_lifecycle st))
            (fun '(a, b, c, d, e) => mkBucketSettings a b c d e) _). by intros [].
Defined.

(** Settings marked by their first byte, so that an error is no settings. *)
Definition demo_settings_json : Json BucketSettings := {|
  to_json := fun st => Some ("s"%char :: digits (encode st));
  from_json := fun b => match b with c :: r => if Ascii.eqb c "s" then decode (undigits r) else None | [] => None end |}.

Global Instance demo_settings_json_ok : @JsonOk BucketSettings demo_settings_json.
Proof. intros st. eexists. split; [done|]. cbn. by rewrite undigits_digits, decode_encode. Qed.

(** A node that speaks no raft. *)
Definition demo_raft : RaftNode unit := {|
  rpc_request := fun _ => unit; rpc_reply := fun _ => unit;
  rpc_decode := fun _ _ => Err "closed"; rpc_encode := fun _ _ => Err "closed"; raft_handle := fun _ r _ => (r, Err "closed") |}.

Section Demo.
  Local Existing Instances demo_raft example_hashes ex_codec two_uuids digit_codec plain_base64 demo_settings_codec
    demo_http demo_errors demo_jwt demo_cache_codec demo_settings_json.
Local Instance meta_json : Json ObjectMeta := countable_json ObjectMeta.
Local Instance metas_json : Json (list ObjectMeta) := countable_json (list ObjectMeta).
Local Instance names_json : Json (list string) := countable_json (list string).
Local Instance flag_json : Json bool := countable_json bool.
Local Instance time_json : Json N := countable_json N.
Local Instance meta_json_ok : JsonOk ObjectMeta := countable_json_ok _.
Local Instance metas_json_ok : JsonOk (list ObjectMeta) := countable_json_ok _.
Local Instance names_json_ok : JsonOk (list string) := countable_json_ok _.
Local Instance flag_json_ok : JsonOk bool := countable_json_ok _.
Local Instance time_json_ok : JsonOk N := countable_json_ok _.

Definition no_info (_ : LocalVolume) : bytes := [].
Definition no_time (_ : LocalVolume) (_ : string) : N := 0.

Definition demo_server : StorageServer unit :=
  with_write_cache (WriteCache.new 100000) (server_new {["/data" := demo_volume]} "key" "secret" false).
Definition demo_remote : RemoteVolume := mkRemoteVolume "http://b:9000" "/data" "key" "secret" false.

(** The client's clock is a minute behind the server's. *)
Definition demo_call : Call :=
  mkCall (Some (1000 * NANOS)%N) (mkServerTime (Some (1060 * NANOS)%N) 5 6) Answered.

Lemma demo_origin : is_origin "http://b:9000".
Proof. by exists "b:9000". Qed.

Lemma demo_connected : connected demo_remote demo_server demo_volume demo_call.
Proof.
  split; [exact demo_origin|done|apply lookup_singleton_eq|right]. split_and!; try done.
  exists (1000 * NANOS)%N, (1060 * NANOS)%N. done.
Qed.

Lemma remote_refines_local_witness :
  remote_do no_info no_time (OMakeBucket "photos") demo_remote demo_call demo_server =
  Some (set_volume "/data" (make_bucket demo_volume "photos").1 demo_server, Ok AUnit).
Proof.
  rewrite (remote_refines_local no_info no_time demo_remote demo_server demo_volume demo_call demo_connected).
  - vm_compute. reflexivity.
  - intros e. unfold storage_error_response. rewrite error_response_ok. done.
  - intros vol' d m. by vm_compute.
Defined.

Lemma errors_cross_the_wire_witness : remote_view ObjectNotFound = ObjectNotFound /\ remote_view Bitrot = Io "bitrot detected".
Proof. split; [exact (errors_cross_the_wire ObjectNotFound)|exact (errors_cross_the_wire Bitrot)]. Defined.

Lemma accepted_window_witness :
  is_ok (authenticate demo_server (ca_time demo_call) (request demo_remote demo_call "/list-buckets" [] [])) = true.
Proof.
  rewrite (proj1 (accepted_window no_info no_time demo_server demo_remote demo_call (ca_time demo_call)
    (1000 * NANOS)%N (1060 * NANOS)%N "b" "k" None [] "/list-buckets" [] [] eq_refl eq_refl eq_refl eq_refl eq_refl eq_refl eq_refl)).
  vm_compute. reflexivity.
Defined.

Definition demo_peer : PeerCacheClient := peer_new "http://b:9000/" "key" "secret" false.
Definition demo_entry : WriteCache.CacheEntry :=
  WriteCache.mkCacheEntry [bytes_of "x"] [] [0] 1 "text/plain" "etag" 7 ∅ ∅ 0 3 "node-a".

Lemma demo_peer_connected : peer_connected demo_peer demo_server demo_call.
Proof.
  split; [exact demo_origin|right]. split_and!; try done. exists (1000 * NANOS)%N, (1060 * NANOS)%N. done.
Qed.

Lemma replica_comes_back_witness :
  exists s1 s2 l, peer_replicate no_info no_time demo_peer demo_call "photos" "cat" demo_entry demo_server = Some (s1, Ok tt) /\
    peer_sync_pull no_info no_time demo_peer demo_call "node-a" s1 = Some (s2, Ok l) /\
    exists e', (("photos", "cat"), e') ∈ l /\ same_entry demo_entry e'.
Proof.
  destruct (replica_comes_back no_info no_time demo_peer demo_server demo_call demo_call "photos" "cat" demo_entry "node-a"
    (WriteCache.new 100000)) as (s1 & s2 & l & c2 & E1 & E2 & E3 & _).
  - exact demo_peer_connected.
  - exact demo_peer_connected.
  - reflexivity.
  - reflexivity.
  - reflexivity.
  - by apply WriteCache.wf_new.
  - vm_compute. reflexivity.
  - vm_compute. reflexivity.
  - vm_compute. reflexivity.
  - vm_compute. discriminate.
  - reflexivity.
  - discriminate.
  - constructor.
  - apply map_Forall_empty.
  - exists s1, s2, l. split; [exact E1|]. split; [exact E2|exact E3].
Defined.

(** An endpoint that ends in a slash, which the configuration may hold: single calls trim
    it, the streaming writer does not and ends at a path that does not exist. *)
Definition slash_remote : RemoteVolume := mkRemoteVolume "http://b:9000/" "/data" "key" "secret" false.

Theorem trailing_slash_breaks_streaming :
  (exists s', remote_make_bucket no_info no_time slash_remote demo_call "photos" demo_server = Some (s', Ok tt)) /\
  exists e, remote_finalize no_info no_time (remote_open_shard_writer slash_remote "photos" "cat" None) demo_call demo_meta demo_server
    = Some (demo_server, Err e).
Proof. split; eexists; vm_compute; reflexivity. Qed.

(** A streaming request signed by a clock that is years ahead is accepted: the time of
    signing is not checked. *)
Theorem future_token_is_accepted :
  let c := mkCall (Some (1000000000 * NANOS)%N) (ca_time demo_call) Answered in
  authenticate demo_server (ca_time c)
    (writer_request (remote_open_shard_writer demo_remote "photos" "cat" None) c "/write-shard" [] []) = Ok tt /\
  is_ok (authenticate demo_server (ca_time c) (request demo_remote c "/write-shard" [] [])) = false.
Proof. split; vm_compute; reflexivity. Qed.

End Demo.
