(* ===== verification/Startup.v ===== *)
(** How a node starts ([src/main.rs]): the backends it builds from its identity, the pool it
    configures over them, the volumes it serves to its peers, its peer cache clients and its raft
    identity.

    A message printed before [exit(1)] is an [Err], up to the text of the error in it; [None] is a
    panic.  The files of the host are
    one [FS]; [logs] are the log directories below the volumes.  Building an HTTP client does not
    fail here. *)

From Stdlib Require Import Ascii.
From stdpp Require Import base list gmap strings numbers pretty.
From S2P Require Import Policy Prelude Metadata Needle Segment Pathing Wal WalRecovery Materialize RaftFsm FileSys LocalVolume.
From S2P Require Import LocalObjects VolumeRestart Placement Erasure Backend ErasureDecode ErasurePut Caches Heal.
From S2P Require Import VolumePool Config VolumeFormat Topology Internode StorageServer RemoteVolume RemoteSpec PeerReplica.

Open Scope string_scope.
Open Scope list_scope.

Inductive NodeBackend : Type :=
  | LocalDisk (v : LocalVolume)
  | RemoteDisk (r : RemoteVolume).

(** The keys of the environment. *)
Record Keys : Type := mkKeys { k_access : string; k_secret : string }.

Section Start.
  Context `{Hashes} `{MetaCodec} `{UuidParser} `{MetaFileCodec} `{Base64} `{SettingsCodec} `{!Json VolumeFormat}.

(** [LocalVolume::new] on a path of the host. *)
Definition open_local (fs : FS) (vp : string) : Result LocalVolume :=
  local_new (components vp) fs
    match read_volume_format fs vp with Ok (Some f) => Some (vf_volume_id f) | _ => None end.

Definition start_local (seg_size : nat) (fs : FS) (logs : string -> gmap string bytes) (now : N) (tier vp : string)
    : option (result string LocalVolume) :=
  match open_local fs vp with
  | Err _ => Some (Err ("error: local volume " +:+ vp))
  | Ok v =>
      if bool_decide (tier = "wal") then
        r ← enable_wal seg_size v (logs vp) now;
        Some match r.2 with Ok _ => Ok r.1 | Err _ => Err ("error: enable WAL on " +:+ vp) end
      else Some (Ok v)
  end.

Definition start_volume (seg_size : nat) (fs : FS) (logs : string -> gmap string bytes) (now : N) (cfg : Config) (keys : Keys)
    (self : string) (nv : NodeVolumes) (vp : string) : option (result string NodeBackend) :=
  if bool_decide (nv_node_id nv = self) then
    r ← start_local seg_size fs logs now (c_write_tier cfg) vp;
    Some (v ← r; Ok (LocalDisk v))
  else Some (Ok (RemoteDisk (mkRemoteVolume (nv_endpoint nv) vp (k_access keys) (k_secret keys) (c_no_auth cfg)))).

(** The two nested loops, with the first error ending them. *)
Fixpoint start_volumes (start : NodeVolumes -> string -> option (result string NodeBackend)) (l : list (NodeVolumes * string))
    : option (result string (list NodeBackend)) :=
  match l with
  | [] => Some (Ok [])
  | (nv, vp) :: l =>
      r ← start nv vp;
      match r with
      | Err e => Some (Err e)
      | Ok b => rs ← start_volumes start l; Some (bs ← rs; Ok (b :: bs))
      end
  end.

Definition volumes_of (nvs : list NodeVolumes) : list (NodeVolumes * string) :=
  flat_map (fun nv => map (pair nv) (nv_volume_paths nv)) nvs.

Definition build_backends (seg_size : nat) (fs : FS) (logs : string -> gmap string bytes) (now : N) (cfg : Config) (keys : Keys)
    (id : ResolvedIdentity) : option (result string (list NodeBackend)) :=
  if negb (c_no_auth cfg) && (bool_decide (k_access keys = "") || bool_decide (k_secret keys = "")) then
    Some (Err "error: ABIXIO_ACCESS_KEY and ABIXIO_SECRET_KEY must be set (or use --no-auth)")
  else
    r ← start_volumes (start_volume seg_size fs logs now cfg keys (ri_node_id id)) (volumes_of (ri_node_volumes id));
    Some (bs ← r; if bool_decide (length bs = 0) then Err "error: no backends available" else Ok bs).

(** The counts that are logged. *)
Definition local_count (id : ResolvedIdentity) : nat :=
  sum_list (map (fun nv => length (nv_volume_paths nv)) (List.filter (fun nv => bool_decide (nv_node_id nv = ri_node_id id)) (ri_node_volumes id))).
Definition remote_count (id : ResolvedIdentity) (bs : list NodeBackend) : nat := length bs - local_count id.

(** The volumes served to the peers: opened a second time, and without the log. *)
Definition server_volumes (fs : FS) (volume_paths : list string) : gmap string LocalVolume :=
  list_to_map (rev (omap (fun p => v ← result_ok (open_local fs p); Some (p, v)) volume_paths)).

(** The clients of the peers' caches. *)
Definition peer_clients (cfg : Config) (keys : Keys) (id : ResolvedIdentity) : list PeerCacheClient :=
  if bool_decide (0 < c_write_cache cfg)%N && c_write_cache_peer_replicate cfg then
    let self_advertise := trim_end_slashes (ri_advertise id) in
    omap (fun peer =>
      let endpoint := trim_end_slashes peer in
      if bool_decide (endpoint = "") || bool_decide (endpoint = self_advertise) then None
      else Some (peer_new endpoint (k_access keys) (k_secret keys) (c_no_auth cfg))) (ri_nodes id)
  else [].

(** The first eight bytes of the hash; [blake3] is the crate's. *)
Definition derive_raft_id (blake3 : bytes -> bytes) (node_id : string) : N := le_val (take 8 (blake3 (bytes_of node_id))).

Definition raft_id (blake3 : bytes -> bytes) (cfg : Config) (id : ResolvedIdentity) : N :=
  if bool_decide (0 < c_raft_id cfg)%N then c_raft_id cfg else derive_raft_id blake3 (ri_node_id id).

(** [volume_paths[0]] panics when there is none. *)
Definition raft_dir (cfg : Config) (volume_paths : list string) : option Path :=
  if negb (bool_decide (c_raft_dir cfg = "")) then Some (components (c_raft_dir cfg))
  else p ← volume_paths !! 0; Some (push (push (components p) ".abixio.sys") "raft").

(** [parse_listen_addr]; [parse] is the parser of socket addresses. *)
Definition parse_listen_addr {A : Type} (parse : string -> option A) (s : string) : result string A :=
  let s := if starts_with ":" s then "0.0.0.0" +:+ s else s in
  ok_or (parse s) ("invalid listen address: " +:+ s).

(** ** What is started *)

(** The backend of one volume of the identity. *)
Definition started (cfg : Config) (keys : Keys) (self : string) (x : NodeVolumes * string) (b : NodeBackend) : Prop :=
  match b with
  | LocalDisk v => nv_node_id x.1 = self /\ lv_root v = components x.2 /\ (is_Some (lv_wal v) <-> c_write_tier cfg = "wal")
  | RemoteDisk r => nv_node_id x.1 <> self /\ r = mkRemoteVolume (nv_endpoint x.1) x.2 (k_access keys) (k_secret keys) (c_no_auth cfg)
  end.

Lemma open_local_fields fs vp v : open_local fs vp = Ok v -> lv_root v = components vp /\ lv_wal v = None.
Proof.
  unfold open_local, local_new. case_match; [|done]. destruct (mkdir_all _ _) as [fs' r]. cbn. destruct r; [|done]. cbn. by intros [= <-].
Qed.

Lemma enable_wal_fields seg v dir now v' r : lv_wal v = None -> enable_wal seg v dir now = Some (v', r) ->
  r = Ok tt /\ lv_root v' = lv_root v /\ is_Some (lv_wal v').
Proof.
  unfold enable_wal, enable_wal_with_config. intros ->. case_bool_decide; [|done]. intros E.
  apply bind_Some in E as (w & _ & E). apply bind_Some in E as (st & _ & E). injection E as <- <-. cbn. eauto.
Qed.

Lemma start_volume_ok seg fs logs now cfg keys self nv vp b :
  start_volume seg fs logs now cfg keys self nv vp = Some (Ok b) -> started cfg keys self (nv, vp) b.
Proof.
  unfold start_volume, start_local. case_bool_decide as Hs; [|by intros [= <-]].
  destruct (open_local fs vp) as [v|e] eqn:Eo; [|done]. destruct (open_local_fields _ _ _ Eo) as [Hr Hn].
  case_bool_decide as Ht; cbn.
  - intros E. apply bind_Some in E as (r & E1 & E). apply bind_Some in E1 as ([v' r'] & Ee & E1).
    destruct (enable_wal_fields _ _ _ _ _ _ Hn Ee) as (-> & Hr' & Hw). cbn in E1. injection E1 as <-. cbn in E. injection E as <-.
    cbn. split; [done|]. rewrite Hr'. done.
  - intros [= <-]. cbn. rewrite Hn. split_and!; [done|done|]. split; [by intros []|done].
Qed.

Lemma start_volumes_ok start (P : NodeVolumes * string -> NodeBackend -> Prop) l bs :
  (forall nv vp b, start nv vp = Some (Ok b) -> P (nv, vp) b) -> start_volumes start l = Some (Ok bs) -> Forall2 P l bs.
Proof.
  intros Hp. revert bs. induction l as [|[nv vp] l IH]; intros bs; cbn; [by intros [= <-]|].
  intros E. apply bind_Some in E as (r & Er & E). destruct r as [b|]; [|done]. apply bind_Some in E as (rs & Ers & E).
  destruct rs as [bs'|]; [|done]. cbn in E. injection E as <-. constructor; eauto.
Qed.

Definition is_local (b : NodeBackend) : bool := match b with LocalDisk _ => true | RemoteDisk _ => false end.

Lemma local_count_ok cfg keys id bs : Forall2 (started cfg keys (ri_node_id id)) (volumes_of (ri_node_volumes id)) bs ->
  local_count id = length (List.filter is_local bs).
Proof.
  unfold local_count, volumes_of. generalize (ri_node_volumes id). intros nvs. revert bs.
  induction nvs as [|nv nvs IH]; intros bs Hf; cbn [flat_map] in Hf.
  { apply Forall2_nil_inv_l in Hf as ->. done. }
  apply Forall2_app_inv_l in Hf as (b1 & b2 & H1' & H2' & ->). rewrite List.filter_app, length_app, <- (IH _ H2'). cbn [List.filter].
  assert (Hb : length (List.filter is_local b1) = if bool_decide (nv_node_id nv = ri_node_id id) then length (nv_volume_paths nv) else 0).
  { clear -H1'. revert b1 H1'. induction (nv_volume_paths nv) as [|vp vps IHv]; intros b1 Hf; cbn [map] in Hf.
    - apply Forall2_nil_inv_l in Hf as ->. by case_bool_decide.
    - apply Forall2_cons_inv_l in Hf as (b & b1' & Hb & Hf & ->). cbn [List.filter]. specialize (IHv _ Hf).
      destruct b; destruct Hb as [Hs _]; cbn [is_local fst] in *; [rewrite bool_decide_eq_true_2 in IHv |- * by done|
        rewrite bool_decide_eq_false_2 in IHv |- * by done]; cbn [length]; lia. }
  rewrite Hb. case_bool_decide; cbn [map sum_list_with Datatypes.id]; lia.
Qed.

Lemma started_volumes seg fs logs now cfg keys id bs : build_backends seg fs logs now cfg keys id = Some (Ok bs) ->
  Forall2 (started cfg keys (ri_node_id id)) (volumes_of (ri_node_volumes id)) bs /\ bs <> [].
Proof.
  unfold build_backends. intros E. case_match; [done|]. apply bind_Some in E as (r & Es & E). destruct r as [bs'|]; [|done].
  cbn in E. case_bool_decide as Hl; [done|]. injection E as <-. split; [|by intros ->].
  exact (start_volumes_ok _ (started cfg keys (ri_node_id id)) _ _ (start_volume_ok seg fs logs now cfg keys (ri_node_id id)) Es).
Qed.

(** Where a remote backend comes from. *)
Lemma started_volume seg fs logs now cfg keys id bs r : build_backends seg fs logs now cfg keys id = Some (Ok bs) -> RemoteDisk r ∈ bs ->
  exists nv vp, nv ∈ ri_node_volumes id /\ (nv_node_id nv <> ri_node_id id /\ vp ∈ nv_volume_paths nv) /\
    r = mkRemoteVolume (nv_endpoint nv) vp (k_access keys) (k_secret keys) (c_no_auth cfg).
Proof.
  intros [Hf _]%started_volumes [i Hi]%list_elem_of_lookup. destruct (Forall2_lookup_r _ _ _ _ _ Hf Hi) as ([nv vp] & Hx & Hne & ->).
  apply list_elem_of_lookup_2, list_elem_of_In, in_flat_map in Hx as (nv' & Hnv & Hm). apply in_map_iff in Hm as (vp' & E & Hvp).
  injection E as -> ->. exists nv, vp. rewrite !list_elem_of_In. done.
Qed.

(** A node starts on exactly the volumes of its identity.  When start-up succeeds there is
    one backend for each volume of each node, in the order of the identity: a local volume at the
    volume's path, with a write-ahead log exactly when the write tier asks for one, for the node's
    own volumes, and a remote volume at the other node's endpoint with the node's credentials for
    the rest.  There is at least one, and the two counts that are logged are right and do not
    underflow. *)
Theorem backends_follow_identity seg fs logs now cfg keys id bs :
  build_backends seg fs logs now cfg keys id = Some (Ok bs) ->
  Forall2 (started cfg keys (ri_node_id id)) (volumes_of (ri_node_volumes id)) bs /\ bs <> [] /\
  (c_no_auth cfg = true \/ k_access keys <> "" /\ k_secret keys <> "") /\
  local_count id = length (List.filter is_local bs) /\
  local_count id + remote_count id bs = length bs.
Proof.
  intros E. destruct (started_volumes _ _ _ _ _ _ _ _ E) as [Hf Hne]. pose proof (local_count_ok _ _ _ _ Hf) as Hc.
  split_and!; [done|done| |done|].
  - unfold build_backends in E. destruct (c_no_auth cfg); [by left|right]. cbn [negb andb] in E.
    destruct (bool_decide (k_access keys = "")) eqn:Ea; [done|]. destruct (bool_decide (k_secret keys = "")) eqn:Es; [done|].
    apply bool_decide_eq_false in Ea, Es. done.
  - unfold remote_count. pose proof (List.filter_length_le is_local bs). lia.
Qed.

(** The peers a node replicates its cache to: the configured nodes but itself. *)
Theorem peers_are_the_others cfg keys id p : (0 < c_write_cache cfg)%N -> c_write_cache_peer_replicate cfg = true ->
  p ∈ peer_clients cfg keys id <->
  exists n, n ∈ ri_nodes id /\ trim_end_slashes n <> "" /\ same_endpoint n (ri_advertise id) = false /\
    p = peer_new (trim_end_slashes n) (k_access keys) (k_secret keys) (c_no_auth cfg).
Proof.
  intros Hc Hr. unfold peer_clients. rewrite bool_decide_eq_true_2, Hr by done. cbn [andb]. rewrite list_elem_of_omap. unfold same_endpoint.
  split; intros (n & Hn & Hp); exists n; (split; [done|]).
  - do 2 (case_bool_decide; cbn [orb] in Hp; [done|]). injection Hp as <-. done.
  - destruct Hp as (H1' & H2'%bool_decide_eq_false & ->). by rewrite !bool_decide_eq_false_2.
Qed.

End Start.

(** ** The pool over the node's backends *)

(** A backend in the pool.  A remote volume does what the volume does ([RemoteSpec]), but it knows
    no volume id and ignores the one it is given. *)
Record Seat (B : Type) : Type := mkSeat { seat_remote : bool; seat_disk : B }.
Arguments mkSeat {B}.
Arguments seat_remote {B}.
Arguments seat_disk {B}.

Section Pool.
  Context {B W : Type} `{!Backend B W} `{!HealBackend B} `{!PoolBackend B}.

Definition on_seat {A : Type} (s : Seat B) (r : B * A) : Seat B * A := (mkSeat (seat_remote s) r.1, r.2).

(** [RemoteVolume::info], and the trait's [set_volume_id], which does nothing. *)
Definition seat_volume_id (s : Seat B) : string := if seat_remote s then "" else info_volume_id (seat_disk s).
Definition seat_set_volume_id (id : string) (s : Seat B) : Seat B :=
  if seat_remote s then s else mkSeat false (set_volume_id id (seat_disk s)).

Global Instance seat_backend : Backend (Seat B) W := {|
  open_shard_writer := fun s b k v => on_seat s (open_shard_writer (seat_disk s) b k v);
  write_chunk := fun s w c => on_seat s (write_chunk (seat_disk s) w c);
  finalize := fun s w m => on_seat s (finalize (seat_disk s) w m);
  read_shard := fun s => read_shard (seat_disk s);
  read_versioned_shard := fun s => read_versioned_shard (seat_disk s);
  stat_object := fun s => stat_object (seat_disk s);
  delete_object := fun s b k => on_seat s (delete_object (seat_disk s) b k);
|}.

Global Instance seat_heal_backend : HealBackend (Seat B) := {|
  write_shard := fun s b k d m => on_seat s (write_shard (seat_disk s) b k d m);
  info_volume_id := seat_volume_id;
  list_buckets := fun s => list_buckets (seat_disk s);
  list_objects := fun s => list_objects (seat_disk s);
|}.

Global Instance seat_pool_backend : PoolBackend (Seat B) := {|
  set_volume_id := seat_set_volume_id;
  bucket_exists := fun s => bucket_exists (seat_disk s);
  disk_make_bucket := fun s b => on_seat s (disk_make_bucket (seat_disk s) b);
  disk_delete_bucket := fun s b => on_seat s (disk_delete_bucket (seat_disk s) b);
  bucket_created_at := fun s => bucket_created_at (seat_disk s);
  read_meta_versions := fun s => read_meta_versions (seat_disk s);
  write_meta_versions := fun s b k vs => on_seat s (write_meta_versions (seat_disk s) b k vs);
  delete_version_data := fun s b k v => on_seat s (delete_version_data (seat_disk s) b k v);
  read_bucket_settings := fun s => read_bucket_settings (seat_disk s);
  write_bucket_settings := fun s b st => on_seat s (write_bucket_settings (seat_disk s) b st);
  drain_pending_writes := fun s => mkSeat (seat_remote s) (drain_pending_writes (seat_disk s));
|}.

End Pool.

(** ** What the pool offers to a peer *)

Section Replicas.
  Context `{Hashes} `{ReedSolomon} `{UuidParser} {B W P : Type} `{!Backend B W} `{!HealBackend B} `{!PoolBackend B} `{!PeerCache P}.

(** Every entry that a small PUT makes for the write cache can be carried to a peer. *)
Theorem staged_entries_portable b k data opts t node (p p' : VolumePool B P) s :
  encode_small b k data opts t p = Some (p', Ok s) -> portable (small_entry s data opts t node).
Proof.
  unfold encode_small, mbind at 1, pool_bind at 1. destruct (resolve_ec b opts p) as [[p1 [ec|e]]|]; [|done..].
  unfold mbind at 1, pool_bind at 1. destruct (small_shards ec.1 ec.2 data p1) as [[p2 [shards|e]]|]; [|done..].
  unfold mbind, pool_bind, gets, lift. destruct (map_err _ _) as [r|e]; [|done]. intros [= _ <-].
  apply Forall_forall. intros m Hm. apply elem_of_lookup_imap_1 in Hm as (i & sh & -> & _). done.
Qed.

End Replicas.

(** [u64] arithmetic of a release build. *)
Definition megabytes (n : N) : N := as_u64 (n * 1024 * 1024).

(** The pool as [main] sets it up. *)
Definition configure_pool {B P : Type} `{!HealBackend B} `{!PoolBackend B} (cfg : Config) (id : ResolvedIdentity)
    (bs : list B) (peers : list P) : Result (VolumePool B P) :=
  p ← pool_new bs;
  let p := set_local_node_id (ri_node_id id) p in
  let p := if bool_decide (0 < c_write_cache cfg)%N then enable_write_cache (megabytes (c_write_cache cfg)) p else p in
  let p := if bool_decide (0 < c_read_cache cfg)%N
           then enable_read_cache (megabytes (c_read_cache cfg)) (c_read_cache_max_object cfg) p else p in
  Ok (set_mrf (Some (mrf_new (N.to_nat 1000))) (set_peer_cache_clients peers p)).

Lemma configure_pool_fields {B P : Type} `{!HealBackend B} `{!PoolBackend B} cfg id (bs : list B) (peers : list P) p :
  configure_pool cfg id bs peers = Ok p ->
  vp_disks p = assign_volume_ids bs /\ vp_peers p = peers /\ vp_local_node_id p = ri_node_id id /\
  pt_disks (vp_placement p) = imap (fun i d => mkPlacementVolume i "local" (info_volume_id d)) (assign_volume_ids bs).
Proof.
  unfold configure_pool. destruct (pool_new bs) as [p0|e] eqn:E0; cbn [mbind result_bind]; [|done]. intros [= <-].
  unfold pool_new in E0. destruct (bool_decide (length bs = 0)); [done|]. injection E0 as <-. unfold enable_read_cache.
  repeat case_bool_decide; done.
Qed.

(** The configured caches have the sizes asked for, when those are less than 2^44 megabytes; a
    size of zero leaves the cache out. *)
Theorem caches_as_configured {B P : Type} `{!HealBackend B} `{!PoolBackend B} cfg id (bs : list B) (peers : list P) p :
  configure_pool cfg id bs peers = Ok p -> (c_write_cache cfg < 2 ^ 44)%N -> (c_read_cache cfg < 2 ^ 44)%N ->
  vp_write_cache p = (if bool_decide (c_write_cache cfg = 0)%N then None else Some (WriteCache.new (c_write_cache cfg * 2 ^ 20))) /\
  vp_read_cache p = (if bool_decide (c_read_cache cfg = 0)%N then None
                     else Some (ReadCache.new (c_read_cache cfg * 2 ^ 20) (c_read_cache_max_object cfg))).
Proof.
  unfold configure_pool. destruct (pool_new bs) as [p0|e] eqn:E0; cbn [mbind result_bind]; [|done]. intros [= <-] Hw Hr.
  unfold pool_new in E0. destruct (bool_decide (length bs = 0)); [done|]. injection E0 as <-.
  assert (Hm : forall n, (n < 2 ^ 44)%N -> megabytes n = (n * 2 ^ 20)%N).
  { intros n Hn. unfold megabytes. rewrite wrap_small by lia. lia. }
  rewrite !Hm by done. unfold enable_read_cache. split.
  - repeat case_bool_decide; try done; lia.
  - repeat case_bool_decide; try done; lia.
Qed.

(** Every volume is placed on the node named local, whatever node it is on: the planner spreads
    the shards over the volumes, not over the nodes. *)
Theorem placement_ignores_nodes {B P : Type} `{!HealBackend B} `{!PoolBackend B} cfg id (bs : list B) (peers : list P) p v :
  configure_pool cfg id bs peers = Ok p -> v ∈ pt_disks (vp_placement p) -> pv_node_id v = "local".
Proof.
  intros Hp Hv. destruct (configure_pool_fields _ _ _ _ _ Hp) as (_ & _ & _ & E). rewrite E in Hv.
  apply elem_of_lookup_imap in Hv as (i & d & -> & _). done.
Qed.

(** The remote volumes of a pool all have the empty id, in the placement too. *)
Theorem remotes_share_an_id {B W P : Type} `{!Backend B W} `{!HealBackend B} `{!PoolBackend B} cfg id (bs : list (Seat B)) (peers : list P) p i s :
  configure_pool cfg id bs peers = Ok p -> bs !! i = Some s -> seat_remote s = true ->
  (info_volume_id <$> vp_disks p) !! i = Some "" /\ (pv_volume_id <$> pt_disks (vp_placement p)) !! i = Some "".
Proof.
  intros Hp Hi Hr. destruct (configure_pool_fields _ _ _ _ _ Hp) as (Ed & _ & _ & E).
  assert (Hd : assign_volume_ids bs !! i = Some s).
  { unfold assign_volume_ids. rewrite list_lookup_imap, Hi. cbn [fmap option_fmap option_map]. case_bool_decide; [|done].
    cbn. unfold seat_set_volume_id. by rewrite Hr. }
  assert (Hs : info_volume_id s = "") by (cbn; unfold seat_volume_id; by rewrite Hr).
  rewrite E, Ed, !list_lookup_fmap, list_lookup_imap, Hd. cbn [fmap option_fmap option_map]. by rewrite Hs.
Qed.

(** ** After a restart of the node *)

Section Rejoin.
  Context `{Hashes} `{MetaCodec} `{UuidParser} `{MetaFileCodec} `{Base64} `{SettingsCodec} `{!Json VolumeFormat}.

Lemma server_volumes_paths fs paths p : is_Some (server_volumes fs paths !! p) -> p ∈ paths.
Proof.
  unfold server_volumes. intros [v Hv]. apply elem_of_list_to_map_2 in Hv. apply list_elem_of_In, List.in_rev, list_elem_of_In in Hv.
  apply list_elem_of_omap in Hv as (q & Hq & E). destruct (open_local fs q); [|done]. cbn in E. by injection E as -> _.
Qed.

Lemma by_node_ids members n ids vid : by_node members !! n = Some ids -> vid ∈ ids -> exists m, m ∈ members /\ sm_volume_id m = vid.
Proof.
  unfold by_node. revert ids. induction members as [|m members IH] using rev_ind; intros ids Hn Hv; [done|].
  rewrite fold_left_app in Hn. cbn in Hn. set (acc := fold_left _ members ∅) in *. destruct (decide (n = sm_node_id m)) as [->|Hne].
  - rewrite lookup_insert_eq in Hn. injection Hn as <-. apply elem_of_app in Hv as [Hv| ->%list_elem_of_singleton].
    + destruct (acc !! sm_node_id m) as [l|] eqn:El; [|by apply not_elem_of_nil in Hv]. destruct (IH _ eq_refl Hv) as (m' & Hm & E).
      exists m'. set_solver.
    + exists m. set_solver.
  - rewrite lookup_insert_ne in Hn by done. destruct (IH _ Hn Hv) as (m' & Hm & E). exists m'. set_solver.
Qed.

(** After its first restart a node looks for the volumes of the other nodes under their ids: no
    remote volume of its pool names a path, so a peer that serves its volumes under their paths
    knows none of them, and every operation on it is refused. *)
Theorem rejoined_volumes_unknown iter seg fs logs now cfg keys node adv cluster members paths nodes bs r peer_fs peer_paths :
  (forall m x, x ∈ iter m -> m !! x.1 = Some x.2) ->
  build_backends seg fs logs now cfg keys (rejoined iter node adv cluster members paths nodes) = Some (Ok bs) ->
  RemoteDisk r ∈ bs -> (forall m, m ∈ members -> sm_volume_id m ∉ peer_paths) ->
  server_volumes peer_fs peer_paths !! rv_volume_path r = None.
Proof.
  intros Hiter Hb Hr Hids. apply eq_None_not_Some. intros Hs%server_volumes_paths.
  destruct (started_volume _ _ _ _ _ _ _ _ _ Hb Hr) as (nv & vp & Hin & Hne & ->). cbn [rv_volume_path] in Hs.
  cbn [rejoined ri_node_volumes ri_node_id] in Hin, Hne. unfold build_node_volumes_from_members in Hin.
  apply elem_of_app in Hin as [Hin|Hin].
  - case_bool_decide; [|by apply not_elem_of_nil in Hin]. apply list_elem_of_singleton in Hin. destruct Hne as [Hne _]. by rewrite Hin in Hne.
  - apply list_elem_of_omap in Hin as ([nid ids] & Hx & E). case_bool_decide; [done|]. injection E as <-. destruct Hne as [_ Hvp]. cbn in Hvp.
    destruct (by_node_ids members nid ids vp (Hiter _ _ Hx) Hvp) as (m & Hm & <-). by apply (Hids m).
Qed.

End Rejoin.

(** ** Concrete nodes *)

Section Demo.
  Local Existing Instances demo_raft example_hashes ex_meta_codec ex_uuid ex_meta_file_codec plain_base64 demo_settings_codec
    demo_http demo_errors demo_jwt demo_cache_codec demo_settings_json.
Local Instance node_meta_json : Json ObjectMeta := countable_json ObjectMeta.
Local Instance node_metas_json : Json (list ObjectMeta) := countable_json (list ObjectMeta).
Local Instance node_names_json : Json (list string) := countable_json (list string).
Local Instance node_flag_json : Json bool := countable_json bool.
Local Instance node_time_json : Json N := countable_json N.

(** No volume file: the volumes have no id of their own. *)
Local Instance no_format : Json VolumeFormat := {| to_json := fun _ => None; from_json := fun _ => None |}.

Definition no_logs (_ : string) : gmap string bytes := ∅.
Definition node_config : Config := default_config ["/data"].
Definition node_keys : Keys := mkKeys "key" "secret".

(** Node a of a cluster of two, with one volume each. *)
Definition node_a : ResolvedIdentity :=
  mkResolvedIdentity "a" "c" "http://a:9000" ["http://a:9000"; "http://b:9000/"; ""] ["/data"] []
    [mkNodeVolumes "a" "http://a:9000" ["/data"]; mkNodeVolumes "b" "http://b:9000" ["/data"]].

Definition starts (seg : nat) (fs : FS) (logs : string -> gmap string bytes) (now : N) (cfg : Config) (keys : Keys) (id : ResolvedIdentity) : bool :=
  match build_backends seg fs logs now cfg keys id with Some (Ok _) => true | _ => false end.

Lemma starts_some seg fs logs now cfg keys id : starts seg fs logs now cfg keys id = true ->
  exists bs, build_backends seg fs logs now cfg keys id = Some (Ok bs).
Proof. unfold starts. destruct (build_backends _ _ _ _ _ _ _) as [[bs|]|]; [|done..]. eauto. Qed.

Lemma node_a_starts : starts 300 demo_fs no_logs 1 node_config node_keys node_a = true.
Proof. vm_compute. reflexivity. Qed.

Lemma backends_follow_identity_witness :
  exists v, build_backends 300 demo_fs no_logs 1 node_config node_keys node_a
      = Some (Ok [LocalDisk v; RemoteDisk (mkRemoteVolume "http://b:9000" "/data" "key" "secret" false)]) /\
    lv_root v = components "/data" /\ is_Some (lv_wal v) /\ local_count node_a = 1.
Proof.
  destruct (starts_some _ _ _ _ _ _ _ node_a_starts) as (bs & E). rewrite E.
  destruct (backends_follow_identity 300 demo_fs no_logs 1 node_config node_keys node_a bs E) as (Hf & _ & _ & Hc & _). clear E.
  change (volumes_of (ri_node_volumes node_a)) with
    [(mkNodeVolumes "a" "http://a:9000" ["/data"], "/data"); (mkNodeVolumes "b" "http://b:9000" ["/data"], "/data")] in Hf.
  apply Forall2_cons_inv_l in Hf as (b1 & bs1 & H1 & Hf & ->). apply Forall2_cons_inv_l in Hf as (b2 & bs2 & H2 & Hf & ->).
  apply Forall2_nil_inv_l in Hf as ->. destruct b1 as [v|r]; [|by destruct H1]. destruct b2 as [v'|r]; [by destruct H2|].
  destruct H1 as (_ & Hr & Hw). destruct H2 as (_ & ->). exists v. split; [done|]. split; [exact Hr|]. split; [by apply Hw|exact Hc].
Defined.

Lemma peers_are_the_others_witness :
  peer_new "http://b:9000" "key" "secret" false ∈ peer_clients node_config node_keys node_a.
Proof.
  apply (peers_are_the_others node_config node_keys node_a); [vm_compute; reflexivity|reflexivity|].
  exists "http://b:9000/". split; [apply list_elem_of_In; cbn; tauto|]. split_and!; vm_compute; done.
Defined.

(** A peer does not see what is in the log: the volume it is served was opened without one, so a
    small object that this node has acknowledged and reads back is not found by the others until
    a worker has written its file. *)
Definition served : StorageServer unit := server_new (server_volumes (lv_fs logged_cat) ["/data"]) "key" "secret" false.

Theorem peers_miss_the_log :
  local_read_shard logged_cat "bkt" "cat" = Ok (bytes_of "meow", ex_object_meta "e") /\
  snd <$> remote_read_shard no_info no_time demo_remote demo_call "bkt" "cat" served = Some (Err ObjectNotFound).
Proof. split; vm_compute; reflexivity. Qed.

(** The repair of a shard on a remote volume goes to the last remote volume, over the shard that
    is there: volume ids find the target, and remote volumes share the empty one.  The repair
    reports success, the volume that lost its shard stays empty, and the next repair undoes the
    first. *)
Definition shard_meta (i : nat) : ObjectMeta :=
  mkObjectMeta 1 "etag" "text/plain" 7 (mkErasureMeta 2 i 1 ["a"; ""; ""]) "x" ∅ ∅ "" true false [] None.
Definition with_shard_at (i : nat) : MemDisk := mkMemDisk "" false {[("bkt", "obj") := (bytes_of "x", shard_meta i)]}.
Definition three_seats : list (Seat MemDisk) :=
  [mkSeat false (mkMemDisk "a" false {[("bkt", "obj") := (bytes_of "x", shard_meta 0)]});
   mkSeat true (mkMemDisk "" false ∅); mkSeat true (with_shard_at 2)].

Theorem heal_overwrites_remote_shard :
  let r1 := @heal_object _ copy_code _ _ _ _ three_seats "bkt" "obj" in
  let r2 := @heal_object _ copy_code _ _ _ _ r1.1 "bkt" "obj" in
  r1.2 = Ok (Repaired 1) /\ (fun s => read_shard s "bkt" "obj") <$> r1.1 =
    [Ok (bytes_of "x", shard_meta 0); Err ObjectNotFound; Ok (bytes_of "x", shard_meta 1)] /\
  r2 = (three_seats, Ok (Repaired 1)).
Proof. vm_compute. done. Qed.

(** Node a after its restart. *)
Definition node_again : ResolvedIdentity :=
  rejoined map_to_list "a" "http://a:9000" "c" [mkSetMember "va" "a" 0; mkSetMember "vb" "b" 1] ["/data"] ["http://b:9000"].

Lemma node_again_starts : starts 300 demo_fs no_logs 1 node_config node_keys node_again = true.
Proof. vm_compute. reflexivity. Qed.

Lemma rejoined_volumes_unknown_witness :
  exists bs r, build_backends 300 demo_fs no_logs 1 node_config node_keys node_again = Some (Ok bs) /\ RemoteDisk r ∈ bs /\
    server_volumes demo_fs ["/data"] !! rv_volume_path r = None.
Proof.
  destruct (starts_some _ _ _ _ _ _ _ node_again_starts) as (bs & E).
  exists bs, (mkRemoteVolume "http://b:9000" "vb" "key" "secret" false). split; [exact E|].
  assert (Hin : RemoteDisk (mkRemoteVolume "http://b:9000" "vb" "key" "secret" false) ∈ bs).
  { destruct (started_volumes _ _ _ _ _ _ _ _ E) as [Hf _]. clear E.
    apply list_elem_of_lookup. exists 1. set (l := volumes_of _) in Hf.
    assert (Hl : l !! 1 = Some (mkNodeVolumes "b" "http://b:9000" ["vb"], "vb")) by (vm_compute; reflexivity).
    destruct (Forall2_lookup_l _ _ _ _ _ Hf Hl) as (b & Hb & Hs). rewrite Hb. destruct b as [v|r]; [by destruct Hs|]. by destruct Hs as [_ ->]. }
  split; [exact Hin|].
  apply (rejoined_volumes_unknown map_to_list 300 demo_fs no_logs 1 node_config node_keys "a" "http://a:9000" "c"
    [mkSetMember "va" "a" 0; mkSetMember "vb" "b" 1] ["/data"] ["http://b:9000"] bs _ demo_fs ["/data"]); [|exact E|exact Hin|]; clear E.
  - intros m [k x] Hx. by apply elem_of_map_to_list in Hx.
  - intros m Hm Hp. apply list_elem_of_singleton in Hp. by apply elem_of_cons in Hm as [->| ->%list_elem_of_singleton].
Defined.

End Demo.
