(* ===== verification/NodeLife.v ===== *)
(** The life of a node ([src/main.rs]): the accept loop, the background tasks, the orderly
    shutdown, and the objects of a node over its restarts.

    A connection is served by a task of its own; the loop is modelled by what wakes it.  The pool
    of a node that has stopped is built again from its volumes ([Startup.configure_pool]). *)

From Stdlib Require Import Ascii.
From stdpp Require Import base list gmap strings numbers pretty.
From S2P Require Import Policy Prelude Metadata Pathing Placement Erasure Backend ErasureDecode ErasurePut.
From S2P Require Import Caches Heal RaftFsm VolumePool PoolSpec PoolRefine Config VolumeFormat Topology ClusterManager Startup.

Open Scope string_scope.
Open Scope list_scope.

(** ** The accept loop *)

(** What wakes the loop: the shutdown token, a failed accept, or a connection, with the outcome of
    [set_nodelay] and of its TLS handshake. *)
Inductive ServeEvent (C : Type) : Type :=
  | Cancelled
  | AcceptFailed (msg : string)
  | Accepted (stream : C) (nodelay : result string unit) (handshake : bool).
Arguments Cancelled {C}.
Arguments AcceptFailed {C}.
Arguments Accepted {C}.

(** How the loop is: waiting, stopped by the token, or ended by an error. *)
Inductive ServeEnd : Type := Waiting | Stopped | Failed (msg : string).

Section Serve.
  Context {C : Type}.

(** The connections handed to a task, and the state of the loop. *)
Fixpoint serve_loop (tls : bool) (evs : list (ServeEvent C)) : list C * ServeEnd :=
  match evs with
  | [] => ([], Waiting)
  | Cancelled :: _ => ([], Stopped)
  | AcceptFailed msg :: _ => ([], Failed msg)
  | Accepted stream (Err msg) _ :: _ => ([], Failed msg)
  | Accepted stream (Ok _) handshake :: evs =>
      let r := serve_loop tls evs in
      if tls && negb handshake then r else (stream :: r.1, r.2)
  end.

(** [serve]; [bind] and [load_tls_config] may fail, and a certificate without its key is
    [unreachable!]. *)
Definition serve (bind : result string unit) (load_tls_config : string -> string -> result string unit)
    (tls_cert tls_key : option string) (evs : list (ServeEvent C)) : option (list C * ServeEnd) :=
  match bind with
  | Err msg => Some ([], Failed msg)
  | Ok _ =>
      match tls_cert, tls_key with
      | Some cert, Some key =>
          match load_tls_config cert key with
          | Err msg => Some ([], Failed msg)
          | Ok _ => Some (serve_loop true evs)
          end
      | None, None => Some (serve_loop false evs)
      | _, _ => None
      end
  end.

(** The connections a healthy listener hands over. *)
Definition handed (tls : bool) (e : ServeEvent C) : option C :=
  match e with Accepted stream (Ok _) handshake => if tls && negb handshake then None else Some stream | _ => None end.
Definition healthy (e : ServeEvent C) : bool := match e with Accepted _ (Ok _) _ => true | _ => false end.

Lemma serve_loop_app tls evs rest : forallb healthy evs = true ->
  serve_loop tls (evs ++ rest) = (omap (handed tls) evs ++ (serve_loop tls rest).1, (serve_loop tls rest).2).
Proof.
  induction evs as [|e evs IH]; intros Hh; [cbn; by destruct (serve_loop tls rest)|]. apply andb_true_iff in Hh as [He Hh].
  destruct e as [|msg|stream [[]|msg] hs]; try done. cbn. rewrite (IH Hh). by destruct (tls && negb hs).
Qed.

(** Until the token is cancelled every connection is served, but for those whose handshake fails,
    in the order they came; afterwards none is. *)
Theorem serves_until_cancelled tls evs rest : forallb healthy evs = true ->
  serve_loop tls (evs ++ Cancelled :: rest) = (omap (handed tls) evs, Stopped).
Proof. intros Hh. by rewrite serve_loop_app, app_nil_r. Qed.

(** One failed accept ends the loop for good: no later connection is served, while the process
    waits for its signal and goes on running. *)
Theorem accept_error_stops_server tls evs msg rest : forallb healthy evs = true ->
  serve_loop tls (evs ++ AcceptFailed msg :: rest) = (omap (handed tls) evs, Failed msg).
Proof. intros Hh. by rewrite serve_loop_app, app_nil_r. Qed.

(** A validated configuration never reaches the unreachable branch. *)
Theorem serve_reachable is_file is_dir c bind load evs : (expand_and_validate is_file is_dir c).2 = Ok tt ->
  is_Some (serve bind load (c_tls_cert (expand_and_validate is_file is_dir c).1) (c_tls_key (expand_and_validate is_file is_dir c).1) evs).
Proof.
  intros Hv. unfold expand_and_validate in *. cbn [fst snd] in *. set (c' := set_volumes_nodes _ _ c) in *. case_bool_decide; [done|].
  unfold serve. destruct bind; [|done]. unfold check_tls in Hv. destruct (c_tls_cert c'), (c_tls_key c'); cbn in Hv |- *; try done.
  by destruct (load _ _).
Qed.

End Serve.

(** ** Background tasks *)

(** What wakes a task: its timer, or the shutdown channel, closed or with a value. *)
Inductive TaskEvent (T : Type) : Type :=
  | Due (t : T)
  | Signalled (value : option bool).
Arguments Due {T}.
Arguments Signalled {T}.

(** The loop of a periodic task; a tick may panic. *)
Fixpoint task_loop {T S : Type} (tick : T -> S -> option S) (evs : list (TaskEvent T)) (s : S) : option S :=
  match evs with
  | [] => Some s
  | Due t :: evs => s ← tick t s; task_loop tick evs s
  | Signalled (Some false) :: evs => task_loop tick evs s
  | Signalled _ :: _ => Some s
  end.

Lemma task_loop_keeps {T S : Type} (I : S -> Prop) (tick : T -> S -> option S) evs s :
  (forall t s, I s -> exists s', tick t s = Some s' /\ I s') -> I s -> exists s', task_loop tick evs s = Some s' /\ I s'.
Proof.
  intros Ht. revert s. induction evs as [|e evs IH]; intros s Hs; [by exists s|]. destruct e as [t|[[]|]]; cbn; [|by exists s|by apply IH|by exists s].
  destruct (Ht t s Hs) as (s1 & -> & Hs1). cbn. by apply IH.
Qed.

Section Tasks.
  Context `{Hashes} `{ReedSolomon} {B W P : Type} `{!Backend B W} `{!HealBackend B} `{!PoolBackend B}.

(** The clock counts milliseconds here.  A failed flush is only logged. *)
Definition flush_task (cfg : Config) (evs : list (TaskEvent Clock)) (p : VolumePool B P) : option (VolumePool B P) :=
  if bool_decide (0 < c_write_cache cfg)%N && bool_decide (0 < c_write_cache_flush_ms cfg)%N
  then task_loop (fun t p => r ← flush_older_than (c_write_cache_min_age_ms cfg) t p; Some r.1) evs p
  else Some p.

(** [scanner_loop]: a cycle, then the timer or any news on the shutdown channel; one clock for
    each cycle. *)
Fixpoint scanner_loop (disks : list B) (clocks : list (string -> string -> N)) (st : MrfQueue * ScanState) : MrfQueue * ScanState :=
  match clocks with
  | [] => st
  | clock :: clocks => scanner_loop disks clocks (run_scan_cycle disks clock st)
  end.

Context `{!ReedSolomonOk} `{!ObjectNames} `{!PoolBackendOk B W}.

(** The flush task cannot be noticed: whenever it runs, it does not panic, and the pool holds the
    same objects. *)
Theorem flush_task_invisible cfg evs (p : VolumePool B P) m : coh p m -> exists p', flush_task cfg evs p = Some p' /\ coh p' m.
Proof.
  intros Hco. unfold flush_task. destruct (_ && _); [|by exists p]. apply (task_loop_keeps (fun p => coh p m)); [|done].
  intros t q Hq. destruct (flush_coherent q m (c_write_cache_min_age_ms cfg) t Hq) as (q' & E & Hq' & _). exists q'. by rewrite E.
Qed.

(** After a tick no write of this node is in the cache for longer than the configured age. *)
Theorem flush_bounds_age cfg t (p p' : VolumePool B P) k e : (0 < c_write_cache cfg)%N -> (0 < c_write_cache_flush_ms cfg)%N ->
  flush_task cfg [Due t] p = Some p' -> wc_lookup (vp_write_cache p') k = Some e ->
  WriteCache.primary_node_id e = "" \/ WriteCache.primary_node_id e = vp_local_node_id p ->
  (now_instant t - WriteCache.cached_at_local e < c_write_cache_min_age_ms cfg)%N.
Proof.
  intros Hc Hf E He Ho. unfold flush_task in E. rewrite !bool_decide_eq_true_2 in E by done. cbn [andb task_loop mbind option_bind] in E.
  unfold flush_older_than in E. destruct (vp_write_cache p) as [c|] eqn:Ec.
  2: { cbn in E. injection E as <-. by rewrite Ec in He. }
  destruct (flush_entries _ _) as [disks|]; [|done]. cbn in E. injection E as <-. cbn in He.
  revert He. unfold WriteCache.drain_primary_older_than. set (ks := WriteCache.select_keys _ c).
  destruct (WriteCache.drain_keys_entries ks c (WriteCache.select_keys_NoDup _ _)) as [Hl _]. cbn zeta in Hl. rewrite Hl.
  case_decide as Hk; [done|]. intros He. apply N.nle_gt. intros Hle. apply Hk. apply WriteCache.select_keys_spec. exists e.
  split; [done|]. rewrite (bool_decide_eq_true_2 (_ <= _)%N) by done. destruct Ho as [-> | ->]; [done|].
  by rewrite (bool_decide_eq_true_2 (vp_local_node_id p = vp_local_node_id p)), orb_true_r.
Qed.

End Tasks.

(** [spawn_peer_monitor]; a tick has the answers of the peers and the time. *)
Definition peer_monitor `{Hashes} `{!Json PersistedClusterState} (evs : list (TaskEvent ((string -> option ClusterSummary) * N))) (m : ClusterManager) : option ClusterManager :=
  if negb (cluster_enabled m) then Some m
  else task_loop (fun t m => Some (refresh_from_nodes t.1 t.2 m)) evs m.

(** What the monitor does to a node are steps of the node's state machine. *)
Theorem peer_monitor_steps `{Hashes} `{!Json PersistedClusterState} evs m :
  exists m', peer_monitor evs m = Some m' /\ rtc node_step (Up m) (Up m').
Proof.
  unfold peer_monitor. destruct (negb _); [by exists m|].
  apply (task_loop_keeps (fun m' => rtc node_step (Up m) (Up m'))); [|done].
  intros [ask now] q Hq. eexists. split; [done|]. eapply rtc_r; [exact Hq|]. constructor.
Qed.

(** ** Orderly shutdown and restart *)

(** The same objects, buckets and settings. *)
Record same_volume {B W : Type} `{!Backend B W} `{!HealBackend B} `{!PoolBackend B} (d d' : B) : Prop := {
  sv_read : forall b k, read_shard d' b k = read_shard d b k;
  sv_bucket : forall b, bucket_exists d' b = bucket_exists d b;
  sv_settings : forall b, read_bucket_settings d' b = read_bucket_settings d b;
}.

(** Waiting for pending writes and setting a volume id change no object. *)
Class RestartOk (B W : Type) `{PoolBackendOk B W} : Prop := {
  drain_same d : good d -> good (drain_pending_writes d) /\ same_volume d (drain_pending_writes d);
  set_id_same i d : good d -> good (set_volume_id i d) /\ same_volume d (set_volume_id i d);
}.

Section Restart.
  Context `{Hashes} `{ReedSolomon} `{UuidParser} `{ObjectNames} {B W P : Type} `{!Backend B W} `{!HealBackend B} `{!PoolBackend B} `{!PeerCache P}.
  Context (block : nat) (label : B -> string) (fs_read : Path -> option bytes) (part_meta_index : bytes -> option nat).

(** The write cache holds this node's own writes. *)
Definition owned (p : VolumePool B P) : bool :=
  match vp_write_cache p with
  | None => true
  | Some c => forallb (fun x => bool_decide (WriteCache.primary_node_id x.2 = "") || bool_decide (WriteCache.primary_node_id x.2 = vp_local_node_id p))
                (map_to_list (WriteCache.entries c))
  end.

(** One run of a node: its requests, then the shutdown, then the pool of the next start. *)
Definition session (cfg : Config) (id : ResolvedIdentity) (s : list pool_op * Clock) (p : VolumePool B P)
    : option (Result (VolumePool B P) * list pool_out) :=
  r ← pool_run block label fs_read part_meta_index p s.1;
  x ← shutdown s.2 r.1;
  Some (configure_pool cfg id (vp_disks x.1) [], r.2).

Fixpoint sessions (cfg : Config) (id : ResolvedIdentity) (ss : list (list pool_op * Clock)) (p : VolumePool B P)
    : option (VolumePool B P * list pool_out) :=
  match ss with
  | [] => Some (p, [])
  | s :: ss =>
      r ← session cfg id s p;
      p' ← result_ok r.1;
      rest ← sessions cfg id ss p';
      Some (rest.1, r.2 ++ rest.2)
  end.

Fixpoint admissible_sessions (cfg : Config) (id : ResolvedIdentity) (ss : list (list pool_op * Clock)) (p : VolumePool B P) : bool :=
  match ss with
  | [] => true
  | s :: ss =>
      admissible_run block label fs_read part_meta_index p s.1 &&
      match pool_run block label fs_read part_meta_index p s.1 with Some (q, _) => owned q | None => false end &&
      match session cfg id s p with Some (Ok p', _) => admissible_sessions cfg id ss p' | _ => false end
  end.

Context `{!ReedSolomonOk} `{!PoolBackendOk B W} `{!RestartOk B W}.

Lemma other_key (b k : string) : (b, k) <> (b, k +:+ "x").
Proof. intros [= E]. apply (f_equal (fun s => length (bytes_of s))) in E. rewrite bytes_of_app, length_app in E. cbn in E. lia. Qed.

Lemma same_hold (disks disks' : list B) b k v : named b k = true -> Forall2 same_volume disks disks' -> disks_hold disks b k v -> disks_hold disks' b k v.
Proof.
  intros Hnm Hs. apply (hold_elsewhere _ _ b (k +:+ "x")); [|done|apply other_key]. eapply Forall2_impl; [exact Hs|].
  intros d d' []. by constructor.
Qed.

(** Every volume replaced by one with the same contents. *)
Lemma coherent_same disks disks' pl pl' wc wc' rc rc' m :
  coherent disks pl wc rc m -> (forall x, wc_lookup wc x = None) -> (forall x, wc_lookup wc' x = None) -> rc_ok rc' m ->
  Forall2 (fun d d' => good d' /\ same_volume d d') disks disks' ->
  map pv_backend_index (pt_disks pl') ≡ₚ seq 0 (length disks') -> coherent disks' pl' wc' rc' m.
Proof.
  intros Hco Hw Hw' Hr Hs Ht. pose proof (Forall2_length _ _ _ Hs) as Hl.
  assert (Hsv : Forall2 same_volume disks disks') by (eapply Forall2_impl; [exact Hs|by intros d d' []]).
  constructor; try done.
  - eapply Forall2_Forall_r; [exact Hs|]. apply list.Forall_forall. by intros d _ d' [].
  - rewrite <- Hl. apply Hco.
  - rewrite <- Hl. apply Hco.
  - rewrite <- Hl. apply Hco.
  - intros b k e. by rewrite Hw'.
  - apply Hco.
  - intros b k Hnm. destruct (co_disks _ _ _ _ _ Hco b k Hnm) as (v & Hh & Hv). exists v. split; [by eapply same_hold|]. intros _. by apply Hv.
Qed.

Lemma same_volume_trans (d1 d2 d3 : B) : same_volume d1 d2 -> same_volume d2 d3 -> same_volume d1 d3.
Proof. intros [R1 B1 S1] [R2 B2 S2]. constructor; intros; [by rewrite R2|by rewrite B2|by rewrite S2]. Qed.

Definition kept_volume (d d' : B) : Prop := good d' /\ same_volume d d'.

(** The volumes of the next start: drained, and with an id each. *)
Lemma restarted_volumes (disks : list B) : Forall good disks ->
  Forall2 kept_volume disks (assign_volume_ids (map drain_pending_writes disks)).
Proof.
  intros Hg. apply Forall2_same_length_lookup_2; [unfold assign_volume_ids; by rewrite length_imap, length_map|].
  intros i d d' Hd Hd'. unfold assign_volume_ids in Hd'. rewrite list_lookup_imap in Hd'. change (map drain_pending_writes disks) with (drain_pending_writes <$> disks) in Hd'.
  rewrite list_lookup_fmap, Hd in Hd'. cbn in Hd'. injection Hd' as <-.
  destruct (drain_same d (Forall_lookup_1 _ _ _ _ Hg Hd)) as [Hg1 Hs1]. case_bool_decide; [|done].
  destruct (set_id_same ("vol-" +:+ pretty i) _ Hg1) as [Hg2 Hs2]. split; [done|]. by eapply same_volume_trans.
Qed.

(** An orderly flush leaves nothing in the cache of a node that holds only its own writes. *)
Lemma flush_empties (p p' : VolumePool B P) t r : owned p = true -> flush_older_than 0 t p = Some (p', r) ->
  (forall x, wc_lookup (vp_write_cache p') x = None) /\ vp_placement p' = vp_placement p.
Proof.
  unfold owned, flush_older_than. destruct (vp_write_cache p) as [c|] eqn:Ec; intros Ho E.
  2: { injection E as <- _. by rewrite Ec. }
  apply bind_Some in E as (disks & _ & E). injection E as <- _. cbn. split; [|done]. intros x.
  unfold WriteCache.drain_primary_older_than. set (ks := WriteCache.select_keys _ c).
  destruct (WriteCache.drain_keys_entries ks c (WriteCache.select_keys_NoDup _ _)) as [Hl _]. cbn zeta in Hl. rewrite Hl.
  case_decide as Hx; [done|]. destruct (WriteCache.entries c !! x) as [e|] eqn:Ee; [|done]. exfalso. apply Hx.
  apply WriteCache.select_keys_spec. exists e. split; [done|]. rewrite bool_decide_eq_true_2 by lia. cbn [andb].
  rewrite List.forallb_forall in Ho. apply (Ho (x, e)). apply list_elem_of_In. by apply elem_of_map_to_list.
Qed.

Lemma configure_pool_starts cfg id (bs : list B) (peers : list P) m : 0 < length bs -> exists p, configure_pool cfg id bs peers = Ok p /\
  (forall x, wc_lookup (vp_write_cache p) x = None) /\ rc_ok (vp_read_cache p) m.
Proof.
  intros Hl. unfold configure_pool, pool_new. rewrite (bool_decide_eq_false_2 (length bs = 0)) by lia. cbn [mbind result_bind]. eexists. split; [done|].
  unfold enable_read_cache. split.
  - intros x. by repeat case_bool_decide.
  - intros c x Hc Hx. repeat case_bool_decide; cbn in Hc; try done; injection Hc as <-; by apply not_elem_of_nil in Hx.
Qed.

(** One restart: the new pool has the objects of the old one. *)
Lemma restart_coherent cfg id (p : VolumePool B P) m t : coh p m -> owned p = true ->
  exists (p1 p2 : VolumePool B P), shutdown t p = Some (p1, Ok tt) /\ configure_pool cfg id (vp_disks p1) ([] : list P) = Ok p2 /\ coh p2 m.
Proof.
  intros Hco Ho. destruct (flush_coherent p m 0 t Hco) as (q & Ef & Hq & _). destruct (flush_empties p q t _ Ho Ef) as [Hw _].
  set (p1 := set_disks (map drain_pending_writes (vp_disks q)) q).
  assert (Es : shutdown t p = Some (p1, Ok tt)).
  { unfold shutdown, flush_write_cache. rewrite (pool_bind_ok (attempt (flush_older_than 0 t)) _ p q (Some tt)) by (unfold attempt; by rewrite Ef).
    rewrite (pool_bind_ok (each_disk _) _ q p1 (map (fun _ => tt) (vp_disks q))); [done|]. unfold each_disk. by rewrite !map_map. }
  assert (Hlen : 0 < length (vp_disks p1)) by (cbn; rewrite length_map; apply Hq).
  destruct (configure_pool_starts cfg id (vp_disks p1) ([] : list P) m Hlen) as (p2 & Ec & Hw2 & Hr2). exists p1, p2. split_and!; [done|done|].
  destruct (configure_pool_fields _ _ _ _ _ Ec) as (Ed & _ & _ & Ep).
  eapply (coherent_same _ _ _ _ _ _ _ _ m Hq Hw Hw2 Hr2).
  - rewrite Ed. apply restarted_volumes, Hq.
  - rewrite Ep, Ed. change (map pv_backend_index ?l) with (pv_backend_index <$> l). rewrite fmap_imap.
    cbn [compose]. erewrite (imap_ext _ (fun i _ => i)) by done. rewrite imap_seq_0. by rewrite list_fmap_id.
Qed.

Lemma spec_run_app (m : gmap CacheKey (bytes * ObjectInfo)) l l' :
  spec_run m (l ++ l') = ((spec_run (spec_run m l).1 l').1, (spec_run m l).2 ++ (spec_run (spec_run m l).1 l').2).
Proof. revert m. induction l as [|op l IH]; intros m; [cbn; by destruct (spec_run m l')|]. cbn. by rewrite IH. Qed.

Lemma sessions_refine cfg id ss (p : VolumePool B P) m : coh p m -> admissible_sessions cfg id ss p = true ->
  exists p', sessions cfg id ss p = Some (p', (spec_run m (concat (map fst ss))).2) /\ coh p' (spec_run m (concat (map fst ss))).1.
Proof.
  revert p m. induction ss as [|s ss IH]; intros p m Hco Ha; [by exists p|]. cbn [admissible_sessions] in Ha.
  apply andb_true_iff in Ha as [[Ha Ho]%andb_true_iff Hss].
  destruct (pool_run_refines block label fs_read part_meta_index p m s.1 Hco Ha) as (q & Er & Hq). rewrite Er in Ho.
  destruct (restart_coherent cfg id q _ s.2 Hq Ho) as (p1 & p2 & Es & Ec & Hp2).
  assert (En : session cfg id s p = Some (Ok p2, (spec_run m s.1).2)) by (unfold session; rewrite Er; cbn; rewrite Es; cbn; by rewrite Ec).
  rewrite En in Hss. destruct (IH p2 _ Hp2 Hss) as (p' & E & Hp'). exists p'. cbn [map concat]. rewrite spec_run_app. split; [|done].
  cbn [sessions]. rewrite En. cbn. by rewrite E.
Qed.

End Restart.


(** ** A node with two volumes *)

#[export] Instance mem_restart_ok : RestartOk (H := all_names) MemVolume MvWriter.
Proof.
  constructor; [by intros d Hd; split|]. intros i d [Hw Hd]. split; [by split|]. by constructor.
Qed.

Section Demo.
  Local Existing Instances example_hashes xor_code xor_code_ok demo_uuid all_names.

Definition two_sessions : list (list pool_op * Clock) :=
  [([OpPut "photos" "cat" [bytes_of "meow"] demo_opts 4 (demo_clock 1); OpPut "photos" "dog" [bytes_of "woof"] demo_opts 4 (demo_clock 2);
     OpDelete "photos" "dog"], demo_clock 3);
   ([OpGet "photos" "cat"; OpHead "photos" "dog"], demo_clock 9)].

Definition life_id : ResolvedIdentity := mkResolvedIdentity "n1" "c" "http://a:9000" [] ["/data"] [] [].


End Demo.
