(* ===== verification/LocalBackend.v ===== *)
(** The repository's local volume ([src/storage/local_volume.rs]) as one of the volumes of a
    pool: the instances of the [Backend] traits, and the proof that without a log it keeps
    what the pool relies on, for objects none of which lies below another. *)

From Stdlib Require Import Ascii.
From stdpp Require Import base list gmap strings numbers pretty sorting.
From S2P Require Import Prelude Metadata Needle Segment Pathing Wal Materialize Placement Erasure Backend ErasureDecode ErasurePut.
From S2P Require Import Caches Heal RaftFsm FileSys LocalVolume LocalObjects VolumePool PoolSpec PoolRefine PoolStream.
From S2P Require Import Config VolumeFormat Topology ClusterManager Startup NodeLife.

Open Scope string_scope.
Open Scope list_scope.

(** ** The instances *)

(** The clock at a write, which only the log reads, and the time of a bucket's directory. *)
Class VolumeClock : Type := {
  vc_now : N;
  vc_created : LocalVolume -> string -> N;
}.

Section Instances.
  Context `{Hashes} `{MetaCodec} `{UuidParser} `{MetaFileCodec} `{Base64} `{SettingsCodec} `{VolumeClock}.

(** [None] is the panic of a log write out of bounds: the task ends and the caller has an
    error.  A volume without a log does not panic. *)
Definition or_panic (v : LocalVolume) (r : option (LocalVolume * Result unit)) : LocalVolume * Result unit :=
  default (v, Err (Internal "task panicked")) r.

Definition local_backend : Backend LocalVolume VolumeWriter := {|
  open_shard_writer := local_open_shard_writer;
  write_chunk := local_write_chunk;
  finalize := fun v w m => or_panic v (local_finalize v w m vc_now);
  read_shard := local_read_shard;
  read_versioned_shard := local_read_versioned_shard;
  Backend.stat_object := LocalVolume.stat_object;
  delete_object := local_delete_object;
|}.

Definition local_heal_backend : HealBackend LocalVolume := {|
  write_shard := fun v b k data m => or_panic v (local_write_shard v b k data m vc_now);
  info_volume_id := lv_volume_id;
  Heal.list_buckets := fun v => Ok (LocalVolume.list_buckets v);
  Heal.list_objects := LocalVolume.list_objects;
|}.

(** [drain_pending_writes] waits for the workers of the log and changes nothing itself. *)
Definition local_pool_backend : PoolBackend LocalVolume := {|
  VolumePool.set_volume_id := LocalVolume.set_volume_id;
  VolumePool.bucket_exists := LocalVolume.bucket_exists;
  disk_make_bucket := LocalVolume.make_bucket;
  disk_delete_bucket := LocalVolume.delete_bucket;
  bucket_created_at := vc_created;
  VolumePool.read_meta_versions := LocalVolume.read_meta_versions;
  VolumePool.write_meta_versions := LocalVolume.write_meta_versions;
  VolumePool.delete_version_data := LocalVolume.delete_version_data;
  VolumePool.read_bucket_settings := LocalVolume.read_bucket_settings;
  VolumePool.write_bucket_settings := LocalVolume.write_bucket_settings;
  drain_pending_writes := fun v => v;
|}.

End Instances.

#[export] Existing Instances local_backend local_heal_backend local_pool_backend.

(** The JSON of metadata files reads back. *)
Class MetaFilesOk `{MetaFileCodec} : Prop := json_all : forall mf, json_ok mf.

(** ** Names that do not get in each other's way *)

(** The names in use are valid, no part of a key is hidden or called like a metadata file,
    and no key lies below another. *)
Class FlatNames `{ObjectNames} : Prop := {
  fn_bucket : forall b k, named b k = true -> validate_bucket_name b = Ok tt;
  fn_key : forall b k, named b k = true -> validate_object_key k = Ok tt;
  fn_parts : forall b k, named b k = true -> Forall (fun n => hidden n = false /\ n <> "meta.json") (split slash k);
  fn_flat : forall b k k' r, named b k = true -> named b k' = true -> split slash k' = split slash k ++ r -> r = [];
}.

Lemma split_nonempty c s : split c s <> [].
Proof. intros E%map_eq_nil. by apply split_on_nonempty in E. Qed.

Section Paths.
  Context `{ObjectNames} `{!FlatNames} (root : Path).

Definition bucket_path (b : string) : Path := normalize_path root ++ [Normal b].
Definition object_path (b k : string) : Path := bucket_path b ++ map Normal (split slash k).

Lemma object_path_dir b k : named b k = true -> object_dir root b k = Ok (object_path b k).
Proof.
  intros Hn. apply object_dir_Ok. split_and!; [by eapply fn_bucket|by eapply fn_key|].
  unfold object_path, bucket_path. by rewrite <- app_assoc.
Qed.

Lemma bucket_path_dir b d : bucket_dir root b = Ok d <-> validate_bucket_name b = Ok tt /\ d = bucket_path b.
Proof.
  unfold bucket_dir.
  assert (Hg : validate_bucket_name b = Ok tt -> safe_join root [b] = Ok (bucket_path b)).
  { intros Hb. apply (safe_join_good root [b]). constructor; [by apply valid_bucket_good|constructor]. }
  split; [|intros [Hb ->]; rewrite Hb; cbn [mbind result_bind]; by apply Hg].
  intros ([] & Hb & H')%result_bind_Ok. rewrite Hg in H' by done. by injection H' as <-.
Qed.

Lemma bucket_path_inj b b' r r' : bucket_path b ++ r = bucket_path b' ++ r' -> b = b' /\ r = r'.
Proof. unfold bucket_path. rewrite <- !app_assoc. intros E%app_inv_head. by injection E. Qed.

Lemma normal_prefix l l' s : map Normal l' = map Normal l ++ s -> exists s', l' = l ++ s' /\ s = map Normal s'.
Proof.
  intros (l1 & l2 & E1 & -> & ->)%fmap_app_inv. apply map_Normal_inj in E1 as <-. by exists l2.
Qed.

(** Two named objects that share a path below them are the same. *)
Lemma objects_apart b k b' k' r r' :
  named b k = true -> named b' k' = true -> object_path b k ++ r = object_path b' k' ++ r' -> b = b' /\ k = k' /\ r = r'.
Proof.
  intros Hn Hn' E. unfold object_path in E. rewrite <- !app_assoc in E. apply bucket_path_inj in E as [<- E].
  assert (Hk : k = k').
  { apply app_eq_inv in E as [(s & E1 & _)|(s & E1 & _)].
    - apply normal_prefix in E1 as (s' & E1 & _). pose proof (fn_flat _ _ _ _ Hn' Hn E1) as ->. rewrite app_nil_r in E1.
      by eapply split_inj.
    - apply normal_prefix in E1 as (s' & E1 & _). pose proof (fn_flat _ _ _ _ Hn Hn' E1) as ->. rewrite app_nil_r in E1.
      symmetry. by eapply split_inj. }
  subst k'. by apply app_inv_head in E as ->.
Qed.

End Paths.

(** ** The tree of a volume *)

Section Tree.
  Context `{Hashes} `{MetaCodec} `{UuidParser} `{MetaFileCodec} `{Base64} `{SettingsCodec}.
  Context `{ObjectNames} `{!FlatNames}.

(** What the files of an unversioned object give: the metadata's current version, with the
    data in it or beside it. *)
Definition object_value (meta shard : option bytes) : Result (bytes * ObjectMeta) :=
  j ← ok_or meta ObjectNotFound;
  mf ← ok_or (json_from_slice j) ObjectNotFound;
  m ← current_version mf;
  data ← match inline_data m with
         | Some enc => ok_or (b64_decode enc) (Internal "inline base64 decode")
         | None => ok_or shard ObjectNotFound
         end;
  Ok (data, set_inline None m).

(** An object that has metadata has a current version without a version id, and its data. *)
Definition intact (fs : FS) (d : Path) : Prop :=
  forall j, fs_files fs !! meta_file d = Some j -> exists mf m,
    json_from_slice j = Some mf /\ current_version mf = Ok m /\ version_id m = "" /\
    match inline_data m with Some enc => is_Some (b64_decode enc) | None => is_Some (fs_files fs !! shard_file d) end.

(** The directories of buckets hold the named objects and nothing else. *)
Record tidy (root : Path) (fs : FS) : Prop := {
  td_wf : fs_wf fs;
  td_bucket : forall b k, named b k = true -> bucket_path root b ∈ fs_dirs fs;
  td_files : forall b r, validate_bucket_name b = Ok tt -> is_Some (fs_files fs !! (bucket_path root b ++ r)) ->
    exists k, named b k = true /\
      (bucket_path root b ++ r = meta_file (object_path root b k) \/ bucket_path root b ++ r = shard_file (object_path root b k));
  td_dirs : forall b r, validate_bucket_name b = Ok tt -> bucket_path root b ++ r ∈ fs_dirs fs -> r <> [] ->
    exists k s, named b k = true /\ object_path root b k = bucket_path root b ++ r ++ s;
  td_objects : forall b k, named b k = true -> intact fs (object_path root b k);
}.

Lemma read_local_value v b k : lv_wal v = None -> tidy (lv_root v) (lv_fs v) -> named b k = true ->
  let d := object_path (lv_root v) b k in
  let r := object_value (fs_files (lv_fs v) !! meta_file d) (fs_files (lv_fs v) !! shard_file d) in
  local_read_shard v b k = r /\ result_ok (LocalVolume.stat_object v b k) = snd <$> result_ok r /\
  is_ok r = bool_decide (is_Some (fs_files (lv_fs v) !! meta_file d)).
Proof.
  intros Hw Ht Hn d r. pose proof (object_path_dir (lv_root v) b k Hn) as Hd. fold d in Hd.
  destruct (object_paths _ _ _ _ Hd) as (Hmp & _ & _).
  assert (Hlog : local_read_shard v b k = read_file_tier v b k).
  { unfold local_read_shard, read_shard_from_wal, read_shard_from_wal_versioned. by rewrite Hw. }
  rewrite Hlog. unfold LocalVolume.stat_object. rewrite Hw. cbn [mbind option_bind].
  destruct (fs_files (lv_fs v) !! meta_file d) as [j|] eqn:Ej.
  - destruct (td_objects _ _ Ht b k Hn j Ej) as (mf & m & Emf & Em & Hv & Hdata). fold d in Hdata.
    assert (Hin : d ∈ fs_dirs (lv_fs v)).
    { pose proof (wf_file_parent _ (td_wf _ _ Ht) (meta_file d) (ex_intro _ _ Ej)) as Hp. by rewrite parent_meta in Hp. }
    assert (Hr : exists data, r = Ok (data, set_inline None m) /\
      match inline_data m with None => fs_files (lv_fs v) !! shard_file d = Some data | Some enc => b64_decode enc = Some data end).
    { unfold r, object_value. cbn [ok_or mbind result_bind]. rewrite Emf. cbn [ok_or mbind result_bind]. rewrite Em.
      cbn [mbind result_bind]. destruct (inline_data m); destruct Hdata as [data ->]; by exists data. }
    destruct Hr as (data & Er & Hdat). rewrite Er, (read_file_tier_ok v b k d mf j m data) by done.
    rewrite (object_versions_ok v b k d mf j) by done. cbn [mbind result_bind]. rewrite Em. by split_and!.
  - assert (Ho : object_versions v b k = Err ObjectNotFound).
    { unfold object_versions. rewrite Hd. cbn [mbind result_bind]. destruct (fs_is_dir _ _); [|done].
      rewrite Hmp. cbn [mbind result_bind]. unfold read_meta_at, read_meta_file. by rewrite Ej. }
    unfold read_file_tier. rewrite Ho. by split_and!.
Qed.

(** There is room for every named object. *)
Lemma tidy_clear root fs b k : tidy root fs -> named b k = true -> clear_for fs (object_path root b k).
Proof.
  intros Ht Hn. pose proof (fn_bucket _ _ Hn) as Hb.
  assert (Hnd : forall c, object_path root b k ++ [c] ∉ fs_dirs fs).
  { intros c Hc. unfold object_path in Hc. rewrite <- app_assoc in Hc.
    destruct (td_dirs _ _ Ht b _ Hb Hc) as (k' & s & Hn' & E); [by destruct (split slash k)|].
    destruct (objects_apart root b k b k' (c :: s) []) as (_ & _ & ?); [done|done| |done].
    rewrite app_nil_r, E. unfold object_path. by rewrite <- !app_assoc. }
  split; [|apply Hnd|apply Hnd]. intros q [Hq [r Hr]]%elem_of_prefixes. apply eq_None_not_Some. intros Hs.
  assert (Hpre : q ∈ fs_dirs fs \/ exists r1, q = bucket_path root b ++ r1).
  { unfold object_path in Hr. apply app_eq_inv in Hr as [(s & E & _)|(s & E & _)]; [left|right; by exists s].
    apply (dirs_closed fs q s); [apply Ht|done|]. rewrite <- E. by eapply td_bucket. }
  destruct Hpre as [Hin|[r1 ->]]; [rewrite (wf_disjoint _ (td_wf _ _ Ht) _ Hin) in Hs; by destruct Hs|].
  destruct (td_files _ _ Ht b r1 Hb Hs) as (k' & Hn' & E).
  assert (Hc : exists c, object_path root b k = object_path root b k' ++ c :: r).
  { rewrite Hr. destruct E as [E|E]; rewrite E; unfold meta_file, shard_file; rewrite <- app_assoc; by eexists. }
  destruct Hc as [c Hc]. destruct (objects_apart root b k b k' [] (c :: r)) as (_ & _ & ?); [done|done| |done].
  by rewrite app_nil_r.
Qed.

(** Two trees that differ in the two files of one named object. *)
Lemma tidy_write root fs fs' b k : tidy root fs -> named b k = true -> fs_wf fs' ->
  let d := object_path root b k in
  (forall p, p <> meta_file d -> p <> shard_file d -> fs_files fs' !! p = fs_files fs !! p) ->
  fs_dirs fs' = fs_dirs fs ∪ list_to_set (prefixes d) -> intact fs' d ->
  tidy root fs' /\
  forall b' k', named b' k' = true -> (b', k') <> (b, k) ->
    fs_files fs' !! meta_file (object_path root b' k') = fs_files fs !! meta_file (object_path root b' k') /\
    fs_files fs' !! shard_file (object_path root b' k') = fs_files fs !! shard_file (object_path root b' k').
Proof.
  intros Ht Hn Hwf d Hf Hd Hi.
  assert (Hother : forall b' k' c c', named b' k' = true -> (b', k') <> (b, k) -> object_path root b' k' ++ [c] <> d ++ [c']).
  { intros b' k' c c' Hn' Hne E. destruct (objects_apart root b' k' b k [c] [c']) as (-> & -> & _); done. }
  assert (Hfr : forall b' k', named b' k' = true -> (b', k') <> (b, k) ->
    fs_files fs' !! meta_file (object_path root b' k') = fs_files fs !! meta_file (object_path root b' k') /\
    fs_files fs' !! shard_file (object_path root b' k') = fs_files fs !! shard_file (object_path root b' k')).
  { intros b' k' Hn' Hne. split; apply Hf; by apply Hother. }
  split; [|exact Hfr]. split; [done|..].
  - intros b' k' Hn'. rewrite Hd. apply elem_of_union_l. by eapply td_bucket.
  - intros b' r Hb Hs. destruct (decide (bucket_path root b' ++ r = meta_file d)) as [E|Hm].
    { assert (b' = b) as -> by (unfold d, meta_file, object_path in E; rewrite <- app_assoc in E; by apply bucket_path_inj in E as [? _]).
      exists k. split; [done|by left]. }
    destruct (decide (bucket_path root b' ++ r = shard_file d)) as [E|Hs'].
    { assert (b' = b) as -> by (unfold d, shard_file, object_path in E; rewrite <- app_assoc in E; by apply bucket_path_inj in E as [? _]).
      exists k. split; [done|by right]. }
    rewrite Hf in Hs by done. by eapply td_files.
  - intros b' r Hb Hin Hr. rewrite Hd in Hin. apply elem_of_union in Hin as [Hin|Hin]; [by eapply td_dirs|].
    apply elem_of_list_to_set, elem_of_prefixes in Hin as [_ [s Hs]]. rewrite <- app_assoc in Hs.
    assert (b' = b) as -> by (unfold d, object_path in Hs; by apply bucket_path_inj in Hs as [? _]). by exists k, s.
  - intros b' k' Hn'. destruct (decide ((b', k') = (b, k))) as [[= -> ->]|Hne]; [done|].
    destruct (Hfr b' k' Hn' Hne) as [Em Es]. intros j. rewrite Em, Es. by apply (td_objects _ _ Ht).
Qed.

(** Removing the directory of one named object. *)
Lemma tidy_remove root fs b k : tidy root fs -> named b k = true ->
  tidy root (remove_dir_all (object_path root b k) fs) /\
  forall b' k' c, named b' k' = true -> (b', k') <> (b, k) ->
    fs_files (remove_dir_all (object_path root b k) fs) !! (object_path root b' k' ++ [c]) = fs_files fs !! (object_path root b' k' ++ [c]).
Proof.
  intros Ht Hn. set (fs' := remove_dir_all _ fs).
  assert (Hfr : forall b' k' c, named b' k' = true -> (b', k') <> (b, k) ->
    fs_files fs' !! (object_path root b' k' ++ [c]) = fs_files fs !! (object_path root b' k' ++ [c])).
  { intros b' k' c Hn' Hne. unfold fs'. rewrite remove_dir_all_lookup. destruct (below _ _) eqn:E; [|done].
    apply below_spec in E as [r E]. destruct (objects_apart root b' k' b k [c] r) as (-> & -> & _); done. }
  split; [|exact Hfr]. split; [apply remove_dir_all_wf, Ht|..].
  - intros b' k' Hn'. apply elem_of_remove_dir_all. split; [by eapply td_bucket|].
    apply not_true_is_false. intros [r E]%below_spec. apply (f_equal length) in E. unfold object_path, bucket_path in E.
    rewrite !length_app, length_map in E. pose proof (split_nonempty slash k). cbn in E. destruct (split slash k); [done|]. cbn in E. lia.
  - intros b' r Hb. unfold fs'. rewrite remove_dir_all_lookup. destruct (below _ _); [by intros []|]. by apply (td_files _ _ Ht).
  - intros b' r Hb [Hin _]%elem_of_remove_dir_all. by apply (td_dirs _ _ Ht).
  - intros b' k' Hn' j. destruct (decide ((b', k') = (b, k))) as [[= -> ->]|Hne].
    + unfold fs'. rewrite remove_dir_all_lookup. unfold meta_file. rewrite (proj2 (below_spec _ _)); [done|by eexists].
    + unfold meta_file, shard_file. rewrite !Hfr by done. by apply (td_objects _ _ Ht).
Qed.

End Tree.

(** ** Listings without repetition *)

Section Walk.
  Context `{Hashes} `{MetaCodec} `{UuidParser} `{MetaFileCodec}.

Lemma NoDup_dir_entries fs d : NoDup (dir_entries fs d).
Proof.
  unfold dir_entries. generalize (NoDup_elements (fs_dirs fs)). induction (elements (fs_dirs fs)) as [|p l IH]; [constructor|].
  intros [Hp Hl]%NoDup_cons. cbn. destruct (child_name d p) as [n|] eqn:E; [|by apply IH]. apply NoDup_cons. split; [|by apply IH].
  intros (q & Hq & E')%list_elem_of_omap. apply Hp. enough (p = q) as -> by done. clear -E E'.
  assert (Hc : forall x, child_name d x = Some n -> x = d ++ [Normal n]).
  { intros x. unfold child_name. case_bool_decide as Ht; [|done]. destruct (drop (length d) x) as [|[| | |m] [|? ?]] eqn:Ed; try done.
    intros [= ->]. by rewrite <- (take_drop (length d) x), Ht, Ed. }
  by rewrite (Hc p E), (Hc q E').
Qed.

Lemma NoDup_flat_map {A C : Type} (f : A -> list C) (l : list A) :
  (forall x y z, x ∈ l -> y ∈ l -> z ∈ f x -> z ∈ f y -> x = y) -> (forall x, x ∈ l -> NoDup (f x)) -> NoDup l -> NoDup (flat_map f l).
Proof.
  intros Hd Hf Hn. induction Hn as [|x l Hx Hn IH]; cbn; [constructor|]. apply list.NoDup_app. split_and!.
  - apply Hf. by left.
  - intros z Hz (y & Hy%list_elem_of_In & Hzy%list_elem_of_In)%list_elem_of_In%in_flat_map.
    apply Hx. by rewrite (Hd x y z); [|left|right|..].
  - apply IH; [|intros y Hy; apply Hf; by right]. intros a c z Ha Hc. apply Hd; by right.
Qed.

(** What the walk finds below one name of a directory. *)
Lemma walk_branch fuel fs dir rel prefix name key :
  fs_wf fs -> (forall p, p ∈ fs_dirs fs -> length p <= length dir + S fuel) -> dir ++ [Normal name] ∈ fs_dirs fs ->
  key ∈ (if hidden name then [] else
           if is_object fs (dir ++ [Normal name])
           then (if starts_with prefix (key_of (rel ++ [name])) then [key_of (rel ++ [name])] else [])
           else walk_keys fuel fs (dir ++ [Normal name]) (rel ++ [name]) prefix) ->
  exists names, listed fs dir (name :: names) /\ key = key_of (rel ++ name :: names).
Proof.
  intros Hwf Hdepth Hin. destruct (hidden name) eqn:Hh; [by intros ?%not_elem_of_nil|].
  destruct (is_object fs (dir ++ [Normal name])) eqn:Ho.
  - destruct (starts_with _ _); [|by intros ?%not_elem_of_nil]. intros ->%list_elem_of_singleton. exists [].
    split; [|done]. apply listed_cons. by rewrite Ho.
  - intros Hk. apply walk_keys_spec in Hk as (names & Hl & -> & _); [|done|].
    2:{ intros p Hp%Hdepth. rewrite length_app. cbn. lia. }
    exists names. rewrite <- app_assoc. split; [|done]. apply listed_cons. rewrite Ho, app_assoc. split_and!; [|done|done].
    by destruct Hl as (_ & ? & _).
Qed.

Lemma NoDup_walk_keys fuel fs dir rel prefix :
  fs_wf fs -> (forall p, p ∈ fs_dirs fs -> length p <= length dir + fuel) ->
  (forall n1 n2, listed fs dir n1 -> listed fs dir n2 -> key_of (rel ++ n1) = key_of (rel ++ n2) -> n1 = n2) ->
  NoDup (walk_keys fuel fs dir rel prefix).
Proof.
  intros Hwf. revert dir rel. induction fuel as [|fuel IH]; intros dir rel Hdepth Hinj; cbn [walk_keys]; [constructor|].
  apply NoDup_flat_map; [| |apply NoDup_dir_entries].
  - intros x y z Hx%elem_of_dir_entries Hy%elem_of_dir_entries Hzx Hzy.
    apply (walk_branch fuel fs dir rel prefix) in Hzx as (n1 & L1 & E1); [|done..].
    apply (walk_branch fuel fs dir rel prefix) in Hzy as (n2 & L2 & E2); [|done..].
    assert (E : x :: n1 = y :: n2) by (apply Hinj; [done|done|by rewrite <- E1, <- E2]). by injection E.
  - intros name Hn%elem_of_dir_entries. destruct (hidden name) eqn:Hh; [constructor|].
    fold (is_object fs (dir ++ [Normal name])). destruct (is_object fs (dir ++ [Normal name])) eqn:Ho.
    + destruct (starts_with _ _); [apply NoDup_singleton|constructor].
    + apply IH; [intros p Hp%Hdepth; rewrite length_app; cbn; lia|]. intros n1 n2 L1 L2 E. rewrite <- !app_assoc in E.
      assert (Hl : forall n, listed fs (dir ++ [Normal name]) n -> listed fs dir (name :: n)).
      { intros n Ln. apply listed_cons. rewrite Ho, app_assoc. split_and!; [by destruct Ln as (_ & ? & _)|done|done]. }
      assert (E' : name :: n1 = name :: n2) by (apply Hinj; [by apply Hl..|exact E]). by injection E'.
Qed.

End Walk.

Section List.
  Context `{Hashes} `{MetaCodec} `{UuidParser} `{MetaFileCodec} `{Base64} `{SettingsCodec}.
  Context `{ObjectNames} `{!FlatNames}.

Lemma key_of_split k : key_of (split slash k) = k.
Proof.
  unfold key_of, split. rewrite map_map.
  replace (map (fun x => bytes_of (string_of x)) (split_on slash (bytes_of k))) with (split_on slash (bytes_of k)).
  - rewrite join_split_on. apply String.string_of_list_ascii_of_string.
  - symmetry. rewrite <- (map_id (split_on slash (bytes_of k))) at 2. apply map_ext. intros x. apply bytes_of_string_of.
Qed.

(** A directory that looks like an object is one of the named. *)
Lemma object_found root fs b names : tidy root fs -> validate_bucket_name b = Ok tt ->
  is_object fs (bucket_path root b ++ map Normal names) = true ->
  exists k, named b k = true /\ names = split slash k /\ is_Some (fs_files fs !! meta_file (object_path root b k)).
Proof.
  intros Ht Hb. unfold is_object. rewrite push_meta.
  assert (E0 : meta_file (bucket_path root b ++ map Normal names) = bucket_path root b ++ map Normal names ++ [Normal "meta.json"])
    by (unfold meta_file; by rewrite <- app_assoc).
  rewrite E0. intros [Hf%bool_decide_eq_true|Hd%bool_decide_eq_true]%orb_true_iff.
  - pose proof Hf as Hf'. apply (td_files _ _ Ht) in Hf as (k & Hn & [E|E]); [|unfold shard_file in E|done].
    + exists k. unfold fs_read in Hf'. rewrite E in Hf'. split_and!; [done| |done].
      unfold meta_file, object_path in E. rewrite app_assoc in E. apply app_inj_tail in E as [E _].
      apply bucket_path_inj in E as [_ E]. by apply map_Normal_inj.
    + rewrite app_assoc in E. by apply app_inj_tail in E as [_ E].
  - exfalso. apply (td_dirs _ _ Ht) in Hd as (k & s & Hn & E); [|done|by destruct names].
    unfold object_path in E. apply bucket_path_inj in E as [_ E].
    change (map Normal names ++ [Normal "meta.json"]) with (map Normal names ++ map Normal ["meta.json"]) in E.
    rewrite <- map_app in E. apply normal_prefix in E as (s' & E & _).
    pose proof (fn_parts b k Hn) as Hp. rewrite E, !Forall_app in Hp. destruct Hp as [[_ Hp] _].
    by apply Forall_cons_1 in Hp as [[_ ?] _].
Qed.

Lemma listed_named root fs b names : tidy root fs -> validate_bucket_name b = Ok tt ->
  listed fs (bucket_path root b) names <->
  exists k, named b k = true /\ names = split slash k /\ is_Some (fs_files fs !! meta_file (object_path root b k)).
Proof.
  intros Ht Hb. split.
  - intros (Hne & _ & _ & Ho & _). by apply (object_found root fs).
  - intros (k & Hn & -> & Hs). assert (Hd : object_path root b k ∈ fs_dirs fs).
    { rewrite <- (parent_meta (object_path root b k)). by apply (wf_file_parent _ (td_wf _ _ Ht)). }
    split_and!; [apply split_nonempty|done| | |].
    + eapply Forall_impl; [exact (fn_parts b k Hn)|]. by intros n [? _].
    + unfold is_object. rewrite push_meta. fold (object_path root b k). unfold fs_read. by rewrite bool_decide_eq_true_2.
    + intros n1 n2 E Hn1 Hn2. apply not_true_is_false. intros (k' & Hn' & -> & _)%(object_found root fs); [|done|done].
      by rewrite (fn_flat b k' k n2) in Hn2.
Qed.

Lemma local_list_ok (v : LocalVolume) b prefix : lv_wal v = None -> tidy (lv_root v) (lv_fs v) -> validate_object_prefix prefix = Ok tt ->
  match LocalVolume.list_objects v b prefix with
  | Ok ks => Sorted str_le ks /\ NoDup ks /\
      forall k, k ∈ ks <-> named b k = true /\ is_ok (local_read_shard v b k) = true /\ starts_with prefix k = true
  | Err _ => LocalVolume.bucket_exists v b = false
  end.
Proof.
  intros Hw Ht Hp. unfold LocalVolume.bucket_exists. destruct (bucket_dir (lv_root v) b) as [d|e] eqn:Ed.
  2:{ unfold LocalVolume.list_objects. by rewrite Ed. }
  pose proof Ed as [Hb ->]%bucket_path_dir.
  assert (Hread : forall k, named b k = true -> is_ok (local_read_shard v b k) =
    bool_decide (is_Some (fs_files (lv_fs v) !! meta_file (object_path (lv_root v) b k)))).
  { intros k Hn. destruct (read_local_value v b k Hw Ht Hn) as (-> & _ & Hok). exact Hok. }
  unfold LocalVolume.list_objects. rewrite Ed, Hw. cbn [mbind result_bind]. unfold fs_is_dir. case_bool_decide as Hd.
  - rewrite Hp. cbn [mbind result_bind fold_left].
    assert (Hdep : forall p, p ∈ fs_dirs (lv_fs v) -> length p <= length (bucket_path (lv_root v) b) + S (tree_depth (lv_fs v)))
      by (intros p Hq%tree_depth_bound; lia).
    split_and!; [apply Sorted_merge_sort, _| |].
    + rewrite merge_sort_Permutation. apply NoDup_walk_keys; [apply Ht|done|].
      intros n1 n2 (k1 & _ & -> & _)%(listed_named _ _ _ _ Ht Hb) (k2 & _ & -> & _)%(listed_named _ _ _ _ Ht Hb). cbn [app].
      rewrite !key_of_split. by intros ->.
    + intros k. rewrite merge_sort_Permutation, walk_keys_spec by (done || apply Ht). cbn [app]. split.
      * intros (names & (k' & Hn & -> & Hs)%(listed_named _ _ _ _ Ht Hb) & -> & Hpre). rewrite key_of_split in *.
        split_and!; [done| |done]. by rewrite Hread, bool_decide_eq_true.
      * intros (Hn & Hr & Hpre). rewrite Hread, bool_decide_eq_true in Hr by done. exists (split slash k).
        rewrite key_of_split. split_and!; [|done|done]. apply (listed_named _ _ _ _ Ht Hb). eauto.
  - cbn [mbind result_bind fold_left]. split_and!; [apply Sorted_merge_sort, _|by rewrite merge_sort_Permutation; constructor|].
    intros k. rewrite merge_sort_Permutation. split; [by intros ?%not_elem_of_nil|]. intros (Hn & _). exfalso. apply Hd. by eapply td_bucket.
Qed.

End List.

(** ** What the volume promises *)

Section Promise.
  Context `{Hashes} `{MetaCodec} `{UuidParser} `{MetaFileCodec} `{Base64} `{!Base64Ok} `{SettingsCodec}.
  Context `{ObjectNames} `{!FlatNames}.
  Context `{!MetaFilesOk} `{VolumeClock}.

(** A volume without a log whose tree holds the named objects, each with its metadata. *)
Record in_order (v : LocalVolume) : Prop := {
  io_log : lv_wal v = None;
  io_tidy : tidy (lv_root v) (lv_fs v);
  io_whole : forall b k, named b k = true -> object_path (lv_root v) b k ∈ fs_dirs (lv_fs v) ->
    is_Some (fs_files (lv_fs v) !! meta_file (object_path (lv_root v) b k));
}.

(** Settings lie outside every bucket. *)
Lemma settings_frame (v : LocalVolume) fs' b k : named b k = true ->
  (forall p, below (object_path (lv_root v) b k) p = false -> fs_files fs' !! p = fs_files (lv_fs v) !! p) ->
  forall b', LocalVolume.read_bucket_settings (set_fs fs' v) b' = LocalVolume.read_bucket_settings v b'.
Proof.
  intros Hn Hf b'. unfold LocalVolume.read_bucket_settings. cbn [lv_root lv_fs set_fs].
  destruct (bucket_settings_path (lv_root v) b') as [p|] eqn:E; [|done]. unfold fs_read. rewrite Hf; [done|].
  unfold bucket_settings_path in E. apply result_bind_Ok in E as (q & Eq & [= <-]).
  destruct (system_dir_isolated (lv_root v) b k (object_path (lv_root v) b k) b' q (object_path_dir _ b k Hn) (or_introl Eq)) as [Hq Hp].
  apply not_true_is_false. intros [r Er]%below_spec. apply path_starts_with_prefix in Hq as [s Es].
  rewrite push_good in Er by by_decide. rewrite Es in Er. unfold object_path, bucket_path in Er. rewrite <- !app_assoc in Er.
  apply app_inv_head in Er. injection Er as E1 _. by apply (valid_bucket_not_sys b); [eapply fn_bucket|].
Qed.

Lemma bucket_frame (v : LocalVolume) fs' :
  (forall b, bucket_path (lv_root v) b ∈ fs_dirs fs' <-> bucket_path (lv_root v) b ∈ fs_dirs (lv_fs v)) ->
  forall b, LocalVolume.bucket_exists (set_fs fs' v) b = LocalVolume.bucket_exists v b.
Proof.
  intros Hd b. unfold LocalVolume.bucket_exists. cbn [lv_root lv_fs set_fs]. destruct (bucket_dir (lv_root v) b) as [d|] eqn:E; [|done].
  apply bucket_path_dir in E as [_ ->]. unfold fs_is_dir. by apply bool_decide_ext.
Qed.

(** The tree of a volume changes at one object: what that means to the pool. *)
Lemma changes_one (v : LocalVolume) fs' b k : named b k = true -> lv_wal v = None ->
  tidy (lv_root v) (lv_fs v) -> tidy (lv_root v) fs' ->
  (forall b' k' c, named b' k' = true -> (b', k') <> (b, k) -> c = "meta.json" \/ c = "shard.dat" ->
     fs_files fs' !! (object_path (lv_root v) b' k' ++ [Normal c]) = fs_files (lv_fs v) !! (object_path (lv_root v) b' k' ++ [Normal c])) ->
  (forall p, below (object_path (lv_root v) b k) p = false -> fs_files fs' !! p = fs_files (lv_fs v) !! p) ->
  (forall b, bucket_path (lv_root v) b ∈ fs_dirs fs' <-> bucket_path (lv_root v) b ∈ fs_dirs (lv_fs v)) ->
  only_changes b k v (set_fs fs' v).
Proof.
  intros Hn Hw Ht Ht' Hf Hs Hb. split; cbn.
  - intros b' k' Hn' Hne. destruct (read_local_value v b' k' Hw Ht Hn') as [-> _].
    destruct (read_local_value (set_fs fs' v) b' k' Hw Ht' Hn') as [-> _]. cbn [lv_root lv_fs set_fs].
    unfold meta_file, shard_file. by rewrite !Hf by auto.
  - by apply bucket_frame.
  - by apply (settings_frame v fs' b k).
Qed.

(** A write into the directory of one object. *)
Lemma write_one (v : LocalVolume) fs' b k : named b k = true -> lv_wal v = None -> tidy (lv_root v) (lv_fs v) -> fs_wf fs' ->
  let d := object_path (lv_root v) b k in
  (forall p, p <> meta_file d -> p <> shard_file d -> fs_files fs' !! p = fs_files (lv_fs v) !! p) ->
  fs_dirs fs' = fs_dirs (lv_fs v) ∪ list_to_set (prefixes d) -> intact fs' d ->
  tidy (lv_root v) fs' /\ only_changes b k v (set_fs fs' v).
Proof.
  intros Hn Hw Ht Hwf d Hf Hd Hi. destruct (tidy_write (lv_root v) (lv_fs v) fs' b k Ht Hn Hwf Hf Hd Hi) as [Ht' Hfr].
  split; [done|]. apply changes_one; try done.
  - intros b' k' c Hn' Hne [->| ->]; by apply Hfr.
  - intros p Hb. apply Hf; intros ->; rewrite (proj2 (below_spec _ _)) in Hb by (by eexists); done.
  - intros b'. rewrite Hd, elem_of_union, elem_of_list_to_set. split; [|by left]. intros [?|[_ [s Hs]]%elem_of_prefixes]; [done|].
    unfold d, object_path in Hs. apply bucket_path_inj in Hs as [<- _]. by eapply td_bucket.
Qed.

Lemma stored_value b k data m : plain_meta m ->
  current_version (single_version b k (stored_meta data m)) = Ok (stored_meta data m) /\
  version_id (stored_meta data m) = "" /\ set_inline None (stored_meta data m) = m /\
  match inline_data (stored_meta data m) with Some enc => b64_decode enc = Some data | None => True end.
Proof.
  intros (Hv & Hm & Hl & Hi). rewrite current_single by (unfold stored_meta; by case_bool_decide).
  unfold stored_meta. case_bool_decide; destruct m; cbn in *; subst; split_and!; done || apply b64_roundtrip.
Qed.

Lemma local_write_ok (v : LocalVolume) b k data m : in_order v -> named b k = true -> plain_meta m -> exists v',
  write_shard v b k data m = (v', Ok tt) /\ in_order v' /\ only_changes b k v v' /\ read_shard v' b k = Ok (data, m).
Proof.
  intros [Hw Ht Hwh] Hn Hpl. pose proof (object_path_dir (lv_root v) b k Hn) as Hd. set (d := object_path (lv_root v) b k) in *.
  destruct (write_shard_files_ok (lv_root v) b k d data m (lv_fs v) Hd (tidy_clear _ _ b k Ht Hn) (td_wf _ _ Ht) (proj1 Hpl)
    (json_all _)) as (fs' & j & Hwr & Hwf' & Hin & Hmeta & Hdec & Hshard & Hframe & Hdirs).
  destruct (stored_value b k data m Hpl) as (Hcur & Hvid & Hsi & Hinl).
  assert (Hi : intact fs' d).
  { intros j' E. rewrite Hmeta in E. injection E as <-. eexists _, _. split_and!; [exact Hdec|exact Hcur|exact Hvid|].
    destruct (inline_data (stored_meta data m)); [by exists data|]. rewrite Hshard by done. by exists data. }
  destruct (write_one v fs' b k Hn Hw Ht Hwf' Hframe Hdirs Hi) as [Ht' Hoc]. exists (set_fs fs' v). split_and!; [| |done|].
  - cbn. unfold local_write_shard. rewrite (fn_bucket b k Hn). cbn [mbind result_bind]. rewrite (fn_key b k Hn), Hw.
    unfold on_files. by rewrite Hwr.
  - split; [done|done|]. cbn [lv_root lv_fs set_fs]. intros b' k' Hn' Hdir.
    destruct (decide ((b', k') = (b, k))) as [[= -> ->]|Hne]; [fold d; by rewrite Hmeta|].
    rewrite (proj1 (proj2 (tidy_write (lv_root v) (lv_fs v) fs' b k Ht Hn Hwf' Hframe Hdirs Hi) b' k' Hn' Hne)).
    apply Hwh; [done|]. rewrite Hdirs in Hdir. apply elem_of_union in Hdir as [?|Hdir]; [done|].
    apply elem_of_list_to_set, elem_of_prefixes in Hdir as [_ [s Hs]].
    destruct (objects_apart (lv_root v) b k b' k' [] s) as (-> & -> & _); [done|done|by rewrite app_nil_r|done].
  - cbn [read_shard local_backend]. destruct (read_local_value (set_fs fs' v) b k Hw Ht' Hn) as [-> _].
    cbn [lv_root lv_fs set_fs]. fold d. rewrite Hmeta. unfold object_value. cbn [ok_or mbind result_bind]. rewrite Hdec.
    cbn [ok_or mbind result_bind]. rewrite Hcur. cbn [mbind result_bind]. rewrite Hsi.
    destruct (inline_data (stored_meta data m)) as [enc|]; [by rewrite Hinl|]. by rewrite Hshard.
Qed.

Lemma local_delete_ok (v : LocalVolume) b k : in_order v -> named b k = true -> exists v',
  delete_object v b k = (v', if is_ok (read_shard v b k) then Ok tt else Err ObjectNotFound) /\
  in_order v' /\ only_changes b k v v' /\ is_ok (read_shard v' b k) = false.
Proof.
  intros [Hw Ht Hwh] Hn. pose proof (object_path_dir (lv_root v) b k Hn) as Hd. cbn [read_shard delete_object local_backend].
  destruct (read_local_value v b k Hw Ht Hn) as (Er & _ & Hok). rewrite <- Er in Hok. rewrite Hok. clear Er Hok.
  unfold local_delete_object, on_files, failing. rewrite Hw, Hd. unfold fs_is_dir.
  case_bool_decide as Hdir.
  - destruct (tidy_remove (lv_root v) (lv_fs v) b k Ht Hn) as [Ht' Hfr]. set (fs' := remove_dir_all _ _) in *.
    exists (set_fs fs' v). rewrite bool_decide_eq_true_2 by by apply Hwh. split_and!; [done| | |].
    + split; [done|done|]. cbn [lv_root lv_fs set_fs]. intros b' k' Hn' [Hin' Hb]%elem_of_remove_dir_all.
      destruct (decide ((b', k') = (b, k))) as [[= -> ->]|Hne]; [|unfold meta_file; rewrite Hfr by done; by apply Hwh].
      by rewrite (proj2 (below_spec _ _)) in Hb by (exists []; by rewrite app_nil_r).
    + apply changes_one; try done.
      * intros b' k' c Hn' Hne _. by apply Hfr.
      * intros p Hp. unfold fs'. by rewrite remove_dir_all_lookup, Hp.
      * intros b'. unfold fs'. rewrite elem_of_remove_dir_all. split; [tauto|]. intros Hin'. split; [done|].
        apply not_true_is_false. intros [r E]%below_spec. unfold object_path in E. rewrite <- app_assoc in E.
        rewrite <- (app_nil_r (bucket_path (lv_root v) b')) in E. apply bucket_path_inj in E as [_ E].
        pose proof (split_nonempty slash k). by destruct (split slash k).
    + destruct (read_local_value (set_fs fs' v) b k Hw Ht' Hn) as (-> & _ & ->). cbn [lv_root lv_fs set_fs].
      apply bool_decide_eq_false_2. unfold fs'. rewrite remove_dir_all_lookup, (proj2 (below_spec _ _)) by (by eexists). by intros [].
  - exists v. assert (Hno : ~ is_Some (fs_files (lv_fs v) !! meta_file (object_path (lv_root v) b k))).
    { intros Hs. apply (wf_file_parent _ (td_wf _ _ Ht)) in Hs. by rewrite parent_meta in Hs. }
    rewrite bool_decide_eq_false_2 by done. split_and!; [by destruct v|done|reflexivity|].
    destruct (read_local_value v b k Hw Ht Hn) as (-> & _ & ->). by apply bool_decide_eq_false_2.
Qed.

(** The volume keeps the pool's laws. *)
Global Instance local_pool_ok : PoolBackendOk LocalVolume VolumeWriter.
Proof.
  refine {| good := in_order |}.
  - intros d b k s m. apply local_write_ok.
  - intros d b k [Hw Ht _] Hn. destruct (read_local_value d b k Hw Ht Hn) as (Er & Es & _). cbn. by rewrite Er, Es.
  - intros d b k. apply local_delete_ok.
  - intros d b prefix [Hw Ht _]. by apply local_list_ok.
Defined.

Global Instance local_restart_ok : RestartOk LocalVolume VolumeWriter.
Proof. split; [intros d Hd|intros i d [Hw Ht Hwh]]; by split. Qed.

(** *** A fresh volume *)

(** The buckets are there and empty. *)
Record blank_volume (v : LocalVolume) : Prop := {
  bl_log : lv_wal v = None;
  bl_wf : fs_wf (lv_fs v);
  bl_bucket : forall b k, named b k = true -> bucket_path (lv_root v) b ∈ fs_dirs (lv_fs v);
  bl_files : forall b r, validate_bucket_name b = Ok tt -> fs_files (lv_fs v) !! (bucket_path (lv_root v) b ++ r) = None;
  bl_dirs : forall b r, validate_bucket_name b = Ok tt -> r <> [] -> bucket_path (lv_root v) b ++ r ∉ fs_dirs (lv_fs v);
}.

Lemma blank_in_order v : blank_volume v -> in_order v /\ forall b k, named b k = true -> is_ok (read_shard v b k) = false.
Proof.
  intros [Hw Hwf Hb Hf Hd].
  assert (Hno : forall b k, named b k = true -> fs_files (lv_fs v) !! meta_file (object_path (lv_root v) b k) = None).
  { intros b k Hn. unfold meta_file, object_path. rewrite <- app_assoc. apply Hf. by eapply fn_bucket. }
  assert (Ht : tidy (lv_root v) (lv_fs v)).
  { split; [done|done| | |].
    - intros b r Hv. rewrite (Hf b r Hv). by intros [].
    - intros b r Hv Hin Hr. by apply (Hd b r) in Hin.
    - intros b k Hn j. by rewrite (Hno b k Hn). }
  split; [split; [done|done|]|].
  - intros b k Hn Hin. exfalso. apply (Hd b (map Normal (split slash k))); [by eapply fn_bucket| |done].
    pose proof (split_nonempty slash k). by destruct (split slash k).
  - intros b k Hn. destruct (read_local_value v b k Hw Ht Hn) as (E & _ & Hok). cbn. rewrite E, Hok, (Hno b k Hn).
    apply bool_decide_eq_false_2. by intros [].
Qed.

End Promise.

(** A pool of local volumes that starts empty: where its volumes are, how many shards it can
    make, its empty caches. *)
Record fresh_pool `{ReedSolomon} `{ObjectNames} {P : Type} (p : VolumePool LocalVolume P) : Prop := {
  fp_volumes : Forall blank_volume (vp_disks p);
  fp_some : vp_disks p <> [];
  fp_count : (N.of_nat (length (vp_disks p)) < 2 ^ 64)%N;
  fp_places : map pv_backend_index (pt_disks (vp_placement p)) ≡ₚ seq 0 (length (vp_disks p));
  fp_code : forall dn pn, 0 < dn -> 0 < pn -> dn + pn = length (vp_disks p) -> rs_new_ok dn pn = true;
  fp_read : forall c, vp_read_cache p = Some c -> ReadCache.lru c = [];
  fp_write : forall c, vp_write_cache p = Some c -> WriteCache.entries c = ∅;
}.

Section Pool.
  Context `{Hashes} `{MetaCodec} `{UuidParser} `{MetaFileCodec} `{Base64} `{!Base64Ok} `{SettingsCodec} `{VolumeClock}.
  Context `{ReedSolomon} `{!ReedSolomonOk} `{ObjectNames} `{!FlatNames} {P : Type} `{!PeerCache P}.
  Context `{!MetaFilesOk}.

Lemma fresh_pool_coh (p : VolumePool LocalVolume P) : fresh_pool p -> coh p ∅.
Proof.
  intros [Hv Hs Hc Hp Hrs Hr Hw]. rewrite Forall_forall in Hv. apply coh_start; try done.
  - apply Forall_forall. intros v Hin. by apply blank_in_order, Hv.
  - by destruct (vp_disks p); [|cbn; lia].
  - intros b k Hn j d Hj. apply blank_in_order; [|done]. apply Hv. by eapply list_elem_of_lookup_2.
Qed.

(** Sessions with orderly restarts between, on volumes that start empty. *)
Theorem local_sessions_refine_map block label fs_read part_meta_index cfg id (p : VolumePool LocalVolume P) ss :
  fresh_pool p -> admissible_sessions block label fs_read part_meta_index cfg id ss p = true ->
  exists p', sessions block label fs_read part_meta_index cfg id ss p = Some (p', (spec_run ∅ (concat (map fst ss))).2) /\
    coh p' (spec_run ∅ (concat (map fst ss))).1.
Proof. intros Hp Ha. exact (sessions_refine block label fs_read part_meta_index cfg id ss p ∅ (fresh_pool_coh p Hp) Ha). Qed.

(** C36: A pool of the repository's own local volumes implements a map.  The volumes start with
    empty buckets and no log, and the objects in use have valid names of which no part is
    hidden or called meta.json and no key lies below another; any erasure code with the laws
    of Reed-Solomon and any JSON and base64 that read back will do.  Under every admissible
    sequence of small PUTs, GETs, HEADs, DELETEs, listings and flushes of the write cache no
    operation panics and each answers what the map answers, down to the files the volumes
    write; and afterwards every volume is still in order: below its buckets it holds the
    files of the objects in use and nothing else, each object with metadata that decodes and
    with its data. *)
Theorem local_pool_refines_map block label fs_read part_meta_index (p : VolumePool LocalVolume P) ops :
  fresh_pool p -> admissible_run block label fs_read part_meta_index p ops = true ->
  exists p', pool_run block label fs_read part_meta_index p ops = Some (p', (spec_run ∅ ops).2) /\
    coh p' (spec_run ∅ ops).1 /\ Forall in_order (vp_disks p').
Proof.
  intros Hp Ha. destruct (pool_run_refines block label fs_read part_meta_index p ∅ ops (fresh_pool_coh p Hp) Ha) as (p' & E & Hco).
  exists p'. split_and!; [done|done|]. exact (co_good _ _ _ _ _ Hco).
Qed.

End Pool.

(** ** Why the names must be flat *)

Section Nested.
  Context `{Hashes} `{MetaCodec} `{UuidParser} `{MetaFileCodec} `{Base64} `{SettingsCodec}.

(** Deleting an object removes its directory with everything below it: of an object whose key
    continues this one's nothing is left, although nobody deleted it. *)
Theorem delete_destroys_nested (v : LocalVolume) b k k' d r :
  lv_wal v = None -> object_dir (lv_root v) b k = Ok d -> object_dir (lv_root v) b k' = Ok (d ++ r) -> d ∈ fs_dirs (lv_fs v) ->
  (local_delete_object v b k).2 = Ok tt /\ is_ok (local_read_shard (local_delete_object v b k).1 b k') = false.
Proof.
  intros Hw Hd Hd' Hin. assert (Hdir : fs_is_dir (lv_fs v) d = true) by (by apply bool_decide_eq_true_2).
  unfold local_delete_object, on_files, failing. rewrite Hw, Hd, Hdir. split; [done|]. cbn [fst snd].
  unfold local_read_shard, read_shard_from_wal, read_shard_from_wal_versioned. cbn [lv_wal set_fs]. rewrite Hw.
  unfold read_file_tier, object_versions. cbn [lv_root lv_fs set_fs]. rewrite Hd'. cbn [mbind result_bind]. unfold fs_is_dir.
  rewrite bool_decide_eq_false_2; [done|]. intros [_ Hb]%elem_of_remove_dir_all.
  by rewrite (proj2 (below_spec _ _)) in Hb by (by eexists).
Qed.

End Nested.

(** ** Two volumes and three objects *)

Section Demo.
  Local Existing Instances example_hashes xor_code xor_code_ok ex_codec two_uuids digit_codec plain_base64 plain_base64_ok demo_settings_codec.

Local Instance demo_clocks : VolumeClock := {| vc_now := 0; vc_created := fun _ _ => 0%N |}.

Local Instance digit_files_ok : MetaFilesOk.
Proof. exact digit_codec_ok. Qed.

Definition demo_keys : list string := ["cat"; "dogs/rex"; "dogs/toby/young"].

(** Keys in directories, none below another. *)
Local Instance demo_names : ObjectNames := fun b k => bool_decide (b = "photos") && bool_decide (k ∈ demo_keys).

Lemma demo_named b k : named b k = true -> b = "photos" /\ k ∈ demo_keys.
Proof. unfold named, demo_names. by intros [?%bool_decide_eq_true ?%bool_decide_eq_true]%andb_true_iff. Qed.

Local Instance demo_flat : FlatNames.
Proof.
  assert (Hk : forall (Q : string -> Prop), Forall Q demo_keys -> forall b k, named b k = true -> Q k).
  { intros Q HQ b k [_ Hk]%demo_named. by eapply Forall_forall in HQ. }
  split.
  - by intros b k [-> _]%demo_named.
  - apply (Hk (fun k => validate_object_key k = Ok tt)). by repeat constructor.
  - apply Hk. repeat constructor; vm_compute; discriminate || reflexivity.
  - intros b k k' r [_ H1]%demo_named [_ H2]%demo_named E. revert E.
    repeat (apply elem_of_cons in H1 as [->|H1]; [|try by apply not_elem_of_nil in H1]);
    repeat (apply elem_of_cons in H2 as [->|H2]; [|try by apply not_elem_of_nil in H2]);
      vm_compute; intros E; by simplify_eq.
Qed.

Definition tree_volume (root id : string) : LocalVolume :=
  mkLocalVolume (components root) id (mkFS ∅ {[ [RootDir]; components root; components root ++ [Normal "photos"] ]}) None 10.

Lemma tree_volume_blank root id s : components root = [RootDir; Normal s] -> blank_volume (tree_volume root id).
Proof.
  intros Hc.
  assert (Hb : forall b, bucket_path (components root) b = [RootDir; Normal s; Normal b]) by (intros b; unfold bucket_path; by rewrite Hc).
  split; cbn; rewrite ?Hc.
  - done.
  - split; cbn.
    + intros p. rewrite lookup_empty. by intros [].
    + intros p. rewrite !elem_of_union, !elem_of_singleton. intros [[->| ->]| ->]; cbn; [left; lia|right|right]; set_solver.
    + done.
  - intros b k [-> _]%demo_named. set_solver.
  - intros b r _. apply lookup_empty.
  - intros b r _ Hr. cbn. rewrite !elem_of_union, !elem_of_singleton. destruct r; [done|].
    intros [[E|E]|E]; apply (f_equal length) in E; cbn in E; lia.
Qed.

Definition tree_pool : VolumePool LocalVolume MemPeer :=
  mkVolumePool [tree_volume "/v1" "v1"; tree_volume "/v2" "v2"] None PoolRefine.demo_topology (Some (WriteCache.new 700))
    (Some (ReadCache.new 1000 200)) "n1" [].

Lemma tree_pool_fresh : fresh_pool tree_pool.
Proof.
  split.
  - constructor; [exact (tree_volume_blank "/v1" "v1" "v1" eq_refl)|].
    constructor; [exact (tree_volume_blank "/v2" "v2" "v2" eq_refl)|constructor].
  - done.
  - cbn. lia.
  - done.
  - intros dn pn Hd Hp Hn. cbn in Hn. assert (pn = 1) as -> by lia. by assert (dn = 1) as -> by lia.
  - by intros c [= <-].
  - by intros c [= <-].
Qed.

Definition tree_ops : list pool_op :=
  [ OpPut "photos" "cat" [bytes_of "mia"; bytes_of "ow"] demo_opts 5 (demo_clock 1);
    OpPut "photos" "dogs/rex" [bytes_of "woof"] demo_opts 4 (demo_clock 2);
    OpFlush 0 (demo_clock 5); OpPut "photos" "dogs/toby/young" [bytes_of "yip"] demo_opts 3 (demo_clock 6);
    OpGet "photos" "dogs/rex"; OpList "photos" "dogs/" 10; OpDelete "photos" "dogs/rex"; OpHead "photos" "dogs/rex";
    OpGet "photos" "cat"; OpList "photos" "" 10 ].

Definition tree_label (d : LocalVolume) : string := "".

Lemma local_pool_refines_map_witness :
  admissible_run 16 tree_label no_file no_index tree_pool tree_ops = true /\
  exists p', pool_run 16 tree_label no_file no_index tree_pool tree_ops = Some (p', (spec_run ∅ tree_ops).2) /\ Forall in_order (vp_disks p').
Proof.
  assert (Ha : admissible_run 16 tree_label no_file no_index tree_pool tree_ops = true) by (vm_compute; reflexivity).
  split; [exact Ha|].
  destruct (local_pool_refines_map 16 tree_label no_file no_index tree_pool tree_ops tree_pool_fresh Ha) as (p' & E & _ & Hi).
  exists p'. split; [exact E|exact Hi].
Defined.

(** Two objects on one volume, one of them below the other; deleting the upper one succeeds
    and takes the lower one with it. *)
Theorem delete_takes_object_below :
  let v0 := tree_volume "/v1" "v1" in
  let v1 := (write_shard v0 "photos" "cat" (bytes_of "meow") demo_meta).1 in
  let v2 := (write_shard v1 "photos" "cat/kitten" (bytes_of "mew") demo_meta).1 in
  let r := delete_object v2 "photos" "cat" in
  read_shard v2 "photos" "cat/kitten" = Ok (bytes_of "mew", demo_meta) /\ r.2 = Ok tt /\
  read_shard r.1 "photos" "cat/kitten" = Err ObjectNotFound.
Proof. vm_compute. done. Qed.

End Demo.
