(* ===== verification/LocalWriters.v ===== *)
(** The streaming writers of the repository's local volume without a log, as the erasure
    layer uses them: the laws of [BackendOk], [HealBackendOk] and [PoolWriterOk], proved of
    the operations of [src/storage/local_volume.rs]. *)

From Stdlib Require Import Ascii.
From stdpp Require Import base list gmap strings numbers pretty.
From S2P Require Import Prelude Metadata Needle Segment Pathing Wal Materialize Placement Erasure Backend ErasureDecode ErasurePut.
From S2P Require Import Caches Heal RaftFsm FileSys LocalVolume LocalObjects VolumePool PoolSpec PoolRefine PoolStream LocalBackend.

Open Scope string_scope.
Open Scope list_scope.

(** ** Volumes without a log *)

(** A file lies in a directory. *)
Definition files_in_dirs (fs : FS) : Prop :=
  forall d c, is_Some (fs_files fs !! (d ++ [Normal c])) -> d ∈ fs_dirs fs.

Definition plain_volume (v : LocalVolume) : Prop := lv_wal v = None /\ files_in_dirs (lv_fs v).

(** A local volume without a log; its operations never leave this. *)
Record FileVolume : Type := mkFileVolume {
  fv_volume : LocalVolume;
  fv_plain : plain_volume fv_volume;
}.

Definition lift_plain {A : Type} (f : LocalVolume -> LocalVolume * A) (Hf : forall v, plain_volume v -> plain_volume (f v).1)
    (v : FileVolume) : FileVolume * A :=
  (mkFileVolume (f (fv_volume v)).1 (Hf _ (fv_plain v)), (f (fv_volume v)).2).

Lemma lift_plain_inv {A : Type} (f : LocalVolume -> LocalVolume * A) Hf v v' a :
  lift_plain f Hf v = (v', a) -> f (fv_volume v) = (fv_volume v', a).
Proof. unfold lift_plain. intros [= <- <-]. cbn [fv_volume]. apply surjective_pairing. Qed.

Lemma lift_plain_ok {A : Type} (f : LocalVolume -> LocalVolume * A) Hf v w a :
  f (fv_volume v) = (w, a) -> exists v', lift_plain f Hf v = (v', a) /\ fv_volume v' = w.
Proof. intros E. exists (lift_plain f Hf v).1. unfold lift_plain. cbn [fst fv_volume]. split; [f_equal|]; by rewrite E. Qed.

(** *** What steps on files keep *)

Definition keeps (f : Io_step) : Prop := forall fs, files_in_dirs fs -> files_in_dirs (f fs).1.

Lemma keeps_put p data : keeps (fs_put p data).
Proof.
  intros fs Hfs. destruct (fs_put p data fs) as [fs' r] eqn:E. unfold fs_put in E. destruct (fs_is_dir fs p); [by injection E as <- _|].
  destruct (fs_is_dir fs (parent p)) eqn:Hp; cbn in E; injection E as <- _; [|done]. intros d c. cbn.
  destruct (decide (d ++ [Normal c] = p)) as [<-|Hne].
  - intros _. unfold fs_is_dir in Hp. rewrite bool_decide_eq_true, parent_snoc in Hp. done.
  - rewrite lookup_insert_ne by done. apply Hfs.
Qed.

Lemma keeps_mkdir p : keeps (mkdir_all p).
Proof.
  intros fs Hfs. destruct (mkdir_all p fs) as [fs' r] eqn:E. destruct (mkdir_all_inv _ _ _ _ E) as (Ef & Hd & _).
  intros d c. cbn. rewrite Ef. intros Hs. by apply Hd, (Hfs d c).
Qed.

Lemma keeps_andthen f g : keeps f -> keeps g -> keeps (andthen f g).
Proof. intros Hf Hg fs Hfs. unfold andthen. destruct (f fs).2; [by apply Hg, Hf|by apply Hf]. Qed.

Lemma keeps_failing {A : Type} (r : Result A) k : (forall a, keeps (k a)) -> keeps (failing r k).
Proof. intros Hk fs Hfs. unfold failing. destruct r; [by apply Hk|done]. Qed.

Lemma keeps_write_meta `{MetaFileCodec} p mf : keeps (write_meta p mf).
Proof. apply keeps_failing. intros b. apply keeps_put. Qed.

Lemma keeps_put_both p1 d1 p2 d2 : keeps (put_both p1 d1 p2 d2).
Proof. intros fs Hfs. unfold put_both. cbn. by apply keeps_put, keeps_put. Qed.

Lemma keeps_remove_all d fs : files_in_dirs fs -> files_in_dirs (remove_dir_all d fs).
Proof.
  intros Hfs q c. rewrite remove_dir_all_lookup. destruct (below d (q ++ [Normal c])) eqn:E; [by intros []|].
  intros Hs. apply elem_of_remove_dir_all. split; [by apply (Hfs q c)|]. apply not_true_is_false. intros [r ->]%below_spec.
  by rewrite (proj2 (below_spec _ _)) in E by (eexists; symmetry; apply app_assoc).
Qed.

(** An empty directory has no files. *)
Lemma keeps_remove_dir d : keeps (remove_dir d).
Proof.
  intros fs Hfs. unfold remove_dir. destruct (bool_decide (dir_entries fs d = [])); [|done].
  case_bool_decide as He; [|done]. cbn [andb fst]. intros q c Hs. cbn in *. apply elem_of_difference. split; [by apply (Hfs q c)|].
  intros ->%elem_of_singleton. destruct Hs as [x Hx].
  assert (Hc : c ∈ file_entries fs d); [|rewrite He in Hc; by apply not_elem_of_nil in Hc].
  unfold file_entries. apply list_elem_of_omap. exists (d ++ [Normal c]). split.
  - apply list_elem_of_fmap. exists (d ++ [Normal c], x). split; [done|]. by apply elem_of_map_to_list.
  - unfold child_name. by rewrite take_app_length, drop_app_length, bool_decide_eq_true_2.
Qed.

Lemma keeps_handle_write h data fs : files_in_dirs fs -> files_in_dirs (handle_write h data fs).1.
Proof.
  intros Hfs. unfold handle_write. cbn [fst]. destruct (fs_files fs !! h_path h) as [old|] eqn:E; [|done].
  intros d c. cbn. destruct (decide (d ++ [Normal c] = h_path h)) as [Eh|Hne].
  - intros _. apply (Hfs d c). rewrite Eh, E. by eexists.
  - rewrite lookup_insert_ne by done. apply Hfs.
Qed.

Lemma plain_on_files v f : keeps f -> plain_volume v -> plain_volume (on_files v f).1.
Proof. intros Hf [Hw Hfs]. split; [done|]. by apply Hf. Qed.

(** *** What operations keep *)

Section Keeps.
  Context `{Hashes} `{MetaCodec} `{UuidParser} `{MetaFileCodec} `{Base64} `{SettingsCodec} `{VolumeClock}.

Ltac keeping := repeat first [apply keeps_failing; intros ? | apply keeps_andthen | apply keeps_mkdir | apply keeps_put
  | apply keeps_write_meta | apply keeps_put_both | apply keeps_remove_dir].

Lemma keeps_open root b k vid fs : files_in_dirs fs -> files_in_dirs (open_shard_file root b k vid fs).1.
Proof.
  intros Hfs. unfold open_shard_file. destruct (match vid with Some _ => _ | None => _ end) as [[d p]|e]; [|done]. cbn [fst].
  by apply keeps_andthen; [apply keeps_mkdir|apply keeps_put|].
Qed.

Lemma plain_open b k vid v : plain_volume v -> plain_volume (open_shard_writer v b k vid).1.
Proof.
  intros [Hw Hfs]. cbn. unfold local_open_shard_writer. rewrite Hw. split; [done|]. by apply keeps_open.
Qed.

Lemma plain_chunk w c v : plain_volume v -> plain_volume (write_chunk v w c).1.
Proof.
  intros [Hw Hfs]. cbn. destruct w as [w|w]; cbn [local_write_chunk].
  2:{ split; [done|]. by apply keeps_handle_write. }
  destruct (ww_mode w) as [buf|h]; [|split; [done|]; by apply keeps_handle_write].
  case_bool_decide; [|done]. pose proof (keeps_open (lv_root v) (ww_bucket w) (ww_key w) (version_opt (ww_version_id w)) _ Hfs) as Ho.
  destruct (open_shard_file _ _ _ _ _).2; split; try done. by apply keeps_handle_write, keeps_handle_write.
Qed.

Lemma keeps_set_single root b k m : keeps (set_single root b k m).
Proof. unfold set_single. keeping. Qed.

Lemma keeps_add_version root b k vid m : keeps (add_version root b k vid m).
Proof. unfold add_version. apply keeps_failing. intros p fs Hfs. by apply keeps_write_meta. Qed.

Lemma plain_finalize w m v : plain_volume v -> plain_volume (finalize v w m).1.
Proof.
  intros Hv. pose proof Hv as [Hw _]. cbn. destruct w as [w|w]; cbn [local_finalize].
  - destruct (ww_mode w); [by rewrite Hw|]. cbn [or_panic default]. apply plain_on_files; [|done].
    case_bool_decide; [apply keeps_set_single|]. unfold replace_version. apply keeps_failing. intros p fs Hfs. by apply keeps_write_meta.
  - cbn [or_panic default]. apply plain_on_files; [|done]. destruct (lw_version_id w); [apply keeps_add_version|apply keeps_set_single].
Qed.

Lemma plain_write_shard b k data m v : plain_volume v -> plain_volume (write_shard v b k data m).1.
Proof.
  intros Hv. pose proof Hv as [Hw _]. cbn. unfold local_write_shard. destruct (_ ← validate_bucket_name b; _); [|done].
  rewrite Hw. cbn [or_panic default]. apply plain_on_files; [|done]. unfold write_shard_files, write_two_files.
  destruct (_ && _); keeping.
Qed.

Lemma plain_delete b k v : plain_volume v -> plain_volume (delete_object v b k).1.
Proof.
  intros Hv. pose proof Hv as [Hw _]. cbn. unfold local_delete_object. rewrite Hw. apply plain_on_files; [|done].
  apply keeps_failing. intros d fs Hfs. destruct (fs_is_dir fs d); [by apply keeps_remove_all|done].
Qed.

Lemma plain_make b v : plain_volume v -> plain_volume (disk_make_bucket v b).1.
Proof.
  intros Hv. apply plain_on_files; [|done]. apply keeps_failing. intros d fs Hfs. destruct (fs_is_dir fs d); [done|by apply keeps_mkdir].
Qed.

Lemma plain_delete_bucket b v : plain_volume v -> plain_volume (disk_delete_bucket v b).1.
Proof.
  intros Hv. apply plain_on_files; [|done]. apply keeps_failing. intros d fs Hfs. destruct (fs_is_dir fs d); [by apply keeps_remove_dir|done].
Qed.

Lemma plain_write_versions b k vs v : plain_volume v -> plain_volume (VolumePool.write_meta_versions v b k vs).1.
Proof. intros Hv. apply plain_on_files; [|done]. keeping. Qed.

Lemma plain_write_settings b st v : plain_volume v -> plain_volume (VolumePool.write_bucket_settings v b st).1.
Proof. intros Hv. apply plain_on_files; [|done]. keeping. Qed.

Lemma plain_delete_version b k vid v : plain_volume v -> plain_volume (VolumePool.delete_version_data v b k vid).1.
Proof.
  intros [Hw Hfs]. cbn. unfold LocalVolume.delete_version_data. destruct (version_dir _ _ _ _) as [d|]; [|done].
  assert (Hr : files_in_dirs (if fs_is_dir (lv_fs v) d then remove_dir_all d (lv_fs v) else lv_fs v))
    by (destruct (fs_is_dir _ _); [by apply keeps_remove_all|done]).
  destruct (object_meta_path _ _ _) as [p|]; [|done]. destruct (read_meta_at _ p); split; try done. by apply keeps_write_meta.
Qed.

Global Instance file_backend : Backend FileVolume VolumeWriter := {|
  open_shard_writer := fun v b k vid => lift_plain (fun v => open_shard_writer v b k vid) (plain_open b k vid) v;
  write_chunk := fun v w c => lift_plain (fun v => write_chunk v w c) (plain_chunk w c) v;
  finalize := fun v w m => lift_plain (fun v => finalize v w m) (plain_finalize w m) v;
  read_shard := fun v => read_shard (fv_volume v);
  read_versioned_shard := fun v => read_versioned_shard (fv_volume v);
  Backend.stat_object := fun v => Backend.stat_object (fv_volume v);
  delete_object := fun v b k => lift_plain (fun v => delete_object v b k) (plain_delete b k) v;
|}.

Global Instance file_heal_backend : HealBackend FileVolume := {|
  write_shard := fun v b k data m => lift_plain (fun v => write_shard v b k data m) (plain_write_shard b k data m) v;
  info_volume_id := fun v => info_volume_id (fv_volume v);
  Heal.list_buckets := fun v => Heal.list_buckets (fv_volume v);
  Heal.list_objects := fun v => Heal.list_objects (fv_volume v);
|}.

Global Instance file_pool_backend : PoolBackend FileVolume := {|
  VolumePool.set_volume_id := fun i v => mkFileVolume (VolumePool.set_volume_id i (fv_volume v)) (fv_plain v);
  VolumePool.bucket_exists := fun v => VolumePool.bucket_exists (fv_volume v);
  disk_make_bucket := fun v b => lift_plain (fun v => disk_make_bucket v b) (plain_make b) v;
  disk_delete_bucket := fun v b => lift_plain (fun v => disk_delete_bucket v b) (plain_delete_bucket b) v;
  bucket_created_at := fun v => bucket_created_at (fv_volume v);
  VolumePool.read_meta_versions := fun v => VolumePool.read_meta_versions (fv_volume v);
  VolumePool.write_meta_versions := fun v b k vs => lift_plain (fun v => VolumePool.write_meta_versions v b k vs) (plain_write_versions b k vs) v;
  VolumePool.delete_version_data := fun v b k vid => lift_plain (fun v => VolumePool.delete_version_data v b k vid) (plain_delete_version b k vid) v;
  VolumePool.read_bucket_settings := fun v => VolumePool.read_bucket_settings (fv_volume v);
  VolumePool.write_bucket_settings := fun v b st => lift_plain (fun v => VolumePool.write_bucket_settings v b st) (plain_write_settings b st) v;
  drain_pending_writes := fun v => v;
|}.

End Keeps.

(** ** The laws of a writer *)

(** A version id is one part of a path. *)
Class UuidsOk `{UuidParser} : Prop := uuid_part : forall s, uuid_ok s = true -> good_part s.

Section Writers.
  Context `{Hashes} `{MetaCodec} `{UuidParser} `{!UuidsOk} `{MetaFileCodec} `{!MetaFilesOk} `{Base64} `{!Base64Ok} `{SettingsCodec} `{VolumeClock}.

(** The shard file of a version of the object at [d]. *)
Definition shard_of (d : Path) (vid : option string) : Path :=
  shard_file (match vid with None => d | Some i => ver_dir d i end).

Lemma shard_not_meta d vid : shard_of d vid <> meta_file d.
Proof.
  destruct vid as [i|]; [|by intros E; apply (meta_ne_shard d d)]. cbn. intros E. apply (f_equal length) in E.
  unfold shard_file, ver_dir, meta_file in E. rewrite !length_app in E. cbn in E. lia.
Qed.

Lemma open_frame root b k vid fs fs' r : open_shard_file root b k vid fs = (fs', r) ->
  (forall d, object_dir root b k = Ok d -> forall q, q <> shard_of d vid -> fs_files fs' !! q = fs_files fs !! q) /\
  match r with
  | Ok h => exists d, object_dir root b k = Ok d /\ h = mkHandle (shard_of d vid) 0 /\ fs_files fs' !! shard_of d vid = Some []
  | Err _ => True
  end.
Proof.
  unfold open_shard_file.
  assert (Hcreate : forall d p, let r := andthen (mkdir_all d) (fs_put p []) fs in
    (forall q, q <> p -> fs_files r.1 !! q = fs_files fs !! q) /\ (is_ok r.2 = true -> fs_files r.1 !! p = Some [])).
  { intros d p. unfold andthen. destruct (mkdir_all d fs) as [fs1 [[]|e]] eqn:Em; cbn [fst snd].
    - destruct (mkdir_all_inv _ _ _ _ Em) as (Ef & _). destruct (fs_put p [] fs1) as [fs2 r2] eqn:Ep.
      destruct (fs_put_inv _ _ _ _ _ Ep) as (_ & Hq & Hn). cbn. split; [intros q Hne; by rewrite Hq, Ef|]. destruct r2 as [[]|]; [by intros _; apply Hn|done].
    - destruct (mkdir_all_inv _ _ _ _ Em) as (Ef & _). cbn. split; [intros q _; by rewrite Ef|done]. }
  destruct vid as [i|].
  - unfold version_shard_path, version_dir, validate_version_id. destruct (uuid_ok i) eqn:Hi; cbn [mbind result_bind]; [|by intros [= <- <-]].
    destruct (object_dir root b k) as [d|e] eqn:Ed; cbn [mbind result_bind]; [|by intros [= <- <-]].
    rewrite push_good, push_shard by by apply uuid_part. fold (ver_dir d i).
    destruct (Hcreate (ver_dir d i) (shard_file (ver_dir d i))) as [Hq Hn]. intros [= <- <-]. split; [intros d' [= <-]; exact Hq|].
    destruct (andthen _ _ _).2; [|done]. exists d. split_and!; [done|done|by apply Hn].
  - destruct (object_dir root b k) as [d|e] eqn:Ed; cbn [mbind result_bind]; [|by intros [= <- <-]].
    destruct (object_paths _ _ _ _ Ed) as (_ & Hs & _). rewrite Hs. cbn [mbind result_bind].
    destruct (Hcreate d (shard_file d)) as [Hq Hn]. intros [= <- <-]. split; [intros d' [= <-]; exact Hq|].
    destruct (andthen _ _ _).2; [|done]. exists d. split_and!; [done|done|by apply Hn].
Qed.

(** Without a log, what [stat] finds is in the metadata file. *)
Lemma versions_plain v b k d : plain_volume v -> object_dir (lv_root v) b k = Ok d ->
  object_versions v b k = match read_meta_at (lv_fs v) (meta_file d) with Ok mf => Ok mf | Err _ => Err ObjectNotFound end.
Proof.
  intros [_ Hfs] Hd. destruct (object_paths _ _ _ _ Hd) as (Hm & _ & _). unfold object_versions. rewrite Hd. cbn [mbind result_bind].
  destruct (fs_is_dir (lv_fs v) d) eqn:Hdir; [by rewrite Hm|].
  unfold read_meta_at, read_meta_file. destruct (fs_files (lv_fs v) !! meta_file d) eqn:E; [|done]. exfalso.
  unfold fs_is_dir in Hdir. apply bool_decide_eq_false in Hdir. apply Hdir, (Hfs d "meta.json"). unfold meta_file in E. by rewrite E.
Qed.

Lemma stat_frame v v' b k : plain_volume v -> plain_volume v' -> lv_root v' = lv_root v ->
  (forall d, object_dir (lv_root v) b k = Ok d -> fs_files (lv_fs v') !! meta_file d = fs_files (lv_fs v) !! meta_file d) ->
  LocalVolume.stat_object v' b k = LocalVolume.stat_object v b k.
Proof.
  intros Hv Hv' Er Hf. unfold LocalVolume.stat_object. rewrite (proj1 Hv), (proj1 Hv'). cbn [mbind option_bind].
  assert (E : object_versions v' b k = object_versions v b k); [|by rewrite E].
  destruct (object_dir (lv_root v) b k) as [d|e] eqn:Ed.
  - rewrite (versions_plain v' b k d), (versions_plain v b k d) by (done || by rewrite Er). unfold read_meta_at, read_meta_file. by rewrite Hf.
  - unfold object_versions. by rewrite Er, Ed.
Qed.

Lemma absent_local v b k : plain_volume v -> is_ok (LocalVolume.stat_object v b k) = false -> is_ok (local_read_shard v b k) = false.
Proof.
  intros [Hw _]. unfold LocalVolume.stat_object, local_read_shard, read_shard_from_wal, read_shard_from_wal_versioned. rewrite Hw.
  cbn [mbind option_bind]. unfold read_file_tier. destruct (object_versions v b k) as [mf|]; cbn [mbind result_bind]; [|done].
  by destruct (current_version mf).
Qed.

(** The writer has an open file with the bytes it was given. *)
Definition local_writer_has (v : LocalVolume) (w : VolumeWriter) (o : string * string * option string) (bs : bytes) : Prop :=
  match w with
  | WalWriter _ => False
  | FileWriter w =>
      (lw_bucket w, lw_key w, lw_version_id w) = o /\ exists d, object_dir (lv_root v) o.1.1 o.1.2 = Ok d /\
      lw_file w = mkHandle (shard_of d o.2) (length bs) /\ fs_files (lv_fs v) !! shard_of d o.2 = Some bs
  end.

Lemma local_open_has v b k vid v' w : plain_volume v -> local_open_shard_writer v b k vid = (v', Ok w) -> local_writer_has v' w (b, k, vid) [].
Proof.
  intros [Hw _]. unfold local_open_shard_writer. rewrite Hw. destruct (open_shard_file _ _ _ _ _) as [fs' r] eqn:E. cbn [fst snd].
  destruct (open_frame _ _ _ _ _ _ _ E) as [_ Hr]. destruct r as [h|e]; cbn [mbind result_bind]; intros [= <- <-].
  destruct Hr as (d & Hd & -> & Hf). split; [done|]. by exists d.
Qed.

Lemma local_chunk_has v w c v' w' o bs : local_writer_has v w o bs -> local_write_chunk v w c = (v', Ok w') -> local_writer_has v' w' o (bs ++ c).
Proof.
  destruct w as [w|w]; [done|]. intros (<- & d & Hd & Hfile & Hf). cbn [local_write_chunk]. rewrite Hfile, (handle_write_snoc _ bs) by done.
  intros [= <- <-]. split; [done|]. exists d. cbn. by rewrite lookup_insert_eq.
Qed.

Lemma finalize_local v w m b k bs : plain_volume v -> local_writer_has v w (b, k, None) bs ->
  exists d, object_dir (lv_root v) b k = Ok d /\ fs_files (lv_fs v) !! shard_file d = Some bs /\ d ∈ fs_dirs (lv_fs v) /\
    finalize v w m = on_files v (set_single (lv_root v) b k m).
Proof.
  intros [_ Hfs] Hh. destruct w as [w|w]; [done|]. destruct Hh as (Eo & d & Hd & _ & Hf). injection Eo as Eb Ek Ev. cbn in Hd, Hf.
  exists d. split_and!; [done|done|apply (Hfs d "shard.dat"); unfold shard_of, shard_file in Hf; by rewrite Hf|].
  cbn. by rewrite Eb, Ek, Ev.
Qed.

Lemma set_single_inv root b k m d fs fs' r : object_dir root b k = Ok d -> set_single root b k m fs = (fs', r) ->
  fs_dirs fs' = fs_dirs fs /\ (forall q, q <> meta_file d -> fs_files fs' !! q = fs_files fs !! q) /\
  match r with
  | Ok _ => exists j, fs_files fs' !! meta_file d = Some j /\ json_from_slice j = Some (single_version b k m)
  | Err _ => fs' = fs
  end.
Proof.
  intros Hd. destruct (object_paths _ _ _ _ Hd) as (Hm & _ & _). unfold set_single, failing. rewrite Hm. unfold write_meta, failing.
  destruct (json_all (single_version b k m)) as (j & Ej & Edec). rewrite Ej. cbn [ok_or]. intros E.
  destruct (fs_put_inv _ _ _ _ _ E) as (Hdirs & Hq & Hn). split_and!; [done|done|]. destruct r as [[]|]; [exists j; split; [by apply Hn|done]|].
  unfold fs_put in E. by repeat case_match; simplify_eq.
Qed.

Lemma finalize_local_ok v w bs m v' b k : plain_volume v -> local_writer_has v w (b, k, None) bs -> plain_meta m ->
  finalize v w m = (v', Ok tt) -> local_read_shard v' b k = Ok (bs, m).
Proof.
  intros Hv Hh (Hvid & Hdel & Hlat & Hinl) E. destruct (finalize_local v w m b k bs Hv Hh) as (d & Hd & Hf & Hin & E0). rewrite E0 in E. clear E0.
  unfold on_files in E. destruct (set_single (lv_root v) b k m (lv_fs v)) as [fs' r] eqn:Es. injection E as <- ->.
  destruct (set_single_inv _ _ _ _ _ _ _ _ Hd Es) as (Hdirs & Hq & j & Hj & Hdec).
  assert (Em : set_inline None (set_is_latest true m) = m) by (destruct m; cbn in *; by subst). rewrite <- Em.
  unfold local_read_shard, read_shard_from_wal, read_shard_from_wal_versioned. cbn [lv_wal set_fs fst]. rewrite (proj1 Hv).
  eapply (read_file_tier_ok (set_fs fs' v) b k d); [done|cbn; by rewrite Hdirs|exact Hj|exact Hdec|by apply current_single|done|].
  cbn. rewrite Hinl, Hq; [done|]. intros Ex. by apply (meta_ne_shard d d).
Qed.

Lemma finalize_local_err v w bs m v' e b k : plain_volume v -> local_writer_has v w (b, k, None) bs ->
  finalize v w m = (v', Err e) -> v' = v.
Proof.
  intros Hv Hh E. destruct (finalize_local v w m b k bs Hv Hh) as (d & Hd & _ & _ & E0). rewrite E0 in E. unfold on_files in E.
  destruct (set_single (lv_root v) b k m (lv_fs v)) as [fs' r] eqn:Es. injection E as <- ->.
  destruct (set_single_inv _ _ _ _ _ _ _ _ Hd Es) as (_ & _ & ->). by destruct v.
Qed.

Global Instance file_backend_ok : BackendOk FileVolume VolumeWriter.
Proof.
  refine {| writer_has := fun v => local_writer_has (fv_volume v) |}.
  - intros d b k v d' w E%lift_plain_inv. exact (local_open_has _ b k v _ w (fv_plain d) E).
  - intros d w c d' w' o bs Hh E%lift_plain_inv. exact (local_chunk_has _ w c _ w' o bs Hh E).
  - intros d b k. apply absent_local, fv_plain.
  - intros d b k v Hs. pose proof (fv_plain d) as Hp. change (is_ok (LocalVolume.stat_object (local_open_shard_writer (fv_volume d) b k v).1 b k) = false).
    rewrite (stat_frame (fv_volume d)); [done|done|by apply (plain_open b k v)| |].
    + unfold local_open_shard_writer. by rewrite (proj1 Hp).
    + intros dir Hd. unfold local_open_shard_writer. rewrite (proj1 Hp). cbn [fst lv_fs set_fs].
      destruct (open_shard_file _ _ _ _ _) as [fs' r] eqn:E. destruct (open_frame _ _ _ _ _ _ _ E) as [Hq _]. cbn.
      apply (Hq dir Hd). intros Ex. symmetry in Ex. by apply shard_not_meta in Ex.
  - intros d [w|w] c b k v bs; [done|]. intros (Eo & dir & Hd & Hfile & Hf) Hs. cbn in Hd, Hf, Hfile.
    change (is_ok (LocalVolume.stat_object (local_write_chunk (fv_volume d) (FileWriter w) c).1 b k) = false).
    rewrite (stat_frame (fv_volume d)); [done|apply fv_plain|apply (plain_chunk (FileWriter w) c), fv_plain|done|].
    intros dir' Hd'. rewrite Hd in Hd'. injection Hd' as <-. cbn [local_write_chunk fst lv_fs set_fs].
    rewrite Hfile, (handle_write_snoc _ bs) by done. cbn. rewrite lookup_insert_ne; [done|]. apply shard_not_meta.
  - intros d w bs m d' b k Hh Hp E%lift_plain_inv. exact (finalize_local_ok _ w bs m _ b k (fv_plain d) Hh Hp E).
  - intros d w bs m d' e b k Hh Hs E%lift_plain_inv. cbn. rewrite (finalize_local_err _ w bs m _ e b k (fv_plain d) Hh E).
    by apply absent_local; [apply fv_plain|].
Defined.

(** *** Healing *)

(** Nothing is in the way of the object's files. *)
Definition local_writable (v : LocalVolume) (b k : string) : Prop :=
  fs_wf (lv_fs v) /\ exists d, object_dir (lv_root v) b k = Ok d /\ clear_for (lv_fs v) d.

Lemma heal_write_ok v b k data m : plain_volume v -> local_writable v b k -> plain_meta m -> exists v',
  write_shard v b k data m = (v', Ok tt) /\ local_writable v' b k /\ local_read_shard v' b k = Ok (data, m) /\
  lv_volume_id v' = lv_volume_id v.
Proof.
  intros [Hw _] (Hwf & d & Hd & Hc) Hpl.
  destruct (write_shard_files_ok (lv_root v) b k d data m (lv_fs v) Hd Hc Hwf (proj1 Hpl) (json_all _))
    as (fs' & j & Hwr & Hwf' & Hin & Hmeta & Hdec & Hshard & Hframe & Hdirs).
  destruct (stored_value b k data m Hpl) as (Hcur & Hvid & Hsi & Hinl). exists (set_fs fs' v). split_and!.
  - pose proof Hd as (Hb & Hk & _)%object_dir_Ok. cbn. unfold local_write_shard. rewrite Hb. cbn [mbind result_bind].
    rewrite Hk, Hw. unfold on_files. by rewrite Hwr.
  - split; [done|]. exists d. split; [done|]. destruct Hc as [Hp Hm Hs]. split; cbn [lv_fs set_fs].
    + intros q Hq. rewrite Hframe; [by apply Hp|..]; intros ->; by apply not_own_prefix in Hq.
    + rewrite Hdirs, not_elem_of_union, elem_of_list_to_set. split; [done|apply not_own_prefix].
    + rewrite Hdirs, not_elem_of_union, elem_of_list_to_set. split; [done|apply not_own_prefix].
  - unfold local_read_shard, read_shard_from_wal, read_shard_from_wal_versioned. cbn [lv_wal set_fs]. rewrite Hw, <- Hsi.
    eapply (read_file_tier_ok (set_fs fs' v) b k d); [done|done|exact Hmeta|exact Hdec|exact Hcur|done|].
    destruct (inline_data (stored_meta data m)); [done|by apply Hshard].
  - done.
Qed.

Global Instance file_heal_ok : HealBackendOk FileVolume VolumeWriter.
Proof.
  refine {| writable := fun v => local_writable (fv_volume v) |}.
  - intros d b k data m Hw Hm. destruct (heal_write_ok _ b k data m (fv_plain d) Hw Hm) as (v' & E & Hw' & Hr & Hi).
    destruct (lift_plain_ok _ (plain_write_shard b k data m) d v' (Ok tt) E) as (d' & E' & <-). by exists d'.
  - intros d b k v. cbn. unfold local_open_shard_writer. by destruct (lv_wal _).
  - intros d w c. cbn. destruct w as [w|w]; [|done]. cbn. destruct (ww_mode w); [|done]. case_bool_decide; [|done]. by destruct (open_shard_file _ _ _ _ _).2.
  - intros d w m. cbn. destruct w as [w|w]; cbn; [|done].
    destruct (ww_mode w); [|done]. by rewrite (proj1 (fv_plain d)).
Defined.

(** *** Writing through a pool *)

Context `{ObjectNames} `{!FlatNames}.

Lemma dirs_have_prefixes fs d : fs_wf fs -> d ∈ fs_dirs fs -> fs_dirs fs = fs_dirs fs ∪ list_to_set (prefixes d).
Proof.
  intros Hwf Hd. apply leibniz_equiv. intros q. rewrite elem_of_union, elem_of_list_to_set. split; [by left|]. intros [?|Hq]; [done|].
  apply elem_of_prefixes in Hq as [Hne [r ->]]. by eapply dirs_closed.
Qed.

Lemma open_keeps_tidy v b k : plain_volume v -> tidy (lv_root v) (lv_fs v) -> named b k = true ->
  let v' := (local_open_shard_writer v b k None).1 in tidy (lv_root v') (lv_fs v') /\ forall b', LocalVolume.bucket_exists v' b' = LocalVolume.bucket_exists v b'.
Proof.
  intros [Hw _] Ht Hn v'. unfold v', local_open_shard_writer. rewrite Hw. pose proof (object_path_dir (lv_root v) b k Hn) as Hd.
  set (d := object_path (lv_root v) b k) in *. rewrite (open_shard_file_ok _ b k d _ Hd (tidy_clear _ _ b k Ht Hn)). cbn [fst lv_root lv_fs set_fs].
  destruct (clear_mkdir (lv_fs v) d (proj2 (proj2 (object_paths _ _ _ _ Hd))) (tidy_clear _ _ b k Ht Hn)) as (Hmk & Hin & _ & Hsh).
  pose proof (mkdir_all_wf d (lv_fs v) (td_wf _ _ Ht)) as Hwf1. rewrite Hmk in Hwf1. cbn [fst] in Hwf1.
  pose proof (fs_put_wf (shard_file d) [] _ Hwf1) as Hwf2. rewrite fs_put_ok in Hwf2 by (done || by rewrite parent_shard). cbn [fst fs_files fs_dirs] in Hwf2.
  destruct (write_one v _ b k Hn Hw Ht Hwf2) as [Ht' [_ Hb _]]; [|done| |by split].
  - intros p _ Hp. cbn. by rewrite lookup_insert_ne.
  - intros j. cbn. rewrite lookup_insert_ne by (intros E; symmetry in E; by apply meta_ne_shard in E). intros Hj.
    destruct (td_objects _ _ Ht b k Hn j Hj) as (mf & m & ? & ? & ? & Hx). exists mf, m. split_and!; [done..|].
    destruct (inline_data m); [done|]. fold d. rewrite lookup_insert_eq. by eexists.
Qed.

(** A change of one of the two files of an object that has its directory. *)
Lemma file_keeps_tidy v b k c data : plain_volume v -> tidy (lv_root v) (lv_fs v) -> named b k = true ->
  let d := object_path (lv_root v) b k in
  let fs' := mkFS (<[d ++ [Normal c] := data]> (fs_files (lv_fs v))) (fs_dirs (lv_fs v)) in
  c = "meta.json" \/ c = "shard.dat" -> d ∈ fs_dirs (lv_fs v) -> intact fs' d ->
  tidy (lv_root v) fs' /\ forall b', LocalVolume.bucket_exists (set_fs fs' v) b' = LocalVolume.bucket_exists v b'.
Proof.
  intros [Hw _] Ht Hn d fs' Hc Hin Hi.
  assert (Hnd : d ++ [Normal c] ∉ fs_dirs (lv_fs v)).
  { destruct (tidy_clear _ _ b k Ht Hn) as [_ Hm Hs]. by destruct Hc as [->| ->]. }
  assert (Hwf : fs_wf fs').
  { pose proof (fs_put_wf (d ++ [Normal c]) data _ (td_wf _ _ Ht)) as Hx. by rewrite put_in_dir in Hx. }
  destruct (write_one v fs' b k Hn Hw Ht Hwf) as [Ht' [_ Hb _]]; [| |done|by split].
  - intros p Hp Hp'. unfold fs'. cbn. rewrite lookup_insert_ne; [done|]. intros <-. by destruct Hc as [->| ->].
  - exact (dirs_have_prefixes _ d (td_wf _ _ Ht) Hin).
Qed.

Lemma writer_named v w b k bs : plain_volume v -> named b k = true -> local_writer_has v w (b, k, None) bs ->
  let d := object_path (lv_root v) b k in fs_files (lv_fs v) !! shard_file d = Some bs /\ d ∈ fs_dirs (lv_fs v).
Proof.
  intros Hv Hn Hh. destruct (finalize_local v w demo_meta b k bs Hv Hh) as (d & Hd & Hf & Hin & _).
  rewrite (object_path_dir _ b k Hn) in Hd. by injection Hd as <-.
Qed.

Lemma chunk_keeps_tidy v w c b k bs : plain_volume v -> tidy (lv_root v) (lv_fs v) -> named b k = true ->
  local_writer_has v w (b, k, None) bs ->
  let v' := (local_write_chunk v w c).1 in tidy (lv_root v') (lv_fs v') /\ forall b', LocalVolume.bucket_exists v' b' = LocalVolume.bucket_exists v b'.
Proof.
  intros Hv Ht Hn Hh. destruct (writer_named v w b k bs Hv Hn Hh) as [Hf Hin]. destruct w as [w|w]; [done|].
  destruct Hh as (_ & d & Hd & Hfile & _). cbn in Hd, Hfile. rewrite (object_path_dir _ b k Hn) in Hd. injection Hd as <-.
  cbn [local_write_chunk]. rewrite Hfile, (handle_write_snoc _ bs) by done. cbn [fst lv_root lv_fs set_fs].
  apply (file_keeps_tidy v b k "shard.dat" (bs ++ c)); [done|done|done|by right|done|]. intros j. cbn.
  rewrite lookup_insert_ne by (intros E; symmetry in E; by apply meta_ne_shard in E). intros Hj.
  destruct (td_objects _ _ Ht b k Hn j Hj) as (mf & m & ? & ? & ? & Hx). exists mf, m. split_and!; [done..|].
  destruct (inline_data m); [done|]. unfold shard_file. rewrite lookup_insert_eq. by eexists.
Qed.

Lemma finalize_keeps_tidy v w m b k bs : plain_volume v -> tidy (lv_root v) (lv_fs v) -> named b k = true ->
  local_writer_has v w (b, k, None) bs -> plain_meta m ->
  let v' := (finalize v w m).1 in tidy (lv_root v') (lv_fs v') /\ forall b', LocalVolume.bucket_exists v' b' = LocalVolume.bucket_exists v b'.
Proof.
  intros Hv Ht Hn Hh (Hvid & Hdel & _ & Hinl). destruct (writer_named v w b k bs Hv Hn Hh) as [Hf Hin].
  destruct (finalize_local v w m b k bs Hv Hh) as (d & Hd & _ & _ & E). cbn zeta. rewrite E. clear E.
  pose proof Hd as Hd'. rewrite (object_path_dir _ b k Hn) in Hd'. injection Hd' as <-. set (d := object_path (lv_root v) b k) in *.
  destruct (json_all (single_version b k m)) as (j & Ej & Edec). unfold on_files.
  rewrite (set_single_ok (lv_root v) b k d m j (lv_fs v) Hd Ej Hin (clear_meta _ _ (tidy_clear _ _ b k Ht Hn))). cbn [fst lv_root lv_fs set_fs].
  apply (file_keeps_tidy v b k "meta.json" j); [done|done|done|by left|done|]. intros j'. cbn. fold d. rewrite lookup_insert_eq. intros [= <-].
  exists (single_version b k m), (set_is_latest true m). split_and!; [done|by apply current_single|done|].
  change (inline_data (set_is_latest true m)) with (inline_data m). rewrite Hinl, lookup_insert_ne by apply meta_ne_shard. by exists bs.
Qed.

Global Instance file_writer_ok : PoolWriterOk FileVolume VolumeWriter.
Proof.
  refine {| sound := fun v => tidy (lv_root (fv_volume v)) (lv_fs (fv_volume v)) |}.
  - intros d b k Ht Hn. destruct (read_local_value _ b k (proj1 (fv_plain d)) Ht Hn) as (Er & Es & _).
    unfold stat_agrees. cbn. by rewrite Er, Es.
  - intros d b k Ht Hn. exact (open_keeps_tidy _ b k (fv_plain d) Ht Hn).
  - intros d w c b k bs Ht Hn Hh. exact (chunk_keeps_tidy _ w c b k bs (fv_plain d) Ht Hn Hh).
  - intros d w m b k bs Ht Hn Hh Hm. exact (finalize_keeps_tidy _ w m b k bs (fv_plain d) Ht Hn Hh Hm).
Defined.

End Writers.
