(* ===== verification/RaftVote.v ===== *)
(** The vote of a raft node: [src/raft/storage/meta.rs], a file that is replaced by a rename,
    and the two methods of [src/raft/adapter/log.rs] through which openraft saves and reads
    its vote.  The disk below keeps apart what the system calls show and what a power
    failure leaves: the content of a file that was not synced may be lost or torn, and
    directory entries written since the last boot may be taken back, the latest first. *)

From Stdlib Require Import Ascii NArith.
From stdpp Require Import base list gmap strings numbers pretty.
From S2P Require Import Prelude Metadata Pathing FileSys Config Internode.

Open Scope string_scope.
Open Scope list_scope.

Definition VOTE_FILE : string := "vote.json".

Record Vote : Type := mkVote {
  vote_term : N;
  voted_for : string;
}.

Definition default_vote : Vote := mkVote 0 "".

Inductive VoteError : Type := VoteIo (e : StorageError) | VoteParse.

Record VoteStore : Type := mkVoteStore { vs_dir : Path }.

Definition vote_path (s : VoteStore) : Path := vs_dir s ++ [Normal VOTE_FILE].
(** [with_extension("json.tmp")] *)
Definition vote_tmp (s : VoteStore) : Path := vs_dir s ++ [Normal "vote.json.tmp"].

Definition vote_io {A : Type} (r : Result A) : result VoteError A :=
  match r with Ok a => Ok a | Err e => Err (VoteIo e) end.

(** ** The store *)

Section Store.
  Context `{!Json Vote}.

Definition vote_open (dir : Path) (fs : FS) : FS * result VoteError VoteStore :=
  let r := mkdir_all dir fs in (r.1, _ ← vote_io r.2; Ok (mkVoteStore dir)).

Definition vote_load (s : VoteStore) (fs : FS) : result VoteError Vote :=
  match fs_read fs (vote_path s) with
  | Some b => ok_or (from_json b) VoteParse
  | None => if read_refused fs (vote_path s) then Err (VoteIo (Io "not a file")) else Ok default_vote
  end.

Lemma vote_open_ready dir fs :
  dir <> [] -> ready fs (vote_path (mkVoteStore dir)) ->
  exists fs', vote_open dir fs = (fs', Ok (mkVoteStore dir)) /\ dir ∈ fs_dirs fs' /\
    vote_load (mkVoteStore dir) fs' = vote_load (mkVoteStore dir) fs.
Proof.
  intros Hne [Hf Hp]. pose proof (read_not_found fs (vote_path (mkVoteStore dir)) Hp (or_intror Hf)) as Hr0.
  unfold vote_path in *. cbn [vs_dir] in *. rewrite parent_snoc in Hf. unfold vote_open. rewrite mkdir_all_ok by done. cbn [fst snd vote_io]. eexists. split; [done|].
  assert (Hx : forall c, dir ++ [c] ∉ prefixes dir).
  { intros c [_ [r E]]%elem_of_prefixes. apply (f_equal length) in E. rewrite !length_app in E. cbn in E. lia. }
  assert (Hd : dir ∈ fs_dirs fs ∪ list_to_set (prefixes dir)) by (apply elem_of_union_r, elem_of_list_to_set; by apply prefixes_self).
  split; [done|]. unfold vote_load, fs_read, vote_path. cbn [fs_files vs_dir]. destruct (_ !! _); [done|].
  rewrite Hr0, read_not_found; [done| |left; cbn; by rewrite parent_snoc].
  cbn. rewrite not_elem_of_union, not_elem_of_list_to_set. split; [done|apply Hx].
Qed.

End Store.

(** ** The disk

    Directory entries name files by number.  [dk_dirty] holds the files with data that was
    never synced.  [dk_older] holds the earlier states of the directory that a power failure
    may still bring back: the file system writes its directory changes in order and nothing
    here ever syncs the directory. *)

Record Disk : Type := mkDisk {
  dk_dirs : gset Path;
  dk_names : gmap Path nat;
  dk_older : list (gmap Path nat);
  dk_data : gmap nat bytes;
  dk_dirty : gset nat;
  dk_next : nat;
}.

(** What the running system sees. *)
Definition disk_fs (d : Disk) : FS := mkFS (omap (fun i => dk_data d !! i) (dk_names d)) (dk_dirs d).

(** [OpenOptions::new().write(true).create(true).truncate(true).open(p)] *)
Definition open_truncate (p : Path) (d : Disk) : Disk * Result nat :=
  if bool_decide (p ∈ dk_dirs d) then (d, Err (Io "is a directory"))
  else if negb (bool_decide (parent p ∈ dk_dirs d)) then (d, Err (Io "not found"))
  else match dk_names d !! p with
       | Some f => (mkDisk (dk_dirs d) (dk_names d) (dk_older d) (<[f := []]> (dk_data d)) ({[f]} ∪ dk_dirty d) (dk_next d), Ok f)
       | None =>
           let f := dk_next d in
           (mkDisk (dk_dirs d) (<[p := f]> (dk_names d)) (dk_names d :: dk_older d)
              (<[f := []]> (dk_data d)) ({[f]} ∪ dk_dirty d) (S f), Ok f)
       end.

(** [File::write_all] and [File::sync_data] on an open file. *)
Definition write_all (f : nat) (bs : bytes) (d : Disk) : Disk :=
  mkDisk (dk_dirs d) (dk_names d) (dk_older d) (<[f := default [] (dk_data d !! f) ++ bs]> (dk_data d)) ({[f]} ∪ dk_dirty d) (dk_next d).
Definition sync_data (f : nat) (d : Disk) : Disk :=
  mkDisk (dk_dirs d) (dk_names d) (dk_older d) (dk_data d) (dk_dirty d ∖ {[f]}) (dk_next d).

(** [fs::rename] of a file *)
Definition disk_rename (src dst : Path) (d : Disk) : Disk * Result unit :=
  match dk_names d !! src with
  | None => (d, Err (Io "not found"))
  | Some f =>
      if bool_decide (dst ∈ dk_dirs d) then (d, Err (Io "is a directory"))
      else if negb (bool_decide (parent dst ∈ dk_dirs d)) then (d, Err (Io "not found"))
      else (mkDisk (dk_dirs d) (<[dst := f]> (delete src (dk_names d))) (dk_names d :: dk_older d) (dk_data d) (dk_dirty d) (dk_next d), Ok tt)
  end.

(** What the disk holds when power comes back: one of the states of the directory, the data
    of the synced files, and anything in the others. *)
Inductive power_loss (d : Disk) : Disk -> Prop :=
| lose_power names data :
    names ∈ dk_names d :: dk_older d ->
    (forall f, f ∉ dk_dirty d -> data !! f = dk_data d !! f) ->
    power_loss d (mkDisk (dk_dirs d) names [] data ∅ (dk_next d)).

(** ** Saving *)

Section Save.
  Context `{!Json Vote}.

Definition vote_save (s : VoteStore) (v : Vote) (d : Disk) : Disk * result VoteError unit :=
  match to_json v with
  | None => (d, Err VoteParse)
  | Some b =>
      let o := open_truncate (vote_tmp s) d in
      match o.2 with
      | Err e => (o.1, Err (VoteIo e))
      | Ok f =>
          let w := write_all f b o.1 in
          let w := sync_data f w in
          let r := disk_rename (vote_tmp s) (vote_path s) w in (r.1, vote_io r.2)
      end
  end.

(** The disks a save passes through; a [write_all] may be stopped anywhere. *)
Inductive save_point (s : VoteStore) (v : Vote) (d : Disk) : Disk -> Prop :=
| at_start : save_point s v d d
| at_written b f n d1 :
    to_json v = Some b -> open_truncate (vote_tmp s) d = (d1, Ok f) -> save_point s v d (write_all f (take n b) d1)
| at_synced b f d1 :
    to_json v = Some b -> open_truncate (vote_tmp s) d = (d1, Ok f) -> save_point s v d (sync_data f (write_all f b d1))
| at_end d1 : vote_save s v d = (d1, Ok tt) -> save_point s v d d1.

Inductive vote_event : Type := Saved (v : Vote) | PowerLoss | CutShort (v : Vote).

Inductive vote_run (s : VoteStore) : Disk -> list vote_event -> Disk -> Prop :=
| run_nil d : vote_run s d [] d
| run_saved d v d1 evs d' :
    vote_save s v d = (d1, Ok tt) -> vote_run s d1 evs d' -> vote_run s d (Saved v :: evs) d'
| run_power d d1 evs d' : power_loss d d1 -> vote_run s d1 evs d' -> vote_run s d (PowerLoss :: evs) d'
| run_cut d v d1 d2 evs d' :
    save_point s v d d1 -> power_loss d1 d2 -> vote_run s d2 evs d' -> vote_run s d (CutShort v :: evs) d'.

(** The votes a reader may find: [live] while power stays on, [kept] after it was lost. *)
Fixpoint candidates (live kept : list Vote) (evs : list vote_event) : list Vote :=
  match evs with
  | [] => live
  | Saved v :: evs => candidates [v] (v :: kept) evs
  | PowerLoss :: evs => candidates kept kept evs
  | CutShort v :: evs => candidates (v :: kept) (v :: kept) evs
  end.

(** The directory is there and the two names are no directories. *)
Record store_ready (s : VoteStore) (d : Disk) : Prop := {
  sr_dir : vs_dir s ∈ dk_dirs d;
  sr_path : vote_path s ∉ dk_dirs d;
  sr_tmp : vote_tmp s ∉ dk_dirs d;
}.

(** A disk after a boot: everything on it is durable, every name has a file of its own. *)
Record booted (s : VoteStore) (d : Disk) : Prop := {
  bt_ready : store_ready s d;
  bt_older : dk_older d = [];
  bt_dirty : dk_dirty d = ∅;
  bt_next : forall p f, dk_names d !! p = Some f -> f < dk_next d /\ is_Some (dk_data d !! f);
  bt_apart : forall f, dk_names d !! vote_tmp s = Some f -> dk_names d !! vote_path s <> Some f;
}.

(** One state of the directory holds a whole vote among [vs]. *)
Definition entry_ok (s : VoteStore) (d : Disk) (vs : list Vote) (names : gmap Path nat) : Prop :=
  match names !! vote_path s with
  | None => default_vote ∈ vs
  | Some f => f ∉ dk_dirty d /\ exists b v, dk_data d !! f = Some b /\ from_json b = Some v /\ v ∈ vs
  end.

(** The temporary file is not the vote of any state of the directory. *)
Record disk_ok (s : VoteStore) (live kept : list Vote) (d : Disk) : Prop := {
  dok_ready : store_ready s d;
  dok_live : entry_ok s d live (dk_names d);
  dok_kept : Forall (entry_ok s d kept) (dk_names d :: dk_older d);
  dok_next : Forall (fun names => forall p f, names !! p = Some f -> f < dk_next d) (dk_names d :: dk_older d);
  dok_apart : Forall (fun names => forall f, names !! vote_tmp s = Some f -> names !! vote_path s <> Some f) (dk_names d :: dk_older d);
  dok_tmp : forall f, dk_names d !! vote_tmp s = Some f -> Forall (fun names => names !! vote_path s <> Some f) (dk_older d);
}.

Lemma vote_tmp_ne s : vote_tmp s <> vote_path s.
Proof. unfold vote_tmp, vote_path. by intros [_ [=]]%app_inj_tail. Qed.

Lemma tmp_opens s d : store_ready s d -> exists d1 f, open_truncate (vote_tmp s) d = (d1, Ok f).
Proof.
  intros [Hd Hp Ht]. unfold open_truncate. rewrite (bool_decide_eq_false_2 _ Ht).
  replace (parent (vote_tmp s)) with (vs_dir s) by (symmetry; apply parent_snoc).
  rewrite (bool_decide_eq_true_2 _ Hd). destruct (dk_names d !! vote_tmp s); by eexists _, _.
Qed.

Lemma vote_load_live s live kept d : disk_ok s live kept d -> exists v, v ∈ live /\ vote_load s (disk_fs d) = Ok v.
Proof.
  intros [Hr He _ _ _ _]. unfold entry_ok in He. unfold vote_load, fs_read. cbn [disk_fs fs_files].
  rewrite lookup_omap. destruct (dk_names d !! vote_path s) as [f|]; cbn.
  - destruct He as (_ & b & v & -> & Hb & Hv). exists v. by rewrite Hb.
  - exists default_vote. split; [done|]. rewrite read_not_found; [done|apply Hr|left]. unfold vote_path. rewrite parent_snoc. apply Hr.
Qed.

(** What the vote's entry says depends only on the files that entry can name. *)
Lemma entry_frame s d d' vs names f :
  names !! vote_path s <> Some f ->
  (forall g, g <> f -> dk_data d' !! g = dk_data d !! g) ->
  (forall g, g <> f -> g ∉ dk_dirty d -> g ∉ dk_dirty d') ->
  entry_ok s d vs names -> entry_ok s d' vs names.
Proof.
  intros Hn Hd Hy. unfold entry_ok. destruct (names !! vote_path s) as [g|]; [|done].
  assert (g <> f) by congruence. intros (Hg & b & v & Hb & ?). split; [by apply Hy|]. exists b, v. by rewrite Hd.
Qed.

Lemma entry_mono s d vs ws names : vs ⊆ ws -> entry_ok s d vs names -> entry_ok s d ws names.
Proof. intros Hs. unfold entry_ok. destruct (names !! vote_path s); [|by apply Hs]. intros (? & b & v & ? & ? & ?). split; [done|]. exists b, v. auto. Qed.

Lemma touch_tmp s live kept d d' f :
  dk_names d !! vote_tmp s = Some f ->
  dk_dirs d' = dk_dirs d -> dk_names d' = dk_names d -> dk_older d' = dk_older d -> dk_next d' = dk_next d ->
  (forall g, g <> f -> dk_data d' !! g = dk_data d !! g) -> (forall g, g <> f -> g ∉ dk_dirty d -> g ∉ dk_dirty d') ->
  disk_ok s live kept d -> disk_ok s live kept d'.
Proof.
  intros Ht Ed En Eo Ex Hd Hy [Hr Hl Hk Hn Ha Htm].
  assert (Hf : forall names, names ∈ dk_names d :: dk_older d -> names !! vote_path s <> Some f).
  { intros names [->|Hin]%elem_of_cons; [by apply (proj1 (Forall_cons_1 _ _ _ Ha))|].
    exact (proj1 (Forall_forall _ _) (Htm f Ht) names Hin). }
  split; rewrite ?En, ?Eo, ?Ex; try done.
  - destruct Hr. by split; rewrite Ed.
  - by apply (entry_frame s d d' _ _ f); [apply Hf; left|..].
  - apply Forall_forall. intros names Hin. apply (entry_frame s d d' _ _ f); [by apply Hf|done..|].
    exact (proj1 (Forall_forall _ _) Hk names Hin).
Qed.

Lemma open_tmp_ok s live kept d d1 f : disk_ok s live kept d -> open_truncate (vote_tmp s) d = (d1, Ok f) ->
  disk_ok s live kept d1 /\ dk_names d1 !! vote_tmp s = Some f /\ dk_data d1 !! f = Some [].
Proof.
  intros Hok. unfold open_truncate. destruct (bool_decide _); [discriminate|]. destruct (negb _); [discriminate|].
  destruct (dk_names d !! vote_tmp s) as [g|] eqn:Et; intros [= <- <-].
  { split_and!; [|done|cbn; by rewrite lookup_insert_eq].
    apply (touch_tmp s live kept d _ g Et); try done; cbn; [intros; by rewrite lookup_insert_ne|set_solver]. }
  split_and!; [|cbn; by rewrite lookup_insert_eq..]. destruct Hok as [Hr Hl Hk Hn Ha Htm]. set (d1 := mkDisk _ _ _ _ _ _).
  assert (Hlt : forall names, names ∈ dk_names d :: dk_older d -> forall p g, names !! p = Some g -> g <> dk_next d).
  { intros names Hin p g Hg. pose proof (proj1 (Forall_forall _ _) Hn names Hin p g Hg). lia. }
  assert (Hfr : forall vs names, names ∈ dk_names d :: dk_older d -> entry_ok s d vs names -> entry_ok s d1 vs names).
  { intros vs names Hin. apply (entry_frame s d d1 vs names (dk_next d)); cbn.
    - intros E. by apply (Hlt names Hin _ _ E).
    - intros g Hg. by rewrite lookup_insert_ne.
    - set_solver. }
  assert (Hpath : <[vote_tmp s := dk_next d]> (dk_names d) !! vote_path s = dk_names d !! vote_path s) by (by rewrite lookup_insert_ne by apply vote_tmp_ne).
  assert (Hnew : forall vs, entry_ok s d1 vs (dk_names d) -> entry_ok s d1 vs (dk_names d1)).
  { intros vs. unfold entry_ok. cbn [dk_names d1]. by rewrite Hpath. }
  split; cbn [dk_names dk_older dk_next d1].
  - by destruct Hr.
  - apply Hnew, Hfr; [by left|done].
  - constructor; [apply Hnew, Hfr; [by left|by apply Forall_cons_1 in Hk as [? _]]|].
    apply Forall_forall. intros names Hin. apply Hfr; [done|]. exact (proj1 (Forall_forall _ _) Hk names Hin).
  - constructor; [|eapply Forall_impl; [exact Hn|]; intros names H p g Hg; specialize (H p g Hg); lia].
    intros p g. destruct (decide (p = vote_tmp s)) as [->|Hne].
    + rewrite lookup_insert_eq. intros [= <-]. lia.
    + rewrite lookup_insert_ne by done. intros Hg. apply Forall_cons_1 in Hn as [Hn _]. specialize (Hn p g Hg). lia.
  - constructor; [|exact Ha]. intros g. rewrite lookup_insert_eq, Hpath. intros [= <-] E. by apply (Hlt (dk_names d) ltac:(by left) _ _ E).
  - intros g. rewrite lookup_insert_eq. intros [= <-]. apply Forall_forall. intros names Hin E. by apply (Hlt names Hin _ _ E).
Qed.

Lemma rename_tmp_ok s live kept d f b v : disk_ok s live kept d ->
  dk_names d !! vote_tmp s = Some f -> f ∉ dk_dirty d -> dk_data d !! f = Some b -> from_json b = Some v ->
  exists d', disk_rename (vote_tmp s) (vote_path s) d = (d', Ok tt) /\ disk_ok s [v] (v :: kept) d'.
Proof.
  intros [Hr Hl Hk Hn Ha Htm] Ht Hf Hb Hv. unfold disk_rename. rewrite Ht, (bool_decide_eq_false_2 _ (sr_path s d Hr)).
  replace (parent (vote_path s)) with (vs_dir s) by (symmetry; apply parent_snoc).
  rewrite (bool_decide_eq_true_2 _ (sr_dir s d Hr)). eexists. split; [done|].
  assert (He : forall vs, v ∈ vs -> entry_ok s d vs (<[vote_path s:=f]> (delete (vote_tmp s) (dk_names d)))).
  { intros vs Hin. unfold entry_ok. rewrite lookup_insert_eq. split; [done|]. by exists b, v. }
  assert (Hno : <[vote_path s:=f]> (delete (vote_tmp s) (dk_names d)) !! vote_tmp s = None).
  { rewrite lookup_insert_ne by (intros E; symmetry in E; by apply vote_tmp_ne in E). by rewrite lookup_delete_eq. }
  split; cbn [dk_names dk_older dk_next].
  - by destruct Hr.
  - apply He. by left.
  - constructor; [apply He; by left|]. eapply Forall_impl; [exact Hk|]. intros names H. exact (entry_mono s d kept (v :: kept) names ltac:(set_solver) H).
  - constructor; [|done]. intros p g. apply Forall_cons_1 in Hn as [Hn _]. destruct (decide (p = vote_path s)) as [->|Hne].
    + rewrite lookup_insert_eq. intros [= <-]. by apply (Hn (vote_tmp s)).
    + rewrite lookup_insert_ne by done. intros [_ Hg]%lookup_delete_Some. by apply (Hn p).
  - constructor; [|done]. intros g. by rewrite Hno.
  - intros g. by rewrite Hno.
Qed.

Lemma power_loss_ok s live kept d d' : disk_ok s live kept d -> power_loss d d' -> disk_ok s kept kept d'.
Proof.
  intros [Hr Hl Hk Hn Ha Htm] [names data Hin Hd].
  assert (He : entry_ok s (mkDisk (dk_dirs d) names [] data ∅ (dk_next d)) kept names).
  { pose proof (proj1 (Forall_forall _ _) Hk names Hin) as H. unfold entry_ok in *. destruct (names !! vote_path s) as [f|]; [|done].
    destruct H as (Hf & b & v & Hb & ?). split; [set_solver|]. exists b, v. cbn. by rewrite Hd. }
  split; cbn [dk_names dk_older dk_next]; try done.
  - by destruct Hr.
  - by repeat constructor.
  - repeat constructor. exact (proj1 (Forall_forall _ _) Hn names Hin).
  - repeat constructor. exact (proj1 (Forall_forall _ _) Ha names Hin).
Qed.

Lemma nothing_lost d : power_loss d (mkDisk (dk_dirs d) (dk_names d) [] (dk_data d) ∅ (dk_next d)).
Proof. by constructor; [left|]. Qed.

Lemma booted_ok s d v0 : booted s d -> vote_load s (disk_fs d) = Ok v0 -> disk_ok s [v0] [v0] d.
Proof.
  intros [Hr Ho Hy Hn Ha] Hl.
  assert (He : entry_ok s d [v0] (dk_names d)).
  { unfold entry_ok. unfold vote_load, fs_read in Hl. cbn [disk_fs fs_files] in Hl. rewrite lookup_omap in Hl.
    destruct (dk_names d !! vote_path s) as [f|] eqn:Ep; cbn in Hl.
    - destruct (Hn _ _ Ep) as [_ [b Hb]]. rewrite Hb in Hl. split; [rewrite Hy; set_solver|]. exists b, v0.
      split_and!; [done| |by left]. destruct (from_json b); by simplify_eq/=.
    - destruct (read_refused _ _); simplify_eq. by left. }
  split; rewrite ?Ho; try done; repeat constructor; try done. intros p f Hp. by apply (Hn p f).
Qed.

Context `{!JsonOk Vote}.

(** The disk before the rename: the temporary file holds the vote, durably. *)
Lemma vote_written_ok s live kept d b : disk_ok s live kept d ->
  exists d1 f, open_truncate (vote_tmp s) d = (d1, Ok f) /\
    let w := sync_data f (write_all f b d1) in
    disk_ok s live kept w /\ dk_names w !! vote_tmp s = Some f /\ f ∉ dk_dirty w /\ dk_data w !! f = Some b /\
    dk_names d ∈ dk_names w :: dk_older w.
Proof.
  intros Hok. destruct (tmp_opens s d) as (d1 & f & Eo); [apply Hok|]. exists d1, f. split; [done|].
  destruct (open_tmp_ok s live kept d d1 f Hok Eo) as (Hok1 & Ht & Hf). cbn zeta. split_and!; [|done|cbn; set_solver| |].
  - apply (touch_tmp s live kept d1 _ f Ht); try done; cbn; [intros; by rewrite lookup_insert_ne|set_solver].
  - cbn. by rewrite lookup_insert_eq, Hf.
  - cbn. clear -Eo. unfold open_truncate in Eo. repeat case_match; simplify_eq/=; by repeat constructor.
Qed.

Lemma vote_save_ok s v live kept d : disk_ok s live kept d ->
  exists d', vote_save s v d = (d', Ok tt) /\ disk_ok s [v] (v :: kept) d' /\ vote_load s (disk_fs d') = Ok v.
Proof.
  intros Hok. destruct (json_reads_back v) as (b & Eb & Ed). unfold vote_save. rewrite Eb.
  destruct (vote_written_ok s live kept d b Hok) as (d1 & f & -> & Hw & Ht & Hf & Hb & _). cbn [fst snd].
  destruct (rename_tmp_ok s live kept _ f b v Hw Ht Hf Hb Ed) as (d' & -> & Hok'). exists d'. split_and!; [done|done|].
  by destruct (vote_load_live _ _ _ _ Hok') as (w & ->%list_elem_of_singleton & ?).
Qed.

Lemma save_point_ok s v live kept d d1 : disk_ok s live kept d -> save_point s v d d1 ->
  exists live' kept', disk_ok s live' kept' d1 /\ kept' ⊆ v :: kept.
Proof.
  intros Hok [|b f n d2 Eb Eo|b f d2 Eb Eo|d2 Es].
  - exists live, kept. by split; [|right].
  - destruct (open_tmp_ok s live kept d d2 f Hok Eo) as (Hok1 & Ht & Hf). exists live, kept. split; [|set_solver].
    apply (touch_tmp s live kept d2 _ f Ht); try done; cbn; [intros; by rewrite lookup_insert_ne|set_solver].
  - destruct (open_tmp_ok s live kept d d2 f Hok Eo) as (Hok1 & Ht & Hf). exists live, kept. split; [|set_solver].
    apply (touch_tmp s live kept d2 _ f Ht); try done; cbn; [intros; by rewrite lookup_insert_ne|set_solver].
  - destruct (vote_save_ok s v live kept d Hok) as (d' & E & Hok' & _). rewrite E in Es. injection Es as <-. by exists [v], (v :: kept).
Qed.

Lemma disk_ok_mono s live live' kept kept' d : live ⊆ live' -> kept ⊆ kept' -> disk_ok s live kept d -> disk_ok s live' kept' d.
Proof.
  intros Hl Hk []. split; try done; [by eapply entry_mono|]. eapply Forall_impl; [exact dok_kept0|]. intros x. by apply entry_mono.
Qed.

Lemma vote_run_ok s d evs d' live kept : vote_run s d evs d' -> disk_ok s live kept d ->
  exists kept', disk_ok s (candidates live kept evs) kept' d'.
Proof.
  intros Hrun. revert live kept. induction Hrun as [d|d v d1 evs d' E _ IH|d d1 evs d' E _ IH|d v d1 d2 evs d' E1 E2 _ IH]; intros live kept Hok; cbn.
  - by exists kept.
  - destruct (vote_save_ok s v live kept d Hok) as (d2 & E2 & Hok2 & _). rewrite E in E2. injection E2 as <-. by apply IH.
  - by apply IH, (power_loss_ok s live kept d).
  - destruct (save_point_ok s v live kept d d1 Hok E1) as (l & k & Hok1 & Hk).
    apply IH, (disk_ok_mono s k _ k); [done|done|]. by apply (power_loss_ok s l k d1).
Qed.

(** C19: Whatever saves and power failures a node goes through, at any point of a save, its
    vote file reads back as a whole vote, never as a torn or an unreadable one: the last
    vote saved as long as the power stays on, and after a power failure one of the votes
    that were saved or being saved since the node first booted; and the next save succeeds
    and is read back.  The save syncs the data before it renames but does not sync the
    directory after, so the vote found after a power failure may be an older one than the
    last acknowledged (acknowledged_vote_lost). *)
Theorem votes_survive_crashes s d evs d' v0 :
  booted s d -> vote_load s (disk_fs d) = Ok v0 -> vote_run s d evs d' ->
  (exists v, v ∈ candidates [v0] [v0] evs /\ vote_load s (disk_fs d') = Ok v) /\
  forall v, exists d2, vote_save s v d' = (d2, Ok tt) /\ vote_load s (disk_fs d2) = Ok v.
Proof.
  intros Hb Hl Hrun. destruct (vote_run_ok s d evs d' _ _ Hrun (booted_ok s d v0 Hb Hl)) as [kept Hok].
  split; [exact (vote_load_live _ _ _ _ Hok)|]. intros v. destruct (vote_save_ok s v _ _ d' Hok) as (d2 & ? & _ & ?). by exists d2.
Qed.

(** A save that returned may be undone: the rename was never synced. *)
Theorem acknowledged_vote_lost s d v v0 : booted s d -> vote_load s (disk_fs d) = Ok v0 ->
  exists d', vote_run s d [Saved v; PowerLoss] d' /\ vote_load s (disk_fs d') = Ok v0.
Proof.
  intros Hb Hl. pose proof (booted_ok s d v0 Hb Hl) as Hok. destruct (json_reads_back v) as (b & Eb & Ed).
  destruct (vote_written_ok s _ _ d b Hok) as (d1 & f & Eo & Hw & Ht & Hf & Hd & Hin).
  set (w := sync_data f (write_all f b d1)) in *.
  assert (Hp : power_loss w (mkDisk (dk_dirs w) (dk_names d) [] (dk_data w) ∅ (dk_next w))) by (by constructor).
  destruct (rename_tmp_ok s _ _ w f b v Hw Ht Hf Hd Ed) as (d' & Er & _).
  assert (Es : vote_save s v d = (d', Ok tt)) by (unfold vote_save; rewrite Eb, Eo; cbn [fst snd]; fold w; by rewrite Er).
  eexists. split.
  - eapply run_saved; [exact Es|]. eapply run_power; [|apply run_nil]. apply (lose_power d' (dk_names d) (dk_data d')); [|done].
    clear -Er Hin. unfold disk_rename in Er. repeat case_match; simplify_eq/=. by right.
  - pose proof (power_loss_ok s _ _ w _ Hw Hp) as Hx. destruct (vote_load_live _ _ _ _ Hx) as (x & ->%list_elem_of_singleton & E).
    rewrite <- E. clear -Er. unfold disk_rename in Er. by repeat case_match; simplify_eq/=.
Qed.

End Save.

(** ** The adapter

    openraft's vote is a leader id with a flag that says whether the leader is accepted by
    a quorum; [new_leader], [get_term] and [voted_for_id] are the crate's. *)

Record OrVote (LeaderId : Type) : Type := mkOrVote {
  ov_leader : LeaderId;
  ov_committed : bool;
}.
Arguments mkOrVote {LeaderId}.
Arguments ov_leader {LeaderId}.
Arguments ov_committed {LeaderId}.

Class LeaderIds (LeaderId : Type) : Type := {
  leader_new : N -> N -> LeaderId;
  leader_term : LeaderId -> N;
  voted_for_id : LeaderId -> option N;
}.

(** A leader id is a term and a node. *)
Class LeaderIdsOk (LeaderId : Type) `{LeaderIds LeaderId} : Prop :=
  leader_eta : forall l id, voted_for_id l = Some id -> leader_new (leader_term l) id = l.

Section Adapter.
  Context {LeaderId : Type} `{!LeaderIds LeaderId} `{!Json Vote}.

(** [OrVote::new] *)
Definition or_vote_new (term id : N) : OrVote LeaderId := mkOrVote (leader_new term id) false.

Definition save_vote (s : VoteStore) (v : OrVote LeaderId) (d : Disk) : Disk * result VoteError unit :=
  vote_save s (mkVote (leader_term (ov_leader v)) (default "" (pretty <$> voted_for_id (ov_leader v)))) d.

Definition read_vote (s : VoteStore) (fs : FS) : result VoteError (option (OrVote LeaderId)) :=
  data ← vote_load s fs;
  if bool_decide (vote_term data = 0%N) && bool_decide (voted_for data = "") then Ok None
  else Ok (or_vote_new (vote_term data) <$> parse_u64 (bytes_of (voted_for data))).

Context `{!LeaderIdsOk LeaderId} `{!JsonOk Vote}.

(** What openraft reads back is the leader it voted for, without the flag. *)
Lemma vote_reads_back s v live kept d id : disk_ok s live kept d -> voted_for_id (ov_leader v) = Some id -> (id < 2 ^ 64)%N ->
  exists d', save_vote s v d = (d', Ok tt) /\ read_vote s (disk_fs d') = Ok (Some (mkOrVote (ov_leader v) false)).
Proof.
  intros Hr Hid Hlt. unfold save_vote. rewrite Hid. cbn [fmap option_fmap option_map]. change (default "" (Some ?x)) with x.
  destruct (vote_save_ok s (mkVote (leader_term (ov_leader v)) (pretty id)) _ _ d Hr) as (d' & E & _ & Hl).
  exists d'. split; [done|]. unfold read_vote. rewrite Hl. cbn [mbind result_bind vote_term voted_for].
  rewrite (bool_decide_eq_false_2 (pretty id = "")), andb_false_r.
  - rewrite parse_pretty by done. cbn. unfold or_vote_new. by rewrite (leader_eta _ id).
  - intros Ep. pose proof (parse_pretty id Hlt) as Hp. by rewrite Ep in Hp.
Qed.

(** A vote for a leader that a quorum has accepted comes back as a vote for a candidate. *)
Theorem committed_vote_lost s v d v0 id : booted s d -> vote_load s (disk_fs d) = Ok v0 ->
  voted_for_id (ov_leader v) = Some id -> (id < 2 ^ 64)%N -> ov_committed v = true ->
  exists d', save_vote s v d = (d', Ok tt) /\ read_vote s (disk_fs d') <> Ok (Some v) /\
    exists v', read_vote s (disk_fs d') = Ok (Some v') /\ ov_leader v' = ov_leader v /\ ov_committed v' = false.
Proof.
  intros Hb Hv0 Hid Hlt Hc. destruct (vote_reads_back s v _ _ d id (booted_ok s d v0 Hb Hv0) Hid Hlt) as (d' & E & Hl).
  exists d'. rewrite Hl. split_and!; [done| |by eexists]. intros [= E1]. by rewrite <- E1 in Hc.
Qed.

End Adapter.

(** ** A run *)

Section Demo.

Global Instance Vote_eq_dec : EqDecision Vote.
Proof. solve_decision. Defined.
Global Instance Vote_countable : Countable Vote.
Proof. refine (inj_countable' (fun v => (vote_term v, voted_for v)) (fun '(t, n) => mkVote t n) _). by intros []. Defined.

Definition demo_votes : VoteStore := mkVoteStore [Normal "raft"].
Definition demo_votes_fs : FS := mkFS ∅ {[ [Normal "raft"] ]}.
Definition demo_disk : Disk := mkDisk {[ [Normal "raft"] ]} ∅ [] ∅ ∅ 0.

Lemma demo_disk_booted : booted demo_votes demo_disk.
Proof. split; [|done|done|..]; [split; [set_solver|..]; by_decide|done|done]. Qed.

(** Two votes are saved, the second save is cut short after three bytes, and the power
    goes again. *)
Lemma votes_survive_crashes_witness :
  let J := countable_json Vote in
  exists d', vote_run demo_votes demo_disk [Saved (mkVote 1 "2"); CutShort (mkVote 2 "3"); PowerLoss] d' /\
    exists v, v ∈ [mkVote 2 "3"; mkVote 1 "2"; default_vote] /\ vote_load demo_votes (disk_fs d') = Ok v.
Proof.
  intros J. pose proof (countable_json_ok Vote) as JO.
  destruct (vote_save_ok demo_votes (mkVote 1 "2") _ _ demo_disk (booted_ok _ _ default_vote demo_disk_booted eq_refl)) as (d1 & E1 & H1 & _).
  assert (Hrun : exists d', vote_run demo_votes demo_disk [Saved (mkVote 1 "2"); CutShort (mkVote 2 "3"); PowerLoss] d').
  { destruct (json_reads_back (mkVote 2 "3")) as (b & Eb & _). destruct (tmp_opens demo_votes d1) as (d2 & f & Eo); [apply H1|].
    eexists. eapply run_saved; [exact E1|]. eapply run_cut; [exact (at_written _ _ _ b f 3 d2 Eb Eo)|by apply nothing_lost|].
    eapply run_power; [by apply nothing_lost|apply run_nil]. }
  destruct Hrun as [d' Hrun]. exists d'. split; [exact Hrun|].
  exact (proj1 (votes_survive_crashes demo_votes demo_disk _ d' default_vote demo_disk_booted eq_refl Hrun)).
Defined.

End Demo.
