(* ===== verification/RaftNet.v ===== *)
(** How raft messages reach a peer ([src/raft/adapter/network.rs], [AbixioNode] of
    [src/raft/types.rs]): openraft's three requests as bincode over the storage RPC, against
    the handlers of [StorageServer].  bincode and openraft's types are parameters. *)

From Stdlib Require Import Ascii.
From stdpp Require Import base list gmap strings numbers pretty.
From S2P Require Import Policy.
From S2P Require Import Prelude Metadata Needle Segment Pathing Wal Materialize RaftFsm FileSys LocalVolume.
From S2P Require Import LocalObjects Caches Config Internode StorageServer RemoteVolume RemoteSpec PeerReplica.

Open Scope string_scope.
Open Scope list_scope.

Record AbixioNode : Type := mkAbixioNode {
  an_advertise_s3 : string;
  an_advertise_cluster : string;
  an_voter_kind : VoterKind;
}.

Definition default_node : AbixioNode := mkAbixioNode "" "" Voter.

Record AbixioNetworkFactory : Type := mkNetworkFactory {
  nf_access_key : string;
  nf_secret_key : string;
  nf_no_auth : bool;
}.

Record AbixioNetworkClient : Type := mkNetworkClient {
  nc_endpoint : string;
  nc_access_key : string;
  nc_secret_key : string;
  nc_no_auth : bool;
}.

Definition new_client (f : AbixioNetworkFactory) (node : AbixioNode) : AbixioNetworkClient :=
  mkNetworkClient (trim_end_slashes (an_advertise_cluster node)) (nf_access_key f) (nf_secret_key f) (nf_no_auth f).

(** The client's side of the codec. *)
Class RaftWire (R : Type) `{!RaftNode R} : Type := {
  rpc_serialize : forall m, rpc_request m -> result string bytes;
  rpc_deserialize : forall m, bytes -> result string (rpc_reply m);
}.

(** bincode reads back the requests it can carry.  An [AppendEntries] with a
    [SetBucketSettings] entry is not one of them: the settings skip their unset fields when
    they are written, and a policy is a [serde_json::Value], which bincode cannot read. *)
Class RaftWireOk (R : Type) `{RaftWire R} (carried : forall m, rpc_request m -> Prop) : Prop := {
  request_reads_back : forall m (q : rpc_request m), carried m q -> exists b, rpc_serialize m q = Ok b /\ rpc_decode m b = Ok q;
  reply_reads_back : forall m (a : rpc_reply m), exists b, rpc_encode m a = Ok b /\ rpc_deserialize m b = Ok a;
}.

Definition rpc_route (m : RaftRpc) : string :=
  match m with AppendEntries => "append-entries" | StorageServer.Vote => "vote" | InstallSnapshot => "install-snapshot" end.

(** The snapshot has a path of its own with a shorter message. *)
Definition rpc_failed (m : RaftRpc) : string :=
  match m with InstallSnapshot => "raft install-snapshot " | _ => "raft rpc " +:+ rpc_route m +:+ " " end.

Section Net.
  Context {R : Type} `{!RaftNode R} `{!RaftWire R}.
  Context `{Hashes} `{MetaCodec} `{UuidParser} `{MetaFileCodec} `{Base64} `{SettingsCodec}.
  Context `{Http} `{ErrorJson} `{Jwt} `{CacheCodec}.
  Context `{!Json ObjectMeta} `{!Json (list ObjectMeta)} `{!Json (list string)} `{!Json bool} `{!Json N} `{!Json BucketSettings}.
  Context (volume_info : LocalVolume -> bytes) (created_at : LocalVolume -> string -> N).

Abbreviation Server := (StorageServer R).

(** [auth] on the request. *)
Definition net_headers (n : AbixioNetworkClient) (c : Call) : gmap string string :=
  {["content-type" := "application/bincode"]} ∪
  if nc_no_auth n then ∅ else auth_headers (nc_access_key n) (nc_secret_key n) (ca_clock c).

(** [post_bincode] and [install_snapshot]: every error is a network error with its text. *)
Definition post_bincode (m : RaftRpc) (n : AbixioNetworkClient) (c : Call) (rpc : rpc_request m) (s : Server)
    : option (Server * result string (rpc_reply m)) :=
  match rpc_serialize m rpc with
  | Err e => Some (s, Err e)
  | Ok b =>
      '(s, r) ← send volume_info created_at c
                  (mkRequest (url_path (nc_endpoint n +:+ ("/_storage/v1/raft/" +:+ rpc_route m))) "" (net_headers n c) b) s;
      Some (s, resp ← r;
               if is_success resp then rpc_deserialize m (rp_body resp)
               else Err (rpc_failed m +:+ status_display (rp_status resp) +:+ ": " +:+ string_of (rp_body resp)))
  end.

(** The same address and secrets as a client of the caches. *)
Definition as_peer (n : AbixioNetworkClient) : PeerCacheClient :=
  mkPeerCacheClient (nc_endpoint n) (nc_access_key n) (nc_secret_key n) (nc_no_auth n).

Context {carried : forall m, rpc_request m -> Prop} `{!RaftWireOk R carried} `{!HttpOk} `{!ErrorJsonOk} `{!JwtOk}.

(** What the peer makes of a message, and what the sender learns. *)
Lemma handle_raft_ok m (s : Server) r q b rq :
  ss_raft s = Some r -> rq_body rq = b -> rpc_decode m b = Ok q ->
  exists resp, handle_raft m s rq = (with_raft (raft_handle m r q).1 s, resp) /\
    match (raft_handle m r q).2 with
    | Ok a => is_success resp = true /\ rpc_deserialize m (rp_body resp) = Ok a
    | Err e => resp = error_response 500 ("raft: " +:+ e)
    end.
Proof.
  intros Hr Hb Hd. unfold handle_raft, respond. rewrite Hr, Hb, Hd. cbn [ok_or mbind result_bind on_error].
  eexists. split; [done|]. destruct (raft_handle m r q).2 as [a|e]; [|done].
  destruct (reply_reads_back m a) as (ab & Ea & Ed). unfold bincode_response. rewrite Ea, build_response_ok by by apply visible_one.
  by split.
Qed.

(** The request on the wire, whatever its body. *)
Lemma rpc_sent m (n : AbixioNetworkClient) c (s : Server) b : peer_connected (as_peer n) s c ->
  let rq := mkRequest (url_path (nc_endpoint n +:+ ("/_storage/v1/raft/" +:+ rpc_route m))) "" (net_headers n c) b in
  send volume_info created_at c rq s = Some (match ca_delivery c with
    | NotSent => (s, Err "error sending request")
    | Answered => ((handle_raft m s rq).1, Ok (handle_raft m s rq).2)
    | ReplyLost => ((handle_raft m s rq).1, Err "operation timed out")
    end).
Proof.
  intros Hco.
  pose proof (wire_send volume_info created_at (as_peer n) s c Hco ("/_storage/v1/raft/" +:+ rpc_route m) ""
    {["content-type" := "application/bincode"]} b ltac:(by apply visible_one) (conj eq_refl eq_refl) (ERaft m)
    ltac:(by destruct m) ltac:(by destruct m) ltac:(by destruct m)) as Hw.
  cbn [as_peer pc_endpoint pc_no_auth pc_access_key pc_secret_key] in Hw. fold (net_headers n c) in Hw. cbn zeta. rewrite Hw.
  destruct (ca_delivery c); cbn [handle_endpoint]; [|done|]; by destruct (handle_raft m s _).
Qed.

(** A request the peer cannot decode changes nothing of the peer and fails, so the sender
    sends it again, in vain. *)
Theorem undecodable_message_refused m (n : AbixioNetworkClient) c (s : Server) r q b e :
  peer_connected (as_peer n) s c -> ss_raft s = Some r -> rpc_serialize m q = Ok b -> rpc_decode m b = Err e ->
  exists answer, post_bincode m n c q s = Some (s, answer) /\ is_ok answer = false.
Proof.
  intros Hco Hr Eb Ed. unfold post_bincode. rewrite Eb, (rpc_sent m n c s b Hco). set (rq := mkRequest _ _ _ _).
  assert (Eh : handle_raft m s rq = (s, bad_request ("decode: " +:+ e))).
  { unfold handle_raft, respond. cbn [rq_body rq]. by rewrite Hr, Ed. }
  rewrite Eh. destruct (ca_delivery c); cbn [mbind option_bind fst snd]; (eexists; split; [done|]); cbn; [|done|done].
  unfold bad_request. by rewrite error_response_ok.
Qed.

(** C20: A raft message is delivered as openraft expects of its network.  When the peer is
    reachable, the two share their secret and bincode can carry the request, the peer's raft
    handles exactly the request that was sent, nothing else of the peer changes, and the
    sender gets the peer's reply, or an error when the peer's raft refused or the answer was
    lost; a request that was not sent changes nothing.  Entries that set a bucket's settings
    are not among those bincode carries (undecodable_message_refused says what becomes of
    them). *)
Theorem raft_message_delivered m (n : AbixioNetworkClient) c (s : Server) r q :
  peer_connected (as_peer n) s c -> ss_raft s = Some r -> carried m q ->
  let after := match ca_delivery c with NotSent => s | _ => with_raft (raft_handle m r q).1 s end in
  exists answer, post_bincode m n c q s = Some (after, answer) /\
    match ca_delivery c, (raft_handle m r q).2 with
    | Answered, Ok a => answer = Ok a
    | _, _ => is_ok answer = false
    end.
Proof.
  intros Hco Hr Hq. destruct (request_reads_back m q Hq) as (b & Eb & Ed). unfold post_bincode. rewrite Eb, (rpc_sent m n c s b Hco).
  set (rq := mkRequest _ _ _ _). destruct (handle_raft_ok m s r q b rq Hr eq_refl Ed) as (resp & Eh & Hresp). rewrite Eh.
  destruct (ca_delivery c); cbn [mbind option_bind fst snd].
  - eexists. split; [done|]. cbn [mbind result_bind]. destruct (raft_handle m r q).2 as [a|e].
    + by destruct Hresp as [-> ->].
    + rewrite Hresp, error_response_ok. done.
  - eexists. split; [done|]. by destruct (raft_handle m r q).2.
  - eexists. split; [done|]. by destruct (raft_handle m r q).2.
Qed.

End Net.

(** ** A run: a node whose raft is a counter, refusing zero, with a codec that loses seven *)

Section Demo.
  Local Existing Instances example_hashes ex_codec two_uuids digit_codec plain_base64 demo_settings_codec
    demo_http demo_errors demo_jwt demo_cache_codec demo_settings_json.
Local Instance net_meta_json : Json ObjectMeta := countable_json ObjectMeta.
Local Instance net_metas_json : Json (list ObjectMeta) := countable_json (list ObjectMeta).
Local Instance net_names_json : Json (list string) := countable_json (list string).
Local Instance net_flag_json : Json bool := countable_json bool.
Local Instance net_time_json : Json N := countable_json N.

Definition counting_raft : RaftNode N := {|
  rpc_request := fun _ => N; rpc_reply := fun _ => N;
  rpc_decode := fun _ b => match decode (undigits b) with Some q => if bool_decide (q = 7%N) then Err "invalid" else Ok q | None => Err "invalid" end; rpc_encode := fun _ a => Ok (digits (encode a));
  raft_handle := fun _ r q => if bool_decide (q = 0%N) then (r, Err "zero") else ((r + q)%N, Ok (r + q)%N) |}.
Local Existing Instance counting_raft.

Definition counting_wire : @RaftWire N counting_raft :=
  Build_RaftWire N counting_raft (fun _ (q : N) => Ok (digits (encode q))) (fun _ b => ok_or (decode (undigits b)) "invalid").
Local Existing Instance counting_wire.

(** Its codec cannot carry seven. *)
Definition not_seven (m : RaftRpc) (q : @rpc_request N counting_raft m) : Prop := (q : N) <> 7%N.

Lemma counting_wire_ok : @RaftWireOk N counting_raft counting_wire not_seven.
Proof.
  split; [intros m q Hq|intros m a]; [exists (digits (encode (q : N)))|exists (digits (encode (a : N)))];
    cbn; rewrite undigits_digits, decode_encode; [|done]. split; [done|]. unfold not_seven in Hq.
  by rewrite bool_decide_eq_false_2.
Qed.

Definition counting_server : StorageServer N := with_raft 5%N (server_new ∅ "key" "secret" false).
Definition demo_node : AbixioNode := mkAbixioNode "http://b:9000" "http://b:9000/" Voter.
Definition demo_client : AbixioNetworkClient := new_client (mkNetworkFactory "key" "secret" false) demo_node.

Definition three : @rpc_request N counting_raft StorageServer.Vote := 3%N.

Lemma three_carried : not_seven StorageServer.Vote three.
Proof. intros H. vm_compute in H. discriminate H. Qed.

Lemma raft_message_delivered_witness :
  post_bincode PeerReplica.no_info PeerReplica.no_time StorageServer.Vote demo_client demo_call three counting_server
  = Some (with_raft 8%N counting_server, Ok 8%N).
Proof.
  assert (Hco : peer_connected (as_peer demo_client) counting_server demo_call).
  { split; [exact demo_origin|right]. split_and!; try done. exists (1000 * NANOS)%N, (1060 * NANOS)%N. done. }
  pose proof counting_wire_ok as Hw.
  destruct (raft_message_delivered PeerReplica.no_info PeerReplica.no_time StorageServer.Vote demo_client demo_call counting_server
    5%N three Hco eq_refl three_carried) as (answer & E & Ha).
  rewrite E. cbn in Ha. by rewrite Ha.
Defined.

End Demo.
