(* ===== verification/RaftRuntime.v ===== *)
(** The raft instance of a node ([src/raft/runtime.rs]): its stores opened on one directory, its
    state machine, its network, and openraft started on them; and how [main] opens it.

    The directory holds the log file, the vote file and the snapshots ([RaftDir]); openraft is the
    class [Openraft].  Creating a directory that is there does nothing, so opening the log and the
    snapshots does not change the directory. *)

From Stdlib Require Import Ascii.
From stdpp Require Import base list gmap strings numbers pretty.
From S2P Require Import Prelude Pathing RaftLog RaftFsm RaftAdapter FileSys VolumePool Config Topology Internode StorageServer RaftVote RaftNet.

Open Scope string_scope.
Open Scope list_scope.

(** What is on disk: the files of the host with the vote among them, the bytes of the log, the
    snapshots by index. *)
Record RaftDir : Type := mkRaftDir {
  rd_fs : FS;
  rd_log : bytes;
  rd_snaps : SnapDir;
}.

(** The fields of openraft's configuration that are set, in milliseconds and entries. *)
Record RaftConfig : Type := mkRaftConfig {
  rc_heartbeat_interval : N;
  rc_election_timeout_min : N;
  rc_election_timeout_max : N;
  rc_max_payload_entries : N;
}.

Definition raft_config : RaftConfig := mkRaftConfig 150 300 600 512.

Inductive ServerState : Type := Learner | Follower | Candidate | Leader | Shutdown.

(** openraft: what its configuration check refuses, how it starts on a node's stores, its state,
    and a write through the cluster. *)
Class Openraft (I LeaderId Membership : Type) : Type := {
  validate : RaftConfig -> result string RaftConfig;
  instance_new : N -> RaftConfig -> AbixioNetworkFactory -> LogStore -> VoteStore -> AbixioFsmAdapter LeaderId Membership -> result string I;
  server_state : I -> ServerState;
  client_write : I -> Op -> I * result string N;
  instance_initialize : I -> gmap N AbixioNode -> I * result string unit;
}.

Record AbixioRaft (I LeaderId Membership : Type) : Type := mkAbixioRaft {
  ar_node_id : N;
  ar_raft : I;
  ar_log : LogStore;
  ar_votes : VoteStore;
  ar_fsm : AbixioFsmAdapter LeaderId Membership;
}.
Arguments mkAbixioRaft {I LeaderId Membership}.
Arguments ar_node_id {I LeaderId Membership}.
Arguments ar_raft {I LeaderId Membership}.
Arguments ar_log {I LeaderId Membership}.
Arguments ar_votes {I LeaderId Membership}.
Arguments ar_fsm {I LeaderId Membership}.

Inductive OpenError : Type := OpenVote (e : VoteError) | OpenRaft (msg : string).

Section Runtime.
  Context {I LeaderId Membership : Type} `{!Openraft I LeaderId Membership}.
  (** openraft's default membership. *)
  Context (m0 : StoredMembership LeaderId Membership).

(** [AbixioRaft::open] *)
Definition raft_open (node_id : N) (dir : Path) (access_key secret_key : string) (no_auth : bool) (d : RaftDir)
    : RaftDir * result OpenError (AbixioRaft I LeaderId Membership) :=
  let log_store := open_log (rd_log d) in
  let v := vote_open dir (rd_fs d) in
  let d := mkRaftDir v.1 (rd_log d) (rd_snaps d) in
  match v.2 with
  | Err e => (d, Err (OpenVote e))
  | Ok vote_store =>
      let fsm_adapter := adapter_new (rd_snaps d) m0 in
      let network := mkNetworkFactory access_key secret_key no_auth in
      match (config ← validate raft_config; instance_new node_id config network log_store vote_store fsm_adapter) with
      | Err msg => (d, Err (OpenRaft msg))
      | Ok raft => (d, Ok (mkAbixioRaft node_id raft log_store vote_store fsm_adapter))
      end
  end.

Definition is_primary (r : AbixioRaft I LeaderId Membership) : bool :=
  match server_state (ar_raft r) with Leader => true | _ => false end.

Definition submit (op : Op) (r : AbixioRaft I LeaderId Membership) : AbixioRaft I LeaderId Membership * result string N :=
  let x := client_write (ar_raft r) op in
  (mkAbixioRaft (ar_node_id r) x.1 (ar_log r) (ar_votes r) (ar_fsm r), x.2).

(** How [main] opens it: nothing when raft is off, and the node goes on without it when the
    stores cannot be opened or openraft does not start; a failed bootstrap is only logged. *)
Definition start_raft (cfg : Config) (advertise : string) (raft_id : N) (dir : Path) (access_key secret_key : string) (d : RaftDir)
    : RaftDir * option (AbixioRaft I LeaderId Membership) :=
  if c_raft_enable cfg then
    let x := raft_open raft_id dir access_key secret_key (c_no_auth cfg) d in
    (x.1, match x.2 with
          | Err _ => None
          | Ok r =>
              Some (if c_raft_bootstrap cfg
                    then mkAbixioRaft (ar_node_id r) (instance_initialize (ar_raft r) {[raft_id := mkAbixioNode advertise advertise Voter]}).1
                           (ar_log r) (ar_votes r) (ar_fsm r)
                    else r)
          end)
  else (d, None).

(** [AbixioFsmAdapter::applied_state] *)
Definition applied_state (a : AbixioFsmAdapter LeaderId Membership) : option (LogId LeaderId) * StoredMembership LeaderId Membership :=
  (fa_last_applied a, fa_membership a).

(** ** A restart *)

Context (get_term : LeaderId -> N) (enc_entry : Entry LeaderId Membership -> bytes) (dec_entry : bytes -> option (Entry LeaderId Membership)).
Context `{!Json Vote}.

Lemma raft_open_fields node_id dir ak sk na d d' r : raft_open node_id dir ak sk na d = (d', Ok r) ->
  ar_log r = open_log (rd_log d) /\ ar_fsm r = adapter_new (rd_snaps d) m0 /\ ar_votes r = mkVoteStore dir /\
  rd_log d' = rd_log d /\ rd_snaps d' = rd_snaps d /\ rd_fs d' = (mkdir_all dir (rd_fs d)).1.
Proof.
  unfold raft_open, vote_open. destruct (mkdir_all dir (rd_fs d)) as [fs [[]|e]]; cbn; [|done].
  destruct (validate raft_config) as [c|]; cbn; [|done]. destruct (instance_new _ _ _ _ _ _); [|done]. by intros [= <- <-].
Qed.

(** A restart replays the log.  Whatever entries a node has appended, truncated and purged, with
    any restarts between, the instance that is opened on its directory reads exactly those that
    remain; and a machine to which the first [k] of them had been applied, starting from nothing,
    is matched by the new one when openraft applies them again: tables, last applied entry and
    membership.  The vote that was saved is the vote that is read. *)
Theorem restart_replays_log (ops : list raft_op) s node_id dir ak sk na fs snaps d' r :
  raft_admissible_run get_term enc_entry dec_entry [] ops -> raft_run get_term enc_entry (open_log []) ops = (s, Ok tt) ->
  raft_open node_id dir ak sk na (mkRaftDir fs (log_file s) snaps) = (d', Ok r) ->
  dir <> [] -> ready fs (vote_path (mkVoteStore dir)) ->
  let xs := foldl raft_spec [] ops in
  try_get_log_entries dec_entry (ar_log r) (Included 0) Unbounded = Ok xs /\
  (forall k snaps0, let old := adapter_apply (adapter_new snaps0 m0) (take k xs) in let new := adapter_apply (ar_fsm r) (take k xs) in
     replica new.1 = replica old.1 /\ new.2 = old.2) /\
  vote_load (ar_votes r) (rd_fs d') = vote_load (mkVoteStore dir) fs.
Proof.
  intros Ha Hrun Ho Hne Hr xs. destruct (raft_open_fields _ _ _ _ _ _ _ _ Ho) as (El & Ef & Ev & _ & _ & Efs). cbn in El, Ef, Efs.
  assert (H0 : holds_entries get_term enc_entry dec_entry (open_log []) []).
  { split; [apply (holds_open []); constructor| |constructor]. intros a b k Hin. by apply not_elem_of_nil in Hin. }
  destruct (holds_entries_run _ _ _ ops _ _ H0 Ha) as (s' & Hr' & Hh). rewrite Hrun in Hr'. injection Hr' as <-.
  assert (Es : open_log (log_file s) = s) by (eapply holds_reopen, Hh). rewrite Es in El.
  split_and!.
  - rewrite El, (holds_entries_range get_term enc_entry dec_entry s xs) by done. f_equal. unfold select.
    rewrite (List.filter_ext_in _ (fun _ => true)); [apply List.filter_true|]. intros e _. unfold in_bounds. cbn. by rewrite bool_decide_eq_true_2 by lia.
  - intros k snaps0. rewrite Ef. by apply apply_congruence.
  - destruct (vote_open_ready dir fs Hne Hr) as (fs' & Eo & _ & Hl). unfold vote_open in Eo. rewrite Ev, <- Hl, Efs. by injection Eo as ->.
Qed.

End Runtime.

(** ** An instance that only starts *)

Section Demo.
Local Instance demo_openraft : Openraft unit N N := {|
  validate := fun c => if bool_decide (rc_election_timeout_min c < rc_election_timeout_max c)%N then Ok c else Err "election timeout";
  instance_new := fun _ _ _ _ _ _ => Ok tt;
  server_state := fun _ => Learner;
  client_write := fun i _ => (i, Err "no leader");
  instance_initialize := fun i _ => (i, Ok tt);
|}.

Definition raft_home : Path := [Pathing.Normal "raft"].
Definition no_membership : StoredMembership N N := mkStored None 0%N.

Lemma two_blanks : raft_admissible_run (fun t => t) demo_enc_entry demo_dec_entry [] [RaftAppend [RaftAdapter.blank 0; RaftAdapter.blank 1]].
Proof.
  cbn [raft_admissible_run raft_admissible app]. split_and!; try done.
  - repeat constructor; cbn; lia.
  - intros a b k Ha Hb H1 H2.
    assert (Hk : (entry_index b <= 1)%N) by (rewrite !elem_of_cons in Hb; destruct Hb as [->|[->|Hb]]; try (cbn; lia); by apply not_elem_of_nil in Hb).
    assert (k = 0 \/ k = 1)%N as [->| ->] by lia; cbn; rewrite !elem_of_cons; tauto.
  - repeat constructor; apply blank_ok; lia.
Qed.

Lemma raft_home_ready : ready demo_votes_fs (vote_path (mkVoteStore raft_home)).
Proof. split; [done|by_decide]. Qed.

Lemma restart_replays_log_witness :
  let J := countable_json Vote in
  exists s r, raft_run (fun t => t) demo_enc_entry (open_log []) [RaftAppend [RaftAdapter.blank 0; RaftAdapter.blank 1]] = (s, Ok tt) /\
    (raft_open no_membership 1 raft_home "key" "secret" false (mkRaftDir demo_votes_fs (log_file s) ∅)).2 = Ok r /\
    try_get_log_entries demo_dec_entry (ar_log r) (Included 0) Unbounded = Ok [RaftAdapter.blank 0; RaftAdapter.blank 1].
Proof.
  intros J. set (s := (raft_run (fun t => t) demo_enc_entry (open_log []) [RaftAppend [RaftAdapter.blank 0; RaftAdapter.blank 1]]).1).
  assert (Hs : raft_run (fun t => t) demo_enc_entry (open_log []) [RaftAppend [RaftAdapter.blank 0; RaftAdapter.blank 1]] = (s, Ok tt)) by (vm_compute; reflexivity).
  exists s. destruct (raft_open no_membership 1 raft_home "key" "secret" false (mkRaftDir demo_votes_fs (log_file s) ∅)) as [d' [r|e]] eqn:Eo.
  - exists r. split; [exact Hs|]. split; [reflexivity|].
    destruct (restart_replays_log no_membership (fun t => t) demo_enc_entry demo_dec_entry [RaftAppend [RaftAdapter.blank 0; RaftAdapter.blank 1]] s 1 raft_home
      "key" "secret" false demo_votes_fs ∅ d' r) as (Hx & _ & _); 
      [exact two_blanks|exact Hs|exact Eo|discriminate|exact raft_home_ready|exact Hx].
  - exfalso. assert (Hc : (raft_open no_membership 1 raft_home "key" "secret" false (mkRaftDir demo_votes_fs (log_file s) ∅)).2 = Err e) by (by rewrite Eo).
    vm_compute in Hc. done.
Defined.

(** What was purged is gone after a restart: the state machine had epoch 2 and its snapshot is on
    disk, but the instance opened there has nothing to apply and stays at epoch 0. *)
Theorem purged_entries_lost :
  let built := demo_built in
  exists r, (raft_open no_membership 1 raft_home "key" "secret" false (mkRaftDir demo_votes_fs [] (fa_snaps built.1))).2 = Ok r /\
    placement_epoch (fsm_placement (fa_fsm built.1)) = 2%N /\ base.size (rd_snaps (mkRaftDir demo_votes_fs [] (fa_snaps built.1))) = 1 /\
    try_get_log_entries demo_dec_entry (ar_log r) (Included 0) Unbounded = Ok [] /\
    applied_state (ar_fsm r) = (None, no_membership) /\ placement_epoch (fsm_placement (fa_fsm (ar_fsm r))) = 0%N.
Proof. cbn zeta. eexists. split; [vm_compute; reflexivity|]. vm_compute. done. Qed.

End Demo.
