(* ===== verification/S3Service.v ===== *)
(** The S3 handlers ([src/s3_service.rs]) and the lookup of the secret key
    ([src/s3_auth.rs]): what each S3 request does to the volume pool and what it answers.

    A handler is a function of the service that returns the new service and an S3 result,
    or [None] when it panics ([S3M]).  The S3 crate parses the requests and prints the
    answers; a request is the part of the crate's input the handler reads, an answer the
    fields it sets.  Fresh UUIDs and the clock are arguments.  Arithmetic is that of the
    release build.  The order in which a [HashMap] lists its entries is that of
    [map_to_list]. *)

From Stdlib Require Import Ascii ZArith.
From stdpp Require Import base list gmap strings numbers pretty sorting.
From S2P Require Import Policy.
From S2P Require Import Prelude Metadata Pathing Placement Erasure Backend ErasureDecode ErasurePut.
From S2P Require Import Caches Heal RaftFsm FileSys Materialize VolumePool Multipart MultipartSpec Config Internode.

Open Scope string_scope.
Open Scope list_scope.

(** ** Errors *)

Module S3Code.
Inductive S3ErrorCode : Type :=
| NoSuchBucket
| NoSuchKey
| BucketAlreadyOwnedByYou
| BucketNotEmpty
| ServiceUnavailable
| InternalError
| InvalidArgument
| InvalidBucketName
| NoSuchUpload
| IncompleteBody
| PreconditionFailed
| NotModified
| NotImplemented
| MalformedXML
| MalformedPolicy
| NoSuchBucketPolicy
| NoSuchLifecycleConfiguration
| NoSuchCORSConfiguration
| InvalidAccessKeyId.
End S3Code.

(** [S3Error]: its code and message; the source of an I/O error is only logged. *)
Record S3Error : Type := mkS3Error {
  err_code : S3Code.S3ErrorCode;
  err_message : option string;
}.

Definition s3_error (c : S3Code.S3ErrorCode) : S3Error := mkS3Error c None.
Definition s3_error_msg (c : S3Code.S3ErrorCode) (m : string) : S3Error := mkS3Error c (Some m).

Abbreviation S3Result := (result S3Error).

Definition map_err (e : StorageError) : S3Error :=
  match e with
  | BucketNotFound => s3_error S3Code.NoSuchBucket
  | ObjectNotFound => s3_error S3Code.NoSuchKey
  | BucketExists => s3_error S3Code.BucketAlreadyOwnedByYou
  | BucketNotEmpty => s3_error S3Code.BucketNotEmpty
  | WriteQuorum => s3_error_msg S3Code.ServiceUnavailable "write quorum not met"
  | ReadQuorum => s3_error_msg S3Code.ServiceUnavailable "read quorum not met"
  | Bitrot => s3_error_msg S3Code.InternalError "data integrity error"
  | InvalidConfig msg => s3_error_msg S3Code.InvalidArgument msg
  | Io _ => s3_error S3Code.InternalError
  | InvalidBucketName msg => s3_error_msg S3Code.InvalidBucketName msg
  | InvalidObjectKey msg => s3_error_msg S3Code.InvalidArgument msg
  | InvalidVersionId msg => s3_error_msg S3Code.InvalidArgument msg
  | InvalidUploadId msg => s3_error_msg S3Code.NoSuchUpload msg
  | Internal msg => s3_error_msg S3Code.InternalError msg
  end.

(** ** The secret key ([s3_auth.rs]) *)

Record AbixioAuth : Type := mkAbixioAuth {
  auth_access_key : string;
  auth_secret_key : string;
}.

Definition get_secret_key (a : AbixioAuth) (access_key : string) : S3Result string :=
  if bool_decide (access_key = auth_access_key a) then Ok (auth_secret_key a)
  else Err (s3_error S3Code.InvalidAccessKeyId).

(** [RelaxedNameValidation] *)
Definition relaxed_bucket_name (name : string) : bool := negb (bool_decide (name = "")).

(** ** Machine integers *)

(** [a - b] on [u64] and [usize] without overflow checks. *)
Definition u64_sub (a b : N) : N := as_u64 (2 ^ 64 + a - b).

(** [n as i64] of a [u64], and [z as usize] of an [i32] or [i64]. *)
Definition as_i64 (n : N) : Z :=
  let n := as_u64 n in if bool_decide (n < 2 ^ 63)%N then Z.of_N n else (Z.of_N n - 2 ^ 64)%Z.
Definition as_usize (z : Z) : nat := N.to_nat (Z.to_N (z mod 2 ^ 64)).

(** ** Bodies of answers *)

(** [ChunkedBytes]: chunks in memory and the length that is still to be sent. *)
Record ChunkedBytes : Type := mkChunkedBytes {
  cb_queue : list bytes;
  cb_remaining : N;
}.

Definition chunked_next (c : ChunkedBytes) : option (bytes * ChunkedBytes) :=
  match cb_queue c with
  | [] => None
  | b :: queue => Some (b, mkChunkedBytes queue (u64_sub (cb_remaining c) (N.of_nat (length b))))
  end.

(** [SizedStream]: the same over a stream that may fail. *)
Record SizedStream : Type := mkSizedStream {
  ss_inner : list (result string bytes);
  ss_remaining : N;
}.

Definition sized_next (s : SizedStream) : option (result string bytes * SizedStream) :=
  match ss_inner s with
  | [] => None
  | Ok b :: inner => Some (Ok b, mkSizedStream inner (u64_sub (ss_remaining s) (N.of_nat (length b))))
  | Err e :: inner => Some (Err e, mkSizedStream inner (ss_remaining s))
  end.

Inductive Blob : Type :=
| BChunked (c : ChunkedBytes)
| BSized (s : SizedStream).

(** [body]: a stream of chunks, each of which may be an error of the transport. *)
Abbreviation Body := (list (result string bytes)).

Fixpoint collect_chunks (items : Body) (buf : bytes) : S3Result bytes :=
  match items with
  | [] => Ok buf
  | Ok chunk :: items => collect_chunks items (buf ++ chunk)
  | Err e :: _ => Err (s3_error_msg S3Code.IncompleteBody e)
  end.

Definition collect_body (body : option Body) : S3Result bytes :=
  match body with None => Ok [] | Some items => collect_chunks items [] end.

(** ** Conditional requests *)

Inductive ETag : Type := Strong (v : string) | Weak (v : string).
Definition etag_value (e : ETag) : string := match e with Strong v | Weak v => v end.

Inductive ETagCondition : Type := AnyETag | OneETag (e : ETag).

(** A [Timestamp] counts nanoseconds since the epoch. *)
Abbreviation Timestamp := Z.
Definition timestamp_to_s3 (unix_secs : N) : Timestamp := (Z.of_N unix_secs * 1000000000)%Z.

Record Conditions : Type := mkConditions {
  if_match : option ETagCondition;
  if_none_match : option ETagCondition;
  if_modified_since : option Timestamp;
  if_unmodified_since : option Timestamp;
}.

Definition etag_matches (c : ETagCondition) (etag : string) : bool :=
  match c with AnyETag => true | OneETag e => bool_decide (etag_value e = etag_value (Strong etag)) end.

Definition check_conditionals (c : Conditions) (etag : string) (last_modified : Timestamp) : S3Result unit :=
  if match if_match c with Some m => negb (etag_matches m etag) | None => false end
  then Err (s3_error S3Code.PreconditionFailed)
  else if match if_unmodified_since c with Some since => bool_decide (since < last_modified)%Z | None => false end
  then Err (s3_error S3Code.PreconditionFailed)
  else if match if_none_match c with Some m => etag_matches m etag | None => false end
  then Err (s3_error S3Code.NotModified)
  else if match if_modified_since c with Some since => bool_decide (last_modified <= since)%Z | None => false end
  then Err (s3_error S3Code.NotModified)
  else Ok tt.

(** ** Ranges *)

Inductive Range : Type :=
| IntRange (first : N) (last : option N)
| SuffixRange (length : N).

(** [data[start..=end]], which panics out of bounds. *)
Definition slice_incl (data : bytes) (first last : N) : option bytes :=
  if bool_decide (last = 2 ^ 64 - 1)%N || bool_decide (last + 1 < first)%N then None
  else slice (N.to_nat first) (N.to_nat (last + 1 - first)) data.

(** The body and the [Content-Range] of a ranged read; [None] is a panic. *)
Definition cut_range (data : bytes) (range : Range) : option (bytes * option string) :=
  let total := N.of_nat (length data) in
  let '(first, last) := match range with
    | IntRange first last => (first, N.min (default (u64_sub total 1) last) (u64_sub total 1))
    | SuffixRange len => let len := N.min len total in (u64_sub total len, u64_sub total 1)
    end in
  if bool_decide (first < total)%N then
    body ← slice_incl data first last;
    Some (body, Some ("bytes " +:+ pretty first +:+ "-" +:+ pretty last +:+ "/" +:+ pretty total))
  else Some (data, None).

(** ** Tags *)

(** [Vec<Tag>] into a [HashMap]: tags without a key or a value are passed over, the last
    value of a key counts. *)
Definition tag_map (ts : list (option string * option string)) : gmap string string :=
  fold_left (fun m t => match t with (Some k, Some v) => <[k := v]> m | _ => m end) ts ∅.

(** ** The service *)

Record AbixioS3 (B P : Type) : Type := mkAbixioS3 {
  s3_store : VolumePool B P;
  s3_versioning_cache : gmap string (option string);
}.
Arguments mkAbixioS3 {B P} _ _.
Arguments s3_store {B P} _.
Arguments s3_versioning_cache {B P} _.

Definition s3_new {B P : Type} (store : VolumePool B P) : AbixioS3 B P := mkAbixioS3 store ∅.

(** A handler: the service afterwards and the answer. *)
Definition S3M (B P A : Type) : Type := AbixioS3 B P -> option (AbixioS3 B P * S3Result A).

(** The host's file system as the volumes of a pool see it; [multipart/mod.rs] works on
    it directly, beside the volumes. *)
Class HostFs (B : Type) : Type := {
  host_fs : list B -> FS;
  set_host_fs : FS -> list B -> list B;
}.

Section Combinators.
  Context {B P : Type}.

Global Instance s3_ret : MRet (S3M B P) := fun A a s => Some (s, Ok a).
Global Instance s3_bind : MBind (S3M B P) := fun A C f m s =>
  match m s with
  | None => None
  | Some (s', Ok a) => f a s'
  | Some (s', Err e) => Some (s', Err e)
  end.

Definition s3_lift {A : Type} (r : S3Result A) : S3M B P A := fun s => Some (s, r).
Definition s3_unwrap {A : Type} (o : option A) : S3M B P A := fun s => a ← o; Some (s, Ok a).
Definition set_store (p : VolumePool B P) (s : AbixioS3 B P) : AbixioS3 B P := mkAbixioS3 p (s3_versioning_cache s).
Definition set_versioning_cache (c : gmap string (option string)) (s : AbixioS3 B P) : AbixioS3 B P :=
  mkAbixioS3 (s3_store s) c.

(** An operation of the store; [try_store] keeps its result for the caller. *)
Definition try_store {A : Type} (m : PoolM B P A) : S3M B P (Result A) := fun s =>
  r ← m (s3_store s); Some (set_store r.1 s, Ok r.2).
Definition on_store {A : Type} (m : PoolM B P A) : S3M B P A :=
  r ← try_store m; s3_lift (Prelude.map_err map_err r).

(** The versioning state of a bucket, read from the store once and kept. *)
Definition cached_versioning_config `{!PoolBackend B} (bucket : string) : S3M B P (Result (option string)) := fun s =>
  match s3_versioning_cache s !! bucket with
  | Some config => Some (s, Ok (Ok config))
  | None =>
      r ← get_versioning_config bucket (s3_store s);
      let s := set_store r.1 s in
      Some (match r.2 with
            | Ok config => (set_versioning_cache (<[bucket := config]> (s3_versioning_cache s)) s, Ok (Ok config))
            | Err e => (s, Ok (Err e))
            end)
  end.

Definition invalidate_versioning_cache (bucket : string) : S3M B P unit := fun s =>
  Some (set_versioning_cache (delete bucket (s3_versioning_cache s)) s, Ok tt).

(** [.ok().flatten()] *)
Definition versioning_state (r : Result (option string)) : option string := mjoin (result_ok r).

(** The multipart operations read and change the file system under the volumes. *)
Definition on_files `{!HostFs B} {A : Type} (f : FS -> FS * Result A) : PoolM B P A := fun p =>
  let r := f (host_fs (vp_disks p)) in Some (set_disks (set_host_fs r.1 (vp_disks p)) p, r.2).
Definition from_files `{!HostFs B} {A : Type} (f : FS -> Result A) : PoolM B P A := fun p =>
  Some (p, f (host_fs (vp_disks p))).
End Combinators.

(** ** Requests and answers *)

Record PutObjectInput : Type := mkPutObjectInput {
  pi_bucket : string;
  pi_key : string;
  pi_content_type : option string;
  pi_metadata : option (gmap string string);
  pi_content_md5 : option string;
  pi_body : option Body;
  pi_content_length : option Z;
}.

Record PutObjectOutput : Type := mkPutObjectOutput {
  po_e_tag : ETag;
  po_version_id : option string;
}.

Record GetObjectInput : Type := mkGetObjectInput {
  gi_bucket : string;
  gi_key : string;
  gi_version_id : option string;
  gi_range : option Range;
  gi_conditions : Conditions;
}.

Record GetObjectOutput : Type := mkGetObjectOutput {
  go_body : Blob;
  go_content_length : Z;
  go_content_type : string;
  go_e_tag : ETag;
  go_last_modified : Timestamp;
  go_metadata : option (gmap string string);
  go_content_range : option string;
  go_version_id : option string;
}.

Record HeadObjectOutput : Type := mkHeadObjectOutput {
  ho_content_length : Z;
  ho_content_type : string;
  ho_e_tag : ETag;
  ho_last_modified : Timestamp;
  ho_metadata : option (gmap string string);
  ho_version_id : option string;
}.

Record DeleteObjectOutput : Type := mkDeleteObjectOutput {
  do_delete_marker : option bool;
  do_version_id : option string;
}.

Inductive CopySource : Type :=
| CopyBucket (bucket key : string)
| CopyAccessPoint.

Definition parse_copy_source (source : CopySource) : S3Result (string * string) :=
  match source with
  | CopyBucket bucket key => Ok (bucket, key)
  | CopyAccessPoint => Err (s3_error_msg S3Code.NotImplemented "access point copy not supported")
  end.

Record CopyObjectInput : Type := mkCopyObjectInput {
  ci_bucket : string;
  ci_key : string;
  ci_copy_source : CopySource;
  ci_metadata : option (gmap string string);
}.

(** An entry of the errors of a batch delete: code, key and message. *)
Record DeleteError : Type := mkDeleteError {
  de_code : option string;
  de_key : string;
  de_message : option string;
}.

Record S3Object : Type := mkS3Object {
  ob_key : string;
  ob_size : Z;
  ob_e_tag : ETag;
  ob_last_modified : Timestamp;
}.

Record ListObjectsInput : Type := mkListObjectsInput {
  li_bucket : string;
  li_prefix : option string;
  li_delimiter : option string;
  li_max_keys : option Z;
}.

(** The answer of [list_objects]; [list_objects_v2] also counts the entries. *)
Record ListObjectsOutput : Type := mkListObjectsOutput {
  lo_contents : list S3Object;
  lo_common_prefixes : option (list string);
  lo_echo_delimiter : option string;
  lo_is_truncated : bool;
  lo_echo_max_keys : Z;
  lo_name : string;
  lo_echo_prefix : option string;
}.

Record VersionEntry : Type := mkVersionEntry {
  ve_key : string;
  ve_version_id : string;
  ve_is_latest : bool;
  ve_last_modified : Timestamp;
  ve_object : option (ETag * Z);
}.

(** [Some vec] unless the vector is empty. *)
Definition non_empty {A : Type} (l : list A) : option (list A) :=
  match l with [] => None | _ => Some l end.
Definition metadata_of (m : gmap string string) : option (gmap string string) :=
  if bool_decide (m = ∅) then None else Some m.
Definition version_of (vid : string) : option string := if bool_decide (vid = "") then None else Some vid.

Definition object_entry (o : ObjectInfo) : S3Object :=
  mkS3Object (info_key o) (as_i64 (info_size o)) (Strong (info_etag o)) (timestamp_to_s3 (info_created_at o)).

(** [for (key, metas) in versions { for meta in metas { ... } }]: the versions and the
    delete markers, in the order of the listing. *)
Definition version_entry (key : string) (m : ObjectMeta) : VersionEntry :=
  mkVersionEntry key (if bool_decide (version_id m = "") then "null" else version_id m) (is_latest m)
    (timestamp_to_s3 (created_at m)) (Some (Strong (etag m), as_i64 (size m))).
Definition marker_entry (key : string) (m : ObjectMeta) : VersionEntry :=
  mkVersionEntry key (version_id m) (is_latest m) (timestamp_to_s3 (created_at m)) None.
Definition split_versions (vs : list (string * list ObjectMeta)) : list VersionEntry * list VersionEntry :=
  let all := vs ≫= fun kv => map (kv.1,.) kv.2 in
  (map (fun e => version_entry e.1 e.2) (List.filter (fun e => negb (is_delete_marker e.2)) all),
   map (fun e => marker_entry e.1 e.2) (List.filter (fun e => is_delete_marker e.2) all)).

(** ** Field updates of the settings *)

Definition set_bs_tags (t : option (gmap string string)) (s : BucketSettings) : BucketSettings :=
  mkBucketSettings (bs_versioning s) (bs_ftt s) t (bs_policy s) (bs_lifecycle s).
Definition set_bs_policy (v : option Value) (s : BucketSettings) : BucketSettings :=
  mkBucketSettings (bs_versioning s) (bs_ftt s) (bs_tags s) v (bs_lifecycle s).
Definition set_bs_lifecycle (l : option string) (s : BucketSettings) : BucketSettings :=
  mkBucketSettings (bs_versioning s) (bs_ftt s) (bs_tags s) (bs_policy s) l.

(** [policy_json.get("Version").and_then(|v| v.as_str()).unwrap_or("")] *)
Definition policy_version (v : Value) : string :=
  default "" (m ← as_object v; x ← obj_get "Version" m; as_str x).

(** ** Handlers *)

Section Handlers.
  Context `{Hashes} `{ReedSolomon} `{UuidParser} `{MetaFileCodec} `{!Json UploadMeta} `{!Json PartFileMeta} `{!Json Value}.
  Context {B W P : Type} `{!Backend B W} `{!HealBackend B} `{!PoolBackend B} `{!PeerCache P} `{!HostFs B}.
  Context (block : nat) (label : B -> string).

(** The reads of the store, with the file system the parts of an object lie in. *)
Definition store_get (bucket key : string) : PoolM B P (bytes * ObjectInfo) := fun p =>
  get_object label (fs_read (host_fs (vp_disks p))) part_index bucket key p.
Definition store_stream (bucket key : string) : PoolM B P (ObjectInfo * list (Result bytes)) := fun p =>
  get_object_stream block label (fs_read (host_fs (vp_disks p))) part_index bucket key p.
Definition disk_labels : PoolM B P (list string) := gets (fun p => map label (vp_disks p)).

(** *** Buckets *)

Definition s3_create_bucket (bucket : string) : S3M B P string :=
  on_store (pool_make_bucket bucket);; mret ("/" +:+ bucket).

Definition s3_head_bucket (bucket : string) : S3M B P unit :=
  exists_ ← on_store (head_bucket bucket);
  if (exists_ : bool) then mret tt else s3_lift (Err (s3_error S3Code.NoSuchBucket)).

Definition s3_delete_bucket (bucket : string) : S3M B P unit := on_store (pool_delete_bucket bucket).

Definition s3_list_buckets : S3M B P (list (string * Timestamp)) :=
  buckets ← on_store (gets pool_list_buckets);
  mret (map (fun b => (bi_name b, timestamp_to_s3 (bi_created_at b))) buckets).

(** *** Objects *)

Definition put_options (i : PutObjectInput) : PutOptions :=
  let content_type := default "" (pi_content_type i) in
  let user_metadata := default ∅ (pi_metadata i) in
  {| opt_content_type := if bool_decide (content_type = "") then "application/octet-stream" else content_type;
     opt_user_metadata := user_metadata; opt_tags := ∅;
     ec_ftt := v ← user_metadata !! "ec-ftt"; N.to_nat <$> parse_u64 (bytes_of v);
     precomputed_etag := None; skip_md5 := bool_decide (pi_content_md5 i = None) |}.

Definition body_stream (b : option Body) : list (Result bytes) :=
  match b with
  | Some items => map (Prelude.map_err Io) items
  | None => [Ok []]
  end.

(** [uuid] is the version the request draws when the bucket is versioned. *)
Definition s3_put_object (i : PutObjectInput) (uuid : string) (t : Clock) : S3M B P PutObjectOutput :=
  config ← cached_versioning_config (pi_bucket i);
  let versioning := versioning_state config in
  let vid := if bool_decide (versioning = Some "Enabled") then Some uuid else None in
  info ← on_store (put_object_stream block (pi_bucket i) (pi_key i) (body_stream (pi_body i)) (put_options i) vid
                     (as_usize <$> pi_content_length i) t);
  mret (mkPutObjectOutput (Strong (info_etag info))
    (if bool_decide (info_version_id info = "")
     then if bool_decide (versioning = Some "Suspended") then Some "null" else None
     else Some (info_version_id info))).

Definition get_output (body : Blob) (len : Z) (info : ObjectInfo) (range : option string) : GetObjectOutput :=
  mkGetObjectOutput body len (info_content_type info) (Strong (info_etag info)) (timestamp_to_s3 (info_created_at info))
    (metadata_of (info_user_metadata info)) range (version_of (info_version_id info)).

Definition get_object_buffered (i : GetObjectInput) : S3M B P GetObjectOutput :=
  r ← on_store (match gi_version_id i with
                | Some vid => get_object_version (gi_bucket i) (gi_key i) vid
                | None => store_get (gi_bucket i) (gi_key i)
                end);
  let '(data, info) := r in
  s3_lift (check_conditionals (gi_conditions i) (info_etag info) (timestamp_to_s3 (info_created_at info)));;
  cut ← s3_unwrap (match gi_range i with Some range => cut_range data range | None => Some (data, None) end);
  let len := N.of_nat (length cut.1) in
  mret (get_output (BChunked (mkChunkedBytes [cut.1] (as_u64 len))) (as_i64 len) info cut.2).

Definition BUFFER_BYTES : N := 64 * 1024 * 1024.

(** The stream into memory; the first error ends the request. *)
Fixpoint collect_stream (items : list (Result bytes)) : S3Result (list bytes) :=
  match items with
  | [] => Ok []
  | Ok b :: items => bs ← collect_stream items; Ok (b :: bs)
  | Err e :: _ => Err (map_err e)
  end.

Definition s3_get_object (i : GetObjectInput) : S3M B P GetObjectOutput :=
  if bool_decide (is_Some (gi_range i)) || bool_decide (is_Some (gi_version_id i)) then get_object_buffered i
  else
    r ← on_store (store_stream (gi_bucket i) (gi_key i));
    let '(info, stream) := r in
    s3_lift (check_conditionals (gi_conditions i) (info_etag info) (timestamp_to_s3 (info_created_at info)));;
    blob ← (if bool_decide (info_size info <= BUFFER_BYTES)%N
            then chunks ← s3_lift (collect_stream stream); mret (BChunked (mkChunkedBytes chunks (info_size info)))
            else mret (BSized (mkSizedStream (map (Prelude.map_err display) stream) (info_size info))));
    mret (get_output blob (as_i64 (info_size info)) info None).

Definition s3_head_object (bucket key : string) (c : Conditions) : S3M B P HeadObjectOutput :=
  info ← on_store (head_object bucket key);
  s3_lift (check_conditionals c (info_etag info) (timestamp_to_s3 (info_created_at info)));;
  mret (mkHeadObjectOutput (as_i64 (info_size info)) (info_content_type info) (Strong (info_etag info))
    (timestamp_to_s3 (info_created_at info)) (metadata_of (info_user_metadata info)) (version_of (info_version_id info))).

(** [uuid] is the version id of a delete marker. *)
Definition s3_delete_object (bucket key : string) (vid : option string) (uuid : string) (t : Clock)
    : S3M B P DeleteObjectOutput :=
  match vid with
  | Some vid => on_store (delete_object_version bucket key vid);; mret (mkDeleteObjectOutput None (Some vid))
  | None =>
      config ← cached_versioning_config bucket;
      if bool_decide (versioning_state config = Some "Enabled") || bool_decide (versioning_state config = Some "Suspended")
      then info ← on_store (add_delete_marker bucket key uuid t);
           mret (mkDeleteObjectOutput (Some true) (Some (info_version_id info)))
      else on_store (pool_delete_object bucket key);; mret (mkDeleteObjectOutput None None)
  end.

(** The entity tag and the time of the copy. *)
Definition s3_copy_object (i : CopyObjectInput) (t : Clock) : S3M B P (ETag * Timestamp) :=
  src ← s3_lift (parse_copy_source (ci_copy_source i));
  r ← on_store (store_get src.1 src.2);
  let '(data, info) := r in
  let opts := {| opt_content_type := info_content_type info;
                 opt_user_metadata := default (info_user_metadata info) (ci_metadata i); opt_tags := ∅;
                 ec_ftt := None; precomputed_etag := None; skip_md5 := false |} in
  dst ← on_store (put_object block (ci_bucket i) (ci_key i) data opts t);
  mret (Strong (info_etag dst), timestamp_to_s3 (info_created_at dst)).

(** [for obj in objects]: the keys deleted and the errors. *)
Fixpoint delete_each (bucket : string) (keys : list string) (deleted : list string) (errors : list DeleteError)
    : S3M B P (list string * list DeleteError) :=
  match keys with
  | [] => mret (deleted, errors)
  | key :: keys =>
      r ← try_store (pool_delete_object bucket key);
      match r with
      | Ok _ => delete_each bucket keys (deleted ++ [key]) errors
      | Err e => delete_each bucket keys deleted
                   (errors ++ [mkDeleteError (err_message (map_err e)) key (err_message (map_err e))])
      end
  end.

Definition s3_delete_objects (bucket : string) (keys : list string)
    : S3M B P (list string * option (list DeleteError)) :=
  r ← delete_each bucket keys [] []; mret (r.1, non_empty r.2).

(** *** Listings *)

Definition list_options (i : ListObjectsInput) : ListOptions :=
  mkListOptions (default "" (li_prefix i)) (default "" (li_delimiter i)) "" (as_usize (default 1000%Z (li_max_keys i))) "".

Definition s3_list_objects (i : ListObjectsInput) : S3M B P ListObjectsOutput :=
  r ← on_store (pool_list_objects (li_bucket i) (list_options i));
  mret (mkListObjectsOutput (map object_entry (lr_objects r)) (non_empty (lr_common_prefixes r)) (li_delimiter i)
    (lr_is_truncated r) (default 1000%Z (li_max_keys i)) (li_bucket i) (li_prefix i)).

(** The answer and its [key_count]. *)
Definition s3_list_objects_v2 (i : ListObjectsInput) : S3M B P (ListObjectsOutput * Z) :=
  r ← on_store (pool_list_objects (li_bucket i) (list_options i));
  mret (mkListObjectsOutput (map object_entry (lr_objects r)) (non_empty (lr_common_prefixes r)) (li_delimiter i)
    (lr_is_truncated r) (default 1000%Z (li_max_keys i)) (li_bucket i) (li_prefix i),
    Z.of_nat (length (lr_objects r) + length (lr_common_prefixes r))).

Definition s3_list_object_versions (bucket : string) (prefix : option string)
    : S3M B P (list VersionEntry * option (list VersionEntry)) :=
  versions ← on_store (list_object_versions bucket (default "" prefix));
  let r := split_versions versions in mret (r.1, non_empty r.2).

(** *** Tags *)

Definition s3_get_object_tagging (bucket key : string) : S3M B P (list (string * string)) :=
  t ← on_store (get_object_tags bucket key); mret (map_to_list t).
Definition s3_put_object_tagging (bucket key : string) (ts : list (option string * option string)) : S3M B P unit :=
  on_store (put_object_tags bucket key (tag_map ts)).
Definition s3_delete_object_tagging (bucket key : string) : S3M B P unit := on_store (delete_object_tags bucket key).

(** *** Settings of a bucket *)

(** [get_bucket_settings(..).unwrap_or_default()], a change, and [set_bucket_settings]. *)
Definition change_settings (bucket : string) (f : BucketSettings -> BucketSettings) : S3M B P unit :=
  r ← try_store (get_bucket_settings bucket);
  on_store (set_bucket_settings bucket (f (default default_settings (result_ok r)))).

Definition s3_get_bucket_tagging (bucket : string) : S3M B P (list (string * string)) :=
  s ← on_store (get_bucket_settings bucket); mret (map_to_list (default ∅ (bs_tags s))).
Definition s3_put_bucket_tagging (bucket : string) (ts : list (option string * option string)) : S3M B P unit :=
  change_settings bucket (set_bs_tags (Some (tag_map ts))).
Definition s3_delete_bucket_tagging (bucket : string) : S3M B P unit := change_settings bucket (set_bs_tags (Some ∅)).

Definition s3_get_bucket_versioning (bucket : string) : S3M B P (option string) :=
  invalidate_versioning_cache bucket;;
  config ← cached_versioning_config bucket;
  s3_lift (Prelude.map_err map_err config).

Definition s3_put_bucket_versioning (bucket : string) (status : option string) : S3M B P unit :=
  let status := default "" status in
  if negb (bool_decide (status = "Enabled")) && negb (bool_decide (status = "Suspended"))
  then s3_lift (Err (s3_error_msg S3Code.MalformedXML "invalid versioning status"))
  else on_store (set_versioning_config bucket status);; invalidate_versioning_cache bucket.

Definition s3_get_bucket_policy (bucket : string) : S3M B P string :=
  s ← on_store (get_bucket_settings bucket);
  let policy := match default Null (bs_policy s) with
                | Null => ""
                | v => default "" (string_of <$> to_json v)
                end in
  if bool_decide (policy = "") || bool_decide (policy = "null")
  then s3_lift (Err (s3_error S3Code.NoSuchBucketPolicy)) else mret policy.

Definition s3_put_bucket_policy (bucket policy : string) : S3M B P unit :=
  match from_json (bytes_of policy) with
  | None => s3_lift (Err (s3_error_msg S3Code.MalformedPolicy "invalid JSON"))
  | Some v =>
      if bool_decide (policy_version v = "")
      then s3_lift (Err (s3_error_msg S3Code.MalformedPolicy "missing or empty Version field"))
      else change_settings bucket (set_bs_policy (Some v))
  end.
Definition s3_delete_bucket_policy (bucket : string) : S3M B P unit := change_settings bucket (set_bs_policy (Some Null)).

(** [Rule] is the rule of the S3 crate with its serde text. *)
Definition s3_get_bucket_lifecycle {Rule : Type} `{!Json (list Rule)} (bucket : string) : S3M B P (list Rule) :=
  s ← on_store (get_bucket_settings bucket);
  let text := default "" (bs_lifecycle s) in
  if bool_decide (text = "") then s3_lift (Err (s3_error S3Code.NoSuchLifecycleConfiguration))
  else s3_lift (ok_or (from_json (bytes_of text)) (s3_error_msg S3Code.InternalError "corrupt lifecycle config")).

Definition s3_put_bucket_lifecycle {Rule : Type} `{!Json (list Rule)} (bucket : string) (config : option (list Rule))
    : S3M B P unit :=
  text ← s3_lift (ok_or (to_json (default [] config)) (s3_error_msg S3Code.InternalError "failed to serialize lifecycle"));
  change_settings bucket (set_bs_lifecycle (Some (string_of text))).
Definition s3_delete_bucket_lifecycle (bucket : string) : S3M B P unit := change_settings bucket (set_bs_lifecycle None).

(** *** Multipart uploads *)

(** [upload_id] and [data_dir] are the UUIDs the upload draws. *)
Definition s3_create_multipart_upload (bucket key : string) (content_type : option string)
    (metadata : option (gmap string string)) (upload_id data_dir : string) (t : Clock) : S3M B P string :=
  disks ← on_store disk_labels;
  on_store (on_files (create_upload disks bucket key (default "" content_type) (default ∅ metadata) upload_id data_dir
                        (now_secs t))).

Definition s3_upload_part (bucket key upload_id : string) (part_number : Z) (body : option Body) : S3M B P ETag :=
  data ← s3_lift (collect_body body);
  ec ← on_store (gets (fun p => bucket_ec p bucket));
  disks ← on_store disk_labels;
  part ← on_store (on_files (put_part disks ec.1 ec.2 bucket key upload_id part_number data));
  mret (Strong (pm_etag part)).

(** The parts of the request: number and tag, each of which may be missing. *)
Definition requested_parts (parts : option (list (option Z * option ETag))) : list (Z * string) :=
  map (fun p => (default 0%Z p.1, default "" (etag_value <$> p.2))) (default [] parts).

Definition s3_complete_multipart_upload (bucket key upload_id : string) (parts : option (list (option Z * option ETag)))
    (t : Clock) : S3M B P (string * string * ETag) :=
  disks ← on_store disk_labels;
  info ← on_store (on_files (complete_upload disks bucket key upload_id (requested_parts parts) (now_secs t)));
  mret (info_bucket info, info_key info, Strong (info_etag info)).

Definition s3_abort_multipart_upload (bucket key upload_id : string) : S3M B P unit :=
  disks ← on_store disk_labels; on_store (on_files (abort_upload disks bucket key upload_id)).

(** Number, size and tag of the parts. *)
Definition s3_list_parts (bucket key upload_id : string) : S3M B P (list (Z * Z * ETag)) :=
  disks ← on_store disk_labels;
  r ← on_store (from_files (fun fs => list_parts fs disks bucket key upload_id));
  mret (map (fun p => (pm_part_number p, as_i64 (pm_size p), Strong (pm_etag p))) r.2).

(** Key, id and start of the uploads. *)
Definition s3_list_multipart_uploads (bucket : string) : S3M B P (list (string * string * Timestamp)) :=
  disks ← on_store disk_labels;
  us ← on_store (from_files (fun fs => list_uploads fs disks bucket));
  mret (map (fun u => (um_key u, um_upload_id u, timestamp_to_s3 (um_created_at u))) us).

(** *** Requests that are answered without the store *)

(** [get_bucket_location], the notification and the ACL writes: accepted, no effect. *)
Definition s3_accepted : S3M B P unit := mret tt.
Definition s3_get_bucket_cors : S3M B P unit := s3_lift (Err (s3_error S3Code.NoSuchCORSConfiguration)).
Definition s3_change_bucket_cors : S3M B P unit := s3_lift (Err (s3_error S3Code.NotImplemented)).
(** Owner, grantee and permission of [get_bucket_acl] and [get_object_acl]. *)
Definition s3_get_acl : S3M B P (string * list (string * string)) := mret ("abixio", [("abixio", "FULL_CONTROL")]).

End Handlers.
