(* ===== verification/LifecyclePass.v ===== *)
(** A pass of the lifecycle engine over the pool ([src/lifecycle/mod.rs]): [run_once], the
    removal of stale multipart uploads, and the volume pool as the store of [Lifecycle].
    The time of the pass, the modification times of directories and the identifiers of
    delete markers are arguments.  The loop that starts the passes is in [Metrics]. *)

From Stdlib Require Import Ascii ZArith.
From stdpp Require Import base list gmap strings numbers pretty sorting.
From S2P Require Import Policy.
From S2P Require Import Prelude Metadata Pathing Placement Erasure Backend ErasureDecode ErasurePut.
From S2P Require Import Lifecycle.
From S2P Require Import Caches Heal RaftFsm FileSys VolumePool PoolSpec PoolRefine PoolStream PoolSettings S3Service.

Open Scope string_scope.
Open Scope list_scope.

(** ** The rules of a bucket *)

(** A bare list of rules, or a configuration that wraps one. *)
Record BucketLifecycleConfiguration : Type := mkLifecycleConfig { lc_rules : list LifecycleRule }.

Definition parse_lifecycle_config `{!Json (list LifecycleRule)} `{!Json BucketLifecycleConfiguration} (json : string)
    : option (list LifecycleRule) :=
  match from_json (bytes_of json) with
  | Some rules => Some rules
  | None => lc_rules <$> from_json (bytes_of json)
  end.

(** ** Stale multipart uploads *)

(** The file system of the host and the roots of the volumes that lie on it. *)
Class UploadFiles (S : Type) : Type := {
  upload_fs : S -> FS;
  set_upload_fs : FS -> S -> S;
  local_roots : S -> list Path;
}.

Section Uploads.
  Context `{UuidParser} (modified : Path -> N).

(** The upload directories below the key directories of one volume. *)
Definition found_uploads (fs : FS) (bucket : string) (root : Path) : list (string * string * N) :=
  match multipart_bucket_dir root bucket with
  | Err _ => []
  | Ok bdir =>
      if negb (fs_is_dir fs bdir) then []
      else flat_map (fun key => map (fun u => (key, u, modified (bdir ++ [Normal key; Normal u])))
                                  (dir_entries fs (bdir ++ [Normal key]))) (dir_entries fs bdir)
  end.

Definition remove_upload (bucket : string) (roots : list Path) (fs : FS) (u : string * string) : FS :=
  fold_left (fun fs root => match multipart_upload_dir root bucket u.1 u.2 with
                            | Ok dir => remove_dir_all dir fs
                            | Err _ => fs
                            end) roots fs.

Definition add_aborted (n : nat) (s : PassStats) : PassStats :=
  mkPassStats (buckets_scanned s) (objects_examined s) (deleted s) (deleted_versions s) (delete_markers_reaped s)
    (multipart_aborted s + n).

Definition abort_stale_multiparts {S : Type} `{!UploadFiles S} (rules : list LifecycleRule) (now : N) (bucket : string)
    (store : S) (stats : PassStats) : S * PassStats :=
  match abort_cutoff rules now with
  | None => (store, stats)
  | Some cutoff =>
      let fs := upload_fs store in
      let to_abort := elements (stale_uploads cutoff (flat_map (found_uploads fs bucket) (local_roots store))) in
      (set_upload_fs (fold_left (remove_upload bucket (local_roots store)) to_abort fs) store,
       add_aborted (length to_abort) stats)
  end.
End Uploads.

(** ** One pass *)

Definition no_stats : PassStats := mkPassStats 0 0 0 0 0 0.
Definition scanned (s : PassStats) : PassStats :=
  mkPassStats (buckets_scanned s + 1) (objects_examined s) (deleted s) (deleted_versions s) (delete_markers_reaped s)
    (multipart_aborted s).

Section Pass.
  Context `{UuidParser} `{!Json (list LifecycleRule)} `{!Json BucketLifecycleConfiguration}.
  Context {S : Type} `{!LifecycleStore S} `{!UploadFiles S} (modified : Path -> N).

Definition run_bucket (now : N) (st : S * PassStats) (bucket : string) : S * PassStats :=
  let stats := scanned st.2 in
  let '(store, text) := lifecycle_text st.1 bucket in
  match text ≫= parse_lifecycle_config with
  | None => (store, stats)
  | Some rules =>
      let '(store, stats) := apply_bucket rules now bucket store stats in
      abort_stale_multiparts modified rules now bucket store stats
  end.

Definition run_once (now : N) (store : S) : S * PassStats :=
  let '(store, buckets) := Lifecycle.list_buckets store in
  match buckets with
  | None => (store, no_stats)
  | Some buckets => fold_left (run_bucket now) buckets (store, no_stats)
  end.
End Pass.

(** ** The pool as the store of the engine

    A panic ends the task that runs the pass: the state is [None] from there on. *)

Section Pool.
  Context `{Hashes} `{ReedSolomon} `{UuidParser} {B W P : Type} `{!Backend B W} `{!HealBackend B} `{!PoolBackend B} `{!HostFs B}.
  Context (label : B -> string) (fresh : string -> string -> string) (t : Clock).

Abbreviation Store := (option (VolumePool B P)).

Definition on_pool {A : Type} (m : PoolM B P A) (s : Store) : Store * option A :=
  match s with
  | None => (None, None)
  | Some p => match m p with None => (None, None) | Some r => (Some r.1, result_ok r.2) end
  end.

Definition acts {A : Type} (m : PoolM B P A) (s : Store) : Store * bool :=
  let r := on_pool m s in (r.1, bool_decide (is_Some (const tt <$> r.2))).

Definition pool_lifecycle : LifecycleStore Store := {|
  Lifecycle.list_buckets := on_pool (gets (fun p => map bi_name (pool_list_buckets p)));
  lifecycle_text := fun s b => let r := on_pool (get_bucket_settings b) s in (r.1, r.2 ≫= bs_lifecycle);
  versioning_status := fun s b => let r := on_pool (get_versioning_config b) s in (r.1, mjoin r.2);
  list_infos := fun s b => let r := on_pool (pool_list_objects b (mkListOptions "" "" "" 0 "")) s in (r.1, lr_objects <$> r.2);
  list_versions := fun s b => on_pool (list_object_versions b "") s;
  Lifecycle.delete_object := fun s b k => acts (pool_delete_object b k) s;
  Lifecycle.add_delete_marker := fun s b k => acts (VolumePool.add_delete_marker b k (fresh b k) t) s;
  Lifecycle.delete_object_version := fun s b k v => acts (VolumePool.delete_object_version b k v) s |}.

Definition pool_uploads : UploadFiles Store := {|
  upload_fs := fun s => match s with Some p => host_fs (vp_disks p) | None => mkFS ∅ ∅ end;
  set_upload_fs := fun fs s => (fun p => set_disks (set_host_fs fs (vp_disks p)) p) <$> s;
  local_roots := fun s => match s with Some p => omap (fun d => components <$> strip_local (label d)) (vp_disks p) | None => [] end |}.
End Pool.

(** ** What a pass does to the objects of unversioned buckets *)

(** The rules say that the object is to be deleted. *)
Definition expired (rules : list LifecycleRule) (now : N) (info : ObjectInfo) : bool :=
  bool_decide (ev_action (eval rules (info_opts info) now 0) = Delete).

(** The objects that stay when the expired ones among [ks] are removed from [b]. *)
Definition after_bucket (rules : list LifecycleRule) (now : N) (b : string) (ks : list string)
    (m : gmap CacheKey (bytes * ObjectInfo)) : gmap CacheKey (bytes * ObjectInfo) :=
  filter (fun x : CacheKey * (bytes * ObjectInfo) =>
    bool_decide (x.1.1 = b) && bool_decide (x.1.2 ∈ ks) && expired rules now x.2.2 = false) m.

Lemma eval_plain rules now info : info_is_delete_marker info = false ->
  ev_action (eval rules (info_opts info) now 0) = if expired rules now info then Delete else ANone.
Proof.
  intros Hm. unfold expired. case_bool_decide as Hd; [done|].
  destruct (decide (ev_action (eval rules (info_opts info) now 0) = ANone)) as [|Hne]; [done|].
  destruct (eval_justified _ _ _ _ Hne) as (r & _ & _ & _ & _ & _ & Hj).
  destruct (ev_action (eval _ _ _ _)); try done.
  - by destruct Hj.
  - destruct Hj as [Hj _]. cbn in Hj. congruence.
Qed.

Lemma disabled_expire_nothing rules now info : forallb (fun r => negb (rule_enabled r)) rules = true -> expired rules now info = false.
Proof.
  intros Hall. unfold expired. apply bool_decide_eq_false. intros Hd.
  destruct (eval_justified rules (info_opts info) now 0) as (r & Hr & Hen & _); [by rewrite Hd|].
  rewrite forallb_forall in Hall. specialize (Hall r ltac:(by apply list_elem_of_In)). by rewrite Hen in Hall.
Qed.

Lemma after_bucket_nothing rules now b ks m :
  (forall k v, k ∈ ks -> m !! (b, k) = Some v -> expired rules now v.2 = false) -> after_bucket rules now b ks m = m.
Proof.
  intros Hn. apply map_filter_id. intros [b' k] v Hv. cbn. repeat case_bool_decide; try done. subst b'. cbn. by eapply Hn.
Qed.

Lemma after_bucket_cons rules now b k ks m :
  after_bucket rules now b (k :: ks) m =
  after_bucket rules now b ks (if (m !! (b, k)) is Some v then if expired rules now v.2 then delete (b, k) m else m else m).
Proof.
  apply map_eq. intros [b' k']. unfold after_bucket. rewrite !map_lookup_filter.
  destruct (decide ((b', k') = (b, k))) as [[= -> ->]|Hne].
  - destruct (m !! (b, k)) as [v|] eqn:E; [|by rewrite E].
    destruct (expired rules now v.2) eqn:Ex; [rewrite lookup_delete_eq|rewrite E]; cbn.
    + rewrite (bool_decide_eq_true_2 (b = b)), (bool_decide_eq_true_2 (k ∈ _)), Ex by (done || by left). done.
    + rewrite !option_guard_True by by rewrite Ex, andb_false_r. done.
  - replace ((if m !! (b, k) is Some v then if expired rules now v.2 then delete (b, k) m else m else m) !! (b', k'))
      with (m !! (b', k')) by (destruct (m !! (b, k)) as [v|]; [destruct (expired _ _ _); by rewrite ?lookup_delete_ne|done]).
    destruct (m !! (b', k')) as [v|]; [|done]. cbn.
    destruct (decide (b' = b)) as [->|]; [|by rewrite !(bool_decide_eq_false_2 (b' = b))].
    assert (Hk : k' <> k) by congruence. by rewrite (bool_decide_ext (k' ∈ k :: ks) (k' ∈ ks)) by set_solver.
Qed.

Lemma after_bucket_after rules now b ks m x : after_bucket rules now b ks m !! x =
  if bool_decide (x.1 = b) && bool_decide (x.2 ∈ ks) then
    v ← m !! x; if expired rules now v.2 then None else Some v
  else m !! x.
Proof.
  unfold after_bucket. rewrite map_lookup_filter. destruct x as [b' k]. destruct (m !! (b', k)) as [v|]; cbn;
    [|by destruct (_ && _)].
  destruct (bool_decide (b' = b) && bool_decide (k ∈ ks)); cbn; [|done]. by destruct (expired rules now v.2).
Qed.

Section PoolPass.
  Context `{Hashes} `{ReedSolomon} `{!ReedSolomonOk} `{UuidParser} {B W P : Type} `{!Backend B W} `{!HealBackend B}
          `{!PoolBackend B} `{!ObjectNames} `{!PoolBackendOk B W} `{!HostFs B}.
  Context (label : B -> string) (fresh : string -> string -> string) (t : Clock).
  Context `{!Json (list LifecycleRule)} `{!Json BucketLifecycleConfiguration} (modified : Path -> N) (now : N).

Local Instance the_store : LifecycleStore (option (VolumePool B P)) := pool_lifecycle fresh t.
Local Instance the_uploads : UploadFiles (option (VolumePool B P)) := pool_uploads label.

(** The settings of every bucket and its volumes are as before. *)
Definition same_settings (disks disks' : list B) : Prop :=
  same_buckets disks disks' /\ forall b, map (fun d => read_bucket_settings d b) disks' = map (fun d => read_bucket_settings d b) disks.

Lemma same_settings_refl disks : same_settings disks disks.
Proof. split; [apply same_buckets_refl|done]. Qed.

Lemma same_settings_trans l1 l2 l3 : same_settings l1 l2 -> same_settings l2 l3 -> same_settings l1 l3.
Proof. intros [Ha Hb] [Hc Hd]. split; [by eapply same_buckets_trans|]. intros b. by rewrite Hd, Hb. Qed.

Lemma changes_settings b k (disks disks' : list B) : Forall2 (only_changes b k) disks disks' -> same_settings disks disks'.
Proof.
  intros Hf. split; [by eapply changes_buckets|]. intros b'. induction Hf as [|d d' l l' Hd _ IH]; [done|]. cbn.
  by rewrite (oc_settings _ _ _ _ Hd), IH.
Qed.

(** An object of a coherent pool has the name it is stored under and is no delete marker. *)
Lemma coherent_info (p : VolumePool B P) m b k v :
  coh p m -> m !! (b, k) = Some v -> info_key v.2 = k /\ info_is_delete_marker v.2 = false.
Proof.
  intros Hco Hv. destruct (co_names _ _ _ _ _ Hco b k ltac:(eauto)) as [_ Hnm].
  destruct (co_disks _ _ _ _ _ Hco b k Hnm) as (v' & Hd & Hs).
  destruct (wc_lookup (vp_write_cache p) (b, k)) as [e|] eqn:Ew.
  - destruct (co_write _ _ _ _ _ Hco _ _ _ Ew) as (v2 & Hm & c & dn & pn & _ & _ & Hk & Hi & _).
    rewrite Hv in Hm. injection Hm as <-. by rewrite Hi.
  - rewrite (Hs eq_refl), Hv in Hd. destruct v as [data info]. destruct Hd as (c & dn & pn & dist & sh & _ & _ & Hk & Hi & _).
    cbn in Hi |- *. by rewrite Hi.
Qed.

Lemma apply_infos_pool (rules : list LifecycleRule) (b : string) (m0 m : gmap CacheKey (bytes * ObjectInfo)) (ks : list string)
    (p : VolumePool B P) (stats : PassStats) :
  validate_bucket_name b = Ok tt -> NoDup ks -> coh p m -> (forall k, k ∈ ks -> m !! (b, k) = m0 !! (b, k)) ->
  exists p' stats', apply_infos rules now b (omap (fun k => snd <$> m0 !! (b, k)) ks) (Some p) stats = (Some p', stats') /\
    coh p' (after_bucket rules now b ks m) /\ same_settings (vp_disks p) (vp_disks p').
Proof.
  intros Hb. revert p m stats. induction ks as [|k ks IH]; intros p m stats Hnd Hco Hm.
  { exists p, stats. rewrite after_bucket_nothing by set_solver. split_and!; [done|done|apply same_settings_refl]. }
  apply list.NoDup_cons in Hnd as [Hk Hnd]. pose proof (Hm k ltac:(by left)) as Hmk. cbn [omap list_omap].
  rewrite after_bucket_cons. destruct (m0 !! (b, k)) as [v|] eqn:Ev; rewrite Hmk; cbn [fmap option_fmap option_map].
  2: { apply IH; [done|done|]. intros k' Hk'. apply Hm. by right. }
  destruct (coherent_info p m b k v Hco Hmk) as [Hkey Hmark]. cbn [apply_infos].
  unfold apply_event. rewrite eval_plain by done. destruct (expired rules now v.2).
  - cbn [o_version_id info_opts]. rewrite bool_decide_eq_true_2 by done. cbn [o_name info_opts]. rewrite Hkey.
    destruct (delete_coherent p m b k Hco Hb) as (p1 & E & Hco1 & Hch); [apply (co_names _ _ _ _ _ Hco b); by eexists..|].
    rewrite bool_decide_eq_true_2 in E by by eexists.
    cbn [Lifecycle.delete_object the_store pool_lifecycle]. unfold counted, acts, on_pool. rewrite E. cbn.
    destruct (IH p1 (delete (b, k) m) (bump CDeleted (examined stats)) Hnd Hco1) as (p' & st' & E' & Hco' & Hs').
    { intros k' Hk'. rewrite lookup_delete_ne; [apply Hm; by right|congruence]. }
    exists p', st'. split_and!; [exact E'|done|]. eapply same_settings_trans; [by eapply changes_settings|done].
  - apply IH; [done|done|]. intros k' Hk'. apply Hm. by right.
Qed.

(** No volume has a versioning state for the bucket. *)
Definition unversioned (disks : list B) (b : string) : Prop :=
  forall d, d ∈ disks -> bs_versioning (read_bucket_settings d b) = None.

Definition all_keys_of (m : gmap CacheKey (bytes * ObjectInfo)) (b : string) : list string := list_spec m b "".

Lemma apply_bucket_pool (rules : list LifecycleRule) (b : string) (p : VolumePool B P) (m : gmap CacheKey (bytes * ObjectInfo)) (stats : PassStats) :
  coh p m -> live p b -> unversioned (vp_disks p) b ->
  exists p' stats', apply_bucket rules now b (Some p) stats = (Some p', stats') /\
    coh p' (after_bucket rules now b (all_keys_of m b) m) /\ same_settings (vp_disks p) (vp_disks p').
Proof.
  intros Hco Hl Hu. unfold apply_bucket. destruct (forallb _ rules) eqn:Ed.
  { exists p, stats. rewrite after_bucket_nothing by (intros k v _ _; by apply disabled_expire_nothing).
    split_and!; [done|done|apply same_settings_refl]. }
  assert (Ev : versioning_status (Some p) b = (Some p, None)).
  { cbn. unfold on_pool, get_versioning_config. rewrite (lift_ok tt) by apply Hl.
    rewrite (pool_bind_ok _ _ _ _ _ (require_bucket_ok p b Hl)). cbn. f_equal.
    replace (omap _ (vp_disks p)) with (@nil string); [done|]. symmetry.
    revert Hu. unfold unversioned. generalize (vp_disks p) as ds. induction ds as [|d ds IH]; intros Hu; [done|].
    cbn. rewrite Hu by left. apply IH. intros d' Hd'. apply Hu. by right. }
  rewrite Ev. cbn [negb].
  destruct (list_coherent p m b (mkListOptions "" "" "" 0 "") Hco Hl) as (p1 & El & Hco1 & Hd1); [done|done|].
  cbn [list_infos the_store pool_lifecycle]. unfold on_pool. rewrite El. cbn [fst snd result_ok fmap option_fmap option_map lr_objects].
  destruct (apply_infos_pool rules b m m (all_keys_of m b) p1 stats) as (p' & st' & E & Hco' & Hs');
    [apply Hl|unfold all_keys_of, list_spec; rewrite merge_sort_Permutation; apply select_keys_nodup, NoDup_fst_map_to_list|done|done|].
  exists p', st'. split_and!; [exact E|done|]. by rewrite Hd1 in Hs'.
Qed.

Definition rules_of (disks : list B) (b : string) : option (list LifecycleRule) :=
  let settings := map (fun d => read_bucket_settings d b) disks in
  bs_lifecycle (default default_settings (List.find (fun s => negb (is_default_settings s)) settings)) ≫= parse_lifecycle_config.

(** The pass removes the object. *)
Definition expires (disks : list B) (buckets : list string) (b : string) (info : ObjectInfo) : bool :=
  bool_decide (b ∈ buckets) && match rules_of disks b with Some rules => expired rules now info | None => false end.

Definition kept (disks : list B) (buckets : list string) (m : gmap CacheKey (bytes * ObjectInfo))
    : gmap CacheKey (bytes * ObjectInfo) :=
  filter (fun x : CacheKey * (bytes * ObjectInfo) => expires disks buckets x.1.1 x.2.2 = false) m.

(** A bucket the theorem is about: it exists, it has no versions, and no rule aborts uploads. *)
Definition plain_bucket (p : VolumePool B P) (b : string) : Prop :=
  live p b /\ unversioned (vp_disks p) b /\ forall rules, rules_of (vp_disks p) b = Some rules -> min_days rules = None.

Lemma rules_of_same disks disks' b : same_settings disks disks' -> rules_of disks' b = rules_of disks b.
Proof. intros [_ Hs]. unfold rules_of. by rewrite Hs. Qed.

Lemma plain_bucket_same (p p' : VolumePool B P) b :
  same_settings (vp_disks p) (vp_disks p') -> plain_bucket p b -> plain_bucket p' b.
Proof.
  intros Hs (Hl & Hu & Ha). split_and!.
  - by eapply live_changes; [apply Hs|].
  - intros d [i Hi]%list_elem_of_lookup. destruct Hs as [_ Hs]. specialize (Hs b). apply (f_equal (fun l => l !! i)) in Hs.
    rewrite !list_lookup_fmap, Hi in Hs. destruct (vp_disks p !! i) as [d0|] eqn:E; [|done]. injection Hs as ->.
    apply Hu. by eapply list_elem_of_lookup_2.
  - intros rules. rewrite (rules_of_same _ _ b Hs). apply Ha.
Qed.

Lemma kept_bucket disks b m : kept disks [b] m =
  match rules_of disks b with Some rules => after_bucket rules now b (all_keys_of m b) m | None => m end.
Proof.
  apply map_eq. intros [b' k]. unfold kept. rewrite map_lookup_filter. destruct (decide (b' = b)) as [->|Hne].
  - destruct (rules_of disks b) as [rules|] eqn:Er; [rewrite after_bucket_after; cbn|];
      destruct (m !! (b, k)) as [v|] eqn:Ev; cbn; unfold expires; rewrite ?Er.
    + rewrite (bool_decide_eq_true_2 (b ∈ [b])), (bool_decide_eq_true_2 (b = b)) by (done || by left).
      rewrite (bool_decide_eq_true_2 (k ∈ _)) by (apply elem_of_list_spec; split; [by eexists|by destruct k]).
      cbn. by destruct (expired rules now v.2).
    + by destruct (_ && _).
    + rewrite andb_false_r. done.
    + done.
  - assert (Hx : forall v, m !! (b', k) = Some v -> expires disks [b] b' v.2 = false).
    { intros v _. unfold expires. by rewrite bool_decide_eq_false_2 by set_solver. }
    destruct (rules_of disks b); [rewrite after_bucket_after; cbn; rewrite (bool_decide_eq_false_2 (b' = b)) by done; cbn|];
      destruct (m !! (b', k)) as [v|]; cbn; try done; by rewrite Hx.
Qed.

Lemma kept_cons disks b bs m : kept disks (b :: bs) m = kept disks bs (kept disks [b] m).
Proof.
  apply map_eq. intros [b' k]. unfold kept. rewrite !map_lookup_filter. destruct (m !! (b', k)) as [v|]; [|done]. cbn.
  unfold expires. rewrite (bool_decide_ext (b' ∈ b :: bs) (b' = b \/ b' ∈ bs)), (bool_decide_ext (b' ∈ [b]) (b' = b)) by set_solver.
  rewrite bool_decide_or. destruct (rules_of disks b') as [rules|];
    [destruct (expired rules now v.2) eqn:Ex|]; destruct (bool_decide (b' = b)), (bool_decide (b' ∈ bs)); cbn;
    repeat (case_guard; simplify_eq/=); congruence.
Qed.

Lemma run_bucket_pool b (p : VolumePool B P) m stats : coh p m -> plain_bucket p b ->
  exists p' stats', run_bucket modified now (Some p, stats) b = (Some p', stats') /\
    coh p' (kept (vp_disks p) [b] m) /\ same_settings (vp_disks p) (vp_disks p').
Proof.
  intros Hco (Hl & Hu & Ha). unfold run_bucket. cbn [fst snd].
  assert (Et : exists text, lifecycle_text (Some p) b = (Some p, text) /\ rules_of (vp_disks p) b = text ≫= parse_lifecycle_config).
  { eexists. cbn. unfold on_pool, get_bucket_settings. rewrite (lift_ok tt) by apply Hl.
    rewrite (pool_bind_ok _ _ _ _ _ (require_bucket_ok p b Hl)). cbn. by split. }
  destruct Et as (text & -> & Er). rewrite <- Er, kept_bucket. destruct (rules_of (vp_disks p) b) as [rules|].
  - destruct (apply_bucket_pool rules b p m (scanned stats) Hco Hl Hu) as (p' & st' & -> & Hco' & Hs').
    unfold abort_stale_multiparts, abort_cutoff. rewrite (Ha rules eq_refl). by exists p', st'.
  - exists p, (scanned stats). split_and!; [done|done|apply same_settings_refl].
Qed.

Lemma run_buckets_pool bs (p : VolumePool B P) m stats : coh p m -> (forall b, b ∈ bs -> plain_bucket p b) ->
  exists p' stats', fold_left (run_bucket modified now) bs (Some p, stats) = (Some p', stats') /\
    coh p' (kept (vp_disks p) bs m) /\ same_settings (vp_disks p) (vp_disks p').
Proof.
  revert p m stats. induction bs as [|b bs IH]; intros p m stats Hco Hp.
  { exists p, stats. replace (kept (vp_disks p) [] m) with m; [split_and!; [done|done|apply same_settings_refl]|].
    symmetry. by apply map_filter_id. }
  destruct (run_bucket_pool b p m stats Hco (Hp b ltac:(by left))) as (p1 & st1 & E1 & Hco1 & Hs1). cbn [fold_left]. rewrite E1.
  destruct (IH p1 _ st1 Hco1) as (p' & st' & E' & Hco' & Hs').
  { intros b' Hb'. apply (plain_bucket_same p); [done|]. apply Hp. by right. }
  exists p', st'. split_and!; [exact E'| |by eapply same_settings_trans].
  rewrite kept_cons. replace (kept (vp_disks p) bs (kept (vp_disks p) [b] m)) with (kept (vp_disks p1) bs (kept (vp_disks p) [b] m)); [done|].
  unfold kept at 1 3. apply map_filter_ext. intros x v _. unfold expires. by rewrite (rules_of_same _ _ _ Hs1).
Qed.

(** C18: A pass of the lifecycle engine removes exactly the expired objects.  On a pool
    whose caches and volumes agree on the objects [m], and whose buckets are unversioned
    with no rule for uploads, the pass ends without a panic, and afterwards the pool agrees
    on the objects of [m] less those whose bucket has rules that expire them at [now]; what
    they expire is decided by the evaluator from the key and the time of the object, and no
    settings change.  It is for the objects in use and volumes that keep the laws of
    [PoolBackendOk] for them, which the repository's local volume without a log does when no
    key in use lies below another (local_pool_ok); where one does, expiring the upper object
    destroys the lower one (delete_destroys_nested). *)
Theorem lifecycle_pass_exact (p : VolumePool B P) m :
  coh p m -> (forall b, b ∈ map bi_name (pool_list_buckets p) -> plain_bucket p b) ->
  exists p' stats, run_once modified now (Some p) = (Some p', stats) /\
    coh p' (kept (vp_disks p) (map bi_name (pool_list_buckets p)) m) /\ same_settings (vp_disks p) (vp_disks p').
Proof.
  intros Hco Hp. unfold run_once. cbn [Lifecycle.list_buckets the_store pool_lifecycle]. unfold on_pool, gets. cbn [fst snd result_ok].
  by apply run_buckets_pool.
Qed.
End PoolPass.

(** ** A run *)

Section Demo.
  Local Existing Instances example_hashes xor_code xor_code_ok demo_uuid all_names.

(** Volumes in memory share no file system. *)
Local Instance no_host : HostFs MemVolume := {| host_fs := fun _ => mkFS ∅ ∅; set_host_fs := fun _ ds => ds |}.

Definition day_rule : LifecycleRule :=
  mkLifecycleRule (Some "one-day") true None (Some "c") (Some (mkLifecycleExpiration (Some 1%Z) None)) None None.
Local Instance day_json : Json (list LifecycleRule) := {|
  to_json := fun _ => None; from_json := fun b => if bool_decide (b = bytes_of "one-day") then Some [day_rule] else None |}.
Local Instance config_json : Json BucketLifecycleConfiguration := {| to_json := fun _ => None; from_json := fun _ => None |}.

Definition day_settings : BucketSettings := mkBucketSettings None None None None (Some "one-day").
Definition day_disk (id : string) : MemVolume := mkMemVolume id false {[ "photos" ]} {[ "photos" := day_settings ]} ∅ ∅.
Definition day_pool : VolumePool MemVolume MemPeer :=
  mkVolumePool [day_disk "v1"; day_disk "v2"] None demo_topology None None "n1" [].

Lemma day_coh : coh day_pool ∅.
Proof.
  apply coh_start.
  - by repeat constructor.
  - cbn. lia.
  - cbn. lia.
  - done.
  - intros dn pn Hd Hp Hn. cbn in Hn. assert (pn = 1) as -> by lia. by assert (dn = 1) as -> by lia.
  - by intros c [=].
  - by intros c [=].
  - intros b k _ [|[|j]] d Hj; cbn in Hj; simplify_eq; done.
Qed.

(** Two days after a PUT the object is gone. *)
Lemma lifecycle_pass_exact_witness : exists v (p p' : VolumePool MemVolume MemPeer) stats,
  coh p {[ ("photos", "cat") := v ]} /\
  @run_once _ _ _ _ (pool_lifecycle (fun _ _ => "v1") (demo_clock 1)) (pool_uploads no_label) (fun _ => 0%N) 172801 (Some p)
    = (Some p', stats) /\ coh p' ∅.
Proof.
  destruct (put_small_coherent day_pool ∅ "photos" "cat" [bytes_of "meow"] demo_opts (demo_clock 1))
    as (p & E & Hco & Hch); [exact day_coh|done|done|done|done|by left|].
  set (v := (concat [bytes_of "meow"], _)) in Hco. exists v, p.
  vm_compute in E. injection E as <-. rewrite insert_empty in Hco.
  match type of Hco with coh ?q _ => set (p := q) in * end.
  assert (Hn : map bi_name (pool_list_buckets p) = ["photos"]) by (vm_compute; reflexivity).
  destruct (lifecycle_pass_exact no_label (fun _ _ => "v1") (demo_clock 1) (fun _ => 0%N) 172801 p {[ ("photos", "cat") := v ]} Hco)
    as (p' & stats & Er & Hco' & _).
  { intros b. rewrite Hn. intros Hb%list_elem_of_singleton. rewrite Hb. refine (conj _ (conj _ _)).
    - split; [vm_compute; reflexivity|]. vm_compute. reflexivity.
    - intros d Hd. assert (Hall : Forall (fun d => bs_versioning (read_bucket_settings d "photos") = None) (vp_disks p))
        by (repeat constructor).
      rewrite list.Forall_forall in Hall. exact (Hall d Hd).
    - intros rules Hr. vm_compute in Hr. injection Hr as <-. reflexivity. }
  exists p', stats. split; [exact Hco|]. split; [exact Er|].
  rewrite Hn in Hco'. unfold kept in Hco'. rewrite map_filter_singleton_False in Hco'; [exact Hco'|].
  intros Hx. vm_compute in Hx. discriminate Hx.
Defined.

(** ** Uploads of keys with a slash *)

Definition abort_rule : LifecycleRule := mkLifecycleRule None true None None None None (Some (Some 1%Z)).
Definition upload_root : Path := components "/d1".
Local Instance file_store : UploadFiles FS := {| upload_fs := id; set_upload_fs := fun fs _ => fs; local_roots := fun _ => [upload_root] |}.

(** The directory of an upload and those above it. *)
Definition upload_at (key : string) : FS :=
  match multipart_upload_dir upload_root "photos" key "v1" with
  | Ok dir => mkFS ∅ (list_to_set (prefixes dir))
  | Err _ => mkFS ∅ ∅
  end.
Definition abort_old (fs : FS) : FS * PassStats :=
  abort_stale_multiparts (fun _ => 1%N) [abort_rule] 172801 "photos" fs no_stats.
Definition upload_left (key : string) (fs : FS) : bool :=
  match multipart_upload_dir upload_root "photos" key "v1" with Ok dir => fs_is_dir fs dir | Err _ => false end.

(** An upload that is too old is removed when its key is one path segment.  The directories
    of a key with a slash are nested, the search looks one level deep and takes the second
    segment for the identifier: such an upload is never removed, and each pass counts it as
    aborted. *)
Theorem nested_uploads_never_aborted :
  upload_left "cat" (upload_at "cat") = true /\ upload_left "cat" (abort_old (upload_at "cat")).1 = false /\
  upload_left "pets/cat" (upload_at "pets/cat") = true /\
  upload_left "pets/cat" (abort_old (upload_at "pets/cat")).1 = true /\
  multipart_aborted (abort_old (upload_at "pets/cat")).2 = 1.
Proof. vm_compute. split_and!; reflexivity. Qed.

End Demo.
