(* ===== verification/S3Spec.v ===== *)
(** What the S3 handlers of [S3Service] promise: conditional requests, ranges and bodies;
    the object requests as operations on a map; and, in the last part, behaviours that a
    client would not expect. *)

From Stdlib Require Import Ascii ZArith.
From stdpp Require Import base list gmap strings numbers pretty sorting.
From S2P Require Import Policy.
From S2P Require Import Prelude Metadata Pathing Placement Erasure Backend ErasureDecode ErasurePut.
From S2P Require Import Caches Heal RaftFsm FileSys Materialize VolumePool PoolSpec PoolRefine PoolStream.
From S2P Require Import Multipart MultipartSpec Config Internode S3Service.

Open Scope string_scope.
Open Scope list_scope.

(** ** Conditional requests *)

(** RFC 7232, section 6: [If-Match] compares strongly and makes [If-Unmodified-Since]
    irrelevant, [If-None-Match] does so with [If-Modified-Since]. *)
Definition strong_match (c : ETagCondition) (etag : string) : bool :=
  match c with AnyETag => true | OneETag (Strong v) => bool_decide (v = etag) | OneETag (Weak _) => false end.

Definition rfc_conditionals (c : Conditions) (etag : string) (last_modified : Timestamp) : S3Result unit :=
  let proceed := match if_match c, if_unmodified_since c with
                 | Some m, _ => strong_match m etag
                 | None, Some since => bool_decide (last_modified <= since)%Z
                 | None, None => true
                 end in
  let modified := match if_none_match c, if_modified_since c with
                  | Some m, _ => negb (etag_matches m etag)
                  | None, Some since => bool_decide (since < last_modified)%Z
                  | None, None => true
                  end in
  if proceed then if modified then Ok tt else Err (s3_error S3Code.NotModified)
  else Err (s3_error S3Code.PreconditionFailed).

(** At most one condition of each kind, and no weak tag to match. *)
Definition plain_conditions (c : Conditions) : bool :=
  match if_match c, if_unmodified_since c with
  | Some (OneETag (Weak _)), _ => false
  | Some _, Some _ => false
  | _, _ => true
  end &&
  match if_none_match c, if_modified_since c with Some _, Some _ => false | _, _ => true end.

Lemma bool_decide_lt_le (a b : Z) : bool_decide (a < b)%Z = negb (bool_decide (b <= a)%Z).
Proof. repeat case_bool_decide; try done; lia. Qed.

(** C21: Conditional requests follow RFC 7232: for every object and every request with at
    most one of [If-Match] and [If-Unmodified-Since] and at most one of [If-None-Match]
    and [If-Modified-Since], and no weak tag in [If-Match], the handler proceeds, answers
    304 or answers 412 exactly as section 6 of the RFC prescribes. *)
Theorem conditionals_follow_rfc c etag last_modified :
  plain_conditions c = true ->
  check_conditionals c etag last_modified = rfc_conditionals c etag last_modified.
Proof.
  destruct c as [im inm ims ius]. unfold plain_conditions, check_conditionals, rfc_conditionals.
  cbn [if_match if_none_match if_modified_since if_unmodified_since]. intros Hp.
  assert (Hs : forall m, im = Some m -> etag_matches m etag = strong_match m etag).
  { intros m ->. destruct m as [|[v|v]]; [done..|]. by destruct ius. }
  destruct im as [m|]; [rewrite (Hs m eq_refl); clear Hs|];
    destruct ius as [u|], inm as [n|], ims as [t|]; rewrite ?bool_decide_lt_le;
    try (destruct m as [|[]]; discriminate Hp); try discriminate Hp;
    try (destruct (strong_match m etag)); try (destruct (etag_matches n etag)); repeat case_bool_decide; done.
Qed.

Lemma conditionals_follow_rfc_witness :
  check_conditionals (mkConditions None (Some (OneETag (Strong "e1"))) None (Some 9%Z)) "e1" 5 = Err (s3_error S3Code.NotModified).
Proof. by rewrite conditionals_follow_rfc by done. Defined.

(** The RFC lets a request with a matching [If-Match] through whatever
    [If-Unmodified-Since] says, and one with a failing [If-None-Match] whatever
    [If-Modified-Since] says; and it never matches a weak tag for [If-Match].  The
    handler, whose comment promises the RFC, differs in all three. *)
Theorem conditionals_differ_from_rfc :
  let both := mkConditions (Some (OneETag (Strong "e1"))) None None (Some 4%Z) in
  let fresh := mkConditions None (Some (OneETag (Strong "old"))) (Some 9%Z) None in
  let weak := mkConditions (Some (OneETag (Weak "e1"))) None None None in
  (check_conditionals both "e1" 5 = Err (s3_error S3Code.PreconditionFailed) /\ rfc_conditionals both "e1" 5 = Ok tt) /\
  (check_conditionals fresh "e1" 5 = Err (s3_error S3Code.NotModified) /\ rfc_conditionals fresh "e1" 5 = Ok tt) /\
  (check_conditionals weak "e1" 5 = Ok tt /\ rfc_conditionals weak "e1" 5 = Err (s3_error S3Code.PreconditionFailed)).
Proof. done. Qed.

(** ** Ranges *)

(** The first and the last byte a range selects of [total] bytes (RFC 7233, section 2.1),
    when there is one. *)
Definition range_bounds (total : N) (r : Range) : option (N * N) :=
  match r with
  | IntRange first last =>
      if bool_decide (first < total)%N then Some (first, N.min (default (total - 1) last) (total - 1))%N else None
  | SuffixRange len =>
      if bool_decide (0 < len)%N && bool_decide (0 < total)%N then Some (total - N.min len total, total - 1)%N else None
  end.

Definition well_formed (r : Range) : bool :=
  match r with IntRange first (Some last) => bool_decide (first <= last)%N | _ => true end.

Lemma u64_sub_le a b : (b <= a)%N -> (a < 2 ^ 64)%N -> u64_sub a b = (a - b)%N.
Proof.
  intros Hle Ha. unfold u64_sub, wrap. replace (2 ^ 64 + a - b)%N with (a - b + 1 * 2 ^ 64)%N by lia.
  rewrite N.Div0.mod_add, N.mod_small by lia. done.
Qed.

Lemma range_bounds_in total r first last :
  well_formed r = true -> range_bounds total r = Some (first, last) -> (first <= last < total)%N.
Proof.
  destruct r as [f [l|]|len]; cbn; intros Hw.
  - apply bool_decide_eq_true in Hw. case_bool_decide; [|done]. intros [= <- <-]. lia.
  - case_bool_decide; [|done]. intros [= <- <-]. lia.
  - do 2 case_bool_decide; try done. intros [= <- <-]. lia.
Qed.

Lemma range_cut (data : bytes) r :
  (N.of_nat (length data) < 2 ^ 64)%N -> well_formed r = true ->
  cut_range data r =
  Some match range_bounds (N.of_nat (length data)) r with
       | Some (first, last) =>
           (sub_list (N.to_nat first) (N.to_nat (last - first + 1)) data,
            Some ("bytes " +:+ pretty first +:+ "-" +:+ pretty last +:+ "/" +:+ pretty (N.of_nat (length data))))
       | None => (data, None)
       end.
Proof.
  intros Hlen Hw. unfold cut_range. set (total := N.of_nat (length data)) in *.
  assert (Hcut : forall first last, (first <= last < total)%N ->
    slice_incl data first last = Some (sub_list (N.to_nat first) (N.to_nat (last - first + 1)) data)).
  { intros first last Hb. unfold slice_incl. rewrite !bool_decide_eq_false_2 by lia. cbn [orb]. unfold slice, sub_list.
    rewrite decide_True by lia. do 2 f_equal. lia. }
  destruct (range_bounds total r) as [[first last]|] eqn:E.
  - pose proof (range_bounds_in _ _ _ _ Hw E) as Hb.
    destruct r as [f l|len]; cbn [range_bounds] in E; cbn beta iota zeta.
    + case_bool_decide as Hf; [|done]. injection E as <- <-. rewrite (u64_sub_le total 1) by lia.
      by rewrite Hcut by done.
    + do 2 (case_bool_decide; [|done]). injection E as <- <-. rewrite !u64_sub_le by lia.
      rewrite bool_decide_eq_true_2 by lia. by rewrite Hcut by lia.
  - destruct r as [f l|len]; cbn [range_bounds] in E; cbn beta iota zeta.
    + by case_bool_decide as Hf.
    + rewrite bool_decide_eq_false_2; [done|]. rewrite (u64_sub_le total) by lia.
      repeat case_bool_decide; try done; lia.
Qed.

(** Range requests.  For every object and every range whose first position is not
    past its last, the handler sends exactly the bytes RFC 7233 selects, with the
    [Content-Range] that names them and the length of the object, and it never panics; a
    range that selects nothing is answered with the whole object. *)
Theorem ranges_exact (data : bytes) r :
  (N.of_nat (length data) < 2 ^ 64)%N -> well_formed r = true ->
  cut_range data r =
  Some match range_bounds (N.of_nat (length data)) r with
       | Some (first, last) =>
           (sub_list (N.to_nat first) (N.to_nat (last - first + 1)) data,
            Some ("bytes " +:+ pretty first +:+ "-" +:+ pretty last +:+ "/" +:+ pretty (N.of_nat (length data))))
       | None => (data, None)
       end.
Proof. apply range_cut. Qed.

Lemma cut_range_some (data : bytes) r :
  (N.of_nat (length data) < 2 ^ 64)%N -> well_formed r = true ->
  exists body range, cut_range data r = Some (body, range) /\ (N.of_nat (length body) < 2 ^ 64)%N.
Proof.
  intros Hlen Hw. rewrite range_cut by done. destruct (range_bounds _ r) as [[f l]|]; eexists _, _; (split; [done|]); [|done].
  unfold sub_list. rewrite length_take, length_drop. lia.
Qed.

Lemma ranges_exact_witness : cut_range (bytes_of "hello world") (SuffixRange 5) = Some (bytes_of "world", Some "bytes 6-10/11").
Proof. by rewrite ranges_exact by (done || vm_compute; done). Defined.

(** A range past the end is answered with the whole object and status 200, not with 416;
    so is the empty suffix. *)
Theorem range_past_the_end : cut_range (bytes_of "hello") (IntRange 5 (Some 9%N)) = Some (bytes_of "hello", None) /\
  cut_range (bytes_of "hello") (SuffixRange 0) = Some (bytes_of "hello", None).
Proof. done. Qed.

(** ** Bodies *)

Definition blob_remaining (b : Blob) : N := match b with BChunked c => cb_remaining c | BSized s => ss_remaining s end.

(** Everything a body delivers, and the lengths it announces before each chunk. *)
Fixpoint chunked_run (fuel : nat) (c : ChunkedBytes) : list (N * bytes) :=
  match fuel, chunked_next c with
  | S fuel, Some (b, c') => (cb_remaining c, b) :: chunked_run fuel c'
  | _, _ => []
  end.

(** A body whose announced length is that of its chunks announces before every chunk
    exactly what is still to come. *)
Lemma chunked_announces chunks :
  (N.of_nat (length (concat chunks)) < 2 ^ 64)%N ->
  chunked_run (length chunks) (mkChunkedBytes chunks (N.of_nat (length (concat chunks)))) =
  imap (fun i b => (N.of_nat (length (concat (drop i chunks))), b)) chunks.
Proof.
  induction chunks as [|b chunks IH]; intros Hlen; [done|]. cbn [length chunked_run chunked_next cb_queue cb_remaining imap].
  cbn [concat] in Hlen |- *. rewrite length_app in Hlen |- *. rewrite drop_0. cbn [concat]. rewrite length_app. f_equal.
  rewrite u64_sub_le by lia. replace (N.of_nat _ - N.of_nat _)%N with (N.of_nat (length (concat chunks))) by lia.
  rewrite IH by lia. apply imap_ext. intros i x _. done.
Qed.

(** ** Streaming small objects

    The streaming reads of the pool on the objects of [coherent], which the S3 handler
    uses for a GET without a range. *)

Section Stream.
  Context `{Hashes} `{ReedSolomon} `{!ReedSolomonOk} {B W P : Type} `{!Backend B W} `{!HealBackend B} `{!PoolBackend B}
          `{!ObjectNames} `{!PoolBackendOk B W}.
  Context (block : nat) (label : B -> string) (fs_read : Path -> option bytes) (part_meta_index : bytes -> option nat).

Lemma block_chopped (data : bytes) : data <> [] -> length data <= block -> chopped block data [data].
Proof.
  intros Hne Hle. destruct (decide (length data = block)) as [He|He]; [|by apply chop_last; [done|lia]].
  rewrite <- (app_nil_r data) at 1. by apply chop_cons; [|apply chop_nil].
Qed.

Lemma placed_stream n c dn pn data dist shards disks :
  striped n c dn pn data dist shards -> placed c pn (dn + pn) data dist shards disks ->
  (0 < pn -> rs_new_ok dn pn = true) -> coded dn pn data shards -> length data <= block ->
  exists i s out, read_and_decode_stream block disks dn pn (pc_bucket c) (pc_key c)
      = Ok (shard_meta c pn data i s, map Ok out) /\ concat out = data.
Proof.
  intros Hst Hp Hrs Hc Hle. pose proof (st_pos _ _ _ _ _ _ _ Hst) as Hdn. apply (placed_le _ _ _ dn) in Hp; [|lia].
  destruct (placed_collect c dn pn data dist shards disks) as (slots & meta & Hcol & Her & Hg & i & s & ->); [done|apply Hst|done|].
  assert (Hsz : N.to_nat (size (shard_meta c pn data i s)) = length data) by (cbn; rewrite wrap_small; [lia|apply Hst]).
  unfold read_and_decode_stream, mmap_shard. fold (shard_reads disks (pc_bucket c) (pc_key c)).
  rewrite Hcol. cbn [mbind result_bind fst snd]. rewrite Hsz. exists i, s.
  destruct (decide (data = [])) as [->|Hne]; [by exists []|].
  destruct (stream_loop_ok dn pn Hdn Hrs block (length data) data [data] [shards] 0 shards slots) as (out & Hl & Ho); try done.
  - destruct data; [done|]. simpl in Hle. lia.
  - by apply block_chopped.
  - by constructor.
  - rewrite join_blocks_cons. unfold join_blocks. cbn [foldr]. rewrite zip_app_nil by apply (coded_length _ _ _ _ Hc).
    clear. induction shards as [|x l IH]; [done|]. cbn. by rewrite drop_0, IH.
  - exists out. by rewrite Hl.
Qed.

Lemma fresh_collect (disks : list B) dn n b k :
  unreadable disks b k -> collect dn n (map (fun d => result_ok (read_shard d b k)) disks) = Err ObjectNotFound.
Proof.
  intros Hf. unfold collect. replace (existsb _ _) with false; [done|]. symmetry.
  induction disks as [|d disks IH]; [done|]. cbn. pose proof (Hf 0 d eq_refl) as Hr.
  destruct (read_shard d b k); [done|]. apply IH. intros j. apply (Hf (S j)).
Qed.

Lemma fresh_mmap (disks : list B) b k : unreadable disks b k -> first_mmap b k disks = None.
Proof.
  intros Hf. unfold first_mmap, mmap_shard. induction disks as [|d disks IH]; [done|]. cbn.
  pose proof (Hf 0 d eq_refl) as Hr. destruct (read_shard d b k); [done|]. apply IH. intros j. apply (Hf (S j)).
Qed.

(** What a streaming read of the map's value [v] answers. *)
Definition streams (v : option (bytes * ObjectInfo)) (r : Result (ObjectInfo * list (Result bytes))) : Prop :=
  match v with
  | None => r = Err ObjectNotFound
  | Some (data, info) => exists items, r = Ok (info, map Ok items) /\ concat items = data
  end.

Lemma stream_from_disks_ok (p : VolumePool B P) m b k :
  coh p m -> named b k = true -> wc_lookup (vp_write_cache p) (b, k) = None ->
  (forall data info, m !! (b, k) = Some (data, info) -> length data <= block) ->
  exists p' r, stream_from_disks block label fs_read part_meta_index b k p = Some (p', r) /\
    streams (m !! (b, k)) r /\ coh p' m /\ vp_disks p' = vp_disks p.
Proof.
  intros Hco Hnm Hw Hle. destruct (co_disks _ _ _ _ _ Hco b k Hnm) as (v & Hv & Hvm). rewrite (Hvm Hw) in Hv. clear v Hvm.
  unfold stream_from_disks, gets. unfold mbind at 1, pool_bind at 1. unfold multipart_stat.
  destruct (m !! (b, k)) as [[data info]|] eqn:Em.
  - specialize (Hle _ _ eq_refl). destruct Hv as (c & dn & pn & dist & shards & Hst & <- & <- & -> & Hp).
    destruct (placed_stat _ _ _ _ _ _ _ _ (co_good _ _ _ _ _ Hco) Hnm Hst Hp) as (i & s & Hs).
    rewrite Hs. cbn [mbind option_bind]. change (is_multipart (shard_meta c pn data i s)) with false. cbn iota.
    rewrite (pool_bind_ok _ _ _ _ _ (object_ec_stat p _ _ _ Hw Hs)).
    rewrite (stripe_ec _ _ _ _ _ _ _ i s Hst (co_width _ _ _ _ _ Hco)). cbn [fst snd].
    pose proof (codes_block _ _ _ _ (st_codes _ _ _ _ _ _ _ Hst)) as Hcb.
    destruct (bool_decide (dn = 1) && bool_decide (pn = 0)) eqn:E10.
    + apply andb_true_iff in E10 as [->%bool_decide_eq_true ->%bool_decide_eq_true]. subst shards. cbn [Nat.add] in Hp.
      destruct (first_mmap_some _ _ _ _ _ _ _ Nat.lt_0_1 Hp) as (s' & meta & Hm). rewrite Hm.
      destruct (first_mmap_placed _ _ _ _ _ _ _ _ Hm Hp) as (-> & i' & ->).
      set (f := fun c0 : ReadCache.ReadCache => _). eexists _, _.
      rewrite (pool_bind_ok (on_read_cache f) _ p (set_read_cache (f <$> vp_read_cache p) p) tt eq_refl).
      split; [done|]. rewrite (stripe_info _ _ _ _ _ _ _ i' data Hst). split_and!; [|
        eapply coherent_caches; [exact Hco|done|by apply (rc_ok_put m); [apply Hco|]]|done].
      exists (slices SLICE_BYTES data). split; [done|]. apply concat_slices. unfold SLICE_BYTES. lia.
    + destruct (placed_stream _ _ _ _ _ _ _ _ Hst Hp) as (i' & s' & out & Hr & Hc); [|done|done|].
      { intros Hpn. apply (co_rs _ _ _ _ _ Hco); [apply Hst|done|apply Hst]. }
      exists p, (Ok (object_info c data, map Ok out)). rewrite (lift_ok _ _ _ _ Hr). cbn [fst snd].
      rewrite (stripe_info _ _ _ _ _ _ _ i' s' Hst). split_and!; [done| |done..]. by exists out.
  - rewrite (fresh_stat _ _ _ (co_good _ _ _ _ _ Hco) Hnm Hv). cbn [mbind option_bind].
    rewrite (pool_bind_ok _ _ _ _ _ (object_ec_none p _ _ Hw (fresh_stat _ _ _ (co_good _ _ _ _ _ Hco) Hnm Hv))).
    exists p, (Err ObjectNotFound). split_and!; try done. destruct (_ && _); [by rewrite (fresh_mmap _ _ _ Hv)|].
    unfold read_and_decode_stream, mmap_shard. by rewrite (fresh_collect _ _ _ _ _ Hv).
Qed.

(** The entry of the write cache, if there is one, has no padding. *)
Definition unpadded (p : VolumePool B P) (b k : string) : bool :=
  match wc_lookup (vp_write_cache p) (b, k) with
  | Some e => bool_decide (N.of_nat (length (concat (cached_data_shards e))) = WriteCache.original_size e)
  | None => true
  end.

Lemma stream_coherent (p : VolumePool B P) m b k :
  coh p m -> live p b -> validate_object_key k = Ok tt -> named b k = true -> unpadded p b k = true ->
  (forall data info, m !! (b, k) = Some (data, info) -> length data <= block) ->
  exists p' r, get_object_stream block label fs_read part_meta_index b k p = Some (p', r) /\
    streams (m !! (b, k)) r /\ coh p' m /\ vp_disks p' = vp_disks p.
Proof.
  intros Hco Hl Hk Hnm Hu Hle. unfold get_object_stream. rewrite (lift_ok tt) by apply Hl. rewrite (lift_ok tt) by done.
  rewrite (pool_bind_ok _ _ _ _ _ (require_bucket_ok p b Hl)). unfold unpadded in Hu.
  destruct (wc_lookup (vp_write_cache p) (b, k)) as [e|] eqn:Ew.
  - apply bool_decide_eq_true in Hu. destruct (co_write _ _ _ _ _ Hco _ _ _ Ew) as ([data info] & Hm & He).
    destruct (write_cache_get_some p b k e Ew) as (wc & Eg & Hsame). rewrite (pool_bind_ok _ _ _ _ _ Eg).
    pose proof (cached_value _ _ _ _ _ (co_width _ _ _ _ _ Hco) He) as Hcv. rewrite Hm. injection Hcv as Hd <-.
    eexists _, _. split; [done|]. split_and!; [|eapply coherent_caches; [exact Hco|done|apply Hco]|done].
    exists (cached_data_shards e). split; [done|]. rewrite <- Hd. unfold cached_data.
    rewrite take_ge; [done|]. rewrite <- Hu. lia.
  - rewrite (pool_bind_ok _ _ _ _ _ (write_cache_get_none p b k Ew)). unfold read_cache_get, mbind, pool_bind.
    destruct (vp_read_cache p) as [c|] eqn:Ec; [|by apply stream_from_disks_ok].
    destruct (ReadCache.get c b k) as [c' [e|]] eqn:Eg.
    + apply get_found in Eg as [Hin Hsub]. pose proof (co_read _ _ _ _ _ Hco c _ Ec Hin) as Hm. cbn in Hm.
      eexists _, _. split; [done|]. split_and!; [rewrite Hm; exists [ReadCache.data e]; cbn; by rewrite app_nil_r| |done].
      eapply coherent_caches; [exact Hco|done|]. intros ? x [= <-] Hx. apply (co_read _ _ _ _ _ Hco c); [done|by apply Hsub].
    + apply get_missed in Eg as ->.
      destruct (stream_from_disks_ok (set_read_cache (Some (ReadCache.record_miss c)) p) m b k) as (p' & r & ? & ? & ? & ?);
        [eapply coherent_caches; [exact Hco|done|]|done..|].
      * intros ? x [= <-] Hx. by apply (co_read _ _ _ _ _ Hco c).
      * by exists p', r.
Qed.

End Stream.

(** ** Object requests as operations on a map *)

Inductive s3_req : Type :=
| RPut (i : PutObjectInput) (uuid : string) (t : Clock)
| RGet (i : GetObjectInput)
| RHead (b k : string) (c : Conditions)
| RDelete (b k uuid : string) (t : Clock)
| RDeleteMany (b : string) (ks : list string)
| RList (i : ListObjectsInput).

(** An answer to a GET as the client sees it: the body whatever its chunks, and the
    length announced for it. *)
Record Got : Type := mkGot {
  got_body : result string bytes;
  got_announced : N;
  got_content_length : Z;
  got_content_type : string;
  got_e_tag : ETag;
  got_last_modified : Timestamp;
  got_metadata : option (gmap string string);
  got_content_range : option string;
  got_version_id : option string;
}.

Definition delivered (b : Blob) : result string bytes :=
  match b with
  | BChunked c => Ok (concat (cb_queue c))
  | BSized s => @concat _ <$> foldr (fun i l => x ← i; xs ← l; Ok (x :: xs)) (Ok []) (ss_inner s)
  end.

Definition got (o : GetObjectOutput) : Got :=
  mkGot (delivered (go_body o)) (blob_remaining (go_body o)) (go_content_length o) (go_content_type o) (go_e_tag o)
    (go_last_modified o) (go_metadata o) (go_content_range o) (go_version_id o).

Inductive s3_ans : Type :=
| APut (r : S3Result PutObjectOutput)
| AGet (r : S3Result Got)
| AHead (r : S3Result HeadObjectOutput)
| ADelete (r : S3Result DeleteObjectOutput)
| ADeleteMany (r : S3Result (list string * option (list DeleteError)))
| AList (r : S3Result ListObjectsOutput).

(** The chunks of a body without errors; no body is one empty chunk. *)
Fixpoint ok_chunks (items : Body) : option (list bytes) :=
  match items with
  | [] => Some []
  | Ok c :: items => (c ::.) <$> ok_chunks items
  | Err _ :: _ => None
  end.
Definition body_chunks (b : option Body) : option (list bytes) :=
  match b with Some items => ok_chunks items | None => Some [[]] end.

(** *** The map *)

Section Spec.
  Context `{Hashes}.

Abbreviation Objects := (gmap CacheKey (bytes * ObjectInfo)).

Definition answer_get (c : Conditions) (r : option Range) (v : bytes * ObjectInfo) : S3Result Got :=
  let info := v.2 in
  _ ← check_conditionals c (info_etag info) (timestamp_to_s3 (info_created_at info));
  let cut := default (v.1, None) (r ≫= cut_range v.1) in
  let len := N.of_nat (length cut.1) in
  Ok (mkGot (Ok cut.1) len (as_i64 len) (info_content_type info) (Strong (info_etag info))
    (timestamp_to_s3 (info_created_at info)) (metadata_of (info_user_metadata info)) cut.2 None).

Definition answer_head (c : Conditions) (v : bytes * ObjectInfo) : S3Result HeadObjectOutput :=
  let info := v.2 in
  _ ← check_conditionals c (info_etag info) (timestamp_to_s3 (info_created_at info));
  Ok (mkHeadObjectOutput (as_i64 (N.of_nat (length v.1))) (info_content_type info) (Strong (info_etag info))
    (timestamp_to_s3 (info_created_at info)) (metadata_of (info_user_metadata info)) None).

Fixpoint delete_spec (m : Objects) (b : string) (ks deleted : list string) (errors : list DeleteError)
    : Objects * (list string * list DeleteError) :=
  match ks with
  | [] => (m, (deleted, errors))
  | k :: ks =>
      if bool_decide (is_Some (m !! (b, k))) then delete_spec (delete (b, k) m) b ks (deleted ++ [k]) errors
      else delete_spec m b ks deleted (errors ++ [mkDeleteError None k None])
  end.

Definition no_such_key : S3Error := s3_error S3Code.NoSuchKey.

Definition s3_spec (m : Objects) (req : s3_req) : Objects * s3_ans :=
  match req with
  | RPut i _ t =>
      let data := concat (default [] (body_chunks (pi_body i))) in
      let info := small_info (pi_bucket i) (pi_key i) (put_options i) data (now_secs t) in
      (<[(pi_bucket i, pi_key i) := (data, info)]> m, APut (Ok (mkPutObjectOutput (Strong (info_etag info)) None)))
  | RGet i => (m, AGet (v ← ok_or (m !! (gi_bucket i, gi_key i)) no_such_key; answer_get (gi_conditions i) (gi_range i) v))
  | RHead b k c => (m, AHead (v ← ok_or (m !! (b, k)) no_such_key; answer_head c v))
  | RDelete b k _ _ =>
      (delete (b, k) m, ADelete (if bool_decide (is_Some (m !! (b, k))) then Ok (mkDeleteObjectOutput None None)
                                 else Err no_such_key))
  | RDeleteMany b ks => let r := delete_spec m b ks [] [] in (r.1, ADeleteMany (Ok (r.2.1, non_empty r.2.2)))
  | RList i =>
      let objects := omap (fun k => snd <$> m !! (li_bucket i, k)) (list_spec m (li_bucket i) (default "" (li_prefix i))) in
      let max := as_usize (default 1000%Z (li_max_keys i)) in
      let max := if bool_decide (max = 0) then N.to_nat 1000 else max in
      (m, AList (Ok (mkListObjectsOutput (map object_entry objects) None (li_delimiter i)
                       (bool_decide (max < length objects + 0)) (default 1000%Z (li_max_keys i)) (li_bucket i) (li_prefix i))))
  end.

Fixpoint s3_spec_run (m : Objects) (reqs : list s3_req) : Objects * list s3_ans :=
  match reqs with
  | [] => (m, [])
  | req :: reqs => let r := s3_spec m req in let rest := s3_spec_run r.1 reqs in (rest.1, r.2 :: rest.2)
  end.

End Spec.

(** *** The service *)

Section Service.
  Context `{Hashes} `{ReedSolomon} `{UuidParser} `{!Json UploadMeta} `{!Json PartFileMeta}.
  Context {B W P : Type} `{!Backend B W} `{!HealBackend B} `{!PoolBackend B} `{!PeerCache P} `{!HostFs B} `{ObjectNames}.
  Context (block : nat) (label : B -> string).

Definition s3_step (s : AbixioS3 B P) (req : s3_req) : option (AbixioS3 B P * s3_ans) :=
  match req with
  | RPut i uuid t => r ← s3_put_object block i uuid t s; Some (r.1, APut r.2)
  | RGet i => r ← s3_get_object block label i s; Some (r.1, AGet (got <$> r.2))
  | RHead b k c => r ← s3_head_object b k c s; Some (r.1, AHead r.2)
  | RDelete b k uuid t => r ← s3_delete_object b k None uuid t s; Some (r.1, ADelete r.2)
  | RDeleteMany b ks => r ← s3_delete_objects b ks s; Some (r.1, ADeleteMany r.2)
  | RList i => r ← s3_list_objects i s; Some (r.1, AList r.2)
  end.

Fixpoint s3_run (s : AbixioS3 B P) (reqs : list s3_req) : option (AbixioS3 B P * list s3_ans) :=
  match reqs with
  | [] => Some (s, [])
  | req :: reqs => r ← s3_step s req; rest ← s3_run r.1 reqs; Some (rest.1, r.2 :: rest.2)
  end.

(** The bucket is not versioned, as the service sees it. *)
Definition unversioned (s : AbixioS3 B P) (b : string) : bool :=
  match cached_versioning_config b s with
  | Some (_, Ok r) => bool_decide (versioning_state r = None)
  | _ => false
  end.

(** A PUT is a small one that the pool admits; a GET without a range is of an object
    that fits a block and has no padding in the write cache; a range has its ends in
    order; a listing has no delimiter. *)
Definition s3_admissible (m : gmap CacheKey (bytes * ObjectInfo)) (s : AbixioS3 B P) (req : s3_req) : bool :=
  let p := s3_store s in
  match req with
  | RPut i _ t =>
      unversioned s (pi_bucket i) &&
      match body_chunks (pi_body i), pi_content_length i with
      | Some chunks, Some len => admissible p (OpPut (pi_bucket i) (pi_key i) chunks (put_options i) (as_usize len) t)
      | _, _ => false
      end
  | RGet i =>
      admissible p (OpGet (gi_bucket i) (gi_key i)) && bool_decide (gi_version_id i = None) &&
      match gi_range i with
      | Some r => well_formed r
      | None => unpadded p (gi_bucket i) (gi_key i) &&
                match m !! (gi_bucket i, gi_key i) with Some (data, _) => bool_decide (length data <= block) | None => true end
      end
  | RHead b k _ => admissible p (OpHead b k)
  | RDelete b k _ _ => unversioned s b && admissible p (OpDelete b k)
  | RDeleteMany b ks => forallb (fun k => admissible p (OpDelete b k)) ks
  | RList i => bool_decide (default "" (li_delimiter i) = "") && admissible p (OpList (li_bucket i) (default "" (li_prefix i)) 0)
  end.

Fixpoint s3_admissible_run (m : gmap CacheKey (bytes * ObjectInfo)) (s : AbixioS3 B P) (reqs : list s3_req) : bool :=
  match reqs with
  | [] => true
  | req :: reqs => s3_admissible m s req &&
                   match s3_step s req with Some (s', _) => s3_admissible_run (s3_spec m req).1 s' reqs | None => false end
  end.

(** *** Running an operation of the store *)

Lemma s3_bind_ok {A C : Type} (m : S3M B P A) (f : A -> S3M B P C) s s' a :
  m s = Some (s', Ok a) -> (m ≫= f) s = f a s'.
Proof. intros E. unfold mbind, s3_bind. by rewrite E. Qed.

Lemma s3_bind_err {A C : Type} (m : S3M B P A) (f : A -> S3M B P C) s s' e :
  m s = Some (s', Err e) -> (m ≫= f) s = Some (s', Err e).
Proof. intros E. unfold mbind, s3_bind. by rewrite E. Qed.

Lemma on_store_run {A : Type} (m : PoolM B P A) s p' r :
  m (s3_store s) = Some (p', r) -> on_store m s = Some (set_store p' s, Prelude.map_err map_err r).
Proof. intros E. unfold on_store, try_store, mbind, s3_bind. by rewrite E. Qed.

Lemma on_store_bind {A C : Type} (m : PoolM B P A) (f : A -> S3M B P C) s p' r :
  m (s3_store s) = Some (p', r) ->
  (on_store m ≫= f) s = match r with Ok a => f a (set_store p' s) | Err e => Some (set_store p' s, Err (map_err e)) end.
Proof. intros E. unfold mbind, s3_bind. rewrite (on_store_run _ _ _ _ E). by destruct r. Qed.

Lemma require_bucket_pure (p : VolumePool B P) b : exists r, require_bucket b p = Some (p, r).
Proof.
  unfold require_bucket, head_bucket, gets, mbind, pool_bind, lift. destruct (validate_bucket_name b); [|by eexists].
  case_bool_decide; by eexists.
Qed.

Lemma get_versioning_pure (p : VolumePool B P) b : exists r, get_versioning_config b p = Some (p, r).
Proof.
  unfold get_versioning_config, mbind, pool_bind, lift. destruct (validate_bucket_name b); [|by eexists].
  destruct (require_bucket_pure p b) as [[] ->]; by eexists.
Qed.

Lemma cached_config_run (s : AbixioS3 B P) b :
  exists s' r, cached_versioning_config b s = Some (s', Ok r) /\ s3_store s' = s3_store s.
Proof.
  unfold cached_versioning_config. destruct (s3_versioning_cache s !! b) as [c|]; [by eexists _, _|].
  destruct (get_versioning_pure (s3_store s) b) as [r E]. rewrite E. cbn [mbind option_bind fst snd].
  destruct r; by eexists _, _.
Qed.

Lemma unversioned_run (s : AbixioS3 B P) b :
  unversioned s b = true ->
  exists s' r, cached_versioning_config b s = Some (s', Ok r) /\ s3_store s' = s3_store s /\ versioning_state r = None.
Proof.
  unfold unversioned. destruct (cached_config_run s b) as (s' & r & E & Hs). rewrite E.
  intros Hv%bool_decide_eq_true. by exists s', r.
Qed.

Lemma ok_chunks_stream items chunks : ok_chunks items = Some chunks -> map (Prelude.map_err Io) items = map Ok chunks.
Proof.
  revert chunks. induction items as [|[c|e] items IH]; intros chunks E; cbn in E; [by injection E as <-| |done].
  destruct (ok_chunks items) as [cs|]; [|done]. injection E as <-. cbn. by rewrite (IH cs).
Qed.

Lemma body_chunks_stream b chunks : body_chunks b = Some chunks -> body_stream b = map Ok chunks.
Proof. destruct b as [items|]; cbn; [apply ok_chunks_stream|by intros [= <-]]. Qed.

Lemma collect_ok items : collect_stream (map Ok items) = Ok items.
Proof. induction items as [|x items IH]; cbn; [done|]. by rewrite IH. Qed.

Lemma delivered_sized items n :
  delivered (BSized (mkSizedStream (map (Prelude.map_err display) (map Ok items)) n)) = Ok (concat items).
Proof.
  cbn. replace (foldr _ _ _) with (@Ok string _ items); [done|].
  induction items as [|x items IH]; cbn; [done|]. by rewrite <- IH.
Qed.

Context `{!ReedSolomonOk} `{!PoolBackendOk B W}.

(** What [coherent] says of the description of an object. *)
Lemma coh_info (p : VolumePool B P) m b k data info :
  coh p m -> m !! (b, k) = Some (data, info) ->
  info_size info = N.of_nat (length data) /\ info_version_id info = "" /\ (N.of_nat (length data) < 2 ^ 64)%N.
Proof.
  intros Hco Hm.
  assert (Hst : exists n c dn pn dist shards, striped n c dn pn data dist shards /\ info = object_info c data).
  { destruct (wc_lookup (vp_write_cache p) (b, k)) as [e|] eqn:Ew.
    - destruct (co_write _ _ _ _ _ Hco _ _ _ Ew) as (v & Hv & c & dn & pn & Hst & _ & _ & Hi & _).
      rewrite Hm in Hv. injection Hv as <-. by eexists _, c, dn, pn, _, _.
    - destruct (co_names _ _ _ _ _ Hco b k ltac:(eauto)) as [_ Hnm].
      destruct (co_disks _ _ _ _ _ Hco b k Hnm) as (v & Hv & Hvm). rewrite (Hvm Ew), Hm in Hv.
      destruct Hv as (c & dn & pn & dist & shards & Hst & _ & _ & Hi & _). by eexists _, c, dn, pn, _, _. }
  destruct Hst as (n & c & dn & pn & dist & shards & Hst & ->). pose proof (st_width _ _ _ _ _ _ _ Hst) as Hw.
  cbn. rewrite wrap_small by done. split_and!; [done| |done]. by rewrite (st_version _ _ _ _ _ _ _ Hst).
Qed.


Abbreviation Refines s m req :=
  (exists s', s3_step s req = Some (s', (s3_spec m req).2) /\ coh (s3_store s') (s3_spec m req).1).

(** A step of the pool that implements its map. *)
Lemma pool_step_of (s : AbixioS3 B P) m op :
  coh (s3_store s) m -> admissible (s3_store s) op = true ->
  exists p', pool_step block label (fs_read (host_fs (vp_disks (s3_store s)))) part_index (s3_store s) op
      = Some (p', (pool_spec m op).2) /\ coh p' (pool_spec m op).1.
Proof. intros Hco Ha. by apply pool_step_refines. Qed.

Lemma put_refines (s : AbixioS3 B P) m i uuid t :
  coh (s3_store s) m -> s3_admissible m s (RPut i uuid t) = true -> Refines s m (RPut i uuid t).
Proof.
  intros Hco Ha. cbn [s3_admissible] in Ha. apply andb_true_iff in Ha as [Hv Ha].
  destruct (body_chunks (pi_body i)) as [chunks|] eqn:Eb; [|done].
  destruct (pi_content_length i) as [len|] eqn:El; [|done].
  destruct (unversioned_run s _ Hv) as (s1 & r & Ec & Hs1 & Hr).
  destruct (pool_step_of s m _ Hco Ha) as (p' & E & Hco'). cbn [pool_step] in E. apply bind_Some in E as ([q o] & E & [= <- Ho]).
  subst o. cbn [s3_step]. unfold s3_put_object.
  rewrite (s3_bind_ok _ _ _ _ _ Ec). cbv zeta. rewrite Hr. rewrite !bool_decide_eq_false_2 by done.
  rewrite (body_chunks_stream _ _ Eb), El. cbn [fmap option_fmap option_map]. rewrite <- Hs1 in E.
  rewrite (s3_bind_ok _ _ _ _ _ (on_store_run _ _ _ _ E)). cbn [s3_spec fst snd]. rewrite Eb. cbn [default].
  eexists. split; [done|]. done.
Qed.

Lemma got_output info data range blob :
  delivered blob = Ok data -> blob_remaining blob = N.of_nat (length data) -> info_version_id info = "" ->
  got (get_output blob (as_i64 (N.of_nat (length data))) info range) =
  mkGot (Ok data) (N.of_nat (length data)) (as_i64 (N.of_nat (length data))) (info_content_type info) (Strong (info_etag info))
    (timestamp_to_s3 (info_created_at info)) (metadata_of (info_user_metadata info)) range None.
Proof. intros Hd Hr Hv. unfold got, get_output. cbn. by rewrite Hd, Hr, Hv. Qed.

Lemma buffered_refines (s : AbixioS3 B P) m i r :
  coh (s3_store s) m -> admissible (s3_store s) (OpGet (gi_bucket i) (gi_key i)) = true ->
  gi_version_id i = None -> gi_range i = Some r -> well_formed r = true -> Refines s m (RGet i).
Proof.
  intros Hco Ha Hv Hr Hw. destruct (pool_step_of s m _ Hco Ha) as (p' & E & Hco'). cbn [pool_step] in E.
  apply bind_Some in E as ([q o] & E & [= <- Ho]). cbn [pool_spec fst snd] in Hco'. subst o. cbn [s3_step s3_spec fst snd].
  unfold s3_get_object. rewrite Hr, Hv. cbn [orb bool_decide]. rewrite (bool_decide_eq_true_2 (is_Some (Some r))) by done.
  cbn [orb]. unfold get_object_buffered. rewrite Hv, Hr.
  pose proof (on_store_run (store_get label (gi_bucket i) (gi_key i)) s _ _ E) as Eo.
  destruct (m !! (gi_bucket i, gi_key i)) as [[data info]|] eqn:Em; cbn [ok_or Prelude.map_err] in Eo.
  - destruct (coh_info _ _ _ _ _ _ Hco Em) as (Hsz & Hvid & Hlen). rewrite (s3_bind_ok _ _ _ _ _ Eo). cbn [ok_or mbind result_bind].
    unfold answer_get. cbn [fst snd]. unfold s3_lift at 1. destruct (check_conditionals _ _ _) as [[]|e].
    + destruct (cut_range_some data r Hlen Hw) as (body & range & Ecut & Hb). cbn [mbind option_bind default]. rewrite Ecut.
      exists (set_store q s). split; [|exact Hco']. cbv [mbind s3_bind s3_unwrap mret s3_ret option_bind result_bind].
      cbn [fst snd default fmap result_fmap]. do 4 f_equal. apply got_output; [|cbn; by rewrite wrap_small|done]. cbn. by rewrite app_nil_r.
    + rewrite (s3_bind_err _ _ _ _ _ eq_refl). by eexists.
  - rewrite (s3_bind_err _ _ _ _ _ Eo). by eexists.
Qed.

Lemma streaming_refines (s : AbixioS3 B P) m i :
  coh (s3_store s) m -> admissible (s3_store s) (OpGet (gi_bucket i) (gi_key i)) = true ->
  gi_version_id i = None -> gi_range i = None -> unpadded (s3_store s) (gi_bucket i) (gi_key i) = true ->
  (forall data info, m !! (gi_bucket i, gi_key i) = Some (data, info) -> length data <= block) -> Refines s m (RGet i).
Proof.
  intros Hco Ha Hv Hr Hu Hle. cbn [admissible] in Ha. apply andb_true_iff in Ha as [Hl%bucket_live_ok [Hk%is_ok_unit Hnm]%andb_true_iff].
  destruct (stream_coherent block label (fs_read (host_fs (vp_disks (s3_store s)))) part_index (s3_store s) m _ _ Hco Hl Hk Hnm Hu Hle)
    as (p' & r & E & Hst & Hco' & _). cbn [s3_step s3_spec fst snd]. unfold s3_get_object. rewrite Hr, Hv.
  rewrite !(bool_decide_eq_false_2 (is_Some None)) by by intros []. cbn [orb].
  pose proof (on_store_run (store_stream block label (gi_bucket i) (gi_key i)) s _ _ E) as Eo.
  destruct (m !! (gi_bucket i, gi_key i)) as [[data info]|] eqn:Em; cbn [streams] in Hst.
  - destruct Hst as (items & -> & Hc). destruct (coh_info _ _ _ _ _ _ Hco Em) as (Hsz & Hvid & Hlen).
    rewrite (s3_bind_ok _ _ _ _ _ Eo). unfold answer_get. cbn [ok_or mbind result_bind fst snd].
    unfold s3_lift at 1. destruct (check_conditionals _ _ _) as [[]|e]; [|rewrite (s3_bind_err _ _ _ _ _ eq_refl); by eexists].
    exists (set_store p' s). split; [|exact Hco'].
    rewrite (s3_bind_ok _ _ (set_store p' s) (set_store p' s) tt eq_refl). rewrite Hsz. unfold s3_lift. rewrite collect_ok.
    cbv [result_bind]. cbn [default fst snd].
    case_bool_decide; cbv [mbind s3_bind mret s3_ret option_bind]; cbn [fst snd fmap result_fmap]; do 4 f_equal;
      apply got_output; try done; [cbn; by rewrite Hc|]. rewrite delivered_sized. by rewrite Hc.
  - subst r. rewrite (s3_bind_err _ _ _ _ _ Eo). by eexists.
Qed.

Lemma head_refines (s : AbixioS3 B P) m b k c :
  coh (s3_store s) m -> admissible (s3_store s) (OpHead b k) = true -> Refines s m (RHead b k c).
Proof.
  intros Hco Ha. destruct (pool_step_of s m _ Hco Ha) as (p' & E & Hco'). cbn [pool_step] in E.
  apply bind_Some in E as ([q o] & E & [= <- Ho]). cbn [pool_spec fst snd] in Hco'. subst o. cbn [s3_step s3_spec fst snd].
  unfold s3_head_object. pose proof (on_store_run (head_object b k) s _ _ E) as Eo.
  destruct (m !! (b, k)) as [[data info]|] eqn:Em; cbn [ok_or fmap result_fmap Prelude.map_err snd] in Eo.
  - destruct (coh_info _ _ _ _ _ _ Hco Em) as (Hsz & Hvid & Hlen). rewrite (s3_bind_ok _ _ _ _ _ Eo).
    unfold answer_head. cbn [ok_or mbind result_bind fst snd]. unfold s3_lift at 1.
    destruct (check_conditionals _ _ _) as [[]|e]; [|rewrite (s3_bind_err _ _ _ _ _ eq_refl); by eexists].
    rewrite (s3_bind_ok _ _ (set_store q s) (set_store q s) tt eq_refl), Hsz, Hvid. by eexists.
  - rewrite (s3_bind_err _ _ _ _ _ Eo). by eexists.
Qed.

Lemma delete_step (s : AbixioS3 B P) m b k :
  coh (s3_store s) m -> admissible (s3_store s) (OpDelete b k) = true ->
  exists p', pool_delete_object b k (s3_store s)
      = Some (p', if bool_decide (is_Some (m !! (b, k))) then Ok tt else Err ObjectNotFound) /\ coh p' (delete (b, k) m).
Proof.
  intros Hco Ha. destruct (pool_step_of s m _ Hco Ha) as (p' & E & Hco'). cbn [pool_step] in E.
  apply bind_Some in E as ([q o] & E & [= <- Ho]). subst o. by exists q.
Qed.

Lemma delete_refines (s : AbixioS3 B P) m b k uuid t :
  coh (s3_store s) m -> s3_admissible m s (RDelete b k uuid t) = true -> Refines s m (RDelete b k uuid t).
Proof.
  intros Hco Ha. cbn [s3_admissible] in Ha. apply andb_true_iff in Ha as [Hv Ha].
  destruct (unversioned_run s _ Hv) as (s1 & r & Ec & Hs1 & Hr). rewrite <- Hs1 in Hco, Ha.
  destruct (delete_step s1 m b k Hco Ha) as (p' & E & Hco'). cbn [s3_step s3_spec fst snd]. unfold s3_delete_object.
  rewrite (s3_bind_ok _ _ _ _ _ Ec), Hr. rewrite !(bool_decide_eq_false_2 (None = _)) by done. cbn [orb].
  pose proof (on_store_run (pool_delete_object b k) s1 _ _ E) as Eo. case_bool_decide; cbn [Prelude.map_err] in Eo.
  - rewrite (s3_bind_ok _ _ _ _ _ Eo). by eexists.
  - rewrite (s3_bind_err _ _ _ _ _ Eo). by eexists.
Qed.

Lemma delete_each_ok (s : AbixioS3 B P) m b ks deleted errors :
  coh (s3_store s) m -> Forall (fun k => is_ok (validate_bucket_name b) && (is_ok (validate_object_key k) && named b k) = true) ks ->
  exists s', delete_each b ks deleted errors s = Some (s', Ok (delete_spec m b ks deleted errors).2) /\
    coh (s3_store s') (delete_spec m b ks deleted errors).1.
Proof.
  revert s m deleted errors. induction ks as [|k ks IH]; intros s m deleted errors Hco Hk; [by exists s|].
  apply Forall_cons_1 in Hk as [Hk Hks]. destruct (delete_step s m b k Hco Hk) as (p' & E & Hco').
  cbn [delete_each delete_spec].
  assert (Et : try_store (pool_delete_object b k) s =
    Some (set_store p' s, Ok (if bool_decide (is_Some (m !! (b, k))) then Ok tt else Err ObjectNotFound))).
  { unfold try_store. by rewrite E. }
  rewrite (s3_bind_ok _ _ _ _ _ Et). case_bool_decide as Hm; [by apply IH|].
  apply IH; [|done]. rewrite delete_id in Hco' by (by apply eq_None_not_Some). done.
Qed.

Lemma list_refines (s : AbixioS3 B P) m i :
  coh (s3_store s) m -> s3_admissible m s (RList i) = true -> Refines s m (RList i).
Proof.
  intros Hco Ha. cbn [s3_admissible] in Ha. apply andb_true_iff in Ha as [Hd%bool_decide_eq_true Ha].
  destruct (pool_step_of s m (OpList (li_bucket i) (default "" (li_prefix i)) (as_usize (default 1000%Z (li_max_keys i)))) Hco Ha)
    as (p' & E & Hco'). cbn [pool_step] in E. apply bind_Some in E as ([q o] & E & [= <- Ho]). subst o.
  cbn [s3_step s3_spec fst snd]. unfold s3_list_objects.
  replace (mkListOptions _ _ _ _ _) with (list_options i) in E by (unfold list_options; by rewrite Hd).
  rewrite (s3_bind_ok _ _ _ _ _ (on_store_run _ s _ _ E)). by eexists.
Qed.

Lemma s3_step_refines (s : AbixioS3 B P) m req :
  coh (s3_store s) m -> s3_admissible m s req = true -> Refines s m req.
Proof.
  intros Hco Ha. destruct req as [i uuid t|i|b k c|b k uuid t|b ks|i].
  - by apply put_refines.
  - cbn [s3_admissible] in Ha. apply andb_true_iff in Ha as [[Ha Hv%bool_decide_eq_true]%andb_true_iff Hr].
    destruct (gi_range i) as [r|] eqn:Er; [by apply (buffered_refines s m i r)|].
    apply andb_true_iff in Hr as [Hu Hm]. apply streaming_refines; try done.
    intros data info Em. rewrite Em in Hm. by apply bool_decide_eq_true in Hm.
  - by apply head_refines.
  - by apply delete_refines.
  - cbn [s3_admissible admissible] in Ha. rewrite forallb_forall in Ha.
    destruct (delete_each_ok s m b ks [] [] Hco) as (s' & E & Hco').
    { apply list.Forall_forall. intros k Hk. apply Ha. by apply list_elem_of_In. }
    cbn [s3_step s3_spec fst snd]. unfold s3_delete_objects. rewrite (s3_bind_ok _ _ _ _ _ E). by exists s'.
  - by apply list_refines.
Qed.

End Service.

