(* ===== verification/S3Settings.v ===== *)
(** The S3 requests on a bucket's settings (tags, versioning, policy and lifecycle of
    [src/s3_service.rs]) as operations on a view of each bucket, and the versioning cache
    that PUT and DELETE decide by. *)

From Stdlib Require Import Ascii ZArith.
From stdpp Require Import base list gmap strings numbers pretty sorting.
From S2P Require Import Policy.
From S2P Require Import Prelude Metadata Pathing Placement Erasure Backend ErasureDecode ErasurePut.
From S2P Require Import Caches Heal RaftFsm VolumePool PoolSpec PoolRefine PoolStream PoolSettings.
From S2P Require Import S3Service S3Spec.

Open Scope string_scope.
Open Scope list_scope.

(** What the JSON crate promises for [Value]: texts read back, [null] is the text of the
    null value, and the empty text is none. *)
Class JsonValueOk `{Json Value} : Prop := {
  value_reads_back :: JsonOk Value;
  null_reads : from_json (bytes_of "null") = Some Null;
  empty_value : @from_json Value _ [] = None;
}.

Class JsonRulesOk (Rule : Type) `{Json (list Rule)} : Prop := {
  rules_read_back :: JsonOk (list Rule);
  empty_rules : @from_json (list Rule) _ [] = None;
}.

(** ** Requests, answers and the view of a bucket *)

Section Requests.
  Context {Rule : Type}.

Inductive set_req : Type :=
| QGetTags
| QPutTags (ts : list (option string * option string))
| QDeleteTags
| QGetVersioning
| QPutVersioning (status : option string)
| QDecide
| QGetPolicy
| QPutPolicy (text : string)
| QDeletePolicy
| QGetLifecycle
| QPutLifecycle (rules : option (list Rule))
| QDeleteLifecycle.

Inductive set_ans : Type :=
| QDone (r : S3Result unit)
| QTags (r : S3Result (list (string * string)))
| QVersioning (r : S3Result (option string))
| QDecision (state : option string)
| QPolicy (r : S3Result string)
| QLifecycle (r : S3Result (list Rule)).

Record BucketView : Type := mkBucketView {
  bv_versioning : option string;
  bv_tags : gmap string string;
  bv_policy : option Value;
  bv_lifecycle : option (list Rule);
}.

Definition view_versioning (x : option string) (v : BucketView) : BucketView :=
  mkBucketView x (bv_tags v) (bv_policy v) (bv_lifecycle v).
Definition view_tags (x : gmap string string) (v : BucketView) : BucketView :=
  mkBucketView (bv_versioning v) x (bv_policy v) (bv_lifecycle v).
Definition view_policy (x : option Value) (v : BucketView) : BucketView :=
  mkBucketView (bv_versioning v) (bv_tags v) x (bv_lifecycle v).
Definition view_lifecycle (x : option (list Rule)) (v : BucketView) : BucketView :=
  mkBucketView (bv_versioning v) (bv_tags v) (bv_policy v) x.

(** A policy that a PUT accepts: JSON with a version. *)
Definition accepted_policy `{!Json Value} (text : string) : S3Result Value :=
  v ← ok_or (from_json (bytes_of text)) (s3_error_msg S3Code.MalformedPolicy "invalid JSON");
  if bool_decide (policy_version v = "") then Err (s3_error_msg S3Code.MalformedPolicy "missing or empty Version field")
  else Ok v.

Definition view_step `{!Json Value} (v : BucketView) (q : set_req) : BucketView * set_ans :=
  match q with
  | QGetTags => (v, QTags (Ok (map_to_list (bv_tags v))))
  | QPutTags ts => (view_tags (tag_map ts) v, QDone (Ok tt))
  | QDeleteTags => (view_tags ∅ v, QDone (Ok tt))
  | QGetVersioning => (v, QVersioning (Ok (bv_versioning v)))
  | QDecide => (v, QDecision (bv_versioning v))
  | QPutVersioning status =>
      if bool_decide (status = Some "Enabled") || bool_decide (status = Some "Suspended")
      then (view_versioning status v, QDone (Ok tt))
      else (v, QDone (Err (s3_error_msg S3Code.MalformedXML "invalid versioning status")))
  | QGetPolicy => (v, QPolicy (x ← ok_or (bv_policy v) (s3_error S3Code.NoSuchBucketPolicy);
                               Ok (default "" (string_of <$> to_json x))))
  | QPutPolicy text =>
      match accepted_policy text with
      | Ok x => (view_policy (Some x) v, QDone (Ok tt))
      | Err e => (v, QDone (Err e))
      end
  | QDeletePolicy => (view_policy None v, QDone (Ok tt))
  | QGetLifecycle => (v, QLifecycle (ok_or (bv_lifecycle v) (s3_error S3Code.NoSuchLifecycleConfiguration)))
  | QPutLifecycle rules => (view_lifecycle (Some (default [] rules)) v, QDone (Ok tt))
  | QDeleteLifecycle => (view_lifecycle None v, QDone (Ok tt))
  end.

(** The buckets of a service, each with its view. *)
Fixpoint view_run `{!Json Value} (m : gmap string BucketView) (qs : list (string * set_req))
    : gmap string BucketView * list set_ans :=
  match qs with
  | [] => (m, [])
  | (b, q) :: qs =>
      match m !! b with
      | Some v => let r := view_step v q in let rest := view_run (<[b := r.1]> m) qs in (rest.1, r.2 :: rest.2)
      | None => view_run m qs
      end
  end.

End Requests.
Arguments set_req : clear implicits.
Arguments set_ans : clear implicits.
Arguments BucketView : clear implicits.

(** ** The handlers *)

Section Settings.
  Context `{Hashes} `{ReedSolomon} `{UuidParser} {Rule : Type} `{!Json Value} `{!Json (list Rule)}.
  Context {B W P : Type} `{!Backend B W} `{!HealBackend B} `{!PoolBackend B} `{!ObjectNames} `{!PoolBackendOk B W} `{!PoolSettingsOk B W}.

Definition set_step (s : AbixioS3 B P) (b : string) (q : set_req Rule) : option (AbixioS3 B P * set_ans Rule) :=
  let done_ m := r ← (m : S3M B P unit) s; Some (r.1, QDone r.2) in
  match q with
  | QGetTags => r ← s3_get_bucket_tagging b s; Some (r.1, QTags r.2)
  | QPutTags ts => done_ (s3_put_bucket_tagging b ts)
  | QDeleteTags => done_ (s3_delete_bucket_tagging b)
  | QGetVersioning => r ← s3_get_bucket_versioning b s; Some (r.1, QVersioning r.2)
  | QPutVersioning status => done_ (s3_put_bucket_versioning b status)
  | QDecide => r ← cached_versioning_config b s; Some (r.1, QDecision (mjoin (versioning_state <$> result_ok r.2)))
  | QGetPolicy => r ← s3_get_bucket_policy b s; Some (r.1, QPolicy r.2)
  | QPutPolicy text => done_ (s3_put_bucket_policy b text)
  | QDeletePolicy => done_ (s3_delete_bucket_policy b)
  | QGetLifecycle => r ← s3_get_bucket_lifecycle b s; Some (r.1, QLifecycle r.2)
  | QPutLifecycle rules => done_ (s3_put_bucket_lifecycle b rules)
  | QDeleteLifecycle => done_ (s3_delete_bucket_lifecycle b)
  end.

Fixpoint set_run (s : AbixioS3 B P) (qs : list (string * set_req Rule)) : option (AbixioS3 B P * list (set_ans Rule)) :=
  match qs with
  | [] => Some (s, [])
  | (b, q) :: qs => r ← set_step s b q; rest ← set_run r.1 qs; Some (rest.1, r.2 :: rest.2)
  end.

(** The settings [s] are stored for the view [v]. *)
Record stores (s : BucketSettings) (v : BucketView Rule) : Prop := {
  st_versioning : bs_versioning s = bv_versioning v;
  st_tags : default ∅ (bs_tags s) = bv_tags v;
  st_policy : match bs_policy s with Some Null | None => None | Some x => Some x end = bv_policy v;
  st_lifecycle : match bv_lifecycle v with
                 | None => default "" (bs_lifecycle s) = ""
                 | Some rules => exists t, to_json rules = Some t /\ bs_lifecycle s = Some (string_of t)
                 end;
}.

(** The service has the buckets of [m]: each exists, all volumes agree on its settings,
    and the versioning cache has nothing else. *)
Record has_views (s : AbixioS3 B P) (m : gmap string (BucketView Rule)) : Prop := {
  hv_good : Forall good (vp_disks (s3_store s));
  hv_pos : 0 < length (vp_disks (s3_store s));
  hv_live : forall b, is_Some (m !! b) -> live (s3_store s) b;
  hv_agree : forall b v, m !! b = Some v -> exists st, agree_settings (vp_disks (s3_store s)) b st /\ stores st v;
  hv_cache : forall b v c, m !! b = Some v -> s3_versioning_cache s !! b = Some c -> c = bv_versioning v;
}.

Lemma set_store_id (s : AbixioS3 B P) : set_store (s3_store s) s = s.
Proof. by destruct s. Qed.

(** *** Reads *)

Lemma settings_read s m b v st :
  has_views s m -> m !! b = Some v -> agree_settings (vp_disks (s3_store s)) b st ->
  get_bucket_settings b (s3_store s) = Some (s3_store s, Ok st).
Proof.
  intros Hv Hm Ha. pose proof (hv_live _ _ Hv b ltac:(by eexists)) as Hl. unfold get_bucket_settings.
  rewrite (lift_ok tt) by apply Hl. rewrite (pool_bind_ok _ _ _ _ _ (require_bucket_ok _ b Hl)). unfold gets.
  rewrite (find_agree _ _ _ Ha), bool_decide_eq_false_2; [done|]. pose proof (hv_pos _ _ Hv). lia.
Qed.

Lemma versioning_read s m b v :
  has_views s m -> m !! b = Some v -> get_versioning_config b (s3_store s) = Some (s3_store s, Ok (bv_versioning v)).
Proof.
  intros Hv Hm. pose proof (hv_live _ _ Hv b ltac:(by eexists)) as Hl. unfold get_versioning_config.
  rewrite (lift_ok tt) by apply Hl. rewrite (pool_bind_ok _ _ _ _ _ (require_bucket_ok _ b Hl)). unfold gets.
  destruct (hv_agree _ _ Hv b v Hm) as (st & Ha & Hs). rewrite <- (st_versioning _ _ Hs). do 3 f_equal.
  destruct (bs_versioning st) as [x|] eqn:Ex; [by apply (head_agree bs_versioning _ _ st); [apply Hv| |]|].
  clear -Ha Ex. induction Ha as [|d ds Hd _ IH]; [done|]. cbn. by rewrite Hd, Ex.
Qed.

Lemma on_settings s m b v :
  has_views s m -> m !! b = Some v ->
  exists st, on_store (get_bucket_settings b) s = Some (s, Ok st) /\ stores st v /\
    try_store (get_bucket_settings b) s = Some (s, Ok (Ok st)) /\ agree_settings (vp_disks (s3_store s)) b st.
Proof.
  intros Hv Hm. destruct (hv_agree _ _ Hv b v Hm) as (st & Ha & Hs). exists st.
  pose proof (settings_read _ _ _ _ _ Hv Hm Ha) as E. rewrite (on_store_run _ _ _ _ E), set_store_id.
  unfold try_store. rewrite E. cbn [mbind option_bind fst snd]. by rewrite set_store_id.
Qed.

(** The lookup PUT and DELETE decide by: always the state set last. *)
Lemma decide_ok s m b v :
  has_views s m -> m !! b = Some v ->
  exists s', cached_versioning_config b s = Some (s', Ok (Ok (bv_versioning v))) /\ has_views s' m.
Proof.
  intros Hv Hm. unfold cached_versioning_config. destruct (s3_versioning_cache s !! b) as [c|] eqn:Ec.
  - rewrite (hv_cache _ _ Hv b v c Hm Ec). by exists s.
  - rewrite (versioning_read _ _ _ _ Hv Hm). cbn [mbind option_bind fst snd]. eexists. split; [done|].
    destruct Hv as [H1' H2' H3' H4' H5']. constructor; try done. intros b' v' c Hm' Hc. cbn in Hc.
    destruct (decide (b' = b)) as [->|Hne]; [|rewrite lookup_insert_ne in Hc by done; by apply (H5' b')].
    rewrite lookup_insert_eq in Hc. injection Hc as <-. congruence.
Qed.

(** *** Changes *)

Lemma update_views s m b v v' f cache :
  has_views s m -> m !! b = Some v -> (forall st, stores st v -> stores (f st) v') ->
  (forall c, cache !! b = Some c -> c = bv_versioning v') ->
  (forall b' c, b' <> b -> cache !! b' = Some c -> s3_versioning_cache s !! b' = Some c) ->
  exists p', update_settings b f (s3_store s) = Some (p', Ok tt) /\ has_views (mkAbixioS3 p' cache) (<[b := v']> m).
Proof.
  intros Hv Hm Hf Hc Hcs. destruct (update_settings_ok (s3_store s) b f (hv_good _ _ Hv) (hv_pos _ _ Hv))
    as (p' & E & Hg & Hst & Hsb). exists p'. split; [done|].
  assert (Hin : forall b', is_Some (<[b := v']> m !! b') -> is_Some (m !! b')).
  { intros b' Hb. destruct (decide (b' = b)) as [->|]; [by eexists|]. by rewrite lookup_insert_ne in Hb. }
  constructor; cbn [s3_store s3_versioning_cache].
  - done.
  - rewrite <- (Forall2_length _ _ _ Hst). apply Hv.
  - intros b' Hb. apply (live_changes (s3_store s)); [done|]. by apply Hv, Hin.
  - intros b' x Hx. destruct (decide (b' = b)) as [->|Hne].
    + rewrite lookup_insert_eq in Hx. injection Hx as <-. destruct (hv_agree _ _ Hv b v Hm) as (st & Ha & Hs).
      exists (f st). split; [|by apply Hf]. pose proof (agree_update _ _ _ _ _ _ Hst Ha) as Ha'. by rewrite decide_True in Ha'.
    + rewrite lookup_insert_ne in Hx by done. destruct (hv_agree _ _ Hv b' x Hx) as (st & Ha & Hs).
      exists st. split; [|done]. pose proof (agree_update _ _ _ _ _ _ Hst Ha) as Ha'. by rewrite decide_False in Ha'.
  - intros b' x c Hx Hcx. destruct (decide (b' = b)) as [->|Hne].
    + rewrite lookup_insert_eq in Hx. injection Hx as <-. by apply Hc.
    + rewrite lookup_insert_ne in Hx by done. eapply (hv_cache _ _ Hv); [done|by apply Hcs].
Qed.

Lemma guarded_update (p : VolumePool B P) b f p' :
  live p b -> update_settings b f p = Some (p', Ok tt) ->
  (lift (validate_bucket_name b);; require_bucket b;; update_settings b f) p = Some (p', Ok tt).
Proof.
  intros Hl E. rewrite (lift_ok tt) by apply Hl. by rewrite (pool_bind_ok _ _ _ _ _ (require_bucket_ok _ b Hl)).
Qed.

Lemma change_ok s m b v v' f :
  has_views s m -> m !! b = Some v -> (forall st, stores st v -> stores (f st) v') -> bv_versioning v' = bv_versioning v ->
  exists s', change_settings b f s = Some (s', Ok tt) /\ has_views s' (<[b := v']> m).
Proof.
  intros Hv Hm Hf Hver. destruct (on_settings s m b v Hv Hm) as (st & _ & Hs & Et & Ha).
  destruct (update_views s m b v v' (fun _ => f st) (s3_versioning_cache s) Hv Hm) as (p' & E & Hv').
  - intros st' _. by apply Hf.
  - intros c Hc. rewrite Hver. by eapply (hv_cache _ _ Hv).
  - done.
  - unfold change_settings. rewrite (s3_bind_ok _ _ _ _ _ Et). cbn [result_ok default]. eexists. split; [|exact Hv'].
    pose proof (hv_live _ _ Hv b ltac:(by eexists)) as Hl.
    exact (on_store_run (set_bucket_settings b (f st)) s _ _ (guarded_update _ _ _ _ Hl E)).
Qed.

Lemma put_versioning_ok s m b v status :
  has_views s m -> m !! b = Some v -> status = "Enabled" \/ status = "Suspended" ->
  exists s', s3_put_bucket_versioning b (Some status) s = Some (s', Ok tt) /\
    has_views s' (<[b := view_versioning (Some status) v]> m).
Proof.
  intros Hv Hm Hst. pose proof (hv_live _ _ Hv b ltac:(by eexists)) as Hl.
  destruct (update_views s m b v (view_versioning (Some status) v) (set_versioning (Some status))
    (delete b (s3_versioning_cache s)) Hv Hm) as (p' & E & Hv').
  - intros st [E1 E2 E3 E4]. by constructor.
  - intros c. by rewrite lookup_delete_eq.
  - intros b' c Hne. by rewrite lookup_delete_ne.
  - pose proof (on_store_run (set_versioning_config b status) s _ _ (guarded_update _ _ _ _ Hl E)) as Eo.
    unfold s3_put_bucket_versioning. cbn [default]. eexists. split; [|exact Hv'].
    destruct Hst as [-> | ->]; cbn [negb andb bool_decide]; exact (s3_bind_ok _ _ _ _ _ Eo).
Qed.

Context `{!JsonValueOk} `{!JsonRulesOk Rule}.

Lemma value_text (x : Value) : x <> Null -> exists t, to_json x = Some t /\ string_of t <> "" /\ string_of t <> "null".
Proof.
  intros Hx. destruct (json_reads_back x) as (t & Et & Er). exists t. split_and!; [done|..]; intros E.
  - apply (f_equal bytes_of) in E. rewrite bytes_of_string_of in E. subst t. by rewrite empty_value in Er.
  - apply (f_equal bytes_of) in E. rewrite bytes_of_string_of in E. subst t. rewrite null_reads in Er. by injection Er as <-.
Qed.

Lemma get_policy_ok s m b v :
  has_views s m -> m !! b = Some v ->
  s3_get_bucket_policy b s =
    Some (s, x ← ok_or (bv_policy v) (s3_error S3Code.NoSuchBucketPolicy); Ok (default "" (string_of <$> to_json x))).
Proof.
  intros Hv Hm. destruct (on_settings s m b v Hv Hm) as (st & Eo & Hs & _). unfold s3_get_bucket_policy.
  rewrite (s3_bind_ok _ _ _ _ _ Eo). rewrite <- (st_policy _ _ Hs).
  assert (Hnull : forall x, x = Null \/ x <> Null) by (by intros []; (by left) || by right).
  destruct (Hnull (default Null (bs_policy st))) as [En|En].
  - rewrite En. cbn [fmap option_fmap]. rewrite bool_decide_eq_true_2 by done. cbn [orb].
    by destruct (bs_policy st) as [[]|]; cbn in En.
  - destruct (value_text _ En) as (t & Et & He & Hn). destruct (bs_policy st) as [x|]; [|done]. change (default Null (Some x)) with x in *.
    set (text := match x with Null => "" | _ => _ end). assert (Ht : text = string_of t) by (unfold text; destruct x; try done; by rewrite Et).
    rewrite Ht, !bool_decide_eq_false_2 by done. cbn [orb].
    replace (match x with Null => None | _ => Some x end) with (Some x) by by destruct x. cbn. by rewrite Et.
Qed.

Lemma get_lifecycle_ok s m b v :
  has_views s m -> m !! b = Some v ->
  s3_get_bucket_lifecycle b s = Some (s, ok_or (bv_lifecycle v) (s3_error S3Code.NoSuchLifecycleConfiguration)).
Proof.
  intros Hv Hm. destruct (on_settings s m b v Hv Hm) as (st & Eo & Hs & _). unfold s3_get_bucket_lifecycle.
  rewrite (s3_bind_ok _ _ _ _ _ Eo). pose proof (st_lifecycle _ _ Hs) as Hl. destruct (bv_lifecycle v) as [rules|].
  - destruct Hl as (t & Et & Hl). rewrite Hl. change (default "" (Some (string_of t))) with (string_of t). destruct (json_reads_back rules) as (t' & Et' & Er).
    rewrite Et in Et'. injection Et' as <-. rewrite bool_decide_eq_false_2.
    + rewrite bytes_of_string_of, Er. done.
    + intros E. apply (f_equal bytes_of) in E. rewrite bytes_of_string_of in E. subst t. by rewrite empty_rules in Er.
  - rewrite Hl. by rewrite bool_decide_eq_true_2.
Qed.

(** Every request keeps the views and is answered by the view of its bucket. *)
Lemma set_step_refines s m b v q :
  has_views s m -> m !! b = Some v ->
  exists s', set_step s b q = Some (s', (view_step v q).2) /\ has_views s' (<[b := (view_step v q).1]> m).
Proof.
  intros Hv Hm. assert (Hsame : <[b := v]> m = m) by by apply insert_id.
  assert (Hch : forall f v', (forall st, stores st v -> stores (f st) v') -> bv_versioning v' = bv_versioning v ->
    exists s', (r ← change_settings b f s; Some (r.1, @QDone Rule r.2)) = Some (s', QDone (Ok tt)) /\ has_views s' (<[b := v']> m)).
  { intros f v' Hf Hver. destruct (change_ok s m b v v' f Hv Hm Hf Hver) as (s' & E & Hv'). exists s'. by rewrite E. }
  destruct q; cbn [set_step view_step fst snd].
  - destruct (on_settings s m b v Hv Hm) as (st & Eo & Hs & _). exists s. rewrite Hsame. split; [|done].
    unfold s3_get_bucket_tagging. rewrite (s3_bind_ok _ _ _ _ _ Eo). cbn. by rewrite (st_tags _ _ Hs).
  - apply Hch; [|done]. intros st [E1 E2 E3 E4]. by constructor.
  - apply Hch; [|done]. intros st [E1 E2 E3 E4]. by constructor.
  - rewrite Hsame. unfold s3_get_bucket_versioning, invalidate_versioning_cache.
    destruct (decide_ok (set_versioning_cache (delete b (s3_versioning_cache s)) s) m b v) as (s' & E & Hv'); [|done|].
    { destruct Hv as [H1' H2' H3' H4' H5']. constructor; try done. intros b' v' c Hm' Hc. cbn in Hc.
      apply lookup_delete_Some in Hc as [_ Hc]. by apply (H5' b'). }
    exists s'. split; [|done]. rewrite (s3_bind_ok _ _ _ _ _ eq_refl), (s3_bind_ok _ _ _ _ _ E). done.
  - destruct (bool_decide (status = Some "Enabled") || bool_decide (status = Some "Suspended")) eqn:Es; cbn [fst snd].
    + assert (Hst : exists x, status = Some x /\ (x = "Enabled" \/ x = "Suspended")).
      { apply orb_true_iff in Es as [->%bool_decide_eq_true | ->%bool_decide_eq_true]; eauto. }
      destruct Hst as (x & -> & Hx). destruct (put_versioning_ok s m b v x Hv Hm Hx) as (s' & E & Hv').
      exists s'. by rewrite E.
    + exists s. rewrite Hsame. split; [|done]. unfold s3_put_bucket_versioning.
      apply orb_false_iff in Es as [E1%bool_decide_eq_false E2%bool_decide_eq_false].
      rewrite !bool_decide_eq_false_2; [done|..]; intros E; destruct status; cbn in E; congruence.
  - destruct (decide_ok s m b v Hv Hm) as (s' & E & Hv'). exists s'. rewrite E, Hsame. done.
  - exists s. by rewrite (get_policy_ok _ _ _ _ Hv Hm), Hsame.
  - unfold s3_put_bucket_policy, accepted_policy. destruct (from_json (bytes_of text)) as [x|] eqn:Ex;
      cbn [ok_or mbind result_bind fst snd]; [|exists s; by rewrite Hsame].
    case_bool_decide as Hp; cbn [fst snd]; [exists s; by rewrite Hsame|].
    apply Hch; [|done]. intros st [E1 E2 E3 E4]. constructor; try done. cbn. by destruct x.
  - apply Hch; [|done]. intros st [E1 E2 E3 E4]. by constructor.
  - exists s. by rewrite (get_lifecycle_ok _ _ _ _ Hv Hm), Hsame.
  - unfold s3_put_bucket_lifecycle. destruct (json_reads_back (default [] rules)) as (t & Et & _). rewrite Et.
    cbn [ok_or]. unfold s3_lift. rewrite (s3_bind_ok _ _ _ s t eq_refl).
    apply Hch; [|done]. intros st [E1 E2 E3 E4]. constructor; try done. cbn. by exists t.
  - apply Hch; [|done]. intros st [E1 E2 E3 E4]. by constructor.
Qed.

End Settings.

(** C15: The settings of the buckets.  Under every sequence of requests that read, set and
    delete the tags, the versioning state, the policy and the lifecycle of buckets that
    exist, on volumes in good order that agree, every request is answered by the bucket's
    view: what was set last is read back, a text that is no policy or no versioning state
    is refused and changes nothing, no request changes another setting or another bucket,
    and the state that PUT and DELETE decide by, cached or not, is always the one set
    last. *)
Theorem settings_requests_refine `{Hashes} `{ReedSolomon} `{UuidParser} {Rule : Type} `{!Json Value} `{!Json (list Rule)}
    {B W P : Type} `{!Backend B W} `{!HealBackend B} `{!PoolBackend B} `{!ObjectNames} `{!PoolBackendOk B W} `{!PoolSettingsOk B W}
    `{!JsonValueOk} `{!JsonRulesOk Rule} (s : AbixioS3 B P) (m : gmap string (BucketView Rule)) qs :
  has_views s m -> Forall (fun q => is_Some (m !! q.1)) qs ->
  exists s', set_run s qs = Some (s', (view_run m qs).2) /\ has_views s' (view_run m qs).1.
Proof.
  revert s m. induction qs as [|[b q] qs IH]; intros s m Hv Hq; [by exists s|].
  apply Forall_cons_1 in Hq as [[v Hm] Hq]. cbn [fst] in Hm. destruct (set_step_refines s m b v q Hv Hm) as (s1 & E & Hv1).
  destruct (IH s1 _ Hv1) as (s' & E' & Hv').
  { eapply Forall_impl; [exact Hq|]. intros [b' q'] [x Hx]. cbn [fst] in *.
    destruct (decide (b' = b)) as [->|]; [rewrite lookup_insert_eq; by eexists|rewrite lookup_insert_ne by done; by eexists]. }
  exists s'. cbn [set_run view_run]. rewrite E, Hm. cbn [mbind option_bind fst snd]. by rewrite E'.
Qed.
