(* ===== verification/S3Demo.v ===== *)
(** The S3 service on volumes in memory: the hypotheses of the theorems of [S3Spec] and
    [S3Settings] hold of it, and what its handlers do that a client would not expect. *)

From Stdlib Require Import Ascii ZArith.
From stdpp Require Import base list gmap strings numbers pretty sorting.
From S2P Require Import Policy.
From S2P Require Import Prelude Metadata Pathing Placement Erasure Backend ErasureDecode ErasurePut.
From S2P Require Import Caches Heal RaftFsm FileSys Materialize VolumePool PoolSpec PoolRefine PoolStream PoolSettings.
From S2P Require Import Multipart MultipartSpec PeerReplica S3Service S3Spec S3Settings.

Open Scope string_scope.
Open Scope list_scope.

(** Volumes in memory share no file system. *)
Global Instance mv_host : HostFs MemVolume := {| host_fs := fun _ => mkFS ∅ ∅; set_host_fs := fun _ ds => ds |}.

(** A JSON text for values with the words of the format for null. *)
Definition value_json : Json Value := {|
  to_json v := Some (match v with Null => bytes_of "null" | _ => "#"%char :: digits (encode v) end);
  from_json b := if bool_decide (b = bytes_of "null") then Some Null
                 else match b with c :: r => if Ascii.eqb c "#" then decode (undigits r) else None | [] => None end;
|}.

Definition rules_json : Json (list string) := {|
  to_json v := Some ("#"%char :: digits (encode v));
  from_json b := match b with c :: r => if Ascii.eqb c "#" then decode (undigits r) else None | [] => None end;
|}.

Section Instances.
  Local Existing Instances value_json rules_json.

Lemma value_json_ok : JsonValueOk.
Proof.
  constructor; [|done..]. intros v. eexists. split; [done|]. cbn. destruct v; [done|..];
    rewrite bool_decide_eq_false_2 by done; by rewrite Ascii.eqb_refl, undigits_digits, decode_encode.
Qed.

Lemma rules_json_ok : JsonRulesOk string.
Proof.
  constructor; [|done]. intros v. eexists. split; [done|]. cbn. by rewrite undigits_digits, decode_encode.
Qed.
End Instances.

(** ** Witnesses *)

Section Demo.
  Local Existing Instances example_hashes xor_code xor_code_ok demo_uuid value_json rules_json value_json_ok rules_json_ok all_names.
Local Instance upload_text : Json UploadMeta := countable_json UploadMeta.
Local Instance part_text : Json PartFileMeta := countable_json PartFileMeta.

Abbreviation Demo := (AbixioS3 MemVolume MemPeer).

Definition put_of (k s : string) : PutObjectInput :=
  mkPutObjectInput "photos" k None None None (Some [Ok (bytes_of s)]) (Some (Z.of_nat (String.length s))).
Definition no_conditions : Conditions := mkConditions None None None None.
Definition get_of (k : string) (vid : option string) (r : option Range) : GetObjectInput :=
  mkGetObjectInput "photos" k vid r no_conditions.

Definition demo_requests : list s3_req :=
  [ RPut (put_of "cat" "meow") "v1" (demo_clock 1); RPut (put_of "dog" "woof woof") "v1" (demo_clock 2);
    RGet (get_of "cat" None None); RGet (get_of "dog" None (Some (IntRange 5 None))); RHead "photos" "cat" no_conditions;
    RGet (mkGetObjectInput "photos" "cat" None None (mkConditions None (Some AnyETag) None None));
    RList (mkListObjectsInput "photos" None None (Some 1%Z)); RDelete "photos" "cat" "v2" (demo_clock 3);
    RGet (get_of "cat" None None); RDeleteMany "photos" ["dog"; "cow"]; RList (mkListObjectsInput "photos" None None None) ].


Definition policy_text : string := string_of (default [] (to_json (VObject [("Version", VString "2012-10-17")]))).
Definition demo_settings : list (string * set_req string) :=
  [ ("photos", QDecide); ("photos", QPutVersioning (Some "Enabled")); ("photos", QPutTags [(Some "a", Some "1"); (Some "b", None)]);
    ("photos", QDecide); ("photos", QGetTags); ("photos", QPutVersioning (Some "On")); ("photos", QGetVersioning);
    ("photos", QPutPolicy "nonsense"); ("photos", QGetPolicy); ("photos", QPutPolicy policy_text); ("photos", QGetPolicy);
    ("photos", QGetLifecycle); ("photos", QPutLifecycle (Some ["expire"])); ("photos", QGetLifecycle);
    ("photos", QDeletePolicy); ("photos", QDecide) ].

Definition fresh_view : BucketView string := mkBucketView None ∅ None None.

Lemma demo_views : has_views (s3_new demo_pool3) {["photos" := fresh_view]}.
Proof.
  constructor.
  - by repeat constructor.
  - cbn. lia.
  - intros b [v Hv]. apply lookup_singleton_Some in Hv as [<- _]. split; vm_compute; reflexivity.
  - intros b v Hv. apply lookup_singleton_Some in Hv as [<- <-]. exists default_settings. split; [|done].
    by repeat constructor.
  - intros b v c _ Hc. cbn in Hc. by rewrite lookup_empty in Hc.
Qed.

Lemma settings_requests_refine_witness :
  exists s', set_run (s3_new demo_pool3) demo_settings = Some (s', (view_run {["photos" := fresh_view]} demo_settings).2) /\
    (view_run {["photos" := fresh_view]} demo_settings).2 !! 3 = Some (QDecision (Some "Enabled")).
Proof.
  destruct (settings_requests_refine (s3_new demo_pool3) {["photos" := fresh_view]} demo_settings demo_views) as (s' & E & _).
  - repeat constructor; by eexists.
  - exists s'. split; [exact E|]. vm_compute. reflexivity.
Defined.

(** ** What a client would not expect *)

(** The service after a request, and the answer. *)
Definition served {A : Type} (m : S3M MemVolume MemPeer A) (s : Demo) : Demo * S3Result A :=
  match m s with Some r => r | None => (s, Err (s3_error_msg S3Code.InternalError "panic")) end.
Definition body_of (o : GetObjectOutput) : result string bytes := got_body (got o).
Definition s3_get (k : string) (vid : option string) : S3M MemVolume MemPeer (result string bytes) :=
  o ← s3_get_object 16 no_label (get_of k vid None); mret (body_of o).
Definition s3_put (k s uuid : string) : S3M MemVolume MemPeer PutObjectOutput := s3_put_object 16 (put_of k s) uuid (demo_clock 1).
Definition s3_versioning (status : string) : S3M MemVolume MemPeer unit := s3_put_bucket_versioning "photos" (Some status).

Definition plain_service : Demo := s3_new (uncached demo_pool3).
(** A bucket with one version [v1] of an object. *)
Definition versioned_service : Demo := (served (s3_versioning "Enabled";; s3_put "cat" "one" "v1") plain_service).1.

(** A PUT in a bucket whose versioning is suspended replaces the list of versions: the
    versions written before are gone. *)
Theorem suspended_put_erases_versions :
  (served (s3_get "cat" (Some "v1")) versioned_service).2 = Ok (Ok (bytes_of "one")) /\
  let s := (served (s3_versioning "Suspended";; s3_put "cat" "two" "v2") versioned_service) in
  po_version_id <$> s.2 = Ok (Some "null") /\
  (served (s3_get "cat" (Some "v1")) s.1).2 = Err (s3_error S3Code.NoSuchKey).
Proof. vm_compute. repeat split; reflexivity. Qed.

(** A DELETE in a versioned bucket adds a marker and keeps the versions; the same key in
    a batch delete loses all of them. *)
Theorem batch_delete_erases_versions :
  (served (s3_delete_object "photos" "cat" None "v2" (demo_clock 2);; s3_get "cat" (Some "v1")) versioned_service).2
    = Ok (Ok (bytes_of "one")) /\
  (served (s3_delete_objects "photos" ["cat"];; s3_get "cat" (Some "v1")) versioned_service).2
    = Err (s3_error S3Code.NoSuchKey).
Proof. vm_compute. split; reflexivity. Qed.

(** So does a copy onto the key, although the bucket is versioned. *)
Theorem copy_erases_versions :
  let s := (served (s3_put "dog" "woof" "v2";;
                    s3_copy_object 16 no_label (mkCopyObjectInput "photos" "cat" (CopyBucket "photos" "dog") None) (demo_clock 2))
              versioned_service).1 in
  (served (s3_get "cat" None) s).2 = Ok (Ok (bytes_of "woof")) /\
  (served (s3_get "cat" (Some "v1")) s).2 = Err (s3_error S3Code.NoSuchKey).
Proof. vm_compute. split; reflexivity. Qed.

(** Two services over the same volumes: one has looked at the bucket before the other
    enables versioning, and goes on without it. *)
Theorem versioning_cache_is_local :
  let other := (served (s3_put "dog" "woof" "v2") plain_service).1 in
  let enabled := (served (s3_versioning "Enabled") other).1 in
  let other' := mkAbixioS3 (s3_store enabled) (s3_versioning_cache other) in
  po_version_id <$> (served (s3_put "cat" "one" "v1") enabled).2 = Ok (Some "v1") /\
  po_version_id <$> (served (s3_put "cat" "one" "v1") other').2 = Ok None.
Proof. vm_compute. split; reflexivity. Qed.

(** A copy onto an object that the write cache holds is acknowledged and not seen. *)
Theorem copy_shadowed_by_cache :
  let s := (served (s3_put "cat" "meow" "v1";; s3_put "dog" "woof" "v1") (s3_new demo_pool3)).1 in
  let s := served (s3_copy_object 16 no_label (mkCopyObjectInput "photos" "cat" (CopyBucket "photos" "dog") None) (demo_clock 2)) s in
  is_ok s.2 = true /\ (served (s3_get "cat" None) s.1).2 = Ok (Ok (bytes_of "meow")).
Proof. vm_compute. split; reflexivity. Qed.

(** A GET of an object in the write cache announces its length and sends the padding of
    its last shard too. *)
Theorem cached_get_overruns :
  let s := (served (s3_put "cat" "meow!" "v1") (s3_new demo_pool3)).1 in
  (fun o => (got_body (got o), got_announced (got o), got_content_length (got o)))
    <$> (served (s3_get_object 16 no_label (get_of "cat" None None)) s).2
  = Ok (Ok (bytes_of "meow!" ++ [zero_byte]), 5%N, 5%Z).
Proof. vm_compute. reflexivity. Qed.

(** Deleting a key that is not there is an error, and the error of a batch delete has
    neither code nor message. *)
Theorem missing_delete_has_no_code :
  (served (s3_delete_object "photos" "cat" None "v1" (demo_clock 1)) plain_service).2 = Err (s3_error S3Code.NoSuchKey) /\
  (served (s3_delete_objects "photos" ["cat"]) plain_service).2 = Ok ([], Some [mkDeleteError None "cat" None]).
Proof. vm_compute. split; reflexivity. Qed.
End Demo.

(** ** Multipart uploads and the caches *)

Section Complete.
  Context `{Hashes} `{ReedSolomon} `{UuidParser} `{MetaFileCodec} `{!Json UploadMeta} `{!Json PartFileMeta}.
  Context {B W P : Type} `{!Backend B W} `{!HealBackend B} `{!PoolBackend B} `{!HostFs B}.
  Context (block : nat) (label : B -> string).

(** Completing an upload does not touch the caches: while the write cache holds an older
    object of the key, every GET after the acknowledged upload serves that one. *)
Theorem completed_upload_shadowed (s s' : AbixioS3 B P) b k uid parts t r e :
  s3_complete_multipart_upload label b k uid parts t s = Some (s', Ok r) ->
  wc_lookup (vp_write_cache (s3_store s)) (b, k) = Some e ->
  live (s3_store s') b -> validate_object_key k = Ok tt ->
  exists s'', on_store (store_get label b k) s' = Some (s'', Ok (cached_data e, cached_info b k e)).
Proof.
  intros Ec Hw Hl Hk. destruct s as [p c]. cbn [s3_store] in Hw. unfold s3_complete_multipart_upload in Ec.
  rewrite (on_store_bind (disk_labels label) _ (mkAbixioS3 p c) p (Ok (map label (vp_disks p))) eq_refl) in Ec.
  set (f := complete_upload _ _ _ _ _ _) in Ec.
  rewrite (on_store_bind (on_files f) _ _ _ _ eq_refl) in Ec.
  assert (Hw' : wc_lookup (vp_write_cache (s3_store s')) (b, k) = Some e).
  { destruct (f _).2; [|discriminate Ec]. by injection Ec as <- _. }
  destruct (write_cache_get_some (s3_store s') b k e Hw') as (wc & Eg & _).
  assert (E : store_get label b k (s3_store s') = Some (set_write_cache wc (s3_store s'), Ok (cached_data e, cached_info b k e))).
  { unfold store_get, get_object. rewrite (lift_ok tt) by apply Hl. rewrite (lift_ok tt) by done.
    rewrite (pool_bind_ok _ _ _ _ _ (require_bucket_ok _ b Hl)). by rewrite (pool_bind_ok _ _ _ _ _ Eg). }
  eexists. exact (on_store_run _ _ _ _ E).
Qed.
End Complete.
