(* ===== verification/Admin.v ===== *)
(** The administration API ([src/admin/]) and the routing of requests between it, the
    storage RPC and S3 ([src/s3_route.rs]).

    A handler returns the new state and an answer, or [None] when it panics; an answer is
    its status and the value that is sent as JSON.  The repair path uses the volumes of
    the pool and the pool's repair queue, which [main] shares with it.  The registry of
    metrics and the timing headers are in [Metrics] and [Timing]. *)

From Stdlib Require Import Ascii.
From stdpp Require Import base list gmap strings numbers pretty sorting.
From S2P Require Import Policy.
From S2P Require Import Prelude Metadata Pathing Placement Erasure Backend ErasureDecode ErasurePut.
From S2P Require Import Caches Heal RaftFsm VolumePool Config Topology ClusterManager Internode StorageServer RaftNet.

Open Scope string_scope.
Open Scope list_scope.

(** ** Statistics of healing ([admin/mod.rs]); [now] is the clock, in seconds *)

Record HealStats : Type := mkHealStats {
  hs_objects_scanned : N;
  hs_objects_healed : N;
  hs_last_scan_started : option N;
  hs_last_scan_duration_secs : N;
  hs_started_at : N;
}.

Definition stats_new (now : N) : HealStats := mkHealStats 0 0 None 0 now.
Definition record_scan (s : HealStats) : HealStats :=
  mkHealStats (as_u64 (hs_objects_scanned s + 1)) (hs_objects_healed s) (hs_last_scan_started s)
    (hs_last_scan_duration_secs s) (hs_started_at s).
Definition record_heal (s : HealStats) : HealStats :=
  mkHealStats (hs_objects_scanned s) (as_u64 (hs_objects_healed s + 1)) (hs_last_scan_started s)
    (hs_last_scan_duration_secs s) (hs_started_at s).
Definition scan_started (now : N) (s : HealStats) : HealStats :=
  mkHealStats (hs_objects_scanned s) (hs_objects_healed s) (Some now) (hs_last_scan_duration_secs s) (hs_started_at s).
Definition scan_finished (now : N) (s : HealStats) : HealStats :=
  match hs_last_scan_started s with
  | Some start => mkHealStats (hs_objects_scanned s) (hs_objects_healed s) (hs_last_scan_started s) (now - start)
                    (hs_started_at s)
  | None => s
  end.
Definition last_scan_started_secs_ago (now : N) (s : HealStats) : option N :=
  (fun start => now - start)%N <$> hs_last_scan_started s.
Definition uptime_secs (now : N) (s : HealStats) : N := now - hs_started_at s.

(** ** Answers ([admin/types.rs]) *)

Record AdminConfig : Type := mkAdminConfig {
  ac_listen : string;
  ac_total_disks : nat;
  ac_auth_enabled : bool;
  ac_scan_interval : string;
  ac_heal_interval : string;
  ac_mrf_workers : nat;
  ac_node_id : string;
  ac_advertise_s3 : string;
  ac_advertise_cluster : string;
  ac_node_count : nat;
}.

Record StatusResponse : Type := mkStatusResponse {
  sr_uptime_secs : N;
  sr_default_ftt : nat;
  sr_config : AdminConfig;
  sr_cluster : ClusterSummary;
}.

Record DiskInfo : Type := mkDiskInfo {
  di_index : nat;
  di_path : string;
  di_online : bool;
  di_total_bytes : N;
  di_used_bytes : N;
  di_free_bytes : N;
  di_bucket_count : nat;
  di_object_count : nat;
}.

Record HealStatusResponse : Type := mkHealStatusResponse {
  hr_mrf_pending : nat;
  hr_mrf_workers : nat;
  hr_scan_interval : string;
  hr_heal_interval : string;
  hr_objects_scanned : N;
  hr_objects_healed : N;
  hr_last_scan_started : N;
  hr_last_scan_duration_secs : N;
}.

Record ShardInfo : Type := mkShardInfo {
  sh_index : nat;
  sh_disk : nat;
  sh_volume_id : string;
  sh_status : string;
  sh_checksum : option string;
}.

Record ObjectInspectResponse : Type := mkObjectInspect {
  oi_bucket : string;
  oi_key : string;
  oi_size : N;
  oi_etag : string;
  oi_content_type : string;
  oi_created_at : N;
  oi_data : nat;
  oi_parity : nat;
  oi_epoch_id : N;
  oi_volume_ids : list string;
  oi_shards : list ShardInfo;
}.

(** The report of an object that is only in the write cache: index and volume of each
    shard. *)
Record CachedInspect : Type := mkCachedInspect {
  ki_bucket : string;
  ki_key : string;
  ki_size : N;
  ki_etag : string;
  ki_content_type : string;
  ki_data : nat;
  ki_parity : nat;
  ki_epoch_id : N;
  ki_shards : list (nat * nat);
}.

Record HealResponse : Type := mkHealResponse {
  hp_result : string;
  hp_shards_fixed : option nat;
  hp_error : option string;
}.

(** openraft's metrics, as the handlers print them. *)
Record RaftMetrics : Type := mkRaftMetrics {
  rm_current_leader : option N;
  rm_state : string;
  rm_current_term : N;
  rm_last_log_index : option N;
  rm_last_applied : option (N * N);
  rm_voter_ids : gset N;
}.

(** The raft handle of a node ([AbixioRaft]): its id, the members of its state machine and
    openraft's calls. *)
Class RaftControl (R : Type) : Type := {
  raft_node_id : R -> N;
  raft_members : R -> list Member;
  raft_metrics : R -> RaftMetrics;
  raft_initialize : R -> gmap N AbixioNode -> R * result string unit;
  raft_add_learner : R -> N -> AbixioNode -> R * result string unit;
  raft_change_membership : R -> gset N -> R * result string unit;
  raft_trigger_snapshot : R -> R * result string unit;
}.

Inductive AdminBody : Type :=
| AErrorJson (msg : string)
| AStatusBody (s : StatusResponse)
| ADisks (ds : list DiskInfo)
| AHealStatus (s : HealStatusResponse)
| AHealBody (r : HealResponse)
| AInspect (r : ObjectInspectResponse)
| AInspectCached (r : CachedInspect)
| AFlushed
| AFtt (ftt : nat)
| AMetricsText
| ARaftPeers (leader : option N) (this : N) (state : string) (peers : list Member)
| ARaftPrimary (this : N) (m : RaftMetrics)
| ARaftDone (what : string) (raft_id : option N)
| AClusterStatus (s : ClusterSummary * ClusterTopology)
| AClusterNodes (ns : list ClusterNodeStatus)
| AClusterEpochs (es : list ClusterEpoch)
| AClusterTopology (t : ClusterTopology).

Record AdminAnswer : Type := mkAdminAnswer {
  aa_status : N;
  aa_body : AdminBody;
}.

Definition admin_ok (b : AdminBody) : AdminAnswer := mkAdminAnswer 200 b.
Definition admin_error (status : N) (msg : string) : AdminAnswer := mkAdminAnswer status (AErrorJson msg).

Definition map_storage_status (e : StorageError) : N :=
  match e with
  | BucketNotFound | ObjectNotFound => 404
  | BucketExists | BucketNotEmpty => 409
  | InvalidConfig _ | InvalidBucketName _ | InvalidObjectKey _ | InvalidVersionId _ | InvalidUploadId _ => 400
  | _ => 500
  end.

(** [AdminConfig::from_identity] *)
Definition from_identity (i : ResolvedIdentity) (c : Config) : AdminConfig :=
  mkAdminConfig (c_listen c) (length (c_volumes c)) (negb (c_no_auth c)) (c_scan_interval c) (c_heal_interval c) (c_mrf_workers c)
    (ri_node_id i) (ri_advertise i) (ri_advertise i) (length (ri_nodes i)).

Inductive Method : Type := MGet | MPut | MPost | MDelete | MHead | MOther.
Global Instance Method_eq_dec : EqDecision Method.
Proof. solve_decision. Defined.

(** ** The handler *)

Record AdminHandler (B P R : Type) : Type := mkAdminHandler {
  ah_store : VolumePool B P;
  ah_stats : HealStats;
  ah_config : AdminConfig;
  ah_cluster : ClusterManager;
  ah_metrics : bool;
  ah_raft : option R;
}.
Arguments mkAdminHandler {B P R} _ _ _ _ _ _.
Arguments ah_store {B P R} _.
Arguments ah_stats {B P R} _.
Arguments ah_config {B P R} _.
Arguments ah_cluster {B P R} _.
Arguments ah_metrics {B P R} _.
Arguments ah_raft {B P R} _.

Section Admin.
  Context `{Hashes} `{ReedSolomon} `{Http}.
  Context {B W P R : Type} `{!Backend B W} `{!HealBackend B} `{!PoolBackend B} `{!RaftControl R}.
  (** [disk.info()]: label, total, used and free bytes. *)
  Context (disk_info : B -> string * option N * option N * option N).

Abbreviation Handler := (AdminHandler B P R).

Definition admin_new (store : VolumePool B P) (stats : HealStats) (config : AdminConfig) (cluster : ClusterManager) : Handler :=
  mkAdminHandler store stats config cluster false None.
Definition admin_with_metrics (h : Handler) : Handler :=
  mkAdminHandler (ah_store h) (ah_stats h) (ah_config h) (ah_cluster h) true (ah_raft h).
Definition admin_with_raft (r : R) (h : Handler) : Handler :=
  mkAdminHandler (ah_store h) (ah_stats h) (ah_config h) (ah_cluster h) (ah_metrics h) (Some r).
Definition ah_set_store (p : VolumePool B P) (h : Handler) : Handler :=
  mkAdminHandler p (ah_stats h) (ah_config h) (ah_cluster h) (ah_metrics h) (ah_raft h).
Definition ah_set_stats (s : HealStats) (h : Handler) : Handler :=
  mkAdminHandler (ah_store h) s (ah_config h) (ah_cluster h) (ah_metrics h) (ah_raft h).

(** [parse_query]: the last value of each name. *)
Definition parse_query (q : string) : gmap string string := list_to_map (rev (form_parse q)).

(** *** Status *)

Definition admin_status (now : N) (h : Handler) : AdminAnswer :=
  admin_ok (AStatusBody (mkStatusResponse (uptime_secs now (ah_stats h)) (default_ftt (ac_total_disks (ah_config h)))
    (ah_config h) (summary (ah_cluster h)))).

Definition count_buckets_and_objects (d : B) : nat * nat :=
  match list_buckets d with
  | Err _ => (0, 0)
  | Ok buckets =>
      (length buckets,
       foldr (fun b n => match list_objects d b "" with Ok keys => length keys + n | Err _ => n end) 0 buckets)
  end.

Definition admin_disks (h : Handler) : AdminAnswer :=
  admin_ok (ADisks (imap (fun i d =>
    let '(label, total, used, free) := disk_info d in
    let online := bool_decide (is_Some total) in
    let counts := if online then count_buckets_and_objects d else (0, 0) in
    mkDiskInfo i label online (default 0%N total) (default 0%N used) (default 0%N free) counts.1 counts.2)
    (vp_disks (ah_store h)))).

Definition heal_status (now : N) (h : Handler) : AdminAnswer :=
  admin_ok (AHealStatus (mkHealStatusResponse (default 0 (pending_count <$> vp_mrf (ah_store h)))
    (ac_mrf_workers (ah_config h)) (ac_scan_interval (ah_config h)) (ac_heal_interval (ah_config h))
    (hs_objects_scanned (ah_stats h)) (hs_objects_healed (ah_stats h))
    (default 0%N (last_scan_started_secs_ago now (ah_stats h))) (hs_last_scan_duration_secs (ah_stats h)))).

(** *** Inspecting an object *)

Definition volume_or (meta : ObjectMeta) (idx fallback : nat) : string :=
  default ("vol-" +:+ pretty fallback) (volume_ids (erasure meta) !! idx).

(** One read of the loop over the volumes. *)
Definition shard_report (meta : ObjectMeta) (disk_idx : nat) (read : option (bytes * ObjectMeta))
    (shards : list (option ShardInfo)) : list (option ShardInfo) :=
  match read with
  | None => shards
  | Some (data, disk_meta) =>
      let shard_idx := index (erasure disk_meta) in
      if bool_decide (length shards <= shard_idx) then shards
      else
        let status := if quorum_eq disk_meta meta && verify_shard_checksum data (checksum disk_meta) then "ok" else "corrupt" in
        <[shard_idx := Some (mkShardInfo shard_idx disk_idx (volume_or meta shard_idx disk_idx) status
                               (Some (checksum disk_meta)))]> shards
  end.

Fixpoint shard_reports (meta : ObjectMeta) (disk_idx : nat) (reads : list (option (bytes * ObjectMeta)))
    (shards : list (option ShardInfo)) : list (option ShardInfo) :=
  match reads with
  | [] => shards
  | r :: reads => shard_reports meta (S disk_idx) reads (shard_report meta disk_idx r shards)
  end.

Definition missing_shard (meta : ObjectMeta) (idx : nat) : ShardInfo :=
  mkShardInfo idx idx (volume_or meta idx idx) "missing" None.

Definition inspect_disks (bucket key : string) (disks : list B) : AdminAnswer :=
  let all_reads := map (fun d => result_ok (read_shard d bucket key)) disks in
  match head (omap id all_reads) with
  | None => admin_error 404 "object not found on any disk"
  | Some (_, meta) =>
      let total := erasure_data (erasure meta) + erasure_parity (erasure meta) in
      let shards := shard_reports meta 0 all_reads (replicate total None) in
      admin_ok (AInspect (mkObjectInspect bucket key (size meta) (etag meta) (content_type meta) (created_at meta)
        (erasure_data (erasure meta)) (erasure_parity (erasure meta)) (epoch_id (erasure meta)) (volume_ids (erasure meta))
        (imap (fun i s => default (missing_shard meta i) s) shards)))
  end.

Definition inspect_cached (bucket key : string) (e : WriteCache.CacheEntry) : AdminAnswer :=
  let ec := match List.find (fun m => negb (bool_decide (volume_ids (erasure m) = []))) (WriteCache.metas e) with
            | Some m => erasure m
            | None => match head (WriteCache.metas e) with
                      | Some m => erasure m
                      | None => {| ftt := 0; index := 0; epoch_id := 0; volume_ids := [] |}
                      end
            end in
  admin_ok (AInspectCached (mkCachedInspect bucket key (WriteCache.original_size e) (WriteCache.we_etag e)
    (WriteCache.we_content_type e) (erasure_data ec) (erasure_parity ec) (epoch_id ec)
    (imap (fun i _ => (i, default 0 (WriteCache.distribution e !! i))) (WriteCache.shards e)))).

Definition inspect_object (query : string) (t : Clock) (h : Handler) : option (Handler * AdminAnswer) :=
  let params := parse_query query in
  match params !! "bucket", params !! "key" with
  | None, _ => Some (h, admin_error 400 "missing bucket parameter")
  | Some _, None => Some (h, admin_error 400 "missing key parameter")
  | Some bucket, Some key =>
      match _ ← validate_bucket_name bucket; validate_object_key key with
      | Err e => Some (h, admin_error 400 (display e))
      | Ok _ =>
          r ← attempt (flush_write_cache t) (ah_store h);
          c ← write_cache_get bucket key r.1;
          let h := ah_set_store c.1 h in
          Some (h, match c.2 with
                   | Ok (Some e) => inspect_cached bucket key e
                   | _ => inspect_disks bucket key (vp_disks c.1)
                   end)
      end
  end.

(** *** Tolerance of a bucket *)

Definition get_bucket_ftt (bucket : string) (h : Handler) : option (Handler * AdminAnswer) :=
  match validate_bucket_name bucket with
  | Err e => Some (h, admin_error 400 (display e))
  | Ok _ =>
      r ← get_ftt bucket (ah_store h);
      Some (ah_set_store r.1 h,
            match r.2 with
            | Ok (Some ftt) => admin_ok (AFtt ftt)
            | Ok None => admin_ok (AFtt (default_ftt (length (vp_disks (ah_store h)))))
            | Err e => admin_error (map_storage_status e) (display e)
            end)
  end.

Definition set_bucket_ftt (bucket query : string) (h : Handler) : option (Handler * AdminAnswer) :=
  match validate_bucket_name bucket with
  | Err e => Some (h, admin_error 400 (display e))
  | Ok _ =>
      if negb (allows_mutation (ah_cluster h)) then Some (h, admin_error 503 "cluster is fenced")
      else
        match parse_query query !! "ftt" ≫= fun v => parse_u64 (bytes_of v) with
        | None => Some (h, admin_error 400 "missing ftt parameter")
        | Some ftt =>
            match ftt_to_ec (N.to_nat ftt) (length (vp_disks (ah_store h))) with
            | Err e => Some (h, admin_error 400 (display e))
            | Ok _ =>
                r ← set_ftt bucket (N.to_nat ftt) (ah_store h);
                Some (ah_set_store r.1 h,
                      match r.2 with
                      | Ok _ => admin_ok (AFtt (N.to_nat ftt))
                      | Err e => admin_error 400 (display e)
                      end)
            end
        end
  end.

(** *** Healing *)

Definition heal_object_handler (query : string) (h : Handler) : Handler * AdminAnswer :=
  if negb (allows_mutation (ah_cluster h)) then (h, admin_error 503 "cluster is fenced")
  else
    let params := parse_query query in
    match params !! "bucket", params !! "key" with
    | None, _ => (h, admin_error 400 "missing bucket parameter")
    | Some _, None => (h, admin_error 400 "missing key parameter")
    | Some bucket, Some key =>
        match _ ← validate_bucket_name bucket; validate_object_key key with
        | Err e => (h, admin_error 400 (display e))
        | Ok _ =>
            let r := heal_object (vp_disks (ah_store h)) bucket key in
            let h := ah_set_store (set_disks r.1 (ah_store h)) h in
            match r.2 with
            | Ok Healthy => (h, admin_ok (AHealBody (mkHealResponse "healthy" None None)))
            | Ok (Repaired n) => (ah_set_stats (record_heal (ah_stats h)) h,
                                  admin_ok (AHealBody (mkHealResponse "repaired" (Some n) None)))
            | Ok Unrecoverable => (h, admin_ok (AHealBody (mkHealResponse "unrecoverable" None
                                        (Some "not enough healthy shards"))))
            | Err e => (h, admin_error 500 (display e))
            end
        end
    end.

(** *** Raft *)

Definition with_raft_handle (h : Handler) (f : R -> R * AdminAnswer) : Handler * AdminAnswer :=
  match ah_raft h with
  | None => (h, admin_error 503 "raft not enabled")
  | Some r => let x := f r in (admin_with_raft x.1 h, x.2)
  end.

Definition raft_peers (r : R) : R * AdminAnswer :=
  (r, admin_ok (ARaftPeers (rm_current_leader (raft_metrics r)) (raft_node_id r) (rm_state (raft_metrics r)) (raft_members r))).
Definition raft_primary (r : R) : R * AdminAnswer := (r, admin_ok (ARaftPrimary (raft_node_id r) (raft_metrics r))).

Definition raft_bootstrap (c : AdminConfig) (r : R) : R * AdminAnswer :=
  let node := mkAbixioNode (ac_advertise_s3 c) (ac_advertise_cluster c) Voter in
  let x := raft_initialize r {[ raft_node_id r := node ]} in
  (x.1, match x.2 with
        | Ok _ => admin_ok (ARaftDone "bootstrapped" (Some (raft_node_id r)))
        | Err msg => admin_error (if contains "not allowed" msg || contains "already" msg then 409 else 500) msg
        end).

Definition raft_join (query : string) (r : R) : R * AdminAnswer :=
  let params := parse_query query in
  match params !! "raft_id" ≫= fun v => parse_u64 (bytes_of v), params !! "advertise_s3" with
  | None, _ => (r, admin_error 400 "missing or invalid raft_id")
  | Some _, None => (r, admin_error 400 "missing advertise_s3")
  | Some id, Some s3 =>
      let node := mkAbixioNode s3 (default s3 (params !! "advertise_cluster")) Voter in
      let x := raft_add_learner r id node in
      match x.2 with
      | Err e => (x.1, admin_error 500 ("add_learner: " +:+ e))
      | Ok _ =>
          let y := raft_change_membership x.1 ({[id]} ∪ rm_voter_ids (raft_metrics x.1)) in
          (y.1, match y.2 with
                | Ok _ => admin_ok (ARaftDone "joined" (Some id))
                | Err e => admin_error 500 ("change_membership: " +:+ e)
                end)
      end
  end.

Definition raft_leave (r : R) : R * AdminAnswer :=
  let x := raft_change_membership r (rm_voter_ids (raft_metrics r) ∖ {[raft_node_id r]}) in
  (x.1, match x.2 with
        | Ok _ => admin_ok (ARaftDone "left" (Some (raft_node_id r)))
        | Err e => admin_error 500 ("change_membership: " +:+ e)
        end).

Definition raft_snapshot (r : R) : R * AdminAnswer :=
  let x := raft_trigger_snapshot r in
  (x.1, match x.2 with
        | Ok _ => admin_ok (ARaftDone "triggered" None)
        | Err e => admin_error 500 ("snapshot trigger failed: " +:+ e)
        end).

(** *** Dispatch *)

(** [path.ends_with(p)] *)
Definition ends_with (p path : string) : bool :=
  starts_with (string_of (rev (bytes_of p))) (string_of (rev (bytes_of path))).

(** [&path[7..path.len() - 4]], which panics when the two overlap. *)
Definition ftt_bucket (path : string) : option string :=
  let len := String.length path in
  if bool_decide (len - 4 < 7) then None else Some (string_of (sub_list 7 (len - 4 - 7) (bytes_of path))).

Definition admin_dispatch (path : string) (m : Method) (query : string) (t : Clock) (h : Handler)
    : option (Handler * AdminAnswer) :=
  let at_ p m' := bool_decide (path = p) && bool_decide (m = m') in
  if at_ "status" MGet then Some (h, admin_status (now_secs t) h)
  else if at_ "disks" MGet then Some (h, admin_disks h)
  else if at_ "heal" MGet then Some (h, heal_status (now_secs t) h)
  else if at_ "heal" MPost then Some (heal_object_handler query h)
  else if at_ "object" MGet then inspect_object query t h
  else if at_ "flush" MPost then
    r ← attempt (flush_write_cache t) (ah_store h); Some (ah_set_store r.1 h, admin_ok AFlushed)
  else if at_ "metrics" MGet then
    Some (h, if ah_metrics h then admin_ok AMetricsText else admin_error 503 "metrics disabled")
  else if at_ "raft/peers" MGet then Some (with_raft_handle h raft_peers)
  else if at_ "raft/primary" MGet then Some (with_raft_handle h raft_primary)
  else if at_ "raft/snapshot" MPost then Some (with_raft_handle h raft_snapshot)
  else if at_ "raft/bootstrap" MPost then Some (with_raft_handle h (raft_bootstrap (ah_config h)))
  else if at_ "raft/join" MPost then Some (with_raft_handle h (raft_join query))
  else if at_ "raft/leave" MPost then Some (with_raft_handle h raft_leave)
  else if at_ "cluster/status" MGet then Some (h, admin_ok (AClusterStatus (status_response (ah_cluster h))))
  else if at_ "cluster/nodes" MGet then Some (h, admin_ok (AClusterNodes (nodes (ah_cluster h))))
  else if at_ "cluster/epochs" MGet then Some (h, admin_ok (AClusterEpochs (epochs (ah_cluster h))))
  else if at_ "cluster/topology" MGet then Some (h, admin_ok (AClusterTopology (topology (ah_cluster h))))
  else if starts_with "bucket/" path && ends_with "/ftt" path then
    bucket ← ftt_bucket path;
    match m with
    | MGet => get_bucket_ftt bucket h
    | MPut => set_bucket_ftt bucket query h
    | _ => Some (h, admin_error 405 "method not allowed")
    end
  else Some (h, admin_error 404 "unknown admin endpoint").

(** Nothing serves the identity exchange of a first boot. *)
Theorem join_endpoint_missing m query t h :
  admin_dispatch "cluster/join" m query t h = Some (h, admin_error 404 "unknown admin endpoint").
Proof. done. Qed.

End Admin.

(** ** Routing ([s3_route.rs]) *)

(** [path.trim_start_matches('/')] *)
Fixpoint trim_slashes (b : bytes) : bytes :=
  match b with c :: r => if Ascii.eqb c "/" then trim_slashes r else b | [] => [] end.

Inductive Route : Type :=
| ToStorage
| ToAdmin (admin_path : string)
| ToS3.

Definition route (path : string) : Route :=
  let trimmed := string_of (trim_slashes (bytes_of path)) in
  if starts_with "_storage/v1/" trimmed then ToStorage
  else if starts_with "_admin/" trimmed || bool_decide (trimmed = "_admin") then
    ToAdmin (if bool_decide (trimmed = "_admin") then "status" else string_of (drop 7 (bytes_of trimmed)))
  else ToS3.

(** The dispatcher over one shared state: the storage server and the administration API
    may be missing, the S3 service may fail. *)
Section Dispatch.
  Context {S Rq Rp : Type} (path_of : Rq -> string).
  Context (storage : option (S -> Rq -> option (S * Rp))) (admin : option (string -> S -> Rq -> option (S * Rp))).
  Context (s3 : S -> Rq -> option (S * result string Rp)) (error : N -> string -> Rp).

Definition dispatch_request (s : S) (rq : Rq) : option (S * Rp) :=
  match route (path_of rq) with
  | ToStorage => match storage with Some f => f s rq | None => Some (s, error 404 "no storage server") end
  | ToAdmin path => match admin with Some f => f path s rq | None => Some (s, error 404 "no admin handler") end
  | ToS3 => r ← s3 s rq; Some (r.1, match r.2 with Ok resp => resp | Err _ => error 500 "internal error" end)
  end.
End Dispatch.

(** [guess_op_label]: the label of a request in the metrics. *)
Definition has_key (path : string) : bool :=
  let trimmed := trim_slashes (bytes_of path) in
  match list_find (fun c => c = "/"%char) trimmed with
  | Some (i, _) => negb (bool_decide (drop (S i) trimmed = []))
  | None => false
  end.

Definition guess_op_label (m : Method) (path query : string) : string :=
  let key := has_key path in
  let pick (put del other : string) := match m with MPut => put | MDelete => del | _ => other end in
  if contains "uploads=" query || ends_with "uploads" query then "ListMultipartUploads"
  else if contains "uploadId=" query then
    match m with
    | MPost => "CompleteMultipartUpload" | MPut => "UploadPart" | MDelete => "AbortMultipartUpload" | _ => "ListParts"
    end
  else if contains "versioning" query then if bool_decide (m = MPut) then "PutBucketVersioning" else "GetBucketVersioning"
  else if contains "tagging" query then
    pick (if key then "PutObjectTagging" else "PutBucketTagging")
         (if key then "DeleteObjectTagging" else "DeleteBucketTagging")
         (if key then "GetObjectTagging" else "GetBucketTagging")
  else if contains "policy" query then pick "PutBucketPolicy" "DeleteBucketPolicy" "GetBucketPolicy"
  else if contains "lifecycle" query then
    pick "PutBucketLifecycleConfiguration" "DeleteBucketLifecycle" "GetBucketLifecycleConfiguration"
  else if contains "versions" query then "ListObjectVersions"
  else if contains "acl" query then if bool_decide (m = MPut) then "PutBucketAcl" else "GetBucketAcl"
  else match m, key with
       | MGet, false => if bool_decide (path = "/") then "ListBuckets" else "ListObjectsV2"
       | MHead, false => "HeadBucket"
       | MPut, false => "CreateBucket"
       | MDelete, false => "DeleteBucket"
       | MGet, true => "GetObject"
       | MHead, true => "HeadObject"
       | MPut, true => "PutObject"
       | MDelete, true => "DeleteObject"
       | MPost, _ => "PostObject"
       | MOther, _ => "Unknown"
       end.
