(* ===== verification/AdminSpec.v ===== *)
(** What the administration API promises: an inspection reports exactly which shards are
    there, a fenced node changes neither a bucket's tolerance nor an object, and no bucket
    is hidden behind the routes of the API. *)

From Stdlib Require Import Ascii.
From stdpp Require Import base list gmap strings numbers pretty sorting.
From S2P Require Import Policy.
From S2P Require Import Prelude Metadata Pathing Placement Erasure Backend ErasureDecode ErasurePut.
From S2P Require Import Caches Heal RaftFsm FileSys VolumePool PoolSpec PoolRefine PoolStream PoolSettings.
From S2P Require Import Config Topology ClusterManager Internode StorageServer PeerReplica Admin.

Open Scope string_scope.
Open Scope list_scope.

(** ** Inspection *)

Section Inspect.
  Context `{Hashes} {B W : Type} `{!Backend B W} `{!HealBackend B} `{!PoolBackend B}.
  Context (meta : ObjectMeta) (dist : list nat).

(** The shard [i] lies on volume [j0 + j] of [reads], which answers. *)
Definition ok_at (j0 : nat) (reads : list (option (bytes * ObjectMeta))) (i : nat) (info : ShardInfo) : Prop :=
  exists j data m, dist !! i = Some (j0 + j) /\ reads !! j = Some (Some (data, m)) /\
    info = mkShardInfo i (j0 + j) (volume_or meta i (j0 + j)) "ok" (Some (checksum m)).

(** Every read is a shard of the object, from the volume it belongs to. *)
Definition proper_reads (j0 : nat) (reads : list (option (bytes * ObjectMeta))) (total : nat) : Prop :=
  forall j data m, reads !! j = Some (Some (data, m)) -> exists i, i < total /\ index (erasure m) = i /\
    dist !! i = Some (j0 + j) /\ quorum_eq m meta = true /\ verify_shard_checksum data (checksum m) = true.

Lemma ok_at_cons j0 r reads i info : ok_at (S j0) reads i info -> ok_at j0 (r :: reads) i info.
Proof.
  intros (j & data & m & Hd & Hr & ->). exists (S j), data, m. by rewrite Nat.add_succ_r.
Qed.

Lemma shard_reports_ok j0 reads (v : list (option ShardInfo)) i :
  NoDup dist -> proper_reads j0 reads (length v) ->
  (exists info, ok_at j0 reads i info /\ shard_reports meta j0 reads v !! i = Some (Some info)) \/
  ((forall info, ~ ok_at j0 reads i info) /\ shard_reports meta j0 reads v !! i = v !! i).
Proof.
  intros Hnd. revert j0 v. induction reads as [|r reads IH]; intros j0 v Hp.
  { right. split; [|done]. by intros info (j & data & m & _ & Hr & _). }
  assert (Hp' : proper_reads (S j0) reads (length v)).
  { intros j data m Hr. destruct (Hp (S j) data m Hr) as (i0 & ? & ? & Hd & ? & ?). exists i0.
    split_and!; try done. by rewrite Hd, Nat.add_succ_r. }
  assert (Hnot : (forall info, ~ ok_at (S j0) reads i info) -> dist !! i = Some j0 \/
    (forall info, ~ ok_at j0 (r :: reads) i info)).
  { intros Hn. destruct (decide (dist !! i = Some j0)) as [E|E]; [by left|right].
    intros info ([|j] & data & m & Hd & Hr & ->); [by rewrite Nat.add_0_r in Hd|].
    eapply Hn. exists j, data, m. rewrite Nat.add_succ_r in Hd. by split_and!. }
  cbn [shard_reports]. destruct r as [[data m]|]; cbn [shard_report].
  - destruct (Hp 0 data m eq_refl) as (i0 & Hi0 & Hidx & Hd & Hq & Hv). rewrite Nat.add_0_r in Hd.
    rewrite Hidx, bool_decide_eq_false_2, Hq, Hv by lia. cbn [andb]. set (x := Some (mkShardInfo _ _ _ _ _)).
    destruct (IH (S j0) (<[i0 := x]> v)) as [(info & Hok & E)|[Hn E]].
    { by rewrite length_insert. }
    + left. exists info. split; [by apply ok_at_cons|done].
    + destruct (decide (i = i0)) as [->|Hne].
      * left. eexists. rewrite E, list_lookup_insert_eq by done. split; [|done]. exists 0, data, m. by rewrite Nat.add_0_r.
      * right. rewrite E, list_lookup_insert_ne by done. split; [|done]. destruct (Hnot Hn) as [Ed|]; [|done].
        by rewrite (NoDup_lookup _ _ _ _ Hnd Ed Hd) in Hne.
  - destruct (IH (S j0) v Hp') as [(info & Hok & E)|[Hn E]].
    + left. exists info. split; [by apply ok_at_cons|done].
    + right. split; [|done]. destruct (Hnot Hn) as [Ed|]; [|done].
      intros info ([|j] & data & m & Hd & Hr & ->); [done|]. eapply Hn. exists j, data, m.
      rewrite Nat.add_succ_r in Hd. by split_and!.
Qed.

Lemma shard_reports_length j0 reads (v : list (option ShardInfo)) : length (shard_reports meta j0 reads v) = length v.
Proof.
  revert j0 v. induction reads as [|[[data m]|] reads IH]; intros j0 v; cbn; [done| |done].
  rewrite IH. case_bool_decide; [done|]. by rewrite length_insert.
Qed.
End Inspect.

(** Whichever volume answers first, its metadata is that of the object. *)
Lemma placed_head `{Hashes} `{ReedSolomon} {B W : Type} `{!Backend B W} (disks : list B) c pn n data dist shards :
  placed c pn n data dist shards disks -> 0 < n ->
  exists data0 i0 s0, head (omap id (map (fun d => result_ok (read_shard d (pc_bucket c) (pc_key c))) disks))
    = Some (data0, shard_meta c pn data i0 s0).
Proof.
  intros [Honly (idxs & _ & Hlen & Hidx)] Hn. set (reads := map _ disks). destruct idxs as [|i idxs]; [simpl in Hlen; lia|].
  destruct (Hidx i ltac:(by left)) as (j & d & s & _ & Hd & _ & Hr).
  destruct (head_omap id reads) as (x & [d0 m0] & Hx & Hid & Hh).
  { eexists (Some (s, _)), _. split; [|done]. apply list_elem_of_fmap. exists d. rewrite Hr. split; [done|].
    by eapply list_elem_of_lookup_2. }
  unfold id in Hid. subst x. apply list_elem_of_fmap in Hx as (d' & Hr' & [j' Hj']%list_elem_of_lookup).
  destruct (read_shard d' _ _) as [[s' m']|] eqn:E; [|done]. injection Hr' as -> ->.
  destruct (Honly _ _ _ _ Hj' E) as (i' & _ & _ & ->). by exists s', i', s'.
Qed.

(** C16: An inspection of an object is exact.  When the volumes hold shards of one object
    (any of them lost, at least one there), the report has one entry per shard, in order,
    says [ok] with the volume and the checksum exactly for the shards whose volume still
    has them and [missing] for the others, and gives the size and the coding parameters of
    the object. *)
Theorem inspect_exact `{Hashes} `{ReedSolomon} {B W : Type} `{!Backend B W} `{!HealBackend B} `{!PoolBackend B}
    (disks : list B) c dn pn n data dist shards :
  striped (length disks) c dn pn data dist shards -> placed c pn n data dist shards disks -> 0 < n ->
  (N.of_nat (length disks) < 2 ^ 64)%N ->
  exists r, inspect_disks (pc_bucket c) (pc_key c) disks = admin_ok (AInspect r) /\
    oi_size r = N.of_nat (length data) /\ oi_data r = dn /\ oi_parity r = pn /\ length (oi_shards r) = dn + pn /\
    forall i j d, dist !! i = Some j -> disks !! j = Some d -> exists info, oi_shards r !! i = Some info /\ sh_index info = i /\
      match read_shard d (pc_bucket c) (pc_key c) with
      | Ok (s, _) => sh_status info = "ok" /\ sh_disk info = j /\ sh_checksum info = Some (blake3_hex s)
      | Err _ => sh_status info = "missing" /\ sh_checksum info = None
      end.
Proof.
  intros Hst Hp Hn Hw. unfold inspect_disks. set (reads := map _ disks).
  destruct (placed_head _ _ _ _ _ _ _ Hp Hn) as (data0 & i0 & s0 & Hh). fold reads in Hh. rewrite Hh.
  set (meta := shard_meta c pn data i0 s0).
  pose proof (shard_meta_ec c dn pn data i0 s0) as Hec. fold meta in Hec. unfold meta_ec in Hec.
  rewrite (st_volumes _ _ _ _ _ _ _ Hst), (st_total _ _ _ _ _ _ _ Hst) in Hec. specialize (Hec eq_refl Hw).
  pose proof (f_equal fst Hec) as Hed. pose proof (f_equal snd Hec) as Hep. cbn [fst snd] in Hed, Hep. rewrite Hed, Hep. eexists. split; [done|]. cbn [oi_size oi_data oi_parity oi_shards].
  split; [cbn; rewrite wrap_small; [done|apply Hst]|]. do 2 (split; [done|]).
  split; [by rewrite length_imap, shard_reports_length, length_replicate|].
  intros i j d Hi Hj. pose proof (Permutation_length (st_dist _ _ _ _ _ _ _ Hst)) as Hdl. rewrite length_seq in Hdl.
  pose proof (lookup_lt_Some _ _ _ Hi) as Hlt. rewrite Hdl, <- (st_total _ _ _ _ _ _ _ Hst) in Hlt.
  destruct (shard_reports_ok meta dist 0 reads (replicate (dn + pn) None) i) as [(info & Hok & E)|[Hno E]].
  - apply (NoDup_Permutation_proper _ _ (st_dist _ _ _ _ _ _ _ Hst)), NoDup_seq.
  - intros j' s m Hr. unfold reads in Hr. rewrite list_lookup_fmap in Hr. destruct (disks !! j') as [d'|] eqn:Ej; [|done].
    injection Hr as Hr. destruct (read_shard d' _ _) as [[s' m']|] eqn:Er; [|done]. injection Hr as -> ->.
    destruct (placed_only _ _ _ _ _ _ _ Hp j' d' s m Ej Er) as (i' & Hi' & _ & ->). exists i'.
    rewrite length_replicate. split_and!; [|done|done| |apply verify_blake3].
    + pose proof (lookup_lt_Some _ _ _ Hi'). rewrite Hdl, <- (st_total _ _ _ _ _ _ _ Hst) in *. lia.
    + by apply quorum_eq_key.
  - exists info. rewrite list_lookup_imap, E. destruct Hok as (j' & s & m & Hd' & Hr & ->). rewrite Hi in Hd'. injection Hd' as ->.
    unfold reads in Hr. rewrite list_lookup_fmap, Hj in Hr. cbn in Hr.
    destruct (read_shard d _ _) as [[s' m']|] eqn:Er; [|done]. injection Hr as -> ->.
    destruct (placed_only _ _ _ _ _ _ _ Hp j' d s m Hj Er) as (i' & _ & _ & ->). done.
  - exists (missing_shard meta i). rewrite list_lookup_imap, E, lookup_replicate_2 by done. split_and!; [done|done|].
    destruct (read_shard d _ _) as [[s m]|] eqn:Er; [|done]. exfalso. eapply Hno. exists j, s, m.
    unfold reads. rewrite list_lookup_fmap, Hj. cbn. by rewrite Er.
Qed.

(** ** Fencing *)

Section Fenced.
  Context `{Hashes} `{ReedSolomon} `{Http} {B W P R : Type} `{!Backend B W} `{!HealBackend B} `{!PoolBackend B} `{!RaftControl R}.
  Context (disk_info : B -> string * option N * option N * option N).

Lemma with_raft_store (h h' : AdminHandler B P R) f a : with_raft_handle h f = (h', a) -> ah_store h' = ah_store h.
Proof. unfold with_raft_handle. destruct (ah_raft h); by intros [= <- _]. Qed.

Lemma get_ftt_pure (p : VolumePool B P) b p' r : get_ftt b p = Some (p', r) -> p' = p.
Proof.
  unfold get_ftt, require_bucket, head_bucket, gets, fail, lift, mbind, pool_bind, mret, pool_ret.
  destruct (validate_bucket_name b); [|by intros [= <- _]]. case_bool_decide; by intros [= <- _].
Qed.

Lemma fenced_heal (h : AdminHandler B P R) q :
  allows_mutation (ah_cluster h) = false -> heal_object_handler q h = (h, admin_error 503 "cluster is fenced").
Proof. intros Hf. unfold heal_object_handler. by rewrite Hf. Qed.

Lemma fenced_ftt (h h' : AdminHandler B P R) b q a :
  allows_mutation (ah_cluster h) = false -> set_bucket_ftt b q h = Some (h', a) -> h' = h.
Proof.
  intros Hf. unfold set_bucket_ftt. rewrite Hf. destruct (validate_bucket_name b); by intros [= <- _].
Qed.

Lemma get_bucket_ftt_store (h h' : AdminHandler B P R) b a :
  get_bucket_ftt b h = Some (h', a) -> ah_store h' = ah_store h.
Proof.
  unfold get_bucket_ftt. destruct (validate_bucket_name b); [|by intros [= <- _]].
  intros E. apply bind_Some in E as ([p' r] & E & [= <- _]). by apply get_ftt_pure in E as ->.
Qed.
End Fenced.

(** The path of a bucket's tolerance names that bucket. *)
Lemma ftt_path_ends b : starts_with "bucket/" ("bucket/" +:+ b +:+ "/ftt") && ends_with "/ftt" ("bucket/" +:+ b +:+ "/ftt") = true.
Proof.
  unfold ends_with, starts_with. rewrite !bytes_of_string_of, !bytes_of_app, !rev_app_distr, <- !app_assoc.
  apply andb_true_iff. split; apply prefixb_spec; by eexists.
Qed.

Lemma ftt_bucket_path b : ftt_bucket ("bucket/" +:+ b +:+ "/ftt") = Some b.
Proof.
  unfold ftt_bucket. assert (El : String.length ("bucket/" +:+ b +:+ "/ftt") = 7 + (String.length b + 4)).
  { by rewrite <- !length_bytes_of, !bytes_of_app, !length_app. }
  rewrite El, bool_decide_eq_false_2 by lia. f_equal.
  rewrite !bytes_of_app, sub_list_app_mid; [apply string_of_bytes_of|done|rewrite length_bytes_of; lia].
Qed.

(** C17: A fenced node serves the administration API read-only: whatever the request, as
    long as it is not one of the two that destage the write cache ([POST flush] and [GET
    object]), the volumes, the caches and the settings on them are as before; the two
    requests that would change them, the tolerance of a bucket and the repair of an object,
    are refused. *)
Theorem fenced_admin_is_readonly `{Hashes} `{ReedSolomon} `{Http} {B W P R : Type} `{!Backend B W} `{!HealBackend B}
    `{!PoolBackend B} `{!RaftControl R} disk_info path m query t (h h' : AdminHandler B P R) a :
  allows_mutation (ah_cluster h) = false -> (path, m) <> ("flush", MPost) -> (path, m) <> ("object", MGet) ->
  admin_dispatch disk_info path m query t h = Some (h', a) ->
  ah_store h' = ah_store h /\ ((path, m) = ("heal", MPost) -> a = admin_error 503 "cluster is fenced") /\
  (forall b, (path, m) = ("bucket/" +:+ b +:+ "/ftt", MPut) -> validate_bucket_name b = Ok tt ->
     a = admin_error 503 "cluster is fenced").
Proof.
  intros Hf Hflush Hobj. unfold admin_dispatch. cbv zeta.
  repeat match goal with |- (if bool_decide (path = ?p) && bool_decide (m = ?m') then _ else _) = _ -> _ =>
    destruct (decide ((path, m) = (p, m'))) as [[= -> ->]|?];
      [rewrite !bool_decide_eq_true_2 by done; cbn [andb]
      |replace (bool_decide (path = p) && bool_decide (m = m')) with false
         by (symmetry; apply andb_false_iff; rewrite !bool_decide_eq_false; destruct (decide (path = p)); [right|by left]; congruence)]
  end;
  first
    [by exfalso
    |by (intros [= <- <-]; split_and!; [done|intros [=]|intros b [=]])
    |by (rewrite fenced_heal by done; intros [= <- <-]; split_and!; [done|done|intros b [=]])
    |intros E; injection E as E; split_and!; [by eapply with_raft_store|by intros [=]|by intros b [=]]
    |idtac].
  intros E. split; [|split; [done|intros b [= -> ->] Hb]].
  - destruct (starts_with "bucket/" path && ends_with "/ftt" path); [|by injection E as <- _].
    apply bind_Some in E as (b & _ & E). destruct m; try by injection E as <- _.
    + by eapply get_bucket_ftt_store.
    + f_equal. by eapply fenced_ftt.
  - rewrite ftt_path_ends, ftt_bucket_path in E. cbn [mbind option_bind] in E. unfold set_bucket_ftt in E.
    rewrite Hb, Hf in E. by injection E as _ <-.
Qed.

(** ** Routing *)

Lemma underscore_not_ws l : ws_char_front ("_"%char :: l) = None.
Proof. destruct l as [|b [|c l]]; [done|by destruct b as [[] [] [] [] [] [] [] []]|done]. Qed.

Lemma valid_bucket_head b : validate_bucket_name b = Ok tt ->
  exists c r, bytes_of b = c :: r /\ c <> "/"%char /\ c <> "_"%char.
Proof.
  intros Hv. destruct (valid_bucket_good b Hv) as (Hs & He & _).
  destruct (valid_bucket_trimmed b Hv) as (_ & c' & Hc & Hal).
  destruct (bytes_of b) as [|c r] eqn:E; [done|]. exists c, r. split_and!; [done| |].
  - intros ->. apply Hs. left.
  - intros ->. unfold trim_bytes in Hc. cbn [length strip_while] in Hc. rewrite underscore_not_ws in Hc.
    destruct (strip_while_split ws_char_back (length ("_"%char :: r)) (rev ("_"%char :: r)) ws_char_back_split) as (w & Hw & _).
    apply (f_equal (@rev _)) in Hw. rewrite rev_involutive, rev_app_distr in Hw. cbn [length] in Hw.
    destruct (rev (strip_while _ _ _)) as [|x t]; [done|]. injection Hc as <-. injection Hw as <- _. done.
Qed.

(** The three services do not hide each other.  A path whose first segment is a bucket
    that can exist goes to S3, whatever the key and however many slashes lead it; a path
    under [_storage/v1/] goes to the storage RPC and one under [_admin/] to the
    administration API, which gets the rest of the path. *)
Theorem routes_are_disjoint n b rest :
  let at_ p := string_of (replicate n "/"%char) +:+ p +:+ rest in
  (validate_bucket_name b = Ok tt -> route (at_ b) = ToS3) /\
  route (at_ "_storage/v1/") = ToStorage /\ route (at_ "_admin/") = ToAdmin rest.
Proof.
  cbv zeta. assert (Ht : forall p c r, bytes_of p = c :: r -> c <> "/"%char ->
    trim_slashes (bytes_of (string_of (replicate n "/"%char) +:+ p +:+ rest)) = c :: r ++ bytes_of rest).
  { intros p c r Hp Hc. rewrite !bytes_of_app, bytes_of_string_of, Hp. induction n as [|k IH]; [|exact IH].
    cbn. by destruct (Ascii.eqb_spec c "/"). }
  split_and!; [intros Hv; destruct (valid_bucket_head b Hv) as (c & r & E & Hs & Hu)|..]; unfold route, starts_with.
  - rewrite (Ht b c r E Hs), !bytes_of_string_of. cbn [bytes_of prefixb].
    destruct (Ascii.eqb_spec "_" c) as [Ec|_]; [by subst c|]. cbn [andb orb]. rewrite bool_decide_eq_false_2; [done|]. by intros [= Ec _].
  - by rewrite (Ht "_storage/v1/" _ _ eq_refl).
  - rewrite (Ht "_admin/" _ _ eq_refl) by done. rewrite !bytes_of_string_of. cbn -[bool_decide].
    rewrite bool_decide_eq_false_2 by done. f_equal. apply string_of_bytes_of.
Qed.

(** ** A pool in memory *)

Global Instance unit_raft : RaftControl unit := {|
  raft_node_id := fun _ => 1%N; raft_members := fun _ => [];
  raft_metrics := fun _ => mkRaftMetrics (Some 1%N) "Leader" 1 None None {[ 1%N ]};
  raft_initialize := fun r _ => (r, Err "already initialized"); raft_add_learner := fun r _ _ => (r, Ok tt);
  raft_change_membership := fun r _ => (r, Ok tt); raft_trigger_snapshot := fun r => (r, Ok tt) |}.

Section Demo.
  Local Existing Instances example_hashes xor_code xor_code_ok demo_uuid demo_http all_names.

(** After a PUT over two volumes without a write cache, the first volume is replaced. *)
Lemma inspect_exact_witness : exists disks r, inspect_disks "photos" "cat" disks = admin_ok (AInspect r) /\
  length disks = 2 /\ oi_size r = 4%N /\ exists info, info ∈ oi_shards r /\ sh_status info = "missing".
Proof.
  destruct (put_small_coherent (uncached demo_pool) ∅ "photos" "cat" [bytes_of "meow"] demo_opts (demo_clock 1))
    as (p' & E & Hco & Hch); [by destruct demo_coh; constructor|done|done|done|done|by left|].
  assert (Hwc : vp_write_cache p' = None).
  { apply (f_equal (fun r => option_map (fun x => vp_write_cache x.1) r)) in E. vm_compute in E. by injection E. }
  destruct (co_disks _ _ _ _ _ Hco "photos" "cat" eq_refl) as (v & Hd & Hv). rewrite Hwc in Hv.
  rewrite (Hv eq_refl), lookup_insert_eq in Hd. apply Forall2_length in Hch. cbn in Hch.
  destruct Hd as (c & dn & pn & dist & shards & Hst & Hb & Hk & _ & Hp).
  set (disks := <[0 := demo_disk "v1"]> (vp_disks p')). assert (Hl : length disks = 2) by (unfold disks; by rewrite length_insert).
  assert (Hp' : placed c pn 1 (bytes_of "meow") dist shards disks).
  { apply (placed_after_loss _ _ _ _ _ _ [0] (vp_disks p')).
    - apply (NoDup_Permutation_proper _ _ (st_dist _ _ _ _ _ _ _ Hst)), NoDup_seq.
    - pose proof (st_total _ _ _ _ _ _ _ Hst) as Ht. rewrite <- Hch in Ht. cbn. by rewrite Ht in Hp.
    - rewrite Hb, Hk. split; [intros j Hj; apply list_lookup_insert_ne; intros <-; apply Hj; left|].
      intros j d Hj%list_elem_of_singleton Hd. subst j. unfold disks in Hd. rewrite list_lookup_insert_eq in Hd by (rewrite <- Hch; lia).
      by injection Hd as <-. }
  rewrite <- Hch, <- Hl in Hst.
  destruct (inspect_exact disks c dn pn 1 (bytes_of "meow") dist shards Hst Hp' ltac:(lia) ltac:(by rewrite Hl))
    as (r & Er & Hs & _ & _ & _ & Hsh).
  exists disks, r. rewrite Hb, Hk in *. split_and!; [exact Er|exact Hl|exact Hs|].
  destruct (list_elem_of_lookup_1 dist 0) as [i Hi]; [rewrite (st_dist _ _ _ _ _ _ _ Hst), Hl; left|].
  assert (H0 : disks !! 0 = Some (demo_disk "v1")) by (apply list_lookup_insert_eq; rewrite <- Hch; lia).
  destruct (Hsh i 0 _ Hi H0) as (info & Hinfo & _ & Hm). exists info.
  split; [by eapply list_elem_of_lookup_2|exact (proj1 Hm)].
Defined.

Definition fenced_manager : ClusterManager :=
  mkManager (demo_cluster_config "node-a" "http://a" ["http://a"; "http://b"])
    (mkPersisted (mkClusterSummary true "c" "node-a" None Fenced 1 "node-a" 2 2 1 2 (Some "no quorum"))
       (mkClusterTopology "c" (mkClusterEpoch 1 "node-a" 0 2 1) [] []) []) (mkFS ∅ ∅).
Definition demo_admin (p : VolumePool MemVolume MemPeer) : AdminHandler MemVolume MemPeer unit :=
  admin_new p (stats_new 0) (mkAdminConfig ":10000" 2 true "1h" "1h" 2 "node-a" "http://a" "http://a" 2) fenced_manager.
Definition no_info (d : MemVolume) : string * option N * option N * option N := ("", None, None, None).

Lemma fenced_admin_is_readonly_witness : exists h' a,
  admin_dispatch no_info "bucket/photos/ftt" MPut "ftt=0" (demo_clock 1) (demo_admin demo_pool) = Some (h', a) /\
  ah_store h' = demo_pool /\ a = admin_error 503 "cluster is fenced".
Proof.
  assert (E : admin_dispatch no_info "bucket/photos/ftt" MPut "ftt=0" (demo_clock 1) (demo_admin demo_pool)
    = Some (demo_admin demo_pool, admin_error 503 "cluster is fenced")) by (vm_compute; reflexivity).
  exists (demo_admin demo_pool), (admin_error 503 "cluster is fenced"). split; [exact E|].
  destruct (fenced_admin_is_readonly no_info "bucket/photos/ftt" MPut "ftt=0" (demo_clock 1) (demo_admin demo_pool) _ _
    ltac:(vm_compute; reflexivity) ltac:(discriminate) ltac:(discriminate) E) as (Hs & _ & Hr).
  split; [exact Hs|]. apply (Hr "photos"); [reflexivity|]. vm_compute. reflexivity.
Defined.

(** The path [bucket/ftt] matches both ends of the pattern for a bucket's tolerance and is
    too short for it: the slice of the name panics, whatever the method. *)
Theorem short_ftt_path_panics m query t (h : AdminHandler MemVolume MemPeer unit) :
  admin_dispatch no_info "bucket/ftt" m query t h = None.
Proof. by destruct m. Qed.

(** The statuses an inspection gives. *)
Definition statuses (a : AdminAnswer) : list string :=
  match aa_body a with AInspect r => map sh_status (oi_shards r) | _ => [] end.

(** The inspection trusts the first volume that answers: after a volume that missed an
    overwrite is back in the first place, its stale shard is the one that is [ok], the
    fresh one is [corrupt] and the size is that of the old object; the report does not tell
    this from a stale volume in the last place. *)
Theorem inspection_trusts_first_volume :
  let p1 := (after (demo_put "cat" "old" 1) (uncached demo_pool)).1 in
  let p2 := (after (demo_put "cat" "fresh" 2) p1).1 in
  match vp_disks p1, vp_disks p2 with
  | [o0; o1], [n0; n1] =>
      let in_order d0 d1 := inspect_disks "photos" "cat" [d0; d1] in
      statuses (in_order n0 n1) = ["ok"; "ok"] /\
      statuses (in_order o0 n1) = statuses (in_order n0 o1) /\ "corrupt" ∈ statuses (in_order o0 n1) /\
      (exists r, aa_body (in_order o0 n1) = AInspect r /\ oi_size r = 3%N)
  | _, _ => False
  end.
Proof.
  vm_compute. split_and!; [reflexivity|reflexivity|set_solver|eexists; split; reflexivity].
Qed.

(** Reading the label of a request from its query: the start of a multipart upload is
    counted as a listing of uploads. *)
Theorem upload_start_mislabelled : guess_op_label MPost "/photos/cat" "uploads" = "ListMultipartUploads".
Proof. vm_compute. reflexivity. Qed.

End Demo.
