(* ===== verification/Metrics.v ===== *)
(** The metrics of a node ([src/metrics/mod.rs], [metrics/http.rs]) and who writes them: the S3
    dispatcher after a request, [VolumePool::refresh_scrape_gauges] and the metrics endpoint at a
    scrape, the lifecycle loop after a pass.

    The metrics are shared, and each change of one is atomic: a function that writes them is the
    list of the changes it makes, and writers that run at the same time mix their lists.  The
    prometheus crate is the class [Prometheus]: which descriptions it accepts, its registry, and
    the value of a series, a metric with its labels.  Durations are nanoseconds. *)

From Stdlib Require Import Ascii ZArith.
From stdpp Require Import base list gmap strings numbers pretty.
From S2P Require Import Policy Prelude Metadata Pathing Placement Erasure Backend ErasureDecode ErasurePut Lifecycle.
From S2P Require Import Caches Heal RaftFsm FileSys LocalVolume VolumePool Config Topology ClusterManager Internode StorageServer RemoteVolume Admin.

Open Scope string_scope.
Open Scope list_scope.

(** ** Classes of answers *)

Inductive StatusClass : Type := StatusOk | ClientErr | ServerErr.

Definition as_str (s : StatusClass) : string :=
  match s with StatusOk => "ok" | ClientErr => "client_err" | ServerErr => "server_err" end.

Definition from_http_status (code : N) : StatusClass :=
  if bool_decide (code <= 399)%N then StatusOk
  else if bool_decide (400 <= code <= 499)%N then ClientErr
  else ServerErr.

(** ** The metrics and their descriptions *)

(** The bounds of a histogram's buckets are in milliseconds. *)
Inductive MetricKind : Type := KCounter | KGauge | KHistogram (buckets : list N).

Record Opts : Type := mkOpts {
  o_kind : MetricKind;
  o_name : string;
  o_help : string;
  o_labels : list string;
}.

Definition request_families : list Opts := [
  mkOpts KCounter "abixio_s3_requests_total" "S3 requests served, labelled by op and status class." ["op"; "status_class"];
  mkOpts (KHistogram [1; 5; 10; 50; 100; 500; 1000; 5000; 10000]%N) "abixio_s3_request_duration_seconds"
    "S3 request wall-clock duration, seconds." ["op"];
  mkOpts KCounter "abixio_s3_bytes_sent_total" "Response body bytes sent." ["op"];
  mkOpts KCounter "abixio_s3_bytes_received_total" "Requested body bytes received." ["op"]].

Definition cache_families : list Opts := [
  mkOpts KCounter "abixio_write_cache_hits_total" "Reads served from the RAM write cache." [];
  mkOpts KCounter "abixio_write_cache_replicate_success_total" "Successful peer cache replications." [];
  mkOpts KCounter "abixio_write_cache_replicate_fail_total" "Peer cache replication failures that fell through to disk." [];
  mkOpts KCounter "abixio_read_cache_hits_total" "GETs served from the LRU read cache." [];
  mkOpts KCounter "abixio_read_cache_misses_total" "GETs that missed the LRU read cache and went to disk." [];
  mkOpts KGauge "abixio_write_cache_bytes" "Bytes held in the write cache." [];
  mkOpts KGauge "abixio_write_cache_entries" "Entries in the write cache." [];
  mkOpts KGauge "abixio_read_cache_bytes" "Bytes held in the read cache." [];
  mkOpts KGauge "abixio_read_cache_entries" "Entries in the read cache." []].

Definition wal_families : list Opts := [
  mkOpts KCounter "abixio_wal_materialized_total" "WAL entries materialized to the file tier." [];
  mkOpts KCounter "abixio_wal_materialize_failed_total" "WAL materialize attempts that returned an error." [];
  mkOpts KGauge "abixio_wal_pending_entries" "Un-materialized entries in the WAL, per disk." ["disk"]].

Definition worker_families : list Opts := [
  mkOpts KCounter "abixio_heal_repaired_total" "Objects repaired by the heal worker." [];
  mkOpts KCounter "abixio_heal_unrecoverable_total" "Objects the heal worker could not reconstruct." [];
  mkOpts KGauge "abixio_mrf_queue_depth" "Pending heal requests in the MRF queue." [];
  mkOpts KCounter "abixio_scanner_objects_checked_total" "Objects inspected by the integrity scanner." [];
  mkOpts KGauge "abixio_scanner_last_pass_seconds" "Wall-clock seconds of the last scanner pass." [];
  mkOpts KCounter "abixio_lifecycle_deleted_total" "Objects deleted (or delete-markered) by lifecycle rules." [];
  mkOpts KCounter "abixio_lifecycle_deleted_versions_total" "Noncurrent versions deleted by lifecycle rules." [];
  mkOpts KCounter "abixio_lifecycle_delete_markers_reaped_total" "Expired delete markers cleaned up by lifecycle rules." [];
  mkOpts KCounter "abixio_lifecycle_multipart_aborted_total" "Incomplete multipart uploads aborted by lifecycle rules." [];
  mkOpts KGauge "abixio_lifecycle_last_pass_seconds" "Wall-clock seconds of the last lifecycle enforcement pass." []].

Definition storage_families : list Opts := [
  mkOpts KGauge "abixio_disk_bytes_total" "Filesystem total bytes per disk." ["disk"];
  mkOpts KGauge "abixio_disk_bytes_used" "Filesystem used bytes per disk." ["disk"];
  mkOpts KGauge "abixio_disk_bytes_free" "Filesystem free bytes per disk." ["disk"]].

Definition cluster_families : list Opts := [
  mkOpts KGauge "abixio_cluster_state" "One gauge per state, 1 for current, 0 otherwise." ["state"];
  mkOpts KGauge "abixio_cluster_reachable_voters" "Voters reachable from this node, including self." [];
  mkOpts KGauge "abixio_cluster_quorum" "Voters required for quorum." [];
  mkOpts KGauge "abixio_cluster_epoch_id" "Current cluster epoch id." []].

Definition families : list Opts :=
  request_families ++ cache_families ++ wal_families ++ worker_families ++ storage_families ++ cluster_families.

(** ** The prometheus crate *)

(** A metric and the values of its labels. *)
Abbreviation Series := (string * list string)%type.

(** One atomic change. *)
Inductive MeterOp : Type :=
  | IncBy (s : Series) (n : N)
  | Reset_ (s : Series)
  | SetTo (s : Series) (v : Z)
  | Observe (s : Series) (d : N).

Class Prometheus (R : Type) : Type := {
  (** [Opts::new] with its labels is accepted. *)
  desc_ok : Opts -> bool;
  registry_new : R;
  registered : R -> list Opts;
  (** [None]: refused. *)
  register : Opts -> R -> option R;
  meter_op : MeterOp -> R -> R;
  counter : R -> Series -> N;
  gauge : R -> Series -> Z;
  samples : R -> Series -> list N;
}.

(** What a change does to the series [t]; counters are [u64] and wrap. *)
Definition counter_after (o : MeterOp) (t : Series) (v : N) : N :=
  match o with
  | IncBy s n => if bool_decide (s = t) then as_u64 (v + n) else v
  | Reset_ s => if bool_decide (s = t) then 0%N else v
  | _ => v
  end.
Definition gauge_after (o : MeterOp) (t : Series) (v : Z) : Z :=
  match o with SetTo s z => if bool_decide (s = t) then z else v | _ => v end.
Definition samples_after (o : MeterOp) (t : Series) (l : list N) : list N :=
  match o with Observe s d => if bool_decide (s = t) then l ++ [d] else l | _ => l end.

(** Names as the crate documents them: letters, digits, [_] and, in a metric, [:], and no digit
    first. *)
Definition name_char (colon first : bool) (c : ascii) : bool :=
  let n := N_of_ascii c in
  (bool_decide (65 <= n <= 90)%N || bool_decide (97 <= n <= 122)%N || bool_decide (n = 95)%N) ||
  (colon && bool_decide (n = 58)%N) || (negb first && bool_decide (48 <= n <= 57)%N).
Definition well_named (colon : bool) (s : string) : bool :=
  match bytes_of s with c :: r => name_char colon true c && forallb (name_char colon false) r | [] => false end.
Definition valid_opts (o : Opts) : bool :=
  well_named true (o_name o) && forallb (well_named false) (o_labels o) && bool_decide (NoDup (o_labels o)) &&
  negb (bool_decide (o_help o = "")).

Class PrometheusOk (R : Type) `{!Prometheus R} : Prop := {
  desc_ok_valid o : valid_opts o = true -> desc_ok o = true;
  registered_new : registered registry_new = [];
  register_fresh o r : o_name o ∉ o_name <$> registered r ->
    exists r', register o r = Some r' /\ registered r' = registered r ++ [o] /\
      counter r' = counter r /\ gauge r' = gauge r /\ samples r' = samples r;
  counter_new t : counter registry_new t = 0%N;
  gauge_new t : gauge registry_new t = 0%Z;
  samples_new t : samples registry_new t = [];
  registered_op o r : registered (meter_op o r) = registered r;
  counter_op o r t : counter (meter_op o r) t = counter_after o t (counter r t);
  gauge_op o r t : gauge (meter_op o r) t = gauge_after o t (gauge r t);
  samples_op o r t : samples (meter_op o r) t = samples_after o t (samples r t);
}.

(** ** The code *)

Section Metrics.
  Context {R : Type} `{!Prometheus R}.

(** A constructor that refuses its description panics; a refused registration is ignored. *)
Definition new_family (r : option R) (o : Opts) : option R :=
  r ← r; if desc_ok o then Some (default r (register o r)) else None.

(** [Metrics::new] *)
Definition metrics_new : option R := fold_left new_family families (Some registry_new).

Definition apply_ops (l : list MeterOp) (r : R) : R := fold_left (flip meter_op) l r.

End Metrics.

Definition record_request (op : string) (status : StatusClass) (duration bytes_in bytes_out : N) : list MeterOp :=
  [IncBy ("abixio_s3_requests_total", [op; as_str status]) 1; Observe ("abixio_s3_request_duration_seconds", [op]) duration] ++
  (if bool_decide (0 < bytes_in)%N then [IncBy ("abixio_s3_bytes_received_total", [op]) bytes_in] else []) ++
  (if bool_decide (0 < bytes_out)%N then [IncBy ("abixio_s3_bytes_sent_total", [op]) bytes_out] else []).

(** [record_s3] *)
Definition record_s3 (op : string) (http_status duration bytes_in bytes_out : N) : list MeterOp :=
  record_request op (from_http_status http_status) duration bytes_in bytes_out.

(** [u64 as i64] *)
Definition as_i64 (n : N) : Z := let v := Z.of_N (as_u64 n) in if bool_decide (v < 2 ^ 63)%Z then v else (v - 2 ^ 64)%Z.

(** [x.reset(); x.inc_by(v)] *)
Definition reset_to (name : string) (v : N) : list MeterOp := [Reset_ (name, []); IncBy (name, []) v].

Definition set_to (name : string) (v : N) : MeterOp := SetTo (name, []) (as_i64 v).

Record BackendInfo : Type := mkBackendInfo {
  bi_label : string;
  bi_volume_id : string;
  bi_backend_type : string;
  bi_total_bytes : option N;
  bi_used_bytes : option N;
  bi_free_bytes : option N;
}.

(** [LocalVolume::info]; [display] prints the root, [disk_space] asks the system. *)
Definition local_info (display : Path -> string) (disk_space : Path -> N * N) (v : LocalVolume) : BackendInfo :=
  let '(total, free) := disk_space (lv_root v) in
  mkBackendInfo ("local:" +:+ display (lv_root v)) (lv_volume_id v) "local" (Some total) (Some (u64_sat_sub total free)) (Some free).

(** [RemoteVolume::info] *)
Definition remote_info (r : RemoteVolume) : BackendInfo :=
  mkBackendInfo (rv_endpoint r +:+ ":" +:+ rv_volume_path r) "" "remote" None None None.

(** One disk of [refresh_scrape_gauges]. *)
Definition disk_gauges (info : BackendInfo) : list MeterOp :=
  let label := default (bi_label info) (strip_local (bi_label info)) in
  let set name v := match v with Some n => [SetTo (name, [label]) (as_i64 n)] | None => [] end in
  set "abixio_disk_bytes_total" (bi_total_bytes info) ++ set "abixio_disk_bytes_used" (bi_used_bytes info) ++
  set "abixio_disk_bytes_free" (bi_free_bytes info).

Section Scrape.
  Context {B P R : Type} (info : B -> BackendInfo).

Definition refresh_scrape_gauges (p : VolumePool B P) : list MeterOp :=
  flat_map (fun d => disk_gauges (info d)) (vp_disks p) ++
  match vp_write_cache p with
  | Some c =>
      [set_to "abixio_write_cache_bytes" (WriteCache.size_bytes c); set_to "abixio_write_cache_entries" (N.of_nat (WriteCache.entry_count c))] ++
      reset_to "abixio_write_cache_hits_total" (WriteCache.hits c)
  | None => []
  end ++
  match vp_read_cache p with
  | Some c =>
      [set_to "abixio_read_cache_bytes" (ReadCache.size_bytes c); set_to "abixio_read_cache_entries" (N.of_nat (ReadCache.entry_count c))] ++
      reset_to "abixio_read_cache_hits_total" (ReadCache.hits c) ++ reset_to "abixio_read_cache_misses_total" (ReadCache.misses c)
  | None => []
  end.

Definition state_label (s : ServiceState) : string :=
  match s with Ready => "Ready" | SyncingEpoch => "SyncingEpoch" | Fenced => "Fenced" | Joining => "Joining" end.

(** What [metrics_handler] writes before it renders the registry; the pool has the same registry. *)
Definition scrape (h : AdminHandler B P R) : list MeterOp :=
  let s := summary (ah_cluster h) in
  refresh_scrape_gauges (ah_store h) ++
  map (fun label => SetTo ("abixio_cluster_state", [label]) (if bool_decide (state_label (cs_state s) = label) then 1 else 0)%Z)
    ["Ready"; "SyncingEpoch"; "Fenced"; "Joining"] ++
  [set_to "abixio_cluster_reachable_voters" (N.of_nat (cs_reachable_voters s)); set_to "abixio_cluster_quorum" (N.of_nat (cs_quorum s));
   set_to "abixio_cluster_epoch_id" (cs_epoch_id s);
   set_to "abixio_mrf_queue_depth" (N.of_nat (default 0 (pending_count <$> vp_mrf (ah_store h))))] ++
  reset_to "abixio_scanner_objects_checked_total" (hs_objects_scanned (ah_stats h)) ++
  [set_to "abixio_scanner_last_pass_seconds" (hs_last_scan_duration_secs (ah_stats h))] ++
  reset_to "abixio_heal_repaired_total" (hs_objects_healed (ah_stats h)).

(** [metrics_handler]; [render] is the text encoder, which may fail. *)
Definition metrics_handler {M : Type} `{!Prometheus M} (render : M -> option bytes) (h : AdminHandler B P R) (m : M)
    : M * (N * bytes) :=
  if ah_metrics h then
    let m := apply_ops (scrape h) m in (m, (200%N, default [] (render m)))
  else (m, (503%N, bytes_of "metrics disabled")).
End Scrape.

(** ** The lifecycle loop *)

Definition publish_pass (s : PassStats) (elapsed_secs : N) : list MeterOp :=
  [IncBy ("abixio_lifecycle_deleted_total", []) (N.of_nat (deleted s));
   IncBy ("abixio_lifecycle_deleted_versions_total", []) (N.of_nat (deleted_versions s));
   IncBy ("abixio_lifecycle_delete_markers_reaped_total", []) (N.of_nat (delete_markers_reaped s));
   IncBy ("abixio_lifecycle_multipart_aborted_total", []) (N.of_nat (multipart_aborted s));
   set_to "abixio_lifecycle_last_pass_seconds" elapsed_secs].

(** What wakes the loop after its first tick: the timer, with the time of the pass and the time it
    takes, or the shutdown channel, closed ([None]) or with a value. *)
Inductive LoopEvent : Type :=
  | Tick (now elapsed_secs : N)
  | Changed (value : option bool).

(** The store and the passes it went through; [metrics] tells whether there is a registry. *)
Fixpoint lifecycle_loop {S : Type} (run_once : N -> S -> S * PassStats) (metrics : bool) (evs : list LoopEvent) (s : S)
    : S * list MeterOp :=
  match evs with
  | [] => (s, [])
  | Tick now secs :: evs =>
      let '(s, stats) := run_once now s in
      let r := lifecycle_loop run_once metrics evs s in
      (r.1, (if metrics then publish_pass stats secs else []) ++ r.2)
  | Changed (Some false) :: evs => lifecycle_loop run_once metrics evs s
  | Changed _ :: _ => (s, [])
  end.

(** ** Values after a list of changes *)

Definition op_series (o : MeterOp) : Series :=
  match o with IncBy s _ => s | Reset_ s => s | SetTo s _ => s | Observe s _ => s end.

(** What a list of changes adds to a counter. *)
Fixpoint incs (t : Series) (l : list MeterOp) : N :=
  match l with
  | [] => 0
  | IncBy s n :: l => (if bool_decide (s = t) then n else 0) + incs t l
  | _ :: l => incs t l
  end%N.

Lemma incs_app t l l' : incs t (l ++ l') = (incs t l + incs t l')%N.
Proof. induction l as [|[]]; cbn; lia. Qed.

#[export] Instance incs_perm t : Proper ((≡ₚ) ==> (=)) (incs t).
Proof.
  intros l l' Hp. induction Hp as [|o l l' _ IH|o o' l|l1 l2 l3 _ IH1 _ IH2]; [done| | |by rewrite IH1].
  - destruct o; cbn; lia.
  - destruct o, o'; cbn; lia.
Qed.

Lemma incs_foreign t l : Forall (fun o => op_series o <> t) l -> incs t l = 0%N.
Proof. induction 1 as [|o l Ho _ IH]; [done|]. destruct o; cbn in *; try done. by rewrite bool_decide_eq_false_2. Qed.

Definition durations (t : Series) (l : list MeterOp) : list N :=
  omap (fun o => match o with Observe s d => if bool_decide (s = t) then Some d else None | _ => None end) l.

Section Values.
  Context {R : Type} `{!Prometheus R} `{!PrometheusOk R}.

Lemma apply_ops_app l l' (r : R) : apply_ops (l ++ l') r = apply_ops l' (apply_ops l r).
Proof. unfold apply_ops. by rewrite fold_left_app. Qed.

Lemma apply_ops_cons o l (r : R) : apply_ops (o :: l) r = apply_ops l (meter_op o r).
Proof. done. Qed.

Lemma counter_ops l (r : R) t : counter (apply_ops l r) t = fold_left (fun v o => counter_after o t v) l (counter r t).
Proof. revert r. induction l as [|o l IH]; intros r; [done|]. by rewrite apply_ops_cons, IH, counter_op. Qed.

Lemma gauge_ops l (r : R) t : gauge (apply_ops l r) t = fold_left (fun v o => gauge_after o t v) l (gauge r t).
Proof. revert r. induction l as [|o l IH]; intros r; [done|]. by rewrite apply_ops_cons, IH, gauge_op. Qed.

Lemma samples_ops l (r : R) t : samples (apply_ops l r) t = samples r t ++ durations t l.
Proof.
  revert r. induction l as [|o l IH]; intros r; [by rewrite app_nil_r|]. rewrite apply_ops_cons, IH, samples_op. destruct o; try done. cbn. case_bool_decide; [by rewrite <- app_assoc|done].
Qed.

(** Without a reset a counter grows by what is added, modulo its width. *)
Lemma counter_incs l (r : R) t : (counter r t < 2 ^ 64)%N -> Reset_ t ∉ l -> counter (apply_ops l r) t = as_u64 (counter r t + incs t l).
Proof.
  rewrite counter_ops. generalize (counter r t). induction l as [|o l IH]; intros v Hv Hl; [cbn; by rewrite N.add_0_r, wrap_small|].
  apply not_elem_of_cons in Hl as [Ho Hl]. destruct o as [s n|s|s z|s d]; cbn; try by apply IH.
  - case_bool_decide; [|by apply IH]. rewrite IH; [|apply wrap_lt|done]. unfold wrap. rewrite N.Div0.add_mod_idemp_l. f_equal. lia.
  - rewrite bool_decide_eq_false_2 by (intros ->; done). by apply IH.
Qed.

Lemma counter_foreign l (r : R) t : Forall (fun o => op_series o <> t) l -> counter (apply_ops l r) t = counter r t.
Proof.
  rewrite counter_ops. generalize (counter r t). induction l as [|o l IH]; intros v Hl; [done|]. inv Hl. cbn. rewrite IH by done.
  destruct o; cbn in *; try done; by rewrite bool_decide_eq_false_2.
Qed.

Lemma gauge_foreign l (r : R) t : Forall (fun o => op_series o <> t) l -> gauge (apply_ops l r) t = gauge r t.
Proof.
  rewrite gauge_ops. generalize (gauge r t). induction l as [|o l IH]; intros v Hl; [done|]. inv Hl. cbn. rewrite IH by done.
  destruct o; cbn in *; try done; by rewrite bool_decide_eq_false_2.
Qed.

(** *** The registry of a new node *)

Lemma new_families l (r : R) : Forall (fun o => valid_opts o = true) l -> NoDup (o_name <$> registered r ++ l) ->
  exists r', fold_left new_family l (Some r) = Some r' /\ registered r' = registered r ++ l /\
    counter r' = counter r /\ gauge r' = gauge r /\ samples r' = samples r.
Proof.
  revert r. induction l as [|o l IH]; intros r Hv Hn; [exists r; by rewrite app_nil_r|]. inv Hv as [|? ? Ho Hl].
  assert (Hf : o_name o ∉ o_name <$> registered r).
  { rewrite fmap_app in Hn. apply NoDup_app in Hn as (_ & Hd & _). intros Hi. apply (Hd _ Hi). left. }
  destruct (register_fresh o r Hf) as (r1 & Er & Hr1 & Hc & Hg & Hs).
  assert (En : new_family (Some r) o = Some r1) by (unfold new_family; cbn; by rewrite (desc_ok_valid _ Ho), Er).
  cbn [fold_left]. rewrite En.
  destruct (IH r1 Hl) as (r2 & E2 & Hr2 & Hc2 & Hg2 & Hs2); [by rewrite Hr1, <- app_assoc|].
  exists r2. rewrite E2, Hr2, Hr1, <- app_assoc, Hc2, Hg2, Hs2. done.
Qed.

Lemma metrics_new_empty : exists r : R, metrics_new = Some r /\ registered r = families /\
  (forall t, counter r t = 0%N) /\ (forall t, gauge r t = 0%Z) /\ (forall t, samples r t = []).
Proof.
  destruct (new_families families registry_new) as (r & E & Hr & Hc & Hg & Hs).
  - apply Forall_forall. intros o Ho. apply (proj1 (List.forallb_forall valid_opts families)); [vm_compute; reflexivity|by apply list_elem_of_In].
  - rewrite registered_new. apply (bool_decide_unpack _). vm_compute. exact I.
  - exists r. rewrite Hr, registered_new, Hc, Hg, Hs. split_and!; [done|done|..]; intros t; [apply counter_new|apply gauge_new|apply samples_new].
Qed.

(** The start of a node does not panic on its metrics, and the registry it starts with has all of
    them: no description is refused, and no two have the same name. *)
Theorem all_metrics_registered : exists r : R, metrics_new = Some r /\ registered r = families /\ length families = 33.
Proof. destruct metrics_new_empty as (r & E & Hr & _). by exists r. Qed.

End Values.

(** ** Writers that run at the same time *)

(** A finished request, as the dispatcher sees it. *)
Record S3Record : Type := mkS3Record { q_op : string; q_status : N; q_duration : N; q_bytes_in : N; q_bytes_out : N }.

Definition count_if {A : Type} (f : A -> bool) (l : list A) : N := N.of_nat (length (List.filter f l)).
Fixpoint sum_of {A : Type} (f : A -> N) (l : list A) : N := match l with [] => 0 | x :: l => f x + sum_of f l end%N.

Section Writers.
  Context {B P R : Type} (info : B -> BackendInfo).

Inductive Writer : Type :=
  | Requested (q : S3Record)
  | Scrape (h : AdminHandler B P R)
  | LifecyclePassed (s : PassStats) (secs : N).

Definition writes (w : Writer) : list MeterOp :=
  match w with
  | Requested q => record_s3 (q_op q) (q_status q) (q_duration q) (q_bytes_in q) (q_bytes_out q)
  | Scrape h => scrape info h
  | LifecyclePassed s secs => publish_pass s secs
  end.

Definition requests (ws : list Writer) : list S3Record := omap (fun w => match w with Requested q => Some q | _ => None end) ws.
Definition passes (ws : list Writer) : list PassStats := omap (fun w => match w with LifecyclePassed s _ => Some s | _ => None end) ws.

(** The metrics a scrape writes, and the documented metrics that nothing writes. *)
Definition scraped_names : list string :=
  ["abixio_write_cache_hits_total"; "abixio_read_cache_hits_total"; "abixio_read_cache_misses_total"; "abixio_write_cache_bytes";
   "abixio_write_cache_entries"; "abixio_read_cache_bytes"; "abixio_read_cache_entries"; "abixio_heal_repaired_total";
   "abixio_mrf_queue_depth"; "abixio_scanner_objects_checked_total"; "abixio_scanner_last_pass_seconds"; "abixio_disk_bytes_total";
   "abixio_disk_bytes_used"; "abixio_disk_bytes_free"; "abixio_cluster_state"; "abixio_cluster_reachable_voters";
   "abixio_cluster_quorum"; "abixio_cluster_epoch_id"].
Definition unwritten_names : list string :=
  ["abixio_write_cache_replicate_success_total"; "abixio_write_cache_replicate_fail_total"; "abixio_wal_materialized_total";
   "abixio_wal_materialize_failed_total"; "abixio_wal_pending_entries"; "abixio_heal_unrecoverable_total"].

Definition named (names : list string) (o : MeterOp) : bool := existsb (String.eqb (op_series o).1) names.

Lemma scrape_names (h : AdminHandler B P R) : forallb (named scraped_names) (scrape info h) = true.
Proof.
  unfold scrape, refresh_scrape_gauges. rewrite !forallb_app, !andb_true_iff. split_and!; try reflexivity.
  - apply List.forallb_forall. intros o [d [_ Hd]]%in_flat_map. revert o Hd. apply List.forallb_forall. unfold disk_gauges. repeat case_match; reflexivity.
  - by destruct (vp_write_cache (ah_store h)).
  - by destruct (vp_read_cache (ah_store h)).
Qed.

Lemma named_foreign names l t : forallb (named names) l = true -> existsb (String.eqb t.1) names = false ->
  Forall (fun o => op_series o <> t) l.
Proof.
  intros Hl Hn. apply Forall_forall. intros o Ho <-. apply list_elem_of_In in Ho. rewrite List.forallb_forall in Hl. unfold named in Hl.
  by rewrite (Hl o Ho) in Hn.
Qed.

Lemma scrape_foreign (h : AdminHandler B P R) t : existsb (String.eqb t.1) scraped_names = false -> Forall (fun o => op_series o <> t) (scrape info h).
Proof. apply named_foreign, scrape_names. Qed.

(** Only a scrape resets a counter. *)
Lemma no_reset (ws : list Writer) t : existsb (String.eqb t.1) scraped_names = false -> Reset_ t ∉ flat_map writes ws.
Proof.
  intros Hn. induction ws as [|w ws IH]; [by apply not_elem_of_nil|]. cbn. rewrite elem_of_app. intros [Hw|Hw]; [|done].
  destruct w as [q|h|s secs]; cbn in Hw.
  - unfold record_s3, record_request in Hw. repeat case_bool_decide; set_solver.
  - apply (proj1 (Forall_forall _ _) (scrape_foreign h t Hn) _ Hw). done.
  - unfold publish_pass, set_to in Hw. set_solver.
Qed.

(** A counter that is not reset is the sum of what its writers add. *)
Lemma incs_writers (f : Writer -> N) t ws : (forall w, incs t (writes w) = f w) -> incs t (flat_map writes ws) = sum_of f ws.
Proof. intros Hf. induction ws as [|w ws IH]; [done|]. cbn. by rewrite incs_app, Hf, IH. Qed.

Context {M : Type} `{!Prometheus M} `{!PrometheusOk M}.

Lemma counter_writers (f : Writer -> N) (m : M) t ws l : metrics_new = Some m -> l ≡ₚ flat_map writes ws ->
  (forall w, incs t (writes w) = f w) -> existsb (String.eqb t.1) scraped_names = false -> counter (apply_ops l m) t = as_u64 (sum_of f ws).
Proof.
  intros Hm Hl Hf Hn. destruct (metrics_new_empty (R := M)) as (m' & E & _ & Hc & _). rewrite Hm in E. injection E as <-.
  rewrite counter_incs, Hc; [|by rewrite Hc|rewrite Hl; by apply no_reset]. by rewrite Hl, (incs_writers f).
Qed.

End Writers.
Arguments Writer : clear implicits.

Lemma sum_of_requests {B P R : Type} (f : S3Record -> N) (ws : list (Writer B P R)) :
  sum_of (fun w => match w with Requested q => f q | _ => 0%N end) ws = sum_of f (requests ws).
Proof. induction ws as [|w ws IH]; [done|]. cbn [sum_of]. rewrite IH. by destruct w. Qed.

Lemma sum_of_passes {B P R : Type} (f : PassStats -> N) (ws : list (Writer B P R)) :
  sum_of (fun w => match w with LifecyclePassed s _ => f s | _ => 0%N end) ws = sum_of f (passes ws).
Proof. induction ws as [|w ws IH]; [done|]. cbn [sum_of]. rewrite IH. by destruct w. Qed.

Lemma sum_of_filter {A : Type} (p : A -> bool) (f : A -> N) l : sum_of (fun x => if p x then f x else 0%N) l = sum_of f (List.filter p l).
Proof. induction l as [|x l IH]; [done|]. cbn. destruct (p x); cbn; lia. Qed.

Lemma sum_of_count {A : Type} (p : A -> bool) (l : list A) : sum_of (fun x => if p x then 1%N else 0%N) l = count_if p l.
Proof. unfold count_if. induction l as [|x l IH]; [done|]. cbn. destruct (p x); cbn [length]; lia. Qed.

(** ** What the metrics say *)

Section Truth.
  Context {B P R M : Type} (info : B -> BackendInfo) `{!Prometheus M} `{!PrometheusOk M}.

Definition answered (op : string) (c : StatusClass) (q : S3Record) : bool :=
  bool_decide (q_op q = op) && bool_decide (as_str (from_http_status (q_status q)) = as_str c).
Definition of_op (op : string) (q : S3Record) : bool := bool_decide (q_op q = op).

(** The counters of the request metrics. *)
Lemma incs_requests op c (w : Writer B P R) : incs ("abixio_s3_requests_total", [op; as_str c]) (writes info w)
  = match w with Requested q => if answered op c q then 1 else 0 | _ => 0 end%N.
Proof.
  destruct w as [q|h|s secs]; cbn [writes]; [|by apply incs_foreign, scrape_foreign|done].
  unfold record_s3, record_request, answered. rewrite !incs_app. cbn [incs]. repeat case_bool_decide; cbn [incs andb]; repeat case_bool_decide; simplify_eq; try lia; congruence.
Qed.

Lemma incs_bytes_in op (w : Writer B P R) : incs ("abixio_s3_bytes_received_total", [op]) (writes info w)
  = match w with Requested q => if of_op op q then q_bytes_in q else 0 | _ => 0 end%N.
Proof.
  destruct w as [q|h|s secs]; cbn [writes]; [|by apply incs_foreign, scrape_foreign|done].
  unfold record_s3, record_request, of_op. rewrite !incs_app. cbn [incs]. repeat case_bool_decide; cbn [incs]; repeat case_bool_decide; simplify_eq; lia.
Qed.

Lemma incs_bytes_out op (w : Writer B P R) : incs ("abixio_s3_bytes_sent_total", [op]) (writes info w)
  = match w with Requested q => if of_op op q then q_bytes_out q else 0 | _ => 0 end%N.
Proof.
  destruct w as [q|h|s secs]; cbn [writes]; [|by apply incs_foreign, scrape_foreign|done].
  unfold record_s3, record_request, of_op. rewrite !incs_app. cbn [incs]. repeat case_bool_decide; cbn [incs]; repeat case_bool_decide; simplify_eq; lia.
Qed.

Lemma durations_app t l l' : durations t (l ++ l') = durations t l ++ durations t l'.
Proof. apply omap_app. Qed.

Lemma durations_foreign t l : Forall (fun o => op_series o <> t) l -> durations t l = [].
Proof.
  induction 1 as [|o l Ho _ IH]; [done|]. unfold durations in *. cbn. destruct o; cbn in *; try done. by rewrite bool_decide_eq_false_2.
Qed.

Lemma durations_writers op (ws : list (Writer B P R)) :
  durations ("abixio_s3_request_duration_seconds", [op]) (flat_map (writes info) ws) = map q_duration (List.filter (of_op op) (requests ws)).
Proof.
  induction ws as [|w ws IH]; [done|]. cbn [flat_map]. rewrite durations_app, IH. destruct w as [q|h|s secs]; cbn [writes requests omap list_omap].
  - change (requests (Requested q :: ws)) with (q :: requests ws). cbn [List.filter]. unfold of_op at 2, record_s3, record_request. cbn.
    repeat case_bool_decide; simplify_eq; cbn; done.
  - by rewrite durations_foreign by by apply scrape_foreign.
  - done.
Qed.

(** The request metrics are exact.  Whatever requests, scrapes and lifecycle passes run, and
    however their changes of the shared metrics mix, the counter of an operation and a class of
    answers is the number of such requests, the two byte counters are the sums of the bytes the
    requests announced, modulo the width of the counters, and the histogram of an operation has
    the durations of its requests and no other. *)
Theorem requests_counted (ws : list (Writer B P R)) l (m : M) op c :
  metrics_new = Some m -> l ≡ₚ flat_map (writes info) ws ->
  let m' := apply_ops l m in let qs := requests ws in
  counter m' ("abixio_s3_requests_total", [op; as_str c]) = as_u64 (count_if (answered op c) qs) /\
  counter m' ("abixio_s3_bytes_received_total", [op]) = as_u64 (sum_of q_bytes_in (List.filter (of_op op) qs)) /\
  counter m' ("abixio_s3_bytes_sent_total", [op]) = as_u64 (sum_of q_bytes_out (List.filter (of_op op) qs)) /\
  samples m' ("abixio_s3_request_duration_seconds", [op]) ≡ₚ map q_duration (List.filter (of_op op) qs).
Proof.
  intros Hm Hl m' qs. subst m' qs. split_and!.
  - rewrite (counter_writers info _ m _ ws l Hm Hl (incs_requests op c) eq_refl), sum_of_requests, sum_of_count. done.
  - rewrite (counter_writers info _ m _ ws l Hm Hl (incs_bytes_in op) eq_refl), sum_of_requests, sum_of_filter. done.
  - rewrite (counter_writers info _ m _ ws l Hm Hl (incs_bytes_out op) eq_refl), sum_of_requests, sum_of_filter. done.
  - destruct (metrics_new_empty (R := M)) as (m0 & E & _ & _ & _ & Hs). rewrite Hm in E. injection E as <-.
    rewrite samples_ops, Hs, <- durations_writers. cbn [app]. unfold durations. by rewrite Hl.
Qed.

(** The lifecycle counters are the sums over the passes, in the same sense. *)
Theorem passes_counted (ws : list (Writer B P R)) l (m : M) : metrics_new = Some m -> l ≡ₚ flat_map (writes info) ws ->
  let total name f := counter (apply_ops l m) (name, []) = as_u64 (sum_of (fun s => N.of_nat (f s)) (passes ws)) in
  total "abixio_lifecycle_deleted_total" deleted /\ total "abixio_lifecycle_deleted_versions_total" deleted_versions /\
  total "abixio_lifecycle_delete_markers_reaped_total" delete_markers_reaped /\
  total "abixio_lifecycle_multipart_aborted_total" multipart_aborted.
Proof.
  intros Hm Hl total. unfold total. clear total.
  assert (Hq : forall q t, prefixb (bytes_of "abixio_lifecycle") (bytes_of t.1) = true -> incs t (writes info (Requested q : Writer B P R)) = 0%N).
  { intros q [t ls] Ht. apply incs_foreign. cbn. unfold record_s3, record_request. repeat case_bool_decide; repeat constructor; cbn; by intros [= <- _]. }
  split_and!; rewrite <- sum_of_passes; (apply (counter_writers info _ m _ ws l Hm Hl); [|reflexivity]); intros [q|h|s secs];
    [by apply Hq|by apply incs_foreign, scrape_foreign| |by apply Hq|by apply incs_foreign, scrape_foreign|
    |by apply Hq|by apply incs_foreign, scrape_foreign| |by apply Hq|by apply incs_foreign, scrape_foreign|];
    unfold writes, publish_pass, set_to; cbn [incs]; repeat case_bool_decide; simplify_eq; lia.
Qed.

(** Six of the documented metrics never move: nothing writes them. *)
Theorem unwritten_stay_zero (ws : list (Writer B P R)) l (m : M) name labels : metrics_new = Some m -> l ≡ₚ flat_map (writes info) ws ->
  name ∈ unwritten_names -> counter (apply_ops l m) (name, labels) = 0%N /\ gauge (apply_ops l m) (name, labels) = 0%Z.
Proof.
  intros Hm Hl Hn. destruct (metrics_new_empty (R := M)) as (m0 & E & _ & Hc & Hg & _). rewrite Hm in E. injection E as <-.
  assert (Hf : Forall (fun o => op_series o <> (name, labels)) l).
  { rewrite Hl. clear -Hn. induction ws as [|w ws IH]; [done|]. cbn. apply Forall_app. split; [|done].
    apply list_elem_of_In in Hn. destruct w as [q|h|s secs]; cbn [writes].
    - unfold record_s3, record_request. repeat case_bool_decide; repeat constructor; cbn; intros [= <- _]; cbn in Hn; by intuition.
    - apply scrape_foreign. cbn. cbn in Hn. by intuition subst.
    - unfold publish_pass, set_to. repeat constructor; cbn; intros [= <- _]; cbn in Hn; by intuition. }
  by rewrite counter_foreign, gauge_foreign, Hc, Hg.
Qed.

End Truth.

(** ** A scrape *)

(** The schedules of two writers. *)
Inductive mixed {A : Type} : list A -> list A -> list A -> Prop :=
  | mixed_nil : mixed [] [] []
  | mixed_left x a b l : mixed a b l -> mixed (x :: a) b (x :: l)
  | mixed_right x a b l : mixed a b l -> mixed a (x :: b) (x :: l).

Lemma mixed_one {A : Type} (a : list A) : mixed a [] a.
Proof. induction a; by constructor. Qed.

Lemma mixed_lefts {A : Type} (c a b l : list A) : mixed a b l -> mixed (c ++ a) b (c ++ l).
Proof. intros Hm. induction c; [done|]. by constructor. Qed.

Lemma mixed_rights {A : Type} (c a b l : list A) : mixed a b l -> mixed a (c ++ b) (c ++ l).
Proof. intros Hm. induction c; [done|]. by constructor. Qed.

Section ScrapeTruth.
  Context {B P R M : Type} (info : B -> BackendInfo) `{!Prometheus M} `{!PrometheusOk M}.

(** A scrape alone: the answer shows the state of the node.  Exactly the gauge of the current
    state is one, the voters, the quorum, the epoch, the queue and the caches are reported as they
    are, and the counters that the node keeps elsewhere have their values. *)
Theorem scrape_shows_state (h : AdminHandler B P R) (m : M) :
  let m' := apply_ops (scrape info h) m in let s := summary (ah_cluster h) in
  (forall st, gauge m' ("abixio_cluster_state", [state_label st]) = if bool_decide (state_label (cs_state s) = state_label st) then 1 else 0)%Z /\
  gauge m' ("abixio_cluster_reachable_voters", []) = as_i64 (N.of_nat (cs_reachable_voters s)) /\
  gauge m' ("abixio_cluster_quorum", []) = as_i64 (N.of_nat (cs_quorum s)) /\
  gauge m' ("abixio_cluster_epoch_id", []) = as_i64 (cs_epoch_id s) /\
  gauge m' ("abixio_mrf_queue_depth", []) = as_i64 (N.of_nat (default 0 (pending_count <$> vp_mrf (ah_store h)))) /\
  counter m' ("abixio_scanner_objects_checked_total", []) = as_u64 (hs_objects_scanned (ah_stats h)) /\
  counter m' ("abixio_heal_repaired_total", []) = as_u64 (hs_objects_healed (ah_stats h)) /\
  (forall c, vp_write_cache (ah_store h) = Some c ->
    gauge m' ("abixio_write_cache_bytes", []) = as_i64 (WriteCache.size_bytes c) /\
    gauge m' ("abixio_write_cache_entries", []) = as_i64 (N.of_nat (WriteCache.entry_count c)) /\
    counter m' ("abixio_write_cache_hits_total", []) = as_u64 (WriteCache.hits c)) /\
  (forall c, vp_read_cache (ah_store h) = Some c ->
    gauge m' ("abixio_read_cache_bytes", []) = as_i64 (ReadCache.size_bytes c) /\
    gauge m' ("abixio_read_cache_entries", []) = as_i64 (N.of_nat (ReadCache.entry_count c)) /\
    counter m' ("abixio_read_cache_hits_total", []) = as_u64 (ReadCache.hits c) /\
    counter m' ("abixio_read_cache_misses_total", []) = as_u64 (ReadCache.misses c)).
Proof.
  intros m' s. subst m' s. unfold scrape, refresh_scrape_gauges. rewrite <- !app_assoc, apply_ops_app.
  generalize (apply_ops (flat_map (fun d => disk_gauges (info d)) (vp_disks (ah_store h))) m). clear m. intros m.
  split_and!; [intros []; destruct (cs_state _)|..]; try intros c ->; rewrite ?counter_ops, ?gauge_ops;
    destruct (vp_write_cache (ah_store h)), (vp_read_cache (ah_store h)); try reflexivity; split_and!; rewrite ?counter_ops, ?gauge_ops; reflexivity.
Qed.

(** Two scrapes at the same time can report twice the repairs: each sets a counter by a reset and
    an increment, and the two resets may come first. *)
Theorem concurrent_scrapes_double (h : AdminHandler B P R) (m : M) : exists l, mixed (scrape info h) (scrape info h) l /\
  counter (apply_ops l m) ("abixio_heal_repaired_total", []) = as_u64 (2 * hs_objects_healed (ah_stats h)).
Proof.
  unfold scrape. rewrite !app_assoc. set (pre := _ ++ [set_to "abixio_scanner_last_pass_seconds" _]).
  set (n := hs_objects_healed (ah_stats h)). set (t := ("abixio_heal_repaired_total", []) : Series).
  exists (pre ++ pre ++ [Reset_ t; Reset_ t; IncBy t n; IncBy t n]). split.
  - apply mixed_lefts, mixed_rights. repeat constructor.
  - rewrite !apply_ops_app, counter_ops. change (as_u64 (as_u64 (0 + n) + n) = as_u64 (2 * n)).
    unfold wrap. rewrite N.Div0.add_mod_idemp_l. f_equal. lia.
Qed.

End ScrapeTruth.

(** ** Disks *)

Definition disk_label (i : BackendInfo) : string := default (bi_label i) (strip_local (bi_label i)).

Section Disks.
  Context {B P R M : Type} (info : B -> BackendInfo) `{!Prometheus M} `{!PrometheusOk M}.

Lemma disk_foreign name l (ds : list B) : l ∉ (fun d => disk_label (info d)) <$> ds ->
  Forall (fun o => op_series o <> (name, [l])) (flat_map (fun d => disk_gauges (info d)) ds).
Proof.
  intros Hl. apply Forall_forall. intros o Ho%list_elem_of_In. apply in_flat_map in Ho as (d & Hd & Ho). intros Ht. apply Hl.
  apply list_elem_of_fmap. exists d. split; [|by apply list_elem_of_In]. unfold disk_gauges in Ho. fold (disk_label (info d)) in Ho.
  rewrite !in_app_iff in Ho. destruct Ho as [Ho|[Ho|Ho]]; (case_match; cbn in Ho; [|done]); destruct Ho as [<-|[]]; by injection Ht as _ <-.
Qed.

(** After a scrape the gauges of a disk are what it reported, when no two disks have one label. *)
Theorem disk_gauges_exact (h : AdminHandler B P R) (m : M) d name v : NoDup ((fun d => disk_label (info d)) <$> vp_disks (ah_store h)) ->
  d ∈ vp_disks (ah_store h) ->
  (name, Some v) ∈ [("abixio_disk_bytes_total", bi_total_bytes (info d)); ("abixio_disk_bytes_used", bi_used_bytes (info d));
                    ("abixio_disk_bytes_free", bi_free_bytes (info d))] ->
  gauge (apply_ops (scrape info h) m) (name, [disk_label (info d)]) = as_i64 v.
Proof.
  intros Hn Hd Hv. unfold scrape, refresh_scrape_gauges. rewrite <- !app_assoc, apply_ops_app.
  assert (Hg : gauge (apply_ops (flat_map (fun d => disk_gauges (info d)) (vp_disks (ah_store h))) m) (name, [disk_label (info d)]) = as_i64 v).
  { apply list_elem_of_split in Hd as (l1 & l2 & E). rewrite E in *. rewrite fmap_app, fmap_cons in Hn.
    apply NoDup_app in Hn as (_ & _ & [Hn _]%NoDup_cons). rewrite flat_map_app, apply_ops_app. cbn [flat_map]. rewrite apply_ops_app.
    rewrite (gauge_foreign _ _ _ (disk_foreign _ _ _ Hn)), gauge_ops. generalize (gauge (apply_ops (flat_map (fun d => disk_gauges (info d)) l1) m)). intros g.
    unfold disk_gauges. fold (disk_label (info d)). apply list_elem_of_In in Hv.
    destruct Hv as [[= <- E1]|[[= <- E1]|[[= <- E1]|[]]]]; rewrite E1; repeat case_match; cbn; repeat case_bool_decide; congruence. }
  rewrite <- Hg. apply gauge_foreign. apply (named_foreign
    (List.filter (fun n => negb (prefixb (bytes_of "abixio_disk_bytes") (bytes_of n))) scraped_names)).
  - rewrite !forallb_app, !andb_true_iff. split_and!; try reflexivity; [by destruct (vp_write_cache _)|by destruct (vp_read_cache _)].
  - apply list_elem_of_In in Hv. destruct Hv as [[= <- _]|[[= <- _]|[[= <- _]|[]]]]; reflexivity.
Qed.

End Disks.

(** A volume on this node reports its three sizes, and they add up when the system's do. *)
Theorem local_sizes display disk_space v total free : disk_space (lv_root v) = (total, free) -> (free <= total)%N ->
  exists used, local_info display disk_space v = mkBackendInfo ("local:" +:+ display (lv_root v)) (lv_volume_id v) "local" (Some total) (Some used) (Some free) /\
    (used + free = total)%N /\ disk_label (local_info display disk_space v) = display (lv_root v).
Proof.
  intros E Hf. unfold local_info. rewrite E. exists (u64_sat_sub total free). split_and!; [done|unfold u64_sat_sub; lia|].
  unfold disk_label, strip_local, starts_with. cbn [bi_label]. rewrite bytes_of_app. cbn -[string_of]. apply string_of_bytes_of.
Qed.

(** The label, total, used and free bytes of a disk, as the administration API takes them. *)
Definition info_sizes (i : BackendInfo) : string * option N * option N * option N :=
  (bi_label i, bi_total_bytes i, bi_used_bytes i, bi_free_bytes i).

(** The administration API reports the volumes of the other nodes as offline and empty, whatever
    they hold: a remote volume has no sizes, and that is read as a failed disk. *)
Theorem remote_disks_offline {B P R : Type} `{!HealBackend B} (disk_info : B -> string * option N * option N * option N)
    (h : AdminHandler B P R) i d r : vp_disks (ah_store h) !! i = Some d -> disk_info d = info_sizes (remote_info r) ->
  exists ds, admin_disks disk_info h = admin_ok (ADisks ds) /\
    ds !! i = Some (mkDiskInfo i (rv_endpoint r +:+ ":" +:+ rv_volume_path r) false 0 0 0 0 0).
Proof.
  intros Hi Hd. unfold admin_disks. eexists. split; [done|]. rewrite list_lookup_imap, Hi. cbn. by rewrite Hd.
Qed.

(** ** Scans *)

(** What the statistics say of the scanner. *)
Definition scans {B P R : Type} (h : AdminHandler B P R) : N * option N * N :=
  (hs_objects_scanned (ah_stats h), hs_last_scan_started (ah_stats h), hs_last_scan_duration_secs (ah_stats h)).

Section Scans.
  Context `{Hashes} `{ReedSolomon} `{Http} {B W P R : Type} `{!Backend B W} `{!HealBackend B} `{!PoolBackend B} `{!RaftControl R}.

Lemma with_raft_scans (h h' : AdminHandler B P R) f a : with_raft_handle h f = (h', a) -> scans h' = scans h.
Proof. unfold with_raft_handle. destruct (ah_raft h); by intros [= <- _]. Qed.

Lemma heal_scans query (h h' : AdminHandler B P R) a : heal_object_handler query h = (h', a) -> scans h' = scans h.
Proof. unfold heal_object_handler. repeat case_match; by intros [= <- _]. Qed.

Lemma inspect_scans query t (h h' : AdminHandler B P R) a : inspect_object query t h = Some (h', a) -> scans h' = scans h.
Proof.
  unfold inspect_object. repeat case_match; try by intros [= <- _]. intros E. apply bind_Some in E as (r & _ & E).
  apply bind_Some in E as (c & _ & E). by injection E as <- _.
Qed.

Lemma ftt_scans bucket query (h h' : AdminHandler B P R) a :
  (get_bucket_ftt bucket h = Some (h', a) -> scans h' = scans h) /\ (set_bucket_ftt bucket query h = Some (h', a) -> scans h' = scans h).
Proof.
  split; [unfold get_bucket_ftt|unfold set_bucket_ftt]; repeat case_match; try (by intros [= <- _]); intros E;
    apply bind_Some in E as (r & _ & E); by injection E as <- _.
Qed.

(** No request to the administration API counts a scan or notes its time, and the scanner is not
    given the statistics: the node reports for ever that it has scanned nothing. *)
Theorem scans_never_counted disk_info path m query t (h h' : AdminHandler B P R) a :
  admin_dispatch disk_info path m query t h = Some (h', a) -> scans h' = scans h.
Proof.
  unfold admin_dispatch. cbv zeta.
  repeat match goal with |- (if bool_decide _ && bool_decide _ then _ else _) = _ -> _ => destruct (bool_decide _ && bool_decide _) end;
    try (by intros [= <- _]); try (intros E; injection E as E; by eapply with_raft_scans).
  - intros E. injection E as E. by eapply heal_scans.
  - apply inspect_scans.
  - intros E. apply bind_Some in E as (r & _ & E). by injection E as <- _.
  - destruct (starts_with "bucket/" path && ends_with "/ftt" path); [|by intros [= <- _]].
    intros E. apply bind_Some in E as (b & _ & E). destruct m; try (by injection E as <- _).
    + exact (proj1 (ftt_scans b query h h' a) E).
    + exact (proj2 (ftt_scans b query h h' a) E).
Qed.

End Scans.

(** ** The lifecycle loop *)

(** The loop stops at the first signal to shut down, whatever comes after it, and what it writes
    are the passes of the ticks before. *)
Theorem loop_stops {S : Type} (run_once : N -> S -> S * PassStats) metrics ticks stop rest (s : S) :
  stop <> Some false -> lifecycle_loop run_once metrics (map (fun t => Tick t.1 t.2) ticks ++ Changed stop :: rest) s
  = (foldl (fun s t => (run_once t.1 s).1) s ticks, (lifecycle_loop run_once metrics (map (fun t => Tick t.1 t.2) ticks) s).2).
Proof.
  intros Hs. revert s. induction ticks as [|[now secs] ticks IH]; intros s; cbn; [by destruct stop as [[]|]|].
  destruct (run_once now s) as [s' stats] eqn:E. rewrite IH. done.
Qed.

(** ** A registry of maps *)

Record MapRegistry : Type := mkMapRegistry {
  mr_families : list Opts;
  mr_counters : gmap Series N;
  mr_gauges : gmap Series Z;
  mr_samples : gmap Series (list N);
}.

Definition map_op (o : MeterOp) (r : MapRegistry) : MapRegistry :=
  let '(mkMapRegistry f c g l) := r in
  match o with
  | IncBy s n => mkMapRegistry f (<[s := as_u64 (default 0%N (c !! s) + n)]> c) g l
  | Reset_ s => mkMapRegistry f (delete s c) g l
  | SetTo s v => mkMapRegistry f c (<[s := v]> g) l
  | Observe s d => mkMapRegistry f c g (<[s := default [] (l !! s) ++ [d]]> l)
  end.

#[export] Instance map_prometheus : Prometheus MapRegistry := {|
  desc_ok := valid_opts;
  registry_new := mkMapRegistry [] ∅ ∅ ∅;
  registered := mr_families;
  register := fun o r => if bool_decide (o_name o ∈ o_name <$> mr_families r) then None
                         else Some (mkMapRegistry (mr_families r ++ [o]) (mr_counters r) (mr_gauges r) (mr_samples r));
  meter_op := map_op;
  counter := fun r s => default 0%N (mr_counters r !! s);
  gauge := fun r s => default 0%Z (mr_gauges r !! s);
  samples := fun r s => default [] (mr_samples r !! s);
|}.

#[export] Instance map_prometheus_ok : PrometheusOk MapRegistry.
Proof.
  constructor; try done.
  - intros o r Ho. cbn in *. rewrite bool_decide_eq_false_2 by done. by eexists.
  - by intros [] [].
  - intros [s n|s|s v|s d] [f c g l] t; cbn; try done; case_bool_decide as E; subst;
      rewrite ?lookup_insert_eq, ?lookup_delete_eq, ?lookup_insert_ne, ?lookup_delete_ne by done; done.
  - intros [s n|s|s v|s d] [f c g l] t; cbn; try done; case_bool_decide as E; subst;
      rewrite ?lookup_insert_eq, ?lookup_insert_ne by done; done.
  - intros [s n|s|s v|s d] [f c g l] t; cbn; try done; case_bool_decide as E; subst;
      rewrite ?lookup_insert_eq, ?lookup_insert_ne by done; done.
Qed.

(** Two reads and a failed write, with their changes mixed. *)
Definition three_requests : list (Writer unit unit unit) :=
  [Requested (mkS3Record "GetObject" 200 5 0 10); Requested (mkS3Record "PutObject" 500 7 20 0); Requested (mkS3Record "GetObject" 206 6 0 4)].

Lemma requests_counted_witness : exists m : MapRegistry, metrics_new = Some m /\
  let m' := apply_ops (rev (flat_map (writes (fun _ => mkBackendInfo "" "" "" None None None)) three_requests)) m in
  counter m' ("abixio_s3_requests_total", ["GetObject"; "ok"]) = 2%N /\ counter m' ("abixio_s3_bytes_sent_total", ["GetObject"]) = 14%N.
Proof.
  destruct (metrics_new_empty (R := MapRegistry)) as (m & E & _). exists m. split; [exact E|].
  destruct (requests_counted (fun _ : unit => mkBackendInfo "" "" "" None None None) three_requests
    (rev (flat_map (writes (fun _ => mkBackendInfo "" "" "" None None None)) three_requests)) m "GetObject" StatusOk E) as (H1 & _ & H3 & _).
  { symmetry. apply Permutation_rev. }
  split; (etransitivity; [exact H1 || exact H3|]); vm_compute; reflexivity.
Defined.
