(* ===== verification/Timing.v ===== *)
(** The timing of a request ([src/timing.rs]) and the end of its dispatch ([src/s3_route.rs]): the
    layers recorded while the S3 service runs, the headers that carry them, and the request's
    entry in the metrics.

    Durations and the clock are nanoseconds; [fmt3] prints the milliseconds of a duration with
    three decimals.  A task-local value is [None] outside its scope. *)

From Stdlib Require Import Ascii.
From stdpp Require Import base list gmap strings numbers pretty.
From S2P Require Import Policy Prelude Metadata Pathing Placement Erasure Backend ErasureDecode ErasurePut Lifecycle.
From S2P Require Import Caches Heal RaftFsm FileSys LocalVolume VolumePool Config Topology ClusterManager Internode StorageServer RemoteVolume.
From S2P Require Import PeerReplica Admin Metrics.

Open Scope string_scope.
Open Scope list_scope.

(** The layers of a request, in the order they ended. *)
Definition RequestTiming : Type := list (string * N).

Definition timing_new : RequestTiming := [].
Definition timing_record (name : string) (dur : N) (t : RequestTiming) : RequestTiming := t ++ [(name, dur)].

(** [timing::record]: nothing outside a scope. *)
Definition record (name : string) (dur : N) (scope : option RequestTiming) : option RequestTiming :=
  timing_record name dur <$> scope.

Record Span : Type := mkSpan { sp_name : string; sp_start : N }.

(** [Span::new] and [Span::drop]; [elapsed] is never negative. *)
Definition span_new (name : string) (now : N) : Span := mkSpan name now.
Definition span_drop (s : Span) (now : N) (scope : option RequestTiming) : option RequestTiming :=
  record (sp_name s) (now - sp_start s) scope.

(** A timed computation: clock and scope before, and after with its result. *)
Definition Timed (A : Type) : Type := N -> option RequestTiming -> N * option RequestTiming * A.

(** [timing::time] *)
Definition time {A : Type} (name : string) (fut : Timed A) : Timed A := fun now scope =>
  let '(now', scope, out) := fut now scope in (now', record name (now' - now) scope, out).

Section Header.
  Variable fmt3 : N -> string.

Definition layer_text (l : string * N) : string := l.1 +:+ ";dur=" +:+ fmt3 l.2.

(** [to_server_timing] *)
Definition to_server_timing (t : RequestTiming) : string :=
  fold_left (fun s x => s +:+ (if bool_decide (0 < x.1) then ", " else "") +:+ layer_text x.2) (imap pair t) "".

End Header.

(** The reader of the header: entries between commas, each a name and the rest behind [;dur=]. *)
Definition skip_space (b : bytes) : bytes := match b with c :: r => if Ascii.eqb c " " then r else b | [] => [] end.
Definition read_layer (b : bytes) : option (string * string) :=
  x ← split_once (bytes_of ";dur=") (skip_space b); Some (string_of x.1, string_of x.2).
Definition read_server_timing (s : string) : option (list (string * string)) :=
  mapM read_layer (split_on ","%char (bytes_of s)).

(** ** The end of a dispatch *)

(** [HeaderValue] from text, and the number in a [content-length]. *)
Definition insert_header `{Http} (name value : string) (r : Response) : Response :=
  if header_ok value then mkResponse (rp_status r) (<[name := value]> (rp_headers r)) (rp_body r) else r.
Definition content_length `{Http} (headers : gmap string string) : N :=
  default 0%N (v ← headers !! "content-length"; s ← to_str v; parse_u64 (bytes_of s)).

(** [error_response] *)
Definition error_response `{ErrorJson} (status : N) (msg : string) : Response :=
  mkResponse status {["content-type" := "application/json"]} (error_json msg).

Section DispatchS3.
  Context `{Http} `{ErrorJson} (fmt3 : N -> string).

Definition finish_s3 (request_id op : string) (bytes_in total : N) (metrics : bool) (t : RequestTiming) (r : result string Response)
    : Response * list MeterOp :=
  let resp := match r with Ok resp => resp | Err _ => error_response 500 "internal error" end in
  let resp := insert_header "x-amz-request-id" request_id resp in
  let ops := if metrics then record_s3 op (rp_status resp) total bytes_in (content_length (rp_headers resp)) else [] in
  let resp := insert_header "x-debug-s3s-ms" (fmt3 total +:+ "ms") resp in
  let st := to_server_timing fmt3 t in
  (if bool_decide (st = "") then resp else insert_header "server-timing" st resp, ops).

(** The S3 branch of [dispatch]; [call] is the S3 service, which records its layers.  The
    clock stands still between the two readings before the call, and between the two behind it. *)
Definition dispatch_s3 (request_id : string) (m : Method) (metrics : bool) (call : Request -> Timed (result string Response)) (rq : Request) (now : N)
    : N * (Response * list MeterOp) :=
  let bytes_in := content_length (rq_headers rq) in
  let op_label := guess_op_label m (rq_path rq) (rq_query rq) in
  let '(now', scope, r) := time "s3s_total" (call rq) now (Some timing_new) in
  (now', finish_s3 request_id op_label bytes_in (now' - now) metrics (default timing_new scope) r).

End DispatchS3.

(** ** The header reads back *)

Definition fmt3_ok (fmt3 : N -> string) : Prop := forall d, forallb (fun c => is_digit c || Ascii.eqb c ".") (bytes_of (fmt3 d)) = true.

(** The names of layers: what the code uses. *)
Definition layer_name (s : string) : bool := forallb (fun c => is_lower c || is_digit c || Ascii.eqb c "_") (bytes_of s).

Lemma forallb_not_elem (f : byte -> bool) c l : forallb f l = true -> f c = false -> c ∉ l.
Proof. intros Hl Hc Hi%list_elem_of_In. rewrite forallb_forall in Hl. by rewrite Hl in Hc. Qed.

Lemma split_on_app c p r : c ∉ p -> split_on c (p ++ c :: r) = p :: split_on c r.
Proof.
  induction p as [|x p IH]; intros Hc; cbn; [by rewrite Ascii.eqb_refl|]. apply not_elem_of_cons in Hc as [Hx Hc].
  destruct (Ascii.eqb_spec x c) as [->|_]; [done|]. by rewrite IH.
Qed.

(** The first occurrence of a pattern is behind a text without its first letter. *)
Lemma split_once_app x pat a r : x ∉ a -> split_once (x :: pat) (a ++ x :: pat ++ r) = Some (a, r).
Proof.
  assert (Hcons : forall y l, split_once (x :: pat) (y :: l) =
    if prefixb (x :: pat) (y :: l) then Some ([], drop (length (x :: pat)) (y :: l))
    else '(a, b) ← split_once (x :: pat) l; Some (y :: a, b)) by done.
  induction a as [|y a IH]; intros Hx; cbn [app]; rewrite Hcons.
  - rewrite (proj2 (prefixb_spec (x :: pat) (x :: pat ++ r))) by (by exists r).
    change (x :: pat ++ r) with ((x :: pat) ++ r). by rewrite drop_app_length.
  - apply not_elem_of_cons in Hx as [Hy Hx]. cbn [prefixb]. destruct (Ascii.eqb_spec x y) as [->|_]; [done|]. cbn [andb]. by rewrite IH.
Qed.

Lemma forallb_weaken (f g : byte -> bool) l : (forall c, f c = true -> g c = true) -> forallb f l = true -> forallb g l = true.
Proof. intros Hfg Hl. apply forallb_forall. intros c Hc. apply Hfg. rewrite forallb_forall in Hl. by apply Hl. Qed.

Section ReadBack.
  Variable fmt3 : N -> string.
  Hypothesis Hfmt : fmt3_ok fmt3.

Lemma layer_text_bytes l : bytes_of (layer_text fmt3 l) = bytes_of l.1 ++ bytes_of ";dur=" ++ bytes_of (fmt3 l.2).
Proof. unfold layer_text. by rewrite !bytes_of_app. Qed.

Lemma layer_no_comma l : layer_name l.1 = true -> ","%char ∉ bytes_of (layer_text fmt3 l).
Proof.
  intros Hn. rewrite layer_text_bytes, !elem_of_app. intros [Hc|[Hc|Hc]]; revert Hc.
  - by eapply forallb_not_elem; [exact Hn|].
  - cbn. rewrite list_elem_of_In. cbn. by intuition.
  - by eapply forallb_not_elem; [exact (Hfmt _)|].
Qed.

Lemma read_layer_text l pre : layer_name l.1 = true -> pre = [] \/ pre = bytes_of " " ->
  read_layer (pre ++ bytes_of (layer_text fmt3 l)) = Some (l.1, fmt3 l.2).
Proof.
  intros Hn Hp. unfold read_layer.
  assert (Hs : skip_space (pre ++ bytes_of (layer_text fmt3 l)) = bytes_of (layer_text fmt3 l)).
  { destruct Hp as [->| ->]; [|done]. rewrite layer_text_bytes. unfold layer_name in Hn. destruct (bytes_of l.1) as [|c r]; [done|]. cbn in *.
    destruct (Ascii.eqb_spec c " ") as [->|_]; [done|done]. }
  assert (E : split_once (bytes_of ";dur=") (bytes_of l.1 ++ bytes_of ";dur=" ++ bytes_of (fmt3 l.2)) = Some (bytes_of l.1, bytes_of (fmt3 l.2))).
  { apply (split_once_app ";"%char (bytes_of "dur=")). by eapply forallb_not_elem; [exact Hn|]. }
  rewrite Hs, layer_text_bytes, E. cbn [mbind option_bind fst snd]. by rewrite !string_of_bytes_of.
Qed.

(** The header without its loop. *)
Definition tail_text (t : RequestTiming) : bytes := flat_map (fun l => bytes_of ", " ++ bytes_of (layer_text fmt3 l)) t.

Lemma tail_fold (f : nat -> nat) t s : (forall i, 0 < f i) ->
  bytes_of (fold_left (fun s x => s +:+ (if bool_decide (0 < x.1) then ", " else "") +:+ layer_text fmt3 x.2) (imap (fun i x => (f i, x)) t) s)
  = bytes_of s ++ tail_text t.
Proof.
  revert f s. induction t as [|x t IH]; intros f s Hf; [symmetry; apply app_nil_r|]. cbn [imap fold_left fst snd].
  rewrite bool_decide_eq_true_2 by done. etransitivity; [apply (IH (fun i => f (S i))); done|].
  change (tail_text (x :: t)) with ((bytes_of ", " ++ bytes_of (layer_text fmt3 x)) ++ tail_text t). by rewrite !bytes_of_app, <- !app_assoc.
Qed.

Lemma to_server_timing_cons l t : bytes_of (to_server_timing fmt3 (l :: t)) = bytes_of (layer_text fmt3 l) ++ tail_text t.
Proof. apply (tail_fold S t (layer_text fmt3 l)). lia. Qed.

Lemma read_tail t : Forall (fun l => layer_name l.1 = true) t -> forall p, ","%char ∉ p ->
  split_on ","%char (p ++ tail_text t) = p :: map (fun l => bytes_of " " ++ bytes_of (layer_text fmt3 l)) t.
Proof.
  induction 1 as [|l t Hl _ IH]; intros p Hp; [by rewrite app_nil_r, split_on_no_occ|].
  change (tail_text (l :: t)) with (","%char :: (bytes_of " " ++ bytes_of (layer_text fmt3 l)) ++ tail_text t).
  rewrite split_on_app by done. cbn [map]. f_equal. apply IH. rewrite elem_of_app. intros [Hc|Hc]; [|by apply (layer_no_comma l Hl)].
  apply list_elem_of_In in Hc. cbn in Hc. by intuition.
Qed.

Lemma server_timing_empty t : to_server_timing fmt3 t = "" <-> t = [].
Proof.
  split; [|by intros ->]. destruct t as [|l t]; [done|]. intros E%(f_equal bytes_of). rewrite to_server_timing_cons, layer_text_bytes in E.
  cbn in E. by destruct (bytes_of l.1).
Qed.

(** The header reads back: the entries between its commas are the layers, in the order they
    ended, with their times; without layers there is no header. *)
Theorem server_timing_reads_back t : Forall (fun l => layer_name l.1 = true) t -> t <> [] ->
  read_server_timing (to_server_timing fmt3 t) = Some (map (fun l => (l.1, fmt3 l.2)) t).
Proof.
  intros Ht Hn. destruct t as [|l t]; [done|]. inv Ht as [|? ? Hl Ht']. unfold read_server_timing.
  rewrite to_server_timing_cons, read_tail by (done || by apply layer_no_comma). apply mapM_Some. cbn [map].
  constructor; [apply (read_layer_text l []); [done|by left]|]. clear Hl Hn. induction Ht' as [|x t Hx _ IH]; [constructor|]. cbn [map]. constructor; [|done].
  apply read_layer_text; [done|by right].
Qed.

Lemma server_timing_visible t : Forall (fun l => layer_name l.1 = true) t -> visible_str (to_server_timing fmt3 t) = true.
Proof.
  assert (Hv : forall l, layer_name l.1 = true -> forallb visible (bytes_of (layer_text fmt3 l)) = true).
  { intros l Hl. rewrite layer_text_bytes, !forallb_app, !andb_true_iff. split_and!; [|done|].
    - eapply forallb_weaken; [|exact Hl]. intros c. unfold visible, is_lower, is_digit, in_range.
      destruct (Ascii.eqb_spec c "_") as [->|_]; [done|]. rewrite orb_false_r, orb_true_iff, !andb_true_iff. repeat rewrite N.leb_le. lia.
    - eapply forallb_weaken; [|exact (Hfmt l.2)]. intros c. unfold visible, is_digit, in_range.
      destruct (Ascii.eqb_spec c ".") as [->|_]; [done|]. rewrite orb_false_r, !andb_true_iff. repeat rewrite N.leb_le. lia. }
  unfold visible_str. destruct t as [|l t]; [done|]. intros Ht. inv Ht as [|? ? Hl Ht']. rewrite to_server_timing_cons, forallb_app, Hv by done. cbn [andb].
  induction Ht' as [|x t Hx _ IH]; [done|]. change (tail_text (x :: t)) with ((bytes_of ", " ++ bytes_of (layer_text fmt3 x)) ++ tail_text t).
  by rewrite !forallb_app, Hv, IH.
Qed.

End ReadBack.

(** ** What an S3 request gets back *)

Section Answer.
  Context `{Http} `{!HttpOk} `{ErrorJson} (fmt3 : N -> string) (Hfmt : fmt3_ok fmt3).

Lemma insert_header_ne name value r k : k <> name -> rp_headers (insert_header name value r) !! k = rp_headers r !! k.
Proof. intros Hk. unfold insert_header. case_match; [|done]. cbn. by rewrite lookup_insert_ne. Qed.

Lemma insert_header_eq name value r : visible_str value = true -> rp_headers (insert_header name value r) !! name = Some value.
Proof. intros Hv. unfold insert_header. rewrite (proj1 (header_visible _ Hv)). cbn. apply lookup_insert_eq. Qed.

Lemma insert_header_rest name value r : rp_status (insert_header name value r) = rp_status r /\ rp_body (insert_header name value r) = rp_body r.
Proof. unfold insert_header. by case_match. Qed.

Definition base_answer (r : result string Response) : Response :=
  match r with Ok resp => resp | Err _ => error_response 500 "internal error" end.

(** What the dispatcher adds to an S3 answer.  When the service records the layers [ls] and
    answers [r], the status and the body are those of [r], or a 500 when the service fails; the
    request id is in its header; the timing header reads back as the layers of the request, in
    order, and last the time of the whole call; no other header changes; and with metrics on, the
    request is recorded once, with its label, the status that is sent, and the lengths the two
    sides announced. *)
Theorem answer_carries_timing request_id m metrics call rq now now' ls r :
  visible_str request_id = true -> Forall (fun l => layer_name l.1 = true) ls ->
  call rq now (Some timing_new) = (now', Some ls, r) ->
  let x := dispatch_s3 fmt3 request_id m metrics call rq now in let resp := x.2.1 in
  rp_status resp = rp_status (base_answer r) /\ rp_body resp = rp_body (base_answer r) /\
  rp_headers resp !! "x-amz-request-id" = Some request_id /\
  (v ← rp_headers resp !! "server-timing"; read_server_timing v)
    = Some (map (fun l => (l.1, fmt3 l.2)) ls ++ [("s3s_total", fmt3 (now' - now)%N)]) /\
  (forall k, k ∉ ["x-amz-request-id"; "x-debug-s3s-ms"; "server-timing"] -> rp_headers resp !! k = rp_headers (base_answer r) !! k) /\
  x.2.2 = if metrics then writes (B := unit) (P := unit) (R := unit) (fun _ => mkBackendInfo "" "" "" None None None)
            (Requested (mkS3Record (guess_op_label m (rq_path rq) (rq_query rq)) (rp_status (base_answer r)) (now' - now)
               (content_length (rq_headers rq)) (content_length (rp_headers (base_answer r))))) else [].
Proof.
  intros Hid Hls Hcall x resp. subst x resp. unfold dispatch_s3, time. rewrite Hcall. cbn [record fmap option_fmap option_map default from_option id snd].
  set (t := timing_record "s3s_total" (now' - now) ls).
  assert (Ht : Forall (fun l => layer_name l.1 = true) t) by (apply Forall_app; split; [done|by repeat constructor]).
  assert (Hn : t <> []) by (unfold t, timing_record; by destruct ls).
  unfold finish_s3. fold (base_answer r). set (r1 := insert_header "x-amz-request-id" request_id (base_answer r)). cbn [fst snd].
  assert (Hr1 : rp_status r1 = rp_status (base_answer r) /\ rp_body r1 = rp_body (base_answer r)) by apply insert_header_rest.
  rewrite bool_decide_eq_false_2 by (rewrite (server_timing_empty fmt3); done).
  set (r2 := insert_header "x-debug-s3s-ms" _ r1). destruct (insert_header_rest "server-timing" (to_server_timing fmt3 t) r2) as [E1 E2].
  destruct (insert_header_rest "x-debug-s3s-ms" (fmt3 (now' - now)%N +:+ "ms") r1) as [E3 E4]. fold r2 in E3, E4. destruct Hr1 as [E5 E6].
  split_and!.
  - by rewrite E1, E3, E5.
  - by rewrite E2, E4, E6.
  - unfold r2. rewrite !insert_header_ne by done. by apply insert_header_eq.
  - rewrite insert_header_eq by (by apply server_timing_visible). cbn [mbind option_bind].
    rewrite (server_timing_reads_back fmt3 Hfmt t Ht Hn). unfold t, timing_record. by rewrite map_app.
  - intros k Hk. unfold r2, r1. rewrite !insert_header_ne; [done|intros ->; apply Hk; set_solver..].
  - destruct metrics; [|done]. cbn [writes q_op q_status q_duration q_bytes_in q_bytes_out]. rewrite E5.
    assert (Hc : content_length (rp_headers r1) = content_length (rp_headers (base_answer r))).
    { unfold content_length, r1. by rewrite insert_header_ne by done. }
    by rewrite Hc.
Qed.

(** The counter of the bytes sent counts what an answer announces: the answer to a HEAD request
    adds the length of an object that is not sent. *)
Theorem announced_bytes_counted op request_id bytes_in total t resp n : (0 < n)%N -> rp_body resp = [] ->
  content_length (rp_headers resp) = n ->
  incs ("abixio_s3_bytes_sent_total", [op]) (finish_s3 fmt3 request_id op bytes_in total true t (Ok resp)).2 = n.
Proof.
  intros Hn _ Hc. unfold finish_s3. cbn [snd].
  assert (Hc' : content_length (rp_headers (insert_header "x-amz-request-id" request_id resp)) = n).
  { rewrite <- Hc. unfold content_length. by rewrite insert_header_ne by done. }
  rewrite Hc'. unfold record_s3, record_request. rewrite !incs_app, (bool_decide_eq_true_2 (0 < n)%N) by done. cbn [incs].
  repeat case_bool_decide; cbn [incs]; repeat case_bool_decide; simplify_eq; lia.
Qed.

End Answer.

(** ** A request *)

Section Demo.
  Local Existing Instances demo_http demo_errors.

(** Microseconds as milliseconds. *)
Definition ex_fmt3 (d : N) : string :=
  let us := ((d + 500) / 1000)%N in
  pretty (us / 1000)%N +:+ "." +:+ pretty (us mod 1000 / 100)%N +:+ pretty (us mod 100 / 10)%N +:+ pretty (us mod 10)%N.

Lemma ex_fmt3_ok : fmt3_ok ex_fmt3.
Proof.
  assert (Hp : forall n : N, forallb (fun c => is_digit c || Ascii.eqb c ".") (bytes_of (pretty n)) = true).
  { intros n. eapply forallb_weaken; [|apply pretty_digits]. intros c ->. done. }
  intros d. unfold ex_fmt3. by rewrite !bytes_of_app, !forallb_app, !Hp.
Qed.

Example layers_in_order :
  to_server_timing ex_fmt3 [("dispatch", 5000%N); ("s3s_total", 1380000%N); ("storage", 265000%N)]
  = "dispatch;dur=0.005, s3s_total;dur=1.380, storage;dur=0.265".
Proof. vm_compute. reflexivity. Qed.

(** A service with one layer that answers four bytes after one millisecond. *)
Definition demo_service (_ : Request) : Timed (result string Response) :=
  time "storage" (fun now scope => (now + 1000000, scope, Ok (mkResponse 200 {["content-length" := "4"]} (bytes_of "meow")))%N).

Lemma answer_carries_timing_witness :
  let x := dispatch_s3 ex_fmt3 "id-1" MGet true demo_service (mkRequest "/photos/cat" "" ∅ []) 7 in
  rp_status x.2.1 = 200%N /\ (v ← rp_headers x.2.1 !! "server-timing"; read_server_timing v) = Some [("storage", "1.000"); ("s3s_total", "1.000")] /\
  incs ("abixio_s3_bytes_sent_total", ["GetObject"]) x.2.2 = 4%N.
Proof.
  destruct (answer_carries_timing ex_fmt3 ex_fmt3_ok "id-1" MGet true demo_service (mkRequest "/photos/cat" "" ∅ []) 7 1000007
    [("storage", 1000000%N)] (Ok (mkResponse 200 {["content-length" := "4"]} (bytes_of "meow")))) as (H1 & _ & _ & H4 & _ & H6);
    [vm_compute; reflexivity|by repeat constructor|vm_compute; reflexivity|].
  split_and!; [exact H1|etransitivity; [exact H4|]|etransitivity; [exact (f_equal (incs _) H6)|]]; vm_compute; reflexivity.
Defined.

End Demo.
